(* ===== verification/_CoqProject ===== *)
-Q . S2P
Prelude.v
Logger.v
Severity.v
PolicyValue.v
ConfigFile.v
PolicyModel.v
Registry.v
DependencyGraph.v
Planner.v
Application.v
FileModel.v
AtomicWriter.v
AtomicFacts.v
SecureRead.v
StateStore.v
ResponseMode.v
Json.v
JsonRead.v
AccessGate.v
TargetStore.v
Effects.v
Controller.v
ControllerFacts.v
ControllerAuthority.v
ControllerDisk.v
Reporter.v
DeviceData.v
DeviceDb.v
DevicePolicy.v
DeviceIncidentEvent.v
DeviceIncident.v
OwnershipGrammar.v
MutationRecord.v
MutationValid.v
MutationCodec.v
CodecFacts.v
CodecText.v
Journal.v
JournalLoad.v
JournalFacts.v
JournalSteps.v
JournalOwnership.v
JournalDisk.v
JournalRecovery.v
Progress.v
JournalProgress.v
JournalExamples.v
TextLines.v
LoginDefsConfig.v
LoginDefsFacts.v
Contents.v
Machine.v
LoginDefsTransaction.v
LoginDefsOwnership.v
LoginDefsEffective.v
LoginDefsSafety.v
LoginDefsTheorems.v
LoginDefsExamples.v
PamStack.v
PamFlow.v
PamPaths.v
PamEvidence.v
PamJudgement.v
PamExpansion.v
PamTheorems.v
PamExamples.v
PamSlots.v
PamSlotFacts.v
PamTopology.v
PamTransition.v
PamTransitionFacts.v
PamTruth.v
PamWriter.v
PamMachine.v
PamWriterFacts.v
PamWriterWorld.v
PamRelease.v
PamReleaseFacts.v
PamTopologyTheorems.v
PamTopologyExamples.v
