(* ===== verification/Prelude.v ===== *)
(** FIC: a verification development.

    FIC is a host-hardening service for Linux. A privileged daemon (fic/) keeps
    a registry of policies, orders them by their dependencies, applies them,
    records every change of the system in a mutation journal so that it can be
    undone, and turns violations into an incident with a severity and a
    containment. A second daemon (fic-dick/) controls devices and reports
    missing permanent devices to the first. Libraries shared by both are under
    fic-common/. The development models the parts below, definition by
    definition, and proves what makes them correct; each file opens with the
    sources it follows.

    ** Parts, files and sources

    - This file: exceptions ([exc]), C++ maps as sorted association lists
      ([smap]), texts and numbers. Logger (logging/Logger), Severity
      (IncidentSeverity), PolicyValue (PolicyTypeValue), ConfigFile
      (ConfigFileHandler, FileHandler, ModuleConfigFileHandler).
    - Policies: PolicyModel (Policy, PolicyDependency, PolicyApplyResult),
      Registry (PolicyRegistry), DependencyGraph (PolicyDependencyGraph), Planner
      (PolicyExecutionPlanner), Application (PolicyApplication). A policy's
      [apply] acts on a world the planner does not look into.
    - Files: FileModel is a directory with system calls that can fail, other
      processes that act between any two calls, and crashes; AtomicWriter and
      SecureRead follow AtomicFileWriter and SecureStateFile call by call,
      AtomicFacts and Progress hold what they guarantee, Contents what one file
      can be after a crash.
    - Incidents: StateStore (IncidentStateStore), ResponseMode
      (IncidentResponseMode), TargetStore (IncidentSessionTargetStore),
      AccessGate (FicReadinessStatus, IncidentAccessClient,
      IncidentAccessGateCore), Controller with ControllerFacts,
      ControllerAuthority and ControllerDisk (IncidentController) over the call
      trees of Effects, Reporter (PolicyIncidentReporter).
    - Devices: DeviceData, DeviceDb (fic-device-db/DB), DevicePolicy
      (DeviceControlDaemon, DeviceTreeSnapshot), DeviceIncident and
      DeviceIncidentEvent (both sides of a missing device).
    - Mutation journal: Json and JsonRead (the JSON values and the exceptions of
      reading them), OwnershipGrammar, MutationRecord, MutationValid,
      MutationCodec with CodecFacts and CodecText (the document), Journal and
      JournalLoad (the object, its changes, its files), JournalFacts,
      JournalSteps, JournalOwnership, JournalDisk, JournalRecovery,
      JournalProgress and JournalExamples (what holds of them). All of
      rollback/MutationJournal and DaemonMutationJournal except the typed SSH
      and SSSD transactions.
    - Managed files: TextLines (files as lines), Machine (a program
      over the journal and one configuration directory);
      LoginDefsConfig with LoginDefsFacts and LoginDefsEffective
      (IdentityLoginDefsManagedConfig), LoginDefsTransaction with
      LoginDefsOwnership, LoginDefsSafety, LoginDefsTheorems and
      LoginDefsExamples (IdentityLoginDefsManagedTransaction).
    - PAM: PamStack with PamExpansion (PamConfiguration: the parser and the
      expansion of includes; which file a service name stands for is the
      parameter [read_service]), PamFlow (PamControlFlowAnalyzer, the symbolic
      execution and its analyses), PamPaths (the ways through a stack, one at a
      time), PamEvidence, PamJudgement, PamTheorems, PamExamples.
    - PAM password topology: PamSlots with PamSlotFacts (PamManagedPasswordSlots:
      the files FIC owns), PamTopology (PamPasswordTopologyModel, -Planner and
      -State: classes, safety, plans, inspection), PamTransition with
      PamTransitionFacts and PamTruth (PamPasswordTopologyTransitionExecutor, a
      program over calls to the tool and to the slot writers), PamWriter with
      PamWriterFacts (PamManagedPasswordSlotWriter on PamConfigFileTransaction, a
      program over calls to the disk and the journal), PamMachine and
      PamWriterWorld (a machine with files, and the writers serving a transition
      on it), PamRelease with PamReleaseFacts (the coordinator that applies a
      topology and the release of the packages), PamTopologyTheorems,
      PamTopologyExamples (a machine that runs).
    Components meet at interfaces: the state store is written against the class
    [StateFiles], whose laws the atomic writer and the secure reader discharge;
    the JSON library is the class [JsonText] with its laws; the controller's
    partners are calls answered by a handler; the journal and the configuration
    file are the two disks of a [Machine].

    ** What the theorems show

    - Policies: the graph check accepts exactly the sound acyclic graphs;
      execution terminates, reports every requested root once, and a policy is
      applied only after all its required dependencies.
    - Files: a conditional write replaces exactly the expected state by the whole
      new content or changes nothing, whichever calls fail.
    - Incidents: a raise is monotonic and fail-closed down to what a crash can
      leave; the store refines a severity register; no session or user is locked
      or terminated without authority; success of a containment is proven.
    - Devices: the tree snapshot, the preview and the daemon agree on the level
      of every device; a missing device is never lost between the daemons.
    - Journal: whatever is written can be loaded again and reads as the records
      in memory, and ownership is unique, as long as the callers keep what the
      journal does not check ([caller_ok]); ids are never reused; an answered operation
      is durable, or without effect, or poisons the journal; a vanished journal
      is not recreated; sound files lead back to a usable journal.
    - login.defs: the parser is exactly its grammar; an edit changes one
      sub-block; apply and release keep every sub-block accounted for by the
      journal, whatever fails and wherever a crash comes; success means durable
      and effective; apply ends within two passes.
    - PAM: a built stack is the expansion of its files; the symbolic execution
      finds exactly the ends of the paths, under pam.conf(5) save for the answer
      ignore of required and requisite modules; password enforcement and account
      lockout are declared effective exactly when every path enforces them.
    - PAM password topology: the slot grammar is exact; plans go through safe
      states only; activating a slot is write-ahead; no moment of a transition, of
      the writers behind it or of its compensation leaves a selected profile
      without an active slot; what a transition reports is backed by what it saw; an
      application reports what it left, and a release leaves nothing selected.
    Examples prove the findings: places where the code and its documentation, or
    the code and its purpose, part.

    ** Bounds and fuel

    Recursion that is not structural carries fuel, and a theorem says how much is
    enough: the planner and the graph search one unit per registered policy and
    more ([execute_total]), the raise and the initialization as many attempts as
    the source's own loops, the restarted apply of login.defs two passes; the
    limits of the PAM expansion and execution are the source's own.
    Integers that can overflow are kept at their width (mutation ids and clocks
    of the journal, uids, sizes); elsewhere nat and Z stand for values far below
    their limits. [string] is a sequence of bytes.

    ** Not modelled

    - Diagnostic texts, log files, audit sinks and test hooks; threads and
      advisory locks (operations run one after another, other processes act on
      the disk between system calls).
    - The typed SSH and SSSD transactions of the journal, and the executor of
      rollbacks beyond what is listed above.
    - The writers of the other PAM files, and the firewall, sysctl, GRUB, sudo,
      SSH, SSSD, Kerberos, fstab and desktop modules: they mostly run system
      tools and edit files the way the modelled transactions do.
    - Sockets, service activation, platform probing, the command-line, graphical
      and prelogin clients: I/O and user interface around the modelled core.
    - SQLite, nlohmann::json, std::regex and PAM themselves: parameters with
      laws where the program relies on them. *)

From stdpp Require Export base gmap strings list sorting relations.
From Stdlib Require Export ZArith Lia Ascii.

#[global] Open Scope Z_scope.
#[global] Open Scope nat_scope.
#[global] Open Scope list_scope.

(** * Exceptions

    [exc A] is the value of a C++ call that may leave by an exception: it is
    either a returned value or the [what()] text of the exception. *)

Inductive exc (A : Type) : Type :=
| Val (a : A)
| Exn (msg : string).
Arguments Val {A} _.
Arguments Exn {A} _.

Definition exc_bind {A B} (m : exc A) (k : A → exc B) : exc B :=
  match m with Val a => k a | Exn e => Exn e end.

Declare Scope fic_scope.
Delimit Scope fic_scope with fic.
Notation "'let!' x ':=' c 'in' k" := (exc_bind c (fun x => k))
  (at level 100, x pattern, c at next level, right associativity) : fic_scope.
Open Scope fic_scope.

Lemma exc_bind_Val {A B} (m : exc A) (k : A → exc B) b :
  exc_bind m k = Val b ↔ ∃ a, m = Val a ∧ k a = Val b.
Proof. destruct m; simpl; naive_solver. Qed.

(** * Automation *)

Create HintDb fic discriminated.

(** Destructs the scrutinee of a match in a hypothesis, remembering it. *)
Ltac case_hyp H :=
  match type of H with
  | context [match ?x with _ => _ end] => destruct x eqn:?; simplify_eq/=
  end.

Ltac inv_all := repeat match goal with
  | H : Some _ = Some _ |- _ => injection H as H; try subst
  | H : Val _ = Val _ |- _ => injection H as H; try subst
  | H : (_, _) = (_, _) |- _ => injection H as ? ?; try subst
  | H : exists _, _ |- _ => destruct H
  | H : _ /\ _ |- _ => destruct H
  | H : exc_bind _ _ = Val _ |- _ => apply exc_bind_Val in H
  end.

(** * Total orders given by a three-way comparison

    The source orders [std::string] with [char_traits<char>::compare] (bytes,
    unsigned) and [PolicyRef] with [std::tie]; both are instances. *)

Class Cmp (A : Type) := {
  cmp : A → A → comparison;
  cmp_eq : ∀ x y, cmp x y = Eq ↔ x = y;
  cmp_opp : ∀ x y, cmp y x = CompOpp (cmp x y);
  cmp_lt_trans : ∀ x y z, cmp x y = Lt → cmp y z = Lt → cmp x z = Lt
}.

Definition clt {A} `{Cmp A} : relation A := λ x y, cmp x y = Lt.
Definition cle {A} `{Cmp A} : relation A := λ x y, cmp x y ≠ Gt.

Section cmp.
Context {A} `{Cmp A}.
Implicit Types x y z : A.

#[export] Instance clt_dec x y : Decision (clt x y).
Proof. unfold clt; destruct (cmp x y); [right|left|right]; done. Defined.
#[export] Instance cle_dec x y : Decision (cle x y).
Proof. unfold cle; destruct (cmp x y); [left|left|right]; try done; naive_solver. Defined.

Lemma cmp_refl x : cmp x x = Eq.
Proof. by apply cmp_eq. Qed.

#[export] Instance clt_strict : StrictOrder (@clt A _).
Proof.
  split.
  - intros x Hx. unfold clt in Hx. rewrite cmp_refl in Hx. done.
  - intros x y z. apply cmp_lt_trans.
Qed.

Lemma cle_lt_or_eq x y : cle x y ↔ clt x y ∨ x = y.
Proof.
  unfold cle, clt. rewrite <- (cmp_eq x y).
  destruct (cmp x y); naive_solver.
Qed.

Lemma clt_cle x y : clt x y → cle x y.
Proof. rewrite cle_lt_or_eq. auto. Qed.

Lemma not_clt_cle x y : ¬ clt x y ↔ cle y x.
Proof.
  unfold clt, cle. rewrite (cmp_opp x y). destruct (cmp x y); naive_solver.
Qed.

#[export] Instance cle_refl : Reflexive (@cle A _).
Proof. intros x. unfold cle. by rewrite cmp_refl. Qed.

#[export] Instance cle_trans : Transitive (@cle A _).
Proof.
  intros x y z. rewrite !cle_lt_or_eq. intros [Hxy | ->] [Hyz | ->]; auto.
  left. by transitivity y.
Qed.

#[export] Instance cle_antisymm : AntiSymm (=) (@cle A _).
Proof.
  intros x y. rewrite !cle_lt_or_eq. intros [Hxy | ->] [Hyx | Heq]; try done.
  exfalso. apply (irreflexivity clt x). by transitivity y.
Qed.

#[export] Instance cle_total : Total (@cle A _).
Proof.
  intros x y. unfold cle. rewrite (cmp_opp x y). destruct (cmp x y); auto.
Qed.
End cmp.

Lemma ascii_cmp_lt_trans a b c :
  Ascii.compare a b = Lt → Ascii.compare b c = Lt → Ascii.compare a c = Lt.
Proof. unfold Ascii.compare. rewrite !N.compare_lt_iff. lia. Qed.

#[export] Program Instance string_Cmp : Cmp string := { cmp := String.compare }.
Next Obligation.
  intros x y; split; [apply String.compare_eq_iff|]. intros <-.
  induction x as [|a x IH]; simpl; [done|]. unfold Ascii.compare. by rewrite N.compare_refl.
Qed.
Next Obligation. intros x y. apply String.compare_antisym. Qed.
Next Obligation.
  induction x as [|a x IH]; intros [|b y] [|c z]; simpl; try done.
  destruct (Ascii.compare a b) eqn:E1; try done.
  - apply Ascii.compare_eq_iff in E1 as ->.
    destruct (Ascii.compare b c); try done. apply IH.
  - destruct (Ascii.compare b c) eqn:E2; try done.
    + apply Ascii.compare_eq_iff in E2 as <-. by rewrite E1.
    + by rewrite (ascii_cmp_lt_trans _ _ _ E1 E2).
Qed.

Definition lex_cmp (c d : comparison) : comparison :=
  match c with Eq => d | _ => c end.

#[export] Program Instance prod_Cmp {A B} `{Cmp A, Cmp B} : Cmp (A * B) :=
  { cmp x y := lex_cmp (cmp x.1 y.1) (cmp x.2 y.2) }.
Next Obligation.
  intros A B HA HB [a b] [a' b']; simpl.
  pose proof (cmp_eq a a'). pose proof (cmp_eq b b').
  destruct (cmp a a'), (cmp b b'); simpl; naive_solver.
Qed.
Next Obligation.
  intros A B HA HB [a b] [a' b']; simpl.
  rewrite (cmp_opp a a'), (cmp_opp b b'). by destruct (cmp a a').
Qed.
Next Obligation.
  intros A B HA HB [a b] [a' b'] [a'' b'']; simpl.
  destruct (cmp a a') eqn:E1, (cmp a' a'') eqn:E2; simpl; try done; intros L1 L2.
  - apply cmp_eq in E1 as ->. rewrite E2. simpl. by eapply cmp_lt_trans.
  - apply cmp_eq in E1 as ->. by rewrite E2.
  - apply cmp_eq in E2 as <-. by rewrite E1.
  - by rewrite (cmp_lt_trans _ _ _ E1 E2).
Qed.

#[export] Program Instance Z_Cmp : Cmp Z := { cmp := Z.compare }.
Next Obligation. apply Z.compare_eq_iff. Qed.
Next Obligation. apply Z.compare_antisym. Qed.
Next Obligation. intros x y z. rewrite !Z.compare_lt_iff. lia. Qed.

(** * Sorting

    [std::sort] on a total order: the sorted permutation is unique, so
    [sort_by] is what any conforming implementation returns. *)

Definition sort_set {A} `{Cmp A} (l : list A) : list A := merge_sort cle l.

Section sorting.
Context {A} `{Cmp A}.
Implicit Types l : list A.

Lemma sort_set_perm l : sort_set l ≡ₚ l.
Proof. apply merge_sort_Permutation. Qed.

Lemma sort_set_sorted l : StronglySorted cle (sort_set l).
Proof. apply (StronglySorted_merge_sort cle). Qed.

Lemma elem_of_sort_set l x : x ∈ sort_set l ↔ x ∈ l.
Proof. by rewrite sort_set_perm. Qed.

Lemma sort_set_unique l l' :
  StronglySorted cle l' → l' ≡ₚ l → l' = sort_set l.
Proof.
  intros Hs Hp. apply (StronglySorted_unique cle); [done|apply sort_set_sorted|].
  by rewrite sort_set_perm.
Qed.

Lemma sort_set_id l : StronglySorted cle l → sort_set l = l.
Proof. intros Hs. symmetry. by apply sort_set_unique. Qed.

Lemma sorted_clt_cle l : StronglySorted clt l → StronglySorted cle l.
Proof.
  induction 1 as [|x l Hs IH Hall]; constructor; [done|].
  eapply Forall_impl; [exact Hall|]. intros y. apply clt_cle.
Qed.

Lemma sorted_clt_NoDup l : StronglySorted clt l → NoDup l.
Proof.
  induction 1 as [|x l Hs IH Hall]; constructor; [|done]. intros Hx.
  rewrite Forall_forall in Hall. specialize (Hall x Hx). unfold clt in Hall. by rewrite cmp_refl in Hall.
Qed.

(** Strictly increasing sequences with the same elements are equal. *)
Lemma sorted_clt_ext l l' :
  StronglySorted clt l → StronglySorted clt l' → (∀ x, x ∈ l ↔ x ∈ l') → l = l'.
Proof.
  intros Hl Hl' Hin. apply (StronglySorted_unique cle); [by apply sorted_clt_cle..|].
  apply NoDup_Permutation; [by apply sorted_clt_NoDup..|done].
Qed.
End sorting.

(** * [std::map] with iteration in key order

    A [std::map] is modelled by its iteration sequence: an association list
    whose keys increase strictly. [smap_find] is [find], [smap_emplace] is
    [emplace] (no effect on an existing key), [smap_set] is
    [operator\[\]=]. *)

Definition smap (K V : Type) : Type := list (K * V).

Section smap.
Context {K V : Type} `{Cmp K}.
Implicit Types (k : K) (v : V) (m : smap K V).

Fixpoint smap_find k m : option V :=
  match m with
  | [] => None
  | (k', v) :: m' =>
      match cmp k k' with Eq => Some v | Lt => None | Gt => smap_find k m' end
  end.

Fixpoint smap_set k v m : smap K V :=
  match m with
  | [] => [(k, v)]
  | (k', v') :: m' =>
      match cmp k k' with
      | Eq => (k, v) :: m'
      | Lt => (k, v) :: m
      | Gt => (k', v') :: smap_set k v m'
      end
  end.

Definition smap_emplace k v m : smap K V :=
  match smap_find k m with Some _ => m | None => smap_set k v m end.

Definition smap_wf m : Prop := StronglySorted clt (m.*1).

Lemma smap_wf_cons k v m :
  smap_wf ((k, v) :: m) ↔ smap_wf m ∧ Forall (λ kv, clt k kv.1) m.
Proof.
  unfold smap_wf. simpl. rewrite StronglySorted_cons, Forall_fmap. naive_solver.
Qed.

Lemma smap_wf_nil : smap_wf [].
Proof. constructor. Qed.

Lemma smap_find_elem m k v : smap_wf m → smap_find k m = Some v ↔ (k, v) ∈ m.
Proof.
  induction m as [|[k' v'] m IH]; intros Hwf; [set_solver|].
  apply smap_wf_cons in Hwf as [Hwf Hall]. simpl.
  rewrite Forall_forall in Hall.
  destruct (cmp k k') eqn:E.
  - apply cmp_eq in E as ->. split; [intros [= ->]; set_solver|].
    intros [[= ->]|Hin]%elem_of_cons; [done|].
    apply Hall in Hin. simpl in Hin. exfalso. exact (irreflexivity clt _ Hin).
  - split; [done|]. intros [Heq|Hin]%elem_of_cons.
    + simplify_eq. by rewrite cmp_refl in E.
    + apply Hall in Hin. simpl in Hin. unfold clt in Hin.
      pose proof (cmp_lt_trans _ _ _ E Hin) as HH. by rewrite cmp_refl in HH.
  - rewrite IH by done. rewrite elem_of_cons. split; [auto|].
    intros [Heq|]; [|done]. simplify_eq. by rewrite cmp_refl in E.
Qed.

Lemma smap_find_set_eq m k v : smap_find k (smap_set k v m) = Some v.
Proof.
  induction m as [|[k' v'] m IH]; simpl.
  - by rewrite cmp_refl.
  - destruct (cmp k k') eqn:E; simpl; rewrite ?cmp_refl, ?E; done.
Qed.

Lemma smap_find_set_ne m k k' v :
  smap_wf m → k ≠ k' → smap_find k' (smap_set k v m) = smap_find k' m.
Proof.
  intros Hwf Hne. induction m as [|[k0 v0] m IH]; simpl.
  - destruct (cmp k' k) eqn:E; [|done|done]. apply cmp_eq in E. congruence.
  - apply smap_wf_cons in Hwf as [Hwf Hall].
    destruct (cmp k k0) eqn:E; simpl.
    + apply cmp_eq in E as ->. destruct (cmp k' k0) eqn:E'; [|done|done].
      apply cmp_eq in E'. congruence.
    + destruct (cmp k' k) eqn:E'.
      * apply cmp_eq in E'. congruence.
      * by rewrite (cmp_lt_trans _ _ _ E' E).
      * done.
    + rewrite IH by done. done.
Qed.

Lemma smap_set_keys m k v k' : k' ∈ (smap_set k v m).*1 ↔ k' = k ∨ k' ∈ m.*1.
Proof.
  induction m as [|[k0 v0] m IH]; simpl; [set_solver|].
  destruct (cmp k k0) eqn:E; simpl; rewrite ?elem_of_cons, ?IH.
  - apply cmp_eq in E as ->. naive_solver.
  - naive_solver.
  - naive_solver.
Qed.

Lemma smap_set_wf m k v : smap_wf m → smap_wf (smap_set k v m).
Proof.
  induction m as [|[k0 v0] m IH]; intros Hwf; simpl.
  - apply smap_wf_cons. split; [apply smap_wf_nil|constructor].
  - pose proof Hwf as Hwf'. apply smap_wf_cons in Hwf as [Hwf Hall].
    destruct (cmp k k0) eqn:E.
    + apply cmp_eq in E as ->. by apply smap_wf_cons.
    + apply smap_wf_cons. split; [done|]. constructor; [done|].
      eapply Forall_impl; [exact Hall|]. intros [k1 v1]; simpl. by apply cmp_lt_trans.
    + apply smap_wf_cons. split; [auto|].
      rewrite Forall_forall in Hall |- *. intros [k1 v1] Hin; simpl.
      assert (k1 ∈ (smap_set k v m).*1) as Hk by (apply list_elem_of_fmap; by exists (k1, v1)).
      apply smap_set_keys in Hk as [->|Hk].
      * unfold clt. by rewrite (cmp_opp k k0), E.
      * apply list_elem_of_fmap in Hk as ([k2 v2] & -> & Hin2). apply (Hall _ Hin2).
Qed.

Lemma smap_emplace_wf m k v : smap_wf m → smap_wf (smap_emplace k v m).
Proof. unfold smap_emplace. destruct (smap_find k m); auto using smap_set_wf. Qed.
End smap.

#[export] Hint Resolve smap_wf_nil smap_set_wf smap_emplace_wf : fic.

(** * Characters and strings *)

(** [std::isspace] in the C locale. *)
Definition isspace (c : Ascii.ascii) : bool :=
  let n := Ascii.N_of_ascii c in
  (n =? 32)%N || ((9 <=? n) && (n <=? 13))%N.

Lemma string_app_assoc (a b c : string) : (a +:+ b) +:+ c = a +:+ (b +:+ c).
Proof. induction a as [|x a IH]; [done|]. by apply (f_equal (String x)). Qed.

Lemma string_app_nil_r (s : string) : s +:+ "" = s.
Proof. induction s as [|c s IH]; [done|]. by apply (f_equal (String c)). Qed.

Fixpoint contains (c : Ascii.ascii) (s : string) : bool :=
  match s with
  | EmptyString => false
  | String a s' => Ascii.eqb a c || contains c s'
  end.

Lemma contains_app c s t : contains c (s +:+ t) = contains c s || contains c t.
Proof.
  induction s as [|a s IH]; [done|].
  change (String a s +:+ t) with (String a (s +:+ t)). simpl. rewrite IH. apply orb_assoc.
Qed.

(** ** Substrings from the front *)

Lemma substring_skip a b k : String.substring (String.length a) k (a +:+ b) = String.substring 0 k b.
Proof. induction a as [|c a IH]; [done|]. change (String c a +:+ b) with (String c (a +:+ b)). apply IH. Qed.

Lemma substring_front k b : ∃ rest, b = String.substring 0 k b +:+ rest.
Proof.
  revert k. induction b as [|c b IH]; intros k; [by exists ""; destruct k|].
  destruct k as [|k]; [by exists (String c b)|]. destruct (IH k) as [rest Hr]. exists rest.
  simpl. change (String c (String.substring 0 k b) +:+ rest) with (String c (String.substring 0 k b +:+ rest)).
  by rewrite <-Hr.
Qed.

Lemma substring_front_nil k b : String.substring 0 (S k) b = "" → b = "".
Proof. by destruct b. Qed.

Lemma substring_front_all k b : String.length b ≤ k → String.substring 0 k b = b.
Proof.
  revert k. induction b as [|c b IH]; intros k Hk; [by destruct k|].
  destruct k as [|k]; simpl in *; [lia|]. by rewrite IH by lia.
Qed.

Lemma string_length_app a b : String.length (a +:+ b) = String.length a + String.length b.
Proof. induction a as [|c a IH]; [done|]. change (String c a +:+ b) with (String c (a +:+ b)). simpl. by rewrite IH. Qed.

Lemma substring_cut n b : n ≤ String.length b →
  String.substring 0 n b +:+ String.substring n (String.length b - n) b = b ∧
  String.length (String.substring n (String.length b - n) b) = String.length b - n.
Proof.
  revert n. induction b as [|c b IH]; intros n Hn; [by destruct n; simpl in Hn; [|lia]|].
  destruct n as [|n].
  - simpl. rewrite substring_front_all by lia. change ("" +:+ String c b) with (String c b). split; [done|].
    simpl. lia.
  - simpl in *. destruct (IH n ltac:(lia)) as [Ha Hb]. split; [|done].
    change (String c (String.substring 0 n b) +:+ ?x) with (String c (String.substring 0 n b +:+ x)). by rewrite Ha.
Qed.

Lemma string_app_inj a a' b b' :
  String.length a = String.length a' → a +:+ b = a' +:+ b' → a = a' ∧ b = b'.
Proof.
  revert a'. induction a as [|c a IH]; intros [|c' a'] Hl; simpl in Hl; try done.
  change (String c a +:+ b) with (String c (a +:+ b)). change (String c' a' +:+ b') with (String c' (a' +:+ b')).
  intros [= -> Heq]. destruct (IH a' ltac:(lia) Heq) as [-> ->]. done.
Qed.

(** A text of 36 characters with hyphens at 8, 13, 18 and 23 and [digit]
    everywhere else: the loop of the boot id checks. *)
Fixpoint hyphenated_from (digit : Ascii.ascii → bool) (i : nat) (s : string) : bool :=
  match s with
  | EmptyString => true
  | String c s' =>
      (if bool_decide (i ∈ [8; 13; 18; 23]) then Ascii.eqb c "-" else digit c) && hyphenated_from digit (S i) s'
  end.
Definition hyphenated (digit : Ascii.ascii → bool) (s : string) : bool :=
  bool_decide (String.length s = 36) && hyphenated_from digit 0 s.

Definition char_in (low high : Ascii.ascii) (c : Ascii.ascii) : bool :=
  (Ascii.N_of_ascii low <=? Ascii.N_of_ascii c)%N && (Ascii.N_of_ascii c <=? Ascii.N_of_ascii high)%N.

(** Distinct integers between two bounds. *)
Lemma sorted_count (l : list Z) (lo hi : Z) : (lo < hi)%Z → StronglySorted Z.lt l → (∀ x, x ∈ l → (lo < x < hi)%Z) →
  (Z.of_nat (length l) ≤ hi - lo - 1)%Z.
Proof.
  revert lo. induction l as [|x l IH]; intros lo Hlt Hs Hall; simpl; [lia|]. apply StronglySorted_inv in Hs as [Hs Hx].
  rewrite Forall_forall in Hx. pose proof (Hall x ltac:(by left)). specialize (IH x ltac:(lia) Hs).
  enough (Z.of_nat (length l) ≤ hi - x - 1)%Z by lia. apply IH. intros y Hy. split; [by apply Hx|]. apply Hall. by right.
Qed.
