(* ===== verification/Logger.v ===== *)
(** The logger's levels and the bounded capture of the records a policy emits
    (fic-common/fic-core: logging/Logger). The log files, the console and the
    configured threshold are not modelled: the records below are those that
    pass the threshold while a capture is active. *)

From S2P Require Import Prelude.
Open Scope string_scope.
Open Scope nat_scope.

Inductive logLevel := NoLog | TRACE | DEBUG | INFO | WARN | ERROR | FATAL.
#[export] Instance logLevel_eq_dec : EqDecision logLevel.
Proof. solve_decision. Defined.

Definition level_to_string (level : logLevel) : string :=
  match level with
  | TRACE => "TRACE" | DEBUG => "DEBUG" | INFO => "INFO" | WARN => "WARN"
  | ERROR => "ERROR" | FATAL => "FATAL" | NoLog => "UNKNOWN"
  end.

(** [std::toupper] in the "C" locale. *)
Definition toupper (c : ascii) : ascii :=
  let n := nat_of_ascii c in
  if (97 <=? n) && (n <=? 122) then ascii_of_nat (n - 32) else c.

Fixpoint normalize_level_string (value : string) : string :=
  match value with
  | EmptyString => ""
  | String c rest =>
      if isspace c then normalize_level_string rest
      else String (toupper c) (normalize_level_string rest)
  end.

Definition string_to_level (levelStr : string) : logLevel :=
  let normalized := normalize_level_string levelStr in
  if String.eqb normalized "NOLOG" then NoLog
  else if String.eqb normalized "TRACE" then TRACE
  else if String.eqb normalized "DEBUG" then DEBUG
  else if String.eqb normalized "INFO" then INFO
  else if String.eqb normalized "WARN" then WARN
  else if String.eqb normalized "ERROR" then ERROR
  else if String.eqb normalized "FATAL" then FATAL
  else ERROR.

Record LogRecord := mkLog {
  log_timestamp : string;
  log_level : logLevel;
  log_type : string;
  log_message : string
}.

(** * Logger::ScopedCaptureState

    The byte counters are [std::size_t]; [maxBytes - capturedBytes] never wraps
    because [capturedBytes <= maxBytes] holds throughout ([capture_ok]). *)

Record ScopedCaptureState := mkCapture {
  cap_records : list LogRecord;
  cap_maxRecords : nat;
  cap_maxBytes : Z;
  cap_capturedBytes : Z;
  cap_truncated : bool
}.

(** [ScopedCapture(maxRecords = 128, maxBytes = 64 * 1024)]. *)
Definition new_capture : ScopedCaptureState := mkCapture [] 128 (64 * 1024) 0 false.

Definition record_bytes (r : LogRecord) : Z :=
  Z.of_nat (String.length (log_timestamp r) + String.length (log_type r) +
            String.length (log_message r)) + 32.

Definition wrap64 (z : Z) : Z := (z mod 2 ^ 64)%Z.

Definition capture_append (c : ScopedCaptureState) (r : LogRecord) : ScopedCaptureState :=
  let recordBytes := record_bytes r in
  if (cap_maxRecords c <=? length (cap_records c))%nat
     || (wrap64 (cap_maxBytes c - cap_capturedBytes c) <? recordBytes)%Z
  then mkCapture (cap_records c) (cap_maxRecords c) (cap_maxBytes c) (cap_capturedBytes c) true
  else mkCapture (cap_records c ++ [r])%list (cap_maxRecords c) (cap_maxBytes c)
         (cap_capturedBytes c + recordBytes)%Z (cap_truncated c).

(** What [finish] returns after [records] were logged. *)
Definition capture_finish (records : list LogRecord) : list LogRecord * bool :=
  let c := foldl capture_append new_capture records in (cap_records c, cap_truncated c).

Record capture_ok (c : ScopedCaptureState) : Prop := {
  co_count : length (cap_records c) ≤ cap_maxRecords c;
  co_bytes : cap_capturedBytes c = foldr (λ r n, (record_bytes r + n)%Z) 0%Z (cap_records c);
  co_room : (0 ≤ cap_capturedBytes c ≤ cap_maxBytes c ∧ cap_maxBytes c < 2 ^ 64)%Z
}.

Lemma total_bytes_snoc l r :
  foldr (λ r n, (record_bytes r + n)%Z) 0%Z (l ++ [r])%list =
  (foldr (λ r n, (record_bytes r + n)%Z) 0%Z l + record_bytes r)%Z.
Proof. induction l as [|x l IH]; simpl; [lia|]. rewrite IH. lia. Qed.

Lemma record_bytes_pos r : (32 ≤ record_bytes r)%Z.
Proof. unfold record_bytes. lia. Qed.

Lemma capture_append_ok c r : capture_ok c → capture_ok (capture_append c r).
Proof.
  intros [Hc Hb Hr]. unfold capture_append, wrap64.
  rewrite Z.mod_small by lia. pose proof (record_bytes_pos r).
  destruct (Nat.leb_spec (cap_maxRecords c) (length (cap_records c))); simpl; [by split|].
  destruct (Z.ltb_spec (cap_maxBytes c - cap_capturedBytes c) (record_bytes r)); simpl; [by split|].
  split; simpl; [rewrite length_app; simpl; lia|rewrite total_bytes_snoc, Hb; done|lia].
Qed.

Lemma capture_fold_ok c l : capture_ok c → capture_ok (foldl capture_append c l).
Proof. revert c. induction l as [|r l IH]; intros c Hc; simpl; [done|]. by apply IH, capture_append_ok. Qed.

Lemma new_capture_ok : capture_ok new_capture.
Proof. split; simpl; lia. Qed.

(** The captured records are a subsequence of the emitted ones, and nothing
    was dropped unless the capture says so. *)
Lemma capture_fold_spec c l :
  (∃ k, sublist k l ∧ cap_records (foldl capture_append c l) = (cap_records c ++ k)%list) ∧
  (cap_truncated (foldl capture_append c l) = false →
   cap_truncated c = false ∧ cap_records (foldl capture_append c l) = (cap_records c ++ l)%list).
Proof.
  revert c. induction l as [|r l IH]; intros c; simpl.
  { split; [exists []; split; [constructor|]|]; by rewrite app_nil_r. }
  destruct (IH (capture_append c r)) as [(k & Hk & Hrec) Hall]. unfold capture_append in *.
  destruct (_ || _) eqn:Hfull in *; simpl in *.
  - split; [exists k; split; [by constructor|done]|]. intros Ht. by destruct (Hall Ht).
  - split.
    + exists (r :: k). split; [by constructor|]. by rewrite Hrec, <-app_assoc.
    + intros Ht. destruct (Hall Ht) as [? Hr]. by rewrite Hr, <-app_assoc.
Qed.

(** * Properties *)

(** C39. The capture of a policy's log is bounded and honest: whatever is logged
    while it is active, it keeps at most 128 records and 64 KiB (32 bytes of
    overhead per record included), in the order they were logged, and when it
    does not report truncation it has kept every record. *)
Theorem capture_bounded_and_honest (emitted : list LogRecord) :
  let '(kept, truncated) := capture_finish emitted in
  length kept ≤ 128 ∧
  (foldr (λ r n, (record_bytes r + n)%Z) 0%Z kept ≤ 65536)%Z ∧
  sublist kept emitted ∧
  (truncated = false → kept = emitted).
Proof.
  unfold capture_finish. pose proof (capture_fold_ok new_capture emitted new_capture_ok) as [Hc Hb Hr].
  destruct (capture_fold_spec new_capture emitted) as [(k & Hk & Hrec) Hall].
  assert (cap_maxRecords (foldl capture_append new_capture emitted) = 128 ∧
          cap_maxBytes (foldl capture_append new_capture emitted) = 65536%Z) as [Hm1 Hm2].
  { clear. change 65536%Z with (cap_maxBytes new_capture). change 128 with (cap_maxRecords new_capture).
    generalize new_capture. induction emitted as [|r l IH]; intros c; simpl; [done|].
    rewrite !(proj1 (IH _)), !(proj2 (IH _)). unfold capture_append. by destruct (_ || _). }
  rewrite Hm1 in Hc. rewrite Hm2, Hb in Hr. split_and!; [done|lia|by rewrite Hrec|].
  intros Ht. apply (proj2 (Hall Ht)).
Qed.
