(* ===== verification/Severity.v ===== *)
(** Severities of the incident state and of policy violations
    (fic-common/fic-core: incident/IncidentSeverity.h and .cpp).

    The two enumerations, their authoritative token tables with the writer and
    the strict parser that both go through them, the security order and its
    join. *)

From S2P Require Import Prelude.
Open Scope string_scope.
Open Scope nat_scope.

Inductive IncidentSeverity := Unlocked | Soft | Standard | Hard | Isolate.

#[export] Instance IncidentSeverity_eq_dec : EqDecision IncidentSeverity.
Proof. solve_decision. Defined.

(** [static_cast<int>] of the enumerator. *)
Definition severity_int (s : IncidentSeverity) : Z :=
  match s with Unlocked => 0 | Soft => 1 | Standard => 2 | Hard => 3 | Isolate => 4 end%Z.

Inductive ViolationSeverity := VNone | VSoft | VStandard | VHard | VIsolate.

#[export] Instance ViolationSeverity_eq_dec : EqDecision ViolationSeverity.
Proof. solve_decision. Defined.

Definition violation_int (s : ViolationSeverity) : Z :=
  match s with VNone => 0 | VSoft => 1 | VStandard => 2 | VHard => 3 | VIsolate => 4 end%Z.

(** [static_cast] between the two enumerations: same underlying value. *)
Definition violation_of_incident (s : IncidentSeverity) : ViolationSeverity :=
  match s with
  | Unlocked => VNone | Soft => VSoft | Standard => VStandard
  | Hard => VHard | Isolate => VIsolate
  end.

Definition incident_of_violation (s : ViolationSeverity) : IncidentSeverity :=
  match s with
  | VNone => Unlocked | VSoft => Soft | VStandard => Standard
  | VHard => Hard | VIsolate => Isolate
  end.

Definition kIncidentTokens : list (IncidentSeverity * string) :=
  [(Unlocked, "UNLOCKED"); (Soft, "SOFT"); (Standard, "STANDARD");
   (Hard, "HARD"); (Isolate, "ISOLATE")].

Definition kViolationTokens : list (IncidentSeverity * string) :=
  [(Unlocked, "NONE"); (Soft, "SOFT"); (Standard, "STANDARD");
   (Hard, "HARD"); (Isolate, "ISOLATE")].

(** First table entry whose first component satisfies the test. *)
Fixpoint table_find {A B} (P : A → B → bool) (t : list (A * B)) : option (A * B) :=
  match t with
  | [] => None
  | (a, b) :: t' => if P a b then Some (a, b) else table_find P t'
  end.

Definition incidentSeverityToken (severity : IncidentSeverity) : exc string :=
  match table_find (λ s _, bool_decide (s = severity)) kIncidentTokens with
  | Some (_, token) => Val token
  | None => Exn "unknown incident severity value"
  end.

Definition parseIncidentSeverityToken (token : string) : option IncidentSeverity :=
  fst <$> table_find (λ _ t, String.eqb token t) kIncidentTokens.

Definition incidentSeverityLess (left right : IncidentSeverity) : bool :=
  (severity_int left <? severity_int right)%Z.

Definition incidentSeverityAtLeast (value bound : IncidentSeverity) : bool :=
  (severity_int bound <=? severity_int value)%Z.

Definition maxIncidentSeverity (left right : IncidentSeverity) : IncidentSeverity :=
  if incidentSeverityLess left right then right else left.

Definition incidentSeverityIsUnlocked (severity : IncidentSeverity) : bool :=
  bool_decide (severity = Unlocked).

Definition incidentSeverityAllowsOrdinaryLogin (severity : IncidentSeverity) : bool :=
  bool_decide (severity = Unlocked) || bool_decide (severity = Soft).

Definition violationSeverityToken (severity : ViolationSeverity) : exc string :=
  match table_find (λ s _, bool_decide (violation_of_incident s = severity))
          kViolationTokens with
  | Some (_, token) => Val token
  | None => Exn "unknown violation severity value"
  end.

Definition parseViolationSeverityToken (token : string) : option ViolationSeverity :=
  (λ e, violation_of_incident e.1) <$> table_find (λ _ t, String.eqb token t) kViolationTokens.

Definition violationSeverityReacts (severity : ViolationSeverity) : bool :=
  negb (bool_decide (severity = VNone)).

Definition violationSeverityToIncidentSeverity (severity : ViolationSeverity)
  : exc IncidentSeverity :=
  if violationSeverityReacts severity then Val (incident_of_violation severity)
  else Exn "violation severity NONE does not map to an incident severity".

(** * The security order *)

Definition sev_le (a b : IncidentSeverity) : Prop := (severity_int a <= severity_int b)%Z.

#[export] Instance sev_le_dec a b : Decision (sev_le a b).
Proof. unfold sev_le. apply _. Defined.

#[export] Instance sev_le_po : PartialOrder sev_le.
Proof.
  repeat split.
  - intros a. unfold sev_le. lia.
  - intros a b c. unfold sev_le. lia.
  - intros [] []; unfold sev_le; simpl; (done || lia).
Qed.

Lemma sev_le_max_l a b : sev_le a (maxIncidentSeverity a b).
Proof. by destruct a, b; vm_compute. Qed.
Lemma sev_le_max_r a b : sev_le b (maxIncidentSeverity a b).
Proof. by destruct a, b; vm_compute. Qed.
Lemma max_lub a b c : sev_le a c → sev_le b c → sev_le (maxIncidentSeverity a b) c.
Proof. unfold maxIncidentSeverity. destruct incidentSeverityLess; auto. Qed.
Lemma max_comm a b : maxIncidentSeverity a b = maxIncidentSeverity b a.
Proof. by destruct a, b. Qed.
Lemma max_assoc a b c :
  maxIncidentSeverity a (maxIncidentSeverity b c) = maxIncidentSeverity (maxIncidentSeverity a b) c.
Proof. by destruct a, b, c. Qed.
Lemma max_unlocked_l a : maxIncidentSeverity Unlocked a = a.
Proof. by destruct a. Qed.
Lemma sev_le_isolate a : sev_le a Isolate.
Proof. by destruct a; vm_compute. Qed.
Lemma unlocked_sev_le a : sev_le Unlocked a.
Proof. by destruct a; vm_compute. Qed.

#[export] Instance max_comm_inst : Comm (=) maxIncidentSeverity := max_comm.
#[export] Instance max_assoc_inst : Assoc (=) maxIncidentSeverity := max_assoc.

#[export] Hint Resolve sev_le_max_l sev_le_max_r max_lub sev_le_isolate unlocked_sev_le : fic.

(** * Token round trips *)

Lemma incidentSeverityToken_total s : ∃ t, incidentSeverityToken s = Val t.
Proof. destruct s; eexists; reflexivity. Qed.

Lemma parse_incident_token t s :
  parseIncidentSeverityToken t = Some s ↔ incidentSeverityToken s = Val t.
Proof.
  unfold parseIncidentSeverityToken. simpl.
  repeat match goal with
  | |- context [String.eqb t ?u] => destruct (String.eqb_spec t u); simpl; subst
  end; destruct s; split; intros Heq; vm_compute in Heq |- *; congruence.
Qed.

Lemma parse_violation_token t s :
  parseViolationSeverityToken t = Some s ↔ violationSeverityToken s = Val t.
Proof.
  unfold parseViolationSeverityToken. simpl.
  repeat match goal with
  | |- context [String.eqb t ?u] => destruct (String.eqb_spec t u); simpl; subst
  end; destruct s; split; intros Heq; vm_compute in Heq |- *; congruence.
Qed.
