(* ===== verification/PolicyValue.v ===== *)
(** Policy value types (fic-common/fic-policy: PolicyTypeValue.h and .cpp).

    The five value types of the library with their constructors' argument
    checks, [validate], [postProcessingValue] and
    [reverse_postProcessingValue], on a model of the number readers of the C++
    library the code calls ([std::stoi], [std::from_chars]) and of
    [std::to_string]. JSON text is the business of a third-party library: its
    array printer and reader are the class [JsonArrays]. *)

From S2P Require Import Prelude.
Open Scope string_scope.
Open Scope nat_scope.

(** * Characters and numbers *)

Definition digit_value (c : Ascii.ascii) : option Z :=
  let n := Z.of_N (Ascii.N_of_ascii c) in
  if ((48 <=? n) && (n <=? 57))%Z then Some (n - 48)%Z else None.

(** Reads the longest prefix of digits: accumulated value, how many digits,
    and the rest. *)
Fixpoint read_digits (acc : Z) (count : nat) (s : string) : Z * nat * string :=
  match s with
  | String c s' =>
      match digit_value c with
      | Some d => read_digits (acc * 10 + d)%Z (S count) s'
      | None => (acc, count, s)
      end
  | EmptyString => (acc, count, s)
  end.

Fixpoint skip_space (s : string) : string :=
  match s with
  | String c s' => if isspace c then skip_space s' else s
  | EmptyString => s
  end.

Inductive num_read :=
| NumOk (z : Z) (rest : string)
| NumInvalid
| NumOutOfRange.

Definition INT_MIN : Z := (-2147483648)%Z.
Definition INT_MAX : Z := 2147483647%Z.
Definition UINTMAX_MAX : Z := 18446744073709551615%Z.

Definition ranged (lo hi : Z) (neg : bool) (r : Z * nat * string) : num_read :=
  let '(v, count, rest) := r in
  match count with
  | O => NumInvalid
  | S _ =>
      let z := if neg then (- v)%Z else v in
      if ((lo <=? z) && (z <=? hi))%Z then NumOk z rest else NumOutOfRange
  end.

(** [std::stoi]: blanks, an optional sign, digits; the rest is ignored. *)
Definition stoi (s : string) : num_read :=
  match skip_space s with
  | String c s' =>
      if Ascii.eqb c "-"%char then ranged INT_MIN INT_MAX true (read_digits 0 0 s')
      else if Ascii.eqb c "+"%char then ranged INT_MIN INT_MAX false (read_digits 0 0 s')
      else ranged INT_MIN INT_MAX false (read_digits 0 0 (String c s'))
  | EmptyString => NumInvalid
  end.

(** [std::from_chars] into an [int]: no blanks, no plus sign. *)
Definition from_chars_int (s : string) : num_read :=
  match s with
  | String c s' =>
      if Ascii.eqb c "-"%char then ranged INT_MIN INT_MAX true (read_digits 0 0 s')
      else ranged INT_MIN INT_MAX false (read_digits 0 0 s)
  | EmptyString => NumInvalid
  end.

(** [std::from_chars] into a [std::uintmax_t]: digits only. *)
Definition from_chars_uintmax (s : string) : num_read :=
  ranged 0 UINTMAX_MAX false (read_digits 0 0 s).

Definition digit_char (d : Z) : Ascii.ascii := Ascii.ascii_of_N (Z.to_N (48 + d)).

(** Decimal digits of a non-negative number; a number below [2^fuel] needs at
    most [fuel] divisions by ten. *)
Fixpoint print_digits (fuel : nat) (z : Z) (acc : string) : string :=
  match fuel with
  | O => acc
  | S fuel' =>
      let acc' := String (digit_char (z mod 10)) acc in
      if (z <? 10)%Z then acc' else print_digits fuel' (z / 10) acc'
  end.

(** [std::to_string]. *)
Definition to_string (z : Z) : string :=
  if (z <? 0)%Z then String "-"%char (print_digits 70 (- z) "")
  else print_digits 70 z "".

(** * JSON arrays of strings (nlohmann::json)

    [json_dump l] is the text of [json(l).dump()], [None] when it throws;
    [json_parse] is [json::parse] followed by the reading of the items. *)

Inductive JsonDoc :=
| JParseError
| JNotArray
| JNonString
| JStrings (items : list string).

Class JsonArrays := {
  json_dump : list string → option string;
  json_parse : string → JsonDoc
}.

(** The library's documented round trip on what it printed. *)
Class JsonArraysLaws `{JsonArrays} :=
  json_parse_dump : ∀ l s, json_dump l = Some s → json_parse s = JStrings l.

(** * The value types *)

Inductive PolicyTypeValue :=
| IntPolicyTypeValue (min max : Z) (default : option Z)
| UnsignedIntegerPolicyTypeValue (min max default : Z)
| PossibleListPolicyTypeValue (first : string) (others : list string)
| FixedPolicyTypeValue (expectedValue : option string)
| MultiLineTextPolicyTypeValue (delimiterFrom delimiterTo defaultValue : string)
(** a subclass a module defines: its own behaviour *)
| OtherPolicyTypeValue (defaultValue : string) (defaultPresent : bool)
    (validate_ : string → bool) (post_ : string → string)
    (reverse_ : string → exc string).

(** The constructors, with the [std::invalid_argument] they throw. *)

Definition mkInt (minimum maximum : Z) : exc PolicyTypeValue :=
  if (maximum <=? minimum)%Z then Exn "MAX must exceed MIN"
  else Val (IntPolicyTypeValue minimum maximum None).

Definition mkIntDefault (minimum maximum default : Z) : exc PolicyTypeValue :=
  if (maximum <=? minimum)%Z then Exn "MAX должен быть больше MIN"
  else if ((maximum <? default) || (default <? minimum))%Z
  then Exn "DEFAULT VALUE должен находиться в диапазоне [MIN;MAX]"
  else Val (IntPolicyTypeValue minimum maximum (Some default)).

Definition mkUnsigned (minimum maximum default : Z) : exc PolicyTypeValue :=
  if (maximum <=? minimum)%Z then Exn "MAX должен быть больше MIN"
  else if ((default <? minimum) || (maximum <? default))%Z
  then Exn "DEFAULT VALUE должен находиться в диапазоне [MIN;MAX]"
  else Val (UnsignedIntegerPolicyTypeValue minimum maximum default).

Definition mkPossibleList (possible : list string) : exc PolicyTypeValue :=
  match possible with
  | [] => Exn "Массив не должен быть пустым"
  | first :: others => Val (PossibleListPolicyTypeValue first others)
  end.

Definition mkFixed (expected : string) : exc PolicyTypeValue :=
  if String.eqb expected "" then Exn "Фиксированное значение не должно быть пустым"
  else Val (FixedPolicyTypeValue (Some expected)).

Definition getDefaultValue (t : PolicyTypeValue) : string :=
  match t with
  | IntPolicyTypeValue _ _ (Some d) => to_string d
  | IntPolicyTypeValue _ _ None => ""
  | UnsignedIntegerPolicyTypeValue _ _ d => to_string d
  | PossibleListPolicyTypeValue first _ => first
  | FixedPolicyTypeValue (Some v) => v
  | FixedPolicyTypeValue None => "[FIXED_VALUE]"
  | MultiLineTextPolicyTypeValue _ _ d => d
  | OtherPolicyTypeValue d _ _ _ _ => d
  end.

Definition hasDefaultValue (t : PolicyTypeValue) : bool :=
  match t with
  | IntPolicyTypeValue _ _ None => false
  | OtherPolicyTypeValue _ p _ _ _ => p
  | _ => true
  end.

(** [dynamic_cast<FixedPolicyTypeValue*>] then [getIntrinsicValue]. *)
Definition getIntrinsicValue (t : PolicyTypeValue) : option string :=
  match t with FixedPolicyTypeValue v => v | _ => None end.

Definition int_validate (min max : Z) (defaultPresent : bool) (value : string) : bool :=
  if negb defaultPresent then
    match from_chars_int value with
    | NumOk number rest =>
        negb (String.eqb value "") && String.eqb rest "" &&
        (min <=? number)%Z && (number <=? max)%Z
    | _ => false
    end
  else if String.eqb value "" then false
  else
    match stoi value with
    | NumOk num _ => negb ((num <? min) || (max <? num))%Z
    | NumInvalid => false
    | NumOutOfRange => false
    end.

Definition unsigned_validate (min max : Z) (value : string) : bool :=
  if String.eqb value "" then false
  else
    match from_chars_uintmax value with
    | NumOk parsed rest => String.eqb rest "" && (min <=? parsed)%Z && (parsed <=? max)%Z
    | _ => false
    end.

Definition validate (t : PolicyTypeValue) (value : string) : bool :=
  match t with
  | IntPolicyTypeValue mn mx d => int_validate mn mx (hasDefaultValue t) value
  | UnsignedIntegerPolicyTypeValue mn mx _ => unsigned_validate mn mx value
  | PossibleListPolicyTypeValue first others => existsb (String.eqb value) (first :: others)
  | FixedPolicyTypeValue expected =>
      match expected with None => true | Some v => String.eqb value v end
  | MultiLineTextPolicyTypeValue _ _ _ => true
  | OtherPolicyTypeValue _ _ v _ _ => v value
  end.

(** ** Multi-line text *)

(** The [while (end != npos)] loop: the items before each delimiter found and
    the position after the last one. Each round moves [start] by at least one
    delimiter, so [S (length value)] rounds are enough. *)
Fixpoint split_loop (fuel : nat) (delimiterFrom value : string) (start : nat)
  : list string * nat :=
  match fuel with
  | O => ([], start)
  | S fuel' =>
      match String.index start delimiterFrom value with
      | None => ([], start)
      | Some pos =>
          let '(items, last) :=
            split_loop fuel' delimiterFrom value (pos + String.length delimiterFrom) in
          (String.substring start (pos - start) value :: items, last)
      end
  end.

Definition multiline_items (delimiterFrom value : string) : list string :=
  let len := String.length value in
  let '(items, start) := split_loop (S len) delimiterFrom value 0 in
  if (start <? len)%nat then (items ++ [String.substring start (len - start) value])%list
  else if (start =? len)%nat then (items ++ [""])%list else items.

Section json.
Context `{JsonArrays}.

Definition multiline_post (delimiterFrom value : string) : string :=
  if String.eqb value "" then ""
  else if String.eqb delimiterFrom "" then ""
  else
    match String.index 0 delimiterFrom value with
    | None => default "" (json_dump [value])
    | Some _ =>
        match multiline_items delimiterFrom value with
        | [] => ""
        | items => default "" (json_dump items)
        end
    end.

(** The join loop: [delimiterTo] before every item but the first. *)
Fixpoint join_items (delimiterTo : string) (items : list string) : string :=
  match items with
  | [] => ""
  | [i] => i
  | i :: items' => i +:+ delimiterTo +:+ join_items delimiterTo items'
  end.

Definition multiline_reverse (delimiterTo value : string) : exc string :=
  match json_parse value with
  | JParseError => Exn "Ошибка парсинга JSON: "
  | JNotArray => Exn "Ожидался JSON-массив"
  | JNonString => Exn "Некорректный тип данных в JSON: "
  | JStrings items => Val (join_items delimiterTo items)
  end.

Definition postProcessingValue (t : PolicyTypeValue) (value : string) : string :=
  match t with
  | MultiLineTextPolicyTypeValue from _ _ => multiline_post from value
  | OtherPolicyTypeValue _ _ _ post _ => post value
  | _ => value
  end.

Definition reverse_postProcessingValue (t : PolicyTypeValue) (value : string) : exc string :=
  match t with
  | MultiLineTextPolicyTypeValue _ to _ => multiline_reverse to value
  | OtherPolicyTypeValue _ _ _ _ rev => rev value
  | _ => Val value
  end.
End json.

Example stoi_ex1 : stoi "  -12abc" = NumOk (-12) "abc".
Proof. reflexivity. Qed.
Example to_string_ex : to_string (-1205) = "-1205" ∧ to_string 0 = "0".
Proof. split; reflexivity. Qed.
Example split_ex : multiline_items ", " "a, b, " = ["a"; "b"; ""].
Proof. reflexivity. Qed.

(** * Printing and reading numbers *)

Lemma digit_value_char d : (0 <= d < 10)%Z → digit_value (digit_char d) = Some d.
Proof.
  intros Hd. assert (d ∈ [0;1;2;3;4;5;6;7;8;9]%Z) as Hin.
  { rewrite !elem_of_cons. lia. }
  repeat (apply elem_of_cons in Hin as [->|Hin]; [reflexivity|]). set_solver.
Qed.

Lemma read_print_digits fuel z s acc cnt :
  (0 <= z < 10 ^ Z.of_nat fuel)%Z → (0 < fuel)%nat →
  ∃ k, (0 < k)%nat ∧
    read_digits acc cnt (print_digits fuel z s) =
    read_digits (acc * 10 ^ Z.of_nat k + z)%Z (cnt + k) s.
Proof.
  revert z s acc cnt. induction fuel as [|fuel IH]; intros z s acc cnt Hz Hf; [lia|].
  assert (0 <= z mod 10 < 10)%Z as Hm by (apply Z.mod_pos_bound; lia).
  simpl. destruct (Z.ltb_spec z 10) as [Hlt|Hge].
  - exists 1%nat. split; [lia|]. simpl. rewrite digit_value_char by done.
    rewrite Z.mod_small by lia. f_equal; lia.
  - destruct fuel as [|fuel]; [simpl in Hz; lia|].
    rewrite Nat2Z.inj_succ, Z.pow_succ_r in Hz by lia.
    destruct (IH (z / 10)%Z (String (digit_char (z mod 10)) s) acc cnt) as (k & Hk & Heq).
    { split; [apply Z.div_pos; lia|]. apply Z.div_lt_upper_bound; lia. }
    { lia. }
    exists (S k). split; [lia|]. rewrite Heq.
    simpl read_digits at 1. rewrite digit_value_char by done.
    f_equal; [|lia]. rewrite Nat2Z.inj_succ, Z.pow_succ_r by lia.
    pose proof (Z.div_mod z 10). lia.
Qed.

Lemma print_digits_head fuel z s :
  (0 < fuel)%nat → (0 <= z)%Z →
  ∃ c s', print_digits fuel z s = String c s' ∧ is_Some (digit_value c).
Proof.
  revert z s. induction fuel as [|fuel IH]; intros z s Hf Hz; [lia|]. simpl.
  assert (0 <= z mod 10 < 10)%Z by (apply Z.mod_pos_bound; lia).
  destruct (z <? 10)%Z.
  - eexists _, _. split; [done|]. rewrite digit_value_char by done. eauto.
  - destruct fuel as [|fuel].
    + eexists _, _. split; [done|]. rewrite digit_value_char by done. eauto.
    + apply IH; [lia|]. apply Z.div_pos; lia.
Qed.

Lemma digit_char_facts c :
  is_Some (digit_value c) → Ascii.eqb c "-"%char = false ∧ Ascii.eqb c "+"%char = false ∧ isspace c = false.
Proof.
  intros Hd. destruct (Ascii.eqb_spec c "-"%char) as [->|]; [by destruct Hd|].
  destruct (Ascii.eqb_spec c "+"%char) as [->|]; [by destruct Hd|].
  repeat split. unfold digit_value in Hd. unfold isspace.
  destruct ((48 <=? Z.of_N (Ascii.N_of_ascii c)) && (Z.of_N (Ascii.N_of_ascii c) <=? 57))%Z eqn:E;
    [|by destruct Hd].
  apply andb_true_iff in E as [E1 E2]. apply Z.leb_le in E1, E2.
  destruct (N.eqb_spec (Ascii.N_of_ascii c) 32); [lia|].
  destruct (N.leb_spec 9 (Ascii.N_of_ascii c)); [|done].
  destruct (N.leb_spec (Ascii.N_of_ascii c) 13); [lia|done].
Qed.

Definition no_digit_head (s : string) : Prop :=
  match s with EmptyString => True | String c _ => digit_value c = None end.

Lemma read_digits_stop acc cnt s : no_digit_head s → read_digits acc cnt s = (acc, cnt, s).
Proof. destruct s as [|c s]; simpl; [done|]. by intros ->. Qed.

(** A printed number followed by [s] is read back with [s] as the rest. *)
Lemma ranged_print lo hi (neg : bool) z s :
  (0 <= z < 10 ^ 70)%Z → no_digit_head s →
  let v := if neg then (- z)%Z else z in
  (lo <= v <= hi)%Z →
  ranged lo hi neg (read_digits 0 0 (print_digits 70 z s)) = NumOk v s.
Proof.
  intros Hz Hs v Hv. destruct (read_print_digits 70 z s 0 0 ltac:(simpl; lia) ltac:(lia)) as (k & Hk & ->).
  rewrite read_digits_stop by done. destruct k as [|k]; [lia|].
  unfold ranged. rewrite Z.mul_0_l, Z.add_0_l. cbn [plus]. fold v.
  replace ((lo <=? v) && (v <=? hi))%Z with true; [done|].
  symmetry. apply andb_true_iff. rewrite !Z.leb_le. lia.
Qed.

(** The digits of [z] in front of any text. *)
Lemma print_digits_app fuel z s t :
  print_digits fuel z (s +:+ t) = print_digits fuel z s +:+ t.
Proof.
  revert z s. induction fuel as [|fuel IH]; intros z s; simpl; [done|].
  destruct (z <? 10)%Z; [done|]. apply (IH _ (String _ s)).
Qed.

Definition int_range (z : Z) : Prop := (INT_MIN <= z <= INT_MAX)%Z.

Lemma stoi_nonspace c s :
  isspace c = false →
  stoi (String c s) =
    if Ascii.eqb c "-"%char then ranged INT_MIN INT_MAX true (read_digits 0 0 s)
    else if Ascii.eqb c "+"%char then ranged INT_MIN INT_MAX false (read_digits 0 0 s)
    else ranged INT_MIN INT_MAX false (read_digits 0 0 (String c s)).
Proof. intros Hc. unfold stoi. simpl skip_space. by rewrite Hc. Qed.

Lemma stoi_to_string z s :
  int_range z → no_digit_head s → stoi (to_string z +:+ s) = NumOk z s.
Proof.
  unfold int_range, to_string. intros Hz Hs.
  assert (INT_MIN <= z <= INT_MAX)%Z as Hb by done. unfold INT_MIN, INT_MAX in Hz.
  destruct (Z.ltb_spec z 0).
  - change (String "-"%char (print_digits 70 (- z) "") +:+ s)
      with (String "-"%char (print_digits 70 (- z) "" +:+ s)).
    rewrite <- (print_digits_app 70 (- z) "" s), stoi_nonspace by done.
    cbn [Ascii.eqb Bool.eqb].
    rewrite (ranged_print INT_MIN INT_MAX true (- z)); [f_equal; lia|lia|done|].
    rewrite Z.opp_involutive. done.
  - rewrite <- (print_digits_app 70 z "" s).
    destruct (print_digits_head 70 z ("" +:+ s)) as (c & s' & Hc & Hd); [lia|lia|].
    apply digit_char_facts in Hd as (Hm & Hp & Hsp).
    rewrite Hc, stoi_nonspace, Hm, Hp, <- Hc by done.
    apply ranged_print; [lia|done|done].
Qed.

Lemma to_string_nonempty z s : String.eqb (to_string z +:+ s) "" = false.
Proof.
  unfold to_string. destruct (Z.ltb_spec z 0); [done|].
  destruct (print_digits_head 70 z "") as (c & s' & -> & _); [lia|lia|done].
Qed.

Lemma from_chars_uintmax_to_string z :
  (0 <= z <= UINTMAX_MAX)%Z → from_chars_uintmax (to_string z) = NumOk z "".
Proof.
  unfold UINTMAX_MAX, to_string. intros Hz.
  replace (z <? 0)%Z with false by (symmetry; apply Z.ltb_ge; lia).
  unfold from_chars_uintmax. apply ranged_print; [lia|done|unfold UINTMAX_MAX; lia].
Qed.

(** * Substrings and delimiters *)

Lemma substring_empty v n : String.substring n 0 v = "".
Proof. revert n. induction v as [|c v IH]; intros [|n]; simpl; auto. Qed.

Lemma substring_split v s a b :
  String.substring s (a + b) v = String.substring s a v +:+ String.substring (s + a) b v.
Proof.
  revert s a. induction v as [|c v IH]; intros [|s] [|a]; simpl; auto.
  - rewrite (IH 0 a). done.
  - apply (IH s 0).
  - apply (IH s (S a)).
Qed.

Lemma substring_all v : String.substring 0 (String.length v) v = v.
Proof. induction v as [|c v IH]; simpl; [done|]. by rewrite IH. Qed.

Lemma prefix_length d v : String.prefix d v = true → String.length d ≤ String.length v.
Proof.
  revert v. induction d as [|c d IH]; intros [|c' v]; simpl; try done; try lia.
  destruct (ascii_dec c c'); [|done]. intros Hp. apply IH in Hp. lia.
Qed.

Lemma index_bounds start d v pos :
  String.index start d v = Some pos →
  start ≤ pos ∧ pos + String.length d ≤ String.length v.
Proof.
  revert start pos. induction v as [|c v IH]; intros [|start] pos Hi.
  - destruct d; simplify_eq/=. lia.
  - by destruct d.
  - cbn -[String.prefix] in Hi. destruct (String.prefix d (String c v)) eqn:Hp.
    + apply prefix_length in Hp. injection Hi as <-. simpl in *. lia.
    + destruct (String.index 0 d v) eqn:E; simplify_eq/=. apply IH in E. lia.
  - simpl in Hi. destruct (String.index start d v) eqn:E; simplify_eq/=. apply IH in E. lia.
Qed.

Lemma join_items_cons d i l : l ≠ [] → join_items d (i :: l) = i +:+ d +:+ join_items d l.
Proof. by destruct l. Qed.

(** Joining what the loop cut off, with the remainder, restores the text. *)
Lemma split_loop_join fuel d v start items last :
  0 < String.length d → start ≤ String.length v →
  String.length v - start < fuel →
  split_loop fuel d v start = (items, last) →
  last ≤ String.length v ∧
  join_items d (items ++ [String.substring last (String.length v - last) v])%list =
  String.substring start (String.length v - start) v.
Proof.
  intros Hd. revert start items last. induction fuel as [|fuel IH]; intros start items last Hs Hf Hl; [lia|].
  simpl in Hl. destruct (String.index start d v) as [pos|] eqn:Hi; [|by simplify_eq/=].
  destruct (split_loop fuel d v (pos + String.length d)) as [items' last'] eqn:Hr.
  simplify_eq. pose proof (index_bounds _ _ _ _ Hi) as [Hsp Hpl].
  destruct (IH (pos + String.length d) items' last) as [Hlast Hj]; [lia|lia|done|]. split; [done|].
  change ((?i :: ?l) ++ ?m)%list with (i :: (l ++ m))%list.
  rewrite join_items_cons by (by destruct items'). rewrite Hj.
  apply String.index_correct1 in Hi. rewrite <- Hi at 1.
  rewrite <- substring_split.
  replace pos with (start + (pos - start)) at 2 by lia.
  rewrite <- substring_split. f_equal. lia.
Qed.

Lemma multiline_items_join d v :
  0 < String.length d → join_items d (multiline_items d v) = v.
Proof.
  intros Hd. unfold multiline_items.
  destruct (split_loop _ d v 0) as [items last] eqn:Hl.
  apply split_loop_join in Hl as [Hlast Hj]; [|lia..].
  rewrite Nat.sub_0_r, substring_all in Hj.
  destruct (Nat.ltb_spec last (String.length v)); [done|].
  assert (last = String.length v) as -> by lia. rewrite Nat.eqb_refl.
  rewrite Nat.sub_diag, substring_empty in Hj. done.
Qed.

Lemma multiline_items_nonempty d v : multiline_items d v ≠ [].
Proof.
  unfold multiline_items. destruct (split_loop _ d v 0) as [items last] eqn:Hl.
  destruct (Nat.ltb_spec last (String.length v)); [by destruct items|].
  destruct (Nat.eqb_spec last (String.length v)); [by destruct items|].
  destruct items as [|i items]; [|done].
  simpl in Hl. destruct (String.index 0 d v) as [pos|]; simplify_eq/=; [|lia].
  destruct split_loop; simplify_eq/=.
Qed.

Lemma multiline_items_single d v :
  v ≠ "" → String.index 0 d v = None → multiline_items d v = [v].
Proof.
  intros Hv Hi. unfold multiline_items. simpl. rewrite Hi.
  destruct v as [|c v]; [done|]. simpl. by rewrite substring_all.
Qed.

(** * Properties of the value types *)

(** The value types of the core library, as far as their constructors accepted the
    arguments, which are values of the C++ types [int] and [std::uintmax_t]. The
    subclasses that modules define for themselves are not among them. *)
Inductive constructed : PolicyTypeValue → Prop :=
| c_int mn mx t : mkInt mn mx = Val t → int_range mn → int_range mx → constructed t
| c_int_default mn mx d t :
    mkIntDefault mn mx d = Val t → int_range mn → int_range mx → int_range d → constructed t
| c_unsigned mn mx d t :
    mkUnsigned mn mx d = Val t → (0 <= mn)%Z → (mx <= UINTMAX_MAX)%Z → constructed t
| c_possible l t : mkPossibleList l = Val t → constructed t
| c_fixed v t : mkFixed v = Val t → constructed t
| c_fixed_any : constructed (FixedPolicyTypeValue None)
| c_multiline f to d : constructed (MultiLineTextPolicyTypeValue f to d).

(** C38. A value type of the core library (integers, unsigned integers, lists of
    possible values, fixed values, multi-line text) that declares a default value
    accepts it: for all arguments its constructor accepts,
    [validate(getDefaultValue())] is true whenever [hasDefaultValue()]. *)
Theorem default_value_is_valid t :
  constructed t → hasDefaultValue t = true → validate t (getDefaultValue t) = true.
Proof.
  intros Hc Hd. destruct Hc as [mn mx t Ht|mn mx d t Ht Hmn Hmx Hdr|mn mx d t Ht Hmn Hmx|l t Ht|v t Ht| |].
  - unfold mkInt in Ht. case_hyp Ht.
  - unfold mkIntDefault in Ht. repeat case_hyp Ht. simpl. unfold int_validate. simpl.
    rewrite <- (string_app_nil_r (to_string d)), to_string_nonempty, stoi_to_string by done.
    rewrite orb_false_iff, !Z.ltb_ge in *. apply negb_true_iff, orb_false_iff. rewrite !Z.ltb_ge. lia.
  - unfold mkUnsigned in Ht. repeat case_hyp Ht. simpl. unfold unsigned_validate.
    pose proof (to_string_nonempty d "") as Hne. rewrite string_app_nil_r in Hne. rewrite Hne.
    rewrite orb_false_iff, !Z.ltb_ge in *.
    rewrite from_chars_uintmax_to_string by lia. simpl. rewrite andb_true_iff, !Z.leb_le. lia.
  - destruct l; simplify_eq/=. by rewrite String.eqb_refl.
  - unfold mkFixed in Ht. case_hyp Ht. simpl. apply String.eqb_refl.
  - done.
  - done.
Qed.

(** It need not hold of a module's own subclass: [StatusOnlyPolicyTypeValue] of the
    firewall is a fixed type that refuses every value. *)
Definition status_only_validate (value : string) : bool := false.
Example status_only_refuses_its_default :
  hasDefaultValue (FixedPolicyTypeValue None) = true ∧ status_only_validate (getDefaultValue (FixedPolicyTypeValue None)) = false.
Proof. split; reflexivity. Qed.

Lemma default_value_is_valid_witness :
  validate (IntPolicyTypeValue 1 99 (Some 14%Z)) "14" = true.
Proof.
  apply (default_value_is_valid (IntPolicyTypeValue 1 99 (Some 14%Z))).
  - apply (c_int_default 1 99 14); [reflexivity|..]; unfold int_range, INT_MIN, INT_MAX; lia.
  - reflexivity.
Defined.

(** An integer type without a default accepts exactly the texts that
    [from_chars] reads to their end as an in-range number: nothing before it,
    nothing after it. *)
Theorem int_without_default_exact mn mx value :
  validate (IntPolicyTypeValue mn mx None) value = true ↔
  ∃ z, from_chars_int value = NumOk z "" ∧ (mn <= z <= mx)%Z.
Proof.
  simpl. unfold int_validate. simpl. destruct (from_chars_int value) as [z rest| |] eqn:E;
    [|naive_solver..].
  rewrite !andb_true_iff, negb_true_iff, !Z.leb_le, String.eqb_eq. split.
  - intros [[[_ ->] ?] ?]. exists z. split; [done|lia].
  - intros (z' & Heq & Hz). injection Heq as -> ->.
    destruct value; [discriminate E|]. repeat split; (reflexivity || lia).
Qed.

(** An integer type with a default accepts trailing text: any in-range
    number followed by anything that does not start with a digit is valid. *)
Theorem int_with_default_accepts_trailing_text mn mx d z junk :
  int_range z → (mn <= z <= mx)%Z → no_digit_head junk →
  validate (IntPolicyTypeValue mn mx (Some d)) (to_string z +:+ junk) = true.
Proof.
  intros Hr Hz Hj. simpl. unfold int_validate. simpl.
  rewrite to_string_nonempty, stoi_to_string by done.
  apply negb_true_iff, orb_false_iff. rewrite !Z.ltb_ge. lia.
Qed.

Lemma int_with_default_accepts_trailing_text_witness :
  validate (IntPolicyTypeValue 0 10 (Some 5%Z)) "7; reboot" = true.
Proof.
  apply (int_with_default_accepts_trailing_text 0 10 5 7 "; reboot");
    [unfold int_range, INT_MIN, INT_MAX; lia|lia|reflexivity].
Defined.

Section roundtrip.
Context `{JsonArrays, !JsonArraysLaws}.

(** Storing a multi-line text and reading it back with the same delimiter
    returns the text: [reverse_postProcessingValue(postProcessingValue(v))]
    is [v] for every non-empty [v] and delimiter, when the JSON library could
    print the array. *)
Theorem multiline_roundtrip delim dflt value :
  value ≠ "" → delim ≠ "" →
  is_Some (json_dump (multiline_items delim value)) →
  let t := MultiLineTextPolicyTypeValue delim delim dflt in
  reverse_postProcessingValue t (postProcessingValue t value) = Val value.
Proof.
  intros Hv Hd [text Htext] t. simpl. unfold multiline_post, multiline_reverse.
  destruct (String.eqb_spec value ""); [done|]. destruct (String.eqb_spec delim ""); [done|].
  assert (0 < String.length delim) as Hlen by (destruct delim; [done|simpl; lia]).
  pose proof (json_parse_dump _ _ Htext) as Hrt.
  destruct (String.index 0 delim value) eqn:Hi.
  - pose proof (multiline_items_nonempty delim value) as Hne.
    destruct (multiline_items delim value) as [|i items] eqn:Hit; [done|].
    rewrite Htext. simpl. rewrite Hrt, <- Hit. by rewrite multiline_items_join.
  - rewrite multiline_items_single in Htext, Hrt by done. rewrite Htext. simpl. by rewrite Hrt.
Qed.
End roundtrip.

(** A stand-in for the JSON library that satisfies its round trip: an array is
    printed as the binary digits of its code. *)
Fixpoint pos_text (p : positive) : string :=
  match p with
  | xH => "" | xO p => String "0"%char (pos_text p) | xI p => String "1"%char (pos_text p)
  end.
Fixpoint text_pos (s : string) : positive :=
  match s with
  | EmptyString => xH
  | String c s => if Ascii.eqb c "0"%char then xO (text_pos s) else xI (text_pos s)
  end.
Lemma text_pos_text p : text_pos (pos_text p) = p.
Proof. induction p as [p IH|p IH|]; simpl; congruence. Qed.

Definition binary_json : JsonArrays := {|
  json_dump l := Some (pos_text (encode l));
  json_parse s := match decode (text_pos s) with Some l => JStrings l | None => JParseError end
|}.
Definition binary_json_laws : @JsonArraysLaws binary_json.
Proof. intros l s [= <-]. simpl. by rewrite text_pos_text, decode_encode. Qed.

Lemma multiline_roundtrip_witness :
  let t := MultiLineTextPolicyTypeValue ":" ":" "" in
  @reverse_postProcessingValue binary_json t
    (@postProcessingValue binary_json t "/usr/bin:/bin:") = Val "/usr/bin:/bin:".
Proof.
  apply (@multiline_roundtrip binary_json binary_json_laws ":" "" "/usr/bin:/bin:");
    [discriminate|discriminate|]. eexists. reflexivity.
Defined.
