(* ===== verification/ConfigFile.v ===== *)
(** Line-oriented configuration files (fic-common/fic-core:
    config/ConfigFileHandler, fs/FileHandler and config/ModuleConfigFileHandler).

    A handler keeps the lines of the file and the map of the parameters read
    from them; [loadConfig] builds the map (and normalises the lines),
    [setValue] and [removeValue] change both, [pendingContent] is the text
    [saveFile] writes. Every handler of the source has a one-character
    delimiter. Opening, creating and atomically replacing the file is not in
    this file: [getlines] starts from the text that was read. *)

From S2P Require Import Prelude Severity.
Open Scope string_scope.
Open Scope nat_scope.

Definition newline : Ascii.ascii := Ascii.ascii_of_nat 10.
Definition hash : Ascii.ascii := "#"%char.

Inductive ConfigKeyWhitespacePolicy := Normalize | Preserve.

(** * Text helpers *)

(** The characters of the literal space, tab, CR, LF string of [trim]. *)
Definition trim_char (c : Ascii.ascii) : bool :=
  let n := Ascii.N_of_ascii c in (n =? 32)%N || (n =? 9)%N || (n =? 13)%N || (n =? 10)%N.

Fixpoint ltrim (s : string) : string :=
  match s with
  | String c s' => if trim_char c then ltrim s' else s
  | EmptyString => s
  end.

Fixpoint rtrim (s : string) : string :=
  match s with
  | EmptyString => ""
  | String c s' =>
      match rtrim s' with
      | EmptyString => if trim_char c then "" else String c ""
      | r => String c r
      end
  end.

(** The [std::remove_if] of [needMid]: in a run of blanks only the first
    character stays (as it is: the predicate's argument is a copy). *)
Fixpoint squeeze (space : bool) (s : string) : string :=
  match s with
  | EmptyString => ""
  | String c s' =>
      if isspace c then if space then squeeze true s' else String c (squeeze true s')
      else String c (squeeze false s')
  end.

Definition trim (needMid : bool) (s : string) : string :=
  let s := rtrim (ltrim s) in if needMid then squeeze false s else s.

(** [find] of the delimiter with the text before and after it. *)
Fixpoint cut (d : Ascii.ascii) (s : string) : option (string * string) :=
  match s with
  | EmptyString => None
  | String a s' =>
      if Ascii.eqb a d then Some ("", s')
      else match cut d s' with Some (p, q) => Some (String a p, q) | None => None end
  end.

(** [std::getline] until end of file: a last line without newline counts only
    when it is not empty. *)
Fixpoint getlines_from (line s : string) : list string :=
  match s with
  | EmptyString => if String.eqb line "" then [] else [line]
  | String a s' =>
      if Ascii.eqb a newline then line :: getlines_from "" s'
      else getlines_from (line +:+ String a "") s'
  end.
Definition getlines (s : string) : list string := getlines_from "" s.

(** * The handler *)

Record Config := mkConfig {
  original_lines : list string;
  config : gmap string string
}.

Section handler.
Context (delimiter : Ascii.ascii) (keyWhitespacePolicy : ConfigKeyWhitespacePolicy).

Definition is_normalize : bool :=
  match keyWhitespacePolicy with Normalize => true | Preserve => false end.

Definition join_line (parameter value : string) : string :=
  parameter +:+ String delimiter value.

(** One round of the loop of [loadConfig]: the line as it is left in
    [original_lines_] and the map. *)
Definition load_line (line : string) (config : gmap string string)
  : string * gmap string string :=
  let line := trim false line in
  if contains hash line then (line, config)
  else if String.eqb line "" then (line, config)
  else match cut delimiter line with
  | None => (line, config)
  | Some (parameter, value) =>
      let parameter := if is_normalize then trim true parameter else parameter in
      let value := trim false value in
      let line := join_line parameter value in
      if String.eqb parameter "" then (line, config)
      else match config !! parameter with
      | Some _ => (String hash line, config)
      | None => (line, <[parameter := value]> config)
      end
  end.

Fixpoint load_lines (lines : list string) (config : gmap string string)
  : list string * gmap string string :=
  match lines with
  | [] => ([], config)
  | line :: lines' =>
      let '(line, config) := load_line line config in
      let '(lines', config) := load_lines lines' config in
      (line :: lines', config)
  end.

Definition loadConfig (content : string) : Config :=
  let '(lines, config) := load_lines (getlines content) ∅ in mkConfig lines config.

Definition isParameterExists (c : Config) (parameter : string) : bool :=
  bool_decide (is_Some (config c !! parameter)).

Definition getValue (c : Config) (parameter : string) : string :=
  default "" (config c !! parameter).

(** The predicate of [std::find_if] / [std::remove_if] on a line. *)
Definition line_is_for (parameter line : string) : bool :=
  match cut delimiter line with
  | None => false
  | Some (p, _) => String.eqb (if is_normalize then trim false p else p) parameter
  end.

Fixpoint replace_first (parameter new_line : string) (lines : list string) : list string :=
  match lines with
  | [] => [new_line]
  | line :: lines' =>
      if line_is_for parameter line then new_line :: lines'
      else line :: replace_first parameter new_line lines'
  end.

Definition setValue (c : Config) (parameter value : string) : bool * Config :=
  if String.eqb parameter "" then (false, c)
  else (true, mkConfig
    (replace_first parameter (join_line parameter value) (original_lines c))
    (<[parameter := value]> (config c))).

Definition removeValue (c : Config) (parameter : string) : bool * Config :=
  if String.eqb parameter "" then (false, c)
  else (true, mkConfig
    (List.filter (λ line, negb (line_is_for parameter line)) (original_lines c))
    (delete parameter (config c))).
End handler.

Definition pendingContent (c : Config) : string :=
  foldr (λ line acc, line +:+ String newline acc) "" (original_lines c).

(** * Module configurations: <policy>.status, .value, .violation_severity *)

Module ModuleConfig.
Definition ENABLED_STATUS := "ENABLE".
Definition DISABLED_STATUS := "DISABLE".
Definition statusKey (policy : string) := policy +:+ ".status".
Definition valueKey (policy : string) := policy +:+ ".value".
Definition violationSeverityKey (policy : string) := policy +:+ ".violation_severity".

Definition load := loadConfig "="%char Normalize.
Definition set := setValue "="%char Normalize.

Definition hasPolicyStatus (c : Config) policy := isParameterExists c (statusKey policy).
Definition hasConfiguredValue (c : Config) policy := isParameterExists c (valueKey policy).
Definition hasPolicyViolationSeverity (c : Config) policy :=
  isParameterExists c (violationSeverityKey policy).

Definition getPolicyViolationSeverity (c : Config) (policy : string) : ViolationSeverity :=
  let key := violationSeverityKey policy in
  if isParameterExists c key then
    default VIsolate (parseViolationSeverityToken (getValue c key))
  else VNone.

Definition setPolicyViolationSeverity (c : Config) (policy : string)
    (severity : ViolationSeverity) : exc (bool * Config) :=
  if String.eqb policy "" then Val (false, c)
  else let! token := violationSeverityToken severity in
       Val (set c (violationSeverityKey policy) token).

Definition getPolicyStatus (c : Config) (policy : string) : string :=
  let key := statusKey policy in
  if isParameterExists c key then
    let status := getValue c key in
    if String.eqb status ENABLED_STATUS then ENABLED_STATUS else DISABLED_STATUS
  else DISABLED_STATUS.

Definition getPolicyValue (c : Config) (policy : string) : string := getValue c (valueKey policy).

Definition setPolicyStatus (c : Config) (policy status : string) : bool * Config :=
  if String.eqb policy "" then (false, c)
  else if negb (String.eqb status ENABLED_STATUS) && negb (String.eqb status DISABLED_STATUS)
  then (false, c)
  else set c (statusKey policy) status.

Definition setPolicyValue (c : Config) (policy value : string) : bool * Config :=
  if String.eqb policy "" then (false, c)
  else
    let c := if isParameterExists c (statusKey policy) then c
             else (set c (statusKey policy) DISABLED_STATUS).2 in
    set c (valueKey policy) value.

Definition enablePolicy (c : Config) policy := setPolicyStatus c policy ENABLED_STATUS.
Definition disablePolicy (c : Config) policy := setPolicyStatus c policy DISABLED_STATUS.
End ModuleConfig.

(** * Facts about the text helpers *)

Lemma trim_char_isspace c : trim_char c = true → isspace c = true.
Proof.
  unfold trim_char, isspace. rewrite !orb_true_iff, andb_true_iff, !N.eqb_eq, !N.leb_le. lia.
Qed.

Lemma ltrim_idem s : ltrim (ltrim s) = ltrim s.
Proof. induction s as [|c s IH]; simpl; [done|]. destruct (trim_char c) eqn:E; simpl; rewrite ?E; auto. Qed.

Lemma rtrim_idem s : rtrim (rtrim s) = rtrim s.
Proof.
  induction s as [|c s IH]; simpl; [done|].
  destruct (rtrim s) as [|c' r] eqn:E.
  - destruct (trim_char c) eqn:Ec; simpl; rewrite ?Ec; done.
  - simpl in *. rewrite IH. done.
Qed.

(** [s] starts with no character of [trim]. *)
Definition ltrimmed (s : string) : Prop := ltrim s = s.

Lemma ltrimmed_cons c s : ltrimmed (String c s) ↔ trim_char c = false.
Proof.
  unfold ltrimmed. simpl. destruct (trim_char c); [|done]. split; [|done]. intros Heq.
  exfalso. assert (∀ t, String.length (ltrim t) ≤ String.length t) as Hl.
  { induction t as [|a t IH]; simpl; [lia|]. destruct (trim_char a); simpl; lia. }
  specialize (Hl s). rewrite Heq in Hl. simpl in Hl. lia.
Qed.

Lemma ltrimmed_ltrim s : ltrimmed (ltrim s).
Proof. apply ltrim_idem. Qed.

Lemma rtrim_ltrimmed s : ltrimmed s → ltrimmed (rtrim s).
Proof.
  destruct s as [|c s]; [done|]. rewrite ltrimmed_cons. intros Hc. simpl.
  destruct (rtrim s); [rewrite Hc|]; by apply ltrimmed_cons.
Qed.

Lemma trim_idem s : trim false (trim false s) = trim false s.
Proof.
  unfold trim. rewrite (rtrim_ltrimmed (ltrim s) (ltrimmed_ltrim s)). apply rtrim_idem.
Qed.

Lemma contains_ltrim c s : contains c (ltrim s) = true → contains c s = true.
Proof.
  induction s as [|a s IH]; simpl; [done|]. destruct (trim_char a); simpl; [|done].
  intros Hc. by rewrite IH, orb_true_r.
Qed.

Lemma contains_rtrim c s : contains c (rtrim s) = true → contains c s = true.
Proof.
  induction s as [|a s IH]; simpl; [done|].
  destruct (rtrim s) as [|b r] eqn:E.
  - destruct (trim_char a); simpl; [done|]. rewrite orb_false_r. by intros ->.
  - rewrite !orb_true_iff. simpl. rewrite !orb_true_iff in *. simpl in IH. rewrite orb_true_iff in IH.
    intros [Hc|Hc]; auto.
Qed.

Lemma contains_squeeze c b s : contains c (squeeze b s) = true → contains c s = true.
Proof.
  revert b. induction s as [|a s IH]; intros b; simpl; [done|].
  destruct (isspace a), b; simpl; rewrite ?orb_true_iff; intros Hc;
    [apply IH in Hc|destruct Hc as [Hc|Hc]; [|apply IH in Hc]..]; auto.
Qed.

Lemma contains_trim c b s : contains c (trim b s) = true → contains c s = true.
Proof.
  unfold trim. destruct b; intros Hc; [apply contains_squeeze in Hc|];
    by apply contains_ltrim, contains_rtrim.
Qed.

Lemma no_contains_trim c b s : contains c s = false → contains c (trim b s) = false.
Proof.
  intros Hc. destruct (contains c (trim b s)) eqn:E; [|done].
  apply contains_trim in E. congruence.
Qed.

Lemma squeeze_nonspace_head s b c r :
  squeeze b s = String c r → isspace c = true → b = false.
Proof.
  revert b. induction s as [|a s IH]; intros b; simpl; [done|].
  destruct (isspace a) eqn:Ea; [destruct b; [apply IH|done]|]. intros [= -> _] Hc. congruence.
Qed.

Lemma squeeze_idem b s : squeeze b (squeeze b s) = squeeze b s.
Proof.
  revert b. induction s as [|a s IH]; intros b; simpl; [done|].
  destruct (isspace a) eqn:Ea; [|simpl; rewrite Ea; by rewrite IH].
  destruct b; [apply IH|]. simpl. rewrite Ea. by rewrite IH.
Qed.

Lemma squeeze_nil b s : rtrim s = s → squeeze b s = "" → s = "" ∨ b = true.
Proof. destruct b; [auto|]. destruct s as [|a s]; [auto|]. simpl. destruct (isspace a); done. Qed.

Lemma ltrimmed_squeeze s : ltrimmed s → ltrimmed (squeeze false s).
Proof.
  destruct s as [|a s]; [done|]. rewrite ltrimmed_cons. intros Ha. simpl.
  destruct (isspace a); by apply ltrimmed_cons.
Qed.

(** The last character of a non-empty text survives [squeeze] when it is not a
    blank; [rtrimmed] says there is no trailing character of [trim]. *)
Definition rtrimmed (s : string) : Prop := rtrim s = s.

Lemma rtrimmed_cons c s :
  rtrimmed (String c s) ↔ rtrimmed s ∧ (s = "" → trim_char c = false).
Proof.
  unfold rtrimmed. simpl. destruct s as [|a s].
  - simpl. destruct (trim_char c) eqn:E; naive_solver.
  - destruct (rtrim (String a s)) as [|b r] eqn:E.
    + destruct (trim_char c); naive_solver.
    + split; [intros [= Heq]; rewrite Heq; naive_solver|]. intros [[= -> ->] _]. done.
Qed.

(** No vertical tab and no form feed: every blank is one [trim] knows. *)
Fixpoint plain (s : string) : bool :=
  match s with
  | EmptyString => true
  | String c s' => implb (isspace c) (trim_char c) && plain s'
  end.

Lemma plain_cons c s :
  plain (String c s) = true ↔ (isspace c = true → trim_char c = true) ∧ plain s = true.
Proof. simpl. rewrite andb_true_iff. destruct (isspace c), (trim_char c); naive_solver. Qed.

Lemma plain_ltrim s : plain s = true → plain (ltrim s) = true.
Proof.
  induction s as [|c s IH]; [done|]. rewrite plain_cons. intros [Hc Hs]. simpl.
  destruct (trim_char c) eqn:E; [auto|]. apply plain_cons. rewrite E. auto.
Qed.

Lemma plain_rtrim s : plain s = true → plain (rtrim s) = true.
Proof.
  induction s as [|c s IH]; [done|]. rewrite plain_cons. intros [Hc Hs]. simpl.
  specialize (IH Hs). destruct (rtrim s); [destruct (trim_char c) eqn:E; [done|]|];
    apply plain_cons; rewrite ?E; auto.
Qed.

Lemma plain_squeeze b s : plain s = true → plain (squeeze b s) = true.
Proof.
  revert b. induction s as [|c s IH]; intros b; [done|]. rewrite plain_cons. intros [Hc Hs]. simpl.
  destruct (isspace c) eqn:E, b; auto; apply plain_cons; rewrite ?E; auto.
Qed.

Lemma plain_trim b s : plain s = true → plain (trim b s) = true.
Proof. intros Hs. unfold trim. destruct b; auto using plain_squeeze, plain_rtrim, plain_ltrim. Qed.

Lemma plain_app s t : plain (s +:+ t) = plain s && plain t.
Proof.
  induction s as [|c s IH]; [done|].
  change (String c s +:+ t) with (String c (s +:+ t)). simpl. by rewrite IH, andb_assoc.
Qed.

Lemma squeeze_true_nil s :
  plain s = true → rtrimmed s → squeeze true s = "" → s = "".
Proof.
  induction s as [|c s IH]; [done|]. rewrite plain_cons, rtrimmed_cons.
  intros [Hp Hps] [Hr Hc]. simpl. destruct (isspace c) eqn:E; [|done].
  intros Hs. apply IH in Hs; [|done..]. rewrite Hc in Hp by done. naive_solver.
Qed.

Lemma rtrimmed_squeeze b s : plain s = true → rtrimmed s → rtrimmed (squeeze b s).
Proof.
  revert b. induction s as [|c s IH]; intros b; [done|]. rewrite plain_cons, rtrimmed_cons.
  intros [Hp Hps] [Hr Hc]. simpl. destruct (isspace c) eqn:E.
  - destruct b; [auto|]. apply rtrimmed_cons. split; [auto|].
    intros Hs. apply squeeze_true_nil in Hs; auto.
  - apply rtrimmed_cons. split; [auto|]. intros _.
    destruct (trim_char c) eqn:Ec; [|done]. apply trim_char_isspace in Ec. congruence.
Qed.

(** What [trim(parameter, true)] leaves: nothing more to trim or squeeze. *)
Lemma trim_mid_normal s :
  plain s = true → let p := trim true s in ltrimmed p ∧ rtrimmed p ∧ squeeze false p = p.
Proof.
  intros Hp. simpl. unfold trim. split_and!.
  - apply ltrimmed_squeeze, rtrim_ltrimmed, ltrimmed_ltrim.
  - apply rtrimmed_squeeze; [by apply plain_rtrim, plain_ltrim|]. apply rtrim_idem.
  - apply squeeze_idem.
Qed.

Lemma trim_normal p b :
  ltrimmed p → rtrimmed p → (b = true → squeeze false p = p) → trim b p = p.
Proof. unfold trim. intros -> -> Hs. destruct b; auto. Qed.

Section cut.
Context (d : Ascii.ascii).

Lemma cut_spec s p q : cut d s = Some (p, q) → s = p +:+ String d q ∧ contains d p = false.
Proof.
  revert p. induction s as [|a s IH]; intros p; simpl; [done|].
  destruct (Ascii.eqb_spec a d) as [->|Hne].
  - intros [= <- ->]. done.
  - destruct (cut d s) as [[p' q']|]; [|done]. intros [= <- ->].
    destruct (IH _ eq_refl) as [-> Hc]. split; [done|]. simpl.
    destruct (Ascii.eqb_spec a d); [done|exact Hc].
Qed.

Lemma cut_join p q : contains d p = false → cut d (p +:+ String d q) = Some (p, q).
Proof.
  induction p as [|a p IH]; simpl.
  - by rewrite Ascii.eqb_refl.
  - rewrite orb_false_iff. intros [Ha Hp].
    change (String a p +:+ String d q) with (String a (p +:+ String d q)). simpl.
    by rewrite Ha, (IH Hp).
Qed.
End cut.

Lemma rtrimmed_app s c t :
  trim_char c = false → rtrimmed t → rtrimmed (s +:+ String c t).
Proof.
  intros Hc Ht. induction s as [|a s IH].
  - apply rtrimmed_cons. auto.
  - change (String a s +:+ String c t) with (String a (s +:+ String c t)).
    apply rtrimmed_cons. split; [done|]. by destruct s.
Qed.

(** * Saving and reloading *)

Section reload.
Context (d : Ascii.ascii) (Hd : isspace d = false) (Hdh : d ≠ hash).

Lemma d_trim : trim_char d = false.
Proof using Hd. destruct (trim_char d) eqn:E; [|done]. apply trim_char_isspace in E. congruence. Qed.

Lemma trim_join_line p v :
  ltrimmed p → rtrimmed v → trim false (join_line d p v) = join_line d p v.
Proof using Hd.
  intros Hp Hv. apply trim_normal; [|by apply rtrimmed_app; [apply d_trim|]|done].
  destruct p as [|a p]; [apply ltrimmed_cons, d_trim|].
  apply ltrimmed_cons in Hp. by apply ltrimmed_cons.
Qed.

(** The assignment a line contributes to the map, before duplicates. *)
Definition live (line : string) : option (string * string) :=
  let line := trim false line in
  if contains hash line then None
  else match cut d line with
  | None => None
  | Some (p, v) =>
      let p := trim true p in
      if String.eqb p "" then None else Some (p, trim false v)
  end.

Fixpoint first_live (k : string) (lines : list string) : option string :=
  match lines with
  | [] => None
  | line :: lines' =>
      match live line with
      | Some (p, v) => if String.eqb p k then Some v else first_live k lines'
      | None => first_live k lines'
      end
  end.

(** A line that [loadConfig] has normalised or that [setValue] wrote. *)
Definition line_ok (line : string) : Prop :=
  plain line = true ∧ contains newline line = false ∧ trim false line = line ∧
  (contains hash line = false → ∀ p v, cut d line = Some (p, v) →
     trim true p = p ∧ trim false p = p ∧ trim false v = v).

Lemma contains_join c p v :
  contains c (join_line d p v) = contains c p || (Ascii.eqb d c || contains c v).
Proof. apply contains_app. Qed.

Lemma plain_join p v : plain (join_line d p v) = plain p && plain v.
Proof using Hd. unfold join_line. rewrite plain_app. simpl. by rewrite Hd. Qed.

(** The line [loadConfig] writes for the assignment [p = v], and the same
    line commented out. *)
Lemma join_line_live p v :
  plain (join_line d p v) = true → contains d p = false →
  contains newline (join_line d p v) = false → contains hash (join_line d p v) = false →
  let P := trim true p in let V := trim false v in
  line_ok (join_line d P V) ∧
  live (join_line d P V) = (if String.eqb P "" then None else Some (P, V)) ∧
  line_ok (String hash (join_line d P V)) ∧ live (String hash (join_line d P V)) = None.
Proof using Hd Hdh.
  intros Hpl Hdp Hn Hh P V. rewrite plain_join, andb_true_iff in Hpl. destruct Hpl as [Hpp Hpv].
  assert (plain (join_line d P V) = true) as HpJ
    by (unfold P, V; by rewrite plain_join, !plain_trim).
  rewrite contains_join, !orb_false_iff in Hn, Hh.
  destruct Hn as (Hnp & Hnd & Hnv), Hh as (Hhp & Hhd & Hhv).
  destruct (trim_mid_normal p Hpp) as (Hlp & Hrp & Hsp). fold P in Hlp, Hrp, Hsp.
  assert (rtrimmed V) as Hrv by apply rtrim_idem.
  pose proof (trim_join_line P V Hlp Hrv) as HtJ.
  assert (contains newline (join_line d P V) = false ∧ contains hash (join_line d P V) = false)
    as [HnJ HhJ] by (rewrite !contains_join, !orb_false_iff; unfold P, V; split_and!; auto using no_contains_trim).
  assert (cut d (join_line d P V) = Some (P, V)) as HcJ by (apply cut_join; by apply no_contains_trim).
  assert (trim true P = P ∧ trim false P = P ∧ trim false V = V) as (HtP & HtP' & HtV)
    by (split_and!; [by apply trim_normal..|apply trim_idem]).
  assert (trim false (String hash (join_line d P V)) = String hash (join_line d P V)) as HtH.
  { apply trim_normal; [by apply ltrimmed_cons| |done].
    apply rtrimmed_cons. split; [apply rtrimmed_app; [apply d_trim|done]|done]. }
  split_and!.
  - split_and!; [done..|]. intros _ p0 v0. rewrite HcJ. intros [= <- <-]. done.
  - unfold live. by rewrite HtJ, HhJ, HcJ, HtP, HtV.
  - split_and!; [done| |done|done]. simpl. by rewrite HnJ.
  - unfold live. by rewrite HtH.
Qed.

Lemma load_line_live line cfg :
  plain line = true → contains newline line = false →
  let '(line', cfg') := load_line d Normalize line cfg in
  line_ok line' ∧
  match live line with
  | None => cfg' = cfg ∧ live line' = None
  | Some (p, v) =>
      match cfg !! p with
      | Some _ => cfg' = cfg ∧ live line' = None
      | None => cfg' = <[p := v]> cfg ∧ live line' = Some (p, v)
      end
  end.
Proof using Hd Hdh.
  intros Hpl Hnl. unfold load_line. unfold live at 1 3. set (line' := trim false line).
  assert (contains newline line' = false) as Hnl' by by apply no_contains_trim.
  assert (trim false line' = line') as Htr by apply trim_idem.
  assert (plain line' = true) as Hpl' by by apply plain_rtrim, plain_ltrim.
  clearbody line'.
  assert (contains hash line' = true ∨ cut d line' = None →
    line_ok line' ∧ live line' = None) as Hdead.
  { intros Hdead. split.
    - split_and!; [done..|]. intros Hh p v Hc. destruct Hdead; congruence.
    - unfold live. rewrite Htr. destruct (contains hash line'); [done|].
      destruct Hdead as [?| ->]; done. }
  destruct (contains hash line') eqn:Hh; [by destruct Hdead; auto|].
  destruct (String.eqb_spec line' "") as [->|Hne]; [by destruct Hdead; auto|].
  destruct (cut d line') as [[p v]|] eqn:Hcut; [|by destruct Hdead; auto]. clear Hdead.
  pose proof (cut_spec _ _ _ _ Hcut) as [-> Hp].
  destruct (join_line_live p v) as (Hok & Hlive & Hokh & Hliveh);
    [done..|].
  simpl is_normalize. cbv iota.
  destruct (String.eqb (trim true p) "") eqn:HP; [done|].
  destruct (cfg !! trim true p); done.
Qed.

(** ** Whole files *)

Definition clean_line (line : string) : Prop := plain line = true ∧ contains newline line = false.

Lemma load_lines_spec lines cfg lines' cfg' :
  Forall clean_line lines → load_lines d Normalize lines cfg = (lines', cfg') →
  Forall line_ok lines' ∧
  (∀ k, cfg' !! k = match cfg !! k with Some v => Some v | None => first_live k lines end) ∧
  (∀ k, cfg !! k = None → first_live k lines' = first_live k lines).
Proof using Hd Hdh.
  revert cfg lines' cfg'. induction lines as [|line lines IH]; intros cfg lines' cfg' Hcl Hload; simpl in Hload.
  { simplify_eq. split_and!; [done|by intros k; destruct (cfg' !! k)|done]. }
  apply Forall_cons in Hcl as [[Hpl Hnl] Hcl].
  pose proof (load_line_live line cfg Hpl Hnl) as Hline.
  destruct (load_line d Normalize line cfg) as [line1 cfg1].
  destruct (load_lines d Normalize lines cfg1) as [lines2 cfg2] eqn:Hl. simplify_eq.
  destruct Hline as [Hok Hline]. destruct (IH _ _ _ Hcl Hl) as (Hoks & Hlk & Hfl).
  split; [by constructor|]. simpl. destruct (live line) as [[p v]|].
  - destruct (cfg !! p) eqn:Hp; destruct Hline as [-> ->].
    + split; intros k.
      * rewrite Hlk. destruct (cfg !! k) eqn:Hk; [done|].
        destruct (String.eqb_spec p k); [congruence|done].
      * intros Hk. destruct (String.eqb_spec p k); [congruence|auto].
    + split; intros k.
      * rewrite Hlk. destruct (String.eqb_spec p k) as [->|Hne].
        -- by rewrite lookup_insert_eq, Hp.
        -- by rewrite lookup_insert_ne.
      * intros Hk. destruct (String.eqb_spec p k) as [->|Hne]; [done|].
        apply Hfl. by rewrite lookup_insert_ne.
  - destruct Hline as [-> ->]. auto.
Qed.

(** The invariant of a handler between operations: its map is what its lines
    say, and its lines are in normal form. *)
Definition config_inv (c : Config) : Prop :=
  Forall line_ok (original_lines c) ∧ ∀ k, config c !! k = first_live k (original_lines c).

(** A key and a value that survive in a file. *)
Definition clean_key (k : string) : Prop :=
  k ≠ "" ∧ trim true k = k ∧ trim false k = k ∧ plain k = true ∧
  contains newline k = false ∧ contains hash k = false ∧ contains d k = false.
Definition clean_value (v : string) : Prop :=
  trim false v = v ∧ plain v = true ∧ contains newline v = false ∧ contains hash v = false.

Lemma set_line_ok k v :
  clean_key k → clean_value v →
  line_ok (join_line d k v) ∧ live (join_line d k v) = Some (k, v) ∧
  line_is_for d Normalize k (join_line d k v) = true.
Proof using Hd Hdh.
  intros (Hne & Ht & Ht' & Hp & Hn & Hh & Hdk) (Hv & Hpv & Hnv & Hhv).
  destruct (join_line_live k v) as (Hok & Hlive & _ & _).
  - by rewrite plain_join, Hp, Hpv.
  - done.
  - rewrite contains_join, Hn, Hnv. simpl. rewrite orb_false_r.
    by destruct (Ascii.eqb_spec d newline) as [->|].
  - rewrite contains_join, Hh, Hhv. simpl. rewrite orb_false_r. by destruct (Ascii.eqb_spec d hash).
  - rewrite Ht, Hv in Hok, Hlive. split; [done|].
    destruct (String.eqb_spec k ""); [done|]. split; [done|].
    unfold line_is_for, join_line. rewrite cut_join by done. cbn [is_normalize]. rewrite Ht'. apply String.eqb_refl.
Qed.

(** On normal lines the line found by [setValue] is the one [loadConfig]
    reads: a live line is for its key. *)
Lemma live_line_is_for line k v :
  line_ok line → live line = Some (k, v) → ∀ k', line_is_for d Normalize k' line = String.eqb k k'.
Proof.
  intros (_ & _ & Htr & Hok). unfold live, line_is_for. rewrite Htr. intros Hl k'.
  destruct (contains hash line); [done|]. destruct (cut d line) as [[p q]|]; [|done].
  destruct (Hok eq_refl p q eq_refl) as (HtP & HtP' & _). rewrite HtP in Hl. cbn [is_normalize]. rewrite HtP'.
  by destruct (String.eqb p ""); simplify_eq.
Qed.

Lemma first_live_replace k v lines :
  clean_key k → clean_value v → Forall line_ok lines →
  let lines' := replace_first d Normalize k (join_line d k v) lines in
  Forall line_ok lines' ∧ first_live k lines' = Some v ∧
  ∀ k', k' ≠ k → first_live k' lines' = first_live k' lines.
Proof using Hd Hdh.
  intros Hk Hv Hoks. destruct (set_line_ok k v Hk Hv) as (Hok & Hlive & _).
  induction Hoks as [|line lines Hline Hoks (IH1 & IH2 & IH3)]; simpl.
  { rewrite Hlive, String.eqb_refl. split_and!; [auto|done|]. intros k' Hne.
    by destruct (String.eqb_spec k k'). }
  destruct (line_is_for d Normalize k line) eqn:Hfor; simpl.
  - rewrite Hlive, String.eqb_refl. split_and!; [auto|done|]. intros k' Hne.
    destruct (String.eqb_spec k k'); [congruence|].
    destruct (live line) as [[p w]|] eqn:Hl; [|done].
    rewrite (live_line_is_for _ _ _ Hline Hl) in Hfor. apply String.eqb_eq in Hfor as ->.
    by destruct (String.eqb_spec k k').
  - split; [auto|]. destruct (live line) as [[p w]|] eqn:Hl; [|auto].
    rewrite (live_line_is_for _ _ _ Hline Hl) in Hfor. rewrite Hfor. split; [done|].
    intros k' Hne. rewrite IH3 by done. done.
Qed.

Lemma first_live_remove k lines :
  Forall line_ok lines →
  let lines' := List.filter (λ line, negb (line_is_for d Normalize k line)) lines in
  Forall line_ok lines' ∧ first_live k lines' = None ∧
  ∀ k', k' ≠ k → first_live k' lines' = first_live k' lines.
Proof.
  intros Hoks. induction Hoks as [|line lines Hline Hoks (IH1 & IH2 & IH3)]; simpl; [auto|].
  destruct (line_is_for d Normalize k line) eqn:Hfor; simpl.
  - split_and!; [done..|]. intros k' Hne. rewrite IH3 by done.
    destruct (live line) as [[p w]|] eqn:Hl; [|done].
    rewrite (live_line_is_for _ _ _ Hline Hl) in Hfor. apply String.eqb_eq in Hfor as ->.
    by destruct (String.eqb_spec k k').
  - split; [auto|]. destruct (live line) as [[p w]|] eqn:Hl; [|auto].
    rewrite (live_line_is_for _ _ _ Hline Hl) in Hfor. rewrite Hfor. split; [done|].
    intros k' Hne. rewrite IH3 by done. done.
Qed.

Lemma setValue_inv c k v :
  config_inv c → clean_key k → clean_value v → config_inv (setValue d Normalize c k v).2.
Proof using Hd Hdh.
  intros [Hoks Hlk] Hk Hv. pose proof Hk as [Hne _].
  destruct (first_live_replace k v (original_lines c) Hk Hv Hoks) as (H1 & H2 & H3).
  unfold setValue. destruct (String.eqb_spec k ""); [done|]. split; [done|]. simpl. intros k'.
  destruct (decide (k' = k)) as [->|Hkk]; [by rewrite lookup_insert_eq|].
  rewrite lookup_insert_ne by done. by rewrite H3, Hlk.
Qed.

Lemma removeValue_inv c k : config_inv c → config_inv (removeValue d Normalize c k).2.
Proof.
  intros [Hoks Hlk]. destruct (first_live_remove k (original_lines c) Hoks) as (H1 & H2 & H3).
  unfold removeValue. destruct (String.eqb_spec k ""); [done|]. split; [done|]. simpl. intros k'.
  destruct (decide (k' = k)) as [->|Hkk]; [by rewrite lookup_delete_eq|].
  rewrite lookup_delete_ne by done. by rewrite H3, Hlk.
Qed.
End reload.

(** ** The text between save and load *)

Lemma getlines_from_line line s t :
  contains newline s = false →
  getlines_from line (s +:+ String newline t) = (line +:+ s) :: getlines_from "" t.
Proof.
  revert line. induction s as [|a s IH]; intros line Hn.
  - simpl. by rewrite string_app_nil_r.
  - simpl in Hn. apply orb_false_iff in Hn as [Ha Hn].
    change (String a s +:+ String newline t) with (String a (s +:+ String newline t)). simpl.
    rewrite Ha, (IH _ Hn), string_app_assoc. done.
Qed.

Lemma getlines_pending c :
  Forall (λ l, contains newline l = false) (original_lines c) →
  getlines (pendingContent c) = original_lines c.
Proof.
  unfold getlines, pendingContent. induction 1 as [|l ls Hl Hls IH]; [done|]. simpl.
  rewrite getlines_from_line by done. by rewrite IH.
Qed.

Lemma getlines_from_clean line s :
  plain line = true → contains newline line = false → plain s = true →
  Forall clean_line (getlines_from line s).
Proof.
  revert line. induction s as [|a s IH]; intros line Hl Hn Hs; simpl.
  - destruct (String.eqb line ""); repeat constructor; done.
  - apply plain_cons in Hs as [Ha Hs]. destruct (Ascii.eqb a newline) eqn:E.
    + constructor; [done|]. by apply IH.
    + apply IH; [rewrite plain_app, Hl; apply plain_cons; by split| |done].
      rewrite contains_app, Hn. simpl. by rewrite E.
Qed.

(** * Properties *)

(** One editing operation of a client of the handler. *)
Inductive config_op := OpSet (k v : string) | OpRemove (k : string).

Definition run_op (d : Ascii.ascii) (c : Config) (op : config_op) : Config :=
  match op with
  | OpSet k v => (setValue d Normalize c k v).2
  | OpRemove k => (removeValue d Normalize c k).2
  end.

Definition clean_op (d : Ascii.ascii) (op : config_op) : Prop :=
  match op with OpSet k v => clean_key d k ∧ clean_value v | OpRemove _ => True end.

Lemma loadConfig_inv d content :
  isspace d = false → d ≠ hash → plain content = true →
  config_inv d (loadConfig d Normalize content).
Proof.
  intros Hd Hh Hp. unfold loadConfig.
  destruct (load_lines d Normalize (getlines content) ∅) as [lines cfg] eqn:Hl.
  apply load_lines_spec in Hl as (Hok & Hlk & Hfl); [|done..|by apply getlines_from_clean].
  split; [done|]. simpl. intros k. rewrite Hlk, lookup_empty. symmetry. apply Hfl, lookup_empty.
Qed.

Lemma run_ops_inv d c ops :
  isspace d = false → d ≠ hash → config_inv d c → Forall (clean_op d) ops →
  config_inv d (foldl (run_op d) c ops).
Proof.
  intros Hd Hh Hc Hops. revert c Hc. induction Hops as [|op ops Hop Hops IH]; intros c Hc; simpl; [done|].
  apply IH. destruct op as [k v|k]; simpl.
  - destruct Hop. by apply setValue_inv.
  - by apply removeValue_inv.
Qed.

Lemma reload_inv d c :
  isspace d = false → d ≠ hash → config_inv d c →
  config (loadConfig d Normalize (pendingContent c)) = config c.
Proof.
  intros Hd Hh [Hok Hlk]. unfold loadConfig.
  rewrite getlines_pending by (eapply Forall_impl; [exact Hok|]; by intros l (_ & ? & _)).
  destruct (load_lines d Normalize (original_lines c) ∅) as [lines cfg] eqn:Hl.
  apply load_lines_spec in Hl as (_ & Hlk' & _); [|done..|].
  - simpl. apply map_eq. intros k. by rewrite Hlk', lookup_empty, Hlk.
  - eapply Forall_impl; [exact Hok|]. intros l (? & ? & _). by split.
Qed.

(** Saving and reloading keeps every parameter: after loading a file and any
    sequence of [setValue] and [removeValue] with keys and values free of
    newlines, comment signs and surrounding blanks, reading back the text
    [saveFile] writes gives exactly the parameters the handler holds. *)
Theorem config_reload_roundtrip d content ops :
  isspace d = false → d ≠ hash → plain content = true → Forall (clean_op d) ops →
  let c := foldl (run_op d) (loadConfig d Normalize content) ops in
  config (loadConfig d Normalize (pendingContent c)) = config c.
Proof. intros Hd Hh Hp Hops. apply reload_inv; auto using run_ops_inv, loadConfig_inv. Qed.

Lemma config_reload_roundtrip_witness :
  let text := "# header" +:+ String newline ("a.status = ENABLE" +:+ String newline ("a.status=x" +:+ String newline "")) in
  let c := foldl (run_op "="%char) (loadConfig "="%char Normalize text) [OpSet "a.value" "7"; OpRemove "b"] in
  config (loadConfig "="%char Normalize (pendingContent c)) = config c ∧
  config c !! "a.status" = Some "ENABLE" ∧ config c !! "a.value" = Some "7".
Proof.
  split; [|split; vm_compute; reflexivity].
  apply (config_reload_roundtrip "="%char _ [OpSet "a.value" "7"; OpRemove "b"]);
    [reflexivity|discriminate|reflexivity|].
  constructor; [|constructor; [exact I|constructor]].
  split; [repeat split; (reflexivity || discriminate)|repeat split; reflexivity].
Defined.

(** A value with a comment sign is lost by a save and a reload: the handler
    answers with the value it was given, yet the file it writes is read back
    without the parameter, for every key and every value that contains [#]. *)
Theorem hash_value_lost k v :
  clean_key "="%char k → trim false v = v → contains newline v = false → contains hash v = true →
  let c := (setValue "="%char Normalize (mkConfig [] ∅) k v).2 in
  getValue c k = v ∧
  isParameterExists (loadConfig "="%char Normalize (pendingContent c)) k = false.
Proof.
  intros (Hne & Ht & Ht' & Hp & Hn & Hh & Hdk) Hv Hnv Hhv.
  unfold setValue, getValue, isParameterExists. destruct (String.eqb_spec k ""); [done|].
  set (c := mkConfig _ _). split; [simpl; by rewrite lookup_insert_eq|].
  assert (contains newline (join_line "=" k v) = false) as Hnl.
  { by rewrite contains_join, Hn, Hnv. }
  unfold loadConfig. rewrite getlines_pending by (repeat constructor; exact Hnl).
  assert (ltrimmed k ∧ rtrimmed v) as [Hlk Hrv].
  { rewrite <- Ht', <- Hv. split; [apply rtrim_ltrimmed, ltrimmed_ltrim|apply rtrim_idem]. }
  simpl. unfold load_line. rewrite trim_join_line by done.
  by rewrite contains_join, Hhv, !orb_true_r.
Qed.

Lemma hash_value_lost_witness :
  let c := (setValue "="%char Normalize (mkConfig [] ∅) "banner.value" "room #4").2 in
  getValue c "banner.value" = "room #4" ∧
  isParameterExists (loadConfig "="%char Normalize (pendingContent c)) "banner.value" = false.
Proof.
  apply (hash_value_lost "banner.value" "room #4");
    [repeat split; (reflexivity || discriminate)|reflexivity..].
Defined.

(** A configured severity that is not one of the five tokens never lowers
    the reaction: [getPolicyViolationSeverity] answers ISOLATE for it. *)
Theorem unknown_severity_fails_closed c policy text :
  config c !! ModuleConfig.violationSeverityKey policy = Some text →
  (∀ s, violationSeverityToken s ≠ Val text) →
  ModuleConfig.getPolicyViolationSeverity c policy = VIsolate.
Proof.
  intros Hc Hno. unfold ModuleConfig.getPolicyViolationSeverity, isParameterExists, getValue.
  rewrite Hc. simpl.
  destruct (parseViolationSeverityToken text) as [s|] eqn:Hp; [|done].
  apply parse_violation_token in Hp. by apply Hno in Hp.
Qed.

Lemma unknown_severity_fails_closed_witness :
  ModuleConfig.getPolicyViolationSeverity
    (mkConfig [] {["p.violation_severity" := "hard"]}) "p" = VIsolate.
Proof.
  apply (unknown_severity_fails_closed _ "p" "hard"); [reflexivity|].
  intros []; vm_compute; discriminate.
Defined.

(** Setting then reading a policy's status: [setPolicyStatus] accepts
    exactly ENABLE and DISABLE for a named policy, and then
    [getPolicyStatus] returns it; other requests change nothing. *)
Theorem policy_status_set_get c policy status :
  policy ≠ "" →
  let r := ModuleConfig.setPolicyStatus c policy status in
  if bool_decide (status = "ENABLE" ∨ status = "DISABLE")
  then r.1 = true ∧ ModuleConfig.getPolicyStatus r.2 policy = status
  else r = (false, c).
Proof.
  intros Hp. cbv zeta. unfold ModuleConfig.setPolicyStatus, ModuleConfig.getPolicyStatus, ModuleConfig.set, setValue.
  destruct (String.eqb_spec policy ""); [done|].
  assert (ModuleConfig.statusKey policy ≠ "") as Hk by (by destruct policy).
  unfold ModuleConfig.ENABLED_STATUS, ModuleConfig.DISABLED_STATUS.
  destruct (String.eqb_spec status "ENABLE") as [->|He]; cbn [negb andb].
  2: destruct (String.eqb_spec status "DISABLE") as [->|Hd]; cbn [negb andb].
  3: by rewrite bool_decide_eq_false_2 by naive_solver.
  all: rewrite bool_decide_eq_true_2 by auto;
    destruct (String.eqb_spec (ModuleConfig.statusKey policy) ""); [done|]; cbn [fst snd];
    unfold isParameterExists, getValue; cbn [config]; rewrite lookup_insert_eq; done.
Qed.

Lemma policy_status_set_get_witness :
  ModuleConfig.getPolicyStatus (ModuleConfig.setPolicyStatus (mkConfig [] ∅) "p" "ENABLE").2 "p" = "ENABLE".
Proof.
  exact (proj2 (policy_status_set_get (mkConfig [] ∅) "p" "ENABLE" ltac:(discriminate))).
Defined.
