(* ===== verification/PolicyModel.v ===== *)
(** Policies and their dependencies (fic-common/fic-policy: PolicyDependency,
    PolicyDependencyConditionEvaluator, Policy; PolicyApplyResult).

    A [Policy] carries its identity, its module configuration, its value type,
    its declared dependencies and its [apply], which acts on a world [W] the
    rest of the development does not look into. *)

From S2P Require Import Prelude Logger Severity PolicyValue ConfigFile.
Open Scope string_scope.
Open Scope nat_scope.

(** * References *)

Record PolicyRef := mkRef {
  moduleName : string;
  submoduleName : string;
  policyName : string
}.

#[export] Instance PolicyRef_eq_dec : EqDecision PolicyRef.
Proof. solve_decision. Defined.

Definition ref_tuple (r : PolicyRef) : string * string * string :=
  (moduleName r, submoduleName r, policyName r).
Definition tuple_ref (t : string * string * string) : PolicyRef :=
  mkRef t.1.1 t.1.2 t.2.

Lemma tuple_ref_tuple r : tuple_ref (ref_tuple r) = r.
Proof. by destruct r. Qed.
#[export] Instance PolicyRef_countable : Countable PolicyRef :=
  inj_countable' ref_tuple tuple_ref tuple_ref_tuple.

(** [operator<] of [PolicyRef]: [std::tie] of the three names. *)
Lemma ref_tuple_cmp_eq a b : cmp (ref_tuple a) (ref_tuple b) = Eq ↔ a = b.
Proof. rewrite cmp_eq. destruct a, b; unfold ref_tuple; simpl. naive_solver. Qed.
#[export] Instance PolicyRef_Cmp : Cmp PolicyRef := {|
  cmp a b := cmp (ref_tuple a) (ref_tuple b);
  cmp_eq := ref_tuple_cmp_eq;
  cmp_opp a b := cmp_opp (ref_tuple a) (ref_tuple b);
  cmp_lt_trans a b c := cmp_lt_trans (ref_tuple a) (ref_tuple b) (ref_tuple c)
|}.

Definition formatPolicyRef (p : PolicyRef) : string :=
  moduleName p +:+ ":" +:+ submoduleName p +:+ ":" +:+ policyName p.

(** * Dependencies *)

Inductive PolicyDependencyStrength := Required | Recommended.
#[export] Instance PolicyDependencyStrength_eq_dec : EqDecision PolicyDependencyStrength.
Proof. solve_decision. Defined.

Inductive PolicyDependencyConditionType :=
| Always | OwnerValueEquals | BackendRequiresCapability.
#[export] Instance PolicyDependencyConditionType_eq_dec : EqDecision PolicyDependencyConditionType.
Proof. solve_decision. Defined.

Record PolicyDependencyCondition := mkCondition {
  condition_type : PolicyDependencyConditionType;
  condition_value : string
}.
#[export] Instance PolicyDependencyCondition_eq_dec : EqDecision PolicyDependencyCondition.
Proof. solve_decision. Defined.

Record PolicyDependency := mkDependency {
  dep_policy : PolicyRef;
  dep_strength : PolicyDependencyStrength;
  dep_condition : PolicyDependencyCondition
}.
#[export] Instance PolicyDependency_eq_dec : EqDecision PolicyDependency.
Proof. solve_decision. Defined.

Definition whenOwnerValueEquals (value : string) := mkCondition OwnerValueEquals value.
Definition whenBackendRequiresCapability (capability : string) :=
  mkCondition BackendRequiresCapability capability.

(** * Results *)

Inductive PolicyApplyStatus := Applied | Failed | Disabled | NotFound.
#[export] Instance PolicyApplyStatus_eq_dec : EqDecision PolicyApplyStatus.
Proof. solve_decision. Defined.

Inductive PolicyFailureOrigin :=
| OriginNone | OwnApplyFailure | RequiredDependencyBlocked | DependencyCycle
| ExecutionInfrastructureFailure.
#[export] Instance PolicyFailureOrigin_eq_dec : EqDecision PolicyFailureOrigin.
Proof. solve_decision. Defined.

Definition policyFailureOriginToString (o : PolicyFailureOrigin) : string :=
  match o with
  | OriginNone => "none"
  | OwnApplyFailure => "own_apply_failure"
  | RequiredDependencyBlocked => "required_dependency_blocked"
  | DependencyCycle => "dependency_cycle"
  | ExecutionInfrastructureFailure => "execution_infrastructure_failure"
  end.

Definition policyApplyStatusToString (s : PolicyApplyStatus) : string :=
  match s with
  | Applied => "applied" | Failed => "failed" | Disabled => "disabled" | NotFound => "not_found"
  end.

Record PolicyDiagnostic := mkDiagnostic {
  diag_timestamp : string;
  diag_level : string;
  diag_category : string;
  diag_message : string
}.

Record PolicyApplyResult := mkResult {
  res_moduleName : string;
  res_submoduleName : string;
  res_policyName : string;
  status : PolicyApplyStatus;
  message : string;
  diagnostics : list PolicyDiagnostic;
  diagnosticsTruncated : bool;
  failureOrigin : PolicyFailureOrigin;
  ownApplyAttempted : bool
}.

(** [PolicyRef{r.moduleName, r.submoduleName, r.policyName}]. *)
Definition result_ref (r : PolicyApplyResult) : PolicyRef :=
  mkRef (res_moduleName r) (res_submoduleName r) (res_policyName r).

Definition isApplied (r : PolicyApplyResult) : bool := bool_decide (status r = Applied).
Definition isFailure (r : PolicyApplyResult) : bool :=
  bool_decide (status r = Failed) || bool_decide (status r = NotFound).
Definition isDisabled (r : PolicyApplyResult) : bool := bool_decide (status r = Disabled).
Definition activatesIncident (r : PolicyApplyResult) : bool := bool_decide (status r = Failed).

(** * Policies *)

Inductive PolicyCapability :=
| SessionAware | SessionInventoryCompliance | GlobalDesktopConfiguration.
#[export] Instance PolicyCapability_eq_dec : EqDecision PolicyCapability.
Proof. solve_decision. Defined.
Definition capability_int (c : PolicyCapability) : nat :=
  match c with SessionAware => 0 | SessionInventoryCompliance => 1 | GlobalDesktopConfiguration => 2 end.
Definition int_capability (n : nat) : PolicyCapability :=
  match n with 0 => SessionAware | 1 => SessionInventoryCompliance | _ => GlobalDesktopConfiguration end.
Lemma int_capability_int c : int_capability (capability_int c) = c.
Proof. by destruct c. Qed.
#[export] Instance PolicyCapability_countable : Countable PolicyCapability :=
  inj_countable' capability_int int_capability int_capability_int.

(** How a call that runs a policy ends. *)
Inductive outcome (A : Type) :=
| Returned (a : A)
| Threw (what : string)
| ThrewUnknown.
Arguments Returned {A} _.
Arguments Threw {A} _.
Arguments ThrewUnknown {A}.

Section policy.
Context {W : Type} `{JsonArrays}.

Record Policy := mkPolicy {
  p_ref : PolicyRef;
  p_conf : Config;
  p_type : option PolicyTypeValue;
  p_dependencies : list PolicyDependency;
  p_frozen : bool;
  p_capabilities : list PolicyCapability;
  p_defaultSeverity : ViolationSeverity;
  p_supportsCapability : string → bool;
  p_requiresCapability : string → bool;
  (** [apply()]: its outcome, the records it logs, and the new world. *)
  p_apply : W → outcome bool * list LogRecord * W
}.

Definition type_unset : string :=
  "policyTypeValue не был установлен. Требуются правки кода".

Definition policy_validate (p : Policy) (value : string) : exc bool :=
  match p_type p with Some t => Val (validate t value) | None => Exn type_unset end.

Definition policy_reverse (p : Policy) (value : string) : exc string :=
  match p_type p with Some t => reverse_postProcessingValue t value | None => Exn type_unset end.

(** [Policy::getValue]; its log lines are not modelled. *)
Definition policy_getValue (p : Policy) : exc (option string) :=
  let name := policyName (p_ref p) in
  if negb (ModuleConfig.hasConfiguredValue (p_conf p) name) then
    match p_type p with
    | Some t => Val (getIntrinsicValue t)
    | None => Val None
    end
  else
    let! value := policy_reverse p (ModuleConfig.getPolicyValue (p_conf p) name) in
    let! ok := policy_validate p value in
    Val (if ok then Some value else None).

Definition isEnabled (p : Policy) : bool :=
  String.eqb (ModuleConfig.getPolicyStatus (p_conf p) (policyName (p_ref p))) "ENABLE".

Definition getViolationSeverity (p : Policy) : ViolationSeverity :=
  let name := policyName (p_ref p) in
  if ModuleConfig.hasPolicyViolationSeverity (p_conf p) name
  then ModuleConfig.getPolicyViolationSeverity (p_conf p) name
  else p_defaultSeverity p.

(** [validateValueBeforeEnable] against a configuration about to be saved.
    A policy without a value type is a programming error there (the source
    dereferences it); it answers with the exception of [validate]. *)
Definition validateValueBeforeEnable (p : Policy) (c : Config) : exc bool :=
  match p_type p with
  | None => Exn type_unset
  | Some t =>
      if hasDefaultValue t then Val true
      else if negb (ModuleConfig.hasConfiguredValue c (policyName (p_ref p))) then Val false
      else let! value := policy_reverse p (ModuleConfig.getPolicyValue c (policyName (p_ref p))) in
           policy_validate p value
  end.

Definition addDependency (p : Policy) (target : PolicyRef) (strength : PolicyDependencyStrength)
    (condition : PolicyDependencyCondition) : exc Policy :=
  if p_frozen p then
    Exn ("policy dependency metadata is already frozen: " +:+ policyName (p_ref p))
  else Val (mkPolicy (p_ref p) (p_conf p) (p_type p)
    (p_dependencies p ++ [mkDependency target strength condition])%list
    (p_frozen p) (p_capabilities p) (p_defaultSeverity p)
    (p_supportsCapability p) (p_requiresCapability p) (p_apply p)).

Definition freezeDependencies (p : Policy) : Policy :=
  mkPolicy (p_ref p) (p_conf p) (p_type p) (p_dependencies p) true (p_capabilities p)
    (p_defaultSeverity p) (p_supportsCapability p) (p_requiresCapability p) (p_apply p).

(** * Conditions *)

Definition dependencyConditionMatches (owner : Policy) (c : PolicyDependencyCondition)
  : exc bool :=
  match condition_type c with
  | Always => Val true
  | BackendRequiresCapability => Val (p_requiresCapability owner (condition_value c))
  | OwnerValueEquals =>
      let! ownerValue := policy_getValue owner in
      Val (match ownerValue with
           | Some v => String.eqb v (condition_value c)
           | None => false
           end)
  end.

(** [None]: valid; [Some error] otherwise. *)
Definition validateDependencyCondition (owner : Policy) (c : PolicyDependencyCondition)
  : exc (option string) :=
  match condition_type c with
  | Always =>
      Val (if String.eqb (condition_value c) "" then None
           else Some "Always dependency condition must not contain a value")
  | OwnerValueEquals =>
      let! ok := policy_validate owner (condition_value c) in
      Val (if ok then None
           else Some ("OwnerValueEquals dependency condition contains an invalid owner policy value: "
                      +:+ condition_value c))
  | BackendRequiresCapability =>
      Val (if String.eqb (condition_value c) "" || negb (p_supportsCapability owner (condition_value c))
           then Some "BackendRequiresCapability dependency condition is not supported by its owner"
           else None)
  end.
End policy.
Arguments Policy : clear implicits.
