(* ===== verification/Registry.v ===== *)
(** The policy registry (fic/src/policy/registry/PolicyRegistry.h).

    Three nested [std::map]s (module, submodule, policy name) kept as their
    iteration sequences, and the index of policies by capability; the
    operations that register, and the lookups and the iteration the rest of
    the daemon uses. Ownership of the policy objects (move, [swap],
    [rebindOwners]) is not modelled: a policy is its value. *)

From S2P Require Import Prelude Logger Severity PolicyValue ConfigFile PolicyModel.
Open Scope string_scope.
Open Scope nat_scope.

Inductive ModuleView := ViewStandard | ViewDevice | ViewAudit.
#[export] Instance ModuleView_eq_dec : EqDecision ModuleView.
Proof. solve_decision. Defined.

Definition moduleViewName (v : ModuleView) : string :=
  match v with ViewStandard => "standard" | ViewDevice => "device" | ViewAudit => "audit" end.

Section registry.
Context {W : Type}.

Definition PolicyEntryMap := smap string (Policy W).
Definition SubmoduleMap := smap string PolicyEntryMap.

Record PolicyModule := mkModule {
  view : ModuleView;
  displayOrder : Z;
  submodules : SubmoduleMap
}.

Record PolicyRegistry := mkRegistry {
  modules : smap string PolicyModule;
  capabilityIndex : gmap PolicyCapability (list PolicyRef)
}.

Definition empty_registry : PolicyRegistry := mkRegistry [] ∅.

(** The Boolean result and the error text of the C++ call, as a sum. *)
Definition addModule (reg : PolicyRegistry) (name : string) (v : ModuleView) (order : Z)
  : string + PolicyRegistry :=
  if String.eqb name "" then inl "module name must not be empty"
  else if (order <? 0)%Z then inl ("module display order must not be negative: " +:+ name)
  else match smap_find name (modules reg) with
  | Some existing =>
      if bool_decide (view existing ≠ v) then inl ("conflicting view for module: " +:+ name)
      else if bool_decide (displayOrder existing ≠ order)
      then inl ("conflicting display order for module: " +:+ name)
      else inr reg
  | None => inr (mkRegistry (smap_emplace name (mkModule v order []) (modules reg)) (capabilityIndex reg))
  end.

Definition index_capability (r : PolicyRef) (idx : gmap PolicyCapability (list PolicyRef))
    (c : PolicyCapability) : gmap PolicyCapability (list PolicyRef) :=
  <[c := (default [] (idx !! c) ++ [r])%list]> idx.

Definition addPolicy (reg : PolicyRegistry) (policy : option (Policy W)) : string + PolicyRegistry :=
  match policy with
  | None => inl "policy must not be null"
  | Some policy =>
      let r := p_ref policy in
      if String.eqb (moduleName r) "" || String.eqb (submoduleName r) "" || String.eqb (policyName r) ""
      then inl "policy module, submodule and name must not be empty"
      else match smap_find (moduleName r) (modules reg) with
      | None => inl ("policy references unknown module: " +:+ moduleName r)
      | Some m =>
          let policies := default [] (smap_find (submoduleName r) (submodules m)) in
          match smap_find (policyName r) policies with
          | Some _ =>
              inl ("duplicate policy registration: " +:+ moduleName r +:+ "/" +:+
                   submoduleName r +:+ "/" +:+ policyName r)
          | None =>
              let policies := smap_emplace (policyName r) (freezeDependencies policy) policies in
              let m := mkModule (view m) (displayOrder m)
                         (smap_set (submoduleName r) policies (submodules m)) in
              inr (mkRegistry (smap_set (moduleName r) m (modules reg))
                     (foldl (index_capability r) (capabilityIndex reg) (p_capabilities policy)))
          end
      end
  end.

Definition findPolicy (reg : PolicyRegistry) (r : PolicyRef) : option (Policy W) :=
  match smap_find (moduleName r) (modules reg) with
  | None => None
  | Some m =>
      match smap_find (submoduleName r) (submodules m) with
      | None => None
      | Some policies => smap_find (policyName r) policies
      end
  end.

Definition policyRefs (reg : PolicyRegistry) : list PolicyRef :=
  m ← modules reg; s ← submodules m.2; p ← s.2; [mkRef m.1 s.1 p.1].

Definition capabilityPolicies (reg : PolicyRegistry) (c : PolicyCapability) : list PolicyRef :=
  default [] (capabilityIndex reg !! c).

(** * Invariant *)

Record entries_ok (mn sn : string) (ps : PolicyEntryMap) : Prop := {
  eo_wf : smap_wf ps;
  eo_named : ∀ pn p, (pn, p) ∈ ps → p_ref p = mkRef mn sn pn ∧ p_frozen p = true;
}.

Record module_ok (mn : string) (m : PolicyModule) : Prop := {
  mo_wf : smap_wf (submodules m);
  mo_entries : ∀ sn ps, (sn, ps) ∈ submodules m → entries_ok mn sn ps
}.

(** Every map is sorted and every policy is stored under its own reference
    with its dependencies frozen. *)
Record registry_ok (reg : PolicyRegistry) : Prop := {
  ro_wf : smap_wf (modules reg);
  ro_modules : ∀ mn m, (mn, m) ∈ modules reg → module_ok mn m
}.

Lemma empty_registry_ok : registry_ok empty_registry.
Proof. split; [apply smap_wf_nil|set_solver]. Qed.

(** Membership after an update of a sorted map. *)
Lemma elem_of_smap_set {V} (m : smap string V) k v k' v' :
  smap_wf m → (k', v') ∈ smap_set k v m → (k', v') = (k, v) ∨ (k' ≠ k ∧ (k', v') ∈ m).
Proof.
  intros Hwf Hin. rewrite <- (smap_find_elem _ k' v') in Hin by by apply smap_set_wf.
  destruct (decide (k' = k)) as [->|Hne].
  - rewrite smap_find_set_eq in Hin. left. congruence.
  - rewrite smap_find_set_ne in Hin by done. right. split; [done|]. by apply smap_find_elem.
Qed.

Lemma addModule_ok reg name v order reg' :
  registry_ok reg → addModule reg name v order = inr reg' → registry_ok reg'.
Proof.
  intros [Hwf Hm] Ha. unfold addModule in Ha. repeat case_hyp Ha; [done|].
  split; simpl; [by apply smap_emplace_wf|]. intros mn m Hin. unfold smap_emplace in Hin.
  destruct (smap_find name (modules reg)) eqn:?; [done|].
  apply elem_of_smap_set in Hin as [[= -> ->]|[_ Hin]]; [|eauto|done].
  split; [apply smap_wf_nil|set_solver].
Qed.

Lemma addPolicy_ok reg p reg' :
  registry_ok reg → addPolicy reg p = inr reg' → registry_ok reg'.
Proof.
  intros [Hwf Hm] Ha. unfold addPolicy in Ha. destruct p as [p|]; [|done].
  destruct (p_ref p) as [mn sn pn] eqn:Hr; simpl in Ha.
  destruct (_ || _); [done|]. destruct (smap_find mn (modules reg)) as [m|] eqn:Hfm; [|done].
  apply smap_find_elem in Hfm; [|done]. destruct (Hm _ _ Hfm) as [Hswf Hse].
  destruct (smap_find pn _) eqn:Hfp; [done|]. injection Ha as <-.
  assert (entries_ok mn sn (default [] (smap_find sn (submodules m)))) as [Hewf Hen].
  { destruct (smap_find sn (submodules m)) as [ps|] eqn:Hfs; simpl.
    - apply Hse. by apply smap_find_elem.
    - split; [apply smap_wf_nil|set_solver]. }
  split; simpl; [by apply smap_set_wf|]. intros mn' m' Hin.
  apply elem_of_smap_set in Hin as [[= -> ->]|[_ Hin]]; [|eauto|done].
  split; simpl; [by apply smap_set_wf|]. intros sn' ps' Hin.
  apply elem_of_smap_set in Hin as [[= -> ->]|[_ Hin]]; [|eauto|done].
  split; [by apply smap_emplace_wf|]. intros pn' p' Hin. unfold smap_emplace in Hin.
  rewrite Hfp in Hin. apply elem_of_smap_set in Hin as [[= -> ->]|[_ Hin]]; [done|eauto|done].
Qed.

(** * Lookup and iteration *)

Lemma elem_of_policyRefs reg r :
  r ∈ policyRefs reg ↔
  ∃ m ps p, (moduleName r, m) ∈ modules reg ∧ (submoduleName r, ps) ∈ submodules m ∧ (policyName r, p) ∈ ps.
Proof.
  unfold policyRefs. rewrite list_elem_of_bind. split.
  - intros ([mn m] & Hr & Hm). apply list_elem_of_bind in Hr as ([sn ps] & Hr & Hs).
    apply list_elem_of_bind in Hr as ([pn p] & Hr & Hp).
    apply list_elem_of_singleton in Hr as ->. simpl in *. by exists m, ps, p.
  - intros (m & ps & p & Hm & Hs & Hp). exists (moduleName r, m). split; [|done]. simpl.
    apply list_elem_of_bind. exists (submoduleName r, ps). split; [|done]. simpl.
    apply list_elem_of_bind. exists (policyName r, p). split; [|done]. simpl.
    apply list_elem_of_singleton. by destruct r.
Qed.

Lemma findPolicy_elem reg r p :
  registry_ok reg →
  findPolicy reg r = Some p ↔
  ∃ m ps, (moduleName r, m) ∈ modules reg ∧ (submoduleName r, ps) ∈ submodules m ∧ (policyName r, p) ∈ ps.
Proof.
  intros [Hwf Hm]. unfold findPolicy. split.
  - intros Hf. destruct (smap_find (moduleName r) (modules reg)) as [m|] eqn:Hfm; [|done].
    apply smap_find_elem in Hfm; [|done]. destruct (Hm _ _ Hfm) as [Hswf Hse].
    destruct (smap_find (submoduleName r) (submodules m)) as [ps|] eqn:Hfs; [|done].
    apply smap_find_elem in Hfs; [|done]. destruct (Hse _ _ Hfs) as [Hewf _].
    exists m, ps. split_and!; [done..|]. by apply smap_find_elem.
  - intros (m & ps & Hin & Hs & Hp). destruct (Hm _ _ Hin) as [Hswf Hse].
    destruct (Hse _ _ Hs) as [Hewf _].
    apply smap_find_elem in Hin as ->; [|done]. apply smap_find_elem in Hs as ->; [|done].
    by apply smap_find_elem.
Qed.

Lemma findPolicy_refs reg r :
  registry_ok reg → is_Some (findPolicy reg r) ↔ r ∈ policyRefs reg.
Proof.
  intros Hok. rewrite elem_of_policyRefs. split.
  - intros [p (m & ps & ?)%findPolicy_elem]; [|done]. by exists m, ps, p.
  - intros (m & ps & p & ?). exists p. apply findPolicy_elem; [done|]. by exists m, ps.
Qed.

Lemma findPolicy_ref reg r p :
  registry_ok reg → findPolicy reg r = Some p → p_ref p = r ∧ p_frozen p = true.
Proof.
  intros Hok (m & ps & Hm & Hs & Hp)%findPolicy_elem; [|done].
  destruct (ro_modules _ Hok _ _ Hm) as [_ Hse]. destruct (Hse _ _ Hs) as [_ Hen].
  destruct (Hen _ _ Hp) as [-> ?]. by destruct r.
Qed.

(** ** Iteration is in strictly increasing reference order *)

Lemma bind_sorted {A} (l : list (string * A)) (f : string * A → list PolicyRef) :
  smap_wf l → (∀ x, x ∈ l → StronglySorted clt (f x)) →
  (∀ x y a b, x ∈ l → y ∈ l → clt x.1 y.1 → a ∈ f x → b ∈ f y → clt a b) →
  StronglySorted clt (l ≫= f).
Proof.
  induction l as [|[k v] l IH]; intros Hwf Hs Hlt; [constructor|].
  apply smap_wf_cons in Hwf as [Hwf Hall]. rewrite Forall_forall in Hall. simpl.
  apply StronglySorted_app. split_and!.
  - intros a b Ha (y & Hb & Hy)%list_elem_of_bind.
    apply (Hlt (k, v) y); [set_solver..|by apply Hall|done|done].
  - apply Hs. set_solver.
  - apply IH; [done|set_solver|]. intros x y a b Hx Hy. apply Hlt; set_solver.
Qed.

Lemma ref_cmp a b :
  cmp a b = lex_cmp (lex_cmp (cmp (moduleName a) (moduleName b))
    (cmp (submoduleName a) (submoduleName b))) (cmp (policyName a) (policyName b)).
Proof. reflexivity. Qed.
Lemma ref_clt_module a b : clt (moduleName a) (moduleName b) → clt a b.
Proof. unfold clt. rewrite ref_cmp. by intros ->. Qed.
Lemma ref_clt_submodule a b :
  moduleName a = moduleName b → clt (submoduleName a) (submoduleName b) → clt a b.
Proof. unfold clt. rewrite ref_cmp. intros ->. rewrite cmp_refl. by intros ->. Qed.
Lemma ref_clt_policy a b :
  moduleName a = moduleName b → submoduleName a = submoduleName b →
  clt (policyName a) (policyName b) → clt a b.
Proof. unfold clt. rewrite ref_cmp. intros -> ->. by rewrite !cmp_refl. Qed.

Lemma policyRefs_sorted reg : registry_ok reg → StronglySorted clt (policyRefs reg).
Proof.
  intros [Hwf Hm]. unfold policyRefs. apply bind_sorted; [done| |].
  - intros [mn m] Hin. destruct (Hm _ _ Hin) as [Hswf Hse]. apply bind_sorted; [done| |].
    + intros [sn ps] Hs. destruct (Hse _ _ Hs) as [Hewf _]. apply bind_sorted; [done| |].
      * intros x _. repeat constructor.
      * intros x y a b _ _ Hlt ->%list_elem_of_singleton ->%list_elem_of_singleton.
        by apply ref_clt_policy.
    + intros x y a b _ _ Hlt Ha Hb. simpl in Ha, Hb.
      apply list_elem_of_bind in Ha as (? & ->%list_elem_of_singleton & _).
      apply list_elem_of_bind in Hb as (? & ->%list_elem_of_singleton & _).
      by apply ref_clt_submodule.
  - intros x y a b _ _ Hlt Ha Hb. simpl in Ha, Hb.
    apply list_elem_of_bind in Ha as (? & Ha & _). apply list_elem_of_bind in Ha as (? & ->%list_elem_of_singleton & _).
    apply list_elem_of_bind in Hb as (? & Hb & _). apply list_elem_of_bind in Hb as (? & ->%list_elem_of_singleton & _).
    by apply ref_clt_module.
Qed.

Lemma policyRefs_NoDup reg : registry_ok reg → NoDup (policyRefs reg).
Proof. eauto using sorted_clt_NoDup, policyRefs_sorted. Qed.

(** ** Registration *)

(** The two halves of the test [addPolicy] makes before storing. *)
Lemma addPolicy_find reg p reg' r :
  registry_ok reg → addPolicy reg (Some p) = inr reg' →
  findPolicy reg' r = if bool_decide (r = p_ref p) then Some (freezeDependencies p) else findPolicy reg r.
Proof.
  intros [Hwf Hm] Ha. unfold addPolicy in Ha.
  destruct (_ || _); [done|]. destruct (smap_find (moduleName (p_ref p)) (modules reg)) as [m|] eqn:Hfm; [|done].
  pose proof Hfm as Hfm'. apply smap_find_elem in Hfm'; [|done]. destruct (Hm _ _ Hfm') as [Hswf Hse].
  destruct (smap_find (policyName (p_ref p)) _) eqn:Hfp; [done|]. injection Ha as <-.
  assert (smap_wf (default [] (smap_find (submoduleName (p_ref p)) (submodules m)))) as Hewf.
  { destruct (smap_find (submoduleName (p_ref p)) (submodules m)) as [ps|] eqn:Hfs; simpl; [|apply smap_wf_nil].
    apply smap_find_elem in Hfs; [|done]. apply (eo_wf _ _ _ (Hse _ _ Hfs)). }
  unfold findPolicy. simpl. destruct (p_ref p) as [mn sn pn]; simpl in *. destruct r as [mn' sn' pn']; simpl.
  destruct (decide (mn = mn')) as [<-|Hmn].
  2: { rewrite smap_find_set_ne by done. rewrite bool_decide_eq_false_2 by congruence. done. }
  rewrite smap_find_set_eq, Hfm. simpl. destruct (decide (sn = sn')) as [<-|Hsn].
  2: { rewrite smap_find_set_ne by done. rewrite bool_decide_eq_false_2 by congruence. done. }
  rewrite smap_find_set_eq. unfold smap_emplace. rewrite Hfp.
  destruct (decide (pn = pn')) as [<-|Hpn].
  - rewrite smap_find_set_eq. by rewrite bool_decide_eq_true_2.
  - rewrite smap_find_set_ne by done. rewrite bool_decide_eq_false_2 by congruence.
    by destruct (smap_find sn (submodules m)).
Qed.

Lemma addPolicy_new reg p reg' :
  registry_ok reg → addPolicy reg (Some p) = inr reg' → findPolicy reg (p_ref p) = None.
Proof.
  intros [Hwf Hm] Ha. unfold addPolicy in Ha. unfold findPolicy.
  destruct (_ || _); [done|]. destruct (smap_find (moduleName (p_ref p)) (modules reg)) as [m|]; [|done].
  destruct (smap_find (submoduleName (p_ref p)) (submodules m)); [|done]. simpl in Ha.
  by destruct (smap_find (policyName (p_ref p)) _).
Qed.

Lemma addModule_find reg name v order reg' r :
  registry_ok reg → addModule reg name v order = inr reg' → findPolicy reg' r = findPolicy reg r.
Proof.
  intros [Hwf Hm] Ha. unfold addModule in Ha. repeat case_hyp Ha; [done|].
  unfold findPolicy, smap_emplace. simpl. rewrite Heqo.
  destruct (decide (name = moduleName r)) as [->|Hne]; [|by rewrite smap_find_set_ne].
  by rewrite smap_find_set_eq, Heqo.
Qed.

(** Registries the daemon can build. *)
Inductive built : PolicyRegistry → Prop :=
| built_empty : built empty_registry
| built_module reg name v order reg' :
    built reg → addModule reg name v order = inr reg' → built reg'
| built_policy reg p reg' :
    built reg → addPolicy reg (Some p) = inr reg' → built reg'.

Lemma built_ok reg : built reg → registry_ok reg.
Proof. induction 1; eauto using empty_registry_ok, addModule_ok, addPolicy_ok. Qed.

Lemma foldl_index r caps idx c :
  default [] (foldl (index_capability r) idx caps !! c) =
  (default [] (idx !! c) ++ replicate (count_occ PolicyCapability_eq_dec caps c) r)%list.
Proof.
  revert idx. induction caps as [|c' caps IH]; intros idx; simpl; [by rewrite app_nil_r|].
  rewrite IH. unfold index_capability. destruct (PolicyCapability_eq_dec c' c) as [->|Hne].
  - rewrite lookup_insert_eq. simpl. by rewrite <- app_assoc.
  - by rewrite lookup_insert_ne.
Qed.

Lemma capability_index_built reg c r :
  built reg →
  r ∈ capabilityPolicies reg c ↔ ∃ p, findPolicy reg r = Some p ∧ c ∈ p_capabilities p.
Proof.
  intros Hb. induction Hb as [|reg name v order reg' Hb IH Ha|reg p reg' Hb IH Ha].
  - unfold capabilityPolicies. simpl. rewrite lookup_empty. simpl. set_solver.
  - unfold capabilityPolicies in *. rewrite (addModule_find _ _ _ _ _ _ (built_ok _ Hb) Ha), <- IH.
    unfold addModule in Ha. repeat case_hyp Ha; done.
  - rewrite (addPolicy_find _ _ _ r (built_ok _ Hb) Ha).
    pose proof (addPolicy_new _ _ _ (built_ok _ Hb) Ha) as Hnew.
    unfold capabilityPolicies in *.
    assert (capabilityIndex reg' = foldl (index_capability (p_ref p)) (capabilityIndex reg) (p_capabilities p)) as ->.
    { unfold addPolicy in Ha. by repeat case_hyp Ha. }
    rewrite foldl_index, elem_of_app, IH, elem_of_replicate.
    case_bool_decide as Hr.
    + subst r. rewrite Hnew. pose proof (count_occ_In PolicyCapability_eq_dec (p_capabilities p) c) as Hocc.
      rewrite <- list_elem_of_In in Hocc. split.
      * intros [(? & [=] & _)|[_ ?]]. eexists. split; [done|]. simpl. apply Hocc. lia.
      * intros (? & [= <-] & Hc). simpl in Hc. right. split; [done|]. apply Hocc in Hc. lia.
    + naive_solver.
Qed.
End registry.
Arguments PolicyRegistry : clear implicits.
Arguments PolicyModule : clear implicits.

(** * Properties *)

(** The registry invariant: in every registry built with [addModule] and
    [addPolicy], iteration ([policyRefs]) is strictly increasing in the order
    of [PolicyRef], it lists exactly the references [findPolicy] resolves, and
    a resolved policy is the one registered under that reference, with its
    dependencies frozen. *)
Theorem registry_invariant {W} (reg : PolicyRegistry W) :
  built reg →
  StronglySorted clt (policyRefs reg) ∧
  (∀ r, is_Some (findPolicy reg r) ↔ r ∈ policyRefs reg) ∧
  (∀ r p, findPolicy reg r = Some p → p_ref p = r ∧ p_frozen p = true).
Proof.
  intros Hb. pose proof (built_ok _ Hb) as Hok. split_and!.
  - by apply policyRefs_sorted.
  - intros r. by apply findPolicy_refs.
  - intros r p. by apply findPolicy_ref.
Qed.

(** Registration is an insertion: when [addPolicy] succeeds the reference
    was free, it now resolves to the policy (frozen), every other reference
    resolves as before, and the capability index lists the policies that have
    the capability, no others. *)
Theorem addPolicy_inserts {W} (reg reg' : PolicyRegistry W) p :
  built reg → addPolicy reg (Some p) = inr reg' →
  findPolicy reg (p_ref p) = None ∧
  findPolicy reg' (p_ref p) = Some (freezeDependencies p) ∧
  (∀ r, r ≠ p_ref p → findPolicy reg' r = findPolicy reg r) ∧
  (∀ c r, r ∈ capabilityPolicies reg' c ↔
     ∃ q, findPolicy reg' r = Some q ∧ c ∈ p_capabilities q).
Proof.
  intros Hb Ha. pose proof (built_ok _ Hb) as Hok. split_and!.
  - by eapply addPolicy_new.
  - rewrite (addPolicy_find _ _ _ _ Hok Ha). by rewrite bool_decide_eq_true_2.
  - intros r Hr. rewrite (addPolicy_find _ _ _ _ Hok Ha). by rewrite bool_decide_eq_false_2.
  - intros c r. apply capability_index_built. by eapply built_policy.
Qed.

(** A small registry for the witnesses: module OSS, two submodules. *)
Definition sample_policy (r : PolicyRef) (enabled : bool) (deps : list PolicyDependency)
    (result : bool) : Policy (list PolicyRef) :=
  mkPolicy r
    (mkConfig [] (if enabled then {[ModuleConfig.statusKey (policyName r) := "ENABLE"]} else ∅))
    (Some (FixedPolicyTypeValue None)) deps false [SessionAware] VHard (λ _, false) (λ _, true)
    (λ w, (Returned result, [], (w ++ [r])%list)).

Definition add_or_keep {W} (reg : PolicyRegistry W) (p : Policy W) : PolicyRegistry W :=
  match addPolicy reg (Some p) with inr reg' => reg' | inl _ => reg end.

Definition sample_module : PolicyRegistry (list PolicyRef) :=
  match addModule empty_registry "OSS" ViewStandard 1 with inr r => r | inl _ => empty_registry end.

Definition sample_registry (ps : list (Policy (list PolicyRef))) : PolicyRegistry (list PolicyRef) :=
  foldl add_or_keep sample_module ps.

Lemma sample_built ps : built (sample_registry ps).
Proof.
  assert (built sample_module) as Hm.
  { apply (built_module empty_registry "OSS" ViewStandard 1); [constructor|reflexivity]. }
  unfold sample_registry. revert Hm. generalize sample_module.
  induction ps as [|p ps IH]; intros reg Hb; [done|]. simpl. apply IH. unfold add_or_keep.
  destruct (addPolicy reg (Some p)) eqn:Ha; [done|]. by eapply built_policy.
Qed.

Definition ref_a := mkRef "OSS" "grub" "a".
Definition ref_b := mkRef "OSS" "fstab" "b".
Definition always := mkCondition Always "".

Lemma registry_invariant_witness :
  let reg := sample_registry [sample_policy ref_a true [] true; sample_policy ref_b true [] true] in
  policyRefs reg = [ref_b; ref_a] ∧
  StronglySorted clt (policyRefs reg).
Proof.
  split; [reflexivity|]. apply (registry_invariant _ (sample_built _)).
Defined.

Lemma addPolicy_inserts_witness :
  let reg := sample_registry [sample_policy ref_a true [] true] in
  match addPolicy reg (Some (sample_policy ref_b true [] true)) with
  | inr reg' => findPolicy reg' ref_b = Some (freezeDependencies (sample_policy ref_b true [] true))
  | inl _ => False
  end.
Proof.
  cbv zeta. destruct (addPolicy _ _) as [e|reg'] eqn:E; [vm_compute in E; discriminate E|].
  exact (proj1 (proj2 (addPolicy_inserts _ _ _ (sample_built _) E))).
Defined.
