(* ===== verification/DependencyGraph.v ===== *)
(** The dependency graph of a registry
    (fic/src/policy/execution/PolicyDependencyGraph.cpp).

    The declarative checks on every dependency, the depth-first search for a
    cycle, and the reverse query that guards a disable. *)

From S2P Require Import Prelude Logger Severity PolicyValue ConfigFile PolicyModel Registry.
Open Scope string_scope.
Open Scope nat_scope.

Inductive VisitState := Visiting | Visited.
#[export] Instance VisitState_eq_dec : EqDecision VisitState.
Proof. solve_decision. Defined.

Definition validPolicyRef (policy : PolicyRef) : bool :=
  negb (String.eqb (moduleName policy) "") && negb (String.eqb (submoduleName policy) "") &&
  negb (String.eqb (policyName policy) "").

(** [std::find] on the path, to its end. *)
Fixpoint drop_to (target : PolicyRef) (path : list PolicyRef) : list PolicyRef :=
  match path with
  | [] => []
  | r :: path' => if bool_decide (r = target) then path else drop_to target path'
  end.

Fixpoint arrows (l : list PolicyRef) : string :=
  match l with
  | [] => ""
  | [r] => formatPolicyRef r
  | r :: l' => formatPolicyRef r +:+ " -> " +:+ arrows l'
  end.

Definition cycle_text (path : list PolicyRef) (target : PolicyRef) : string :=
  "policy dependency cycle detected: " +:+
  arrows (drop_to target path) +:+ " -> " +:+ formatPolicyRef target.

Section graph.
Context {W : Type} `{JsonArrays}.
Implicit Types reg : PolicyRegistry W.

(** The search state: the map of visit states and the current path. *)
Definition DfsState : Type := gmap PolicyRef VisitState * list PolicyRef.

(** Outcome of [visitPolicy]: [None] when the fuel is exhausted. *)
Definition DfsResult : Type := option (string + DfsState).

Fixpoint visit_targets (visit : PolicyRef → DfsState → DfsResult)
    (targets : list PolicyRef) (st : DfsState) : DfsResult :=
  match targets with
  | [] => Some (inr st)
  | target :: targets' =>
      match st.1 !! target with
      | Some Visiting => Some (inl (cycle_text st.2 target))
      | Some Visited => visit_targets visit targets' st
      | None =>
          match visit target st with
          | Some (inr st') => visit_targets visit targets' st'
          | r => r
          end
      end
  end.

Definition dependency_targets (p : Policy W) : list PolicyRef :=
  sort_set (dep_policy <$> p_dependencies p).

Fixpoint visitPolicy (fuel : nat) reg (current : PolicyRef) (st : DfsState) : DfsResult :=
  match fuel with
  | O => None
  | S fuel' =>
      let states := <[current := Visiting]> st.1 in
      let path := (st.2 ++ [current])%list in
      match findPolicy reg current with
      | None =>
          Some (inl ("dependency graph references missing policy " +:+ formatPolicyRef current))
      | Some policy =>
          match visit_targets (visitPolicy fuel' reg) (dependency_targets policy) (states, path) with
          | Some (inr (states', path')) =>
              Some (inr (<[current := Visited]> states', removelast path'))
          | r => r
          end
      end
  end.

(** The checks on the dependencies of one policy, with the map of the
    targets seen so far. [None]: no error. *)
Fixpoint check_dependencies reg (owner : PolicyRef) (policy : Policy W)
    (deps : list PolicyDependency) (targets : gmap PolicyRef PolicyDependencyStrength)
  : exc (option string) :=
  match deps with
  | [] => Val None
  | dependency :: deps' =>
      let target := dep_policy dependency in
      if negb (validPolicyRef target) then
        Val (Some ("policy " +:+ formatPolicyRef owner +:+ " contains an incomplete dependency reference"))
      else if bool_decide (target = owner) then
        Val (Some ("policy " +:+ formatPolicyRef owner +:+ " depends on itself"))
      else match findPolicy reg target with
      | None =>
          Val (Some ("policy " +:+ formatPolicyRef owner +:+ " references unknown dependency " +:+
                     formatPolicyRef target))
      | Some _ =>
          let! conditionError := validateDependencyCondition policy (dep_condition dependency) in
          match conditionError with
          | Some e =>
              Val (Some ("policy " +:+ formatPolicyRef owner +:+ " contains invalid dependency condition for " +:+
                         formatPolicyRef target +:+ ": " +:+ e))
          | None =>
              match targets !! target with
              | Some existing =>
                  Val (Some ("policy " +:+ formatPolicyRef owner +:+
                    (if bool_decide (existing = dep_strength dependency)
                     then " declares duplicate dependency "
                     else " declares dependency as both Required and Recommended ") +:+
                    formatPolicyRef target))
              | None => check_dependencies reg owner policy deps' (<[target := dep_strength dependency]> targets)
              end
          end
      end
  end.

Fixpoint check_policies reg (policies : list PolicyRef) : exc (option string) :=
  match policies with
  | [] => Val None
  | owner :: policies' =>
      match findPolicy reg owner with
      | None => Val None (* not reached: the references come from the registry *)
      | Some policy =>
          let! e := check_dependencies reg owner policy (p_dependencies policy) ∅ in
          match e with Some _ => Val e | None => check_policies reg policies' end
      end
  end.

Fixpoint visit_all (fuel : nat) reg (policies : list PolicyRef) (st : DfsState) : DfsResult :=
  match policies with
  | [] => Some (inr st)
  | policy :: policies' =>
      match st.1 !! policy with
      | Some _ => visit_all fuel reg policies' st
      | None =>
          match visitPolicy fuel reg policy st with
          | Some (inr st') => visit_all fuel reg policies' st'
          | r => r
          end
      end
  end.

(** Each nested visit marks one more policy of the registry, so the depth is
    at most the number of policies (and one call for a missing one). *)
Definition graph_fuel reg : nat := S (length (policyRefs reg)).

(** [Some None]: the graph is valid; [Some (Some error)]: it is not. *)
Definition validatePolicyDependencyGraph reg : exc (option (option string)) :=
  let policies := policyRefs reg in
  let! e := check_policies reg policies in
  match e with
  | Some error => Val (Some (Some error))
  | None =>
      Val (match visit_all (graph_fuel reg) reg policies (∅, []) with
           | None => None
           | Some (inl error) => Some (Some error)
           | Some (inr _) => Some None
           end)
  end.

(** The loop over the declared dependencies in [enabledRequiredDependents]. *)
Fixpoint declares_required (policy : Policy W) (dependency : PolicyRef)
    (deps : list PolicyDependency) : exc bool :=
  match deps with
  | [] => Val false
  | declared :: deps' =>
      if bool_decide (dep_policy declared = dependency) &&
         bool_decide (dep_strength declared = Required)
      then let! m := dependencyConditionMatches policy (dep_condition declared) in
           if m then Val true else declares_required policy dependency deps'
      else declares_required policy dependency deps'
  end.

Fixpoint collect_dependents reg (dependency : PolicyRef) (candidates : list PolicyRef)
  : exc (list PolicyRef) :=
  match candidates with
  | [] => Val []
  | candidate :: rest =>
      if bool_decide (candidate = dependency) then collect_dependents reg dependency rest
      else match findPolicy reg candidate with
      | None => collect_dependents reg dependency rest
      | Some policy =>
          if negb (isEnabled policy) then collect_dependents reg dependency rest
          else
            let! requires := declares_required policy dependency (p_dependencies policy) in
            let! others := collect_dependents reg dependency rest in
            Val (if requires then candidate :: others else others)
      end
  end.

Definition enabledRequiredDependents reg (dependency : PolicyRef) : exc (list PolicyRef) :=
  let! dependents := collect_dependents reg dependency (policyRefs reg) in
  Val (sort_set dependents).
End graph.

(** * What a valid graph is *)

Section spec.
Context {W : Type} `{JsonArrays}.
Implicit Types reg : PolicyRegistry W.

Definition edge reg (a b : PolicyRef) : Prop :=
  ∃ p, findPolicy reg a = Some p ∧ b ∈ dep_policy <$> p_dependencies p.

Definition acyclic reg : Prop := ∀ r, ¬ tc (edge reg) r r.

Definition dependency_ok reg (owner : PolicyRef) (policy : Policy W) (d : PolicyDependency) : Prop :=
  validPolicyRef (dep_policy d) = true ∧ dep_policy d ≠ owner ∧
  is_Some (findPolicy reg (dep_policy d)) ∧
  validateDependencyCondition policy (dep_condition d) = Val None.

Definition declarations_ok reg : Prop :=
  ∀ owner policy, findPolicy reg owner = Some policy →
    Forall (dependency_ok reg owner policy) (p_dependencies policy) ∧
    NoDup (dep_policy <$> p_dependencies policy).

Lemma elem_of_dependency_targets (p : Policy W) t :
  t ∈ dependency_targets p ↔ t ∈ dep_policy <$> p_dependencies p.
Proof. apply elem_of_sort_set. Qed.

(** ** Declarations *)

Lemma check_dependencies_ok reg owner policy deps targets :
  check_dependencies reg owner policy deps targets = Val None ↔
  Forall (dependency_ok reg owner policy) deps ∧ NoDup (dep_policy <$> deps) ∧
  Forall (λ d, targets !! dep_policy d = None) deps.
Proof.
  revert targets. induction deps as [|d deps IH]; intros targets; simpl.
  { split; [|done]. intros _. split_and!; constructor. }
  rewrite !Forall_cons, NoDup_cons. unfold dependency_ok at 1.
  destruct (validPolicyRef (dep_policy d)); simpl; [|naive_solver].
  case_bool_decide as Ho; [naive_solver|].
  destruct (findPolicy reg (dep_policy d)) as [t|]; [|split; [done|intros ([(_ & _ & [? [=]] & _) _] & _)]].
  destruct (validateDependencyCondition policy (dep_condition d)) as [[e|]|e]; simpl; [naive_solver| |naive_solver].
  destruct (targets !! dep_policy d) eqn:Ht; [naive_solver|].
  rewrite IH. clear IH. split.
  - intros (Hf & Hnd & Htg). rewrite Forall_forall in Htg. split_and!; eauto.
    + intros (d' & Hd & Hin)%list_elem_of_fmap. apply Htg in Hin. by rewrite <- Hd, lookup_insert_eq in Hin.
    + apply Forall_forall. intros d' Hin. apply Htg in Hin. by apply lookup_insert_None in Hin as [? _].
  - intros ([_ Hf] & [Hni Hnd] & [_ Htg]). split_and!; [done..|].
    rewrite Forall_forall in Htg |- *. intros d' Hin. apply lookup_insert_None. split; [auto|].
    intros Heq. apply Hni. apply list_elem_of_fmap. by exists d'.
Qed.

Lemma check_policies_ok reg refs :
  (∀ r, r ∈ refs → is_Some (findPolicy reg r)) →
  check_policies reg refs = Val None ↔
  ∀ owner policy, owner ∈ refs → findPolicy reg owner = Some policy →
    Forall (dependency_ok reg owner policy) (p_dependencies policy) ∧
    NoDup (dep_policy <$> p_dependencies policy).
Proof.
  induction refs as [|r refs IH]; intros Hin; [simpl; set_solver|]. simpl.
  destruct (Hin r) as [p Hp]; [set_solver|]. rewrite Hp.
  pose proof (check_dependencies_ok reg r p (p_dependencies p) ∅) as Hc.
  destruct (check_dependencies reg r p (p_dependencies p) ∅) as [[e|]|e]; simpl.
  2: { rewrite IH by set_solver. destruct Hc as [Hc _]. destruct (Hc eq_refl) as (Hf & Hnd & _).
       split.
       - intros Hall owner policy [->|Ho]%elem_of_cons Hfind; [|by apply Hall].
         rewrite Hp in Hfind. by simplify_eq.
       - set_solver. }
  all: split; [done|]; intros Hall; destruct Hc as [_ Hc];
    destruct (Hall r p) as [? ?]; [set_solver|done|];
    by discriminate Hc; split_and!; [..|apply Forall_forall; intros; apply lookup_empty].
Qed.

(** ** The search *)

Definition bad reg : Prop :=
  (∃ a, tc (edge reg) a a) ∨ (∃ a b, edge reg a b ∧ findPolicy reg b = None).

Record dfs_inv reg (st : DfsState) : Prop := {
  di_visited : ∀ r, st.1 !! r = Some Visited → Acc (flip (edge reg)) r;
  di_path : ∀ r, st.1 !! r = Some Visiting ↔ r ∈ st.2
}.

Definition dfs_mono (st st' : DfsState) : Prop :=
  st'.2 = st.2 ∧ ∀ r, is_Some (st.1 !! r) → st'.1 !! r = st.1 !! r.

#[local] Instance dfs_mono_po : PreOrder dfs_mono.
Proof.
  split; [by intros st; split|]. intros a b c [Hp1 H1] [Hp2 H2]. split; [congruence|].
  intros r Hr. rewrite H2, H1; [done..|]. by rewrite H1.
Qed.

(** What visiting [r] from [st] must give, for a node not yet seen that every
    node of the path reaches. *)
Definition visit_good reg (r : PolicyRef) (st : DfsState) (res : DfsResult) : Prop :=
  match res with
  | None => True
  | Some (inl _) => bad reg ∨ findPolicy reg r = None
  | Some (inr st') => dfs_inv reg st' ∧ dfs_mono st st' ∧ st'.1 !! r = Some Visited
  end.

Lemma visit_targets_good reg visit targets st :
  (∀ r st, dfs_inv reg st → st.1 !! r = None → (∀ x, x ∈ st.2 → tc (edge reg) x r) →
     visit_good reg r st (visit r st)) →
  dfs_inv reg st → (∃ cur, ∀ t, t ∈ targets → edge reg cur t) →
  (∀ x t, x ∈ st.2 → t ∈ targets → tc (edge reg) x t) →
  match visit_targets visit targets st with
  | None => True
  | Some (inl _) => bad reg
  | Some (inr st') =>
      dfs_inv reg st' ∧ dfs_mono st st' ∧ ∀ t, t ∈ targets → st'.1 !! t = Some Visited
  end.
Proof.
  intros Hvisit. revert st. induction targets as [|t targets IH]; intros st Hinv [cur Hedge] Htc; simpl.
  { split_and!; [done|done|set_solver]. }
  destruct (st.1 !! t) as [[|]|] eqn:Ht.
  - left. exists t. apply Htc; [|set_solver]. by apply (di_path _ _ Hinv).
  - pose proof (IH st Hinv ltac:(exists cur; set_solver) ltac:(set_solver)) as IH'.
    destruct (visit_targets visit targets st) as [[e|st']|]; [done| |done].
    destruct IH' as (Hinv' & Hm & Hall). split_and!; [done..|].
    intros t' [->|?]%elem_of_cons; [|auto]. destruct Hm as [_ Hm]. rewrite Hm, Ht; eauto.
  - specialize (Hvisit t st Hinv Ht ltac:(set_solver)). unfold visit_good in Hvisit.
    destruct (visit t st) as [[e|st']|]; [| |done].
    { destruct Hvisit as [?|Hnone]; [done|]. right. exists cur, t. split; [apply Hedge; set_solver|done]. }
    destruct Hvisit as (Hinv' & [Hp' Hm] & Ht').
    pose proof (IH st' Hinv' ltac:(exists cur; set_solver) ltac:(rewrite Hp'; set_solver)) as IH'.
    destruct (visit_targets visit targets st') as [[e|st'']|]; [done| |done].
    destruct IH' as (Hinv'' & Hm' & Hall). split_and!; [done|by transitivity st'|].
    intros t' [->|?]%elem_of_cons; [|auto]. destruct Hm' as [_ Hm']. rewrite Hm'; [done|by rewrite Ht'].
Qed.

Lemma visitPolicy_good fuel reg r st :
  dfs_inv reg st → st.1 !! r = None → (∀ x, x ∈ st.2 → tc (edge reg) x r) →
  visit_good reg r st (visitPolicy fuel reg r st).
Proof.
  revert r st. induction fuel as [|fuel IH]; intros r [states path] Hinv Hr Htc; [done|]. simpl in *.
  destruct (findPolicy reg r) as [p|] eqn:Hp; [|by right].
  set (st1 := (<[r := Visiting]> states, path ++ [r])%list).
  assert (r ∉ path) as Hnp.
  { intros Hin. apply (di_path _ _ Hinv) in Hin. simpl in Hin. congruence. }
  assert (dfs_inv reg st1) as Hinv1.
  { destruct Hinv as [Hv Hpath]. split; simpl; intros x.
    - intros [[_ ?]|[Hne ?]]%lookup_insert_Some; [done|]. by apply Hv.
    - rewrite elem_of_app, list_elem_of_singleton, lookup_insert_Some, <- Hpath. simpl. naive_solver. }
  assert (∀ t, t ∈ dependency_targets p → edge reg r t) as Hedge.
  { intros t Ht. exists p. split; [done|]. by apply elem_of_dependency_targets. }
  assert (∀ x t, x ∈ st1.2 → t ∈ dependency_targets p → tc (edge reg) x t) as Htc1.
  { intros x t [Hx| ->%list_elem_of_singleton]%elem_of_app Ht; [eapply tc_r; eauto|by apply tc_once, Hedge]. }
  pose proof (visit_targets_good reg (visitPolicy fuel reg) (dependency_targets p) st1 IH Hinv1
    (ex_intro _ r Hedge) Htc1) as Hg.
  destruct (visit_targets (visitPolicy fuel reg) (dependency_targets p) st1) as [[e|[states' path']]|];
    [by left| |done].
  destruct Hg as (Hinv' & [Hpath' Hm] & Hall). simpl in *. subst path'. rewrite removelast_last.
  split_and!; [split; simpl| |apply lookup_insert_eq].
  - intros x [[<- _]|[Hne Hx]]%lookup_insert_Some; [|by apply (di_visited _ _ Hinv')].
    constructor. intros y (p' & Hp' & Hy). rewrite Hp in Hp'. injection Hp' as <-.
    apply (di_visited _ _ Hinv'), Hall. by apply elem_of_dependency_targets.
  - intros x. pose proof (di_path _ _ Hinv' x) as Hx. simpl in Hx.
    rewrite elem_of_app, list_elem_of_singleton in Hx. rewrite lookup_insert_Some. naive_solver.
  - split; [done|]. simpl. intros x Hx. destruct (decide (x = r)) as [->|Hne].
    + rewrite Hr in Hx. by destruct Hx.
    + rewrite lookup_insert_ne by done. rewrite Hm; by rewrite lookup_insert_ne.
Qed.

(** ** Fuel *)

Definition unseen reg (st : DfsState) : nat :=
  length (filter (λ r, st.1 !! r = None) (policyRefs reg)).

Lemma filter_length_mono (l : list PolicyRef) (P Q : PolicyRef → Prop)
    `{!∀ x, Decision (P x), !∀ x, Decision (Q x)} :
  (∀ x, x ∈ l → P x → Q x) → length (filter P l) ≤ length (filter Q l).
Proof.
  induction l as [|x l IH]; intros HPQ; [done|]. rewrite !filter_cons.
  specialize (IH ltac:(set_solver)).
  destruct (decide (P x)), (decide (Q x)); simpl; try lia. exfalso. set_solver.
Qed.

Lemma filter_length_lt (l : list PolicyRef) (P Q : PolicyRef → Prop)
    `{!∀ x, Decision (P x), !∀ x, Decision (Q x)} y :
  (∀ x, x ∈ l → P x → Q x) → y ∈ l → Q y → ¬ P y →
  length (filter P l) < length (filter Q l).
Proof.
  intros HPQ Hy HQ HP. induction l as [|x l IH]; [set_solver|]. rewrite !filter_cons.
  apply elem_of_cons in Hy as [<-|Hy].
  - pose proof (filter_length_mono l P Q ltac:(set_solver)).
    destruct (decide (P y)), (decide (Q y)); simpl; try done; lia.
  - specialize (IH ltac:(set_solver) Hy).
    destruct (decide (P x)), (decide (Q x)); simpl; try lia. exfalso. set_solver.
Qed.

Definition seen_mono (st : DfsState) (res : DfsResult) : Prop :=
  match res with Some (inr st') => ∀ r, is_Some (st.1 !! r) → is_Some (st'.1 !! r) | _ => True end.

Lemma unseen_mono reg st st' :
  (∀ r, is_Some (st.1 !! r) → is_Some (st'.1 !! r)) → unseen reg st' ≤ unseen reg st.
Proof.
  intros Hm. apply filter_length_mono. intros r _ Hr. destruct (st.1 !! r) eqn:E; [|done].
  destruct (Hm r) as [? ?]; [by rewrite E|congruence].
Qed.

Lemma visit_targets_total reg visit targets st n :
  (∀ r st, st.1 !! r = None → unseen reg st < n →
     visit r st ≠ None ∧ seen_mono st (visit r st)) →
  unseen reg st < n →
  visit_targets visit targets st ≠ None ∧ seen_mono st (visit_targets visit targets st).
Proof.
  intros Hv. revert st. induction targets as [|t targets IH]; intros st Hn; simpl; [done|].
  destruct (st.1 !! t) as [[|]|] eqn:Ht; [done|auto|].
  destruct (Hv t st Ht Hn) as [Hne Hm]. destruct (visit t st) as [[e|st']|]; [done| |done]. simpl in Hm.
  pose proof (unseen_mono reg st st' Hm). destruct (IH st' ltac:(lia)) as [Hne' Hm']. split; [done|].
  destruct (visit_targets visit targets st') as [[e|st'']|]; simpl in *; auto.
Qed.

Lemma visitPolicy_total reg fuel r st :
  registry_ok reg → st.1 !! r = None → unseen reg st < fuel →
  visitPolicy fuel reg r st ≠ None ∧ seen_mono st (visitPolicy fuel reg r st).
Proof.
  intros Hok. revert r st. induction fuel as [|fuel IH]; intros r [states path] Hr Hn; [lia|]. simpl.
  destruct (findPolicy reg r) as [p|] eqn:Hp; [|done].
  set (st1 := (<[r := Visiting]> states, path ++ [r])%list).
  assert (∀ x, is_Some (states !! x) → is_Some (st1.1 !! x)) as Hm1.
  { intros x Hx. simpl. destruct (decide (x = r)) as [->|]; [rewrite lookup_insert_eq; eauto|].
    by rewrite lookup_insert_ne. }
  assert (unseen reg st1 < unseen reg (states, path)) as Hlt.
  { apply (filter_length_lt _ _ _ r); [|by apply findPolicy_refs; [|exists p]|done|].
    - intros x _ Hx. simpl in *. destruct (states !! x) eqn:E; [|done].
      destruct (Hm1 x) as [? Hs]; [by rewrite E|]. simpl in Hs. congruence.
    - simpl. by rewrite lookup_insert_eq. }
  destruct (visit_targets_total reg (visitPolicy fuel reg) (dependency_targets p) st1 fuel IH ltac:(lia))
    as [Hne Hm].
  destruct (visit_targets (visitPolicy fuel reg) (dependency_targets p) st1) as [[e|[states' path']]|]; [done| |done].
  split; [done|]. simpl in *. intros x Hx. destruct (decide (x = r)) as [->|]; [rewrite lookup_insert_eq; eauto|].
  rewrite lookup_insert_ne by done. apply Hm, Hm1, Hx.
Qed.

(** ** The loop over the registry *)

Lemma visit_all_spec reg fuel policies st :
  registry_ok reg → dfs_inv reg st → st.2 = [] → unseen reg st < fuel →
  (∀ r, r ∈ policies → is_Some (findPolicy reg r)) →
  match visit_all fuel reg policies st with
  | None => False
  | Some (inl _) => bad reg
  | Some (inr st') => ∀ r, r ∈ policies → Acc (flip (edge reg)) r
  end.
Proof.
  intros Hok. revert st. induction policies as [|r policies IH]; intros st Hinv Hp Hn Hin; simpl; [set_solver|].
  destruct (st.1 !! r) as [[|]|] eqn:Hr.
  - apply (di_path _ _ Hinv) in Hr. rewrite Hp in Hr. set_solver.
  - specialize (IH st Hinv Hp Hn ltac:(set_solver)).
    destruct (visit_all fuel reg policies st) as [[e|st']|]; [done| |done].
    intros x [->|Hx]%elem_of_cons; [by apply (di_visited _ _ Hinv)|auto].
  - pose proof (visitPolicy_good fuel reg r st Hinv Hr ltac:(rewrite Hp; set_solver)) as Hg.
    destruct (visitPolicy_total reg fuel r st Hok Hr Hn) as [Hne Hm].
    destruct (visitPolicy fuel reg r st) as [[e|st']|]; [| |done].
    { destruct Hg as [?|Hnone]; [done|]. destruct (Hin r) as [? ?]; [set_solver|congruence]. }
    destruct Hg as (Hinv' & [Hp' _] & Hr'). pose proof (unseen_mono reg st st' Hm).
    specialize (IH st' Hinv' ltac:(congruence) ltac:(lia) ltac:(set_solver)).
    destruct (visit_all fuel reg policies st') as [[e|st'']|]; [done| |done].
    intros x [->|Hx]%elem_of_cons; [by apply (di_visited _ _ Hinv')|auto].
Qed.

Lemma Acc_no_cycle {A} (R : relation A) x : Acc (flip R) x → ¬ tc R x x.
Proof.
  induction 1 as [x _ IH]. intros Hc. inversion Hc as [? ? Hxy|? y ? Hxy Hyx]; subst.
  - by eapply IH; [exact Hxy|].
  - eapply (IH y Hxy). eapply tc_r; eauto.
Qed.

Lemma visit_all_valid reg :
  registry_ok reg → declarations_ok reg →
  match visit_all (graph_fuel reg) reg (policyRefs reg) (∅, []) with
  | None => False
  | Some (inl _) => ∃ a, tc (edge reg) a a
  | Some (inr _) => acyclic reg
  end.
Proof.
  intros Hok Hdecl.
  pose proof (visit_all_spec reg (graph_fuel reg) (policyRefs reg) (∅, []) Hok) as Hv.
  specialize (Hv ltac:(split; simpl; intros r; rewrite ?lookup_empty; set_solver) eq_refl).
  unfold unseen, graph_fuel in Hv.
  specialize (Hv ltac:(apply Nat.lt_succ_r, length_filter) ltac:(intros r; by apply findPolicy_refs)).
  destruct (visit_all _ reg _ _) as [[e|st']|]; [|clear -Hv Hok|done].
  - destruct Hv as [?|(a & b & (p & Hp & Hb) & Hnone)]; [done|].
    destruct (Hdecl _ _ Hp) as [Hall _]. rewrite Forall_forall in Hall.
    apply list_elem_of_fmap in Hb as (d & -> & Hd). destruct (Hall _ Hd) as (_ & _ & [? ?] & _). congruence.
  - intros r Hc. assert (r ∈ policyRefs reg) as Hr.
    { inversion Hc as [? ? (p & Hp & _)|? ? ? (p & Hp & _)]; subst; by apply findPolicy_refs; [|exists p]. }
    by apply (Acc_no_cycle _ _ (Hv r Hr)).
Qed.

Lemma declarations_check reg :
  registry_ok reg → check_policies reg (policyRefs reg) = Val None ↔ declarations_ok reg.
Proof.
  intros Hok. rewrite check_policies_ok by (intros r; by apply findPolicy_refs).
  split; intros Hall owner policy; [|auto]. intros Hf. apply Hall; [|done].
  apply findPolicy_refs; [done|]. by exists policy.
Qed.

Lemma validate_ok reg :
  registry_ok reg →
  validatePolicyDependencyGraph reg = Val (Some None) → declarations_ok reg ∧ acyclic reg.
Proof.
  intros Hok. unfold validatePolicyDependencyGraph.
  pose proof (declarations_check reg Hok) as Hd.
  destruct (check_policies reg (policyRefs reg)) as [[e|]|e]; simpl; try done.
  destruct Hd as [Hd _]. specialize (Hd eq_refl). pose proof (visit_all_valid reg Hok Hd) as Hv.
  destruct (visit_all _ reg _ _) as [[e|st']|]; done.
Qed.
End spec.

(** * Properties *)

(** C30. The graph check accepts exactly the sound graphs: in every registry
    the daemon can build, [validatePolicyDependencyGraph] succeeds if and only
    if every declared dependency is complete, names another registered policy,
    has a condition its owner supports and is declared once, and no policy
    depends on itself through any chain of dependencies. *)
Theorem graph_check_exact {W} (reg : PolicyRegistry W) :
  built reg →
  validatePolicyDependencyGraph reg = Val (Some None) ↔ declarations_ok reg ∧ acyclic reg.
Proof.
  intros Hok%built_ok. split; [by apply validate_ok|]. intros [Hd Hac].
  unfold validatePolicyDependencyGraph. pose proof Hd as Hc. apply declarations_check in Hc as ->; [|done].
  simpl. pose proof (visit_all_valid reg Hok Hd) as Hv.
  destruct (visit_all _ reg _ _) as [[e|st']|]; [|done|done]. destruct Hv as [a Ha]. by destruct (Hac a).
Qed.

(** The search always finishes: whatever the declared dependencies (cyclic,
    missing or duplicate), the check never runs out of the depth the number of
    registered policies allows. *)
Theorem graph_check_terminates {W} (reg : PolicyRegistry W) :
  built reg → validatePolicyDependencyGraph reg ≠ Val None.
Proof.
  intros Hok%built_ok. unfold validatePolicyDependencyGraph.
  destruct (check_policies reg (policyRefs reg)) as [[e|]|e]; simpl; try done.
  destruct (visit_all _ reg _ _) as [[e|st']|] eqn:Hv; [done..|]. exfalso.
  pose proof (visit_all_spec reg (graph_fuel reg) (policyRefs reg) (∅, []) Hok) as Hs.
  rewrite Hv in Hs. apply Hs; [split; simpl; intros r; rewrite ?lookup_empty; set_solver|done| |].
  - apply Nat.lt_succ_r, length_filter.
  - intros r. by apply findPolicy_refs.
Qed.

Section dependents.
Context {W : Type} `{JsonArrays}.
Implicit Types reg : PolicyRegistry W.

(** [p] cannot be Applied while [dependency] is not: it is enabled and
    declares it as a required dependency whose condition holds. *)
Definition requires_now (p : Policy W) (dependency : PolicyRef) : Prop :=
  ∃ d, d ∈ p_dependencies p ∧ dep_policy d = dependency ∧ dep_strength d = Required ∧
    dependencyConditionMatches p (dep_condition d) = Val true.

Lemma declares_required_spec (p : Policy W) dependency deps b :
  declares_required p dependency deps = Val b →
  b = true ↔ ∃ d, d ∈ deps ∧ dep_policy d = dependency ∧ dep_strength d = Required ∧
    dependencyConditionMatches p (dep_condition d) = Val true.
Proof.
  revert b. induction deps as [|d deps IH]; intros b; simpl.
  { intros [= <-]. set_solver. }
  assert (∀ d0, d0 ∈ d :: deps ↔ d0 = d ∨ d0 ∈ deps) as Hcons by set_solver.
  case_bool_decide as Hd; [case_bool_decide as Hs|]; simpl; intros Hb.
  2,3: rewrite (IH _ Hb); setoid_rewrite Hcons; naive_solver.
  destruct (dependencyConditionMatches p (dep_condition d)) as [m|e] eqn:Hm; simpl in Hb; [|done].
  destruct m.
  - injection Hb as <-. split; [|done]. intros _. exists d. set_solver.
  - rewrite (IH _ Hb). setoid_rewrite Hcons. split; [naive_solver|].
    intros (d0 & [->|Hin] & ? & ? & ?); [congruence|eauto].
Qed.

(** [r] is an enabled policy other than [dependency] that requires it now. *)
Definition blocks reg (dependency r : PolicyRef) : Prop :=
  r ≠ dependency ∧ ∃ p, findPolicy reg r = Some p ∧ isEnabled p = true ∧ requires_now p dependency.

Lemma collect_dependents_spec reg dependency candidates l :
  collect_dependents reg dependency candidates = Val l →
  sublist l candidates ∧ ∀ r, r ∈ l ↔ r ∈ candidates ∧ blocks reg dependency r.
Proof.
  revert l. induction candidates as [|c candidates IH]; intros l; simpl.
  { intros [= <-]. split; [constructor|]. intros r. split; [|intros [? _]; done]. intros Hr; inversion Hr. }
  assert (∀ l', collect_dependents reg dependency candidates = Val l' → ¬ blocks reg dependency c →
    sublist l' (c :: candidates) ∧ ∀ r, r ∈ l' ↔ r ∈ c :: candidates ∧ blocks reg dependency r) as Hskip.
  { intros l' Hl' Hno. destruct (IH _ Hl') as [Hsub Hin]. split; [by constructor|].
    intros r. rewrite Hin, elem_of_cons. split; [tauto|]. intros [[->|?] ?]; tauto. }
  case_bool_decide as Hc.
  { intros Hl. apply Hskip; [done|]. by intros [? _]. }
  destruct (findPolicy reg c) as [p|] eqn:Hp.
  2: { intros Hl. apply Hskip; [done|]. intros (_ & p & ? & _). congruence. }
  destruct (isEnabled p) eqn:He; simpl.
  2: { intros Hl. apply Hskip; [done|]. intros (_ & p' & ? & ? & _). congruence. }
  destruct (declares_required p dependency (p_dependencies p)) as [b|e] eqn:Hb; simpl; [|done].
  destruct (collect_dependents reg dependency candidates) as [others|e] eqn:Ho; simpl; [|done].
  intros [= <-]. pose proof (declares_required_spec _ _ _ _ Hb) as Hreq. destruct b.
  2: { apply Hskip; [done|]. intros (_ & p' & Hp' & _ & Hr). assert (p' = p) as -> by congruence.
       by apply Hreq in Hr. }
  destruct (IH _ eq_refl) as [Hsub Hin]. split; [by constructor|]. intros r.
  rewrite !elem_of_cons, Hin. split; [|tauto].
  intros [->|?]; [|tauto]. split; [by left|]. split; [done|]. exists p. split_and!; [done..|]. by apply Hreq.
Qed.

Lemma sublist_sorted {A} (R : relation A) l k : sublist l k → StronglySorted R k → StronglySorted R l.
Proof.
  intros Hsub. induction Hsub as [|x l k Hsub IH|x l k Hsub IH]; intros Hs; [done| |].
  - apply StronglySorted_cons in Hs as [Hall Hs]. constructor; [auto|].
    rewrite Forall_forall in Hall |- *. intros y Hy. apply Hall. eapply elem_of_submseteq; [exact Hy|]. by apply sublist_submseteq.
  - apply StronglySorted_cons in Hs as [_ Hs]. auto.
Qed.
End dependents.

(** The guard of a disable lists exactly the blockers:
    [enabledRequiredDependents] returns, in strictly increasing order, the
    enabled policies (other than the dependency itself) that declare it as a
    required dependency whose condition currently holds. *)
Theorem enabled_required_dependents_exact {W} `{JsonArrays} (reg : PolicyRegistry W) dependency l :
  built reg → enabledRequiredDependents reg dependency = Val l →
  StronglySorted clt l ∧ ∀ r, r ∈ l ↔ blocks reg dependency r.
Proof.
  intros Hok%built_ok Hl. unfold enabledRequiredDependents in Hl.
  destruct (collect_dependents reg dependency (policyRefs reg)) as [ds|e] eqn:Hc; simpl in Hl; [|done].
  injection Hl as <-. destruct (collect_dependents_spec _ _ _ _ Hc) as [Hsub Hin].
  assert (StronglySorted clt ds) as Hs by (eapply sublist_sorted; [done|]; by apply policyRefs_sorted).
  rewrite sort_set_id by (by apply sorted_clt_cle). split; [done|]. intros r. rewrite Hin. split; [tauto|].
  intros Hb. split; [|done]. destruct Hb as (_ & p & Hp & _). apply findPolicy_refs; [done|]. by exists p.
Qed.

(** * Witnesses *)

Definition needs (r : PolicyRef) : PolicyDependency := mkDependency r Required always.
Definition prefers (r : PolicyRef) : PolicyDependency := mkDependency r Recommended always.

Definition chain_registry := sample_registry
  [sample_policy ref_a true [needs ref_b] true; sample_policy ref_b true [] true].
Definition cyclic_registry := sample_registry
  [sample_policy ref_a true [prefers ref_b] true; sample_policy ref_b true [needs ref_a] true].

Lemma graph_check_exact_witness :
  validatePolicyDependencyGraph chain_registry = Val (Some None) ∧
  acyclic chain_registry.
Proof.
  assert (validatePolicyDependencyGraph chain_registry = Val (Some None)) as Hv
    by (vm_compute; reflexivity).
  split; [exact Hv|].
  exact (proj2 (proj1 (@graph_check_exact _ chain_registry (sample_built _)) Hv)).
Defined.

Example cyclic_rejected :
  validatePolicyDependencyGraph cyclic_registry =
  Val (Some (Some "policy dependency cycle detected: OSS:fstab:b -> OSS:grub:a -> OSS:fstab:b")).
Proof. vm_compute. reflexivity. Qed.

Lemma graph_check_terminates_witness :
  validatePolicyDependencyGraph cyclic_registry ≠ Val None.
Proof. exact (@graph_check_terminates _ cyclic_registry (sample_built _)). Defined.

Lemma enabled_required_dependents_exact_witness :
  @enabledRequiredDependents _ binary_json chain_registry ref_b = Val [ref_a] ∧
  StronglySorted clt [ref_a].
Proof.
  assert (@enabledRequiredDependents _ binary_json chain_registry ref_b = Val [ref_a]) as Hv
    by (vm_compute; reflexivity).
  split; [exact Hv|].
  exact (proj1 (@enabled_required_dependents_exact _ binary_json chain_registry ref_b _ (sample_built _) Hv)).
Defined.
