(* ===== verification/Planner.v ===== *)
(** The execution of policies with their dependencies
    (fic/src/policy/execution/PolicyExecutionPlanner and PolicyApplySummary of
    fic-common/fic-policy).

    The planner's fields ([results_], [visiting_]), the summary under
    construction and the world the policies act on are one state that
    [executePolicy] passes along. [ps_runs] is a ghost: the policies whose own
    execution was invoked, in order. The recursion carries fuel; the answer
    [None] means the fuel ran out, which [execute_total] excludes. An exception
    that leaves [execute] is an [Exn]. *)

From S2P Require Import Prelude Logger Severity PolicyValue ConfigFile PolicyModel Registry DependencyGraph.
Open Scope string_scope.
Open Scope nat_scope.

(** * PolicyApplySummary *)

Record PolicyApplySummary := mkSummary {
  results : list PolicyApplyResult;
  requestedRoots_ : list PolicyRef
}.

Definition summary_empty : PolicyApplySummary := mkSummary [] [].
Definition summary_add (s : PolicyApplySummary) (r : PolicyApplyResult) : PolicyApplySummary :=
  mkSummary (results s ++ [r])%list (requestedRoots_ s).

(** [std::set<PolicyRef>::insert]. *)
Definition set_insert (r : PolicyRef) (l : list PolicyRef) : list PolicyRef :=
  if decide (r ∈ l) then l else sort_set (r :: l).
Definition markRequestedRoot (s : PolicyApplySummary) (r : PolicyRef) : PolicyApplySummary :=
  mkSummary (results s) (set_insert r (requestedRoots_ s)).

Definition isRequestedRoot (s : PolicyApplySummary) (r : PolicyRef) : bool :=
  bool_decide (r ∈ requestedRoots_ s).

(** [std::find_if] over the results by identity. *)
Definition find_result (s : PolicyApplySummary) (root : PolicyRef) : option PolicyApplyResult :=
  snd <$> list_find (λ c, result_ref c = root) (results s).

Definition requestedRootsApplied (s : PolicyApplySummary) : bool :=
  negb (bool_decide (requestedRoots_ s = [])) &&
  forallb (λ root, match find_result s root with Some r => isApplied r | None => false end)
    (requestedRoots_ s).

Definition requestedRootsWithoutFailures (s : PolicyApplySummary) : bool :=
  forallb (λ root, match find_result s root with Some r => negb (isFailure r) | None => false end)
    (requestedRoots_ s).

Definition hasFailures (s : PolicyApplySummary) : bool := existsb isFailure (results s).
Definition hasDisabled (s : PolicyApplySummary) : bool := existsb isDisabled (results s).
Definition hasApplied (s : PolicyApplySummary) : bool := existsb isApplied (results s).

Definition count_status (st : PolicyApplyStatus) (s : PolicyApplySummary) : nat :=
  length (filter (λ r, status r = st) (results s)).
Definition totalCount (s : PolicyApplySummary) : nat := length (results s).
Definition appliedCount := count_status Applied.
Definition failedCount := count_status Failed.
Definition disabledCount := count_status Disabled.
Definition notFoundCount := count_status NotFound.

(** * PolicyExecutionPlanner *)

(** A result as the aggregate initialisers of the planner write it: the
    members that are not named keep their defaults. *)
Definition plain_result (ref : PolicyRef) (st : PolicyApplyStatus) (msg : string)
    (diags : list PolicyDiagnostic) (truncated : bool) (origin : PolicyFailureOrigin)
    (attempted : bool) : PolicyApplyResult :=
  mkResult (moduleName ref) (submoduleName ref) (policyName ref) st msg diags truncated origin attempted.

Section planner.
Context {W : Type} `{JsonArrays}.
(** [Logger::get_current_time]. *)
Context (get_current_time : W → string * W).

Implicit Types reg : PolicyRegistry W.

Definition OwnExecutor : Type :=
  PolicyRef → Policy W → W → outcome (option PolicyApplyResult) * list LogRecord * W.

Record PlannerState := mkPlanner {
  ps_world : W;
  ps_results : gmap PolicyRef PolicyApplyResult;
  ps_visiting : gset PolicyRef;
  ps_summary : PolicyApplySummary;
  ps_runs : list PolicyRef
}.

Definition dependencyDiagnostic (dependency : PolicyRef) (strength : PolicyDependencyStrength)
    (detail : string) (w : W) : PolicyDiagnostic * W :=
  let required := bool_decide (strength = Required) in
  let '(now, w) := get_current_time w in
  (mkDiagnostic now (level_to_string (if required then ERROR else WARN)) "daemon"
     ((if required then "Required" else "Recommended") +:+ " dependency was not applied: " +:+
      formatPolicyRef dependency +:+ "; " +:+ detail), w).

Definition record_diagnostic (r : LogRecord) : PolicyDiagnostic :=
  mkDiagnostic (log_timestamp r) (level_to_string (log_level r)) (log_type r) (log_message r).

Definition exception_message (what : string) : string :=
  "Исключение при применении политики: " +:+ what.
Definition unknown_exception_message : string :=
  "Неизвестное исключение при применении политики".

(** The [try] block of [executeOwnPolicy]: [adapted], [applied],
    [exceptionMessage], the records logged and the world. *)
Definition attempt_own (executor : option OwnExecutor) (ref : PolicyRef) (policy : Policy W) (w : W)
  : option PolicyApplyResult * bool * string * list LogRecord * W :=
  let '(produced, logs, w) :=
    match executor with Some f => f ref policy w | None => (Returned None, [], w) end in
  match produced with
  | Threw what => (None, false, exception_message what, logs, w)
  | ThrewUnknown => (None, false, unknown_exception_message, logs, w)
  | Returned (Some adapted) =>
      if bool_decide (result_ref adapted ≠ ref) then
        (Some adapted, false, exception_message "own executor returned a different policy identity", logs, w)
      else if bool_decide (status adapted ≠ Applied) && bool_decide (status adapted ≠ Failed) then
        (Some adapted, false, exception_message "own executor returned an invalid execution status", logs, w)
      else (Some adapted, bool_decide (status adapted = Applied), "", logs, w)
  | Returned None =>
      let '(applied, more, w) := p_apply policy w in
      match applied with
      | Returned b => (None, b, "", (logs ++ more)%list, w)
      | Threw what => (None, false, exception_message what, (logs ++ more)%list, w)
      | ThrewUnknown => (None, false, unknown_exception_message, (logs ++ more)%list, w)
      end
  end.

Definition executeOwnPolicy (executor : option OwnExecutor) (ref : PolicyRef) (policy : Policy W) (w : W)
  : PolicyApplyResult * W :=
  let '(adapted, applied, exceptionMessage, logs, w) := attempt_own executor ref policy w in
  let '(captured, truncated) := capture_finish logs in
  let diags := record_diagnostic <$> captured in
  let quiet := String.eqb exceptionMessage "" in
  let '(diags, w) :=
    if quiet then (diags, w)
    else let '(now, w) := get_current_time w in
         ((diags ++ [mkDiagnostic now (level_to_string ERROR) "daemon" exceptionMessage])%list, w) in
  match adapted with
  | Some a =>
      if quiet then
        (mkResult (res_moduleName a) (res_submoduleName a) (res_policyName a) (status a) (message a)
           (diagnostics a ++ diags)%list (diagnosticsTruncated a || truncated)
           (failureOrigin a) (ownApplyAttempted a), w)
      else
        (plain_result ref Failed exceptionMessage diags truncated OwnApplyFailure true, w)
  | None =>
      let succeeded := applied && quiet in
      (plain_result ref (if succeeded then Applied else Failed)
         (if quiet then if applied then "Политика успешно применена"
                        else "Не удалось применить политику"
          else exceptionMessage)
         diags truncated (if succeeded then OriginNone else OwnApplyFailure) true, w)
  end.

(** [results_.emplace(ref, result); summary.add(inserted.first->second);
    return inserted.first->second]: an entry already present is kept, and it
    is the one reported. *)
Definition record_result (ref : PolicyRef) (result : PolicyApplyResult) (st : PlannerState)
  : PolicyApplyResult * PlannerState :=
  let stored := default result (ps_results st !! ref) in
  (stored, mkPlanner (ps_world st) (<[ref := stored]> (ps_results st)) (ps_visiting st)
             (summary_add (ps_summary st) stored) (ps_runs st)).

Definition with_world (w : W) (st : PlannerState) : PlannerState :=
  mkPlanner w (ps_results st) (ps_visiting st) (ps_summary st) (ps_runs st).
Definition with_visiting (v : gset PolicyRef) (st : PlannerState) : PlannerState :=
  mkPlanner (ps_world st) (ps_results st) v (ps_summary st) (ps_runs st).
Definition with_run (ref : PolicyRef) (w : W) (st : PlannerState) : PlannerState :=
  mkPlanner w (ps_results st) (ps_visiting st) (ps_summary st) (ps_runs st ++ [ref])%list.

(** [std::sort] by the target; targets are distinct in a validated graph, so
    the order is the only one. *)
Definition dependency_before (a b : PolicyDependency) : Prop := cle (dep_policy a) (dep_policy b).
#[export] Instance dependency_before_dec : RelDecision dependency_before.
Proof. intros a b. unfold dependency_before. apply _. Defined.

(** The loop over the sorted dependencies. *)
Fixpoint run_dependencies
    (exec : PolicyRef → PlannerState → option (exc (PolicyApplyResult * PlannerState)))
    (excluded : gset string) (policy : Policy W) (dependencies : list PolicyDependency)
    (requiredBlocked : bool) (diags : list PolicyDiagnostic) (st : PlannerState)
  : option (exc (bool * list PolicyDiagnostic * PlannerState)) :=
  match dependencies with
  | [] => Some (Val (requiredBlocked, diags, st))
  | d :: rest =>
      match dependencyConditionMatches policy (dep_condition d) with
      | Exn e => Some (Exn e)
      | Val false => run_dependencies exec excluded policy rest requiredBlocked diags st
      | Val true =>
          let required := bool_decide (dep_strength d = Required) in
          if bool_decide (moduleName (dep_policy d) ∈ excluded) then
            let '(diag, w) := dependencyDiagnostic (dep_policy d) (dep_strength d)
              ("dependency belongs to explicitly excluded module " +:+ moduleName (dep_policy d))
              (ps_world st) in
            run_dependencies exec excluded policy rest (requiredBlocked || required)
              (diags ++ [diag])%list (with_world w st)
          else
            match exec (dep_policy d) st with
            | None => None
            | Some (Exn e) => Some (Exn e)
            | Some (Val (res, st)) =>
                if bool_decide (status res = Applied) then
                  run_dependencies exec excluded policy rest requiredBlocked diags st
                else
                  let '(diag, w) := dependencyDiagnostic (dep_policy d) (dep_strength d)
                    ("dependency status=" +:+ policyApplyStatusToString (status res)) (ps_world st) in
                  run_dependencies exec excluded policy rest (requiredBlocked || required)
                    (diags ++ [diag])%list (with_world w st)
            end
      end
  end.

Definition blocked_result (ref : PolicyRef) (diags : list PolicyDiagnostic) : PolicyApplyResult :=
  plain_result ref Failed "Required dependency was not applied" diags false RequiredDependencyBlocked false.

Definition prepend_diagnostics (diags : list PolicyDiagnostic) (r : PolicyApplyResult) : PolicyApplyResult :=
  mkResult (res_moduleName r) (res_submoduleName r) (res_policyName r) (status r) (message r)
    (diags ++ diagnostics r)%list (diagnosticsTruncated r) (failureOrigin r) (ownApplyAttempted r).

Fixpoint executePolicy (fuel : nat) reg (executor : option OwnExecutor) (excluded : gset string)
    (ref : PolicyRef) (st : PlannerState) : option (exc (PolicyApplyResult * PlannerState)) :=
  match fuel with
  | 0 => None
  | S fuel =>
      match ps_results st !! ref with
      | Some cached => Some (Val (cached, st))
      | None =>
          match findPolicy reg ref with
          | None =>
              Some (Val (record_result ref
                (plain_result ref NotFound "Политика не существует" [] false OriginNone false) st))
          | Some policy =>
              if negb (isEnabled policy) then
                Some (Val (record_result ref
                  (plain_result ref Disabled "Политика отключена. Применение не будет выполнено."
                     [] false OriginNone false) st))
              else if bool_decide (ref ∈ ps_visiting st) then
                let '(now, w) := get_current_time (ps_world st) in
                Some (Val (record_result ref
                  (plain_result ref Failed "Policy dependency cycle reached during execution"
                     [mkDiagnostic now (level_to_string ERROR) "daemon"
                        ("Policy dependency cycle reached during execution at " +:+ formatPolicyRef ref)]
                     false DependencyCycle false) (with_world w st)))
              else
                let dependencies := merge_sort dependency_before (p_dependencies policy) in
                match run_dependencies (executePolicy fuel reg executor excluded) excluded policy
                        dependencies false [] (with_visiting ({[ref]} ∪ ps_visiting st) st) with
                | None => None
                | Some (Exn e) => Some (Exn e)
                | Some (Val (requiredBlocked, diags, st)) =>
                    let st := with_visiting (ps_visiting st ∖ {[ref]}) st in
                    if requiredBlocked then Some (Val (record_result ref (blocked_result ref diags) st))
                    else
                      let '(own, w) := executeOwnPolicy executor ref policy (ps_world st) in
                      Some (Val (record_result ref (prepend_diagnostics diags own) (with_run ref w st)))
                end
          end
      end
  end.

Fixpoint execute_roots (fuel : nat) reg (executor : option OwnExecutor) (excluded : gset string)
    (roots : list PolicyRef) (st : PlannerState) : option (exc PlannerState) :=
  match roots with
  | [] => Some (Val st)
  | root :: rest =>
      match executePolicy fuel reg executor excluded root st with
      | None => None
      | Some (Exn e) => Some (Exn e)
      | Some (Val (_, st)) => execute_roots fuel reg executor excluded rest st
      end
  end.

Record PolicyExecutionRequest := mkRequest {
  requestedRoots : list PolicyRef;
  excludedModules : gset string
}.

(** [std::set<PolicyRef>(first, last)]. *)
Definition ref_set (l : list PolicyRef) : list PolicyRef := foldl (λ s r, set_insert r s) [] l.

Definition planner_fuel reg : nat := S (length (policyRefs reg)).

(** The state after [execute]; its [ps_summary] is what is returned. *)
Definition execute reg (executor : option OwnExecutor) (request : PolicyExecutionRequest) (w : W)
  : option (exc PlannerState) :=
  let roots := ref_set (requestedRoots request) in
  let summary := foldl markRequestedRoot summary_empty roots in
  execute_roots (planner_fuel reg) reg executor (excludedModules request) roots
    (mkPlanner w ∅ ∅ summary []).
End planner.
Arguments PlannerState : clear implicits.
Arguments OwnExecutor : clear implicits.

(** * Termination *)

Section total.
Context {W : Type} `{JsonArrays} (time : W → string * W) (executor : option (OwnExecutor W)).
Implicit Types reg : PolicyRegistry W.
Implicit Types st : PlannerState W.

Definition unvisited reg st : nat :=
  length (filter (λ r, r ∉ ps_visiting st) (policyRefs reg)).

(** A call that does not throw leaves [visiting_] as it found it. *)
Definition settles {A} (f : A → PlannerState W) st (res : option (exc A)) : Prop :=
  res ≠ None ∧ ∀ a, res = Some (Val a) → ps_visiting (f a) = ps_visiting st.

Lemma settles_ret {A} (f : A → PlannerState W) st a :
  ps_visiting (f a) = ps_visiting st → settles f st (Some (Val a)).
Proof. intros Hv. split; [done|]. by intros ? [= <-]. Qed.

Lemma settles_exn {A} (f : A → PlannerState W) st e : settles f st (Some (Exn e)).
Proof. done. Qed.

Lemma settles_eq {A} (f : A → PlannerState W) st st' res :
  ps_visiting st' = ps_visiting st → settles f st' res → settles f st res.
Proof. intros Hv [Hne Hs]. split; [done|]. intros a Ha. rewrite <-Hv. auto. Qed.

Lemma run_dependencies_settles exec excluded policy deps blocked diags st :
  (∀ r st', ps_visiting st' = ps_visiting st → settles snd st' (exec r st')) →
  settles snd st (run_dependencies time exec excluded policy deps blocked diags st).
Proof.
  revert blocked diags st. induction deps as [|d deps IH]; intros blocked diags st Hexec; simpl.
  { by apply settles_ret. }
  destruct (dependencyConditionMatches policy (dep_condition d)) as [[]|e]; [|auto|apply settles_exn].
  case_bool_decide.
  { destruct (dependencyDiagnostic time _ _ _ _) as [diag w].
    eapply (settles_eq _ _ (with_world w st)), IH; [done|]. intros r st' Hv. by apply Hexec. }
  destruct (Hexec (dep_policy d) st eq_refl) as [Hne Hv].
  destruct (exec (dep_policy d) st) as [[[res st1]|e]|]; [|apply settles_exn|done].
  specialize (Hv _ eq_refl). simpl in Hv.
  assert (∀ blocked diags w,
    settles snd st (run_dependencies time exec excluded policy deps blocked diags (with_world w st1))) as Hgo.
  { intros b ds w. eapply (settles_eq _ _ (with_world w st1)), IH; [done|].
    intros r st' Hv'. apply Hexec. by rewrite Hv'. }
  case_bool_decide; [|destruct (dependencyDiagnostic time _ _ _ _); apply Hgo].
  specialize (Hgo blocked diags (ps_world st1)). by destruct st1.
Qed.

Lemma executePolicy_settles reg excluded fuel ref st :
  registry_ok reg → unvisited reg st < fuel →
  settles snd st (executePolicy time fuel reg executor excluded ref st).
Proof.
  intros Hok. revert ref st. induction fuel as [|fuel IH]; intros ref st Hn; [lia|]. simpl.
  destruct (ps_results st !! ref); [by apply settles_ret|].
  destruct (findPolicy reg ref) as [p|] eqn:Hp; [|by apply settles_ret].
  destruct (isEnabled p); simpl; [|by apply settles_ret].
  case_bool_decide as Hvis; [destruct (time _); by apply settles_ret|].
  set (st1 := with_visiting ({[ref]} ∪ ps_visiting st) st).
  assert (unvisited reg st1 < unvisited reg st) as Hlt.
  { apply (filter_length_lt _ _ _ ref); [set_solver|by apply findPolicy_refs; [|exists p]|done|set_solver]. }
  destruct (run_dependencies_settles (executePolicy time fuel reg executor excluded) excluded p
    (merge_sort dependency_before (p_dependencies p)) false [] st1) as [Hne Hv].
  { intros r st' Hv. apply IH. unfold unvisited in *. rewrite Hv. lia. }
  destruct (run_dependencies _ _ _ _ _ _ _ st1) as [[[[b ds] st2]|e]|]; [|apply settles_exn|done].
  specialize (Hv _ eq_refl). simpl in Hv.
  assert (ps_visiting st2 ∖ {[ref]} = ps_visiting st) as Hback.
  { rewrite Hv. apply leibniz_equiv. set_solver. }
  destruct b; [by apply settles_ret|].
  destruct (executeOwnPolicy time executor ref p _). by apply settles_ret.
Qed.

Lemma execute_roots_total reg excluded fuel roots st :
  registry_ok reg → unvisited reg st < fuel →
  execute_roots time fuel reg executor excluded roots st ≠ None.
Proof.
  intros Hok. revert st. induction roots as [|r roots IH]; intros st Hn; simpl; [done|].
  destruct (executePolicy_settles reg excluded fuel r st Hok Hn) as [Hne Hv].
  destruct (executePolicy _ _ _ _ _ r st) as [[[res st1]|e]|]; [|done|done].
  apply IH. unfold unvisited in *. specialize (Hv _ eq_refl). simpl in Hv. by rewrite Hv.
Qed.
End total.

(** * What an execution guarantees *)

Section correct.
Context {W : Type} `{JsonArrays} (time : W → string * W) (executor : option (OwnExecutor W)).
Context (reg : PolicyRegistry W) (excluded : gset string).
Implicit Types st : PlannerState W.
Implicit Types rs : gmap PolicyRef PolicyApplyResult.

Definition needs_now (policy : Policy W) (d : PolicyDependency) : Prop :=
  d ∈ p_dependencies policy ∧ dep_strength d = Required ∧
  dependencyConditionMatches policy (dep_condition d) = Val true.

Definition applied_in rs (r : PolicyRef) : Prop :=
  ∃ res, rs !! r = Some res ∧ status res = Applied.
Definition not_applied_in rs (r : PolicyRef) : Prop :=
  ∃ res, rs !! r = Some res ∧ status res ≠ Applied.

Definition admissible (r : PolicyRef) : Prop := moduleName r ∉ excluded.

(** The result an execution must report for [r]: what the policy's state and
    the results of its required dependencies dictate. *)
Inductive result_spec rs (runs : list PolicyRef) (r : PolicyRef) (res : PolicyApplyResult) : Prop :=
| spec_not_found :
    findPolicy reg r = None → status res = NotFound → r ∉ runs → result_spec rs runs r res
| spec_disabled policy :
    findPolicy reg r = Some policy → isEnabled policy = false →
    status res = Disabled → r ∉ runs → result_spec rs runs r res
| spec_blocked policy d :
    findPolicy reg r = Some policy → isEnabled policy = true →
    needs_now policy d → ¬ admissible (dep_policy d) ∨ not_applied_in rs (dep_policy d) →
    status res = Failed → failureOrigin res = RequiredDependencyBlocked →
    ownApplyAttempted res = false → r ∉ runs → result_spec rs runs r res
| spec_own policy :
    findPolicy reg r = Some policy → isEnabled policy = true →
    (∀ d, needs_now policy d → admissible (dep_policy d) ∧ applied_in rs (dep_policy d)) →
    status res = Applied ∨ status res = Failed → r ∈ runs → result_spec rs runs r res.

Record inv st : Prop := {
  inv_key : ∀ r res, ps_results st !! r = Some res → result_ref res = r;
  inv_visiting : ∀ r, r ∈ ps_visiting st → ps_results st !! r = None;
  inv_summary : ∀ res, res ∈ results (ps_summary st) ↔ ps_results st !! result_ref res = Some res;
  inv_once : NoDup (result_ref <$> results (ps_summary st));
  inv_runs : NoDup (ps_runs st) ∧ ∀ r, r ∈ ps_runs st → is_Some (ps_results st !! r);
  inv_spec : ∀ r res, ps_results st !! r = Some res → result_spec (ps_results st) (ps_runs st) r res;
  inv_order : ∀ before res after policy d,
    results (ps_summary st) = (before ++ res :: after)%list → status res = Applied →
    findPolicy reg (result_ref res) = Some policy → needs_now policy d →
    ∃ dres, dres ∈ before ∧ result_ref dres = dep_policy d ∧ status dres = Applied
}.

Record ext st st' : Prop := {
  ext_results : ps_results st ⊆ ps_results st';
  ext_visiting : ps_visiting st' = ps_visiting st;
  ext_roots : requestedRoots_ (ps_summary st') = requestedRoots_ (ps_summary st);
  ext_runs : ∀ r, is_Some (ps_results st !! r) → (r ∈ ps_runs st' ↔ r ∈ ps_runs st)
}.

Lemma ext_refl st : ext st st.
Proof. by split. Qed.
Lemma ext_trans st1 st2 st3 : ext st1 st2 → ext st2 st3 → ext st1 st3.
Proof.
  intros [A1 A2 A3 A4] [B1 B2 B3 B4].
  split; [by etrans|by rewrite B2|by rewrite B3|]. intros r Hr. rewrite B4; [auto|].
  by eapply lookup_weaken_is_Some.
Qed.

Lemma inv_world w st : inv st → inv (with_world w st).
Proof. by intros []; split. Qed.
Lemma ext_world w st st' : ext (with_world w st) st' → ext st st'.
Proof. by intros []; split. Qed.
Lemma ext_world_r w st st' : ext st st' → ext st (with_world w st').
Proof. by intros []; split. Qed.

Lemma applied_in_weaken rs rs' r : rs ⊆ rs' → applied_in rs r → applied_in rs' r.
Proof. intros Hs (res & Hr & ?). exists res. split; [by eapply lookup_weaken|done]. Qed.
Lemma not_applied_in_weaken rs rs' r : rs ⊆ rs' → not_applied_in rs r → not_applied_in rs' r.
Proof. intros Hs (res & Hr & ?). exists res. split; [by eapply lookup_weaken|done]. Qed.

Lemma result_spec_weaken rs rs' runs runs' r res :
  rs ⊆ rs' → (r ∈ runs' ↔ r ∈ runs) → result_spec rs runs r res → result_spec rs' runs' r res.
Proof.
  intros Hs Hr. destruct 1 as [?? Hn|policy ??? Hn|policy d ??? Hd ??? Hn|policy ?? Hall ? Hn]; rewrite <-Hr in Hn.
  - by eapply spec_not_found.
  - by eapply spec_disabled.
  - eapply spec_blocked; [done..| |done|done|done|done].
    destruct Hd; [by left|right; by eapply not_applied_in_weaken].
  - eapply spec_own; [done..| |done|done]. intros d Hd. destruct (Hall d Hd).
    split; [done|by eapply applied_in_weaken].
Qed.

(** ** Recording a new result *)

Definition maybe_run (ran : bool) (r : PolicyRef) (w : W) st : PlannerState W :=
  if ran then with_run r w st else with_world w st.

Lemma record_new (ran : bool) r w st res :
  inv st → ps_results st !! r = None → r ∉ ps_visiting st → result_ref res = r →
  result_spec (ps_results st) (if ran then (ps_runs st ++ [r])%list else ps_runs st) r res →
  let '(stored, st') := record_result r res (maybe_run ran r w st) in
  stored = res ∧ inv st' ∧ ext st st' ∧ ps_results st' !! r = Some res.
Proof.
  intros Hinv Hnone Hvis Href Hspec. unfold record_result.
  assert (ps_results (maybe_run ran r w st) = ps_results st ∧ ps_visiting (maybe_run ran r w st) = ps_visiting st ∧
    ps_summary (maybe_run ran r w st) = ps_summary st ∧
    ps_runs (maybe_run ran r w st) = if ran then (ps_runs st ++ [r])%list else ps_runs st) as (-> & -> & -> & ->)
    by (by destruct ran).
  rewrite Hnone. simpl. destruct Hinv as [Hkey Hv Hsum Honce [Hnd Hruns] Hsp Hord].
  assert (ps_results st ⊆ <[r := res]> (ps_results st)) as Hsub by by apply insert_subseteq.
  assert (r ∉ ps_runs st) as Hrun.
  { intros Hr. destruct (Hruns r Hr) as [? ?]. congruence. }
  assert (∀ x, is_Some (ps_results st !! x) →
    (x ∈ (if ran then (ps_runs st ++ [r])%list else ps_runs st) ↔ x ∈ ps_runs st)) as Hsame.
  { intros x [y Hx]. destruct ran; [|done]. assert (x ≠ r) by congruence. set_solver. }
  split_and!; [done| |by split|by rewrite lookup_insert_eq]. split; simpl.
  - intros x y. destruct (decide (x = r)) as [->|]; [rewrite lookup_insert_eq|rewrite lookup_insert_ne by done; auto].
    by intros [= <-].
  - intros x Hx. rewrite lookup_insert_ne by congruence. auto.
  - intros x. rewrite elem_of_app, list_elem_of_singleton, Hsum.
    destruct (decide (result_ref x = r)) as [Hx|Hx].
    + rewrite Hx, lookup_insert_eq. split; [intros [?| ->]; congruence|]. intros [= ->]. by right.
    + rewrite lookup_insert_ne by done. split; [|by left]. intros [?| ->]; [done|congruence].
  - rewrite fmap_app. apply NoDup_app. split_and!; [done| |apply NoDup_singleton].
    intros x Hx ->%list_elem_of_singleton. apply list_elem_of_fmap in Hx as (y & Hy & Hin).
    apply Hsum in Hin. congruence.
  - split.
    + destruct ran; [|done]. apply NoDup_app. split_and!; [done|set_solver|apply NoDup_singleton].
    + intros x Hx. destruct (decide (x = r)) as [->|]; [rewrite lookup_insert_eq; eauto|].
      rewrite lookup_insert_ne by done. apply Hruns. destruct ran; set_solver.
  - intros x y. destruct (decide (x = r)) as [->|].
    + rewrite lookup_insert_eq. intros [= <-]. by eapply result_spec_weaken.
    + rewrite lookup_insert_ne by done. intros Hy. eapply result_spec_weaken; [done| |by apply Hsp]. eauto.
  - intros before x after policy d Heq Happ Hpol Hd.
    destruct (decide (after = [])) as [->|Hafter].
    + apply app_inj_tail in Heq as [<- <-]. rewrite Href in Hpol.
      inversion Hspec as [|?|?|p' Hp' _ Hall]; simplify_eq; try congruence.
      destruct (Hall d Hd) as [_ (dres & Hdres & ?)]. exists dres.
      assert (result_ref dres = dep_policy d) as Hk by auto. split_and!; [|done|done].
      apply Hsum. by rewrite Hk.
    + apply exists_last in Hafter as (after' & y & ->).
      rewrite app_comm_cons, app_assoc in Heq. apply app_inj_tail in Heq as [Heq _]. eauto.
Qed.

(** ** The dependency loop *)

Definition sound_call (ref : PolicyRef) st (r : option (exc (PolicyApplyResult * PlannerState W))) : Prop :=
  match r with
  | Some (Val (res, st')) => inv st' ∧ ext st st' ∧ ps_results st' !! ref = Some res
  | _ => True
  end.

Definition needs_among (policy : Policy W) (deps : list PolicyDependency) (d : PolicyDependency) : Prop :=
  d ∈ deps ∧ dep_strength d = Required ∧ dependencyConditionMatches policy (dep_condition d) = Val true.
Definition loop_post (policy : Policy W) deps (blocked b : bool) st st' : Prop :=
  inv st' ∧ ext st st' ∧
  (b = true → blocked = true ∨ ∃ d, needs_among policy deps d ∧
     (¬ admissible (dep_policy d) ∨ not_applied_in (ps_results st') (dep_policy d))) ∧
  (b = false → blocked = false ∧ ∀ d, needs_among policy deps d →
     admissible (dep_policy d) ∧ applied_in (ps_results st') (dep_policy d)).

Lemma loop_post_skip policy d deps blocked b st st1 st' :
  ext st st1 →
  (needs_among policy (d :: deps) d →
     admissible (dep_policy d) ∧ applied_in (ps_results st1) (dep_policy d)) →
  loop_post policy deps blocked b st1 st' → loop_post policy (d :: deps) blocked b st st'.
Proof.
  intros Hext Hd (Hinv & Hext' & Htrue & Hfalse). split_and!; [done|by eapply ext_trans| |].
  - intros Hb. destruct (Htrue Hb) as [?|(x & (Hx & ? & ?) & ?)]; [by left|right].
    exists x. split; [|done]. split_and!; [by right|done|done].
  - intros Hb. destruct (Hfalse Hb) as [? Hall]. split; [done|]. intros x (Hin & ? & ?).
    apply elem_of_cons in Hin as [->|Hin]; [|by apply Hall].
    destruct Hd as [? Happ]; [split_and!; [by left|done|done]|]. split; [done|].
    eapply applied_in_weaken; [by eapply ext_results|done].
Qed.

Lemma loop_post_bad policy d deps blocked b st st1 st' :
  ext st st1 → dependencyConditionMatches policy (dep_condition d) = Val true →
  ¬ admissible (dep_policy d) ∨ not_applied_in (ps_results st1) (dep_policy d) →
  loop_post policy deps (blocked || bool_decide (dep_strength d = Required)) b st1 st' →
  loop_post policy (d :: deps) blocked b st st'.
Proof.
  intros Hext Hm Hbad Hpost. case_bool_decide as Hs.
  2: { rewrite orb_false_r in Hpost. eapply loop_post_skip; [done| |done]. by intros (_ & ? & _). }
  rewrite orb_true_r in Hpost. destruct Hpost as (Hinv & Hext' & _ & Hfalse).
  split_and!; [done|by eapply ext_trans| |].
  - intros _. right. exists d. split; [split_and!; [by left|done|done]|].
    destruct Hbad; [by left|right]. eapply not_applied_in_weaken; [by eapply ext_results|done].
  - intros Hb. by destruct (Hfalse Hb).
Qed.

Lemma run_dependencies_inv exec policy deps blocked diags st b ds st' :
  (∀ d st', d ∈ deps → inv st' → ps_visiting st' = ps_visiting st →
     sound_call (dep_policy d) st' (exec (dep_policy d) st')) →
  inv st →
  run_dependencies time exec excluded policy deps blocked diags st = Some (Val (b, ds, st')) →
  loop_post policy deps blocked b st st'.
Proof.
  revert blocked diags st. induction deps as [|d deps IH]; intros blocked diags st Hexec Hinv; simpl.
  { intros [= <- <- <-]. split_and!; [done|apply ext_refl|by left|]. intros ->. split; [done|].
    intros d (Hd & _). inversion Hd. }
  destruct (dependencyConditionMatches policy (dep_condition d)) as [[]|e] eqn:Hm; [| |done].
  2: { intros Hrun. eapply loop_post_skip; [apply ext_refl| |eapply IH; [|done|done]].
       - intros (_ & _ & ?). congruence.
       - intros d' st1 ? ? ?. apply Hexec; [by right|done|done]. }
  assert (∀ d' st1 st2, d' ∈ deps → ps_visiting st1 = ps_visiting st → inv st2 →
    ps_visiting st2 = ps_visiting st1 → sound_call (dep_policy d') st2 (exec (dep_policy d') st2)) as Hrest.
  { intros d' st1 st2 ? Hv ? Hv'. apply Hexec; [by right|done|by rewrite Hv']. }
  case_bool_decide as Hex.
  { destruct (dependencyDiagnostic time _ _ _ _) as [diag w]. intros Hrun.
    eapply (loop_post_bad _ _ _ _ _ _ (with_world w st)); [apply ext_world_r, ext_refl|done| |].
    - left. intros Ha. by apply Ha.
    - eapply IH; [|by apply inv_world|done]. intros d' st2 Hd'. by apply (Hrest d' (with_world w st)). }
  pose proof (Hexec d st ltac:(by left) Hinv eq_refl) as Hcall.
  destruct (exec (dep_policy d) st) as [[[res st1]|e]|]; [|done|done]. destruct Hcall as (Hinv1 & Hext1 & Hres).
  pose proof (ext_visiting _ _ Hext1) as Hv1.
  case_bool_decide as Happ.
  - intros Hrun. eapply loop_post_skip; [done| |].
    + intros _. split; [exact Hex|]. by exists res.
    + eapply IH; [|done|done]. intros d' st2 Hd'. by apply (Hrest d' st1).
  - destruct (dependencyDiagnostic time _ _ _ _) as [diag w]. intros Hrun.
    eapply (loop_post_bad _ _ _ _ _ _ (with_world w st1)); [by apply ext_world_r|done| |].
    + right. by exists res.
    + eapply IH; [|by apply inv_world|done]. intros d' st2 Hd'. by apply (Hrest d' (with_world w st1)).
Qed.

(** ** One policy *)

Lemma own_result ref policy w :
  let '(own, _) := executeOwnPolicy time executor ref policy w in
  result_ref own = ref ∧ (status own = Applied ∨ status own = Failed).
Proof.
  unfold executeOwnPolicy, attempt_own.
  assert (result_ref (plain_result ref Failed "" [] false OriginNone false) = ref) as Href by by destruct ref.
  destruct (match executor with Some f => _ | None => _ end) as [[[[a|]|what|] logs] w1].
  - case_bool_decide as Hid; [|destruct (bool_decide _ && bool_decide _) eqn:Hst].
    1,2: destruct (capture_finish logs), (time w1); simpl; auto.
    destruct (capture_finish logs). simpl. split; [by destruct a|].
    apply andb_false_iff in Hst as [Hst|Hst]; apply bool_decide_eq_false, dec_stable in Hst; auto.
  - destruct (p_apply policy w1) as [[[ok|what|] more] w2]; destruct (capture_finish _); simpl.
    + by destruct ok; simpl; auto.
    + destruct (time w2); simpl; auto.
    + destruct (time w2); simpl; auto.
  - destruct (capture_finish logs), (time w1); simpl; auto.
  - destruct (capture_finish logs), (time w1); simpl; auto.
Qed.

Lemma inv_with_visiting (v : gset PolicyRef) st :
  inv st → (∀ r, r ∈ v → ps_results st !! r = None) → inv (with_visiting v st).
Proof. by intros []; split. Qed.

Lemma plain_ref ref s m ds t o a : result_ref (plain_result ref s m ds t o a) = ref.
Proof. by destruct ref. Qed.

Lemma sound_record (ran : bool) r w st0 st res :
  inv st → ext st0 st → ps_results st !! r = None → r ∉ ps_visiting st → result_ref res = r →
  result_spec (ps_results st) (if ran then (ps_runs st ++ [r])%list else ps_runs st) r res →
  sound_call r st0 (Some (Val (record_result r res (maybe_run ran r w st)))).
Proof.
  intros Hinv Hext0 Hn Hv Href Hspec. pose proof (record_new ran r w st res Hinv Hn Hv Href Hspec) as Hrec.
  destruct (record_result _ _ _) as [stored st']. destruct Hrec as (-> & ? & ? & ?).
  split_and!; [done|by eapply ext_trans|done].
Qed.

Lemma sound_record_still r st res :
  inv st → ps_results st !! r = None → r ∉ ps_visiting st → result_ref res = r →
  result_spec (ps_results st) (ps_runs st) r res →
  sound_call r st (Some (Val (record_result r res st))).
Proof.
  intros. replace (record_result r res st) with (record_result r res (maybe_run false r (ps_world st) st))
    by (by destruct st).
  apply sound_record; auto using ext_refl.
Qed.

(** The end of a visit: every dependency has been executed. *)
Lemma sound_finish ref policy st st2 b ds :
  findPolicy reg ref = Some policy → isEnabled policy = true →
  ps_results st !! ref = None → ref ∉ ps_visiting st →
  loop_post policy (merge_sort dependency_before (p_dependencies policy)) false b
    (with_visiting ({[ref]} ∪ ps_visiting st) st) st2 →
  let st3 := with_visiting (ps_visiting st2 ∖ {[ref]}) st2 in
  sound_call ref st
    (if b : bool then Some (Val (record_result ref (blocked_result ref ds) st3))
     else let '(own, w) := executeOwnPolicy time executor ref policy (ps_world st3) in
          Some (Val (record_result ref (prepend_diagnostics ds own) (with_run ref w st3)))).
Proof.
  intros Hp Hen Hnone Hvis (Hinv & Hext & Htrue & Hfalse) st3.
  assert (ps_visiting st2 ∖ {[ref]} = ps_visiting st) as Hback.
  { rewrite (ext_visiting _ _ Hext). simpl. apply leibniz_equiv. set_solver. }
  assert (ps_results st3 !! ref = None) as Hn3.
  { simpl. apply (inv_visiting _ Hinv). rewrite (ext_visiting _ _ Hext). set_solver. }
  assert (inv st3) as Hinv3.
  { apply inv_with_visiting; [done|]. intros r Hr. apply (inv_visiting _ Hinv). set_solver. }
  assert (ext st st3) as Hext3.
  { destruct Hext. split; simpl in *; [done|done|done|done]. }
  assert (∀ d, needs_among policy (merge_sort dependency_before (p_dependencies policy)) d ↔ needs_now policy d) as Hneeds.
  { intros d. unfold needs_among, needs_now. by rewrite (merge_sort_Permutation dependency_before). }
  assert (ref ∉ ps_runs st3) as Hrun.
  { intros Hr. destruct (proj2 (inv_runs _ Hinv3) _ Hr). congruence. }
  destruct b.
  - destruct (Htrue eq_refl) as [?|(d & Hd%Hneeds & Hbad)]; [done|].
    refine (sound_record false ref (ps_world st3) st st3 (blocked_result ref ds) Hinv3 Hext3 Hn3 _ _ _);
      [|apply plain_ref|].
    { simpl. rewrite Hback. done. }
    by eapply spec_blocked.
  - destruct (Hfalse eq_refl) as [_ Hall]. pose proof (own_result ref policy (ps_world st3)) as Hown.
    destruct (executeOwnPolicy _ _ _ _ _) as [own w]. destruct Hown as [Href Hst].
    refine (sound_record true ref w st st3 (prepend_diagnostics ds own) Hinv3 Hext3 Hn3 _ _ _);
      [|by rewrite <-Href|].
    { simpl. rewrite Hback. done. }
    eapply spec_own; [done|done| |done|set_solver]. intros d Hd. apply Hall. by apply Hneeds.
Qed.

Lemma executePolicy_inv fuel ref st :
  acyclic reg → inv st → (∀ v, v ∈ ps_visiting st → tc (edge reg) v ref) →
  sound_call ref st (executePolicy time fuel reg executor excluded ref st).
Proof.
  intros Hac. revert ref st. induction fuel as [|fuel IH]; intros ref st Hinv Hpath; [done|]. simpl.
  assert (ref ∉ ps_visiting st) as Hvis by (intros Hv; by apply (Hac ref), Hpath).
  destruct (ps_results st !! ref) as [cached|] eqn:Hres.
  { split_and!; [done|apply ext_refl|done]. }
  assert (ref ∉ ps_runs st) as Hrun.
  { intros Hr. destruct (proj2 (inv_runs _ Hinv) _ Hr). congruence. }
  destruct (findPolicy reg ref) as [p|] eqn:Hp.
  2: { apply sound_record_still; [done|done|done|apply plain_ref|by eapply spec_not_found]. }
  destruct (isEnabled p) eqn:Hen; cbn [negb].
  2: { apply sound_record_still; [done|done|done|apply plain_ref|by eapply spec_disabled]. }
  rewrite bool_decide_eq_false_2 by done.
  destruct (run_dependencies _ _ _ _ _ _ _ _) as [[[[b ds] st2]|e]|] eqn:Hrund; [|done|done].
  eapply sound_finish; [done..|]. eapply run_dependencies_inv; [| |done].
  - intros d st' Hd Hinv' Hv'. apply IH; [done|]. intros v. rewrite Hv'. simpl.
    assert (edge reg ref (dep_policy d)) as Hedge.
    { exists p. split; [done|]. apply list_elem_of_fmap_2.
      by rewrite (merge_sort_Permutation dependency_before) in Hd. }
    rewrite elem_of_union, elem_of_singleton. intros [->|Hv]; [by apply tc_once|].
    eapply tc_transitive; [by apply Hpath|by apply tc_once].
  - apply inv_with_visiting; [done|]. intros r. rewrite elem_of_union, elem_of_singleton.
    intros [->|Hr]; [done|]. by apply (inv_visiting _ Hinv).
Qed.

Lemma execute_roots_inv fuel roots st st' :
  acyclic reg → inv st → ps_visiting st = ∅ →
  execute_roots time fuel reg executor excluded roots st = Some (Val st') →
  inv st' ∧ ext st st' ∧ ∀ r, r ∈ roots → is_Some (ps_results st' !! r).
Proof.
  intros Hac. revert st. induction roots as [|root roots IH]; intros st Hinv Hv; simpl.
  { intros [= <-]. split_and!; [done|apply ext_refl|]. intros r Hr. inversion Hr. }
  pose proof (executePolicy_inv fuel root st Hac Hinv) as Hcall. rewrite Hv in Hcall.
  specialize (Hcall ltac:(set_solver)).
  destruct (executePolicy _ _ _ _ _ root st) as [[[res st1]|e]|]; [|done|done].
  destruct Hcall as (Hinv1 & Hext1 & Hres). intros Hrun.
  destruct (IH st1 Hinv1 ltac:(by rewrite (ext_visiting _ _ Hext1)) Hrun) as (Hinv' & Hext' & Hall).
  split_and!; [done|by eapply ext_trans|]. intros r Hr. apply elem_of_cons in Hr as [->|Hr]; [|auto].
  eapply lookup_weaken_is_Some; [by eexists|by apply (ext_results _ _ Hext')].
Qed.
End correct.

(** * Which policies an execution touches *)

Section scope.
Context {W : Type} `{JsonArrays} (time : W → string * W) (executor : option (OwnExecutor W)).
Context (reg : PolicyRegistry W) (excluded : gset string) (Q : PolicyRef → Prop).
Hypothesis step_Q : ∀ r t, Q r → edge reg r t → admissible excluded t → Q t.
Implicit Types st : PlannerState W.

Definition within st : Prop :=
  (∀ r res, ps_results st !! r = Some res → Q r ∧ result_ref res = r) ∧
  (∀ r, r ∈ ps_runs st → Q r) ∧
  (∀ res, res ∈ results (ps_summary st) → Q (result_ref res)).

Definition within_call {A} (f : A → PlannerState W) (r : option (exc A)) : Prop :=
  match r with Some (Val a) => within (f a) | _ => True end.

Lemma within_record ref res st :
  within st → Q ref → result_ref res = ref → within (record_result ref res st).2.
Proof.
  intros (Hres & Hruns & Hsum) HQ Href. unfold record_result. simpl.
  assert (result_ref (default res (ps_results st !! ref)) = ref) as Hstored.
  { destruct (ps_results st !! ref) as [x|] eqn:Hx; [|done]. by apply Hres in Hx as [_ ?]. }
  split_and!; simpl.
  - intros r x. destruct (decide (r = ref)) as [->|]; [rewrite lookup_insert_eq|rewrite lookup_insert_ne by done; auto].
    by intros [= <-].
  - done.
  - intros x. rewrite elem_of_app, list_elem_of_singleton. intros [?| ->]; [auto|by rewrite Hstored].
Qed.

Lemma run_dependencies_within exec policy deps blocked diags st :
  (∀ d st, d ∈ deps → admissible excluded (dep_policy d) → within st →
     within_call snd (exec (dep_policy d) st)) →
  within st → within_call snd (run_dependencies time exec excluded policy deps blocked diags st).
Proof.
  revert blocked diags st. induction deps as [|d deps IH]; intros blocked diags st Hexec Hst; simpl; [done|].
  assert (∀ b ds st, within st →
    within_call snd (run_dependencies time exec excluded policy deps b ds st)) as Hrest.
  { intros b ds st1 Hst1. apply IH; [|done]. intros d' st2 Hd'. apply Hexec. by right. }
  destruct (dependencyConditionMatches policy (dep_condition d)) as [[]|e]; [|auto|done].
  case_bool_decide as Hex; [destruct (dependencyDiagnostic time _ _ _ _); by apply Hrest|].
  specialize (Hexec d st ltac:(by left) Hex Hst).
  destruct (exec (dep_policy d) st) as [[[res st1]|e]|]; [|done|done].
  case_bool_decide; [by apply Hrest|]. destruct (dependencyDiagnostic time _ _ _ _). by apply Hrest.
Qed.

Lemma executePolicy_within fuel ref st :
  Q ref → within st → within_call snd (executePolicy time fuel reg executor excluded ref st).
Proof.
  revert ref st. induction fuel as [|fuel IH]; intros ref st HQ Hst; [done|]. simpl.
  destruct (ps_results st !! ref); [done|].
  destruct (findPolicy reg ref) as [p|] eqn:Hp; [|apply (within_record ref); [done|done|apply plain_ref]].
  destruct (isEnabled p); cbn [negb]; [|apply (within_record ref); [done|done|apply plain_ref]].
  case_bool_decide.
  { destruct (time _). apply (within_record ref); [done|done|apply plain_ref]. }
  pose proof (run_dependencies_within (executePolicy time fuel reg executor excluded) p
    (merge_sort dependency_before (p_dependencies p)) false []
    (with_visiting ({[ref]} ∪ ps_visiting st) st)) as Hloop.
  specialize (Hloop ltac:(intros d st' Hd Had Hst'; apply IH; [|done]; apply (step_Q ref); [done| |done];
    exists p; split; [done|]; apply list_elem_of_fmap_2; by rewrite (merge_sort_Permutation dependency_before) in Hd) Hst).
  destruct (run_dependencies _ _ _ _ _ _ _ _) as [[[[b ds] st2]|e]|]; [|done|done]. simpl in Hloop.
  destruct b; [apply (within_record ref); [done|done|apply plain_ref]|].
  pose proof (own_result time executor ref p (ps_world st2)) as Hown. simpl.
  destruct (executeOwnPolicy _ _ _ _ _) as [own w]. destruct Hown as [Href _].
  apply (within_record ref); [|done|by rewrite <-Href]. destruct Hloop as (? & Hruns & ?).
  split_and!; [done| |done]. intros r. simpl. rewrite elem_of_app, list_elem_of_singleton.
  intros [?| ->]; auto.
Qed.

Lemma execute_roots_within fuel roots st :
  (∀ r, r ∈ roots → Q r) → within st →
  within_call id (execute_roots time fuel reg executor excluded roots st).
Proof.
  revert st. induction roots as [|root roots IH]; intros st HQ Hst; simpl; [done|].
  pose proof (executePolicy_within fuel root st (HQ root ltac:(by left)) Hst) as Hcall.
  destruct (executePolicy _ _ _ _ _ root st) as [[[res st1]|e]|]; [|done|done].
  apply IH; [|done]. intros r Hr. apply HQ. by right.
Qed.
End scope.

(** * The set of roots and the queries of the summary *)

Lemma set_insert_sorted r l : StronglySorted clt l → StronglySorted clt (set_insert r l).
Proof.
  intros Hs. unfold set_insert. destruct (decide (r ∈ l)) as [|Hr]; [done|].
  assert (NoDup (sort_set (r :: l))) as Hnd.
  { rewrite sort_set_perm. constructor; [done|by apply sorted_clt_NoDup]. }
  pose proof (sort_set_sorted (r :: l)) as Hsort. revert Hnd Hsort. generalize (sort_set (r :: l)).
  clear. intros l. induction l as [|x l IH]; intros Hnd Hs; [constructor|].
  apply StronglySorted_cons in Hs as [Hx Hs]. apply NoDup_cons in Hnd as [Hn Hnd].
  constructor; [auto|]. rewrite Forall_forall in *. intros y Hy.
  destruct (proj1 (cle_lt_or_eq x y) (Hx y Hy)) as [?| ->]; done.
Qed.

Lemma elem_of_set_insert r l x : x ∈ set_insert r l ↔ x = r ∨ x ∈ l.
Proof.
  unfold set_insert. destruct (decide (r ∈ l)).
  - split; [by right|]. by intros [->|].
  - by rewrite elem_of_sort_set, elem_of_cons.
Qed.

Lemma elem_of_fold_insert l s x : x ∈ foldl (λ s r, set_insert r s) s l ↔ x ∈ s ∨ x ∈ l.
Proof.
  revert s. induction l as [|r l IH]; intros s; simpl; [set_solver|].
  rewrite IH, elem_of_set_insert, elem_of_cons. tauto.
Qed.

Lemma elem_of_ref_set l x : x ∈ ref_set l ↔ x ∈ l.
Proof. unfold ref_set. rewrite elem_of_fold_insert. set_solver. Qed.

Lemma fold_insert_sorted l s :
  StronglySorted clt s → StronglySorted clt (foldl (λ s r, set_insert r s) s l).
Proof. revert s. induction l as [|r l IH]; intros s Hs; simpl; [done|]. by apply IH, set_insert_sorted. Qed.

Lemma markRequestedRoot_fold l s :
  foldl markRequestedRoot s l =
  mkSummary (results s) (foldl (λ s r, set_insert r s) (requestedRoots_ s) l).
Proof. revert s. induction l as [|r l IH]; intros s; simpl; [by destruct s|]. by rewrite IH. Qed.

Lemma find_result_spec s root res :
  NoDup (result_ref <$> results s) →
  find_result s root = Some res ↔ res ∈ results s ∧ result_ref res = root.
Proof.
  intros Hnd. unfold find_result. split.
  - intros ([i x] & Hf & ->)%fmap_Some. apply list_find_Some in Hf as (Hi & ? & _).
    split; [by eapply list_elem_of_lookup_2|done].
  - intros [Hin Href]. set (found := list_find _ _). destruct found as [[i x]|] eqn:Hf; unfold found in Hf; simpl.
    + apply list_find_Some in Hf as (Hi & Hx & _). f_equal.
      apply list_elem_of_lookup_1 in Hin as [j Hj].
      assert (i = j) as ->.
      { eapply (NoDup_lookup _ _ _ root Hnd); rewrite list_lookup_fmap; [rewrite Hi|rewrite Hj]; simpl; congruence. }
      congruence.
    + apply list_find_None in Hf. rewrite Forall_forall in Hf. by destruct (Hf _ Hin).
Qed.

(** The state [execute] starts from satisfies the invariant. *)
Lemma inv_start {W} `{JsonArrays} (reg : PolicyRegistry W) excluded w roots :
  inv reg excluded (mkPlanner w ∅ ∅ (foldl markRequestedRoot summary_empty roots) []).
Proof.
  rewrite markRequestedRoot_fold. split; simpl.
  - intros r res. by rewrite lookup_empty.
  - intros r _. apply lookup_empty.
  - intros res. rewrite lookup_empty. split; [intros Hr; inversion Hr|done].
  - constructor.
  - split; [constructor|]. intros r Hr. inversion Hr.
  - intros r res. by rewrite lookup_empty.
  - intros before res after policy d Heq. by destruct before.
Qed.

Lemma execute_inv {W} `{JsonArrays} time executor (reg : PolicyRegistry W) request w st :
  registry_ok reg → validatePolicyDependencyGraph reg = Val (Some None) →
  execute time reg executor request w = Some (Val st) →
  inv reg (excludedModules request) st ∧
  requestedRoots_ (ps_summary st) = ref_set (requestedRoots request) ∧
  ∀ r, r ∈ requestedRoots request → is_Some (ps_results st !! r).
Proof.
  intros Hok Hv Hex. destruct (validate_ok reg Hok Hv) as [_ Hac]. unfold execute in Hex.
  destruct (execute_roots_inv time executor reg (excludedModules request) _ _ _ _ Hac (inv_start _ _ _ _) eq_refl Hex)
    as (Hinv & Hext & Hall).
  split_and!; [done| |].
  - rewrite (ext_roots _ _ Hext). simpl. rewrite markRequestedRoot_fold. simpl.
    apply sorted_clt_ext; [by apply fold_insert_sorted; constructor..|].
    intros x. rewrite elem_of_fold_insert. set_solver.
  - intros r Hr. apply Hall. by apply elem_of_ref_set.
Qed.

(** Every policy run or reported satisfies a predicate that the roots satisfy
    and that admissible dependencies inherit. *)
Lemma execute_within {W} `{JsonArrays} time executor (reg : PolicyRegistry W) request w st (Q : PolicyRef → Prop) :
  (∀ r t, Q r → edge reg r t → admissible (excludedModules request) t → Q t) →
  (∀ r, r ∈ requestedRoots request → Q r) →
  execute time reg executor request w = Some (Val st) →
  (∀ r, r ∈ ps_runs st → Q r) ∧ (∀ res, res ∈ results (ps_summary st) → Q (result_ref res)).
Proof.
  intros Hstep Hroots Hex. unfold execute in Hex.
  pose proof (execute_roots_within time executor reg (excludedModules request) Q Hstep
    (planner_fuel reg) (ref_set (requestedRoots request))
    (mkPlanner w ∅ ∅ (foldl markRequestedRoot summary_empty (ref_set (requestedRoots request))) [])) as Hw.
  rewrite Hex, markRequestedRoot_fold in Hw. apply Hw.
  - intros x Hx. apply Hroots. by apply elem_of_ref_set.
  - split_and!; simpl; [intros ??; by rewrite lookup_empty|intros ? Hx; inversion Hx..].
Qed.

(** * Properties *)

(** C37. Execution terminates: on every registry the daemon can build, with any
    executor, request and world, and whether or not the dependency graph was
    validated, the recursion over dependencies never exceeds the depth the
    number of registered policies allows. *)
Theorem execute_total {W} `{JsonArrays} time executor (reg : PolicyRegistry W) request w :
  built reg → execute time reg executor request w ≠ None.
Proof.
  intros Hok%built_ok. apply execute_roots_total; [done|]. unfold planner_fuel.
  apply Nat.lt_succ_r, length_filter.
Qed.

(** C1. The report of an execution is exact: with a validated dependency
    graph, every requested root has a result, no policy is reported twice, and
    each reported result is the one the policies dictate. A policy that is not
    registered is NotFound and a disabled one is Disabled; an enabled policy is
    Failed with origin RequiredDependencyBlocked, without its own apply having
    run, when a required dependency whose condition holds is excluded or was
    not Applied, and otherwise its own apply ran and it is Applied or Failed. *)
Theorem execute_report_exact {W} `{JsonArrays} time executor (reg : PolicyRegistry W) request w st :
  built reg → validatePolicyDependencyGraph reg = Val (Some None) →
  execute time reg executor request w = Some (Val st) →
  (∀ r, r ∈ requestedRoots request → ∃ res, res ∈ results (ps_summary st) ∧ result_ref res = r) ∧
  NoDup (result_ref <$> results (ps_summary st)) ∧
  (∀ res, res ∈ results (ps_summary st) ↔ ps_results st !! result_ref res = Some res) ∧
  (∀ res, res ∈ results (ps_summary st) →
     result_spec reg (excludedModules request) (ps_results st) (ps_runs st) (result_ref res) res).
Proof.
  intros Hok%built_ok Hv Hex. destruct (execute_inv _ _ _ _ _ _ Hok Hv Hex) as (Hinv & _ & Hroots).
  split_and!; [|apply Hinv|apply Hinv|].
  - intros r Hr. destruct (Hroots r Hr) as [res Hres]. pose proof (inv_key _ _ _ Hinv _ _ Hres) as Hk.
    exists res. split; [|done]. apply (inv_summary _ _ _ Hinv). by rewrite Hk.
  - intros res Hin. apply (inv_spec _ _ _ Hinv), (inv_summary _ _ _ Hinv), Hin.
Qed.

(** Dependencies come first: in the report of an execution over a validated
    graph, an Applied policy is preceded by an Applied result for each of its
    required dependencies whose condition holds. *)
Theorem required_dependencies_first {W} `{JsonArrays} time executor (reg : PolicyRegistry W) request w st
    before res after policy d :
  built reg → validatePolicyDependencyGraph reg = Val (Some None) →
  execute time reg executor request w = Some (Val st) →
  results (ps_summary st) = (before ++ res :: after)%list → status res = Applied →
  findPolicy reg (result_ref res) = Some policy → needs_now policy d →
  ∃ dres, dres ∈ before ∧ result_ref dres = dep_policy d ∧ status dres = Applied.
Proof.
  intros Hok%built_ok Hv Hex. destruct (execute_inv _ _ _ _ _ _ Hok Hv Hex) as (Hinv & _).
  apply (inv_order _ _ _ Hinv).
Qed.

(** No policy's own apply runs twice or unasked: over a validated graph the
    policies whose own execution was invoked are distinct, registered and
    enabled, each is reported Applied or Failed, and all their required
    dependencies whose condition holds were Applied. *)
Theorem own_apply_at_most_once {W} `{JsonArrays} time executor (reg : PolicyRegistry W) request w st :
  built reg → validatePolicyDependencyGraph reg = Val (Some None) →
  execute time reg executor request w = Some (Val st) →
  NoDup (ps_runs st) ∧
  ∀ r, r ∈ ps_runs st → ∃ policy res, findPolicy reg r = Some policy ∧ isEnabled policy = true ∧
    ps_results st !! r = Some res ∧ (status res = Applied ∨ status res = Failed) ∧
    ∀ d, needs_now policy d → applied_in (ps_results st) (dep_policy d).
Proof.
  intros Hok%built_ok Hv Hex. destruct (execute_inv _ _ _ _ _ _ Hok Hv Hex) as (Hinv & _).
  split; [apply Hinv|]. intros r Hr. destruct (proj2 (inv_runs _ _ _ Hinv) r Hr) as [res Hres].
  destruct (inv_spec _ _ _ Hinv _ _ Hres) as [| | |policy Hp Hen Hall Hst _]; try done.
  exists policy, res. split_and!; [done..|]. intros d Hd. by apply Hall.
Qed.

(** An excluded module is left alone: whatever the graph, a policy of an
    excluded module is neither run nor reported unless it is itself a requested
    root. *)
Theorem excluded_modules_untouched {W} `{JsonArrays} time executor (reg : PolicyRegistry W) request w st r :
  execute time reg executor request w = Some (Val st) →
  moduleName r ∈ excludedModules request → r ∉ requestedRoots request →
  r ∉ ps_runs st ∧ ∀ res, res ∈ results (ps_summary st) → result_ref res ≠ r.
Proof.
  intros Hex Hmod Hroot.
  destruct (execute_within time executor reg request w st
    (λ x, x ∈ requestedRoots request ∨ admissible (excludedModules request) x)) as [Hruns Hsum];
    [by right|by left|done|].
  split.
  - intros Hr. by destruct (Hruns r Hr) as [?|Ha]; [|apply Ha].
  - intros res Hin <-. by destruct (Hsum res Hin) as [?|Ha]; [|apply Ha].
Qed.

(** * Witnesses *)

Definition still_clock (w : list PolicyRef) : string * list PolicyRef := ("2024-01-01", w).
Definition run_sample (reg : PolicyRegistry (list PolicyRef)) (roots : list PolicyRef) (excluded : gset string)
  : option (exc (PlannerState (list PolicyRef))) :=
  @execute _ binary_json still_clock reg None (mkRequest roots excluded) [].

Definition run_outline (r : option (exc (PlannerState (list PolicyRef))))
  : option (list (PolicyRef * PolicyApplyStatus) * list PolicyRef) :=
  match r with
  | Some (Val st) => Some ((λ x, (result_ref x, status x)) <$> results (ps_summary st), ps_runs st)
  | _ => None
  end.

Definition chain_broken := sample_registry
  [sample_policy ref_a true [needs ref_b] true; sample_policy ref_b true [] false].

Example run_chain :
  run_outline (run_sample chain_registry [ref_a] ∅) = Some ([(ref_b, Applied); (ref_a, Applied)], [ref_b; ref_a]).
Proof. vm_compute. reflexivity. Qed.

Example run_chain_broken :
  run_outline (run_sample chain_broken [ref_a] ∅) = Some ([(ref_b, Failed); (ref_a, Failed)], [ref_b]).
Proof. vm_compute. reflexivity. Qed.

(** On a graph the daemon would refuse, a cycle member is reported as Failed
    twice although its own apply ran and succeeded. *)
Example run_cycle :
  run_outline (run_sample cyclic_registry [ref_a] ∅) =
  Some ([(ref_a, Failed); (ref_b, Failed); (ref_a, Failed)], [ref_a]).
Proof. vm_compute. reflexivity. Qed.

Definition final_state (r : option (exc (PlannerState (list PolicyRef)))) : PlannerState (list PolicyRef) :=
  match r with Some (Val st) => st | _ => mkPlanner [] ∅ ∅ summary_empty [] end.

Definition chain_state := final_state (run_sample chain_registry [ref_a] ∅).

Lemma chain_runs :
  @execute _ binary_json still_clock chain_registry None (mkRequest [ref_a] ∅) [] = Some (Val chain_state).
Proof. vm_compute. reflexivity. Qed.

Lemma chain_valid : validatePolicyDependencyGraph chain_registry = Val (Some None).
Proof. vm_compute. reflexivity. Qed.

Lemma execute_total_witness :
  @execute _ binary_json still_clock cyclic_registry None (mkRequest [ref_a] ∅) [] ≠ None.
Proof. exact (@execute_total _ binary_json still_clock None cyclic_registry _ [] (sample_built _)). Defined.

Lemma execute_report_exact_witness :
  (λ x, (result_ref x, status x)) <$> results (ps_summary chain_state) = [(ref_b, Applied); (ref_a, Applied)] ∧
  NoDup (result_ref <$> results (ps_summary chain_state)).
Proof.
  split; [vm_compute; reflexivity|].
  exact (proj1 (proj2 (@execute_report_exact _ binary_json still_clock None chain_registry
    (mkRequest [ref_a] ∅) [] chain_state (sample_built _) chain_valid chain_runs))).
Defined.

Definition chain_before := take 1 (results (ps_summary chain_state)).
Definition chain_last := default (blocked_result ref_a []) (results (ps_summary chain_state) !! 1).
Definition chain_policy := default (sample_policy ref_a true [] true) (findPolicy chain_registry ref_a).

Lemma required_dependencies_first_witness :
  ∃ dres, dres ∈ chain_before ∧ result_ref dres = ref_b ∧ status dres = Applied.
Proof.
  refine (@required_dependencies_first _ binary_json still_clock None chain_registry (mkRequest [ref_a] ∅) []
    chain_state chain_before chain_last [] chain_policy (needs ref_b) (sample_built _) chain_valid chain_runs _ _ _ _).
  - vm_compute. reflexivity.
  - vm_compute. reflexivity.
  - vm_compute. reflexivity.
  - split; [apply list_elem_of_singleton; vm_compute; reflexivity|]. split; reflexivity.
Defined.

Lemma own_apply_at_most_once_witness : ps_runs chain_state = [ref_b; ref_a] ∧ NoDup (ps_runs chain_state).
Proof.
  split; [vm_compute; reflexivity|].
  exact (proj1 (@own_apply_at_most_once _ binary_json still_clock None chain_registry
    (mkRequest [ref_a] ∅) [] chain_state (sample_built _) chain_valid chain_runs)).
Defined.

Definition other_module := mkRef "USB" "devices" "c".

Lemma excluded_modules_untouched_witness : other_module ∉ ps_runs chain_state.
Proof.
  assert (@execute _ binary_json still_clock chain_registry None (mkRequest [ref_a] {["USB"]}) [] = Some (Val chain_state))
    as Hrun by (vm_compute; reflexivity).
  refine (proj1 (@excluded_modules_untouched _ binary_json still_clock None chain_registry
    (mkRequest [ref_a] {["USB"]}) [] chain_state other_module Hrun _ _)).
  - apply (bool_decide_unpack _). vm_compute. exact I.
  - apply (bool_decide_unpack _). vm_compute. exact I.
Defined.
