(* ===== verification/Application.v ===== *)
(** Applying policies on request (fic/src/policy/execution/PolicyApplication):
    which roots each request of the daemon stands for, and what counts as
    success. *)

From S2P Require Import Prelude Logger Severity PolicyValue ConfigFile PolicyModel Registry DependencyGraph Planner.
Open Scope string_scope.
Open Scope nat_scope.

Section application.
Context {W : Type} `{JsonArrays} (time : W → string * W).
Implicit Types reg : PolicyRegistry W.

(** The summary and the world; [None]: out of fuel, [Exn]: an exception. *)
Definition Applied_result : Type := option (exc (PolicyApplySummary * W)).

(** [PolicyExecutionPlanner(registry).execute(request)]. *)
Definition run_plan reg (request : PolicyExecutionRequest) (w : W) : Applied_result :=
  match execute time reg None request w with
  | None => None
  | Some (Exn e) => Some (Exn e)
  | Some (Val st) => Some (Val (ps_summary st, ps_world st))
  end.

Definition not_found_summary (r : PolicyRef) (msg : string) : PolicyApplySummary :=
  summary_add (markRequestedRoot summary_empty r) (plain_result r NotFound msg [] false OriginNone false).

(** The first submodule (in map order) that has the policy. *)
Fixpoint first_submodule (policy : string) (subs : SubmoduleMap (W:=W)) : option string :=
  match subs with
  | [] => None
  | (sn, ps) :: rest =>
      match smap_find policy ps with Some _ => Some sn | None => first_submodule policy rest end
  end.

Definition applyPolicy reg (module policy : string) (w : W) : Applied_result :=
  match smap_find module (modules reg) with
  | None => Some (Val (not_found_summary (mkRef module "" policy) "Модуль не существует", w))
  | Some m =>
      match first_submodule policy (submodules m) with
      | Some sn => run_plan reg (mkRequest [mkRef module sn policy] ∅) w
      | None => Some (Val (not_found_summary (mkRef module "" policy) "Политика не существует", w))
      end
  end.

Definition module_roots (module : string) (m : PolicyModule W) : list PolicyRef :=
  s ← submodules m; p ← s.2; [mkRef module s.1 p.1].

Definition applyModulePolicies reg (module : string) (w : W) : Applied_result :=
  match smap_find module (modules reg) with
  | None => Some (Val (not_found_summary (mkRef module "" "all") "Модуль не существует", w))
  | Some m => run_plan reg (mkRequest (module_roots module m) ∅) w
  end.

Definition applySubmodulePolicies reg (module submodule : string) (w : W) : Applied_result :=
  run_plan reg (mkRequest
    (filter (λ r, moduleName r = module ∧ submoduleName r = submodule) (policyRefs reg)) ∅) w.

Definition applyAllPolicies reg (w : W) : Applied_result :=
  run_plan reg (mkRequest (m ← modules reg; module_roots m.1 m.2) ∅) w.

Definition applyAllPoliciesExceptModule reg (excludedModule : string) (w : W) : Applied_result :=
  run_plan reg (mkRequest
    (m ← modules reg; if String.eqb m.1 excludedModule then [] else module_roots m.1 m.2)
    {[excludedModule]}) w.

Definition isPolicyApplySuccessful (s : PolicyApplySummary) (module policy : string) : bool :=
  let isSinglePolicyRequest := negb (String.eqb module "all") && negb (String.eqb policy "all") in
  if isSinglePolicyRequest then requestedRootsApplied s else requestedRootsWithoutFailures s.

(** * Lemmas *)

Lemma elem_of_module_roots reg mn m r :
  registry_ok reg → (mn, m) ∈ modules reg →
  r ∈ module_roots mn m ↔ moduleName r = mn ∧ r ∈ policyRefs reg.
Proof.
  intros Hok Hm. rewrite elem_of_policyRefs. unfold module_roots. rewrite list_elem_of_bind. split.
  - intros ([sn ps] & Hr & Hs). apply list_elem_of_bind in Hr as ([pn p] & ->%list_elem_of_singleton & Hp).
    simpl. split; [done|]. by exists m, ps, p.
  - intros [Hmn (m' & ps & p & Hm' & Hs & Hp)]. rewrite Hmn in Hm'.
    apply smap_find_elem in Hm, Hm'; [|apply Hok..]. assert (m' = m) as -> by congruence.
    exists (submoduleName r, ps). split; [|done]. apply list_elem_of_bind. exists (policyName r, p).
    split; [|done]. apply list_elem_of_singleton. simpl. rewrite <-Hmn. by destruct r.
Qed.

Lemma elem_of_selected_roots reg (keep : string → bool) r :
  registry_ok reg →
  r ∈ (m ← modules reg; if keep m.1 then module_roots m.1 m.2 else []) ↔
  keep (moduleName r) = true ∧ r ∈ policyRefs reg.
Proof.
  intros Hok. rewrite list_elem_of_bind. split.
  - intros ([mn m] & Hr & Hm). simpl in Hr. destruct (keep mn) eqn:Hk; [|inversion Hr].
    apply (elem_of_module_roots reg) in Hr as [<- ?]; done.
  - intros [Hk Hr]. pose proof Hr as (m & ps & p & Hm & _)%elem_of_policyRefs.
    exists (moduleName r, m). simpl. rewrite Hk. split; [|done]. by apply (elem_of_module_roots reg).
Qed.
End application.

(** What the report of a plan over a validated graph contains. *)
Section reports.
Context {W : Type} `{JsonArrays} (time : W → string * W) (reg : PolicyRegistry W).
Hypothesis Hbuilt : registry_ok reg.
Hypothesis Hvalid : validatePolicyDependencyGraph reg = Val (Some None).

Lemma run_plan_inv request w s w' :
  run_plan time reg request w = Some (Val (s, w')) →
  ∃ st, execute time reg None request w = Some (Val st) ∧ s = ps_summary st ∧
    inv reg (excludedModules request) st ∧ requestedRoots_ s = ref_set (requestedRoots request) ∧
    ∀ r, r ∈ requestedRoots request → ∃ res, find_result s r = Some res.
Proof.
  unfold run_plan. destruct (execute time reg None request w) as [[st|e]|] eqn:Hex; [|done|done].
  intros [= <- <-]. destruct (execute_inv _ _ _ _ _ _ Hbuilt Hvalid Hex) as (Hinv & Hroots & Hall).
  exists st. split_and!; [done..|]. intros r Hr. destruct (Hall r Hr) as [res Hres]. exists res.
  pose proof (inv_key _ _ _ Hinv _ _ Hres) as Hk. apply find_result_spec; [apply Hinv|].
  split; [|done]. apply (inv_summary _ _ _ Hinv). by rewrite Hk.
Qed.

(** The reported references are exactly the roots when the roots are closed
    under the dependencies the request admits. *)
Lemma run_plan_reports request w s w' roots :
  run_plan time reg request w = Some (Val (s, w')) → NoDup roots →
  (∀ r, r ∈ requestedRoots request ↔ r ∈ roots) →
  (∀ r t, r ∈ roots → edge reg r t → admissible (excludedModules request) t → t ∈ roots) →
  result_ref <$> results s ≡ₚ roots.
Proof.
  intros Hrun Hnd Hroots Hclosed. destruct (run_plan_inv _ _ _ _ Hrun) as (st & Hex & -> & Hinv & _ & Hall).
  apply NoDup_Permutation; [apply Hinv|done|]. intros r. split.
  - intros (res & -> & Hin)%list_elem_of_fmap.
    eapply (execute_within time None reg request w st (λ r, r ∈ roots)); [done| |done|done].
    intros x. apply Hroots.
  - intros Hr%Hroots. destruct (Hall r Hr) as [res Hres].
    apply find_result_spec in Hres as [Hin <-]; [|apply Hinv]. by apply list_elem_of_fmap_2.
Qed.

Lemma edge_registered r t : edge reg r t → t ∈ policyRefs reg.
Proof.
  intros (p & Hp & Ht). destruct (validate_ok reg Hbuilt Hvalid) as [Hd _].
  destruct (Hd _ _ Hp) as [Hall _]. rewrite Forall_forall in Hall.
  apply list_elem_of_fmap in Ht as (d & -> & Hin). apply findPolicy_refs; [done|]. by apply Hall.
Qed.
End reports.

(** * Properties *)

(** Success means what it says: over a validated graph, the summary of a
    request reports that its roots were applied exactly when there is a root
    and each root has an Applied result, and that they are without failures
    exactly when each root has a result that is Applied or Disabled. *)
Theorem success_exact {W} `{JsonArrays} time (reg : PolicyRegistry W) request w s w' :
  built reg → validatePolicyDependencyGraph reg = Val (Some None) →
  run_plan time reg request w = Some (Val (s, w')) →
  (requestedRootsApplied s = true ↔ requestedRoots request ≠ [] ∧
     ∀ r, r ∈ requestedRoots request →
       ∃ res, res ∈ results s ∧ result_ref res = r ∧ status res = Applied) ∧
  (requestedRootsWithoutFailures s = true ↔
     ∀ r, r ∈ requestedRoots request →
       ∃ res, res ∈ results s ∧ result_ref res = r ∧ (status res = Applied ∨ status res = Disabled)).
Proof.
  intros Hok%built_ok Hv Hrun.
  destruct (run_plan_inv time reg Hok Hv _ _ _ _ Hrun) as (st & Hex & -> & Hinv & Hroots & Hall).
  unfold requestedRootsApplied, requestedRootsWithoutFailures. rewrite Hroots.
  assert (∀ f : PolicyApplyResult → bool,
    forallb (λ root, match find_result (ps_summary st) root with Some r => f r | None => false end)
      (ref_set (requestedRoots request)) = true ↔
    ∀ r, r ∈ requestedRoots request →
      ∃ res, res ∈ results (ps_summary st) ∧ result_ref res = r ∧ f res = true) as Hforall.
  { intros f. rewrite <-Is_true_true, forallb_True, Forall_forall. split.
    - intros Hf r Hr. destruct (Hall r Hr) as [res Hres]. exists res.
      specialize (Hf r ltac:(by apply elem_of_ref_set)). rewrite Hres in Hf.
      apply find_result_spec in Hres as [? ?]; [|apply Hinv]. split_and!; [done..|by apply Is_true_eq_true].
    - intros Hf r Hr. rewrite elem_of_ref_set in Hr. destruct (Hf r Hr) as (res & Hin & Href & Hb).
      assert (find_result (ps_summary st) r = Some res) as -> by (apply find_result_spec; [apply Hinv|done]).
      by apply Is_true_eq_left. }
  split.
  - rewrite andb_true_iff, Hforall, negb_true_iff, bool_decide_eq_false.
    unfold isApplied. setoid_rewrite bool_decide_eq_true.
    assert (ref_set (requestedRoots request) = [] ↔ requestedRoots request = []) as Hnil.
    { pose proof (elem_of_ref_set (requestedRoots request)) as He.
      destruct (ref_set (requestedRoots request)) as [|x l], (requestedRoots request) as [|y k]; [done| | |done].
      - specialize (He y). set_solver.
      - specialize (He x). set_solver. }
    by rewrite Hnil.
  - rewrite Hforall. unfold isFailure.
    assert (∀ res, negb (bool_decide (status res = Failed) || bool_decide (status res = NotFound)) = true ↔
      status res = Applied ∨ status res = Disabled) as Hst.
    { intros res. destruct (status res); simpl; naive_solver. }
    by setoid_rewrite Hst.
Qed.

(** Applying everything reports everything once: over a validated graph the
    summary of [applyAllPolicies] has exactly one result for each registered
    policy and no other. *)
Theorem apply_all_reports_each_policy_once {W} `{JsonArrays} time (reg : PolicyRegistry W) w s w' :
  built reg → validatePolicyDependencyGraph reg = Val (Some None) →
  applyAllPolicies time reg w = Some (Val (s, w')) →
  result_ref <$> results s ≡ₚ policyRefs reg.
Proof.
  intros Hok%built_ok Hv Hrun. eapply run_plan_reports; [done|done|exact Hrun|by apply policyRefs_NoDup| |].
  - intros r. simpl. pose proof (elem_of_selected_roots reg (λ _, true) r Hok) as He. naive_solver.
  - intros r t _ He _. by eapply edge_registered.
Qed.

(** Applying everything except a module leaves that module alone and
    reports everything else once: over a validated graph the summary of
    [applyAllPoliciesExceptModule] has exactly one result for each registered
    policy of the other modules, and none of the excluded one, even where
    policies of other modules depend on it. *)
Theorem apply_all_except_module_exact {W} `{JsonArrays} time (reg : PolicyRegistry W) excludedModule w s w' :
  built reg → validatePolicyDependencyGraph reg = Val (Some None) →
  applyAllPoliciesExceptModule time reg excludedModule w = Some (Val (s, w')) →
  result_ref <$> results s ≡ₚ filter (λ r, moduleName r ≠ excludedModule) (policyRefs reg).
Proof.
  intros Hok%built_ok Hv Hrun. eapply run_plan_reports; [done|done|exact Hrun| | |].
  - apply NoDup_filter. by apply policyRefs_NoDup.
  - intros r. rewrite list_elem_of_filter. simpl.
    pose proof (elem_of_selected_roots reg (λ mn, negb (String.eqb mn excludedModule)) r Hok) as He.
    rewrite negb_true_iff, String.eqb_neq in He. rewrite <-He, !list_elem_of_bind.
    split; intros (m & Hr & Hm); exists m; split; auto; by destruct (String.eqb m.1 excludedModule).
  - intros r t _ He Ha. apply list_elem_of_filter. split; [|by eapply edge_registered].
    intros <-. apply Ha. simpl. set_solver.
Qed.

(** * Witnesses *)

Definition applied_world (r : option (exc (PolicyApplySummary * list PolicyRef)))
  : PolicyApplySummary * list PolicyRef :=
  match r with Some (Val p) => p | _ => (summary_empty, []) end.

Definition chain_all := applied_world (@applyAllPolicies _ binary_json still_clock chain_registry []).

Lemma success_exact_witness : requestedRootsApplied chain_all.1 = true.
Proof.
  assert (@run_plan _ binary_json still_clock chain_registry (mkRequest [ref_a; ref_b] ∅) [] =
    Some (Val (chain_all.1, chain_all.2))) as Hrun by (vm_compute; reflexivity).
  apply (proj2 (proj1 (@success_exact _ binary_json still_clock chain_registry _ _ _ _
    (sample_built _) chain_valid Hrun))).
  split; [done|]. intros r Hr. repeat (apply elem_of_cons in Hr as [->|Hr]); [| |inversion Hr].
  - exists (default (blocked_result ref_a []) (results chain_all.1 !! 1)).
    split; [apply (list_elem_of_lookup_2 _ 1); vm_compute; reflexivity|split; vm_compute; reflexivity].
  - exists (default (blocked_result ref_a []) (results chain_all.1 !! 0)).
    split; [apply (list_elem_of_lookup_2 _ 0); vm_compute; reflexivity|split; vm_compute; reflexivity].
Defined.

Lemma apply_all_reports_each_policy_once_witness :
  result_ref <$> results chain_all.1 ≡ₚ policyRefs chain_registry.
Proof.
  apply (@apply_all_reports_each_policy_once _ binary_json still_clock chain_registry [] chain_all.1 chain_all.2
    (sample_built _) chain_valid). vm_compute. reflexivity.
Defined.

Lemma apply_all_except_module_exact_witness :
  result_ref <$> results chain_all.1 ≡ₚ filter (λ r, moduleName r ≠ "USB") (policyRefs chain_registry).
Proof.
  apply (@apply_all_except_module_exact _ binary_json still_clock chain_registry "USB" [] chain_all.1 chain_all.2
    (sample_built _) chain_valid). vm_compute. reflexivity.
Defined.
