(* ===== verification/FileModel.v ===== *)
(** A directory of files as the daemon's system calls see it.

    The state files of the daemon live in one directory. [Disk] holds that
    directory's entries, the inodes, and what a crash can bring back: every
    entry a path had since the directory was last synced, and for each inode
    the content that was last synced. A program is a function on a [World],
    the disk and a script that says, for each system call in turn, what other
    processes do to the disk just before it, whether the call fails, and how
    many bytes it may transfer. Theorems quantify over the script.

    Source: the system calls of fic-common/fic-core/src/fs/AtomicFileWriter.cpp
    and SecureStateFile.cpp. *)

From stdpp Require Import pretty.
From S2P Require Import Prelude.
Open Scope string_scope.
Open Scope nat_scope.

Definition ENOENT : Z := 2%Z.
Definition EINTR : Z := 4%Z.
Definition EIO : Z := 5%Z.
Definition EEXIST : Z := 17%Z.
Definition EISDIR : Z := 21%Z.
Definition EINVAL : Z := 22%Z.
Definition ENOSYS : Z := 38%Z.
Definition ELOOP : Z := 40%Z.

Inductive FileKind := Regular | Symlink | Directory | OtherKind.
#[export] Instance FileKind_eq_dec : EqDecision FileKind.
Proof. solve_decision. Defined.

(** An inode: a symbolic link's content is the name it points to. [i_saved] is
    what a crash leaves of the content ([None]: nothing was ever synced). *)
Record Inode := mkInode {
  i_kind : FileKind;
  i_content : string;
  i_saved : option string;
  i_mode : Z;
  i_uid : Z;
  i_gid : Z;
  i_nlink : Z;
  i_mtime : Z;
  i_ctime : Z
}.

Record Disk := mkDisk {
  d_dev : N;
  d_nodes : gmap N Inode;
  d_names : gmap string N;
  d_stale : gmap string (list (option N));
  d_parent : Inode;
  d_next : N;
  d_clock : Z;
  d_euid : Z;
  d_egid : Z
}.

Record Stat := mkStat {
  st_dev : N;
  st_ino : N;
  st_kind : FileKind;
  st_mode : Z;
  st_uid : Z;
  st_gid : Z;
  st_nlink : Z;
  st_size : Z;
  st_mtim : Z;
  st_ctim : Z
}.

Definition stat_of (dev ino : N) (i : Inode) : Stat :=
  mkStat dev ino (i_kind i) (i_mode i) (i_uid i) (i_gid i) (i_nlink i)
    (Z.of_nat (String.length (i_content i))) (i_mtime i) (i_ctime i).

(** * Programs *)

Record Tick := mkTick {
  t_env : Disk → Disk;
  t_error : option Z;
  t_limit : option nat
}.

Record World := mkWorld {
  w_disk : Disk;
  w_script : list Tick
}.

Definition M (A : Type) : Type := World → A * World.

Definition mret {A} (a : A) : M A := λ w, (a, w).
Definition mbind {A B} (m : M A) (k : A → M B) : M B := λ w, let '(a, w') := m w in k a w'.

Declare Scope file_scope.
Notation "'let*' x ':=' m 'in' k" := (mbind m (λ x, k))
  (at level 100, x pattern, m at next level, right associativity) : file_scope.
Open Scope file_scope.

(** An injected failure never says what only the directory can say: that a
    name is missing, taken or a link. *)
Definition injected (e : Z) : Z :=
  if bool_decide (e = ENOENT) || bool_decide (e = EEXIST) || bool_decide (e = ELOOP) then EIO else e.

(** One system call: the environment acts, then the call fails or runs. *)
Definition sys {A} (call : option nat → Disk → (Z + A) * Disk) : M (Z + A) := λ w,
  match w_script w with
  | [] => let '(r, d) := call None (w_disk w) in (r, mkWorld d [])
  | t :: script =>
      let d := t_env t (w_disk w) in
      match t_error t with
      | Some e => (inl (injected e), mkWorld d script)
      | None => let '(r, d') := call (t_limit t) d in (r, mkWorld d' script)
      end
  end.

Definition script_length : M nat := λ w, (length (w_script w), w).

(** * System calls *)

Definition set_nodes (nodes : gmap N Inode) (d : Disk) : Disk :=
  mkDisk (d_dev d) nodes (d_names d) (d_stale d) (d_parent d) (d_next d) (d_clock d) (d_euid d) (d_egid d).
Definition set_names (names : gmap string N) (stale : gmap string (list (option N))) (d : Disk) : Disk :=
  mkDisk (d_dev d) (d_nodes d) names stale (d_parent d) (d_next d) (d_clock d) (d_euid d) (d_egid d).

(** The entries [path] had, newest first, that a crash may bring back. *)
Definition push_stale (path : string) (d : Disk) : gmap string (list (option N)) :=
  <[path := (d_names d !! path) :: default [] (d_stale d !! path)]> (d_stale d).

Definition lookup_path (d : Disk) (path : string) : option (N * Inode) :=
  match d_names d !! path with
  | Some n => match d_nodes d !! n with Some i => Some (n, i) | None => None end
  | None => None
  end.

Lemma lookup_path_Some d path n i :
  lookup_path d path = Some (n, i) ↔ d_names d !! path = Some n ∧ d_nodes d !! n = Some i.
Proof.
  unfold lookup_path. destruct (d_names d !! path) as [m|]; [|naive_solver].
  destruct (d_nodes d !! m) as [j|] eqn:Hj; naive_solver.
Qed.

Definition with_fd {A} (fd : N) (f : Inode → (Z + A) * Disk) (d : Disk) : (Z + A) * Disk :=
  match d_nodes d !! fd with Some i => f i | None => (inl EIO, d) end.

(** [open(path, O_RDONLY | O_NOFOLLOW)]: the descriptor is the inode. *)
Definition sys_open (path : string) : M (Z + N) := sys (λ _ d,
  match lookup_path d path with
  | None => (inl ENOENT, d)
  | Some (n, i) => if decide (i_kind i = Symlink) then (inl ELOOP, d) else (inr n, d)
  end).

(** [open(parent, O_RDONLY | O_DIRECTORY)], and with [O_NOFOLLOW]. *)
Definition sys_open_dir (nofollow : bool) : M (Z + unit) := sys (λ _ d,
  if decide (i_kind (d_parent d) = Directory) then (inr tt, d)
  else if nofollow && bool_decide (i_kind (d_parent d) = Symlink) then (inl ELOOP, d) else (inl ENOENT, d)).

Definition sys_fstat_dir : M (Z + Stat) := sys (λ _ d, (inr (stat_of (d_dev d) 0 (d_parent d)), d)).

Definition sys_fstat (fd : N) : M (Z + Stat) := sys (λ _ d,
  with_fd fd (λ i, (inr (stat_of (d_dev d) fd i), d)) d).

Definition sys_lstat (path : string) : M (Z + Stat) := sys (λ _ d,
  match lookup_path d path with
  | None => (inl ENOENT, d)
  | Some (n, i) => (inr (stat_of (d_dev d) n i), d)
  end).

(** Following links within the directory, at most 40 of them. *)
Fixpoint resolve (fuel : nat) (d : Disk) (path : string) : Z + string :=
  match fuel with
  | 0 => inl ELOOP
  | S fuel =>
      match lookup_path d path with
      | None => inl ENOENT
      | Some (_, i) => if decide (i_kind i = Symlink) then resolve fuel d (i_content i) else inr path
      end
  end.

Definition sys_stat (path : string) : M (Z + Stat) := sys (λ _ d,
  match resolve 40 d path with
  | inl e => (inl e, d)
  | inr name =>
      match lookup_path d name with
      | None => (inl ENOENT, d)
      | Some (n, i) => (inr (stat_of (d_dev d) n i), d)
      end
  end).

(** [std::filesystem::canonical]. *)
Definition sys_canonical (path : string) : M (Z + string) := sys (λ _ d, (resolve 40 d path, d)).

(** [read] and [pread] of at most [size] bytes from [offset]. *)
Definition sys_read (fd : N) (offset size : nat) : M (Z + string) := sys (λ limit d,
  with_fd fd (λ i,
    (inr (String.substring offset
            (match limit with Some k => Nat.min (Nat.max 1 k) size | None => size end) (i_content i)), d)) d).

Definition sys_close : M (Z + unit) := sys (λ _ d, (inr tt, d)).

(** [mkstemp]: a new regular file, mode 0600, under a name not in use; it
    fails when it does not find one. *)
Definition sys_mkstemp (template : string) : M (Z + (N * string)) := sys (λ _ d,
  let n := d_next d in
  let name := template +:+ pretty n in
  match d_names d !! name with
  | Some _ => (inl EEXIST, d)
  | None =>
      (inr (n, name),
       mkDisk (d_dev d)
         (<[n := mkInode Regular "" None 384 (d_euid d) (d_egid d) 1 (d_clock d) (d_clock d)]> (d_nodes d))
         (<[name := n]> (d_names d)) (push_stale name d) (d_parent d) (n + 1)%N
         (d_clock d) (d_euid d) (d_egid d))
  end).

Definition update_fd (fd : N) (f : Inode → Inode) (d : Disk) : (Z + unit) * Disk :=
  with_fd fd (λ i, (inr tt, set_nodes (<[fd := f i]> (d_nodes d)) d)) d.

Definition sys_fchown (fd : N) (uid gid : Z) : M (Z + unit) := sys (λ _ d,
  update_fd fd (λ i, mkInode (i_kind i) (i_content i) (i_saved i) (i_mode i) uid gid (i_nlink i)
                       (i_mtime i) (d_clock d)) d).

Definition sys_fchmod (fd : N) (mode : Z) : M (Z + unit) := sys (λ _ d,
  update_fd fd (λ i, mkInode (i_kind i) (i_content i) (i_saved i) mode (i_uid i) (i_gid i) (i_nlink i)
                       (i_mtime i) (d_clock d)) d).

(** [write] at the end of the file: the number of bytes taken. *)
Definition sys_write (fd : N) (data : string) : M (Z + nat) := sys (λ limit d,
  let count := match limit with Some k => Nat.min k (String.length data) | None => String.length data end in
  with_fd fd (λ i,
    (inr count,
     set_nodes (<[fd := mkInode (i_kind i) (i_content i +:+ String.substring 0 count data) (i_saved i)
                          (i_mode i) (i_uid i) (i_gid i) (i_nlink i) (d_clock d) (d_clock d)]> (d_nodes d)) d)) d).

Definition sys_fsync (fd : N) : M (Z + unit) := sys (λ _ d,
  update_fd fd (λ i, mkInode (i_kind i) (i_content i) (Some (i_content i)) (i_mode i) (i_uid i) (i_gid i)
                       (i_nlink i) (i_mtime i) (i_ctime i)) d).

Definition change_links (n : N) (delta : Z) (nodes : gmap N Inode) : gmap N Inode :=
  alter (λ i, mkInode (i_kind i) (i_content i) (i_saved i) (i_mode i) (i_uid i) (i_gid i)
                (i_nlink i + delta) (i_mtime i) (i_ctime i)) n nodes.

(** [rename(from, to)]: replaces what [to] names. *)
Definition do_rename (from to : string) (d : Disk) : (Z + unit) * Disk :=
  match d_names d !! from with
  | None => (inl ENOENT, d)
  | Some n =>
      let replaced := d_names d !! to in
      if match lookup_path d to with Some (_, i) => bool_decide (i_kind i = Directory) | None => false end
      then (inl EISDIR, d)
      else
        let nodes := match replaced with Some old => change_links old (-1) (d_nodes d) | None => d_nodes d end in
        let stale := <[to := replaced :: default [] (d_stale d !! to)]> (push_stale from d) in
        (inr tt, set_names (<[to := n]> (delete from (d_names d))) stale (set_nodes nodes d))
  end.

Definition sys_rename (from to : string) : M (Z + unit) := sys (λ _ d, do_rename from to d).

(** [renameat2(.., RENAME_NOREPLACE)]. *)
Definition sys_rename_noreplace (from to : string) : M (Z + unit) := sys (λ _ d,
  match d_names d !! to with Some _ => (inl EEXIST, d) | None => do_rename from to d end).

Definition sys_link (from to : string) : M (Z + unit) := sys (λ _ d,
  match d_names d !! from, d_names d !! to with
  | None, _ => (inl ENOENT, d)
  | Some _, Some _ => (inl EEXIST, d)
  | Some n, None =>
      (inr tt, set_names (<[to := n]> (d_names d)) (push_stale to d) (set_nodes (change_links n 1 (d_nodes d)) d))
  end).

Definition sys_unlink (path : string) : M (Z + unit) := sys (λ _ d,
  match d_names d !! path with
  | None => (inl ENOENT, d)
  | Some n =>
      (inr tt, set_names (delete path (d_names d)) (push_stale path d) (set_nodes (change_links n (-1) (d_nodes d)) d))
  end).

(** [fsync] of the directory: its entries as they are now survive a crash. *)
Definition sys_fsync_dir : M (Z + unit) := sys (λ _ d, (inr tt, set_names (d_names d) ∅ d)).

(** * Crashes *)

(** What a path can name after a crash: its entry now, or an entry it had
    since the directory was last synced. *)
Definition crash_entry (d : Disk) (path : string) (e : option N) : Prop :=
  e = d_names d !! path ∨ e ∈ default [] (d_stale d !! path).

(** The content of an inode after a crash: what was synced, or anything when
    nothing was. *)
Definition crash_content (i : Inode) (s : string) : Prop :=
  match i_saved i with Some saved => s = saved | None => True end.

(** * Reasoning about programs

    [triple R P m Q]: from a disk satisfying [P], with other processes acting
    by [R] between the calls and any calls failing, [m] returns an [a] on a
    disk that satisfy [Q]. *)

Definition obeys (R : relation Disk) (w : World) : Prop :=
  Forall (λ t, ∀ d, R d (t_env t d)) (w_script w).

Definition triple (R : relation Disk) {A} (P : Disk → Prop) (m : M A) (Q : A → Disk → Prop) : Prop :=
  ∀ w, obeys R w → P (w_disk w) → obeys R (m w).2 ∧ Q (m w).1 (w_disk (m w).2).

Section triples.
Context (R : relation Disk) `{!Reflexive R}.

Lemma triple_ret {A} (a : A) (P : Disk → Prop) (Q : A → Disk → Prop) :
  (∀ d, P d → Q a d) → triple R P (mret a) Q.
Proof. intros HQ w Hw HP. split; [done|]. by apply HQ. Qed.

Lemma triple_bind {A B} (m : M A) (k : A → M B) P Mid Q :
  triple R P m Mid → (∀ a, triple R (Mid a) (k a) Q) → triple R P (mbind m k) Q.
Proof.
  intros Hm Hk w Hw HP. unfold mbind. destruct (Hm w Hw HP) as [Hw' HMid].
  destruct (m w) as [a w']. by apply Hk.
Qed.

Lemma triple_conseq {A} (m : M A) (P P' : Disk → Prop) (Q Q' : A → Disk → Prop) :
  triple R P' m Q' → (∀ d, P d → P' d) → (∀ a d, Q' a d → Q a d) → triple R P m Q.
Proof. intros Hm HP HQ w Hw H. destruct (Hm w Hw (HP _ H)). split; [done|]. by apply HQ. Qed.

(** The disk a call runs on is the one before it after one step of [R]. *)
Lemma triple_sys {A} (call : option nat → Disk → (Z + A) * Disk) (P : Disk → Prop) :
  triple R P (sys call) (λ r d', ∃ d0 d, P d0 ∧ R d0 d ∧
    ((∃ e, r = inl (injected e) ∧ d' = d) ∨ ∃ limit, call limit d = (r, d'))).
Proof.
  intros [d0 script] Hw HP. unfold sys. simpl in *. destruct script as [|t script]; simpl.
  - destruct (call None d0) as [r d'] eqn:Hc. simpl. split; [done|]. exists d0, d0. split_and!; [done..|]. eauto.
  - apply Forall_cons in Hw as [Ht Hw]. destruct (t_error t) as [e|].
    + simpl. split; [done|]. exists d0, (t_env t d0). split_and!; [done..|]. left. by exists e.
    + destruct (call (t_limit t) (t_env t d0)) as [r d'] eqn:Hc. simpl. split; [done|].
      exists d0, (t_env t d0). split_and!; [done..|]. eauto.
Qed.

Lemma triple_exists {A X} (m : M A) (P : X → Disk → Prop) Q :
  (∀ x, triple R (P x) m Q) → triple R (λ d, ∃ x, P x d) m Q.
Proof. intros Hm w Hw [x HP]. by apply (Hm x). Qed.

Lemma triple_pure {A} (m : M A) (φ : Prop) (P : Disk → Prop) Q :
  (φ → triple R P m Q) → triple R (λ d, φ ∧ P d) m Q.
Proof. intros Hm w Hw [Hφ HP]. by apply Hm. Qed.

Lemma triple_or {A} (m : M A) (P P' : Disk → Prop) Q :
  triple R P m Q → triple R P' m Q → triple R (λ d, P d ∨ P' d) m Q.
Proof. intros H1 H2 w Hw [HP|HP]; auto. Qed.
End triples.

(** * Programs with the disk to themselves

    [runs m d Q]: started on [d], with any calls failing and nobody else
    acting, [m] ends with a result and a disk that satisfy [Q]. *)

Definition runs {A} (m : M A) (d : Disk) (Q : A → Disk → Prop) : Prop := triple eq (λ x, x = d) m Q.

Lemma runs_ret {A} (a : A) d (Q : A → Disk → Prop) : Q a d → runs (mret a) d Q.
Proof. intros HQ. apply triple_ret. by intros ? ->. Qed.

Lemma runs_bind {A B} (m : M A) (k : A → M B) d Mid Q :
  runs m d Mid → (∀ a d', Mid a d' → runs (k a) d' Q) → runs (mbind m k) d Q.
Proof.
  intros Hm Hk. eapply triple_bind; [exact Hm|]. intros a w Hw HMid. by apply (Hk a (w_disk w)).
Qed.

Lemma runs_mono {A} (m : M A) d (Q Q' : A → Disk → Prop) :
  runs m d Q' → (∀ a d', Q' a d' → Q a d') → runs m d Q.
Proof. intros Hm HQ. by eapply triple_conseq; [exact Hm| |]. Qed.

Lemma runs_sys {A} (call : option nat → Disk → (Z + A) * Disk) d (Q : Z + A → Disk → Prop) :
  (∀ e, Q (inl (injected e)) d) → (∀ limit, Q (call limit d).1 (call limit d).2) → runs (sys call) d Q.
Proof.
  intros Herr Hcall. eapply (triple_conseq _ _ _ (λ x, x = d)); [by apply triple_sys|done|]. simpl.
  intros r d' (d0 & d1 & -> & -> & [(e & -> & ->)|(limit & Hc)]); [done|].
  specialize (Hcall limit). by rewrite Hc in Hcall.
Qed.

Lemma runs_and {A} (m : M A) d (Q Q' : A → Disk → Prop) :
  runs m d Q → runs m d Q' → runs m d (λ a d', Q a d' ∧ Q' a d').
Proof. intros H1 H2 w Hw HP. destruct (H1 w Hw HP), (H2 w Hw HP). auto. Qed.

Lemma runs_script_length d (Q : nat → Disk → Prop) : (∀ n, Q n d) → runs script_length d Q.
Proof. intros HQ w Hw Hd. split; [done|]. simpl. rewrite Hd. apply HQ. Qed.

(** What a quiet run computes, on a given script of faults. *)
Lemma runs_elim {A} (m : M A) d Q w :
  runs m d Q → w_disk w = d → obeys eq w → Q (m w).1 (w_disk (m w).2).
Proof. intros Hm Hd Hw. by apply (Hm w Hw Hd). Qed.

(** A program that only looks. *)
Definition looks {A} (m : M A) (φ : Disk → A → Prop) : Prop := ∀ d, runs m d (λ a d', d' = d ∧ φ d a).

Lemma runs_bind_looks {A B} (m : M A) (k : A → M B) φ d Q :
  looks m φ → (∀ a, φ d a → runs (k a) d Q) → runs (mbind m k) d Q.
Proof. intros Hm Hk. eapply runs_bind; [apply Hm|]. intros a d' [-> Ha]. by apply Hk. Qed.

Lemma looks_ret {A} (a : A) φ : (∀ d, φ d a) → looks (mret a) φ.
Proof. intros Hφ d. by apply runs_ret. Qed.

Lemma looks_bind {A B} (m : M A) (k : A → M B) φ ψ :
  looks m φ → (∀ a d, φ d a → runs (k a) d (λ b d', d' = d ∧ ψ d b)) → looks (mbind m k) ψ.
Proof. intros Hm Hk d. eapply runs_bind_looks; [exact Hm|]. auto. Qed.

Lemma looks_sys {A} (call : option nat → Disk → (Z + A) * Disk) φ :
  (∀ limit d, (call limit d).2 = d) → (∀ d e, φ d (inl (injected e))) → (∀ limit d, φ d (call limit d).1) →
  looks (sys call) φ.
Proof. intros Hd He Hφ d. apply runs_sys; [auto|]. intros limit. by rewrite Hd. Qed.

Lemma looks_close : looks sys_close (λ _ _, True).
Proof. by apply looks_sys. Qed.

Lemma injected_not e : injected e ≠ ENOENT ∧ injected e ≠ EEXIST ∧ injected e ≠ ELOOP.
Proof. unfold injected, ENOENT, EEXIST, ELOOP, EIO. repeat case_bool_decide; simpl; lia. Qed.

Lemma looks_open path : looks (sys_open path) (λ d r,
  match r with
  | inr n => ∃ i, lookup_path d path = Some (n, i) ∧ i_kind i ≠ Symlink
  | inl e => e = ENOENT → lookup_path d path = None
  end).
Proof.
  apply looks_sys.
  - intros _ d. destruct (lookup_path d path) as [[n i]|]; [|done]. by destruct (decide _).
  - intros d e He. by destruct (injected_not e).
  - intros _ d. destruct (lookup_path d path) as [[n' i]|]; [|done]. destruct (decide _); [done|].
    simpl. eauto.
Qed.

Lemma looks_fstat fd : looks (sys_fstat fd) (λ d r,
  match r with inr st => ∃ i, d_nodes d !! fd = Some i ∧ st = stat_of (d_dev d) fd i | inl _ => True end).
Proof.
  apply looks_sys.
  - intros _ d. unfold with_fd. by destruct (d_nodes d !! fd).
  - done.
  - intros _ d. unfold with_fd. destruct (d_nodes d !! fd) eqn:Hi; simpl; eauto.
Qed.

Lemma looks_lstat path : looks (sys_lstat path) (λ d r,
  match r with
  | inr st => ∃ n i, lookup_path d path = Some (n, i) ∧ st = stat_of (d_dev d) n i
  | inl e => e = ENOENT → lookup_path d path = None
  end).
Proof.
  apply looks_sys.
  - intros _ d. by destruct (lookup_path d path) as [[n i]|].
  - intros d e He. by destruct (injected_not e).
  - intros _ d. destruct (lookup_path d path) as [[n i]|] eqn:Hl; simpl; [|done]. eauto.
Qed.

Lemma looks_stat path : looks (sys_stat path) (λ _ _, True).
Proof.
  apply looks_sys; [|done|done]. intros _ d. destruct (resolve 40 d path) as [e|name]; [done|].
  by destruct (lookup_path d name) as [[n i]|].
Qed.

Lemma looks_open_dir nofollow : looks (sys_open_dir nofollow) (λ _ _, True).
Proof. apply looks_sys; [|done|done]. intros _ d. destruct (decide _); [done|]. by destruct (_ && _). Qed.

Lemma looks_canonical path : looks (sys_canonical path) (λ _ _, True).
Proof. by apply looks_sys. Qed.

(** A read returns a non-empty piece of the rest of the file, or its end. *)
Lemma looks_read fd offset size : 0 < size → looks (sys_read fd offset size) (λ d r,
  match r with
  | inr s => ∃ i k, d_nodes d !! fd = Some i ∧ 0 < k ≤ size ∧ s = String.substring offset k (i_content i)
  | inl _ => True
  end).
Proof.
  intros Hs. apply looks_sys.
  - intros limit d. unfold with_fd. by destruct (d_nodes d !! fd).
  - done.
  - intros limit d. unfold with_fd. destruct (d_nodes d !! fd) as [i|] eqn:Hi; simpl; [|done].
    exists i, (match limit with Some k => Nat.min (Nat.max 1 k) size | None => size end).
    split; [done|]. split; [destruct limit; lia|done].
Qed.

(** * Looking at a disk others change *)

Section watching.
Context (R : relation Disk) `{!PreOrder R}.

Definition stable (P : Disk → Prop) : Prop := ∀ d d', R d d' → P d → P d'.

Lemma triple_look {A} (call : option nat → Disk → (Z + A) * Disk) (P : Disk → Prop) :
  stable P → (∀ limit d, (call limit d).2 = d) →
  triple R P (sys call) (λ r d, P d ∧ ((∃ e, r = inl (injected e)) ∨ ∃ limit, r = (call limit d).1)).
Proof.
  intros HP Hc. eapply triple_conseq; [apply triple_sys, _|done|]. simpl.
  intros r d' (d0 & d & H0 & HR & [(e & -> & ->)|(limit & Hcall)]).
  - split; [by eapply HP|]. left. by exists e.
  - specialize (Hc limit d). rewrite Hcall in Hc. simpl in Hc. subst d'. split; [by eapply HP|].
    right. exists limit. by rewrite Hcall.
Qed.

Lemma triple_close (P : Disk → Prop) : stable P → triple R P sys_close (λ _ d, P d).
Proof. intros HP. eapply triple_conseq; [by apply triple_look|done|]. by intros ? ? [? _]. Qed.

Lemma triple_script_length (P : Disk → Prop) : triple R P script_length (λ _ d, P d).
Proof. intros w Hw HP. by split. Qed.

Lemma triple_lift {A} (m : M A) (P : Disk → Prop) (φ : Prop) Q :
  triple R P m Q → triple R (λ d, P d ∧ φ) m (λ a d, Q a d ∧ φ).
Proof. intros Hm w Hw [HP Hφ]. destruct (Hm w Hw HP). auto. Qed.
End watching.
