(* ===== verification/AtomicWriter.v ===== *)
(** Conditional atomic replacement and removal of a file
    (fic-common/fic-core: fs/AtomicFileWriter).

    The functions are the source's, one system call after another; the test
    hooks and the error texts are left out, and the paths are names of the one
    directory of [FileModel], so that [absolute] is the identity and the parent
    of a path is never empty. *)

From S2P Require Import Prelude FileModel.
Open Scope string_scope.
Open Scope nat_scope.
Open Scope file_scope.

Inductive FileMetadataPolicy := PreserveExisting | EnforceProvided.
#[export] Instance FileMetadataPolicy_eq_dec : EqDecision FileMetadataPolicy.
Proof. solve_decision. Defined.

Record AtomicTargetIdentity := mkIdentity { device : N; inode : N }.
#[export] Instance AtomicTargetIdentity_eq_dec : EqDecision AtomicTargetIdentity.
Proof. solve_decision. Defined.

Record AtomicTargetState := mkTarget {
  identity : AtomicTargetIdentity;
  content : string;
  mode : Z;
  owner : Z;
  group : Z
}.
#[export] Instance AtomicTargetState_eq_dec : EqDecision AtomicTargetState.
Proof. solve_decision. Defined.

Record AtomicWriteOptions := mkOptions {
  createIfMissing : bool;
  rejectSymlink : bool;
  exclusiveCreate : bool;
  metadataPolicy : FileMetadataPolicy;
  fileMode : option Z;
  fileOwner : option Z;
  fileGroup : option Z;
  expectedTargetIdentity : option AtomicTargetIdentity;
  expectedTargetState : option AtomicTargetState;
  (** The admission callback: [None] when it throws. *)
  beforePublish : option (AtomicTargetState → M (option bool))
}.

Record AtomicWriteResult := mkWriteResult {
  installed : bool;
  durabilityConfirmed : bool;
  preconditionFailed : bool;
  installedTargetState : option AtomicTargetState
}.
Definition no_write : AtomicWriteResult := mkWriteResult false false false None.
Definition precondition_failure : AtomicWriteResult := mkWriteResult false false true None.

Record AtomicRemoveResult := mkRemoveResult {
  removed : bool;
  remove_durabilityConfirmed : bool;
  remove_preconditionFailed : bool
}.

Definition ok {A} (r : Z + A) : bool := match r with inl _ => false | inr _ => true end.

(** * Reading a whole file *)

(** One turn of [while (true) { count = read(fd, buffer, 8192); ... }]. *)
Inductive read_turn := TurnEnd | TurnError | TurnAgain | TurnBytes (s : string).
Definition read_once (fd : N) (offset : nat) : M read_turn :=
  let* r := sys_read fd offset 8192 in
  mret (match r with
        | inl e => if decide (e = EINTR) then TurnAgain else TurnError
        | inr EmptyString => TurnEnd
        | inr s => TurnBytes s
        end).

Definition fd_length (fd : N) : M nat := λ w,
  (match d_nodes (w_disk w) !! fd with Some i => String.length (i_content i) | None => 0 end, w).

(** The loop once the environment has gone quiet: every turn is the end or
    brings bytes, so the file's length bounds the turns. *)
Fixpoint read_rest (turns : nat) (fd : N) (acc : string) : M (option string) :=
  match turns with
  | 0 => mret None
  | S turns =>
      let* t := read_once fd (String.length acc) in
      match t with
      | TurnEnd => mret (Some acc)
      | TurnError => mret None
      | TurnAgain => read_rest turns fd acc
      | TurnBytes s => read_rest turns fd (acc +:+ s)
      end
  end.

(** The loop while the script lasts: each turn uses one of its entries. *)
Fixpoint read_scripted (ticks : nat) (fd : N) (acc : string) : M (option string) :=
  match ticks with
  | 0 => let* n := fd_length fd in read_rest (S n) fd acc
  | S ticks =>
      let* t := read_once fd (String.length acc) in
      match t with
      | TurnEnd => mret (Some acc)
      | TurnError => mret None
      | TurnAgain => read_scripted ticks fd acc
      | TurnBytes s => read_scripted ticks fd (acc +:+ s)
      end
  end.

Definition read_all (fd : N) : M (option string) :=
  let* ticks := script_length in read_scripted ticks fd "".

(** * Preconditions *)

Definition matchesExpectedIdentity (path : string) (options : AtomicWriteOptions) : M bool :=
  match expectedTargetIdentity options with
  | None => mret true
  | Some expected =>
      let* current := sys_lstat path in
      mret (match current with
            | inl _ => false
            | inr st => bool_decide (st_kind st = Regular) &&
                bool_decide (st_dev st = device expected) && bool_decide (st_ino st = inode expected)
            end)
  end.

Definition stat_matches (st : Stat) (expected : AtomicTargetState) : bool :=
  bool_decide (st_kind st = Regular) &&
  bool_decide (st_dev st = device (identity expected)) && bool_decide (st_ino st = inode (identity expected)) &&
  bool_decide (st_mode st = mode expected) && bool_decide (st_uid st = owner expected) &&
  bool_decide (st_gid st = group expected).

(** The comparing loop of [matchesExpectedState]; a turn ends it, meets an
    interrupted call, or consumes bytes of the expected content. *)
Fixpoint compare_loop (turns : nat) (fd : N) (offset : nat) (expected : string) : M (option nat) :=
  match turns with
  | 0 => mret None
  | S turns =>
      let* t := read_once fd offset in
      match t with
      | TurnEnd => mret (Some offset)
      | TurnError => mret None
      | TurnAgain => compare_loop turns fd offset expected
      | TurnBytes s =>
          let size := String.length s in
          if (String.length expected <? offset + size)%nat ||
             negb (String.eqb (String.substring offset size expected) s)
          then mret None
          else compare_loop turns fd (offset + size) expected
      end
  end.

Definition matchesExpectedState (path : string) (options : AtomicWriteOptions) : M bool :=
  match expectedTargetState options with
  | None => mret true
  | Some expected =>
      let* descriptor := sys_open path in
      match descriptor with
      | inl _ => mret false
      | inr fd =>
          let* current := sys_fstat fd in
          match current with
          | inl _ => let* _ := sys_close in mret false
          | inr st =>
              if negb (stat_matches st expected) then let* _ := sys_close in mret false
              else
                let* ticks := script_length in
                let* offset := compare_loop (ticks + S (S (String.length (content expected)))) fd 0 (content expected) in
                match offset with
                | None => let* _ := sys_close in mret false
                | Some n =>
                    let* closed := sys_close in
                    mret (ok closed && (n =? String.length (content expected))%nat)
                end
          end
      end
  end.

Definition matchesExpectedTarget (path : string) (options : AtomicWriteOptions) : M bool :=
  let* same := matchesExpectedIdentity path options in
  if negb same then mret false else matchesExpectedState path options.

(** * Writing *)

(** [writeAll]: a turn is interrupted or takes bytes of the data. *)
Fixpoint writeAll_loop (turns : nat) (fd : N) (data : string) : M bool :=
  match data with
  | EmptyString => mret true
  | _ =>
      match turns with
      | 0 => mret false
      | S turns =>
          let* written := sys_write fd data in
          match written with
          | inl e => if decide (e = EINTR) then writeAll_loop turns fd data else mret false
          | inr 0 => mret false
          | inr n => writeAll_loop turns fd (String.substring n (String.length data - n) data)
          end
      end
  end.

Definition writeAll (fd : N) (data : string) : M bool :=
  let* ticks := script_length in writeAll_loop (ticks + String.length data) fd data.

Definition cleanup (open : bool) (temp : string) : M unit :=
  let* _ := (if open then sys_close else mret (inr tt)) in
  let* _ := sys_unlink temp in
  mret tt.

(** The [errno] of the failing call, or success. *)
Definition installTempFile (temp target : string) (exclusive : bool) : M (Z + unit) :=
  if negb exclusive then sys_rename temp target
  else
    let* r := sys_rename_noreplace temp target in
    match r with
    | inr _ => mret (inr tt)
    | inl e =>
        if bool_decide (e ≠ ENOSYS) && bool_decide (e ≠ EINVAL) then mret (inl e)
        else
          let* linked := sys_link temp target in
          match linked with
          | inl e => mret (inl e)
          | inr _ => sys_unlink temp
          end
    end.

Definition fsyncParentDirectory : M bool :=
  let* dir := sys_open_dir false in
  match dir with
  | inl _ => mret false
  | inr _ =>
      let* synced := sys_fsync_dir in
      let* _ := sys_close in
      mret (ok synced)
  end.

Definition target_of_stat (st : Stat) (text : string) : AtomicTargetState :=
  mkTarget (mkIdentity (st_dev st) (st_ino st)) text (st_mode st) (st_uid st) (st_gid st).

(** The checks before anything is written: the target's path and its [stat]. *)
Definition write_checks (path : string) (options : AtomicWriteOptions)
  : M (AtomicWriteResult + (string * option Stat)) :=
  let* link := sys_lstat path in
  let targetExists := ok link in
  if match link with inl e => bool_decide (e ≠ ENOENT) | inr _ => false end then mret (inl no_write)
  else if negb targetExists && negb (createIfMissing options) then mret (inl no_write)
  else if targetExists && exclusiveCreate options then mret (inl no_write)
  else if rejectSymlink options && match link with inr st => bool_decide (st_kind st = Symlink) | inl _ => false end
  then mret (inl no_write)
  else
    let* matched := matchesExpectedTarget path options in
    if negb matched then mret (inl precondition_failure)
    else
      let* resolved := (if targetExists && negb (rejectSymlink options) then sys_canonical path else mret (inr path)) in
      match resolved with
      | inl _ => mret (inl no_write)
      | inr targetPath =>
          let* target := sys_stat targetPath in
          match target with
          | inl e =>
              if bool_decide (e ≠ ENOENT) then mret (inl no_write)
              else if negb (createIfMissing options) then mret (inl no_write)
              else mret (inr (targetPath, None))
          | inr st =>
              if bool_decide (st_kind st ≠ Regular) then mret (inl no_write)
              else mret (inr (targetPath, Some st))
          end
      end.

(** Owner, group and mode of the new file, given the process's identity. *)
Definition wanted_metadata (options : AtomicWriteOptions) (target : option Stat) (euid egid : Z) : Z * Z * Z :=
  let preserve := match target with
                  | Some _ => bool_decide (metadataPolicy options = PreserveExisting)
                  | None => false end in
  match target with
  | Some st =>
      if preserve then (st_uid st, st_gid st, st_mode st)
      else (default (st_uid st) (fileOwner options), default (st_gid st) (fileGroup options),
            default (st_mode st) (fileMode options))
  | None => (default euid (fileOwner options), default egid (fileGroup options), default 384%Z (fileMode options))
  end.

Definition process_ids : M (Z * Z) := λ w, ((d_euid (w_disk w), d_egid (w_disk w)), w).

(** The temporary file: created, given its metadata, written, synced, shown to
    the admission callback and closed; [None] when any of it failed and the
    temporary was cleaned up. *)
Definition prepare_temp (targetPath text : string) (options : AtomicWriteOptions) (target : option Stat)
  : M (option (string * Stat)) :=
  let* made := sys_mkstemp ("." +:+ targetPath +:+ ".tmp.") in
  match made with
  | inl _ => mret None
  | inr (fd, temp) =>
      let* ids := process_ids in
      let '(uid, gid, md) := wanted_metadata options target ids.1 ids.2 in
      let* initial := sys_fstat fd in
      match initial with
      | inl _ => let* _ := cleanup true temp in mret None
      | inr st =>
          let* owned := (if bool_decide (st_uid st ≠ uid) || bool_decide (st_gid st ≠ gid)
                         then sys_fchown fd uid gid else mret (inr tt)) in
          if negb (ok owned) then let* _ := cleanup true temp in mret None
          else
            let* moded := sys_fchmod fd md in
            if negb (ok moded) then let* _ := cleanup true temp in mret None
            else
              let* written := writeAll fd text in
              if negb written then let* _ := cleanup true temp in mret None
              else
                let* synced := sys_fsync fd in
                if negb (ok synced) then let* _ := cleanup true temp in mret None
                else
                  let* final := sys_fstat fd in
                  match final with
                  | inl _ => let* _ := cleanup true temp in mret None
                  | inr installedStat =>
                      let* allowed := match beforePublish options with
                                      | None => mret (Some true)
                                      | Some admission => admission (target_of_stat installedStat text)
                                      end in
                      if negb (bool_decide (allowed = Some true)) then let* _ := cleanup true temp in mret None
                      else
                        let* closed := sys_close in
                        if negb (ok closed) then let* _ := cleanup false temp in mret None
                        else mret (Some (temp, installedStat))
                  end
      end
  end.

(** The last proofs, the rename and the directory barrier. *)
Definition publish (targetPath text : string) (options : AtomicWriteOptions) (temp : string) (st : Stat)
  : M (bool * AtomicWriteResult) :=
  let* matched := matchesExpectedTarget targetPath options in
  if negb matched then let* _ := cleanup false temp in mret (false, precondition_failure)
  else
    let* again := matchesExpectedTarget targetPath options in
    if negb again then let* _ := cleanup false temp in mret (false, precondition_failure)
    else
      let* done := installTempFile temp targetPath (exclusiveCreate options) in
      match done with
      | inl e =>
          let* _ := cleanup false temp in
          mret (false, if exclusiveCreate options && bool_decide (e = EEXIST)
                       then precondition_failure else no_write)
      | inr _ =>
          let* synced := fsyncParentDirectory in
          mret (synced, mkWriteResult true synced false (Some (target_of_stat st text)))
      end.

Definition writeWithResult (path text : string) (options : AtomicWriteOptions) : M (bool * AtomicWriteResult) :=
  let* checked := write_checks path options in
  match checked with
  | inl r => mret (false, r)
  | inr (targetPath, target) =>
      let* prepared := prepare_temp targetPath text options target in
      match prepared with
      | None => mret (false, no_write)
      | Some (temp, st) => publish targetPath text options temp st
      end
  end.

Definition write (path text : string) (options : AtomicWriteOptions) : M bool :=
  let* r := writeWithResult path text options in mret r.1.

(** * Durability barriers *)

Definition state_options (expected : AtomicTargetState) : AtomicWriteOptions :=
  mkOptions false false false PreserveExisting None None None None (Some expected) None.

Definition targetStateMatches (path : string) (expected : AtomicTargetState) : M bool :=
  matchesExpectedTarget path (state_options expected).

Definition fsyncParentDirectoryForPath (path : string) : M bool := fsyncParentDirectory.

Definition ensureTargetDurable (path : string) : M bool :=
  let* info := sys_lstat path in
  match info with
  | inl _ => mret false
  | inr st =>
      if bool_decide (st_kind st ≠ Regular) then mret false
      else
        let* resolved := sys_canonical path in
        match resolved with
        | inl _ => mret false
        | inr _ => fsyncParentDirectory
        end
  end.

Definition ensureTargetDurableIfCurrentState (path : string) (expected : AtomicTargetState) : M bool :=
  let* matched := targetStateMatches path expected in
  if negb matched then mret false else ensureTargetDurable path.

Definition ensureTargetAbsentDurableIfCurrentState (path : string) : M bool :=
  let* before := sys_lstat path in
  if ok before then mret false
  else if match before with inl e => bool_decide (e ≠ ENOENT) | inr _ => false end then mret false
  else
    let* synced := fsyncParentDirectoryForPath path in
    if negb synced then mret false
    else
      let* after := sys_lstat path in
      mret (match after with inr _ => false | inl e => bool_decide (e = ENOENT) end).

Definition captureTargetState (path : string) : M (option AtomicTargetState) :=
  let* descriptor := sys_open path in
  match descriptor with
  | inl _ => mret None
  | inr fd =>
      let* info := sys_fstat fd in
      match info with
      | inl _ => let* _ := sys_close in mret None
      | inr st =>
          if bool_decide (st_kind st ≠ Regular) then let* _ := sys_close in mret None
          else
            let* text := read_all fd in
            match text with
            | None => let* _ := sys_close in mret None
            | Some text =>
                let* closed := sys_close in
                mret (if ok closed then Some (target_of_stat st text) else None)
            end
      end
  end.

(** * Conditional removal *)

Definition kept : AtomicRemoveResult := mkRemoveResult false false false.
Definition replaced : AtomicRemoveResult := mkRemoveResult false false true.

Definition metadata_matches (st : Stat) (expected : AtomicTargetState) : bool :=
  bool_decide (st_mode st = mode expected) && bool_decide (st_uid st = owner expected) &&
  bool_decide (st_gid st = group expected).

Definition same_object (a b : Stat) : bool :=
  bool_decide (st_kind a = Regular) && bool_decide (st_dev a = st_dev b) && bool_decide (st_ino a = st_ino b) &&
  bool_decide (st_mode a = st_mode b) && bool_decide (st_uid a = st_uid b) && bool_decide (st_gid a = st_gid b).

Definition close_both : M unit := let* _ := sys_close in let* _ := sys_close in mret tt.

(** The final proof and the unlink, with the file and the directory open. *)
Definition remove_proven (path : string) (opened : Stat) : M (bool * AtomicRemoveResult) :=
  let* final := sys_lstat path in
  match final with
  | inl _ => let* _ := close_both in mret (true, replaced)
  | inr st =>
      if negb (same_object st opened) then let* _ := close_both in mret (true, replaced)
      else
        let* unlinked := sys_unlink path in
        let* _ := close_both in
        if negb (ok unlinked) then mret (false, kept)
        else
          let* synced := fsyncParentDirectoryForPath path in
          mret (synced, mkRemoveResult true synced false)
  end.

Definition removeIfCurrentState (path : string) (expected : AtomicTargetState) : M (bool * AtomicRemoveResult) :=
  if String.eqb path "" || String.eqb path "." || String.eqb path ".." then mret (false, kept)
  else
    let* dir := sys_open_dir false in
    match dir with
    | inl _ => mret (false, kept)
    | inr _ =>
        let* info := sys_lstat path in
        match info with
        | inl e =>
            let* _ := sys_close in
            mret (if decide (e = ENOENT) then (true, replaced) else (false, kept))
        | inr st =>
            if bool_decide (st_kind st ≠ Regular) then let* _ := sys_close in mret (true, replaced)
            else if negb (bool_decide (st_dev st = device (identity expected)) &&
                          bool_decide (st_ino st = inode (identity expected)))
            then let* _ := sys_close in mret (true, replaced)
            else if negb (metadata_matches st expected) then let* _ := sys_close in mret (true, replaced)
            else
              let* file := sys_open path in
              match file with
              | inl _ => let* _ := sys_close in mret (false, kept)
              | inr fd =>
                  let* opened := sys_fstat fd in
                  match opened with
                  | inl _ => let* _ := close_both in mret (false, kept)
                  | inr ost =>
                      if negb (stat_matches ost expected) then let* _ := close_both in mret (true, replaced)
                      else
                        let* text := read_all fd in
                        match text with
                        | None => let* _ := close_both in mret (false, kept)
                        | Some text =>
                            if negb (String.eqb text (content expected))
                            then let* _ := close_both in mret (true, replaced)
                            else remove_proven path ost
                        end
                  end
              end
        end
    end.
