(* ===== verification/AtomicFacts.v ===== *)
(** What the atomic writer guarantees when nobody else touches the directory,
    whichever of its system calls fail. *)

From stdpp Require Import pretty.
From S2P Require Import Prelude FileModel AtomicWriter.
Open Scope string_scope.
Open Scope nat_scope.
Open Scope file_scope.

(** The file at [path] is the regular file that [s] describes. *)
Definition object_at (d : Disk) (path : string) (s : AtomicTargetState) : Prop :=
  ∃ n i, lookup_path d path = Some (n, i) ∧ i_kind i = Regular ∧
    s = target_of_stat (stat_of (d_dev d) n i) (i_content i).

(** * The proofs by reading *)

Lemma looks_read_once fd offset : looks (read_once fd offset) (λ d t,
  match t with
  | TurnEnd => ∃ i k, d_nodes d !! fd = Some i ∧ String.substring offset (S k) (i_content i) = ""
  | TurnBytes s => s ≠ "" ∧ ∃ i k, d_nodes d !! fd = Some i ∧ s = String.substring offset k (i_content i)
  | _ => True
  end).
Proof.
  eapply looks_bind; [apply looks_read; by apply Nat.ltb_lt; vm_compute|].
  intros [e|s] d Hr; apply runs_ret; split; try done.
  - by destruct (decide (e = EINTR)).
  - destruct Hr as (i & k & Hi & Hk & ->). destruct (String.substring offset k (i_content i)) eqn:Hs.
    + exists i, (k - 1). split; [done|]. by replace (S (k - 1)) with k by lia.
    + split; [done|]. exists i, k. by rewrite Hs.
Qed.

Section static_file.
Context (d : Disk) (fd : N) (i : Inode).
Hypothesis Hfd : d_nodes d !! fd = Some i.

(** What a turn of a reading loop says of the file, after [a] was read. *)
Lemma turn_end a rest : i_content i = a +:+ rest →
  (∃ i' k, d_nodes d !! fd = Some i' ∧ String.substring (String.length a) (S k) (i_content i') = "") →
  i_content i = a.
Proof.
  intros Hc (i' & k & Hi' & Hs). assert (i' = i) as -> by congruence. rewrite Hc, substring_skip in Hs.
  apply substring_front_nil in Hs as ->. by rewrite Hc, string_app_nil_r.
Qed.

Lemma turn_bytes a rest s : i_content i = a +:+ rest →
  (s ≠ "" ∧ ∃ i' k, d_nodes d !! fd = Some i' ∧ s = String.substring (String.length a) k (i_content i')) →
  ∃ tail, i_content i = (a +:+ s) +:+ tail.
Proof.
  intros Hc (_ & i' & k & Hi' & Hs). assert (i' = i) as -> by congruence. rewrite Hc, substring_skip in Hs.
  destruct (substring_front k rest) as [tail Htail]. rewrite <-Hs in Htail. exists tail.
  by rewrite Hc, Htail, string_app_assoc.
Qed.

Lemma compare_loop_spec turns a rest expected :
  i_content i = a +:+ rest → (∃ rest', expected = a +:+ rest') →
  runs (compare_loop turns fd (String.length a) expected) d (λ r d', d' = d ∧
    ∀ n, r = Some n → n = String.length (i_content i) ∧ ∃ rest', expected = i_content i +:+ rest').
Proof.
  revert a rest. induction turns as [|turns IH]; intros a rest Hc [rest' He]; simpl; [by apply runs_ret|].
  eapply runs_bind_looks; [apply looks_read_once|]. intros [| | |s] Ht; simpl.
  - apply (turn_end _ _ Hc) in Ht. apply runs_ret. split; [done|]. intros n [= <-]. rewrite Ht. eauto.
  - by apply runs_ret.
  - eapply IH; eauto.
  - destruct (turn_bytes _ _ _ Hc Ht) as [tail Htail].
    destruct (_ || _) eqn:Hbad; [by apply runs_ret|]. apply orb_false_iff in Hbad as [Hlen Heq].
    apply negb_false_iff, String.eqb_eq in Heq. rewrite He, substring_skip in Heq.
    destruct (substring_front (String.length s) rest') as [tail' Htail']. rewrite Heq in Htail'.
    rewrite <-string_length_app. apply (IH (a +:+ s) tail); [done|].
    exists tail'. by rewrite He, Htail', string_app_assoc.
Qed.

Lemma read_rest_spec turns a rest :
  i_content i = a +:+ rest →
  runs (read_rest turns fd a) d (λ r d', d' = d ∧ ∀ s, r = Some s → s = i_content i).
Proof.
  revert a rest. induction turns as [|turns IH]; intros a rest Hc; cbn [read_rest]; [by apply runs_ret|].
  eapply runs_bind_looks; [apply looks_read_once|]. intros [| | |s] Ht.
  - apply (turn_end _ _ Hc) in Ht. apply runs_ret. split; [done|]. by intros s [= <-].
  - by apply runs_ret.
  - by eapply IH.
  - destruct (turn_bytes _ _ _ Hc Ht) as [tail Htail]. by eapply IH.
Qed.

Lemma read_scripted_spec ticks a rest :
  i_content i = a +:+ rest →
  runs (read_scripted ticks fd a) d (λ r d', d' = d ∧ ∀ s, r = Some s → s = i_content i).
Proof.
  revert a rest. induction ticks as [|ticks IH]; intros a rest Hc; cbn [read_scripted].
  { eapply (runs_bind _ _ _ (λ _ d', d' = d)); [by intros w Hw Hd|].
    intros n d' ->. by eapply read_rest_spec. }
  eapply runs_bind_looks; [apply looks_read_once|]. intros [| | |s] Ht.
  - apply (turn_end _ _ Hc) in Ht. apply runs_ret. split; [done|]. by intros s [= <-].
  - by apply runs_ret.
  - by eapply IH.
  - destruct (turn_bytes _ _ _ Hc Ht) as [tail Htail]. by eapply IH.
Qed.

Lemma read_all_spec : runs (read_all fd) d (λ r d', d' = d ∧ ∀ s, r = Some s → s = i_content i).
Proof.
  eapply (runs_bind _ _ _ (λ _ d', d' = d)); [by apply runs_script_length|].
  intros n d' ->. by eapply (read_scripted_spec n "").
Qed.
End static_file.

Lemma stat_matches_spec dev n i expected :
  stat_matches (stat_of dev n i) expected = true → i_content i = content expected →
  i_kind i = Regular ∧ expected = target_of_stat (stat_of dev n i) (i_content i).
Proof.
  unfold stat_matches. rewrite !andb_true_iff, !bool_decide_eq_true. simpl. intros (((((Hk & Hd) & Hn) & Hm) & Ho) & Hg) Hc.
  split; [done|]. destruct expected as [[dv nd] c m o g]. simpl in *. unfold target_of_stat. simpl. congruence.
Qed.

Lemma looks_matches_state path options : looks (matchesExpectedState path options) (λ d b,
  b = true → ∀ s, expectedTargetState options = Some s → object_at d path s).
Proof.
  intros d. unfold matchesExpectedState. destruct (expectedTargetState options) as [expected|]; [|by apply runs_ret].
  eapply runs_bind_looks; [apply looks_open|]. intros [e|fd] Hfd; [by apply runs_ret|].
  destruct Hfd as (i & Hl & Hk). eapply runs_bind_looks; [apply looks_fstat|].
  intros [e|st] Hst; [eapply runs_bind_looks; [apply looks_close|]; intros; by apply runs_ret|].
  destruct Hst as (i' & Hi & ->).
  apply lookup_path_Some in Hl as Hl2. assert (i' = i) as -> by (destruct Hl2; congruence).
  destruct (stat_matches _ expected) eqn:Hm; simpl.
  2: { eapply runs_bind_looks; [apply looks_close|]. intros. by apply runs_ret. }
  eapply (runs_bind _ _ _ (λ _ d', d' = d)); [by apply runs_script_length|]. intros n d' ->.
  eapply runs_bind; [by apply (compare_loop_spec d fd i Hi _ "" (i_content i)); [|exists (content expected)]|].
  intros [k|] d' [-> Hcmp]; (eapply runs_bind_looks; [apply looks_close|]; intros closed _; apply runs_ret; split; [done|]).
  - intros [_ Hk']%andb_true_iff s [= <-]. apply Nat.eqb_eq in Hk'. destruct (Hcmp k eq_refl) as (-> & rest & He).
    assert (rest = "") as ->.
    { rewrite He, string_length_app in Hk'. destruct rest; simpl in *; [done|lia]. }
    rewrite string_app_nil_r in He. destruct (stat_matches_spec _ _ _ _ Hm (eq_sym He)) as [Hreg ->].
    by exists fd, i.
  - done.
Qed.

Lemma looks_matches_target path options : looks (matchesExpectedTarget path options) (λ d b,
  b = true → ∀ s, expectedTargetState options = Some s → object_at d path s).
Proof.
  intros d. unfold matchesExpectedTarget, matchesExpectedIdentity.
  eapply (runs_bind _ _ _ (λ _ d', d' = d)).
  - destruct (expectedTargetIdentity options); [|by apply runs_ret].
    eapply runs_bind_looks; [apply looks_lstat|]. intros. by apply runs_ret.
  - intros same d' ->. destruct same; simpl; [apply looks_matches_state|by apply runs_ret].
Qed.

(** * The disk outside the writer's temporary file *)

(** Names beginning with a dot are the writer's temporaries. *)
Definition visible (p : string) : Prop := String.get 0 p ≠ Some "."%char.

(** Inode numbers from [d_next] on are unused. *)
Definition wf (d : Disk) : Prop := ∀ n, (d_next d ≤ n)%N →
  d_nodes d !! n = None ∧ (∀ p, d_names d !! p ≠ Some n) ∧
  ∀ p l, d_stale d !! p = Some l → Some n ∉ l.

(** [d] differs from [d0] only in files [d0] did not have, under hidden names. *)
Record aside (d0 d : Disk) : Prop := {
  as_names : ∀ p, visible p → d_names d !! p = d_names d0 !! p;
  as_stale : ∀ p, visible p → d_stale d !! p = d_stale d0 !! p;
  as_nodes : ∀ n, (n < d_next d0)%N → d_nodes d !! n = d_nodes d0 !! n;
  as_next : (d_next d0 ≤ d_next d)%N;
  as_same : d_dev d = d_dev d0 ∧ d_parent d = d_parent d0 ∧ d_euid d = d_euid d0 ∧ d_egid d = d_egid d0;
  as_wf : wf d
}.

Lemma aside_refl d : wf d → aside d d.
Proof. intros Hw. split; try done. Qed.

Lemma wf_lookup d p n : wf d → d_names d !! p = Some n → (n < d_next d)%N.
Proof.
  intros Hw Hn. destruct (decide (n < d_next d)%N) as [|Hge]; [done|]. exfalso.
  destruct (Hw n ltac:(lia)) as (_ & Hno & _). by apply (Hno p).
Qed.

Lemma aside_lookup d0 d p : wf d0 → aside d0 d → visible p → lookup_path d p = lookup_path d0 p.
Proof.
  intros Hw [Hn _ Hi _ _ _] Hp. unfold lookup_path. rewrite Hn by done.
  destruct (d_names d0 !! p) as [n|] eqn:E; [|done]. by rewrite Hi by (by eapply wf_lookup).
Qed.

Lemma aside_object d0 d p s : wf d0 → aside d0 d → visible p → object_at d p s ↔ object_at d0 p s.
Proof.
  intros Hw Ha Hp. unfold object_at. rewrite (aside_lookup d0 d p) by done.
  by destruct (as_same _ _ Ha) as (-> & _).
Qed.

(** The temporary file while the writer has it open: inode [fd], entry [temp],
    of which the rest of the directory knows nothing. *)
Record temp_file (d0 d : Disk) (fd : N) (temp : string) (i : Inode) : Prop := {
  tf_aside : aside d0 d;
  tf_fd : (d_next d0 ≤ fd < d_next d)%N;
  tf_name : d_names d !! temp = Some fd;
  tf_node : d_nodes d !! fd = Some i;
  tf_hidden : ¬ visible temp
}.

Lemma temp_update d0 d fd temp i i' :
  temp_file d0 d fd temp i → temp_file d0 (set_nodes (<[fd := i']> (d_nodes d)) d) fd temp i'.
Proof.
  intros [[Hn Hs Hi Hx He Hw] [Hf1 Hf2] Ht Hd Hh]. split; [split|split| | |]; simpl; try done.
  - intros n Hlt. rewrite lookup_insert_ne by lia. by apply Hi.
  - intros n Hlt. simpl in Hlt. destruct (Hw n Hlt) as (Hnone & ?). split; [|done]. simpl.
    rewrite lookup_insert_ne by lia. done.
  - by rewrite lookup_insert_eq.
Qed.

Lemma runs_update {A} d0 d fd temp i (f : Disk → Inode → Inode) (k : Z + unit → M A) Q :
  temp_file d0 d fd temp i →
  (∀ e, runs (k (inl e)) d Q) →
  (∀ d', temp_file d0 d' fd temp (f d i) → runs (k (inr tt)) d' Q) →
  runs (let* r := sys (λ _ d, update_fd fd (f d) d) in k r) d Q.
Proof.
  intros Ht Herr Hok.
  eapply (runs_bind _ _ _ (λ r d', (∃ e, r = inl e ∧ d' = d) ∨ (r = inr tt ∧ temp_file d0 d' fd temp (f d i)))).
  - apply runs_sys; [eauto|]. intros _. right. unfold update_fd, with_fd. rewrite (tf_node _ _ _ _ _ Ht). simpl.
    split; [done|]. by eapply temp_update.
  - intros r d' [(e & -> & ->)|[-> Ht']]; auto.
Qed.

Lemma cleanup_runs d0 d fd temp i b : temp_file d0 d fd temp i → runs (cleanup b temp) d (λ _ d', aside d0 d').
Proof.
  intros [[Hn Hs Hi Hx He Hw] [Hf1 Hf2] Ht Hd Hh]. unfold cleanup.
  eapply (runs_bind _ _ _ (λ _ d', d' = d)).
  { destruct b; [|by apply runs_ret]. eapply runs_mono; [apply looks_close|]. by intros ? ? [-> _]. }
  intros _ d' ->. eapply (runs_bind _ _ _ (λ _ d', aside d0 d')); [|intros ? ? ?; by apply runs_ret].
  apply runs_sys; [by split|]. intros _. rewrite Ht. simpl.
  assert (∀ p, visible p → p ≠ temp) as Hvis by (intros p Hp ->; done).
  split; simpl; try done.
  - intros p Hp. rewrite lookup_delete_ne by (apply not_eq_sym; auto). auto.
  - intros p Hp. unfold push_stale. rewrite lookup_insert_ne by (apply not_eq_sym; auto). auto.
  - intros n Hlt. unfold change_links. rewrite lookup_alter_ne by lia. auto.
  - intros n Hlt. simpl in Hlt. destruct (Hw n Hlt) as (Hnone & Hnames & Hstale). split_and!; simpl.
    + unfold change_links. rewrite lookup_alter_ne by lia. done.
    + intros p. destruct (decide (p = temp)) as [->|]; [by rewrite lookup_delete_eq|].
      rewrite lookup_delete_ne by done. done.
    + intros p l. unfold push_stale. destruct (decide (p = temp)) as [->|].
      * rewrite lookup_insert_eq. intros [= <-]. rewrite elem_of_cons. intros [Heq|Hin].
        -- symmetry in Heq. by apply (Hnames temp).
        -- destruct (d_stale d !! temp) as [l|] eqn:Hl; simpl in Hin; [|by inversion Hin]. by apply (Hstale temp l).
      * rewrite lookup_insert_ne by done. apply Hstale.
Qed.

(** * Preparing the temporary file *)

(** [i'] is [i] with more content. *)
Definition extends (i i' : Inode) : Prop :=
  i_kind i' = i_kind i ∧ i_saved i' = i_saved i ∧ i_mode i' = i_mode i ∧
  i_uid i' = i_uid i ∧ i_gid i' = i_gid i ∧ i_nlink i' = i_nlink i.

Lemma writeAll_runs d0 d fd temp i turns data :
  temp_file d0 d fd temp i →
  runs (writeAll_loop turns fd data) d (λ b d', ∃ i', temp_file d0 d' fd temp i' ∧ extends i i' ∧
    (b = true → i_content i' = i_content i +:+ data)).
Proof.
  revert d i data. induction turns as [|turns IH]; intros d i data Ht.
  { destruct data; apply runs_ret; exists i; split_and!; try done. intros _. by rewrite string_app_nil_r. }
  destruct data as [|c data]; [apply runs_ret; exists i; split_and!; try done; intros _; by rewrite string_app_nil_r|].
  cbn [writeAll_loop]. set (text := String c data).
  eapply (runs_bind _ _ _ (λ r d', match r with
    | inl _ => d' = d
    | inr n => n ≤ String.length text ∧ ∃ i', temp_file d0 d' fd temp i' ∧ extends i i' ∧
        i_content i' = i_content i +:+ String.substring 0 n text
    end)).
  { apply runs_sys; [done|]. intros limit. unfold with_fd. rewrite (tf_node _ _ _ _ _ Ht). cbn [fst snd].
    split; [destruct limit; lia|]. eexists. split; [by eapply temp_update|]. done. }
  intros [e|n] d' Hr.
  - subst d'. destruct (decide (e = EINTR)); [by apply IH|]. apply runs_ret. by exists i.
  - destruct Hr as (Hn & i' & Ht' & Hext & Hc). destruct n as [|n].
    + apply runs_ret. exists i'. split_and!; done.
    + eapply runs_mono; [by apply (IH d' i')|]. intros b d'' (i'' & Ht'' & Hext' & Hb). exists i''.
      split; [done|]. split.
      * destruct Hext as (?&?&?&?&?&?), Hext' as (?&?&?&?&?&?). split_and!; congruence.
      * intros Htrue. rewrite (Hb Htrue), Hc, string_app_assoc. by rewrite (proj1 (substring_cut (S n) text Hn)).
Qed.

(** The file a write wants to publish. *)
Definition is_file (i : Inode) (text : string) (uid gid md : Z) : Prop :=
  i_kind i = Regular ∧ i_content i = text ∧ i_saved i = Some text ∧ i_mode i = md ∧ i_uid i = uid ∧
  i_gid i = gid ∧ i_nlink i = 1%Z.

Definition wanted (options : AtomicWriteOptions) (target : option Stat) (d : Disk) (i : Inode) (text : string) : Prop :=
  let '(uid, gid, md) := wanted_metadata options target (d_euid d) (d_egid d) in is_file i text uid gid md.

Definition prepared (d0 : Disk) (options : AtomicWriteOptions) (target : option Stat) (text : string)
    (r : option (string * Stat)) (d : Disk) : Prop :=
  match r with
  | None => aside d0 d
  | Some (temp, st) => ∃ fd i, temp_file d0 d fd temp i ∧ st = stat_of (d_dev d0) fd i ∧ wanted options target d0 i text
  end.

Lemma prepared_fail d0 options target text d fd temp i b :
  temp_file d0 d fd temp i →
  runs (let* _ := cleanup b temp in mret None) d (prepared d0 options target text).
Proof.
  intros Ht. eapply runs_bind; [by eapply cleanup_runs|]. intros ? d' Ha. by apply runs_ret.
Qed.

Lemma mkstemp_runs d path (Q : Z + (N * string) → Disk → Prop) :
  wf d → (∀ e, Q (inl e) d) →
  (∀ fd temp i d', temp_file d d' fd temp i → i_kind i = Regular → i_content i = "" → i_nlink i = 1%Z →
     Q (inr (fd, temp)) d') →
  runs (sys_mkstemp ("." +:+ path)) d Q.
Proof.
  intros Hw Herr Hok. apply runs_sys; [auto|]. intros _. cbv zeta. set (name := ("." +:+ path) +:+ pretty (d_next d)).
  destruct (d_names d !! name) as [?|] eqn:Hname; [by apply Herr|]. simpl.
  eapply (Hok _ _ (mkInode Regular "" None 384 (d_euid d) (d_egid d) 1 (d_clock d) (d_clock d))); [|done..].
  assert (¬ visible name) as Hh by (intros Hv; by apply Hv).
  assert (∀ p, visible p → p ≠ name) as Hvis by (intros p Hp ->; done).
  split; [split|split| | |done]; simpl; try done; try lia.
  - intros p Hp. rewrite lookup_insert_ne by (apply not_eq_sym; auto). done.
  - intros p Hp. unfold push_stale. rewrite lookup_insert_ne by (apply not_eq_sym; auto). done.
  - intros n Hn. rewrite lookup_insert_ne by lia. done.
  - intros n Hn. simpl in Hn. destruct (Hw n ltac:(lia)) as (Hnone & Hnames & Hstale). split_and!; simpl.
    + by rewrite lookup_insert_ne by lia.
    + intros p. destruct (decide (p = name)) as [->|]; [rewrite lookup_insert_eq; intros [= ?]; lia|].
      by rewrite lookup_insert_ne by done.
    + intros p l. unfold push_stale. destruct (decide (p = name)) as [->|].
      * rewrite lookup_insert_eq. intros [= <-]. rewrite Hname, elem_of_cons. intros [?|Hin]; [done|].
        destruct (d_stale d !! name) as [l|] eqn:Hl; simpl in Hin; [|by inversion Hin]. by apply (Hstale name l).
      * rewrite lookup_insert_ne by done. apply Hstale.
  - by rewrite lookup_insert_eq.
  - by rewrite lookup_insert_eq.
Qed.

Lemma prepare_temp_runs d path text options target :
  wf d → beforePublish options = None →
  runs (prepare_temp path text options target) d (prepared d options target text).
Proof.
  intros Hw Hadmit. unfold prepare_temp. eapply (runs_bind _ _ _ (λ r d', match r with
    | inl _ => d' = d
    | inr (fd, temp) => ∃ i, temp_file d d' fd temp i ∧ i_kind i = Regular ∧ i_content i = "" ∧ i_nlink i = 1%Z
    end)).
  { apply mkstemp_runs; [done|done|]. intros. eauto 10. }
  intros [e|[fd temp]] d1 Hr; [subst; by apply runs_ret, aside_refl|].
  destruct Hr as (i & Ht & Hk & Hc & Hl). destruct (as_same _ _ (tf_aside _ _ _ _ _ Ht)) as (Hdev & _ & Heu & Heg).
  eapply (runs_bind _ _ _ (λ ids d', d' = d1 ∧ ids = (d_euid d, d_egid d))).
  { intros w Hobs Hd. split; [done|]. simpl. rewrite Hd. by rewrite Heu, Heg. }
  intros ids d' [-> ->]. cbn [fst snd]. unfold prepared, wanted.
  destruct (wanted_metadata options target (d_euid d) (d_egid d)) as [[uid gid] md] eqn:Hmeta.
  assert (∀ d' i b, temp_file d d' fd temp i → runs (let* _ := cleanup b temp in mret None) d'
    (λ r d0, match r with
      | None => aside d d0
      | Some (temp0, st) => ∃ fd i, temp_file d d0 fd temp0 i ∧ st = stat_of (d_dev d) fd i ∧ is_file i text uid gid md
      end)) as Hfail.
  { intros d' i' b Ht'. eapply runs_bind; [by eapply cleanup_runs|]. intros ? d'' Ha. by apply runs_ret. }
  eapply runs_bind_looks; [apply looks_fstat|]. intros [e|st] Hst; [by eapply Hfail|].
  destruct Hst as (i' & Hi' & ->). assert (i' = i) as -> by (rewrite (tf_node _ _ _ _ _ Ht) in Hi'; congruence).
  eapply (runs_bind _ _ _ (λ r d', ∃ i, temp_file d d' fd temp i ∧
    (ok r = true → i_kind i = Regular ∧ i_content i = "" ∧ i_nlink i = 1%Z ∧ i_uid i = uid ∧ i_gid i = gid))).
  { destruct (_ || _) eqn:Hdiff.
    - apply runs_sys; [intros e; by exists i|]. intros _. unfold update_fd, with_fd.
      rewrite (tf_node _ _ _ _ _ Ht). eexists. split; [by eapply temp_update|]. done.
    - apply runs_ret. exists i. split; [done|]. intros _. apply orb_false_iff in Hdiff as [Hu Hg].
      apply bool_decide_eq_false, dec_stable in Hu, Hg. done. }
  clear i Ht Hk Hc Hl Hi'. intros owned d2 (i & Ht & Hown). destruct (ok owned); simpl; [|by eapply Hfail].
  destruct (Hown eq_refl) as (Hk & Hc & Hl & Hu & Hg). clear Hown.
  eapply (runs_update d d2 fd temp i (λ d i, mkInode (i_kind i) (i_content i) (i_saved i) md (i_uid i) (i_gid i)
    (i_nlink i) (i_mtime i) (d_clock d))); [done|intros e; by eapply Hfail|]. intros d3 Ht3. simpl.
  eapply runs_bind.
  { eapply (runs_bind _ _ _ (λ _ d', d' = d3)); [by apply runs_script_length|]. intros n ? ->.
    by eapply writeAll_runs. }
  intros written d4 (i4 & Ht4 & (Hk4 & _ & Hm4 & Hu4 & Hg4 & Hl4) & Hc4). simpl in *.
  destruct written; simpl; [|by eapply Hfail]. specialize (Hc4 eq_refl). rewrite Hc in Hc4.
  change ("" +:+ text) with text in Hc4.
  eapply (runs_update d d4 fd temp i4 (λ d i, mkInode (i_kind i) (i_content i) (Some (i_content i)) (i_mode i)
    (i_uid i) (i_gid i) (i_nlink i) (i_mtime i) (i_ctime i))); [done|intros e; by eapply Hfail|]. intros d5 Ht5. simpl.
  eapply runs_bind_looks; [apply looks_fstat|]. intros [e|st5] Hst; [by eapply Hfail|].
  destruct Hst as (i5 & Hi5 & ->). rewrite (tf_node _ _ _ _ _ Ht5) in Hi5. injection Hi5 as <-.
  rewrite Hadmit. eapply (runs_bind _ _ _ (λ r d', r = Some true ∧ d' = d5)); [by apply runs_ret|].
  intros allowed ? [-> ->]. simpl. eapply runs_bind_looks; [apply looks_close|]. intros closed _.
  destruct (ok closed); simpl; [|by eapply Hfail]. apply runs_ret. exists fd. eexists. split; [exact Ht5|].
  destruct (as_same _ _ (tf_aside _ _ _ _ _ Ht5)) as (-> & _). split; [done|].
  split_and!; simpl; congruence.
Qed.

(** * Publishing it *)

(** Two inodes that differ at most in their link count and times. *)
Definition same_file (i j : Inode) : Prop :=
  i_kind j = i_kind i ∧ i_content j = i_content i ∧ i_saved j = i_saved i ∧
  i_mode j = i_mode i ∧ i_uid j = i_uid i ∧ i_gid j = i_gid i.

Lemma same_file_refl i : same_file i i.
Proof. done. Qed.

Lemma change_links_same n delta nodes m i :
  nodes !! m = Some i → ∃ j, change_links n delta nodes !! m = Some j ∧ same_file i j.
Proof.
  intros Hi. unfold change_links. destruct (decide (n = m)) as [->|].
  - rewrite lookup_alter_eq, Hi. simpl. eexists. done.
  - rewrite lookup_alter_ne by done. by exists i.
Qed.

Lemma change_links_none n delta nodes m : change_links n delta nodes !! m = None ↔ nodes !! m = None.
Proof.
  unfold change_links. destruct (decide (n = m)) as [->|]; [|by rewrite lookup_alter_ne].
  rewrite lookup_alter_eq. by destruct (nodes !! m).
Qed.

(** [path] now names the new inode [fd]; the other visible names and the
    contents of the old inodes are as in [d0]. *)
Record swapped (d0 d : Disk) (path : string) (fd : N) (j : Inode) : Prop := {
  sw_name : d_names d !! path = Some fd;
  sw_node : d_nodes d !! fd = Some j;
  sw_new : (d_next d0 ≤ fd)%N;
  sw_others : ∀ p, visible p → p ≠ path → d_names d !! p = d_names d0 !! p;
  sw_nodes : ∀ n i, d_nodes d0 !! n = Some i → ∃ k, d_nodes d !! n = Some k ∧ same_file i k;
  sw_none : ∀ n, (n < d_next d0)%N → d_nodes d0 !! n = None → d_nodes d !! n = None;
  sw_crash : ∀ p e, visible p → crash_entry d p e → (p = path ∧ e = Some fd) ∨ crash_entry d0 p e;
  sw_next : (d_next d0 ≤ d_next d)%N;
  sw_same : d_dev d = d_dev d0 ∧ d_parent d = d_parent d0 ∧ d_euid d = d_euid d0 ∧ d_egid d = d_egid d0;
  sw_wf : wf d
}.

Lemma swapped_install d0 d fd temp path i names stale nodes j :
  wf d0 → temp_file d0 d fd temp i → visible path →
  names !! path = Some fd → (∀ p, p ≠ path → p ≠ temp → names !! p = d_names d !! p) →
  (names !! temp = Some fd ∨ names !! temp = None) →
  nodes !! fd = Some j →
  (∀ n x, d_nodes d !! n = Some x → ∃ k, nodes !! n = Some k ∧ same_file x k) →
  (∀ n, nodes !! n = None ↔ d_nodes d !! n = None) →
  (∀ p l e, stale !! p = Some l → e ∈ l →
     (p ≠ temp → e = d_names d !! p ∨ e ∈ default [] (d_stale d !! p)) ∧
     (p = temp → e = Some fd ∨ e = None ∨ e ∈ default [] (d_stale d !! p))) →
  swapped d0 (set_names names stale (set_nodes nodes d)) path fd j.
Proof.
  intros Hw0 Ht Hp Hname Hothers Htemp Hnode Hsame Hnone Hstale. destruct Ht as [[An As Ai Ax Ae Aw] Hfd Htn Hti Hh].
  assert (path ≠ temp) as Hne by (intros ->; done).
  assert (∀ p, visible p → p ≠ temp) as Hvis by (intros p Hv ->; done).
  split; simpl; try done; try lia.
  - intros p Hv Hpp. rewrite Hothers; auto.
  - intros n x Hx. apply Hsame. rewrite Ai; [done|].
    destruct (decide (n < d_next d0)%N); [done|]. destruct (Hw0 n ltac:(lia)) as [? _]. congruence.
  - intros n Hlt Hx. apply Hnone. by rewrite Ai.
  - intros p e Hv. unfold crash_entry. simpl. intros [->|Hin].
    + destruct (decide (p = path)) as [->|]; [left; by rewrite Hname|]. right. left. rewrite Hothers; auto.
    + right. destruct (stale !! p) as [l|] eqn:Hl; simpl in Hin; [|by inversion Hin].
      destruct (Hstale p l e Hl Hin) as [Hx _]. rewrite <-An, <-As by done. auto.
  - intros n Hn. simpl in Hn. destruct (Aw n Hn) as (Hx & Hnames & Hst). split_and!; simpl.
    + by apply Hnone.
    + intros p. destruct (decide (p = path)) as [->|]; [rewrite Hname; intros [= ?]; lia|].
      destruct (decide (p = temp)) as [->|]; [|rewrite Hothers by done; done].
      destruct Htemp as [->| ->]; [intros [= ?]; lia|done].
    + intros p l Hl Hin. assert (Some n ∉ default [] (d_stale d !! p)) as Hno.
      { destruct (d_stale d !! p) eqn:E; simpl; [by eapply Hst|]. intros Hx'. inversion Hx'. }
      destruct (Hstale p l _ Hl Hin) as [H1 H2]. destruct (decide (p = temp)) as [->|].
      * destruct (H2 eq_refl) as [[= ?]|[?|?]]; [lia|done|done].
      * destruct (H1 ltac:(done)) as [?|?]; [by apply (Hnames p)|done].
Qed.

Lemma old_entry_ne d0 d fd temp i path old :
  wf d0 → temp_file d0 d fd temp i → visible path → d_names d !! path = Some old → old ≠ fd.
Proof.
  intros Hw Ht Hp Hold ->. pose proof (tf_fd _ _ _ _ _ Ht).
  rewrite (as_names _ _ (tf_aside _ _ _ _ _ Ht)) in Hold by done.
  pose proof (wf_lookup _ _ _ Hw Hold). lia.
Qed.

Lemma rename_swaps d0 d fd temp i path :
  wf d0 → temp_file d0 d fd temp i → visible path →
  match (do_rename temp path d).1 with
  | inl e => (do_rename temp path d).2 = d ∧ e ≠ EEXIST
  | inr _ => swapped d0 (do_rename temp path d).2 path fd i
  end.
Proof.
  intros Hw Ht Hp. unfold do_rename. rewrite (tf_name _ _ _ _ _ Ht).
  assert (path ≠ temp) as Hne by (intros ->; by apply (tf_hidden _ _ _ _ _ Ht)).
  destruct (match lookup_path d path with Some _ => _ | None => _ end); [done|]. simpl.
  eapply (swapped_install _ _ _ temp); try done.
  - by rewrite lookup_insert_eq.
  - intros p Hpp Hpt. rewrite lookup_insert_ne, lookup_delete_ne by done. done.
  - right. by rewrite lookup_insert_ne, lookup_delete_eq by done.
  - destruct (d_names d !! path) as [old|] eqn:Hold; [|apply (tf_node _ _ _ _ _ Ht)].
    unfold change_links. rewrite lookup_alter_ne by (by eapply old_entry_ne). apply (tf_node _ _ _ _ _ Ht).
  - intros n x Hx. destruct (d_names d !! path); [by apply change_links_same|by exists x].
  - intros n. destruct (d_names d !! path); [apply change_links_none|done].
  - intros p l e. unfold push_stale. destruct (decide (p = path)) as [->|].
    { rewrite lookup_insert_eq. intros [= <-]. rewrite elem_of_cons. split; [tauto|]. by intros ->. }
    rewrite lookup_insert_ne by done. destruct (decide (p = temp)) as [->|].
    { rewrite lookup_insert_eq, (tf_name _ _ _ _ _ Ht). intros [= <-]. rewrite elem_of_cons. split; [done|tauto]. }
    rewrite lookup_insert_ne by done. intros Hl Hin. rewrite Hl. split; [by right|done].
Qed.

(** What [installTempFile] leaves when it does not succeed: usually nothing,
    but where it falls back to [link] the target can be published. *)
Definition install_failed (d0 d : Disk) (fd : N) (temp path : string) (i : Inode) (exclusive : bool) : Prop :=
  temp_file d0 d fd temp i ∨
  exclusive = true ∧ d_names d0 !! path = None ∧
  ∃ j, same_file i j ∧ swapped d0 d path fd j ∧ d_names d !! temp = Some fd.

Lemma link_swaps d0 d fd temp i path :
  wf d0 → temp_file d0 d fd temp i → visible path → d_names d !! path = None →
  swapped d0 (set_names (<[path := fd]> (d_names d)) (push_stale path d)
                (set_nodes (change_links fd 1 (d_nodes d)) d)) path fd
    (mkInode (i_kind i) (i_content i) (i_saved i) (i_mode i) (i_uid i) (i_gid i) (i_nlink i + 1)
       (i_mtime i) (i_ctime i)).
Proof.
  intros Hw Ht Hp Hnone. assert (path ≠ temp) as Hne by (intros ->; by apply (tf_hidden _ _ _ _ _ Ht)).
  eapply (swapped_install _ _ _ temp); try done.
  - by rewrite lookup_insert_eq.
  - intros p Hpp Hpt. by rewrite lookup_insert_ne by done.
  - left. rewrite lookup_insert_ne by done. apply (tf_name _ _ _ _ _ Ht).
  - unfold change_links. rewrite lookup_alter_eq, (tf_node _ _ _ _ _ Ht). done.
  - intros n x Hx. by apply change_links_same.
  - intros n. apply change_links_none.
  - intros p l e. unfold push_stale. destruct (decide (p = path)) as [->|].
    { rewrite lookup_insert_eq. intros [= <-]. rewrite elem_of_cons. split; [tauto|]. by intros ->. }
    rewrite lookup_insert_ne by done. intros Hl Hin. rewrite Hl. split; [by right|]. intros ->. right. by right.
Qed.

(** Removing the second name of a linked file. *)
Lemma unlink_temp_swaps d0 d fd temp j path :
  swapped d0 d path fd j → visible path → ¬ visible temp → d_names d !! temp = Some fd →
  ∃ k, same_file j k ∧ i_nlink k = (i_nlink j - 1)%Z ∧
    swapped d0 (set_names (delete temp (d_names d)) (push_stale temp d)
                  (set_nodes (change_links fd (-1) (d_nodes d)) d)) path fd k.
Proof.
  intros [Sn Si Sf So Snd Sno Sc Sx Se Sw] Hp Hh Ht. eexists. split_and!; cycle 2.
  - assert (∀ p, visible p → p ≠ temp) as Hvis by (intros p Hv ->; done).
    split; simpl; try done.
    + rewrite lookup_delete_ne by (apply not_eq_sym; auto). done.
    + unfold change_links. by rewrite lookup_alter_eq, Si.
    + intros p Hv Hpp. rewrite lookup_delete_ne by (apply not_eq_sym; auto). auto.
    + intros n x Hx. destruct (Snd n x Hx) as (k & Hk & Hs).
      destruct (change_links_same fd (-1) _ _ _ Hk) as (k' & Hk' & Hs'). exists k'. split; [done|].
      destruct Hs as (?&?&?&?&?&?), Hs' as (?&?&?&?&?&?). split_and!; congruence.
    + intros n Hlt Hx. apply change_links_none. auto.
    + intros p e Hv. unfold crash_entry, push_stale. simpl.
      rewrite lookup_delete_ne, lookup_insert_ne by (apply not_eq_sym; auto). by apply Sc.
    + intros n Hn. simpl in Hn. destruct (Sw n Hn) as (Hx & Hnames & Hst). split_and!; simpl.
      * by apply change_links_none.
      * intros p. destruct (decide (p = temp)) as [->|]; [by rewrite lookup_delete_eq|].
        by rewrite lookup_delete_ne by done.
      * intros p l. unfold push_stale. destruct (decide (p = temp)) as [->|].
        -- rewrite lookup_insert_eq. intros [= <-]. rewrite elem_of_cons. intros [Heq|Hin].
           { symmetry in Heq. by apply (Hnames temp). }
           destruct (d_stale d !! temp) as [l|] eqn:Hl; simpl in Hin; [by apply (Hst temp l)|inversion Hin].
        -- rewrite lookup_insert_ne by done. apply Hst.
  - done.
  - simpl. lia.
Qed.

Lemma same_file_trans i j k : same_file i j → same_file j k → same_file i k.
Proof. intros (?&?&?&?&?&?) (?&?&?&?&?&?). split_and!; congruence. Qed.

Lemma install_runs d0 d fd temp i path exclusive :
  wf d0 → temp_file d0 d fd temp i → visible path →
  runs (installTempFile temp path exclusive) d (λ r d', match r with
    | inr _ => ∃ j, same_file i j ∧ i_nlink j = i_nlink i ∧ swapped d0 d' path fd j
    | inl e => install_failed d0 d' fd temp path i exclusive
    end).
Proof.
  intros Hw Ht Hp. unfold installTempFile. pose proof (rename_swaps _ _ _ _ _ _ Hw Ht Hp) as Hren.
  destruct exclusive; simpl.
  2: { apply runs_sys; [intros e; by left|]. intros _. destruct (do_rename temp path d) as [[e|[]] d']; simpl in *.
       - destruct Hren as [-> _]. by left.
       - by exists i. }
  eapply (runs_bind _ _ _ (λ r d', match r with inr _ => swapped d0 d' path fd i | inl e => d' = d end)).
  { apply runs_sys; [done|]. intros _. destruct (d_names d !! path); [done|].
    destruct (do_rename temp path d) as [[e|[]] d']; simpl in *; [|done]. by destruct Hren. }
  intros [e|[]] d' Hr; [subst d'|by apply runs_ret; exists i].
  destruct (_ && _); [apply runs_ret; by left|].
  eapply (runs_bind _ _ _ (λ r d', match r with
    | inr _ => d_names d !! path = None ∧ ∃ j, same_file i j ∧ i_nlink j = (i_nlink i + 1)%Z ∧
        swapped d0 d' path fd j ∧ d_names d' !! temp = Some fd
    | inl e => d' = d
    end)).
  { apply runs_sys; [done|]. intros _. rewrite (tf_name _ _ _ _ _ Ht).
    destruct (d_names d !! path) as [?|] eqn:Hpath; [done|]. simpl. split; [done|]. eexists. split_and!; cycle 2.
    - by eapply link_swaps.
    - simpl. rewrite lookup_insert_ne by (intros ->; by apply (tf_hidden _ _ _ _ _ Ht)). apply (tf_name _ _ _ _ _ Ht).
    - done.
    - done. }
  intros [e'|[]] d' Hr; [subst d'; apply runs_ret; by left|].
  destruct Hr as (Hnone & j & Hs & Hl & Hsw & Htemp).
  rewrite (as_names _ _ (tf_aside _ _ _ _ _ Ht)) in Hnone by done.
  assert (install_failed d0 d' fd temp path i true) as Hhalf.
  { right. split_and!; [done..|]. exists j. done. }
  apply runs_sys; [intros e'; done|]. intros _. rewrite Htemp. cbn [fst snd].
  destruct (unlink_temp_swaps d0 d' fd temp j path Hsw Hp (tf_hidden _ _ _ _ _ Ht) Htemp) as (k & Hk & Hkl & Hsw').
  exists k. split_and!; [by eapply same_file_trans|lia|done].
Qed.

Lemma fsync_parent_runs d : runs fsyncParentDirectory d (λ b d',
  d' = if b then set_names (d_names d) ∅ d else d).
Proof.
  unfold fsyncParentDirectory. eapply runs_bind_looks; [apply looks_open_dir|]. intros [e|[]] _; [by apply runs_ret|].
  eapply (runs_bind _ _ _ (λ r d', d' = if ok r then set_names (d_names d) ∅ d else d)); [by apply runs_sys|].
  intros synced d' ->. eapply runs_bind_looks; [apply looks_close|]. intros ? _. by apply runs_ret.
Qed.

(** Syncing the directory keeps what is there and forgets what was. *)
Lemma swapped_synced d0 d path fd j :
  swapped d0 d path fd j → swapped d0 (set_names (d_names d) ∅ d) path fd j.
Proof.
  intros [Sn Si Sf So Snd Sno Sc Sx Se Sw]. split; simpl; try done.
  - intros p e Hv [->|Hin]; simpl in *; [|rewrite ?lookup_empty in Hin; by inversion Hin]. apply Sc; [done|by left].
  - intros n Hn. destruct (Sw n Hn) as (? & ? & _). split_and!; [done..|]. intros p l. simpl. by rewrite ?lookup_empty.
Qed.

(** * The contract of a conditional write *)

Definition new_file (d0 d : Disk) (path text : string) (options : AtomicWriteOptions) (fd : N) (j : Inode) : Prop :=
  swapped d0 d path fd j ∧ ∃ i target, same_file i j ∧ wanted options target d0 i text.

Definition write_post (d0 : Disk) (path text : string) (options : AtomicWriteOptions)
    (r : bool * AtomicWriteResult) (d : Disk) : Prop :=
  if installed r.2 then
    r.1 = durabilityConfirmed r.2 ∧
    (∃ fd j, new_file d0 d path text options fd j ∧ i_nlink j = 1%Z ∧
       installedTargetState r.2 = Some (target_of_stat (stat_of (d_dev d0) fd j) text)) ∧
    (durabilityConfirmed r.2 = true → d_stale d = ∅) ∧
    (∀ s, expectedTargetState options = Some s → object_at d0 path s)
  else
    r.1 = false ∧ durabilityConfirmed r.2 = false ∧ installedTargetState r.2 = None ∧
    (aside d0 d ∨ exclusiveCreate options = true ∧ d_names d0 !! path = None ∧
       ∃ fd j, new_file d0 d path text options fd j).

Lemma target_of_same dev n i j text : same_file i j →
  target_of_stat (stat_of dev n i) text = target_of_stat (stat_of dev n j) text.
Proof. intros (?&?&?&Hm&Hu&Hg). unfold target_of_stat. simpl. congruence. Qed.

Lemma cleanup_after_half d0 d fd temp path j :
  swapped d0 d path fd j → visible path → ¬ visible temp → d_names d !! temp = Some fd →
  runs (cleanup false temp) d (λ _ d', ∃ k, same_file j k ∧ swapped d0 d' path fd k).
Proof.
  intros Hsw Hp Hh Ht. unfold cleanup. eapply (runs_bind _ _ _ (λ _ d', d' = d)); [by apply runs_ret|].
  intros ? ? ->. eapply (runs_bind _ _ _ (λ _ d', ∃ k, same_file j k ∧ swapped d0 d' path fd k)).
  - apply runs_sys; [intros e; by exists j|]. intros _. rewrite Ht. cbn [fst snd].
    destruct (unlink_temp_swaps d0 d fd temp j path Hsw Hp Hh Ht) as (k & Hk & _ & Hsw'). eauto.
  - intros ? d' Hd'. by apply runs_ret.
Qed.

Lemma publish_runs d0 d path text options target temp st :
  wf d0 → visible path → prepared d0 options target text (Some (temp, st)) d →
  runs (publish path text options temp st) d (write_post d0 path text options).
Proof.
  intros Hw Hp (fd & i & Ht & -> & Hwant). unfold publish.
  assert (∀ r, r = precondition_failure ∨ r = no_write →
    runs (let* _ := cleanup false temp in mret (false, r)) d (write_post d0 path text options)) as Hfail.
  { intros r Hr. eapply runs_bind; [by eapply cleanup_runs|]. intros ? d' Ha. apply runs_ret.
    unfold write_post. destruct Hr as [-> | ->]; simpl; split_and!; auto. }
  eapply runs_bind_looks; [apply looks_matches_target|]. intros [] Hm; simpl; [|apply Hfail; by left].
  eapply runs_bind_looks; [apply looks_matches_target|]. intros [] _; simpl; [|apply Hfail; by left].
  eapply runs_bind; [by apply (install_runs d0 d fd temp i path)|]. intros [e|[]] d' Hr.
  - assert (∀ r, r = precondition_failure ∨ r = no_write →
      runs (let* _ := cleanup false temp in mret (false, r)) d' (write_post d0 path text options)) as Hfail'.
    { intros r Hr'. destruct Hr as [Ht'|(Hex & Hnone & j & Hs & Hsw & Htemp)].
      - eapply runs_bind; [by eapply cleanup_runs|]. intros ? d'' Ha. apply runs_ret.
        unfold write_post. destruct Hr' as [-> | ->]; simpl; split_and!; auto.
      - eapply runs_bind; [eapply cleanup_after_half; [done|done|apply (tf_hidden _ _ _ _ _ Ht)|done]|].
        intros ? d'' (k & Hk & Hsw'). apply runs_ret. unfold write_post.
        assert (new_file d0 d'' path text options fd k) as Hnew.
        { split; [done|]. exists i, target. split; [by eapply same_file_trans|done]. }
        destruct Hr' as [-> | ->]; simpl; split_and!; try done; right; eauto 10. }
    destruct (_ && _); apply Hfail'; auto.
  - destruct Hr as (j & Hs & Hl & Hsw). eapply runs_bind; [apply fsync_parent_runs|]. intros synced d'' ->.
    apply runs_ret. unfold write_post. simpl. split_and!; [done| | |].
    + exists fd, j. split_and!.
      * split; [destruct synced; [by apply swapped_synced|done]|]. by exists i, target.
      * unfold wanted, is_file in Hwant. destruct (wanted_metadata _ _ _ _) as [[]]. rewrite Hl. by destruct Hwant as (?&?&?&?&?&?&?).
      * f_equal. by apply target_of_same.
    + intros ->. done.
    + intros s Hs'. apply (aside_object d0 d); [done|apply (tf_aside _ _ _ _ _ Ht)|done|by apply Hm].
Qed.

Lemma looks_write_checks path options : rejectSymlink options = true → looks (write_checks path options) (λ d r,
  match r with
  | inl r => installed r = false ∧ durabilityConfirmed r = false ∧ installedTargetState r = None
  | inr (p, _) => p = path
  end).
Proof.
  intros Hrej d. unfold write_checks. rewrite Hrej. eapply runs_bind_looks; [apply looks_lstat|]. intros link _.
  destruct (match link with inl e => bool_decide (e ≠ ENOENT) | inr _ => false end); [by apply runs_ret|].
  destruct (negb (ok link) && _); [by apply runs_ret|]. destruct (ok link && _); [by apply runs_ret|].
  destruct (true && _); [by apply runs_ret|]. eapply runs_bind_looks; [apply looks_matches_target|].
  intros [] _; cbn [negb]; [|by apply runs_ret]. rewrite andb_false_r.
  eapply (runs_bind _ _ _ (λ r d', r = inr path ∧ d' = d)); [by apply runs_ret|]. intros ? ? [-> ->].
  eapply runs_bind_looks; [apply looks_stat|]. intros [e|st] _; repeat case_match; by apply runs_ret.
Qed.

(** The contract: an [AtomicFileWriter::writeWithResult] that refuses symbolic
    links and asks nobody's admission. *)
Lemma write_runs d path text options :
  wf d → visible path → rejectSymlink options = true → beforePublish options = None →
  runs (writeWithResult path text options) d (write_post d path text options).
Proof.
  intros Hw Hp Hrej Hadm. unfold writeWithResult. eapply runs_bind_looks; [by apply looks_write_checks|].
  intros [r|[p target]] Hr.
  - apply runs_ret. unfold write_post. destruct Hr as (Hi & Hd & Hs). cbn [fst snd]. rewrite Hi, Hd, Hs.
    split_and!; try done. left. by apply aside_refl.
  - subst p. eapply runs_bind; [by apply prepare_temp_runs|]. intros [[temp st]|] d' Hprep.
    + by eapply publish_runs.
    + apply runs_ret. unfold write_post. simpl. split_and!; auto.
Qed.

(** * The contracts of the barriers and of removal *)

Definition synced (d : Disk) : Disk := set_names (d_names d) ∅ d.

Lemma durable_runs d path expected :
  runs (ensureTargetDurableIfCurrentState path expected) d (λ b d',
    if b then object_at d path expected ∧ d' = synced d else d' = d).
Proof.
  unfold ensureTargetDurableIfCurrentState, targetStateMatches, ensureTargetDurable.
  eapply runs_bind_looks; [apply looks_matches_target|]. intros [] Hm; cbn [negb]; [|by apply runs_ret].
  eapply runs_bind_looks; [apply looks_lstat|]. intros [e|st] _; [by apply runs_ret|].
  case_bool_decide; [by apply runs_ret|].
  eapply runs_bind_looks; [apply looks_canonical|]. intros [e|p] _; [by apply runs_ret|].
  eapply runs_mono; [apply fsync_parent_runs|]. intros [] d' ->; [|done]. split; [|done]. by apply Hm.
Qed.

Lemma absent_runs d path :
  runs (ensureTargetAbsentDurableIfCurrentState path) d (λ b d',
    if b then lookup_path d path = None ∧ d' = synced d else d' = d ∨ d' = synced d).
Proof.
  unfold ensureTargetAbsentDurableIfCurrentState, fsyncParentDirectoryForPath.
  eapply runs_bind_looks; [apply looks_lstat|]. intros [e|st] Hl; simpl; [|apply runs_ret; by left].
  case_bool_decide as He; [apply runs_ret; by left|]. specialize (Hl He).
  eapply runs_bind; [apply fsync_parent_runs|]. intros [] d' ->; cbn [negb]; [|apply runs_ret; by left].
  eapply runs_bind_looks; [apply looks_lstat|]. intros [e'|st'] _; apply runs_ret; [|by right].
  case_bool_decide; [done|by right].
Qed.

(** The directory without the entry [path]. *)
Definition dropped (d0 d : Disk) (path : string) (n : N) : Prop :=
  d_names d = delete path (d_names d0) ∧ d_nodes d = change_links n (-1) (d_nodes d0) ∧
  (d_stale d = push_stale path d0 ∨ d_stale d = ∅) ∧
  d_next d = d_next d0 ∧ d_dev d = d_dev d0 ∧ d_parent d = d_parent d0 ∧ d_euid d = d_euid d0 ∧ d_egid d = d_egid d0.

Definition remove_post (d0 : Disk) (path : string) (expected : AtomicTargetState)
    (r : bool * AtomicRemoveResult) (d : Disk) : Prop :=
  if removed r.2 then
    r.1 = remove_durabilityConfirmed r.2 ∧ remove_preconditionFailed r.2 = false ∧ object_at d0 path expected ∧
    dropped d0 d path (inode (identity expected)) ∧ (remove_durabilityConfirmed r.2 = true → d_stale d = ∅)
  else d = d0 ∧ remove_durabilityConfirmed r.2 = false.

Lemma close_both_looks : looks close_both (λ _ _, True).
Proof.
  intros d. unfold close_both. eapply runs_bind_looks; [apply looks_close|]. intros ? _.
  eapply runs_bind_looks; [apply looks_close|]. intros ? _. by apply runs_ret.
Qed.

Lemma remove_kept d path expected b r : removed r = false → remove_durabilityConfirmed r = false →
  runs (mret (b, r)) d (remove_post d path expected).
Proof. intros Hr Hd. apply runs_ret. unfold remove_post. simpl. by rewrite Hr. Qed.

Lemma remove_runs d path expected :
  runs (removeIfCurrentState path expected) d (remove_post d path expected).
Proof.
  unfold removeIfCurrentState. destruct (_ || _); [by apply remove_kept|].
  eapply runs_bind_looks; [apply looks_open_dir|]. intros [e|[]] _; [by apply remove_kept|].
  assert (∀ b r, removed r = false → remove_durabilityConfirmed r = false →
    runs (let* _ := sys_close in mret (b, r)) d (remove_post d path expected)) as Hone.
  { intros b r Hr Hd. eapply runs_bind_looks; [apply looks_close|]. intros ? _. by apply remove_kept. }
  assert (∀ b r, removed r = false → remove_durabilityConfirmed r = false →
    runs (let* _ := close_both in mret (b, r)) d (remove_post d path expected)) as Htwo.
  { intros b r Hr Hd. eapply runs_bind_looks; [apply close_both_looks|]. intros ? _. by apply remove_kept. }
  eapply runs_bind_looks; [apply looks_lstat|]. intros [e|st] _.
  { eapply runs_bind_looks; [apply looks_close|]. intros ? _. by destruct (decide _); apply remove_kept. }
  case_bool_decide; [by apply Hone|]. destruct (negb _); [by apply Hone|]. destruct (negb _); [by apply Hone|].
  eapply runs_bind_looks; [apply looks_open|]. intros [e|fd] Hopen; [by apply Hone|]. destruct Hopen as (i & Hl & _).
  eapply runs_bind_looks; [apply looks_fstat|]. intros [e|ost] Hst; [by apply Htwo|]. destruct Hst as (i' & Hi & ->).
  apply lookup_path_Some in Hl as Hl2. assert (i' = i) as -> by (destruct Hl2; congruence).
  destruct (stat_matches _ expected) eqn:Hm; cbn [negb]; [|by apply Htwo].
  eapply runs_bind; [by apply (read_all_spec d fd i)|]. intros [text|] d' [-> Htext]; [|by apply Htwo].
  destruct (String.eqb_spec text (content expected)) as [Heq|]; cbn [negb]; [|by apply Htwo].
  rewrite (Htext _ eq_refl) in Heq. destruct (stat_matches_spec _ _ _ _ Hm Heq) as [Hreg Hexp].
  assert (object_at d path expected) as Hobj by by exists fd, i.
  unfold remove_proven. eapply runs_bind_looks; [apply looks_lstat|]. intros [e|st'] Hst'; [by apply Htwo|].
  destruct (same_object _ _); cbn [negb]; [|by apply Htwo].
  assert (d_names d !! path = Some fd) as Hname by (by apply lookup_path_Some in Hl as [? _]).
  eapply (runs_bind _ _ _ (λ r d', if ok r then
    dropped d d' path fd ∧ d_names d' = delete path (d_names d) else d' = d)).
  { apply runs_sys; [done|]. intros _. rewrite Hname. simpl. split; [|done]. unfold dropped. simpl. split_and!; auto. }
  intros unlinked d' Hd'. eapply runs_bind_looks; [apply close_both_looks|]. intros ? _.
  destruct (ok unlinked); cbn [negb]; [|subst; by apply remove_kept]. destruct Hd' as [Hdrop _].
  eapply runs_bind; [apply fsync_parent_runs|]. intros sync d'' ->. apply runs_ret. unfold remove_post. cbn [fst snd removed].
  rewrite Hexp. cbn [inode identity target_of_stat stat_of st_ino]. split_and!; try done.
  - by rewrite <-Hexp.
  - destruct sync; [|done]. destruct Hdrop as (?&?&?&?&?&?&?&?). unfold dropped. simpl. split_and!; auto.
  - simpl. by intros ->.
Qed.

(** * Properties *)

Definition alone (w : World) : Prop := obeys eq w.

(** C29. A conditional write is all or nothing, whichever system calls fail
    (with nobody else acting on the directory, no exclusive creation and no
    admission callback). When it does not report the file installed, it failed
    and the path names what it named, now and after a crash. When it reports it
    installed, the path held exactly the expected state before, it now holds a
    regular file with the new content, already synced, and a crash brings back
    that file or what the path could come back as before; and when the write
    succeeds, a crash brings back only the new file. *)
Theorem atomic_write_all_or_nothing path text options w :
  alone w → wf (w_disk w) → visible path →
  rejectSymlink options = true → exclusiveCreate options = false → beforePublish options = None →
  let d := w_disk w in
  let res := (writeWithResult path text options w).1 in
  let d' := w_disk (writeWithResult path text options w).2 in
  (installed res.2 = false →
     res.1 = false ∧ lookup_path d' path = lookup_path d path ∧
     ∀ e, crash_entry d' path e → crash_entry d path e) ∧
  (installed res.2 = true →
     (∀ s, expectedTargetState options = Some s → object_at d path s) ∧
     ∃ n i, lookup_path d' path = Some (n, i) ∧ i_kind i = Regular ∧ i_content i = text ∧ i_saved i = Some text ∧
       (∀ e, crash_entry d' path e → e = Some n ∨ crash_entry d path e) ∧
       (res.1 = true → ∀ e, crash_entry d' path e → e = Some n)).
Proof.
  intros Hw Hwf Hp Hrej Hex Hadm d res d'.
  pose proof (runs_elim _ _ _ _ (write_runs d path text options Hwf Hp Hrej Hadm) eq_refl Hw) as Hpost.
  fold res d' in Hpost. unfold write_post in Hpost. destruct (installed res.2); [split; [done|intros _]|split; [intros _|done]].
  - destruct Hpost as (Hok & (n & i & [Hsw (i0 & target & Hs & Hwant)] & _) & Hdur & Hexp). split; [done|].
    exists n, i. unfold wanted, is_file in Hwant. destruct (wanted_metadata _ _ _ _) as [[u g] m].
    destruct Hwant as (Hk & Hc & Hsv & _), Hs as (Sk & Sc & Ss & _). split_and!; try congruence.
    + unfold lookup_path. by rewrite (sw_name _ _ _ _ _ Hsw), (sw_node _ _ _ _ _ Hsw).
    + intros e He. destruct (sw_crash _ _ _ _ _ Hsw path e Hp He) as [[_ ->]|?]; auto.
    + intros Htrue. rewrite Hok in Htrue. intros e [->|Hin]; [by rewrite (sw_name _ _ _ _ _ Hsw)|].
      rewrite (Hdur Htrue), lookup_empty in Hin. inversion Hin.
  - destruct Hpost as (? & _ & _ & [Ha|[? _]]); [|congruence]. split_and!; [done|by apply aside_lookup|].
    intros e. unfold crash_entry. by rewrite (as_names _ _ Ha), (as_stale _ _ Ha).
Qed.

(** Removal is conditional: with nobody else acting, a removal that reports
    the file removed has removed exactly the expected state, and when it
    succeeds a crash cannot bring the name back; otherwise nothing changed. *)
Theorem conditional_removal path expected w :
  alone w →
  let d := w_disk w in
  let res := (removeIfCurrentState path expected w).1 in
  let d' := w_disk (removeIfCurrentState path expected w).2 in
  (removed res.2 = false → d' = d) ∧
  (removed res.2 = true → object_at d path expected ∧ lookup_path d' path = None ∧
     (res.1 = true → ∀ e, crash_entry d' path e → e = None)).
Proof.
  intros Hw d res d'. pose proof (runs_elim _ _ _ _ (remove_runs d path expected) eq_refl Hw) as Hpost.
  fold res d' in Hpost. unfold remove_post in Hpost. destruct (removed res.2); [split; [done|intros _]|split; [intros _|done]].
  - destruct Hpost as (Hok & _ & Hobj & (Hn & _) & Hdur). split_and!; [done| |].
    + unfold lookup_path. by rewrite Hn, lookup_delete_eq.
    + intros Htrue. rewrite Hok in Htrue. intros e [->|Hin]; [by rewrite Hn, lookup_delete_eq|].
      rewrite (Hdur Htrue), lookup_empty in Hin. inversion Hin.
  - by destruct Hpost.
Qed.

(** * Witnesses *)

Definition dir_inode : Inode := mkInode Directory "" None 1512 0 7 2 0 0.
Definition file_inode (text : string) : Inode := mkInode Regular text (Some text) 416 0 7 1 0 0.
Definition empty_disk : Disk := mkDisk 1 ∅ ∅ ∅ dir_inode 10 0 0 7.
Definition one_file (name text : string) : Disk :=
  mkDisk 1 {[2%N := file_inode text]} {[name := 2%N]} ∅ dir_inode 10 0 0 7.

Lemma one_file_wf name text : wf (one_file name text).
Proof.
  intros n Hn. simpl in Hn. split_and!; simpl.
  - apply lookup_singleton_ne. lia.
  - intros p. destruct (decide (p = name)) as [->|]; [rewrite lookup_singleton_eq; intros [= ?]; lia|].
    by rewrite lookup_singleton_ne.
  - intros p l. by rewrite lookup_empty.
Qed.

(** A script in which only the calls at the given positions fail. *)
Definition failing (faults : list (option Z)) : list Tick := (λ e, mkTick id e None) <$> faults.

Lemma failing_alone d faults : alone (mkWorld d (failing faults)).
Proof. unfold alone, obeys. simpl. induction faults; constructor; auto. Qed.

Definition replace_options (s : AtomicTargetState) : AtomicWriteOptions :=
  mkOptions false true false EnforceProvided (Some 416%Z) (Some 0%Z) (Some 7%Z) None (Some s) None.
Definition create_options : AtomicWriteOptions :=
  mkOptions true true true EnforceProvided (Some 416%Z) (Some 0%Z) (Some 7%Z) None None None.

Definition one_state (text : string) : AtomicTargetState := mkTarget (mkIdentity 1 2) text 416 0 7.

Lemma atomic_write_all_or_nothing_witness :
  let w := mkWorld (one_file "f" "old") (failing []) in
  installed (writeWithResult "f" "new" (replace_options (one_state "old")) w).1.2 = true ∧
  object_at (one_file "f" "old") "f" (one_state "old").
Proof.
  split; [vm_compute; reflexivity|].
  destruct (atomic_write_all_or_nothing "f" "new" (replace_options (one_state "old"))
    (mkWorld (one_file "f" "old") (failing [])) (failing_alone _ _) (one_file_wf _ _) ltac:(done)
    eq_refl eq_refl eq_refl) as [_ H].
  destruct H as [H _]; [vm_compute; reflexivity|]. exact (H (one_state "old") eq_refl).
Defined.

Lemma conditional_removal_witness :
  let w := mkWorld (one_file "f" "old") (failing []) in
  removed (removeIfCurrentState "f" (one_state "old") w).1.2 = true ∧
  lookup_path (w_disk (removeIfCurrentState "f" (one_state "old") w).2) "f" = None.
Proof.
  split; [vm_compute; reflexivity|].
  destruct (conditional_removal "f" (one_state "old") (mkWorld (one_file "f" "old") (failing []))
    (failing_alone _ _)) as [_ H].
  destruct H as (_ & H & _); [vm_compute; reflexivity|]. exact H.
Defined.

(** An exclusive creation can publish the file and deny it: where
    [renameat2] is not supported, [installTempFile] links the target and then
    removes the temporary name, and a failure of that last step is reported as
    "not installed" although the target is there. *)
Theorem exclusive_create_can_publish_unreported :
  let faults := [None; None; None; None; None; None; None; None; None; Some ENOSYS; None; Some EIO] in
  let r := writeWithResult "f" "new" create_options (mkWorld empty_disk (failing faults)) in
  r.1 = (false, no_write) ∧ object_at (w_disk r.2) "f" (mkTarget (mkIdentity 1 10) "new" 416 0 7).
Proof.
  split; [vm_compute; reflexivity|]. eexists 10%N, _. split_and!; vm_compute; reflexivity.
Qed.
