(* ===== verification/SecureRead.v ===== *)
(** Reading a small security state file with proof
    (fic-common/fic-core: fs/SecureStateFile): the parent directory, the
    object's kind, owner, group, mode, links and size are checked on one
    descriptor, the content is read twice through it and its identity, size and
    times are compared before and after. *)

From S2P Require Import Prelude FileModel AtomicWriter AtomicFacts.
Open Scope string_scope.
Open Scope nat_scope.
Open Scope file_scope.

(** A zero disables a mode check and defers a size to the hard bound. *)
Record SecureStateFileExpectation := mkExpectation {
  exp_owner : option Z;
  exp_group : option Z;
  exactMode : Z;
  forbiddenMode : Z;
  maxSize : Z;
  requireSingleLink : bool;
  exactParentMode : Z;
  parentOwner : option Z;
  parentGroup : option Z
}.

Inductive SecureStateReadStatus := Proven | Missing | Unprovable.
#[export] Instance SecureStateReadStatus_eq_dec : EqDecision SecureStateReadStatus.
Proof. solve_decision. Defined.

Record SecureStateReadResult := mkRead {
  read_status : SecureStateReadStatus;
  read_content : string;
  targetState : AtomicTargetState
}.

Definition no_state : AtomicTargetState := mkTarget (mkIdentity 0 0) "" 0 0 0.
Definition unprovable : SecureStateReadResult := mkRead Unprovable "" no_state.
Definition missing : SecureStateReadResult := mkRead Missing "" no_state.

Definition SECURE_STATE_READ_HARD_MAX_BYTES : Z := 4096%Z.

(** [expected.has_value() && actual != *expected]. *)
Definition differs (expected : option Z) (actual : Z) : bool :=
  match expected with Some e => bool_decide (actual ≠ e) | None => false end.

Definition proveSafeParentDirectory (expectation : SecureStateFileExpectation) : M bool :=
  let* directory := sys_open_dir true in
  match directory with
  | inl _ => mret false
  | inr _ =>
      let* info := sys_fstat_dir in
      let* _ := sys_close in
      mret (match info with
            | inl _ => false
            | inr st =>
                negb (differs (parentOwner expectation) (st_uid st)) &&
                negb (differs (parentGroup expectation) (st_gid st)) &&
                negb (bool_decide (exactParentMode expectation ≠ 0%Z) &&
                      bool_decide (st_mode st ≠ exactParentMode expectation))
            end)
  end.

Definition accepted_size (expectation : SecureStateFileExpectation) (hardMaxBytes : Z) : Z :=
  if decide (maxSize expectation ≠ 0%Z) then Z.min (maxSize expectation) hardMaxBytes else hardMaxBytes.

(** The checks on the descriptor before reading. *)
Definition acceptable (expectation : SecureStateFileExpectation) (accepted : Z) (st : Stat) : bool :=
  bool_decide (st_kind st = Regular) &&
  negb (differs (exp_owner expectation) (st_uid st)) &&
  negb (differs (exp_group expectation) (st_gid st)) &&
  negb (bool_decide (exactMode expectation ≠ 0%Z) && bool_decide (st_mode st ≠ exactMode expectation)) &&
  negb (bool_decide (forbiddenMode expectation ≠ 0%Z) &&
        bool_decide (Z.land (st_mode st) (forbiddenMode expectation) ≠ 0%Z)) &&
  negb (requireSingleLink expectation && bool_decide (st_nlink st ≠ 1%Z)) &&
  (st_size st <=? accepted)%Z.

(** [while (content.size() <= acceptedSize) read(...)]; [None]: an error. *)
Fixpoint bounded_read (turns : nat) (fd : N) (accepted : nat) (acc : string) : M (option string) :=
  if (accepted <? String.length acc)%nat then mret (Some acc)
  else
    match turns with
    | 0 => mret None
    | S turns =>
        let* t := read_once fd (String.length acc) in
        match t with
        | TurnEnd => mret (Some acc)
        | TurnError => mret None
        | TurnAgain => bounded_read turns fd accepted acc
        | TurnBytes s => bounded_read turns fd accepted (acc +:+ s)
        end
    end.

(** [while (secondCount < second.size()) pread(...)]. *)
Fixpoint second_read (turns : nat) (fd : N) (size : nat) (acc : string) : M (option string) :=
  if (size <=? String.length acc)%nat then mret (Some acc)
  else
    match turns with
    | 0 => mret None
    | S turns =>
        let* r := sys_read fd (String.length acc) (size - String.length acc) in
        match r with
        | inl e => if decide (e = EINTR) then second_read turns fd size acc else mret None
        | inr EmptyString => mret (Some acc)
        | inr s => second_read turns fd size (acc +:+ s)
        end
    end.

Definition same_times (a b : Stat) : bool :=
  bool_decide (st_mtim a = st_mtim b) && bool_decide (st_ctim a = st_ctim b).

Definition unchanged (before after : Stat) : bool :=
  bool_decide (st_dev after = st_dev before) && bool_decide (st_ino after = st_ino before) &&
  bool_decide (st_size after = st_size before) && same_times after before.

Definition close_and {A} (a : A) : M A := let* _ := sys_close in mret a.

Definition readSecureFileBounded (path : string) (expectation : SecureStateFileExpectation) (hardMaxBytes : Z)
  : M SecureStateReadResult :=
  if decide (hardMaxBytes = 0%Z) then mret unprovable
  else
    let* parent := proveSafeParentDirectory expectation in
    if negb parent then mret unprovable
    else
      let accepted := accepted_size expectation hardMaxBytes in
      let* descriptor := sys_open path in
      match descriptor with
      | inl e => mret (if decide (e = ENOENT) then missing else unprovable)
      | inr fd =>
          let* first := sys_fstat fd in
          match first with
          | inl _ => close_and unprovable
          | inr before =>
              if negb (acceptable expectation accepted before) then close_and unprovable
              else
                let* ticks := script_length in
                let* text := bounded_read (ticks + S (S (Z.to_nat accepted))) fd (Z.to_nat accepted) "" in
                match text with
                | None => close_and unprovable
                | Some text =>
                    if (accepted <? Z.of_nat (String.length text))%Z then close_and unprovable
                    else
                      let* second := sys_fstat fd in
                      match second with
                      | inl _ => close_and unprovable
                      | inr after =>
                          if negb (unchanged before after) then close_and unprovable
                          else
                            let* ticks := script_length in
                            let* again := second_read (ticks + S (S (String.length text))) fd
                                            (S (String.length text)) "" in
                            let same := match again with Some again => String.eqb again text | None => false end in
                            let* third := (if same then sys_fstat fd else mret (inl EIO)) in
                            let proved := match third with inr final => same_times final after | inl _ => false end in
                            if negb proved then close_and unprovable
                            else close_and (mkRead Proven text (target_of_stat before text))
                      end
                end
          end
      end.

Definition readSecureStateFile (path : string) (expectation : SecureStateFileExpectation) : M SecureStateReadResult :=
  readSecureFileBounded path expectation SECURE_STATE_READ_HARD_MAX_BYTES.

(** * What a proven read proves

    Other processes may act between any two system calls, as long as every
    change of an inode advances its change time. *)

Section sound.
Context (R : relation Disk) `{!PreOrder R}.
Hypothesis R_law : ∀ d d' n i, R d d' → d_nodes d !! n = Some i →
  d_dev d' = d_dev d ∧ ∃ i', d_nodes d' !! n = Some i' ∧ (i' = i ∨ (i_ctime i < i_ctime i')%Z).

(** Inode [n] has changed since it was [i], or it is still [i] and [φ] holds. *)
Definition steady (since : Disk) (dev n : N) (i : Inode) (φ : Prop) (d : Disk) : Prop :=
  (R since d ∧ d_dev d = dev) ∧ ∃ i', d_nodes d !! n = Some i' ∧ ((i_ctime i < i_ctime i')%Z ∨ i' = i ∧ φ).

Lemma steady_stable since dev n i φ : stable R (steady since dev n i φ).
Proof.
  intros d d' HR ([Hs Hdev] & i' & Hi' & Hcase). destruct (R_law _ _ _ _ HR Hi') as (Hd & i'' & Hi'' & Hch).
  split; [split; [by etrans|congruence]|]. exists i''. split; [done|].
  destruct Hch as [->|Hlt]; [done|]. left. destruct Hcase as [?|[-> _]]; lia.
Qed.

Lemma steady_mono since dev n i (φ ψ : Prop) d : (φ → ψ) → steady since dev n i φ d → steady since dev n i ψ d.
Proof. intros H (? & i' & ? & Hc). split; [done|]. exists i'. split; [done|]. destruct Hc as [?|[? ?]]; auto. Qed.

Lemma fstat_steady since dev n i φ :
  triple R (steady since dev n i φ) (sys_fstat n) (λ r d, steady since dev n i φ d ∧
    match r with
    | inr st => st_ctim st = i_ctime i → d_nodes d !! n = Some i ∧ φ ∧ st = stat_of dev n i
    | inl _ => True end).
Proof.
  eapply triple_conseq; [apply triple_look; [done|apply steady_stable|]|done|].
  - intros _ d. unfold with_fd. by destruct (d_nodes d !! n).
  - intros r d [Hst [(e & ->)|(limit & ->)]]; [done|]. split; [done|].
    destruct Hst as ([_ Hdev] & i' & Hi' & Hc). unfold with_fd. rewrite Hi'. simpl. intros Ht.
    destruct Hc as [?|[-> ?]]; [lia|]. by rewrite Hdev.
Qed.

Lemma read_steady since dev n i φ offset size : 0 < size →
  triple R (steady since dev n i φ) (sys_read n offset size) (λ r d, steady since dev n i
    (φ ∧ match r with inr s => ∃ k, 0 < k ∧ s = String.substring offset k (i_content i) | inl _ => True end) d).
Proof.
  intros Hs. eapply triple_conseq; [apply triple_look; [done|apply steady_stable|]|done|].
  - intros limit d. unfold with_fd. by destruct (d_nodes d !! n).
  - intros r d [Hst Hr]. destruct Hst as (Hdev & i' & Hi' & Hc). split; [done|]. exists i'. split; [done|].
    destruct Hc as [?|[-> Hφ]]; [by left|right]. split; [done|]. split; [done|].
    destruct Hr as [(e & ->)|(limit & ->)]; [done|]. unfold with_fd. rewrite Hi'. simpl.
    exists (match limit with Some k => Nat.min (Nat.max 1 k) size | None => size end).
    split; [destruct limit; lia|done].
Qed.

Lemma read_once_steady since dev n i φ offset :
  triple R (steady since dev n i φ) (read_once n offset) (λ t d, steady since dev n i
    (φ ∧ match t with
         | TurnEnd => ∃ k, String.substring offset (S k) (i_content i) = ""
         | TurnBytes s => ∃ k, s = String.substring offset k (i_content i)
         | _ => True
         end) d).
Proof.
  eapply triple_bind; [apply read_steady; by apply Nat.ltb_lt; vm_compute|].
  intros r. apply triple_ret. intros d. apply steady_mono. intros [Hφ Hr]. split; [done|].
  destruct r as [e|s]; [by destruct (decide _)|]. destruct Hr as (k & Hk & ->).
  destruct (String.substring offset k (i_content i)) eqn:Hs; [|by exists k].
  exists (k - 1). by replace (S (k - 1)) with k by lia.
Qed.

Lemma bounded_read_steady since dev n i accepted turns acc :
  triple R (steady since dev n i (∃ rest, i_content i = acc +:+ rest)) (bounded_read turns n accepted acc)
    (λ r d, steady since dev n i (∀ s, r = Some s → String.length s ≤ accepted → s = i_content i) d).
Proof.
  revert acc. induction turns as [|turns IH]; intros acc; simpl.
  { destruct (Nat.ltb_spec accepted (String.length acc)); apply triple_ret; intros d; apply steady_mono.
    - intros _ s [= <-]. lia.
    - intros _ s [=]. }
  destruct (Nat.ltb_spec accepted (String.length acc)).
  { apply triple_ret. intros d. apply steady_mono. intros _ s [= <-]. lia. }
  eapply triple_bind; [apply read_once_steady|]. intros [| | |s].
  - apply triple_ret. intros d. apply steady_mono. intros [[rest Hc] [k Hk]] s [= <-] _.
    rewrite Hc, substring_skip in Hk. apply substring_front_nil in Hk as ->. by rewrite Hc, string_app_nil_r.
  - apply triple_ret. intros d. apply steady_mono. by intros ? ? [=].
  - eapply triple_conseq; [apply IH| |done]. intros d. apply steady_mono. by intros [? _].
  - eapply triple_conseq; [apply IH| |done]. intros d. apply steady_mono. intros [[rest Hc] [k Hk]].
    rewrite Hc, substring_skip in Hk. destruct (substring_front k rest) as [tail Ht]. rewrite <-Hk in Ht.
    exists tail. by rewrite Hc, Ht, string_app_assoc.
Qed.

Lemma second_read_steady since dev n i φ size turns acc :
  triple R (steady since dev n i φ) (second_read turns n size acc) (λ _ d, steady since dev n i φ d).
Proof.
  revert acc. induction turns as [|turns IH]; intros acc; simpl;
    destruct (Nat.leb_spec size (String.length acc)); try (by apply triple_ret).
  eapply triple_bind; [apply read_steady; lia|]. intros r.
  eapply (triple_conseq _ _ _ (steady since dev n i φ) _ (λ _ d, steady since dev n i φ d));
    [|intros d; apply steady_mono; by intros [? _]|done].
  destruct r as [e|s]; [destruct (decide _); [apply IH|by apply triple_ret]|].
  destruct s; [by apply triple_ret|apply IH].
Qed.

(** The outcome of a read that started on [d0] and ended on [d]. A proven read
    opened the object [path] named at [d1]; from [d2] until [d3] the object was
    the inode [i], acceptable, and its content and state are the result. *)
Definition read_post (path : string) (expectation : SecureStateFileExpectation) (accepted : Z)
    (d0 : Disk) (r : SecureStateReadResult) (d : Disk) : Prop :=
  R d0 d ∧
  match read_status r with
  | Proven => ∃ d1 d2 d3 n i0 i, R d0 d1 ∧ R d1 d2 ∧ R d2 d3 ∧ R d3 d ∧
      lookup_path d1 path = Some (n, i0) ∧ d_nodes d2 !! n = Some i ∧ d_nodes d3 !! n = Some i ∧
      acceptable expectation accepted (stat_of (d_dev d2) n i) = true ∧
      r = mkRead Proven (i_content i) (target_of_stat (stat_of (d_dev d2) n i) (i_content i))
  | Missing => ∃ d1, R d0 d1 ∧ R d1 d ∧ lookup_path d1 path = None
  | Unprovable => True
  end.

Lemma close_unprovable path expectation accepted d0 (P : Disk → Prop) :
  stable R P → (∀ d, P d → R d0 d) →
  triple R P (close_and unprovable) (read_post path expectation accepted d0).
Proof.
  intros HP Hd0. eapply triple_bind; [by apply triple_close|]. intros ?. apply triple_ret.
  intros d Hd. split; [auto|done].
Qed.

Lemma steady_since since dev n i φ d : steady since dev n i φ d → R since d.
Proof. by intros [[? _] _]. Qed.

(** The part of the read after the first [fstat] accepted the object. *)
Lemma read_accepted path expectation accepted d0 d1 d2 n i0 i :
  R d0 d1 → R d1 d2 → lookup_path d1 path = Some (n, i0) → d_nodes d2 !! n = Some i →
  acceptable expectation accepted (stat_of (d_dev d2) n i) = true →
  triple R (steady d2 (d_dev d2) n i True)
    (let before := stat_of (d_dev d2) n i in
     let* ticks := script_length in
     let* text := bounded_read (ticks + S (S (Z.to_nat accepted))) n (Z.to_nat accepted) "" in
     match text with
     | None => close_and unprovable
     | Some text =>
         if (accepted <? Z.of_nat (String.length text))%Z then close_and unprovable
         else
           let* second := sys_fstat n in
           match second with
           | inl _ => close_and unprovable
           | inr after =>
               if negb (unchanged before after) then close_and unprovable
               else
                 let* ticks := script_length in
                 let* again := second_read (ticks + S (S (String.length text))) n (S (String.length text)) "" in
                 let same := match again with Some again => String.eqb again text | None => false end in
                 let* third := (if same then sys_fstat n else mret (inl EIO)) in
                 let proved := match third with inr final => same_times final after | inl _ => false end in
                 if negb proved then close_and unprovable
                 else close_and (mkRead Proven text (target_of_stat before text))
           end
     end) (read_post path expectation accepted d0).
Proof.
  intros H01 H12 Hl Hi Hacc. cbv zeta. set (before := stat_of (d_dev d2) n i).
  assert (∀ φ, triple R (steady d2 (d_dev d2) n i φ) (close_and unprovable)
    (read_post path expectation accepted d0)) as Hfail.
  { intros φ. apply close_unprovable; [apply steady_stable|]. intros d Hd%steady_since. by do 2 (etrans; [done|]). }
  eapply triple_bind; [apply triple_script_length|]. intros ticks.
  eapply triple_bind.
  { eapply triple_conseq; [apply (bounded_read_steady d2 (d_dev d2) n i)| |done]. intros d. apply steady_mono.
    intros _. by exists (i_content i). }
  intros [text|]; [|apply Hfail]. destruct (Z.ltb_spec accepted (Z.of_nat (String.length text))); [apply Hfail|].
  eapply triple_bind; [apply fstat_steady|]. intros [e|after].
  { eapply triple_conseq; [apply Hfail| |done]. by intros d [? _]. }
  destruct (unchanged before after) eqn:Hun; cbn [negb].
  2: { eapply triple_conseq; [apply Hfail| |done]. by intros d [? _]. }
  eapply (triple_bind _ _ _ _ (λ _, steady d2 (d_dev d2) n i (text = i_content i))).
  { eapply triple_conseq; [apply (triple_script_length R (steady d2 (d_dev d2) n i (text = i_content i)))| |done].
    intros d [Hst _]. eapply steady_mono; [|exact Hst].
    intros Ht. apply Ht; [done|]. lia. }
  intros ticks'. eapply triple_bind; [apply second_read_steady|]. intros again. cbv zeta.
  assert (st_ctim after = i_ctime i) as Hct.
  { unfold unchanged, same_times in Hun. rewrite !andb_true_iff, !bool_decide_eq_true in Hun. by destruct Hun as (_ & _ & ?). }
  destruct (match again with Some again => _ | None => _ end).
  2: { eapply (triple_bind _ _ _ _ (λ r d, r = inl EIO ∧ steady d2 (d_dev d2) n i (text = i_content i) d)).
       - by apply triple_ret.
       - intros r. apply triple_pure. intros ->. simpl. apply Hfail. }
  eapply triple_bind; [apply fstat_steady|]. intros [e|final].
  { eapply triple_conseq; [apply Hfail| |done]. by intros d [? _]. }
  destruct (same_times final after) eqn:Hs; cbn [negb].
  2: { eapply triple_conseq; [apply Hfail| |done]. by intros d [? _]. }
  unfold same_times in Hs. rewrite andb_true_iff, !bool_decide_eq_true in Hs. destruct Hs as [_ Hs].
  eapply (triple_bind _ _ _ _ (λ _ d, ∃ d3, R d2 d3 ∧ R d3 d ∧ d_nodes d3 !! n = Some i ∧ text = i_content i)).
  { eapply triple_conseq; [apply (triple_close _ (λ d, ∃ d3, R d2 d3 ∧ R d3 d ∧ d_nodes d3 !! n = Some i ∧ text = i_content i))| |done].
    - intros d d' HR (d3 & ? & ? & ?). exists d3. split_and!; [done|by etrans|naive_solver..].
    - intros d [Hst Hf]. destruct Hf as (Hn & -> & _); [congruence|]. exists d.
      split_and!; [by eapply steady_since|done..]. }
  intros ?. apply triple_ret. intros d (d3 & H23 & H3 & Hn & ->). split; [by do 3 (etrans; [done|])|]. simpl.
  exists d1, d2, d3, n, i0, i. split_and!; done.
Qed.

Lemma from_stable d0 : stable R (R d0).
Proof. intros d d' HR H0. by etrans. Qed.

Lemma parent_triple d0 expectation :
  triple R (R d0) (proveSafeParentDirectory expectation) (λ _ d, R d0 d).
Proof.
  unfold proveSafeParentDirectory. eapply triple_bind.
  { apply triple_look; [done|apply from_stable|]. intros _ d. destruct (decide _); [done|]. by destruct (_ && _). }
  intros r. eapply (triple_conseq _ _ _ (R d0) _ (λ _ d, R d0 d)); [|by intros d [? _]|done].
  destruct r as [e|[]]; [by apply triple_ret|]. eapply triple_bind.
  { by apply triple_look; [done|apply from_stable|]. }
  intros info. eapply (triple_conseq _ _ _ (R d0) _ (λ _ d, R d0 d)); [|by intros d [? _]|done].
  eapply triple_bind; [apply triple_close, from_stable; done|]. intros ?. by apply triple_ret.
Qed.

(** The object [path] named at some moment since [d0] is inode [n]. *)
Definition opened (d0 : Disk) (path : string) (n : N) (d : Disk) : Prop :=
  ∃ d1 i0, R d0 d1 ∧ R d1 d ∧ lookup_path d1 path = Some (n, i0).

Lemma opened_stable d0 path n : stable R (opened d0 path n).
Proof. intros d d' HR (d1 & i0 & ? & ? & ?). exists d1, i0. split_and!; [done|by etrans|done]. Qed.

Lemma read_sound d0 path expectation hard :
  triple R (R d0) (readSecureFileBounded path expectation hard)
    (read_post path expectation (accepted_size expectation hard) d0).
Proof.
  unfold readSecureFileBounded. destruct (decide (hard = 0%Z)) as [|Hhard].
  { apply triple_ret. by intros d Hd. }
  eapply triple_bind; [apply parent_triple|]. intros [] ; cbn [negb]; [|apply triple_ret; by intros d Hd].
  eapply triple_bind.
  { apply triple_look; [done|apply from_stable|]. intros _ d.
    destruct (lookup_path d path) as [[m i]|]; [|done]. by destruct (decide _). }
  intros [e|n].
  { apply triple_ret. intros d [Hd Hr]. destruct (decide (e = ENOENT)) as [->|]; [|by split].
    split; [done|]. exists d. split_and!; [done|done|]. destruct Hr as [(e' & [=])|(limit & Hr)].
    - by destruct (injected_not e').
    - destruct (lookup_path d path) as [[m i]|]; [|done]. by destruct (decide _). }
  eapply (triple_conseq _ _ _ (opened d0 path n) _ (read_post path expectation (accepted_size expectation hard) d0)); [| |done].
  2: { intros d [Hd [(e' & [=])|(limit & Hr)]]. destruct (lookup_path d path) as [[n' i]|] eqn:Hl; [|done].
       destruct (decide _); [done|]. injection Hr as ->. exists d, i. done. }
  assert (∀ d, opened d0 path n d → R d0 d) as Hfrom by (intros d (d1 & i0 & ? & ? & ?); by etrans).
  eapply triple_bind.
  { apply triple_look; [done|apply opened_stable|]. intros _ d. unfold with_fd. by destruct (d_nodes d !! n). }
  intros [e|before].
  { eapply triple_conseq; [apply (close_unprovable path expectation (accepted_size expectation hard) d0 (opened d0 path n));
      [apply opened_stable|done]| |done].
    by intros d [? _]. }
  eapply (triple_conseq _ _ _ (λ d, ∃ d1 d2 i0 i, R d0 d1 ∧ R d1 d2 ∧ lookup_path d1 path = Some (n, i0) ∧
    d_nodes d2 !! n = Some i ∧ before = stat_of (d_dev d2) n i ∧ steady d2 (d_dev d2) n i True d) _
    (read_post path expectation (accepted_size expectation hard) d0)); [| |done].
  2: { intros d [(d1 & i0 & H01 & H1 & Hl) [(e' & [=])|(limit & Hr)]]. unfold with_fd in Hr.
       destruct (d_nodes d !! n) as [i|] eqn:Hi; [|done]. injection Hr as ->.
       exists d1, d, i0, i. split_and!; try done. split; [done|]. exists i. eauto. }
  do 4 (apply triple_exists; intros ?). do 5 (apply triple_pure; intros ?). subst before.
  destruct (acceptable expectation _ _) eqn:Hacc; cbn [negb].
  - by eapply read_accepted.
  - eapply close_unprovable; [apply steady_stable|]. intros d Hd%steady_since. by do 2 (etrans; [done|]).
Qed.
End sound.

(** With nobody else acting, a read looks at one disk. *)
Definition quiet_read (path : string) (expectation : SecureStateFileExpectation) (accepted : Z)
    (d : Disk) (r : SecureStateReadResult) : Prop :=
  match read_status r with
  | Proven => ∃ n i, lookup_path d path = Some (n, i) ∧ acceptable expectation accepted (stat_of (d_dev d) n i) = true ∧
      r = mkRead Proven (i_content i) (target_of_stat (stat_of (d_dev d) n i) (i_content i))
  | Missing => lookup_path d path = None
  | Unprovable => True
  end.

Lemma looks_secure_read path expectation hard :
  looks (readSecureFileBounded path expectation hard)
    (λ d r, quiet_read path expectation (accepted_size expectation hard) d r).
Proof.
  intros d0. eapply triple_conseq; [apply (read_sound eq)|by intros ? ->|].
  - intros d d' n i <- Hi. eauto.
  - intros r d [<- Hr]. split; [done|]. unfold quiet_read. destruct (read_status r) eqn:Hst; [|by destruct Hr as (d1 & <- & _ & Hn)|done].
    destruct Hr as (d1 & d2 & d3 & n & i0 & i & <- & <- & <- & _ & Hl & Hi & _ & Hacc & ->). exists n, i.
    split_and!; [|done|done]. apply lookup_path_Some in Hl as [? _]. by apply lookup_path_Some.
Qed.

(** * Properties *)

(** Every change another process makes to an inode advances its change time. *)
Definition changes_advance_ctime (R : relation Disk) : Prop :=
  ∀ d d' n i, R d d' → d_nodes d !! n = Some i →
    d_dev d' = d_dev d ∧ ∃ i', d_nodes d' !! n = Some i' ∧ (i' = i ∨ (i_ctime i < i_ctime i')%Z).

(** A proven read is a snapshot: whatever other processes do between the
    system calls and whichever calls fail, provided that a change of an inode
    advances its change time, a read that ends [Proven] opened an object the
    path named at some moment of the read, that object satisfied every
    expectation at a later moment and did not change until a still later one,
    and the content and the state reported are that object's then; and a read
    that ends [Missing] saw the path name nothing at some moment. *)
Theorem proven_read_is_snapshot R path expectation hard w :
  PreOrder R → changes_advance_ctime R → obeys R w →
  let r := (readSecureFileBounded path expectation hard w).1 in
  let d' := w_disk (readSecureFileBounded path expectation hard w).2 in
  read_post R path expectation (accepted_size expectation hard) (w_disk w) r d'.
Proof.
  intros HR Hlaw Hw. apply (read_sound R Hlaw (w_disk w)); [done|reflexivity].
Qed.

(** * Witnesses *)

Definition state_expectation : SecureStateFileExpectation :=
  mkExpectation (Some 0%Z) (Some 7%Z) 416 0 64 true 1512 (Some 0%Z) (Some 7%Z).

Lemma proven_read_is_snapshot_witness :
  let w := mkWorld (one_file "f" "text") (failing [None; Some EINTR; None; None; None; Some EINTR]) in
  read_status (readSecureFileBounded "f" state_expectation 64 w).1 = Unprovable ∧
  read_status (readSecureFileBounded "f" state_expectation 64 (mkWorld (one_file "f" "text") [])).1 = Proven ∧
  read_post eq "f" state_expectation 64 (one_file "f" "text")
    (readSecureFileBounded "f" state_expectation 64 w).1 (w_disk (readSecureFileBounded "f" state_expectation 64 w).2).
Proof.
  split; [vm_compute; reflexivity|]. split; [vm_compute; reflexivity|].
  apply (proven_read_is_snapshot eq "f" state_expectation 64
    (mkWorld (one_file "f" "text") (failing [None; Some EINTR; None; None; None; Some EINTR])) _).
  - intros d d' n i <- Hi. eauto.
  - apply failing_alone.
Defined.
