(* ===== verification/StateStore.v ===== *)
(** The persistent incident state (fic/src/incident/IncidentStateStore): one
    severity token in one file, raised monotonically and cleared only durably.

    The store is written against an interface of file operations
    ([StateFiles]) whose laws say what each of them guarantees; the atomic
    writer and the secure reader discharge them ([real_files]). Diagnostic
    texts are left out. [fic_group] is the group id that
    [FileStats::resolve_owner_group] finds for the group fic. *)

From S2P Require Import Prelude Severity FileModel AtomicWriter AtomicFacts SecureRead.
Open Scope string_scope.
Open Scope nat_scope.
Open Scope file_scope.

(** * The interface to files *)

Class StateFiles := {
  sf_read : string → SecureStateFileExpectation → Z → M SecureStateReadResult;
  sf_write : string → string → AtomicWriteOptions → M (bool * AtomicWriteResult);
  sf_durable : string → AtomicTargetState → M bool;
  sf_absent : string → M bool;
  sf_remove : string → AtomicTargetState → M (bool * AtomicRemoveResult)
}.

Class StateFilesLaws `{StateFiles} := {
  law_read : ∀ path expectation hard,
    looks (sf_read path expectation hard) (λ d r, quiet_read path expectation (accepted_size expectation hard) d r);
  law_write : ∀ d path text options,
    wf d → visible path → rejectSymlink options = true → beforePublish options = None →
    runs (sf_write path text options) d (write_post d path text options);
  law_durable : ∀ d path expected,
    runs (sf_durable path expected) d (λ b d', if b then object_at d path expected ∧ d' = synced d else d' = d);
  law_absent : ∀ d path,
    runs (sf_absent path) d (λ b d', if b then lookup_path d path = None ∧ d' = synced d else d' = d ∨ d' = synced d);
  law_remove : ∀ d path expected, runs (sf_remove path expected) d (remove_post d path expected)
}.

#[export] Instance real_files : StateFiles := {|
  sf_read := readSecureFileBounded;
  sf_write := writeWithResult;
  sf_durable := ensureTargetDurableIfCurrentState;
  sf_absent := ensureTargetAbsentDurableIfCurrentState;
  sf_remove := removeIfCurrentState
|}.

#[export] Instance real_files_laws : StateFilesLaws.
Proof.
  split; simpl.
  - apply looks_secure_read.
  - apply write_runs.
  - apply durable_runs.
  - apply absent_runs.
  - apply remove_runs.
Qed.

(** * The content of the file *)

Definition newline_text : string := String (Ascii.ascii_of_nat 10) "".

Definition serialize (severity : IncidentSeverity) : string :=
  match incidentSeverityToken severity with Val token => token +:+ newline_text | Exn _ => newline_text end.

(** [content.back()] and the rest. *)
Fixpoint split_last (s : string) : option (string * Ascii.ascii) :=
  match s with
  | EmptyString => None
  | String c rest =>
      match split_last rest with
      | None => Some ("", c)
      | Some (body, last) => Some (String c body, last)
      end
  end.

Definition parseStrictSeverity (text : string) : string + IncidentSeverity :=
  match split_last text with
  | None => inl "empty content"
  | Some (body, last) =>
      if bool_decide (last ≠ Ascii.ascii_of_nat 10) then inl "missing final newline"
      else if String.eqb body "" then inl "empty token"
      else if contains (Ascii.ascii_of_nat 10) body then inl "multiple lines"
      else if contains "#"%char body then inl "comments are not accepted"
      else match parseIncidentSeverityToken body with
           | None => inl "unknown severity token"
           | Some severity => inr severity
           end
  end.

(** * Results *)

Inductive Provenance := PProven | PAbsent | PInvalidContent | PBroken.
#[export] Instance Provenance_eq_dec : EqDecision Provenance.
Proof. solve_decision. Defined.

Record ReadResult := mkStateRead {
  provenance : Provenance;
  severity : IncidentSeverity;
  provenState : option AtomicTargetState
}.

Inductive PersistenceResult := DurableConfirmed | InstalledNotDurable | NotInstalled | PersistFailed.
#[export] Instance PersistenceResult_eq_dec : EqDecision PersistenceResult.
Proof. solve_decision. Defined.

Record RaiseResult := mkRaise {
  durable : bool;
  persistence : PersistenceResult;
  effectiveSeverity : IncidentSeverity;
  escalated : bool;
  brokenStatePersisted : bool;
  installedState : option AtomicTargetState
}.

Record ClearResult := mkClear {
  clear_ok : bool;
  clear_brokenState : bool;
  clear_effective : IncidentSeverity;
  clear_persistence : PersistenceResult
}.

Definition incidentProvenanceReason (p : Provenance) : string :=
  match p with
  | PProven => "proven" | PAbsent => "absent" | PInvalidContent => "invalid_content" | PBroken => "broken"
  end.

Definition incidentProvenanceToken (p : Provenance) : string :=
  match p with
  | PProven => "PROVEN" | PAbsent => "ABSENT" | PInvalidContent => "INVALID_CONTENT" | PBroken => "BROKEN"
  end.

(** * The store *)

Section store.
Context `{StateFiles} (path : string) (fic_group : Z).

Definition lockedStateExpectation : SecureStateFileExpectation :=
  mkExpectation (Some 0%Z) (Some fic_group) 416 0 64 true 1512 (Some 0%Z) (Some fic_group).

Definition read : M ReadResult :=
  let* secure := sf_read path lockedStateExpectation SECURE_STATE_READ_HARD_MAX_BYTES in
  mret (match read_status secure with
        | Missing => mkStateRead PAbsent Unlocked None
        | Unprovable => mkStateRead PBroken Unlocked None
        | Proven =>
            match parseStrictSeverity (read_content secure) with
            | inl _ => mkStateRead PInvalidContent Unlocked (Some (targetState secure))
            | inr s => mkStateRead PProven s (Some (targetState secure))
            end
        end).

Definition locked_options (precondition : AtomicTargetState) (allowCreate : bool) : AtomicWriteOptions :=
  mkOptions allowCreate true allowCreate EnforceProvided
    (Some (if decide (mode precondition = 0%Z) then 416%Z else mode precondition))
    (Some (owner precondition))
    (if allowCreate then exp_group lockedStateExpectation else Some (group precondition))
    None (if allowCreate then None else Some precondition) None.

Definition writeLocked (precondition : AtomicTargetState) (target : IncidentSeverity) (allowCreate : bool)
  : M RaiseResult :=
  let* r := sf_write path (serialize target) (locked_options precondition allowCreate) in
  let '(writeSucceeded, result) := r in
  mret (if negb (installed result) then
          mkRaise false (if preconditionFailed result then NotInstalled else PersistFailed) Isolate false false None
        else if writeSucceeded && durabilityConfirmed result then
          mkRaise true DurableConfirmed target true false (installedTargetState result)
        else mkRaise false InstalledNotDurable target true false (installedTargetState result)).

Definition confirmInstalledDurability (result : RaiseResult) : M RaiseResult :=
  match installedState result with
  | None => mret result
  | Some state =>
      let* confirmed := sf_durable path state in
      mret (if negb confirmed then
              mkRaise false (persistence result) Isolate (escalated result) false (installedState result)
            else mkRaise true DurableConfirmed (effectiveSeverity result) (escalated result)
                   (brokenStatePersisted result) (installedState result))
  end.

(** The comparison of [encodeDurableBrokenStateLocked]. *)
Definition same_state (actual expected : AtomicTargetState) : bool :=
  bool_decide (device (identity actual) = device (identity expected)) &&
  bool_decide (inode (identity actual) = inode (identity expected)) &&
  bool_decide (mode actual = mode expected) && bool_decide (owner actual = owner expected) &&
  bool_decide (group actual = group expected) && String.eqb (content actual) (content expected).

Definition not_encoded : RaiseResult := mkRaise false PersistFailed Isolate false false None.
Definition encoded : RaiseResult := mkRaise true DurableConfirmed Isolate false true None.

Definition encodeDurableBrokenStateLocked (expected : option AtomicTargetState) : M RaiseResult :=
  let* current := read in
  match provenance current, provenState current with
  | PAbsent, _ =>
      let* absent := sf_absent path in
      mret (if absent then encoded else not_encoded)
  | PProven, Some actual =>
      if match expected with Some e => negb (same_state actual e) | None => false end then mret not_encoded
      else
        let* r := sf_remove path actual in
        let '(ok, removal) := r in
        if negb ok then mret not_encoded
        else if remove_preconditionFailed removal || negb (removed removal) then mret not_encoded
        else if negb (remove_durabilityConfirmed removal) then mret not_encoded
        else
          let* absent := sf_absent path in
          mret (if absent then encoded else not_encoded)
  | _, _ => mret not_encoded
  end.

Definition encodeDurableBrokenState : M RaiseResult := encodeDurableBrokenStateLocked None.

Definition MAX_RAISE_ATTEMPTS : nat := 8.

Fixpoint raise_attempts (attempts : nat) (requested : IncidentSeverity) : M RaiseResult :=
  match attempts with
  | 0 => mret (mkRaise false PersistFailed Isolate false false None)
  | S attempts =>
      let* current := read in
      match provenance current, provenState current with
      | PBroken, _ | PInvalidContent, _ => mret (mkRaise false PersistFailed Isolate false false None)
      | PAbsent, _ => encodeDurableBrokenStateLocked None
      | PProven, None => mret (mkRaise false PersistFailed Isolate false false None)
      | PProven, Some state =>
          let target := maxIncidentSeverity (severity current) requested in
          if bool_decide (target = severity current) then
            mret (mkRaise true DurableConfirmed (severity current) false false None)
          else
            let* written := writeLocked state target false in
            match persistence written with
            | DurableConfirmed => mret written
            | InstalledNotDurable =>
                let* confirmed := confirmInstalledDurability written in
                if durable confirmed then mret confirmed
                else encodeDurableBrokenStateLocked (installedState written)
            | NotInstalled => raise_attempts attempts requested
            | PersistFailed => encodeDurableBrokenStateLocked None
            end
      end
  end.

Definition raiseToAtLeast (requested : IncidentSeverity) : M RaiseResult :=
  raise_attempts MAX_RAISE_ATTEMPTS requested.

(** [writeLocked], and [confirmInstalledDurability] when it says "installed,
    not durable": what [clear] does for both of its writes. *)
Definition write_confirmed (precondition : AtomicTargetState) (target : IncidentSeverity) (allowCreate : bool)
  : M RaiseResult :=
  let* written := writeLocked precondition target allowCreate in
  if bool_decide (persistence written = InstalledNotDurable) then confirmInstalledDurability written else mret written.

(** The compensation of a clear that published UNLOCKED without making it
    durable; [installed] is the state it published. *)
Definition clear_compensate (current : ReadResult) (published : AtomicTargetState) : M ClearResult :=
  let* step :=
    (if bool_decide (provenance current = PProven) then
       let* restored := write_confirmed published (severity current) false in
       mret (if durable restored
             then inl (mkClear false false (severity current) (persistence restored))
             else inr (default published (installedState restored)))
     else mret (inr published)) in
  match step with
  | inl result => mret result
  | inr published =>
      let* broken := encodeDurableBrokenStateLocked (Some published) in
      mret (mkClear false true Isolate (persistence broken))
  end.

Definition clear : M ClearResult :=
  let* current := read in
  if bool_decide (provenance current = PBroken) then mret (mkClear false true Isolate NotInstalled)
  else if bool_decide (provenance current = PProven) && bool_decide (severity current = Unlocked) then
    mret (mkClear true false Unlocked DurableConfirmed)
  else
    let precondition := default (mkTarget (mkIdentity 0 0) "" 416 0 0) (provenState current) in
    let* written := write_confirmed precondition Unlocked (bool_decide (provenance current = PAbsent)) in
    match durable written, installedState written with
    | false, Some published => clear_compensate current published
    | false, None =>
        let* after := read in
        mret (mkClear false (bool_decide (provenance after ≠ PProven))
                (if bool_decide (provenance after = PProven) then severity after else Isolate)
                (persistence written))
    | true, _ => mret (mkClear true false Unlocked (persistence written))
    end.
End store.

(** * The content contract *)

Lemma split_last_app s body c : split_last s = Some (body, c) ↔ s = body +:+ String c "".
Proof.
  revert body c. induction s as [|a s IH]; intros body c; simpl.
  { split; [done|]. by destruct body. }
  destruct (split_last s) as [[b l]|] eqn:Hs.
  - split.
    + intros [= <- <-]. change (String a b +:+ String l "") with (String a (b +:+ String l "")). f_equal. by apply IH.
    + destruct body as [|x body].
      * change ("" +:+ String c "") with (String c ""). intros [= -> ->]. done.
      * change (String x body +:+ String c "") with (String x (body +:+ String c "")). intros [= -> Heq].
        apply IH in Heq. injection Heq as -> ->. done.
  - assert (s = "") as -> by (destruct s as [|x s']; [done|]; simpl in Hs; destruct (split_last s') as [[]|]; done).
    split; [by intros [= <- <-]|]. destruct body as [|x body]; [by intros [= ->]|].
    change (String x body +:+ String c "") with (String x (body +:+ String c "")). intros [= _ Heq]. by destruct body.
Qed.

Lemma parse_serialize s : parseStrictSeverity (serialize s) = inr s.
Proof. by destruct s. Qed.

Lemma parse_exact text s : parseStrictSeverity text = inr s → text = serialize s.
Proof.
  unfold parseStrictSeverity. destruct (split_last text) as [[body c]|] eqn:Hs; [|done].
  apply split_last_app in Hs as ->. case_bool_decide as Hc; [done|]. subst c.
  destruct (String.eqb body ""); [done|]. destruct (contains _ body); [done|]. destruct (contains _ body); [done|].
  destruct (parseIncidentSeverityToken body) as [s'|] eqn:Hp; [|done]. intros [= <-].
  apply parse_incident_token in Hp. unfold serialize. by rewrite Hp.
Qed.

(** What a content stands for: anything but a valid token is ISOLATE. *)
Definition sev_of (text : string) : IncidentSeverity :=
  match parseStrictSeverity text with inr s => s | inl _ => Isolate end.

Lemma sev_of_serialize s : sev_of (serialize s) = s.
Proof. unfold sev_of. by rewrite parse_serialize. Qed.

(** A severity the state file can stand for after a crash. *)
Definition may_be (d : Disk) (path : string) (s : IncidentSeverity) : Prop :=
  ∃ e, crash_entry d path e ∧
    match e with
    | None => s = Isolate
    | Some n => ∃ i text, d_nodes d !! n = Some i ∧ crash_content i text ∧ s = sev_of text
    end.

(** The path cannot come back as anything but what it is. *)
Definition settled (d : Disk) (path : string) : Prop :=
  (∀ e, crash_entry d path e → e = d_names d !! path) ∧
  ∀ n i, d_names d !! path = Some n → d_nodes d !! n = Some i → i_saved i = Some (i_content i).

Lemma crash_entry_lt d path n : wf d → crash_entry d path (Some n) → (n < d_next d)%N.
Proof.
  intros Hw [Hn|Hin]; [by eapply wf_lookup|].
  destruct (decide (n < d_next d)%N) as [|Hge]; [done|]. exfalso.
  destruct (Hw n ltac:(lia)) as (_ & _ & Hst). destruct (d_stale d !! path) as [l|] eqn:Hl; simpl in Hin.
  - by apply (Hst path l).
  - inversion Hin.
Qed.

Lemma crash_content_same i j text : same_file i j → crash_content j text → crash_content i text.
Proof. intros (_ & _ & Hs & _). unfold crash_content. by rewrite Hs. Qed.

Lemma aside_may d0 d path s : wf d0 → aside d0 d → visible path → may_be d path s → may_be d0 path s.
Proof.
  intros Hw Ha Hp (e & He & Hs). exists e.
  assert (crash_entry d0 path e) as He0.
  { unfold crash_entry in *. by rewrite <-(as_names _ _ Ha), <-(as_stale _ _ Ha). }
  split; [done|]. destruct e as [n|]; [|done]. destruct Hs as (i & text & Hi & ?). exists i, text.
  rewrite <-(as_nodes _ _ Ha); [done|]. by eapply crash_entry_lt.
Qed.

Lemma swapped_may_at d0 d path fd j p s :
  wf d0 → swapped d0 d path fd j → visible p → may_be d p s →
  (p = path ∧ ∃ text, crash_content j text ∧ s = sev_of text) ∨ may_be d0 p s.
Proof.
  intros Hw Hsw Hp (e & He & Hs). destruct (sw_crash _ _ _ _ _ Hsw p e Hp He) as [[-> ->]|He0].
  - left. split; [done|]. destruct Hs as (i & text & Hi & Hc & ->). rewrite (sw_node _ _ _ _ _ Hsw) in Hi. injection Hi as <-. eauto.
  - right. exists e. split; [done|]. destruct e as [n|]; [|done]. destruct Hs as (i & text & Hi & Hc & ->).
    destruct (d_nodes d0 !! n) as [i0|] eqn:Hi0.
    + destruct (sw_nodes _ _ _ _ _ Hsw n i0 Hi0) as (k & Hk & Hsame). exists i0, text. split_and!; [done| |done].
      eapply crash_content_same; [done|]. congruence.
    + exfalso. rewrite (sw_none _ _ _ _ _ Hsw) in Hi; [done| |done]. by eapply crash_entry_lt.
Qed.

Lemma swapped_may d0 d path fd j s :
  wf d0 → swapped d0 d path fd j → visible path → may_be d path s →
  (∃ text, crash_content j text ∧ s = sev_of text) ∨ may_be d0 path s.
Proof. intros Hw Hsw Hp Hm. destruct (swapped_may_at _ _ _ _ _ _ _ Hw Hsw Hp Hm) as [[_ ?]|?]; auto. Qed.

Lemma synced_may d path s : may_be (synced d) path s → may_be d path s.
Proof.
  intros (e & [->|Hin] & Hs); simpl in *; [by exists (d_names d !! path); split; [left|]|].
  rewrite lookup_empty in Hin. inversion Hin.
Qed.

Lemma synced_wf d : wf d → wf (synced d).
Proof.
  intros Hw n Hn. destruct (Hw n Hn) as (? & ? & _). split_and!; [done..|]. intros p l. simpl. by rewrite lookup_empty.
Qed.

Lemma dropped_may d0 d path n s :
  dropped d0 d path n → may_be d path s → s = Isolate ∨ may_be d0 path s.
Proof.
  intros (Hn & Hi & Hst & _) (e & He & Hs).
  assert (e = None ∨ crash_entry d0 path e) as [->|He0].
  { destruct He as [->|Hin]; [left; by rewrite Hn, lookup_delete_eq|]. right. destruct Hst as [Hst|Hst]; rewrite Hst in Hin.
    - unfold push_stale in Hin. rewrite lookup_insert_eq in Hin. simpl in Hin. apply elem_of_cons in Hin as [->|Hin]; [by left|by right].
    - rewrite lookup_empty in Hin. inversion Hin. }
  - by left.
  - right. exists e. split; [done|]. destruct e as [m|]; [|done]. destruct Hs as (i & text & Hm & Hc & ->).
    rewrite Hi in Hm. destruct (d_nodes d0 !! m) as [i0|] eqn:Hi0.
    + destruct (change_links_same n (-1) _ _ _ Hi0) as (k & Hk & Hsame). exists i0, text.
      split_and!; [done| |done]. eapply crash_content_same; [done|]. congruence.
    + by rewrite (proj2 (change_links_none n (-1) _ m) Hi0) in Hm.
Qed.

Lemma dropped_wf d0 d path n : wf d0 → dropped d0 d path n → wf d.
Proof.
  intros Hw (Hn & Hi & Hst & Hx & _) m Hm. rewrite Hx in Hm. destruct (Hw m Hm) as (Hnone & Hnames & Hstale).
  rewrite Hn, Hi. split_and!.
  - by apply change_links_none.
  - intros p. destruct (decide (p = path)) as [->|]; [by rewrite lookup_delete_eq|]. by rewrite lookup_delete_ne by done.
  - intros p l. destruct Hst as [-> | ->]; [|by rewrite lookup_empty]. unfold push_stale.
    destruct (decide (p = path)) as [->|]; [|rewrite lookup_insert_ne by done; apply Hstale].
    rewrite lookup_insert_eq. intros [= <-]. rewrite elem_of_cons. intros [Heq|Hin]; [by apply (Hnames path)|].
    destruct (d_stale d0 !! path) as [l|] eqn:Hl; simpl in Hin; [by apply (Hstale path l)|inversion Hin].
Qed.

(** The severity the file stands for now. *)
Definition now (d : Disk) (path : string) : IncidentSeverity :=
  match lookup_path d path with Some (_, i) => sev_of (i_content i) | None => Isolate end.

Lemma now_content d path n i s : lookup_path d path = Some (n, i) → i_content i = serialize s → now d path = s.
Proof. unfold now. intros -> ->. apply sev_of_serialize. Qed.
Lemma now_aside d0 d path : wf d0 → aside d0 d → visible path → now d path = now d0 path.
Proof. intros Hw Ha Hp. unfold now. by rewrite (aside_lookup d0 d). Qed.
Lemma now_absent d path : lookup_path d path = None → now d path = Isolate.
Proof. unfold now. by intros ->. Qed.

(** * The operations of the store, with nobody else acting *)

Section store_facts.
Context `{StateFilesLaws} (path : string) (fic_group : Z).
Hypothesis path_visible : visible path.

Let read := read path fic_group.
Let writeLocked := writeLocked path fic_group.
Let confirm := confirmInstalledDurability path.
Let encode := encodeDurableBrokenStateLocked path fic_group.

Definition found (d : Disk) (r : ReadResult) : Prop :=
  match provenance r with
  | PProven => ∃ n i, lookup_path d path = Some (n, i) ∧ i_content i = serialize (severity r) ∧
      provenState r = Some (target_of_stat (stat_of (d_dev d) n i) (i_content i))
  | PInvalidContent => ∃ n i, lookup_path d path = Some (n, i) ∧ (∀ s, i_content i ≠ serialize s) ∧
      provenState r = Some (target_of_stat (stat_of (d_dev d) n i) (i_content i))
  | PAbsent => lookup_path d path = None ∧ provenState r = None
  | PBroken => True
  end.

Lemma looks_state_read : looks read found.
Proof.
  eapply looks_bind; [apply law_read|]. intros r d Hr. apply runs_ret. split; [done|]. unfold quiet_read in Hr. unfold found.
  destruct (read_status r); [|done|done]. destruct Hr as (n & i & Hl & _ & ->). cbn [read_content targetState].
  destruct (parseStrictSeverity (i_content i)) as [e|s] eqn:Hp; simpl.
  - exists n, i. split_and!; [done| |done]. intros s Hs. rewrite Hs, parse_serialize in Hp. done.
  - exists n, i. split_and!; [done| |done]. by apply parse_exact.
Qed.

(** Disks on which the path stands for [s] and can only come back as [s]
    or as something it could come back as on [d0]. *)
Definition carries (d0 d : Disk) (s : IncidentSeverity) : Prop :=
  wf d ∧ (∃ n i, lookup_path d path = Some (n, i) ∧ i_content i = serialize s ∧ i_saved i = Some (serialize s)) ∧
  ∀ s', may_be d path s' → s' = s ∨ may_be d0 path s'.

Lemma new_file_carries d0 d text options fd j s :
  wf d0 → new_file d0 d path text options fd j → text = serialize s → carries d0 d s.
Proof.
  intros Hw [Hsw (i & target & Hs & Hwant)] ->. unfold wanted, is_file in Hwant.
  destruct (wanted_metadata _ _ _ _) as [[u g] m]. destruct Hwant as (_ & Hc & Hsv & _), Hs as (_ & Sc & Ss & _).
  split; [apply (sw_wf _ _ _ _ _ Hsw)|]. split.
  - exists fd, j. split; [apply lookup_path_Some; split; [apply (sw_name _ _ _ _ _ Hsw)|apply (sw_node _ _ _ _ _ Hsw)]|].
    split; congruence.
  - intros s' Hs'. destruct (swapped_may _ _ _ _ _ _ Hw Hsw path_visible Hs') as [(text & Ht & ->)|?]; [left|by right].
    unfold crash_content in Ht. rewrite Ss, Hsv in Ht. subst. apply sev_of_serialize.
Qed.

Lemma carries_synced d0 d s s' : carries d0 d s → may_be (synced d) path s' → s' = s.
Proof.
  intros (_ & (n & i & Hl & Hc & Hsv) & _) (e & [->|Hin] & Hs); [|simpl in Hin; rewrite lookup_empty in Hin; inversion Hin].
  apply lookup_path_Some in Hl as [Hn Hi]. simpl in Hs. rewrite Hn in Hs. destruct Hs as (i' & text & Hi' & Hcc & ->).
  simpl in Hi'. assert (i' = i) as -> by congruence. unfold crash_content in Hcc. rewrite Hsv in Hcc. subst.
  apply sev_of_serialize.
Qed.

Lemma carries_stale d0 d s s' : carries d0 d s → d_stale d = ∅ → may_be d path s' → s' = s.
Proof.
  intros Hc Hst Hm. apply (carries_synced d0 d); [done|]. destruct Hm as (e & He & Hs). exists e. split; [|done].
  destruct He as [He|Hin]; [by left|]. rewrite Hst, lookup_empty in Hin. inversion Hin.
Qed.

Definition write_result (d0 : Disk) (target : IncidentSeverity) (create : bool) (r : RaiseResult) (d : Disk) : Prop :=
  match persistence r with
  | DurableConfirmed => r = mkRaise true DurableConfirmed target true false (installedState r) ∧
      carries d0 d target ∧ ∀ s, may_be d path s → s = target
  | InstalledNotDurable =>
      ∃ st, r = mkRaise false InstalledNotDurable target true false (Some st) ∧ carries d0 d target
  | p => r = mkRaise false p Isolate false false None ∧ (aside d0 d ∨ create = true ∧ carries d0 d target)
  end.

Lemma writeLocked_runs d precondition target create : wf d →
  runs (writeLocked precondition target create) d (write_result d target create).
Proof.
  intros Hw. eapply runs_bind; [by apply law_write|]. intros [okb res] d' Hpost. apply runs_ret.
  unfold write_post in Hpost. simpl in Hpost. destruct (installed res); simpl.
  - destruct Hpost as (-> & (fd & j & Hnew & _ & Hst) & Hdur & _).
    pose proof (new_file_carries _ _ _ _ _ _ target Hw Hnew eq_refl) as Hcar.
    destruct (durabilityConfirmed res); unfold write_result; simpl.
    + split_and!; [done|done|]. intros s. apply (carries_stale d d'); auto.
    + rewrite Hst. eauto.
  - destruct Hpost as (_ & _ & _ & Hcase). unfold write_result.
    assert (aside d d' ∨ create = true ∧ carries d d' target) as Hc.
    { destruct Hcase as [?|(Hc & _ & fd & j & Hnew)]; [by left|right]. split; [done|]. by eapply new_file_carries. }
    by destruct (preconditionFailed res).
Qed.

Lemma confirm_runs d0 d target st :
  carries d0 d target →
  runs (confirm (mkRaise false InstalledNotDurable target true false (Some st))) d (λ r d',
    if durable r then r = mkRaise true DurableConfirmed target true false (Some st) ∧ carries d0 d' target ∧
      ∀ s, may_be d' path s → s = target
    else r = mkRaise false InstalledNotDurable Isolate true false (Some st) ∧ d' = d).
Proof.
  intros Hc. eapply runs_bind; [apply law_durable|]. intros [] d' Hd'; apply runs_ret; simpl; [|done].
  destruct Hd' as [_ ->]. split_and!; [done| |intros s; by apply (carries_synced d0 d)].
  destruct Hc as (Hw & Hv & Hm). split_and!; [by apply synced_wf|done|]. intros s Hs. apply Hm. by apply synced_may.
Qed.

(** Encoding the incident as absence: never a lower severity, and only
    ISOLATE when it reports success. *)
Definition encode_result (d0 : Disk) (r : RaiseResult) (d : Disk) : Prop :=
  wf d ∧ (r = not_encoded ∨ r = encoded ∧ now d path = Isolate ∧ ∀ s, may_be d path s → s = Isolate) ∧
  (∀ s, may_be d path s → s = Isolate ∨ may_be d0 path s) ∧ (now d path = now d0 path ∨ now d path = Isolate).

Lemma absent_encodes d0 d : wf d → (∀ s, may_be d path s → s = Isolate ∨ may_be d0 path s) →
  (now d path = now d0 path ∨ now d path = Isolate) →
  runs (let* absent := sf_absent path in mret (if absent then encoded else not_encoded)) d (encode_result d0).
Proof.
  intros Hw Hm Hnow. eapply runs_bind; [apply law_absent|]. intros [] d' Hd'; apply runs_ret; cbn iota in *.
  - destruct Hd' as [Hl ->].
    assert (∀ s, may_be (synced d) path s → s = Isolate) as Hiso.
    { intros s (e & [->|Hin] & Hs); [|simpl in Hin; rewrite lookup_empty in Hin; inversion Hin]. simpl in *.
      destruct (d_names d !! path) as [n|] eqn:Hn; [|done]. destruct Hs as (i & text & Hi & _).
      assert (lookup_path d path = Some (n, i)) by (by apply lookup_path_Some). congruence. }
    assert (now (synced d) path = Isolate) by (by apply now_absent).
    split_and!; [by apply synced_wf|by right|intros s Hs; left; by apply Hiso|by right].
  - split_and!; [destruct Hd' as [-> | ->]; [done|by apply synced_wf]|by left| |by destruct Hd' as [-> | ->]].
    intros s Hs. apply Hm. destruct Hd' as [-> | ->]; [done|by apply synced_may].
Qed.

Lemma encode_runs d expected : wf d → runs (encode expected) d (encode_result d).
Proof.
  intros Hw. assert (∀ d', d' = d → encode_result d not_encoded d') as Hstay.
  { intros d' ->. split_and!; [done|by left|by right|by left]. }
  eapply runs_bind_looks; [apply looks_state_read|]. intros current Hcur.
  destruct (provenance current).
  - destruct (provenState current) as [actual|]; [|by apply runs_ret, Hstay].
    destruct (match expected with Some _ => _ | None => _ end); [by apply runs_ret, Hstay|].
    eapply runs_bind; [apply law_remove|]. intros [okb res] d' Hrem. unfold remove_post in Hrem. simpl in Hrem.
    destruct (removed res).
    + destruct Hrem as (-> & -> & _ & Hdrop & Hdur). pose proof (dropped_wf _ _ _ _ Hw Hdrop) as Hw'.
      assert (∀ s, may_be d' path s → s = Isolate ∨ may_be d path s) as Hmay by (intros s; by eapply dropped_may).
      assert (now d' path = Isolate) as Hnow.
      { apply now_absent. destruct Hdrop as (Hn & _). unfold lookup_path. by rewrite Hn, lookup_delete_eq. }
      destruct (remove_durabilityConfirmed res); simpl.
      * apply absent_encodes; [done| |by right]. intros s. by apply Hmay.
      * apply runs_ret. split_and!; [done|by left| |by right]. intros s. by apply Hmay.
    + destruct Hrem as [-> Hd]. rewrite orb_true_r. destruct okb; by apply runs_ret, Hstay.
  - eapply absent_encodes; [done|by right|by left].
  - by apply runs_ret, Hstay.
  - by apply runs_ret, Hstay.
Qed.

(** ** Raising *)

(** What a raise may make of the severity: nothing, the maximum, or ISOLATE. *)
Definition raise_step (before requested after : IncidentSeverity) : Prop :=
  after = before ∨ after = maxIncidentSeverity before requested ∨ after = Isolate.

Definition raise_result (d0 : Disk) (requested : IncidentSeverity) (r : RaiseResult) (d : Disk) : Prop :=
  let target := maxIncidentSeverity (now d0 path) requested in
  (durable r = false → effectiveSeverity r = Isolate) ∧
  (durable r = true → effectiveSeverity r = if brokenStatePersisted r then Isolate else target) ∧
  (∀ s, may_be d path s → may_be d0 path s ∨ sev_le target s) ∧
  (durable r = true → escalated r = true ∨ brokenStatePersisted r = true ∨ settled d0 path →
     ∀ s, may_be d path s → s = effectiveSeverity r) ∧
  (durable r = true → brokenStatePersisted r = false →
     ∃ n i, lookup_path d path = Some (n, i) ∧ i_content i = serialize (effectiveSeverity r)) ∧
  wf d ∧ raise_step (now d0 path) requested (now d path) ∧
  (durable r = true → effectiveSeverity r = now d path).

Lemma raise_refused d0 d requested p : wf d → raise_step (now d0 path) requested (now d path) →
  (∀ s, may_be d path s → may_be d0 path s ∨ sev_le (maxIncidentSeverity (now d0 path) requested) s) →
  raise_result d0 requested (mkRaise false p Isolate false false None) d.
Proof. intros Hw Hn Hm. by split_and!. Qed.

Lemma raise_encoded d0 d1 d requested r : raise_step (now d0 path) requested (now d1 path) →
  (∀ s, may_be d1 path s → may_be d0 path s ∨ sev_le (maxIncidentSeverity (now d0 path) requested) s) →
  encode_result d1 r d → raise_result d0 requested r d.
Proof.
  intros Hstep Hm (Hw & Hr & Hmay & Hnow).
  assert (∀ s, may_be d path s → may_be d0 path s ∨ sev_le (maxIncidentSeverity (now d0 path) requested) s) as Hm'.
  { intros s Hs. destruct (Hmay s Hs) as [->|?]; [right; auto with fic|by apply Hm]. }
  assert (raise_step (now d0 path) requested (now d path)) as Hstep'.
  { destruct Hnow as [-> | ->]; [done|right; by right]. }
  destruct Hr as [-> | [-> [Hni Hiso]]]; [by apply raise_refused|]. split_and!; simpl; try done; by auto.
Qed.

Lemma raise_carried d0 d requested target st :
  target = maxIncidentSeverity (now d0 path) requested → carries d0 d target → (∀ s, may_be d path s → s = target) →
  raise_result d0 requested (mkRaise true DurableConfirmed target true false st) d.
Proof.
  intros Htarget (Hw & (n & i & Hl & Hc & _) & _) Hall. pose proof (now_content _ _ _ _ _ Hl Hc) as Hnow.
  split_and!; simpl; try done; [|by eauto|right; left; congruence].
  intros s Hs. right. by rewrite (Hall s Hs), Htarget.
Qed.

Lemma settled_severity d n i s s' :
  settled d path → lookup_path d path = Some (n, i) → i_content i = serialize s → may_be d path s' → s' = s.
Proof.
  intros [He Hs] Hl Hc (e & Hent & Hsev). apply lookup_path_Some in Hl as [Hn Hi]. rewrite (He e Hent), Hn in Hsev.
  destruct Hsev as (i' & text & Hi' & Hcc & ->). assert (i' = i) as -> by congruence. unfold crash_content in Hcc.
  rewrite (Hs n i Hn Hi) in Hcc. subst. rewrite Hc. apply sev_of_serialize.
Qed.

Lemma settled_aside d0 d : wf d0 → aside d0 d → settled d0 path → settled d path.
Proof.
  intros Hw Ha [He Hs]. split.
  - intros e. unfold crash_entry. rewrite (as_names _ _ Ha), (as_stale _ _ Ha) by done. apply He.
  - intros n i. rewrite (as_names _ _ Ha) by done. intros Hn. rewrite (as_nodes _ _ Ha); [by apply Hs|]. by eapply wf_lookup.
Qed.

Lemma raise_runs attempts requested d0 d : wf d →
  (∀ s, may_be d path s → may_be d0 path s) → (settled d0 path → settled d path) → now d path = now d0 path →
  runs (raise_attempts path fic_group attempts requested) d (raise_result d0 requested).
Proof.
  revert d. induction attempts as [|attempts IH]; intros d Hw Hm Hset Hnow; cbn [raise_attempts].
  { apply runs_ret, raise_refused; auto. by left. }
  eapply runs_bind_looks; [apply looks_state_read|]. intros current Hcur.
  destruct (provenance current) eqn:Hprov; cycle 1.
  { eapply runs_mono; [by apply encode_runs|]. intros r d'. apply raise_encoded; [by left|auto]. }
  { apply runs_ret, raise_refused; auto. by left. }
  { apply runs_ret, raise_refused; auto. by left. }
  unfold found in Hcur. rewrite Hprov in Hcur. destruct Hcur as (n & i & Hl & Hc & ->).
  pose proof (now_content _ _ _ _ _ Hl Hc) as Hsev. case_bool_decide as Hidem.
  { apply runs_ret. split_and!; simpl; try done; [|by auto| |by eauto|by left].
    - intros _. by rewrite <-Hnow, Hsev.
    - intros _ [|[|Hs]] s Hmay; [done..|]. by apply (settled_severity d n i); auto. }
  eapply runs_bind; [by apply writeLocked_runs|]. intros written d' Hwr. unfold write_result in Hwr.
  rewrite <-Hsev, Hnow in Hwr. destruct (persistence written) eqn:Hp.
  - destruct Hwr as (-> & Hcar & Hall). apply runs_ret, raise_carried; [done| |done].
    destruct Hcar as (? & ? & Hx). split_and!; [done..|]. intros s Hs. destruct (Hx s Hs); auto.
  - destruct Hwr as (st & -> & Hcar). eapply runs_bind; [by apply confirm_runs|].
    intros confirmed d'' Hconf. cbv beta in Hconf. destruct (durable confirmed).
    + destruct Hconf as (-> & Hcar' & Hall). apply runs_ret, raise_carried; [done| |done].
      destruct Hcar' as (? & ? & Hx). split_and!; [done..|]. intros s Hs. destruct (Hx s Hs); auto.
    + destruct Hconf as [_ ->]. eapply runs_mono; [apply encode_runs, Hcar|]. intros r d''. apply raise_encoded.
      { destruct Hcar as (_ & (n' & i' & Hl' & Hc' & _) & _). right. left. by rewrite (now_content _ _ _ _ _ Hl' Hc'). }
      intros s Hs. destruct Hcar as (_ & _ & Hx). destruct (Hx s Hs) as [->|]; [by right|auto].
  - destruct Hwr as [_ [Ha|[? _]]]; [|done]. apply IH; [apply Ha| | |by rewrite (now_aside d)].
    + intros s Hs. by apply Hm, (aside_may d d').
    + intros Hs. by apply (settled_aside d); auto.
  - destruct Hwr as [_ [Ha|[? _]]]; [|done]. eapply runs_mono; [apply encode_runs, Ha|]. intros r d''. apply raise_encoded.
    { left. by rewrite (now_aside d). }
    intros s Hs. left. by apply Hm, (aside_may d d').
Qed.

Lemma raiseToAtLeast_runs d requested : wf d → runs (raiseToAtLeast path fic_group requested) d (raise_result d requested).
Proof. intros Hw. by apply raise_runs. Qed.

Lemma raise_result_le d0 requested r d : raise_result d0 requested r d →
  (durable r = true → sev_le requested (effectiveSeverity r)) ∧ (∀ s, may_be d path s → may_be d0 path s ∨ sev_le requested s).
Proof.
  intros (_ & Heff & Hm & _). split.
  - intros Hd. rewrite (Heff Hd). destruct (brokenStatePersisted r); [apply sev_le_isolate|apply sev_le_max_r].
  - intros s Hs. destruct (Hm s Hs) as [?|Hle]; [by left|right]. etransitivity; [apply sev_le_max_r|exact Hle].
Qed.
Lemma raise_step_le before requested after : raise_step before requested after → sev_le before after.
Proof. intros [->|[->| ->]]; [reflexivity|apply sev_le_max_l|apply sev_le_isolate]. Qed.

(** ** Clearing *)

(** A write and, where it was published but not synced, a second barrier. *)
Definition settled_result (d0 : Disk) (target : IncidentSeverity) (create : bool) (r : RaiseResult) (d : Disk) : Prop :=
  if durable r then persistence r = DurableConfirmed ∧ carries d0 d target ∧ ∀ s, may_be d path s → s = target
  else match installedState r with
       | Some _ => carries d0 d target
       | None => persistence r ≠ DurableConfirmed ∧ (aside d0 d ∨ create = true ∧ carries d0 d target)
       end.

Lemma write_settled_runs d precondition target create : wf d →
  runs (write_confirmed path fic_group precondition target create) d (settled_result d target create).
Proof.
  intros Hw. eapply runs_bind; [by apply writeLocked_runs|]. intros written d' Hwr. unfold write_result in Hwr.
  destruct (persistence written) eqn:Hp; simpl.
  - destruct Hwr as (Hr & Hcar & Hall). apply runs_ret. unfold settled_result. rewrite Hr. by split_and!.
  - destruct Hwr as (st & -> & Hcar). eapply runs_mono; [by apply confirm_runs|]. intros r d'' Hr. cbv beta in Hr.
    unfold settled_result. destruct (durable r); [destruct Hr as (-> & ? & ?); by split_and!|]. by destruct Hr as [-> ->].
  - destruct Hwr as (-> & Hc). apply runs_ret. by split.
  - destruct Hwr as (-> & Hc). apply runs_ret. by split.
Qed.

Lemma settled_result_wf d0 target create r d : settled_result d0 target create r d → wf d.
Proof.
  unfold settled_result. intros Hr. destruct (durable r); [apply Hr|]. destruct (installedState r); [apply Hr|].
  destruct Hr as (_ & [Ha|[_ Hc]]); [apply Ha|apply Hc].
Qed.

Definition compensated (current : ReadResult) (r : ClearResult) (d : Disk) : Prop :=
  clear_ok r = false ∧
  (clear_effective r = Isolate ∨ provenance current = PProven ∧ clear_effective r = severity current) ∧
  (clear_persistence r = DurableConfirmed → now d path = clear_effective r ∧ ∀ s, may_be d path s → s = clear_effective r) ∧
  wf d ∧ (now d path = Unlocked ∨ now d path = Isolate ∨ provenance current = PProven ∧ now d path = severity current).

(** What the file stands for after a write that may or may not have happened. *)
Lemma settled_result_now d0 target r d : wf d0 → settled_result d0 target false r d → now d path = now d0 path ∨ now d path = target.
Proof.
  intros Hw Hr. unfold settled_result in Hr.
  assert (carries d0 d target → now d path = target) as Hc.
  { intros (_ & (n & i & Hl & Hc & _) & _). by apply (now_content d path n i). }
  destruct (durable r); [right; apply Hc, Hr|]. destruct (installedState r); [right; apply Hc, Hr|].
  destruct Hr as (_ & [Ha|[? _]]); [left; by apply now_aside|done].
Qed.

Lemma compensate_runs d current published : wf d → now d path = Unlocked →
  runs (clear_compensate path fic_group current published) d (compensated current).
Proof.
  intros Hw Hun. unfold clear_compensate. eapply (runs_bind _ _ _ (λ step d',
    match step with
    | inl r => compensated current r d'
    | inr _ => wf d' ∧ (now d' path = Unlocked ∨ provenance current = PProven ∧ now d' path = severity current)
    end)).
  - case_bool_decide as Hp; [|by apply runs_ret; auto].
    eapply runs_bind; [by apply write_settled_runs|]. intros restored d' Hr. apply runs_ret.
    pose proof (settled_result_wf _ _ _ _ _ Hr) as Hw'. pose proof (settled_result_now _ _ _ _ Hw Hr) as Hnow.
    unfold settled_result in Hr. destruct (durable restored).
    + destruct Hr as (_ & (_ & (n & i & Hl & Hc & _) & _) & Hall). pose proof (now_content _ _ _ _ _ Hl Hc).
      split_and!; simpl; auto.
    + split; [done|]. destruct Hnow as [Hnow|Hnow]; [left; congruence|by right].
  - intros [r|published'] d' Hd'; [by apply runs_ret|]. destruct Hd' as [Hw' Hnow]. eapply runs_bind; [by apply encode_runs|].
    intros broken d'' (Hw'' & Hbr & _ & Hnow'). apply runs_ret. split_and!; simpl; auto.
    + destruct Hbr as [-> | [-> [? ?]]]; [done|auto].
    + destruct Hnow' as [-> | ->]; [|auto]. destruct Hnow as [|[]]; auto.
Qed.

(** What a clear may make of the severity: nothing, UNLOCKED, or ISOLATE. *)
Definition clear_step (before after : IncidentSeverity) : Prop := after = before ∨ after = Unlocked ∨ after = Isolate.

Definition clear_result (d0 : Disk) (r : ClearResult) (d : Disk) : Prop :=
  (clear_ok r = true → clear_persistence r = DurableConfirmed ∧ clear_effective r = Unlocked ∧
     ∃ n i, lookup_path d path = Some (n, i) ∧ i_content i = serialize Unlocked) ∧
  (clear_ok r = false → is_Some (lookup_path d0 path) → clear_effective r ≠ Unlocked) ∧
  (clear_persistence r = DurableConfirmed → settled d0 path → ∀ s, may_be d path s → s = clear_effective r) ∧
  wf d ∧ clear_step (now d0 path) (now d path).

Lemma serialize_inj s s' : serialize s = serialize s' → s = s'.
Proof. intros Heq. rewrite <-(sev_of_serialize s), Heq. apply sev_of_serialize. Qed.

(** A reread after a clear that wrote nothing does not find UNLOCKED. *)
Lemma reread_runs d0 d (p : PersistenceResult) : wf d → clear_step (now d0 path) (now d path) → p ≠ DurableConfirmed →
  (is_Some (lookup_path d0 path) → lookup_path d path = lookup_path d0 path) →
  (is_Some (lookup_path d0 path) → ∀ n i, lookup_path d0 path = Some (n, i) → i_content i ≠ serialize Unlocked) →
  runs (let* after := read in
        mret (mkClear false (bool_decide (provenance after ≠ PProven))
                (if bool_decide (provenance after = PProven) then severity after else Isolate) p)) d
    (clear_result d0).
Proof.
  intros Hw Hstep Hp Hsame Hnot. eapply runs_bind_looks; [apply looks_state_read|]. intros after Haft. unfold found in Haft.
  apply runs_ret. split_and!; simpl; [done| |by intros|done|done]. intros _ Hsome. specialize (Hsame Hsome).
  case_bool_decide as Ha; [|done]. rewrite Ha in Haft. destruct Haft as (n & i & Hl & Hc & _). rewrite Hsame in Hl.
  intros Hu. apply (Hnot Hsome n i Hl). by rewrite Hc, Hu.
Qed.

(** What the first read of [clear] leaves to do: the path does not hold UNLOCKED. *)
Lemma not_unlocked_found d current :
  found d current → provenance current ≠ PBroken → ¬ (provenance current = PProven ∧ severity current = Unlocked) →
  ∀ n i, lookup_path d path = Some (n, i) → i_content i ≠ serialize Unlocked.
Proof.
  unfold found. intros Hcur Hb Hno n i Hl Hc. destruct (provenance current); [|by destruct Hcur; congruence| |done].
  - destruct Hcur as (n' & i' & Hl' & Hc' & _). apply Hno. split; [done|]. apply serialize_inj. congruence.
  - destruct Hcur as (n' & i' & Hl' & Hc' & _). apply (Hc' Unlocked). congruence.
Qed.

Lemma clear_runs d : wf d → runs (clear path fic_group) d (clear_result d).
Proof.
  intros Hw. eapply runs_bind_looks; [apply looks_state_read|]. intros current Hcur.
  case_bool_decide as Hb; [apply runs_ret; split_and!; try done; by left|].
  destruct (bool_decide _ && bool_decide _) eqn:Hu.
  { apply andb_true_iff in Hu as [Hp%bool_decide_eq_true Hs%bool_decide_eq_true]. unfold found in Hcur. rewrite Hp, Hs in Hcur.
    destruct Hcur as (n & i & Hl & Hc & _). apply runs_ret. split_and!; simpl; [by eauto 10|done| |done|by left].
    intros _ Hset s. by apply (settled_severity d n i). }
  assert (¬ (provenance current = PProven ∧ severity current = Unlocked)) as Hno.
  { intros [Hp Hs]. by rewrite Hp, Hs in Hu. }
  pose proof (not_unlocked_found d current Hcur Hb Hno) as Hnot.
  eapply runs_bind; [by apply write_settled_runs|]. intros written d' Hr. pose proof (settled_result_wf _ _ _ _ _ Hr) as Hw'.
  unfold settled_result in Hr. destruct (durable written).
  { destruct Hr as (Hp & (_ & (n & i & Hl & Hc & _) & _) & Hall). apply runs_ret.
    split_and!; simpl; [by eauto 10|done|auto|done|]. right. left. by apply (now_content _ _ n i). }
  destruct (installedState written) as [published|].
  - destruct Hr as (_ & (n & i & Hl & Hc & _) & _).
    eapply runs_mono; [apply compensate_runs; [done|by apply (now_content _ _ n i)]|].
    intros r d'' (Hok & Heff & Hall & Hw'' & Hnow). split_and!; [congruence| | |done|].
    + intros _ _. destruct Heff as [-> | [Hp ->]]; [done|]. intros Hs. by apply Hno.
    + intros Hd _. by apply Hall.
    + destruct Hnow as [->|[->|[Hp ->]]]; [right; by left|right; by right|left].
      unfold found in Hcur. rewrite Hp in Hcur. destruct Hcur as (n0 & i0 & Hl0 & Hc0 & _). by rewrite (now_content _ _ _ _ _ Hl0 Hc0).
  - destruct Hr as [Hp Hcase]. apply reread_runs; [done| |done| |by auto].
    { destruct Hcase as [Ha|[_ (_ & (n & i & Hl & Hc & _) & _)]]; [left; by apply now_aside|right; left; by apply (now_content _ _ n i)]. }
    intros Hsome.
    destruct Hcase as [Ha|[Habs _]]; [by apply aside_lookup|]. apply bool_decide_eq_true in Habs. unfold found in Hcur. rewrite Habs in Hcur.
    destruct Hcur as [Hnone _]. rewrite Hnone in Hsome. by destruct Hsome.
Qed.
End store_facts.

(** * Properties *)

(** The state file has exactly five valid contents: the strict parser
    accepts a content as a severity exactly when it is what [serialize] writes
    for that severity. *)
Theorem state_content_exact text s : parseStrictSeverity text = inr s ↔ text = serialize s.
Proof. split; [apply parse_exact|]. intros ->. apply parse_serialize. Qed.

(** C22. Raising is monotone and fail-closed, whichever system calls fail
    (with nobody else acting). Let the target be the maximum of the severity the
    file stands for and of the requested one. The severity the file stands for
    never drops, durable or not. A durable raise has the target as its effective
    severity and the file holds it, unless the incident was encoded as absence,
    which is ISOLATE; a raise that is not durable has ISOLATE. No severity weaker
    than the target becomes possible after a crash that was not possible before.
    And when the raise is durable and the file was written, removed, or had
    nothing unsynced to begin with, every crash brings back exactly the
    effective severity. *)
Theorem raise_is_fail_closed path fic_group requested w :
  alone w → wf (w_disk w) → visible path →
  let r := (raiseToAtLeast path fic_group requested w).1 in
  let d' := w_disk (raiseToAtLeast path fic_group requested w).2 in
  let target := maxIncidentSeverity (now (w_disk w) path) requested in
  sev_le (now (w_disk w) path) (now d' path) ∧
  (durable r = false → effectiveSeverity r = Isolate) ∧
  (durable r = true → effectiveSeverity r = if brokenStatePersisted r then Isolate else target) ∧
  (∀ s, may_be d' path s → may_be (w_disk w) path s ∨ sev_le target s) ∧
  (durable r = true → escalated r = true ∨ brokenStatePersisted r = true ∨ settled (w_disk w) path →
     ∀ s, may_be d' path s → s = effectiveSeverity r) ∧
  (durable r = true → brokenStatePersisted r = false →
     ∃ n i, lookup_path d' path = Some (n, i) ∧ i_content i = serialize target).
Proof.
  intros Ha Hw Hp.
  destruct (runs_elim _ _ _ _ (raiseToAtLeast_runs path fic_group Hp (w_disk w) requested Hw) eq_refl Ha)
    as (Hno & Heff & Hm & Hall & Hfile & _ & Hstep & _). split_and!; [by eapply raise_step_le|done..|].
  intros Hd Hb. rewrite (Heff Hd), Hb in Hfile. by apply Hfile.
Qed.

(** Only a visible UNLOCKED file is a successful clear, and a failed clear
    of an existing state never reports UNLOCKED as effective, whichever system
    calls fail (with nobody else acting). When the clear reports a durable
    outcome, whether UNLOCKED, the restored severity or the encoded absence,
    and the file had nothing unsynced to begin with, every crash brings back
    exactly the reported severity. *)
Theorem clear_is_fail_closed path fic_group w :
  alone w → wf (w_disk w) → visible path →
  let r := (clear path fic_group w).1 in
  let d' := w_disk (clear path fic_group w).2 in
  (clear_ok r = true → clear_persistence r = DurableConfirmed ∧ clear_effective r = Unlocked ∧
     ∃ n i, lookup_path d' path = Some (n, i) ∧ i_content i = serialize Unlocked) ∧
  (clear_ok r = false → is_Some (lookup_path (w_disk w) path) → clear_effective r ≠ Unlocked) ∧
  (clear_persistence r = DurableConfirmed → settled (w_disk w) path →
     ∀ s, may_be d' path s → s = clear_effective r).
Proof.
  intros Ha Hw Hp. destruct (runs_elim _ _ _ _ (clear_runs path fic_group Hp (w_disk w) Hw) eq_refl Ha) as (? & ? & ? & _).
  by split_and!.
Qed.

(** The incident survives as ISOLATE when it cannot be written: encoding
    the broken state (with nobody else acting) either reports failure or leaves
    a directory from which every crash brings back ISOLATE, and in both cases
    adds no severity but ISOLATE to what a crash could bring back. *)
Theorem broken_state_encoding path fic_group w :
  alone w → wf (w_disk w) →
  let r := (encodeDurableBrokenState path fic_group w).1 in
  let d' := w_disk (encodeDurableBrokenState path fic_group w).2 in
  effectiveSeverity r = Isolate ∧
  (durable r = true → ∀ s, may_be d' path s → s = Isolate) ∧
  (∀ s, may_be d' path s → s = Isolate ∨ may_be (w_disk w) path s).
Proof.
  intros Ha Hw r d'.
  destruct (runs_elim _ _ _ _ (encode_runs path fic_group (w_disk w) None Hw) eq_refl Ha) as (_ & Hr & Hm & _).
  change (encodeDurableBrokenStateLocked path fic_group None w) with (encodeDurableBrokenState path fic_group w) in *.
  fold r d' in Hr, Hm. split_and!; [by destruct Hr as [-> | [-> _]]| |done].
  destruct Hr as [-> | [_ [_ Hiso]]]; [done|by intros _].
Qed.

(** A repeated raise can report a durability nobody established: after a
    raise to HARD whose directory barrier and compensation both failed (and
    which said so), the same raise again finds HARD on disk, reports it
    durable without any barrier, and a crash can still bring back UNLOCKED. *)
Theorem idempotent_raise_needs_no_barrier :
  let faults := (repeat None 38 ++ repeat (Some EIO) 4)%list in
  let w := mkWorld (one_file "state" (serialize Unlocked)) (failing faults) in
  let first := raiseToAtLeast "state" 7 Hard w in
  let again := raiseToAtLeast "state" 7 Hard first.2 in
  durable first.1 = false ∧ again.1 = mkRaise true DurableConfirmed Hard false false None ∧
  may_be (w_disk again.2) "state" Unlocked.
Proof.
  split_and!; [vm_compute; reflexivity..|]. exists (Some 2%N). split.
  - right. vm_compute. by left.
  - eexists _, (serialize Unlocked). split_and!; vm_compute; reflexivity.
Qed.

(** From absence, a failed clear can leave UNLOCKED published: the
    exclusive creation falls back to a link, its last step fails, the write
    counts as not installed, no compensation runs, and the reread reports
    UNLOCKED as the effective severity of the failure. *)
Theorem failed_clear_can_unlock_absence :
  let faults := (repeat None 13 ++ [Some ENOSYS; None; Some EIO])%list in
  let r := clear "state" 7 (mkWorld empty_disk (failing faults)) in
  r.1 = mkClear false false Unlocked PersistFailed ∧
  object_at (w_disk r.2) "state" (mkTarget (mkIdentity 1 10) (serialize Unlocked) 416 0 7).
Proof.
  split; [vm_compute; reflexivity|]. eexists 10%N, _. split_and!; vm_compute; reflexivity.
Qed.

(** ** Refinement of a severity register *)

Inductive store_op := SRaise (requested : IncidentSeverity) | SClear.

(** What the caller is told: success, and the effective severity. *)
Definition store_op_run (path : string) (fic_group : Z) (op : store_op) : M (bool * IncidentSeverity) :=
  match op with
  | SRaise requested => let* r := raiseToAtLeast path fic_group requested in mret (durable r, effectiveSeverity r)
  | SClear => let* r := clear path fic_group in mret (clear_ok r, clear_effective r)
  end.

Fixpoint store_ops_run (path : string) (fic_group : Z) (ops : list store_op) : M (list (store_op * (bool * IncidentSeverity))) :=
  match ops with
  | [] => mret []
  | op :: ops =>
      let* report := store_op_run path fic_group op in
      let* rest := store_ops_run path fic_group ops in
      mret ((op, report) :: rest)%list
  end.

(** The abstract register: one severity, which a raise lifts to the maximum or
    to ISOLATE and a clear takes to UNLOCKED or ISOLATE, or which stays; and a
    report of success is the truth about it. *)
Inductive register_step : IncidentSeverity → store_op → bool * IncidentSeverity → IncidentSeverity → Prop :=
  | reg_raise before requested report after :
      raise_step before requested after →
      (report.1 = true → report.2 = after ∧ sev_le requested after) →
      (report.1 = false → report.2 = Isolate) →
      register_step before (SRaise requested) report after
  | reg_clear before report after :
      clear_step before after →
      (report.1 = true → report.2 = Unlocked ∧ after = Unlocked) →
      register_step before SClear report after.

Inductive register_steps : IncidentSeverity → list (store_op * (bool * IncidentSeverity)) → IncidentSeverity → Prop :=
  | reg_done s : register_steps s [] s
  | reg_more s op report s' rest s'' :
      register_step s op report s' → register_steps s' rest s'' → register_steps s ((op, report) :: rest) s''.

Lemma store_op_refines path fic_group op d : visible path → wf d →
  runs (store_op_run path fic_group op) d (λ report d', wf d' ∧ register_step (now d path) op report (now d' path)).
Proof.
  intros Hp Hw. destruct op; simpl.
  - eapply runs_bind; [by apply raiseToAtLeast_runs|]. intros r d' Hr.
    destruct (raise_result_le _ _ _ _ _ Hr) as [Hyes _]. destruct Hr as (Hno & _ & _ & _ & _ & Hw' & Hstep & Heff). apply runs_ret.
    split; [done|]. constructor; simpl; [done| |done]. intros Hd. split; [auto|]. rewrite <-(Heff Hd). auto.
  - eapply runs_bind; [by apply clear_runs|]. intros r d' (Hok & _ & _ & Hw' & Hstep). apply runs_ret. split; [done|].
    constructor; simpl; [done|]. intros Hc. destruct (Hok Hc) as (_ & ? & n & i & Hl & Hcon). split; [done|].
    by apply (now_content _ _ n i).
Qed.

Lemma store_ops_refine path fic_group ops d : visible path → wf d →
  runs (store_ops_run path fic_group ops) d (λ reports d', register_steps (now d path) reports (now d' path)).
Proof.
  intros Hp. revert d. induction ops as [|op ops IH]; intros d Hw; simpl; [apply runs_ret; constructor|].
  eapply runs_bind; [by apply store_op_refines|]. intros report d1 [Hw1 Hstep].
  eapply runs_bind; [by apply IH|]. intros rest d2 Hrest. apply runs_ret. by econstructor.
Qed.

(** C23. The state store refines a severity register: whatever sequence of
    raises and clears runs on a directory nobody else touches, and whichever
    system calls fail, the severities the file stands for and the reports given
    to the callers are those of a register that a raise lifts to the maximum of
    the two (or to ISOLATE), a clear sets to UNLOCKED (or ISOLATE), a failed
    operation may leave as it is, and whose reports of success are true. *)
Theorem store_refines_register path fic_group ops w :
  alone w → wf (w_disk w) → visible path →
  let r := store_ops_run path fic_group ops w in
  register_steps (now (w_disk w) path) r.1 (now (w_disk r.2) path).
Proof. intros Ha Hw Hp. exact (runs_elim _ _ _ _ (store_ops_refine path fic_group ops (w_disk w) Hp Hw) eq_refl Ha). Qed.

(** * Witnesses *)

Definition unlocked_world : World := mkWorld (one_file "state" (serialize Unlocked)) (failing []).
Definition hard_world : World := mkWorld (one_file "state" (serialize Hard)) (failing []).

Lemma raise_is_fail_closed_witness :
  (durable (raiseToAtLeast "state" 7 Standard unlocked_world).1 = true ∧
   ∀ s, may_be (w_disk (raiseToAtLeast "state" 7 Standard unlocked_world).2) "state" s → s = Standard) ∧
  effectiveSeverity (raiseToAtLeast "state" 7 Standard hard_world).1 = maxIncidentSeverity Hard Standard.
Proof.
  split.
  - split; [vm_compute; reflexivity|].
    destruct (raise_is_fail_closed "state" 7 Standard unlocked_world (failing_alone _ _) (one_file_wf _ _) ltac:(done))
      as (_ & _ & _ & _ & H & _).
    exact (H eq_refl (or_introl eq_refl)).
  - destruct (raise_is_fail_closed "state" 7 Standard hard_world (failing_alone _ _) (one_file_wf _ _) ltac:(done))
      as (_ & _ & H & _).
    exact (H eq_refl).
Defined.

Lemma clear_is_fail_closed_witness :
  clear_ok (clear "state" 7 hard_world).1 = true ∧
  ∃ n i, lookup_path (w_disk (clear "state" 7 hard_world).2) "state" = Some (n, i) ∧ i_content i = serialize Unlocked.
Proof.
  split; [vm_compute; reflexivity|].
  destruct (clear_is_fail_closed "state" 7 hard_world (failing_alone _ _) (one_file_wf _ _) ltac:(done)) as (H & _).
  exact (proj2 (proj2 (H eq_refl))).
Defined.

Lemma broken_state_encoding_witness :
  durable (encodeDurableBrokenState "state" 7 unlocked_world).1 = true ∧
  ∀ s, may_be (w_disk (encodeDurableBrokenState "state" 7 unlocked_world).2) "state" s → s = Isolate.
Proof.
  split; [vm_compute; reflexivity|].
  destruct (broken_state_encoding "state" 7 unlocked_world (failing_alone _ _) (one_file_wf _ _)) as (_ & H & _).
  exact (H eq_refl).
Defined.

Lemma store_refines_register_witness :
  let r := store_ops_run "state" 7 [SRaise Standard; SRaise Soft; SClear] unlocked_world in
  r.1 = [(SRaise Standard, (true, Standard)); (SRaise Soft, (true, Standard)); (SClear, (true, Unlocked))]%list ∧
  register_steps Unlocked r.1 (now (w_disk r.2) "state").
Proof.
  split; [vm_compute; reflexivity|].
  exact (store_refines_register "state" 7 [SRaise Standard; SRaise Soft; SClear] unlocked_world
    (failing_alone _ _) (one_file_wf _ _) ltac:(done)).
Defined.
