(* ===== verification/ResponseMode.v ===== *)
(** The response mode of the incident controller
    (fic/src/incident/IncidentResponseMode) and the decision of the PAM access
    gate (fic/src/incident/IncidentAccessGateCore).

    The mode is read from GLOBAL.conf by a strict parser of its own, which
    falls back to ACTIVE whenever the file is not proven or not well formed.
    The same file is read by the ordinary configuration handler
    ([ModuleConfig.load]); the two agree on every file the strict parser
    accepts. *)

From S2P Require Import Prelude Severity ConfigFile FileModel AtomicWriter SecureRead StateStore.
Open Scope string_scope.
Open Scope nat_scope.
Open Scope file_scope.

Inductive IncidentResponseMode := ModeOff | ModePassive | ModeActive.
#[export] Instance IncidentResponseMode_eq_dec : EqDecision IncidentResponseMode.
Proof. solve_decision. Defined.

Record IncidentResponseModeResult := mkMode {
  response_mode : IncidentResponseMode;
  mode_proven : bool;
  mode_diagnostic : string;
  configuredValue : string
}.

Definition incidentResponseModeToken (mode : IncidentResponseMode) : string :=
  match mode with ModeOff => "OFF" | ModePassive => "PASSIVE" | ModeActive => "ACTIVE" end.

(** The value of a default-constructed result. *)
Definition default_mode : IncidentResponseModeResult := mkMode ModeActive false "" "".

Definition unproven (reason : string) : IncidentResponseModeResult :=
  mkMode ModeActive false ("fallback ACTIVE: " +:+ reason) "".

(** * The strict parser *)

Definition schema_key : string := "_schema_version".
Definition status_key : string := "incident_response_mode.status".
Definition value_key : string := "incident_response_mode.value".

Fixpoint remove_spaces (s : string) : string :=
  match s with
  | EmptyString => ""
  | String c s' => if isspace c then remove_spaces s' else String c (remove_spaces s')
  end.

(** A second spelling of one of the three keys. *)
Definition ambiguous_key (key : string) : bool :=
  let normalizedKey := remove_spaces key in
  negb (String.eqb normalizedKey key) &&
  (String.eqb normalizedKey schema_key || String.eqb normalizedKey status_key || String.eqb normalizedKey value_key).

Definition cr : Ascii.ascii := Ascii.ascii_of_nat 13.
Definition nul : Ascii.ascii := Ascii.ascii_of_nat 0.

Record scan_state := mkScan { scan_status : string; scan_value : string; scan_seen : gset string }.

(** A line that holds no assignment: empty, or a comment. *)
Definition skipped (line : string) : bool :=
  match line with EmptyString => true | String c _ => Ascii.eqb c hash end.

(** The checks of one line that is not skipped: key and value. *)
Definition scan_assignment (line : string) : string + (string * string) :=
  if contains cr line || contains nul line then inl "malformed GLOBAL.conf control character"
  else match cut "="%char line with
  | None => inl "malformed GLOBAL.conf assignment"
  | Some (key, item) =>
      if String.eqb key "" || contains "="%char item then inl "malformed GLOBAL.conf assignment"
      else if ambiguous_key key then inl "ambiguous GLOBAL.conf response mode key"
      else inr (key, item)
  end.

Definition scan_line (line : string) (st : scan_state) : string + scan_state :=
  if skipped line then inr st
  else match scan_assignment line with
  | inl reason => inl reason
  | inr (key, item) =>
      if bool_decide (key ∈ scan_seen st) then inl "duplicate GLOBAL.conf assignment"
      else
        let seen := {[key]} ∪ scan_seen st in
        if String.eqb key schema_key && negb (String.eqb item "1")
        then inl "unsupported GLOBAL.conf schema version"
        else if String.eqb key status_key then
          if negb (String.eqb (scan_status st) "") then inl "duplicate response mode status"
          else inr (mkScan item (scan_value st) seen)
        else if String.eqb key value_key then
          if negb (String.eqb (scan_value st) "") then inl "duplicate response mode value"
          else inr (mkScan (scan_status st) item seen)
        else inr (mkScan (scan_status st) (scan_value st) seen)
  end.

Fixpoint scan_lines (lines : list string) (st : scan_state) : string + scan_state :=
  match lines with
  | [] => inr st
  | line :: lines =>
      match scan_line line st with
      | inl reason => inl reason
      | inr st => scan_lines lines st
      end
  end.

Definition mode_of (status value : string) : IncidentResponseMode :=
  if String.eqb status "DISABLE" then ModeOff else if String.eqb value "PASSIVE" then ModePassive else ModeActive.

Definition mode_of_content (text : string) : IncidentResponseModeResult :=
  match scan_lines (getlines text) (mkScan "" "" ∅) with
  | inl reason => unproven reason
  | inr (mkScan status value seen) =>
      if negb (bool_decide (schema_key ∈ seen)) then unproven "GLOBAL.conf schema version is missing"
      else if negb (String.eqb status "ENABLE") && negb (String.eqb status "DISABLE")
      then unproven "missing or invalid response mode status"
      else if negb (String.eqb value "PASSIVE") && negb (String.eqb value "ACTIVE")
      then unproven "missing or invalid response mode value"
      else let mode := mode_of status value in
           mkMode mode true ("configured " +:+ incidentResponseModeToken mode) value
  end.

(** [IncidentResponseModeResolver::read]: [grandparent] proves the directory
    above the one that holds the file, [max_bytes] is MAX_WORKING_CONFIG_BYTES. *)
Definition mode_read (grandparent : M bool) (path : string) (expectation : SecureStateFileExpectation) (max_bytes : Z)
  : M IncidentResponseModeResult :=
  let* safe := grandparent in
  if negb safe then mret (unproven "GLOBAL.conf parent is not proven")
  else
    let* file := readSecureFileBounded path expectation max_bytes in
    mret (match read_status file with
          | Proven => mode_of_content (read_content file)
          | _ => unproven "GLOBAL.conf is not proven"
          end).

(** * What the strict parser accepts *)

(** A line that assigns [item] to [key]. *)
Record assigns (line key item : string) : Prop := {
  asg_line : line = key +:+ String "=" item;
  asg_key : key ≠ "";
  asg_key_plain : contains "="%char key = false;
  asg_item_plain : contains "="%char item = false;
  asg_control : contains cr line = false ∧ contains nul line = false;
  asg_clear : ambiguous_key key = false
}.

Lemma scan_assignment_exact line key item : scan_assignment line = inr (key, item) ↔ assigns line key item.
Proof.
  unfold scan_assignment. split.
  - destruct (contains cr line || contains nul line) eqn:Hctl; [done|]. apply orb_false_iff in Hctl.
    destruct (cut "="%char line) as [[k v]|] eqn:Hcut; [|done]. apply cut_spec in Hcut as [-> Hk].
    destruct (String.eqb_spec k ""); [done|]. destruct (contains "="%char v) eqn:Hv; [done|].
    destruct (ambiguous_key k) eqn:Ha; [done|]. intros [= -> ->]. by split.
  - intros [-> Hk Hkp Hip [Hcr Hnul] Ha]. rewrite Hcr, Hnul. simpl. rewrite cut_join by done.
    destruct (String.eqb_spec key ""); [done|]. by rewrite Hip, Ha.
Qed.

(** The assignments of a file, in order, if every line is well formed. *)
Inductive file_assigns : list string → list (string * string) → Prop :=
  | fa_nil : file_assigns [] []
  | fa_skip line lines kvs : skipped line = true → file_assigns lines kvs → file_assigns (line :: lines) kvs
  | fa_take line lines key item kvs : skipped line = false → assigns line key item → file_assigns lines kvs →
      file_assigns (line :: lines) ((key, item) :: kvs).

Definition pick (key : string) (kvs : list (string * string)) (old : string) : string :=
  default old ((list_to_map kvs : gmap string string) !! key).

Lemma pick_eq key item kvs old : pick key ((key, item) :: kvs) old = item.
Proof. unfold pick. simpl. by rewrite lookup_insert_eq. Qed.
Lemma pick_ne key key' item kvs old : key' ≠ key → pick key ((key', item) :: kvs) old = pick key kvs old.
Proof. intros Hne. unfold pick. simpl. by rewrite lookup_insert_ne. Qed.
Lemma pick_fresh key kvs old : key ∉ kvs.*1 → pick key kvs old = old.
Proof. intros Hk. unfold pick. by rewrite not_elem_of_list_to_map_1. Qed.

Lemma pick_step k key item kvs old : key ∉ kvs.*1 →
  pick k kvs (if String.eqb key k then item else old) = pick k ((key, item) :: kvs) old.
Proof.
  intros Hk. destruct (String.eqb_spec key k) as [->|]; [by rewrite pick_eq, pick_fresh|by rewrite pick_ne].
Qed.

(** No status (or value) is remembered before its key was seen. *)
Definition scan_inv (st : scan_state) : Prop :=
  (status_key ∉ scan_seen st → scan_status st = "") ∧ (value_key ∉ scan_seen st → scan_value st = "").

Definition scan_step (key item : string) (st : scan_state) : scan_state :=
  mkScan (if String.eqb key status_key then item else scan_status st)
    (if String.eqb key value_key then item else scan_value st) ({[key]} ∪ scan_seen st).

Lemma scan_line_exact line st st' : scan_inv st →
  scan_line line st = inr st' ↔
  skipped line = true ∧ st' = st ∨
  skipped line = false ∧ ∃ key item, assigns line key item ∧ key ∉ scan_seen st ∧
    (key = schema_key → item = "1") ∧ st' = scan_step key item st.
Proof.
  intros [Hs Hv]. unfold scan_line. destruct (skipped line) eqn:Hsk; [naive_solver|].
  destruct (scan_assignment line) as [reason|[key item]] eqn:Hasg.
  { split; [done|]. intros [[? _]|(_ & key & item & Ha & _)]; [done|]. apply scan_assignment_exact in Ha. congruence. }
  assert (∀ k i, assigns line k i ↔ k = key ∧ i = item) as Huniq.
  { intros k i. rewrite <-scan_assignment_exact, Hasg. naive_solver. }
  assert (scan_line line st = inr st' ↔ key ∉ scan_seen st ∧ (key = schema_key → item = "1") ∧ st' = scan_step key item st)
    as Hcore; [|unfold scan_line in Hcore; rewrite Hsk, Hasg in Hcore; rewrite Hcore; naive_solver].
  unfold scan_line, scan_step. rewrite Hsk, Hasg. case_bool_decide as Hseen; [naive_solver|].
  destruct (String.eqb_spec key schema_key) as [->|Hn1]; simpl.
  { destruct (String.eqb_spec item "1"); simpl; naive_solver. }
  destruct (String.eqb_spec key status_key) as [->|Hn2]; simpl; [rewrite Hs by done; naive_solver|].
  destruct (String.eqb_spec key value_key) as [->|Hn3]; simpl; [rewrite Hv by done|]; naive_solver.
Qed.

Lemma scan_step_inv key item st : scan_inv st → scan_inv (scan_step key item st).
Proof.
  intros [Hs Hv]. unfold scan_step. split; simpl; rewrite not_elem_of_union, not_elem_of_singleton; intros [Hne Hin].
  - destruct (String.eqb_spec key status_key); [congruence|auto].
  - destruct (String.eqb_spec key value_key); [congruence|auto].
Qed.

Lemma scan_lines_exact lines st st' : scan_inv st →
  scan_lines lines st = inr st' ↔
  ∃ kvs, file_assigns lines kvs ∧ NoDup kvs.*1 ∧ (∀ k, k ∈ kvs.*1 → k ∉ scan_seen st) ∧
    (∀ v, (schema_key, v) ∈ kvs → v = "1") ∧
    st' = mkScan (pick status_key kvs (scan_status st)) (pick value_key kvs (scan_value st))
            (list_to_set kvs.*1 ∪ scan_seen st).
Proof.
  revert st. induction lines as [|line lines IH]; intros st Hinv; simpl.
  - split.
    + intros [= <-]. exists []. split_and!; [constructor|constructor|set_solver|set_solver|]. destruct st. simpl. f_equal. set_solver.
    + intros (kvs & Hf & _ & _ & _ & ->). inversion Hf; subst. destruct st. simpl. do 2 f_equal. set_solver.
  - split.
    + destruct (scan_line line st) as [|st1] eqn:Hl; [done|].
      apply scan_line_exact in Hl as [[Hsk ->]|(Hsk & key & item & Ha & Hfresh & Hsch & ->)]; [| |done].
      * rewrite IH by done. intros (kvs & Hf & H). exists kvs. split; [by constructor|done].
      * rewrite IH by (by apply scan_step_inv). intros (kvs & Hf & Hnd & Hdis & Hone & ->).
        exists ((key, item) :: kvs). assert (key ∉ kvs.*1) as Hnk by (intros Hk; specialize (Hdis key Hk); set_solver).
        split_and!; simpl.
        -- by constructor.
        -- by constructor.
        -- intros k. rewrite elem_of_cons. intros [->|Hk]; [done|]. specialize (Hdis k Hk). set_solver.
        -- intros v. rewrite elem_of_cons. intros [[= <- ->]|]; auto.
        -- f_equal; [by apply pick_step..|set_solver].
    + intros (kvs & Hf & Hnd & Hdis & Hone & ->). inversion Hf as [|? ? ? Hsk Hf'|? ? key item kvs' Hsk Ha Hf']; subst.
      * assert (scan_line line st = inr st) as -> by (apply scan_line_exact; [done|by left]). apply IH; [done|].
        exists kvs. by split_and!.
      * apply NoDup_cons in Hnd as [Hnk Hnd].
        assert (scan_line line st = inr (scan_step key item st)) as ->.
        { apply scan_line_exact; [done|]. right. split; [done|]. exists key, item. split_and!; [done| | |done].
          - apply Hdis. by left.
          - intros ->. apply Hone. by left. }
        apply IH; [by apply scan_step_inv|]. exists kvs'. split_and!; [done..| | |].
        -- intros k Hk. simpl. assert (k ∉ scan_seen st) by (apply Hdis; by right). set_solver.
        -- intros v Hv. apply Hone. by right.
        -- simpl. f_equal; [by rewrite pick_step..|set_solver].
Qed.

Lemma mode_of_content_proven text m v :
  (∃ diag, mode_of_content text = mkMode m true diag v) ↔
  ∃ kvs status, file_assigns (getlines text) kvs ∧ NoDup kvs.*1 ∧
    (schema_key, "1") ∈ kvs ∧ (status_key, status) ∈ kvs ∧ (value_key, v) ∈ kvs ∧
    (status = "ENABLE" ∨ status = "DISABLE") ∧ (v = "PASSIVE" ∨ v = "ACTIVE") ∧ m = mode_of status v.
Proof.
  unfold mode_of_content. split.
  - intros [diag Heq]. destruct (scan_lines _ _) as [reason|st] eqn:Hscan; [done|].
    apply scan_lines_exact in Hscan as (kvs & Hf & Hnd & _ & Hone & ->); [|by split]. simpl in Heq.
    case_bool_decide as Hsch; [|done]. simpl in Heq.
    destruct (negb (String.eqb _ "ENABLE") && _) eqn:Hst in Heq; [done|].
    destruct (negb (String.eqb _ "PASSIVE") && _) eqn:Hv in Heq; [done|]. injection Heq as <- _ <-.
    assert (∀ k a b, negb (String.eqb (pick k kvs "") a) && negb (String.eqb (pick k kvs "") b) = false →
      a ≠ "" → b ≠ "" → (k, pick k kvs "") ∈ kvs ∧ (pick k kvs "" = a ∨ pick k kvs "" = b)) as Hpick.
    { intros k a b. unfold pick. destruct (list_to_map kvs !! k) as [x|] eqn:Hx; simpl.
      - apply elem_of_list_to_map_2 in Hx. destruct (String.eqb_spec x a), (String.eqb_spec x b); simpl; auto; done.
      - destruct a, b; done. }
    apply Hpick in Hst as [Hst1 Hst2]; [|done..]. apply Hpick in Hv as [Hv1 Hv2]; [|done..].
    exists kvs, (pick status_key kvs ""). split_and!; try done.
    rewrite elem_of_union, elem_of_list_to_set in Hsch. destruct Hsch as [Hsch|]; [|set_solver].
    apply list_elem_of_fmap in Hsch as ([k one] & Hk & Hin). simpl in Hk. subst k. by rewrite <-(Hone one Hin).
  - intros (kvs & status & Hf & Hnd & Hsch & Hst & Hv & Hst' & Hv' & ->). eexists.
    assert (∀ k x, (k, x) ∈ kvs → pick k kvs "" = x) as Hpick.
    { intros k x Hin. unfold pick. by rewrite (elem_of_list_to_map_1 _ k x) by done. }
    assert (scan_lines (getlines text) (mkScan "" "" ∅) = inr (mkScan status v (list_to_set kvs.*1 ∪ ∅))) as ->.
    { apply scan_lines_exact; [by split|]. exists kvs. split_and!; [done|done|set_solver| |].
      - intros x Hx. pose proof (Hpick _ _ Hx). pose proof (Hpick _ _ Hsch). congruence.
      - simpl. by rewrite (Hpick _ _ Hst), (Hpick _ _ Hv). }
    rewrite bool_decide_eq_true_2; [|apply elem_of_union; left; apply elem_of_list_to_set; by apply (list_elem_of_fmap_2 fst _ _ Hsch)].
    by destruct Hst' as [-> | ->], Hv' as [-> | ->].
Qed.

Lemma mode_of_content_unproven text : mode_proven (mode_of_content text) = false → response_mode (mode_of_content text) = ModeActive.
Proof.
  unfold mode_of_content. destruct (scan_lines _ _) as [|[status value seen]]; [done|].
  destruct (negb _); [done|]. destruct (_ && _); [done|]. by destruct (_ && _).
Qed.

(** * The ordinary reader of the same file *)

Lemma remove_spaces_app s t : remove_spaces (s +:+ t) = remove_spaces s +:+ remove_spaces t.
Proof.
  induction s as [|c s IH]; [done|]. change (String c s +:+ t) with (String c (s +:+ t)). simpl.
  destruct (isspace c); [done|]. by rewrite IH.
Qed.

Lemma remove_spaces_ltrim s : remove_spaces (ltrim s) = remove_spaces s.
Proof.
  induction s as [|c s IH]; [done|]. simpl. destruct (trim_char c) eqn:Hc; [|done].
  by rewrite (trim_char_isspace _ Hc).
Qed.

Lemma remove_spaces_rtrim s : remove_spaces (rtrim s) = remove_spaces s.
Proof.
  induction s as [|c s IH]; [done|]. simpl. destruct (rtrim s) as [|r r']; simpl in *.
  - rewrite <-IH. destruct (trim_char c) eqn:Hc; simpl; [by rewrite (trim_char_isspace _ Hc)|by destruct (isspace c)].
  - by rewrite <-IH.
Qed.

Lemma remove_spaces_squeeze b s : remove_spaces (squeeze b s) = remove_spaces s.
Proof.
  revert b. induction s as [|c s IH]; intros b; [done|]. simpl.
  destruct (isspace c) eqn:Hc; [|simpl; by rewrite Hc, IH]. destruct b; simpl; [|rewrite Hc]; by rewrite IH.
Qed.

Lemma remove_spaces_trim b s : remove_spaces (trim b s) = remove_spaces s.
Proof.
  unfold trim. destruct b; rewrite ?remove_spaces_squeeze; by rewrite remove_spaces_rtrim, remove_spaces_ltrim.
Qed.

Lemma remove_spaces_plain c s : isspace c = false → contains c (remove_spaces s) = contains c s.
Proof.
  intros Hc. induction s as [|a s IH]; [done|]. simpl. destruct (isspace a) eqn:Ha; simpl; rewrite IH; [|done].
  destruct (Ascii.eqb_spec a c); [congruence|done].
Qed.

(** Cutting at the delimiter and dropping the blanks commute. *)
Lemma cut_remove_spaces s p q : cut "="%char s = Some (p, q) →
  cut "="%char (remove_spaces s) = Some (remove_spaces p, remove_spaces q).
Proof.
  intros Hc. apply cut_spec in Hc as [-> Hp]. rewrite remove_spaces_app. simpl. apply cut_join.
  by rewrite remove_spaces_plain.
Qed.

Lemma trim_keeps c s : trim_char c = false → contains c s = true → contains c (trim false s) = true.
Proof.
  intros Hc Hin. unfold trim.
  assert (contains c (ltrim s) = true) as Hl.
  { induction s as [|a s IH]; [done|]. simpl in *. destruct (trim_char a) eqn:Ha; [|done].
    destruct (Ascii.eqb_spec a c); [congruence|auto]. }
  clear Hin. induction (ltrim s) as [|a t IH]; [done|]. simpl in *. destruct (rtrim t) as [|r r']; simpl in *.
  - destruct (Ascii.eqb_spec a c) as [->|]; [rewrite Hc; simpl; by rewrite Ascii.eqb_refl|]. simpl in Hl. by apply IH in Hl.
  - apply orb_true_iff in Hl as [->|Hl]; [done|]. rewrite (IH Hl). apply orb_true_r.
Qed.


(** A line the strict parser gives another meaning (or none) does not set one
    of its keys in the ordinary reader either. *)
Lemma load_line_other line cfg K :
  K = status_key ∨ K = value_key →
  skipped line = true ∨ (∃ key item, assigns line key item ∧ key ≠ K) →
  (load_line "=" Normalize line cfg).2 !! K = cfg !! K.
Proof.
  intros HK Hline. unfold load_line. destruct (contains hash (trim false line)) eqn:Hh; [done|].
  destruct (String.eqb_spec (trim false line) "") as [|Hne]; [done|].
  destruct (cut _ (trim false line)) as [[p q]|] eqn:Hcut; [|done]. cbn [is_normalize].
  destruct (String.eqb_spec (trim true p) ""); [done|].
  destruct (cfg !! trim true p) eqn:Hcfg; [done|]. cbn [snd].
  destruct (decide (trim true p = K)) as [Heq|]; [exfalso|by apply lookup_insert_ne].
  assert (remove_spaces K = K) as Hrk by (by destruct HK as [-> | ->]).
  apply cut_remove_spaces in Hcut. rewrite remove_spaces_trim in Hcut.
  rewrite <-(remove_spaces_trim true p), Heq, Hrk in Hcut.
  destruct Hline as [Hskip|(key & item & [-> Hkey Hkp _ _ Hamb] & Hneq)].
  - destruct line as [|c line]; [done|]. simpl in Hskip. apply Ascii.eqb_eq in Hskip as ->.
    by rewrite trim_keeps in Hh.
  - pose proof (cut_remove_spaces _ _ _ (cut_join "="%char key item Hkp)) as Hcut'.
    assert (remove_spaces key = K) as Hrem by congruence. unfold ambiguous_key in Hamb. rewrite Hrem in Hamb.
    destruct (String.eqb_spec K key); [congruence|]. by destruct HK as [-> | ->].
Qed.

Lemma load_lines_other lines kvs cfg K :
  K = status_key ∨ K = value_key → file_assigns lines kvs → K ∉ kvs.*1 →
  (load_lines "="%char Normalize lines cfg).2 !! K = cfg !! K.
Proof.
  intros HK Hf. revert cfg. induction Hf as [|line lines kvs Hsk Hf IH|line lines key item kvs Hsk Ha Hf IH]; intros cfg HnK; simpl.
  - done.
  - pose proof (load_line_other line cfg K HK (or_introl Hsk)) as Hline. destruct (load_line "=" Normalize line cfg) as [l c].
    specialize (IH c HnK). destruct (load_lines "="%char Normalize lines c). simpl in *. congruence.
  - simpl in HnK. apply not_elem_of_cons in HnK as [Hne HnK].
    pose proof (load_line_other line cfg K HK (or_intror (ex_intro _ key (ex_intro _ item (conj Ha (not_eq_sym Hne)))))) as Hline.
    destruct (load_line "=" Normalize line cfg) as [l c]. specialize (IH c HnK). destruct (load_lines "="%char Normalize lines c). simpl in *. congruence.
Qed.

Definition mode_token (v : string) : Prop := v ∈ ["ENABLE"; "DISABLE"; "PASSIVE"; "ACTIVE"].

Lemma load_line_same K v cfg :
  K = status_key ∨ K = value_key → mode_token v → cfg !! K = None →
  (load_line "="%char Normalize (K +:+ String "=" v) cfg).2 = <[K := v]> cfg.
Proof.
  intros HK Hv Hnone. unfold mode_token in Hv. rewrite !elem_of_cons, elem_of_nil in Hv.
  assert (load_line "="%char Normalize (K +:+ String "=" v) cfg =
    match cfg !! K with Some _ => (String hash (join_line "="%char K v), cfg) | None => (join_line "="%char K v, <[K := v]> cfg) end)
    as ->; [|by rewrite Hnone].
  destruct HK as [-> | ->]; destruct Hv as [-> | [-> | [-> | [-> | []]]]]; reflexivity.
Qed.

Lemma load_lines_found lines kvs cfg K v :
  K = status_key ∨ K = value_key → mode_token v → file_assigns lines kvs → NoDup kvs.*1 → (K, v) ∈ kvs → cfg !! K = None →
  (load_lines "="%char Normalize lines cfg).2 !! K = Some v.
Proof.
  intros HK Hv Hf. revert cfg.
  induction Hf as [|line lines kvs Hsk Hf IH|line lines key item kvs Hsk Ha Hf IH]; intros cfg Hnd Hin Hnone; simpl.
  - inversion Hin.
  - pose proof (load_line_other line cfg K HK (or_introl Hsk)) as Hline. destruct (load_line "=" Normalize line cfg) as [l c].
    specialize (IH c Hnd Hin). destruct (load_lines "="%char Normalize lines c). simpl in *. apply IH. congruence.
  - apply NoDup_cons in Hnd as [Hnk Hnd]. apply elem_of_cons in Hin as [[= <- <-]|Hin].
    + rewrite (asg_line _ _ _ Ha). pose proof (load_line_same K v cfg HK Hv Hnone) as Hsame.
      destruct (load_line "="%char Normalize (K +:+ String "=" v) cfg) as [l c]. simpl in Hsame. subst c.
      pose proof (load_lines_other lines kvs (<[K:=v]> cfg) K HK Hf Hnk) as Hrest.
      destruct (load_lines "="%char Normalize lines (<[K:=v]> cfg)). simpl in *. by rewrite Hrest, lookup_insert_eq.
    + assert (K ∈ kvs.*1) as HinK by (by apply (list_elem_of_fmap_2 fst _ _ Hin)).
      assert (key ≠ K) as Hne by (intros ->; done).
      pose proof (load_line_other line cfg K HK (or_intror (ex_intro _ key (ex_intro _ item (conj Ha Hne))))) as Hline.
      destruct (load_line "=" Normalize line cfg) as [l c]. specialize (IH c Hnd Hin).
      destruct (load_lines "="%char Normalize lines c). simpl in *. apply IH. congruence.
Qed.

(** [IncidentController::networkQuarantineRequired]. *)
Definition networkQuarantineRequired (mode : IncidentResponseModeResult) (state : ReadResult)
    (forcedEffectiveIsolate : bool) : bool :=
  (negb (mode_proven mode) || bool_decide (response_mode mode = ModeActive)) &&
  (forcedEffectiveIsolate || bool_decide (provenance state ≠ PProven) || bool_decide (severity state = Isolate)).

(** * Properties *)

(** A response mode is proven exactly when GLOBAL.conf says so without any
    ambiguity: every line is empty, a comment or one assignment; no key is
    assigned twice or spelled with blanks; the schema version is 1, the status
    ENABLE or DISABLE and the value PASSIVE or ACTIVE; and the mode is the one
    these two say. In every other case the mode is ACTIVE, not proven. *)
Theorem mode_config_exact text :
  (∀ m v, (∃ diag, mode_of_content text = mkMode m true diag v) ↔
    ∃ kvs status, file_assigns (getlines text) kvs ∧ NoDup kvs.*1 ∧
      (schema_key, "1") ∈ kvs ∧ (status_key, status) ∈ kvs ∧ (value_key, v) ∈ kvs ∧
      (status = "ENABLE" ∨ status = "DISABLE") ∧ (v = "PASSIVE" ∨ v = "ACTIVE") ∧ m = mode_of status v) ∧
  (mode_proven (mode_of_content text) = false → response_mode (mode_of_content text) = ModeActive).
Proof. split; [intros m v; apply mode_of_content_proven|apply mode_of_content_unproven]. Qed.

(** The two readers of GLOBAL.conf agree: whenever the strict reader proves
    a mode, the ordinary configuration handler reads the same status and the
    same value of incident_response_mode from the same text. *)
Theorem mode_readers_agree text m v diag :
  mode_of_content text = mkMode m true diag v →
  ModuleConfig.getPolicyStatus (ModuleConfig.load text) "incident_response_mode" = (if bool_decide (m = ModeOff) then ModuleConfig.DISABLED_STATUS else ModuleConfig.ENABLED_STATUS) ∧
  ModuleConfig.getPolicyValue (ModuleConfig.load text) "incident_response_mode" = v.
Proof.
  intros Hm. destruct (proj1 (mode_of_content_proven text m v) (ex_intro _ diag Hm))
    as (kvs & status & Hf & Hnd & _ & Hst & Hv & Hst' & Hv' & ->).
  assert (mode_token status ∧ mode_token v) as [Ht1 Ht2].
  { unfold mode_token. split; [destruct Hst' as [-> | ->]|destruct Hv' as [-> | ->]]; set_solver. }
  pose proof (load_lines_found _ _ ∅ status_key status (or_introl eq_refl) Ht1 Hf Hnd Hst (lookup_empty _)) as Hs.
  pose proof (load_lines_found _ _ ∅ value_key v (or_intror eq_refl) Ht2 Hf Hnd Hv (lookup_empty _)) as Hval.
  unfold ModuleConfig.getPolicyStatus, ModuleConfig.getPolicyValue, isParameterExists, getValue, ModuleConfig.load, loadConfig.
  change (ModuleConfig.statusKey "incident_response_mode") with status_key. change (ModuleConfig.valueKey "incident_response_mode") with value_key.
  destruct (load_lines _ _ _ _) as [l c]. simpl in *. rewrite Hs, Hval. simpl. split; [|done].
  by destruct Hst' as [-> | ->], Hv' as [-> | ->].
Qed.

(** * Witnesses *)

Definition sample_global : string :=
  "# modes" +:+ newline_text +:+ "_schema_version=1" +:+ newline_text +:+ newline_text +:+
  "incident_response_mode.status=ENABLE" +:+ newline_text +:+ "incident_response_mode.value=PASSIVE".

Lemma mode_config_exact_witness :
  mode_proven (mode_of_content "_schema_version=2") = false ∧
  response_mode (mode_of_content "_schema_version=2") = ModeActive.
Proof.
  split; [vm_compute; reflexivity|]. apply (proj2 (mode_config_exact "_schema_version=2")). vm_compute. reflexivity.
Defined.

Lemma mode_readers_agree_witness :
  mode_of_content sample_global = mkMode ModePassive true "configured PASSIVE" "PASSIVE" ∧
  ModuleConfig.getPolicyValue (ModuleConfig.load sample_global) "incident_response_mode" = "PASSIVE".
Proof.
  split; [vm_compute; reflexivity|].
  refine (proj2 (mode_readers_agree sample_global ModePassive "PASSIVE" "configured PASSIVE" _)). vm_compute. reflexivity.
Defined.
