(* ===== verification/Json.v ===== *)
(** JSON values as the program reads and writes them (nlohmann::json).

    Only the queries the modelled code uses are here. Text is not modelled: the
    library's [parse] and [dump] are parameters where they occur. An object is
    the list of its members; the library keeps at most one per key. Of a
    floating-point number only its value rounded towards zero is kept. *)

From S2P Require Import Prelude.
Open Scope string_scope.

Inductive json :=
  | JNull
  | JBool (b : bool)
  | JUnsigned (n : Z)
  | JInteger (z : Z)
  | JFloat (truncated : Z)
  | JString (s : string)
  | JArray (items : list json)
  | JObject (members : list (string * json)).

(** The first member with this key. *)
Fixpoint member (key : string) (members : list (string * json)) : option json :=
  match members with
  | [] => None
  | (k, v) :: rest => if String.eqb k key then Some v else member key rest
  end.

Definition find (key : string) (j : json) : option json :=
  match j with JObject members => member key members | _ => None end.

Definition as_string (j : json) : option string := match j with JString s => Some s | _ => None end.
Definition as_bool (j : json) : option bool := match j with JBool b => Some b | _ => None end.
Definition as_unsigned (j : json) : option Z := match j with JUnsigned n => Some n | _ => None end.
Definition as_array (j : json) : option (list json) := match j with JArray l => Some l | _ => None end.

(** [is_number_integer] holds of both integer kinds. *)
Definition as_integer (j : json) : option Z :=
  match j with JUnsigned n => Some n | JInteger z => Some z | _ => None end.

(** [find] followed by the type test and [get]: the code fails when either does. *)
Definition string_at (key : string) (j : json) : option string := find key j ≫= as_string.
Definition bool_at (key : string) (j : json) : option bool := find key j ≫= as_bool.
Definition unsigned_at (key : string) (j : json) : option Z := find key j ≫= as_unsigned.
Definition integer_at (key : string) (j : json) : option Z := find key j ≫= as_integer.
Definition array_at (key : string) (j : json) : option (list json) := find key j ≫= as_array.

(** [is_object() && size() == n]. *)
Definition object_of_size (n : nat) (j : json) : bool :=
  match j with JObject members => bool_decide (length members = n) | _ => false end.

(** Takes a successful chain of queries and tests apart. *)
Ltac inv_chain H := repeat match type of H with
  | (?x ≫= _) = Some _ => destruct x eqn:?; simpl in H; [|discriminate H]
  | (if ?b then None else _) = Some _ => destruct b eqn:?; [discriminate H|]
  | (if ?b then _ else None) = Some _ => destruct b eqn:?; [|discriminate H]
  end.
