(* ===== verification/JsonRead.v ===== *)
(** Reading and building JSON the way the mutation journal does it.

    nlohmann::json reports a missing member or a value of the wrong kind by
    throwing from [at], [get] and [value], while the code's own tests refuse
    the document. The two are kept apart: [Rejected] is a refusal the caller
    turns into a failed load, [Threw] is an exception nobody on the way
    catches. *)

From S2P Require Import Prelude Json.
Open Scope string_scope.
Open Scope nat_scope.

Inductive parsed (A : Type) : Type :=
  | Accepted (a : A)
  | Rejected
  | Threw.
Arguments Accepted {A} a.
Arguments Rejected {A}.
Arguments Threw {A}.

Definition pbind {A B} (m : parsed A) (k : A → parsed B) : parsed B :=
  match m with Accepted a => k a | Rejected => Rejected | Threw => Threw end.

Declare Scope parsed_scope.
Notation "'let?' x ':=' m 'in' k" := (pbind m (λ x, k))
  (at level 100, x pattern, m at next level, right associativity) : parsed_scope.
Notation "'require' b 'in' k" := (pbind (if b then Accepted tt else Rejected) (λ _, k))
  (at level 100, b at next level, right associativity) : parsed_scope.
Open Scope parsed_scope.

(** * Queries *)

(** [at]: throws on a missing member and on a value that is no object. *)
Definition json_at (key : string) (j : json) : parsed json :=
  match Json.find key j with Some v => Accepted v | None => Threw end.

(** [get<std::string>], [get<bool>] and the integer conversions. A number
    converts to any integer type by truncation to its width; only a type other
    than the library's own also takes a boolean. *)
Definition get_string (j : json) : parsed string := match j with JString s => Accepted s | _ => Threw end.
Definition get_bool (j : json) : parsed bool := match j with JBool b => Accepted b | _ => Threw end.

Definition number (j : json) : option Z :=
  match j with JUnsigned z | JInteger z | JFloat z => Some z | _ => None end.
Definition get_u64 (j : json) : parsed Z :=
  match number j with Some z => Accepted (z mod 2 ^ 64)%Z | None => Threw end.
Definition get_u32 (j : json) : parsed Z :=
  match j with
  | JBool b => Accepted (Z.b2z b)
  | _ => match number j with Some z => Accepted (z mod 2 ^ 32)%Z | None => Threw end
  end.
Definition signed64 (z : Z) : Z := ((z + 2 ^ 63) mod 2 ^ 64 - 2 ^ 63)%Z.
Definition get_i64 (j : json) : parsed Z :=
  match number j with Some z => Accepted (signed64 z) | None => Threw end.

(** [get<std::vector<std::string>>]. *)
Fixpoint get_all {A} (get : json → parsed A) (items : list json) : parsed (list A) :=
  match items with
  | [] => Accepted []
  | item :: rest => let? a := get item in let? l := get_all get rest in Accepted (a :: l)
  end.
Definition get_strings (j : json) : parsed (list string) :=
  match j with JArray items => get_all get_string items | _ => Threw end.

(** [value(key, default)]: the default for a missing member, an exception for
    one of another kind. *)
Definition value_or {A} (get : json → parsed A) (default : A) (key : string) (j : json) : parsed A :=
  match j with
  | JObject members => match member key members with Some v => get v | None => Accepted default end
  | _ => Threw
  end.
Definition value_string : string → json → parsed string := value_or get_string "".
Definition value_i64 : string → json → parsed Z := value_or get_i64 0%Z.

(** [find] and a type test: the code refuses when either fails. *)
Definition field {A} (get : json → option A) (key : string) (j : json) : parsed A :=
  match Json.find key j ≫= get with Some a => Accepted a | None => Rejected end.
Definition string_field : string → json → parsed string := field as_string.
Definition bool_field : string → json → parsed bool := field as_bool.
Definition unsigned_field : string → json → parsed Z := field as_unsigned.
Definition array_field : string → json → parsed (list json) := field as_array.

(** A member that is a string or null. *)
Definition as_optional_string (j : json) : option (option string) :=
  match j with JString s => Some (Some s) | JNull => Some None | _ => None end.
Definition optional_string_field : string → json → parsed (option string) := field as_optional_string.

(** A loop that pushes strings and refuses any other item. *)
Definition as_strings (j : json) : option (list string) := as_array j ≫= mapM as_string.

Definition is_object (j : json) : bool := match j with JObject _ => true | _ => false end.
Definition as_object (j : json) : option json := match j with JObject _ => Some j | _ => None end.
Definition object_field : string → json → parsed json := field as_object.

(** * Building *)

(** An object filled by assignments [value\[key\] = ...], in this order. *)
Definition fields (l : list (string * json)) : list (string * json) :=
  foldl (λ m kv, smap_set kv.1 kv.2 m) [] l.
Definition obj (l : list (string * json)) : json := JObject (fields l).

Definition jstrings (l : list string) : json := JArray (JString <$> l).
Definition joptional (o : option string) : json := match o with Some s => JString s | None => JNull end.

(** A signed number, as its text is read back: the library reads one that is
    not negative as unsigned. *)
Definition jsigned (z : Z) : json := if (0 <=? z)%Z then JUnsigned z else JInteger z.

(** * What is read from what was built *)

Fixpoint last_member (key : string) (found : option json) (l : list (string * json)) : option json :=
  match l with
  | [] => found
  | (k, v) :: l => last_member key (if String.eqb k key then Some v else found) l
  end.

Lemma member_set key k v (m : list (string * json)) :
  member key (smap_set k v m) = if String.eqb k key then Some v else member key m.
Proof.
  induction m as [|[k0 v0] m IH]; simpl; [done|]. destruct (String.compare k k0) eqn:E; simpl; [| |rewrite IH].
  - apply String.compare_eq_iff in E as ->. by destruct (String.eqb k0 key).
  - done.
  - destruct (String.eqb_spec k0 key) as [->|]; [|done]. destruct (String.eqb_spec k key) as [->|]; [|done].
    pose proof (cmp_refl key) as Hr. simpl in Hr. congruence.
Qed.

Lemma member_fields key m l :
  member key (foldl (λ m kv, smap_set kv.1 kv.2 m) m l) = last_member key (member key m) l.
Proof. revert m. induction l as [|[k v] l IH]; intros m; simpl; [done|]. by rewrite IH, member_set. Qed.

Lemma member_obj key l : member key (fields l) = last_member key None l.
Proof. apply member_fields. Qed.

Lemma find_obj key l : Json.find key (obj l) = last_member key None l.
Proof. apply member_obj. Qed.

Lemma value_or_obj {A} (get : json → parsed A) d key l :
  value_or get d key (obj l) = match last_member key None l with Some v => get v | None => Accepted d end.
Proof. unfold value_or, obj. by rewrite member_obj. Qed.

Lemma as_object_obj l : as_object (obj l) = Some (obj l).
Proof. done. Qed.
Lemma is_object_obj l : is_object (obj l) = true.
Proof. done. Qed.

Lemma fields_sorted l : StronglySorted clt (fields l).*1.
Proof.
  unfold fields. assert (smap_wf (@nil (string * json))) as Hwf by apply smap_wf_nil. revert Hwf.
  generalize (@nil (string * json)). induction l as [|[k v] l IH]; intros m Hwf; simpl; [done|].
  apply IH. by apply smap_set_wf.
Qed.

Lemma mapM_jstrings l : mapM as_string (JString <$> l) = Some l.
Proof. induction l as [|s l IH]; [done|]. rewrite fmap_cons. cbn [mapM]. simpl. by rewrite IH. Qed.

Lemma as_strings_jstrings l : as_strings (jstrings l) = Some l.
Proof. apply mapM_jstrings. Qed.

Lemma get_strings_jstrings l : get_strings (jstrings l) = Accepted l.
Proof.
  unfold get_strings, jstrings. induction l as [|s l IH]; [done|]. rewrite fmap_cons. cbn [get_all get_string pbind].
  by rewrite IH.
Qed.

Lemma as_optional_joptional o : as_optional_string (joptional o) = Some o.
Proof. by destruct o. Qed.

Lemma get_i64_jsigned z : (- 2 ^ 63 ≤ z < 2 ^ 63)%Z → get_i64 (jsigned z) = Accepted z.
Proof.
  intros Hz. assert (signed64 z = z) as Hs by (unfold signed64; rewrite Z.mod_small by lia; lia).
  unfold jsigned. destruct (0 <=? z)%Z; unfold get_i64; cbn [number]; by rewrite Hs.
Qed.

Lemma pbind_Accepted {A B} (m : parsed A) (k : A → parsed B) b :
  pbind m k = Accepted b ↔ ∃ a, m = Accepted a ∧ k a = Accepted b.
Proof. destruct m; simpl; naive_solver. Qed.

(** Takes a successful reading apart into the values read and the tests
    passed. *)
Ltac inv_read H := repeat match type of H with
  | pbind (if ?b then Accepted tt else Rejected) _ = Accepted _ => destruct b eqn:?; cbn [pbind] in H; [|discriminate H]
  | pbind ?m _ = Accepted _ => destruct m eqn:?; cbn [pbind] in H; [|discriminate H..]
  | (if ?b then _ else _) = Accepted _ => destruct b eqn:?; try discriminate H
  end.

(** Reads the members of an object whose keys are literals. *)
Ltac read_obj :=
  unfold string_field, bool_field, unsigned_field, array_field, optional_string_field, object_field, field, value_string,
    value_i64, json_at;
  repeat first [rewrite find_obj | rewrite value_or_obj];
  cbn [last_member String.eqb Ascii.eqb Bool.eqb option_bind base.mbind as_string as_bool as_unsigned as_array
       jstrings get_string get_bool pbind].
