(* ===== verification/AccessGate.v ===== *)
(** Who may log in during an incident: the daemon's answer
    (fic-common/fic-ipc/src/FicReadinessStatus.cpp, currentAccessStatus of
    fic/src/main.cpp, fic/src/incident/DaemonReadiness.h), the client that asks
    for it (IncidentAccessClient) and the decision of the PAM gate
    (IncidentAccessGateCore).

    [API_VERSION] is the build's protocol version. *)

From S2P Require Import Prelude Severity Json StateStore ResponseMode.
Open Scope string_scope.
Open Scope nat_scope.

(** * The daemon's answer *)

Inductive DaemonReadinessState := Initializing | ApplyingPolicies | Ready | DaemonDegraded | Stopping.
#[export] Instance DaemonReadinessState_eq_dec : EqDecision DaemonReadinessState.
Proof. solve_decision. Defined.

Definition daemonReadinessToken (state : DaemonReadinessState) : string :=
  match state with
  | Initializing => "INITIALIZING" | ApplyingPolicies => "APPLYING" | Ready => "READY"
  | DaemonDegraded => "DEGRADED" | Stopping => "STOPPING"
  end.

Definition ordinaryLoginAllowed (state : DaemonReadinessState) (persistentStateProven : bool)
    (severity : IncidentSeverity) (mode : IncidentResponseMode) : bool :=
  if bool_decide (mode ≠ ModeActive) then true
  else bool_decide (state = Ready) && persistentStateProven &&
       (bool_decide (severity = Unlocked) || bool_decide (severity = Soft)).

Record AccessGateStatus := mkAccess {
  ag_state : string;
  ag_mode : string;
  ag_severity : string;
  ag_modeProven : bool;
  ag_stateProven : bool;
  ag_provenance : string;
  ag_loginAllowed : bool
}.

Definition known (value : string) (tokens : list string) : bool := existsb (String.eqb value) tokens.

Definition computedLoginAllowed (s : AccessGateStatus) : bool :=
  ag_modeProven s &&
  (negb (String.eqb (ag_mode s) "ACTIVE") ||
   String.eqb (ag_state s) "READY" && ag_stateProven s &&
   (String.eqb (ag_severity s) "UNLOCKED" || String.eqb (ag_severity s) "SOFT")).

Definition validate_status (s : AccessGateStatus) : bool :=
  known (ag_state s) ["INITIALIZING"; "APPLYING"; "READY"; "DEGRADED"; "STOPPING"] &&
  known (ag_mode s) ["OFF"; "PASSIVE"; "ACTIVE"] && (ag_modeProven s || String.eqb (ag_mode s) "ACTIVE") &&
  known (ag_severity s) ["UNLOCKED"; "SOFT"; "STANDARD"; "HARD"; "ISOLATE"] &&
  known (ag_provenance s) ["PROVEN"; "ABSENT"; "INVALID_CONTENT"; "BROKEN"] &&
  Bool.eqb (ag_stateProven s) (String.eqb (ag_provenance s) "PROVEN") &&
  (ag_stateProven s || String.eqb (ag_severity s) "ISOLATE") &&
  Bool.eqb (ag_loginAllowed s) (computedLoginAllowed s).

Section wire.
Context (API_VERSION : Z).

Definition access_members (message : string) (s : AccessGateStatus) : list (string * json) :=
  [("api_version", JInteger API_VERSION); ("ok", JBool true); ("message", JString message);
   ("daemon_state", JString (ag_state s)); ("response_mode", JString (ag_mode s));
   ("response_mode_proven", JBool (ag_modeProven s)); ("severity", JString (ag_severity s));
   ("persistent_state_proven", JBool (ag_stateProven s)); ("persistent_provenance", JString (ag_provenance s));
   ("ordinary_login_allowed", JBool (ag_loginAllowed s))].

Definition serializeAccessGateStatus (s : AccessGateStatus) : json :=
  JObject (access_members "incident access gate status" s).

(** [accessFields]: [None] stands for false and for a [json::exception]. *)
Definition accessFields (value : json) : option AccessGateStatus :=
  version ← integer_at "api_version" value;
  okay ← bool_at "ok" value;
  message ← string_at "message" value;
  if negb (bool_decide (version = API_VERSION)) || negb okay || (4096 <? Z.of_nat (String.length message))%Z then None
  else
    modeProven ← bool_at "response_mode_proven" value;
    stateProven ← bool_at "persistent_state_proven" value;
    loginAllowed ← bool_at "ordinary_login_allowed" value;
    state ← string_at "daemon_state" value;
    mode ← string_at "response_mode" value;
    severity ← string_at "severity" value;
    provenance ← string_at "persistent_provenance" value;
    let s := mkAccess state mode severity modeProven stateProven provenance loginAllowed in
    if validate_status s then Some s else None.

Definition parseAccessGateStatus (value : json) : option AccessGateStatus :=
  if object_of_size 10 value then accessFields value else None.

(** * The answer the PAM gate waits for *)

Record IncidentAccessReply := mkReply { reply_allowed : bool; reply_diagnostic : string }.

(** [queryPath]: the response of the socket, or the transport's error. *)
Definition queryPath (response : string + json) : IncidentAccessReply :=
  match response with
  | inl error => mkReply false error
  | inr value =>
      match parseAccessGateStatus value with
      | None => mkReply false "invalid/inconsistent access gate response"
      | Some status =>
          mkReply (ag_loginAllowed status) (if ag_loginAllowed status then "access allowed" else "incident access denied")
      end
  end.
End wire.

(** [currentAccessStatus]: the answer from the readiness of the daemon, the
    response mode and the state file as [IncidentController::status] gives them. *)
Definition currentAccessStatus (readiness : DaemonReadinessState) (mode : IncidentResponseModeResult) (state : ReadResult)
  : AccessGateStatus :=
  let stateProven := bool_decide (provenance state = PProven) in
  let severity := if stateProven then severity state else Isolate in
  let s := mkAccess (daemonReadinessToken readiness) (incidentResponseModeToken (response_mode mode))
    (match incidentSeverityToken severity with Val t => t | Exn _ => "" end)
    (mode_proven mode) stateProven (incidentProvenanceToken (provenance state)) false in
  mkAccess (ag_state s) (ag_mode s) (ag_severity s) (ag_modeProven s) (ag_stateProven s) (ag_provenance s)
    (computedLoginAllowed s).

(** * The decision of the gate *)

Inductive AccessGateDisposition := Neutral | Pass | Deny.
#[export] Instance AccessGateDisposition_eq_dec : EqDecision AccessGateDisposition.
Proof. solve_decision. Defined.

Record PamAccessContext := mkContext { ctx_user : string; ctx_service : string; ctx_remoteHost : string }.
Record PamUserIdentity := mkPamUser { pam_canonicalName : string; pam_uid : Z; pam_primaryGroup : Z }.
Record IncidentAccessGateConfig := mkGateConfig {
  controlledServices : list string;
  trustedLocalRootServices : list string;
  recoveryGroup : string
}.

(** The injected dependencies; each returns what its output parameter holds
    when it returns true. *)
Record AccessGateDependencies := mkDependencies {
  resolveIdentity : string → option PamUserIdentity;
  recoveryEnabled : bool;
  groupMembership : PamUserIdentity → string → option bool;
  requestDaemon : IncidentAccessReply;
  resolveMode : option IncidentResponseModeResult
}.

Definition in_services (services : list string) (service : string) : bool := existsb (String.eqb service) services.

Definition decideIncidentAccess (context : PamAccessContext) (config : IncidentAccessGateConfig)
    (dependencies : AccessGateDependencies) : AccessGateDisposition :=
  let mode := default default_mode (resolveMode dependencies) in
  if bool_decide (response_mode mode ≠ ModeActive) then Neutral
  else if negb (in_services (controlledServices config) (ctx_service context)) then Neutral
  else
    let identity :=
      if String.eqb (ctx_user context) "" then None else resolveIdentity dependencies (ctx_user context) in
    let local_root :=
      match identity with
      | Some id => bool_decide (pam_uid id = 0%Z) && String.eqb (ctx_remoteHost context) "" &&
                   in_services (trustedLocalRootServices config) (ctx_service context)
      | None => false
      end in
    if local_root then Pass
    else
      let recovery :=
        match identity with
        | Some id => recoveryEnabled dependencies &&
                     match groupMembership dependencies id (recoveryGroup config) with Some m => m | None => false end
        | None => false
        end in
      if recovery then Pass
      else if reply_allowed (requestDaemon dependencies) then Pass else Deny.

(** * The prelogin status *)

Record PreLoginStatus := mkPreLogin {
  pl_access : AccessGateStatus;
  pl_started : bool;
  pl_completed : bool;
  pl_applyOk : bool;
  pl_lifecycleCompleted : bool;
  pl_diagnostic : string;
  pl_bootId : string;
  pl_daemonPid : Z
}.

Definition ipc_validBootId (value : string) : bool :=
  hyphenated (λ c, char_in "0" "9" c || char_in "a" "f" c) value.

Section prelogin.
Context (API_VERSION : Z).

Definition serializePreLoginStatus (s : PreLoginStatus) : json :=
  JObject (access_members API_VERSION "prelogin status" (pl_access s) ++
    [("startup_apply_started", JBool (pl_started s)); ("startup_apply_completed", JBool (pl_completed s));
     ("startup_apply_ok", JBool (pl_applyOk s)); ("startup_lifecycle_completed", JBool (pl_lifecycleCompleted s));
     ("diagnostic", JString (String.substring 0 4096 (pl_diagnostic s))); ("boot_id", JString (pl_bootId s));
     ("daemon_pid", JInteger (pl_daemonPid s))])%list.

(** The consistency conditions of [parsePreLoginStatus]. *)
Definition prelogin_consistent (s : PreLoginStatus) : bool :=
  ipc_validBootId (pl_bootId s) && (Z.of_nat (String.length (pl_diagnostic s)) <=? 4096)%Z &&
  negb (contains nul (pl_diagnostic s)) && negb (pl_completed s && negb (pl_started s)) &&
  negb (pl_applyOk s && negb (pl_completed s)) && negb (pl_lifecycleCompleted s && negb (pl_completed s)) &&
  negb (String.eqb (ag_state (pl_access s)) "READY" && negb (pl_lifecycleCompleted s)).

Definition parsePreLoginStatus (value : json) : option PreLoginStatus :=
  if negb (object_of_size 17 value) then None
  else
    access ← accessFields API_VERSION value;
    started ← bool_at "startup_apply_started" value;
    completed ← bool_at "startup_apply_completed" value;
    applyOk ← bool_at "startup_apply_ok" value;
    lifecycleCompleted ← bool_at "startup_lifecycle_completed" value;
    diagnostic ← string_at "diagnostic" value;
    bootId ← string_at "boot_id" value;
    pid ← integer_at "daemon_pid" value;
    if (pid <=? 0)%Z || (2147483647 <? pid)%Z then None
    else
      let s := mkPreLogin access started completed applyOk lifecycleCompleted diagnostic bootId pid in
      if prelogin_consistent s then Some s else None.
End prelogin.

Definition mayAutoHandoff (s : PreLoginStatus) (boot : string) : bool :=
  validate_status (pl_access s) && ipc_validBootId boot && String.eqb (pl_bootId s) boot &&
  (0 <? pl_daemonPid s)%Z && pl_started s && pl_completed s && pl_applyOk s && pl_lifecycleCompleted s &&
  ag_modeProven (pl_access s) && String.eqb (ag_state (pl_access s)) "READY" && ag_loginAllowed (pl_access s).

(** * Lemmas *)

Lemma known_spec value tokens : known value tokens = true ↔ value ∈ tokens.
Proof.
  unfold known. rewrite existsb_exists. split.
  - intros (t & Hin & Heq). apply String.eqb_eq in Heq as ->. by apply list_elem_of_In.
  - intros Hin. exists value. rewrite String.eqb_refl. split; [by apply list_elem_of_In|done].
Qed.

Lemma current_status_valid readiness mode state :
  mode_proven mode = true ∨ response_mode mode = ModeActive → validate_status (currentAccessStatus readiness mode state) = true.
Proof.
  intros Hmode. unfold validate_status, currentAccessStatus.
  destruct readiness, (response_mode mode), (mode_proven mode), (provenance state), (severity state), Hmode; first [discriminate | vm_compute; reflexivity].
Qed.

#[local] Arguments validate_status : simpl never.

Lemma access_fields_members API_VERSION message rest s :
  validate_status s = true → (Z.of_nat (String.length message) ≤ 4096)%Z →
  accessFields API_VERSION (JObject (access_members API_VERSION message s ++ rest)%list) = Some s.
Proof.
  intros Hv Hm. unfold accessFields. cbn. rewrite bool_decide_true by done. cbn.
  destruct (Z.ltb_spec 4096 (Z.of_nat (String.length message))); [lia|]. destruct s as [st md sv mp sp pv la].
  cbn [ag_state ag_mode ag_severity ag_modeProven ag_stateProven ag_provenance ag_loginAllowed]. by rewrite Hv.
Qed.

Lemma computed_login_allowed readiness mode state :
  ag_loginAllowed (currentAccessStatus readiness mode state) =
  mode_proven mode && ordinaryLoginAllowed readiness (bool_decide (provenance state = PProven))
    (severity state) (response_mode mode).
Proof.
  unfold currentAccessStatus, ordinaryLoginAllowed. simpl.
  destruct readiness, (response_mode mode), (mode_proven mode), (provenance state), (severity state); vm_compute; reflexivity.
Qed.

Lemma fields_valid API_VERSION value s : accessFields API_VERSION value = Some s → validate_status s = true.
Proof.
  unfold accessFields. intros Hs. inv_chain Hs. by injection Hs as <-.
Qed.

(** * Properties *)

(** The PAM gate opens exactly for the cases it names. While the response
    mode is ACTIVE and the service is controlled, access passes if and only if
    the user is a proven local root on a trusted local service, or recovery is
    enabled and the proven user is a member of the recovery group, or the
    daemon allows ordinary logins; otherwise it is denied. It is neutral
    exactly when the mode is not ACTIVE or the service is not controlled. *)
Theorem gate_decision_exact context config dependencies :
  let mode := default default_mode (resolveMode dependencies) in
  let active := response_mode mode = ModeActive ∧ ctx_service context ∈ controlledServices config in
  let identity id := ctx_user context ≠ "" ∧ resolveIdentity dependencies (ctx_user context) = Some id in
  let passes :=
    (∃ id, identity id ∧ pam_uid id = 0%Z ∧ ctx_remoteHost context = "" ∧
       ctx_service context ∈ trustedLocalRootServices config) ∨
    (∃ id, identity id ∧ recoveryEnabled dependencies = true ∧
       groupMembership dependencies id (recoveryGroup config) = Some true) ∨
    reply_allowed (requestDaemon dependencies) = true in
  (decideIncidentAccess context config dependencies = Neutral ↔ ¬ active) ∧
  (decideIncidentAccess context config dependencies = Pass ↔ active ∧ passes) ∧
  (decideIncidentAccess context config dependencies = Deny ↔ active ∧ ¬ passes).
Proof.
  intros mode active identity passes.
  assert (∀ l s, in_services l s = true ↔ s ∈ l) as Hin by (intros l s; apply known_spec).
  set (out := decideIncidentAccess context config dependencies).
  assert (¬ active ∧ out = Neutral ∨ active ∧ passes ∧ out = Pass ∨ active ∧ ¬ passes ∧ out = Deny) as Hcases;
    [|clearbody out passes active; clear -Hcases; intuition congruence].
  unfold out, decideIncidentAccess. fold mode. case_bool_decide as Hm; [left; by split; [intros [? _]|]|].
  destruct (in_services (controlledServices config) _) eqn:Hs; cycle 1.
  { left. split; [|done]. intros [_ Hc]. apply Hin in Hc. congruence. }
  right. apply Hin in Hs. assert (active) by (split; [done|done]).
  set (id := if String.eqb _ "" then None else _).
  assert (∀ i, identity i ↔ id = Some i) as Hid.
  { intros i. unfold identity, id. destruct (String.eqb_spec (ctx_user context) ""); naive_solver. }
  assert (passes ↔ (∃ i, id = Some i ∧ pam_uid i = 0%Z ∧ ctx_remoteHost context = "" ∧
     in_services (trustedLocalRootServices config) (ctx_service context) = true) ∨
     (∃ i, id = Some i ∧ recoveryEnabled dependencies = true ∧ groupMembership dependencies i (recoveryGroup config) = Some true) ∨
     reply_allowed (requestDaemon dependencies) = true) as Hp.
  { unfold passes. setoid_rewrite Hid. by setoid_rewrite Hin. }
  rewrite Hp. clearbody id passes. clear Hp Hid Hm Hs. destruct id as [i|]; cycle 1.
  { destruct (reply_allowed _); naive_solver. }
  destruct (bool_decide (pam_uid i = 0%Z) && _ && _) eqn:Hroot.
  { apply andb_true_iff in Hroot as [[Hu%bool_decide_eq_true Hr%String.eqb_eq]%andb_true_iff Ht]. left. split_and!; try done. left. eauto. }
  assert (¬ (pam_uid i = 0%Z ∧ ctx_remoteHost context = "" ∧
    in_services (trustedLocalRootServices config) (ctx_service context) = true)) as Hnroot.
  { intros (Hu & Hr & Ht). by rewrite Hu, Hr, Ht in Hroot. }
  destruct (recoveryEnabled dependencies) eqn:Hrec, (groupMembership dependencies i _) as [[]|] eqn:Hg, (reply_allowed _); simpl; naive_solver.
Qed.

(** The daemon's answer arrives as it was given, and nothing else opens the
    gate: for every readiness, response mode and state of the incident file the
    client accepts the daemon's response and allows the login exactly when the
    mode is proven and the daemon's rule allows it; and any response whatever
    that the client takes as an allowance says that the mode is proven and
    either not ACTIVE, or the daemon is READY with a proven severity UNLOCKED
    or SOFT. *)
Theorem access_answer_exact API_VERSION readiness mode state :
  mode_proven mode = true ∨ response_mode mode = ModeActive →
  reply_allowed (queryPath API_VERSION (inr (serializeAccessGateStatus API_VERSION (currentAccessStatus readiness mode state)))) =
    (mode_proven mode && ordinaryLoginAllowed readiness (bool_decide (provenance state = PProven))
       (severity state) (response_mode mode)) ∧
  ∀ response, reply_allowed (queryPath API_VERSION response) = true →
    ∃ value s, response = inr value ∧ parseAccessGateStatus API_VERSION value = Some s ∧ ag_modeProven s = true ∧
      (ag_mode s ≠ "ACTIVE" ∨
       ag_state s = "READY" ∧ ag_provenance s = "PROVEN" ∧ (ag_severity s = "UNLOCKED" ∨ ag_severity s = "SOFT")).
Proof.
  intros Hmode. split.
  - unfold queryPath, parseAccessGateStatus, serializeAccessGateStatus.
    pose proof (access_fields_members API_VERSION "incident access gate status" [] _
      (current_status_valid readiness mode state Hmode) ltac:(by vm_compute)) as Hf.
    rewrite app_nil_r in Hf. simpl object_of_size. rewrite Hf. simpl reply_allowed. apply computed_login_allowed.
  - intros [error|value]; [done|]. unfold queryPath. destruct (parseAccessGateStatus API_VERSION value) as [s|] eqn:Hp; [|done].
    simpl. intros Hallowed. exists value, s. split; [done|]. split; [done|]. unfold parseAccessGateStatus in Hp.
    destruct (object_of_size 10 value); [|done]. apply fields_valid in Hp. unfold validate_status in Hp.
    apply andb_true_iff in Hp as [[Hp _]%andb_true_iff Hcomp]. apply andb_true_iff in Hp as [_ Hprov].
    rewrite Hallowed in Hcomp. apply Bool.eqb_prop in Hcomp, Hprov. symmetry in Hcomp. unfold computedLoginAllowed in Hcomp.
    apply andb_true_iff in Hcomp as [Hmp Hrest]. split; [done|]. apply orb_true_iff in Hrest as [Hm|Hready].
    + left. destruct (String.eqb_spec (ag_mode s) "ACTIVE"); [done|done].
    + right. apply andb_true_iff in Hready as [[Hst%String.eqb_eq Hsp]%andb_true_iff Hsev%orb_true_iff].
      rewrite Hsp in Hprov. symmetry in Hprov. apply String.eqb_eq in Hprov. split_and!; [done|done|].
      destruct Hsev as [Hs%String.eqb_eq|Hs%String.eqb_eq]; auto.
Qed.

(** The prelogin status arrives as it was given, too. *)
Lemma prelogin_roundtrip API_VERSION s :
  validate_status (pl_access s) = true → prelogin_consistent s = true → (0 < pl_daemonPid s ≤ 2147483647)%Z →
  parsePreLoginStatus API_VERSION (serializePreLoginStatus API_VERSION s) = Some s.
Proof.
  intros Hv Hc Hpid. unfold parsePreLoginStatus, serializePreLoginStatus. simpl object_of_size. cbn [negb].
  rewrite access_fields_members by (done || by vm_compute). simpl.
  assert (String.substring 0 4096 (pl_diagnostic s) = pl_diagnostic s) as Hd.
  { apply substring_front_all. unfold prelogin_consistent in Hc. repeat (apply andb_true_iff in Hc as [Hc ?]). lia. }
  rewrite Hd. destruct (Z.leb_spec (pl_daemonPid s) 0); [lia|]. destruct (Z.ltb_spec 2147483647 (pl_daemonPid s)); [lia|].
  cbn [orb]. destruct s. cbn [pl_access pl_started pl_completed pl_applyOk pl_lifecycleCompleted pl_diagnostic pl_bootId pl_daemonPid] in *.
  by rewrite Hc.
Qed.

(** * Witnesses *)

Lemma access_answer_exact_witness :
  let mode := mkMode ModeActive true "configured ACTIVE" "ACTIVE" in
  reply_allowed (queryPath 3 (inr (serializeAccessGateStatus 3 (currentAccessStatus Ready mode (mkStateRead PProven Soft None))))) = true.
Proof.
  intros mode. rewrite (proj1 (access_answer_exact 3 Ready mode (mkStateRead PProven Soft None) (or_introl eq_refl))).
  vm_compute. reflexivity.
Defined.
