(* ===== verification/TargetStore.v ===== *)
(** The durable list of users an incident obliges the daemon to contain
    (fic/src/incident/IncidentSessionTargetStore): a JSON document beside the
    state file, bound to a kernel boot and to an incident generation.

    The text of the JSON library is a parameter ([JsonText]); names are taken
    to be valid UTF-8, on which its [dump] does not throw. Diagnostic texts are
    left out. *)

From S2P Require Import Prelude Severity Json FileModel AtomicWriter AtomicFacts SecureRead StateStore.
Open Scope string_scope.
Open Scope nat_scope.
Open Scope file_scope.

(** * The JSON library *)

(** Values the library prints and reads back as they are: no floating-point
    numbers, signed numbers only when they are negative, and members sorted by
    key, each key once. *)
Fixpoint plain_json (j : json) : Prop :=
  match j with
  | JNull | JBool _ | JString _ => True
  | JUnsigned n => (0 ≤ n < 2 ^ 64)%Z
  | JInteger z => (- 2 ^ 63 ≤ z < 0)%Z
  | JFloat _ => False
  | JArray items => foldr (λ i P, plain_json i ∧ P) True items
  | JObject members => StronglySorted clt (fst <$> members) ∧ foldr (λ m P, plain_json m.2 ∧ P) True members
  end.

Class JsonText := {
  json_dump : json → string;
  json_parse : string → option json
}.

Class JsonTextLaws `{JsonText} := {
  json_roundtrip : ∀ j, plain_json j → json_parse (json_dump j) = Some j
}.

(** * Data *)

Inductive RuntimeObligation := Pending | Discharged.
#[export] Instance RuntimeObligation_eq_dec : EqDecision RuntimeObligation.
Proof. solve_decision. Defined.

Record IncidentSessionTarget := mkSessionTarget {
  uid : Z;
  canonicalName : string;
  sessionId : string;
  sessionStartTimestamp : Z;
  sessionClass : string;
  runtimeObligation : RuntimeObligation
}.
#[export] Instance IncidentSessionTarget_eq_dec : EqDecision IncidentSessionTarget.
Proof. solve_decision. Defined.

Inductive TargetProvenance := TProven | TAbsent | TUnprovable.
#[export] Instance TargetProvenance_eq_dec : EqDecision TargetProvenance.
Proof. solve_decision. Defined.

Record TargetReadResult := mkTargetRead {
  tr_provenance : TargetProvenance;
  tr_bootId : string;
  tr_generation : Z;
  tr_targets : list IncidentSessionTarget;
  tr_provenState : option AtomicTargetState
}.

Definition no_targets (p : TargetProvenance) : TargetReadResult := mkTargetRead p "" 0 [] None.

Definition kStoreMaxBytes : Z := (64 * 1024)%Z.
Definition kMaxTargets : nat := 256.
Definition kStoreSchemaVersion : Z := 2%Z.
Definition max_uid : Z := (2 ^ 32 - 1)%Z.

Definition validBootId (value : string) : bool :=
  hyphenated (λ c, char_in "0" "9" c || char_in "a" "f" c || char_in "A" "F" c) value.

Definition selectableClass (value : string) : bool :=
  String.eqb value "user" || String.eqb value "user-early" || String.eqb value "user-light" ||
  String.eqb value "user-early-light".

(** The obligation is one of the two by its type. *)
Definition validTarget (target : IncidentSessionTarget) : bool :=
  negb (bool_decide (uid target = 0%Z)) && negb (String.eqb (canonicalName target) "") &&
  (String.length (canonicalName target) <=? 256) && negb (String.eqb (sessionId target) "") &&
  (String.length (sessionId target) <=? 256) && negb (bool_decide (sessionStartTimestamp target = 0%Z)) &&
  selectableClass (sessionClass target).

(** The loop over [seen]. *)
Fixpoint no_duplicate_uid (seen : list Z) (targets : list IncidentSessionTarget) : bool :=
  match targets with
  | [] => true
  | t :: rest => negb (bool_decide (uid t ∈ seen)) && no_duplicate_uid (seen ++ [uid t])%list rest
  end.

Fixpoint valid_targets (seen : list Z) (targets : list IncidentSessionTarget) : bool :=
  match targets with
  | [] => true
  | t :: rest => validTarget t && negb (bool_decide (uid t ∈ seen)) && valid_targets (seen ++ [uid t])%list rest
  end.

Definition validWrite (bootId : string) (generation : Z) (targets : list IncidentSessionTarget) : bool :=
  validBootId bootId && negb (bool_decide (generation = 0%Z)) && (length targets <=? kMaxTargets) &&
  valid_targets [] targets.

(** * The document *)

Definition obligation_text (o : RuntimeObligation) : string :=
  match o with Discharged => "discharged" | Pending => "pending" end.

Definition target_json (target : IncidentSessionTarget) : json :=
  JObject [("name", JString (canonicalName target));
           ("runtime_obligation", JString (obligation_text (runtimeObligation target)));
           ("session_class", JString (sessionClass target)); ("session_id", JString (sessionId target));
           ("session_start", JUnsigned (sessionStartTimestamp target)); ("uid", JUnsigned (uid target))].

Definition document (bootId : string) (generation : Z) (targets : list IncidentSessionTarget) : json :=
  JObject [("boot_id", JString bootId); ("incident_generation", JUnsigned generation);
           ("lifecycle_marker", JString "fenced_before_severity"); ("schema_version", JUnsigned kStoreSchemaVersion);
           ("targets", JArray (target_json <$> targets))].

(** One item of the array; every failed test makes the parse fail. *)
Definition target_of_json (item : json) : option IncidentSessionTarget :=
  if negb (object_of_size 6 item) then None
  else
    u ← unsigned_at "uid" item;
    name ← string_at "name" item;
    session ← string_at "session_id" item;
    start ← unsigned_at "session_start" item;
    cls ← string_at "session_class" item;
    obligation ← string_at "runtime_obligation" item;
    if bool_decide (u = 0%Z) || (max_uid <? u)%Z || String.eqb name "" || (256 <? String.length name) ||
       String.eqb session "" || (256 <? String.length session) || bool_decide (start = 0%Z) ||
       negb (selectableClass cls) || negb (String.eqb obligation "pending" || String.eqb obligation "discharged")
    then None
    else Some (mkSessionTarget u name session start cls
                 (if String.eqb obligation "discharged" then Discharged else Pending)).

Definition targets_of_document (doc : json) : option (string * Z * list IncidentSessionTarget) :=
  if negb (object_of_size 5 doc) then None
  else
    schema ← unsigned_at "schema_version" doc;
    marker ← string_at "lifecycle_marker" doc;
    boot ← string_at "boot_id" doc;
    generation ← unsigned_at "incident_generation" doc;
    items ← array_at "targets" doc;
    if negb (bool_decide (schema = kStoreSchemaVersion)) || negb (String.eqb marker "fenced_before_severity") ||
       bool_decide (generation = 0%Z) || (kMaxTargets <? length items) || negb (validBootId boot)
    then None
    else
      targets ← mapM target_of_json items;
      if no_duplicate_uid [] targets then Some (boot, generation, targets) else None.

(** The ranges of the C++ types. *)
Definition in_range (target : IncidentSessionTarget) : Prop :=
  (0 ≤ uid target ≤ max_uid)%Z ∧ (0 ≤ sessionStartTimestamp target < 2 ^ 64)%Z.

Section text.
Context `{JsonText}.

Definition serialize_targets (bootId : string) (generation : Z) (targets : list IncidentSessionTarget) : string :=
  json_dump (document bootId generation targets).

Definition parse_targets (text : string) : option (string * Z * list IncidentSessionTarget) :=
  if (kStoreMaxBytes <? Z.of_nat (String.length text))%Z then None
  else doc ← json_parse text; targets_of_document doc.
End text.

(** * The store *)

Section store.
Context `{StateFiles} `{JsonText} (path : string) (fic_group : Z).

Definition target_expectation : SecureStateFileExpectation :=
  mkExpectation (Some 0%Z) (Some fic_group) 416 0 kStoreMaxBytes true 1512 (Some 0%Z) (Some fic_group).

Definition target_read : M TargetReadResult :=
  let* r := sf_read path target_expectation kStoreMaxBytes in
  mret (match read_status r with
        | Missing => no_targets TAbsent
        | Unprovable => no_targets TUnprovable
        | Proven =>
            match parse_targets (read_content r) with
            | None => no_targets TUnprovable
            | Some (boot, generation, targets) => mkTargetRead TProven boot generation targets (Some (targetState r))
            end
        end).

(** What follows the write in [write] and [writeIfCurrent]: installed and
    confirmed, or confirmed by a second barrier. *)
Definition written_durably (r : bool * AtomicWriteResult) : M bool :=
  let '(written, result) := r in
  if negb (installed result) then mret false
  else if written && durabilityConfirmed result then mret true
  else match installedTargetState result with
       | Some state => sf_durable path state
       | None => mret false
       end.

Definition target_write (bootId : string) (generation : Z) (targets : list IncidentSessionTarget) : M bool :=
  if negb (validWrite bootId generation targets) then mret false
  else
    let text := serialize_targets bootId generation targets in
    if (kStoreMaxBytes <? Z.of_nat (String.length text))%Z then mret false
    else
      let* r := sf_write path text
        (mkOptions true true false EnforceProvided (Some 416%Z) (Some 0%Z) (exp_group target_expectation) None None None) in
      written_durably r.

Definition writeIfCurrent (expected : TargetReadResult) (bootId : string) (generation : Z)
    (targets : list IncidentSessionTarget) : M bool :=
  if bool_decide (tr_provenance expected = TUnprovable) ||
     (bool_decide (tr_provenance expected = TProven) && bool_decide (tr_provenState expected = None))
  then mret false
  else if negb (validWrite bootId generation targets) then mret false
  else
    let text := serialize_targets bootId generation targets in
    if (kStoreMaxBytes <? Z.of_nat (String.length text))%Z then mret false
    else
      let create := bool_decide (tr_provenance expected = TAbsent) in
      let* r := sf_write path text
        (mkOptions create true create EnforceProvided (Some 416%Z) (Some 0%Z) (exp_group target_expectation) None
           (tr_provenState expected) None) in
      written_durably r.
End store.

(** * The document is read back as it was written *)

Ltac split_bools := repeat match goal with
  | H : _ && _ = true |- _ => apply andb_true_iff in H as [? ?]
  | H : _ || _ = false |- _ => apply orb_false_iff in H as [? ?]
  | H : negb _ = true |- _ => apply negb_true_iff in H
  | H : negb _ = false |- _ => apply negb_false_iff in H
  | H : (_ <=? _) = true |- _ => apply Nat.leb_le in H
  | H : (_ <? _) = false |- _ => apply Nat.ltb_ge in H
  | H : (_ <? _)%Z = false |- _ => apply Z.ltb_ge in H
  end.
Ltac use_bools := repeat match goal with
  | H : ?b = true |- context [?b] => rewrite H
  | H : ?b = false |- context [?b] => rewrite H
  | H : ?m ≤ ?n |- context [?n <? ?m] => rewrite (proj2 (Nat.ltb_ge n m) H)
  | H : ?m ≤ ?n |- context [?m <=? ?n] => rewrite (proj2 (Nat.leb_le m n) H)
  | H : (?m ≤ ?n)%Z |- context [(?n <? ?m)%Z] => rewrite (proj2 (Z.ltb_ge n m) H)
  end; simpl.

Lemma target_json_roundtrip t : validTarget t = true → in_range t → target_of_json (target_json t) = Some t.
Proof.
  destruct t as [u name session start cls o]. unfold validTarget, in_range, target_of_json. simpl. intros Hv [Hu _].
  destruct Hu as [_ Hu]. split_bools. use_bools. by destruct o.
Qed.

Lemma target_of_json_valid item t : target_of_json item = Some t → validTarget t = true ∧ (uid t ≤ max_uid)%Z.
Proof.
  unfold target_of_json. intros Ht. inv_chain Ht. injection Ht as <-.
  split_bools. unfold validTarget. simpl.
  use_bools. done.
Qed.

Lemma valid_no_duplicate seen targets : valid_targets seen targets = true ↔
  Forall (λ t, validTarget t = true) targets ∧ no_duplicate_uid seen targets = true.
Proof.
  revert seen. induction targets as [|t targets IH]; intros seen; simpl; [split; [split; [constructor|done]|done]|].
  rewrite !andb_true_iff, IH, Forall_cons. tauto.
Qed.

Lemma mapM_target_json targets :
  Forall (λ t, validTarget t = true) targets → Forall in_range targets →
  mapM target_of_json (target_json <$> targets) = Some targets.
Proof.
  intros Hv Hr. apply mapM_Some. rewrite Forall2_fmap_l. apply Forall_Forall2_diag.
  rewrite Forall_forall in *. intros t Ht. apply target_json_roundtrip; auto.
Qed.

Lemma document_roundtrip boot generation targets :
  validWrite boot generation targets = true → Forall in_range targets →
  targets_of_document (document boot generation targets) = Some (boot, generation, targets).
Proof.
  unfold validWrite, targets_of_document. intros Hv Hr. apply andb_true_iff in Hv as [Hv [Hval Hdup]%valid_no_duplicate]. split_bools.
  cbn [negb object_of_size document]. rewrite bool_decide_true by done. cbn [negb].
  cbv [unsigned_at string_at array_at find member as_unsigned as_string as_array document]. simpl.
  rewrite length_fmap. use_bools. rewrite mapM_target_json by done. simpl. by rewrite Hdup.
Qed.

Lemma document_valid doc boot generation targets :
  targets_of_document doc = Some (boot, generation, targets) → validWrite boot generation targets = true.
Proof.
  unfold targets_of_document. intros Hd. inv_chain Hd. injection Hd as -> -> ->.
  match goal with H : mapM _ _ = Some _ |- _ => apply mapM_Some in H; rename H into Hm end.
  rewrite (Forall2_length _ _ _ Hm) in *. split_bools. unfold validWrite. use_bools.
  apply valid_no_duplicate. split; [|done]. clear -Hm.
  induction Hm as [|item t items ts Ht Hm IH]; constructor; [by eapply target_of_json_valid|done].
Qed.

Lemma targets_plain targets : Forall in_range targets → plain_json (JArray (target_json <$> targets)).
Proof.
  intros Hr. induction Hr as [|t targets [Hu Hs] Hr IH]; [done|]. split; [|exact IH]. unfold max_uid in Hu. simpl.
  split; [repeat constructor|]. split_and!; try done; lia.
Qed.

Lemma document_plain boot generation targets :
  (0 ≤ generation < 2 ^ 64)%Z → Forall in_range targets → plain_json (document boot generation targets).
Proof.
  intros Hg Hr. split; [repeat constructor|]. split; [done|]. split; [exact Hg|]. split; [done|]. split; [done|].
  split; [by apply targets_plain|done].
Qed.

Section text_facts.
Context `{JsonTextLaws}.

Lemma targets_roundtrip boot generation targets :
  validWrite boot generation targets = true → Forall in_range targets → (0 ≤ generation < 2 ^ 64)%Z →
  (Z.of_nat (String.length (serialize_targets boot generation targets)) ≤ kStoreMaxBytes)%Z →
  parse_targets (serialize_targets boot generation targets) = Some (boot, generation, targets).
Proof.
  intros Hv Hr Hg Hs. unfold parse_targets. rewrite (proj2 (Z.ltb_ge _ _) Hs). unfold serialize_targets.
  rewrite json_roundtrip by (by apply document_plain). simpl. by apply document_roundtrip.
Qed.
End text_facts.

Lemma parse_targets_valid `{JsonText} text boot generation targets :
  parse_targets text = Some (boot, generation, targets) → validWrite boot generation targets = true.
Proof.
  unfold parse_targets. destruct (_ <? _)%Z; [done|]. destruct (json_parse text) as [doc|]; [|done]. simpl. apply document_valid.
Qed.

(** * The store, with nobody else acting *)

(** The path holds this text, now and after every crash. *)
Definition holds (d : Disk) (path text : string) : Prop :=
  ∃ n i, lookup_path d path = Some (n, i) ∧ i_content i = text ∧ i_saved i = Some text ∧
    ∀ e, crash_entry d path e → e = Some n.

Lemma holds_new_file d0 d path text options fd j :
  new_file d0 d path text options fd j → d_stale d = ∅ → holds d path text.
Proof.
  intros [Hsw (i & target & Hs & Hwant)] Hst. unfold wanted, is_file in Hwant.
  destruct (wanted_metadata _ _ _ _) as [[u g] m]. destruct Hwant as (_ & Hc & Hsv & _), Hs as (_ & Sc & Ss & _).
  exists fd, j. split_and!; [|congruence|congruence|].
  - apply lookup_path_Some. split; [apply (sw_name _ _ _ _ _ Hsw)|apply (sw_node _ _ _ _ _ Hsw)].
  - intros e [->|Hin]; [apply (sw_name _ _ _ _ _ Hsw)|]. rewrite Hst, lookup_empty in Hin. inversion Hin.
Qed.

Section store_facts.
Context `{StateFilesLaws} `{JsonText} (path : string) (fic_group : Z).
Hypothesis path_visible : visible path.

Lemma written_durably_runs d0 d text options r : wf d0 → write_post d0 path text options r d →
  runs (written_durably path r) d (λ b d', b = true → holds d' path text ∧
    ∀ s, expectedTargetState options = Some s → object_at d0 path s).
Proof.
  intros Hw Hpost. destruct r as [written result]. unfold write_post in Hpost. simpl in *.
  destruct (installed result); simpl; [|by apply runs_ret]. destruct Hpost as (-> & (fd & j & Hnew & _ & Hst) & Hdur & Hexp).
  destruct (durabilityConfirmed result); simpl.
  - apply runs_ret. intros _. split; [|done]. eapply holds_new_file; [done|auto].
  - rewrite Hst. eapply runs_mono; [apply law_durable|]. intros b d' Hd' ->. destruct Hd' as [_ ->].
    split; [|done]. destruct Hnew as [Hsw Hrest]. eapply (holds_new_file d0); [|done]. split; [|done].
    by apply swapped_synced.
Qed.

Lemma writeIfCurrent_runs d expected boot generation targets : wf d →
  runs (writeIfCurrent path fic_group expected boot generation targets) d (λ b d', b = true →
    validWrite boot generation targets = true ∧
    (Z.of_nat (String.length (serialize_targets boot generation targets)) ≤ kStoreMaxBytes)%Z ∧
    holds d' path (serialize_targets boot generation targets) ∧
    tr_provenance expected ≠ TUnprovable ∧
    ∀ s, tr_provenState expected = Some s → object_at d path s).
Proof.
  intros Hw. unfold writeIfCurrent. destruct (bool_decide (tr_provenance expected = TUnprovable)) eqn:Hu; [by apply runs_ret|].
  destruct (_ && _); [by apply runs_ret|]. cbn [orb]. destruct (validWrite _ _ _) eqn:Hv; [|by apply runs_ret]. cbn [negb].
  destruct (Z.ltb_spec kStoreMaxBytes (Z.of_nat (String.length (serialize_targets boot generation targets)))); [by apply runs_ret|].
  eapply runs_bind; [by apply law_write|]. intros r d' Hpost.
  eapply runs_mono; [by eapply written_durably_runs|]. intros b d'' Hb ->. destruct (Hb eq_refl) as [Hh Hexp].
  split_and!; [done|lia|done| |done]. by apply bool_decide_eq_false in Hu.
Qed.

(** The other files of the directory are left alone. *)
Definition leaves_others (d d' : Disk) : Prop :=
  wf d' ∧ ∀ p, visible p → p ≠ path → (∀ s, may_be d' p s → may_be d p s) ∧ (settled d p → settled d' p).

Lemma swapped_settled d d' fd j p : wf d → swapped d d' path fd j → visible p → p ≠ path → settled d p → settled d' p.
Proof.
  intros Hw Hsw Hp Hne [He Hs]. pose proof (sw_others _ _ _ _ _ Hsw p Hp Hne) as Hn. split.
  - intros e Hc. destruct (sw_crash _ _ _ _ _ Hsw p e Hp Hc) as [[? _]|Hc0]; [done|]. rewrite Hn. by apply He.
  - intros n i. rewrite Hn. intros Hpn Hi. destruct (d_nodes d !! n) as [i0|] eqn:Hi0.
    + destruct (sw_nodes _ _ _ _ _ Hsw n i0 Hi0) as (k & Hk & _ & Hc & Hsv & _). rewrite Hk in Hi. injection Hi as <-.
      rewrite Hc, Hsv. by apply (Hs n).
    + by rewrite (sw_none _ _ _ _ _ Hsw n (wf_lookup _ _ _ Hw Hpn) Hi0) in Hi.
Qed.

Lemma synced_settled d p : settled d p → settled (synced d) p.
Proof. intros [He Hs]. split; [|exact Hs]. intros e [->|Hin]; [done|]. simpl in Hin. rewrite lookup_empty in Hin. inversion Hin. Qed.

Lemma write_post_others d d' text options r : wf d → write_post d path text options r d' → leaves_others d d'.
Proof.
  intros Hw Hpost. unfold write_post in Hpost.
  assert (∀ fd j, new_file d d' path text options fd j → leaves_others d d') as Hnew.
  { intros fd j [Hsw _]. split; [apply (sw_wf _ _ _ _ _ Hsw)|]. intros p Hp Hne. split; [|by eapply swapped_settled].
    intros s Hs. by destruct (swapped_may_at _ _ _ _ _ _ _ Hw Hsw Hp Hs) as [[? _]|?]. }
  destruct (installed r.2).
  - destruct Hpost as (_ & (fd & j & Hn & _) & _). by eapply Hnew.
  - destruct Hpost as (_ & _ & _ & [Ha|(_ & _ & fd & j & Hn)]); [|by eapply Hnew].
    split; [apply Ha|]. intros p Hp _. split; [intros s; by apply aside_may|by apply settled_aside].
Qed.

Lemma writeIfCurrent_others d expected boot generation targets : wf d →
  runs (writeIfCurrent path fic_group expected boot generation targets) d (λ _ d', leaves_others d d').
Proof.
  intros Hw. assert (leaves_others d d) as Hrefl by done. unfold writeIfCurrent. destruct (_ || _); [by apply runs_ret|].
  destruct (negb _); [by apply runs_ret|]. destruct (_ <? _)%Z; [by apply runs_ret|].
  eapply runs_bind; [by apply law_write|]. intros r d1 Hpost. pose proof (write_post_others _ _ _ _ _ Hw Hpost) as [Hw1 Hl1].
  destruct r as [written result]. unfold written_durably. destruct (negb _); [by apply runs_ret|].
  destruct (_ && _); [by apply runs_ret|]. destruct (installedTargetState result); [|by apply runs_ret].
  eapply runs_mono; [apply law_durable|]. intros [] d2 Hd2; cbv beta in Hd2; [destruct Hd2 as [_ ->]|by subst].
  split; [by apply synced_wf|]. intros p Hp Hne. destruct (Hl1 p Hp Hne) as [Hm Hset]. split.
  - intros s Hs. by apply Hm, synced_may.
  - intros Hs. by apply synced_settled, Hset.
Qed.

Lemma looks_target_read : looks (target_read path fic_group) (λ d r,
  match tr_provenance r with
  | TProven => ∃ n i, lookup_path d path = Some (n, i) ∧
      parse_targets (i_content i) = Some (tr_bootId r, tr_generation r, tr_targets r) ∧
      tr_provenState r = Some (target_of_stat (stat_of (d_dev d) n i) (i_content i))
  | TAbsent => lookup_path d path = None
  | TUnprovable => True
  end).
Proof.
  eapply looks_bind; [apply law_read|]. intros r d Hr. apply runs_ret. split; [done|]. unfold quiet_read in Hr.
  destruct (read_status r); [|done|done]. destruct Hr as (n & i & Hl & _ & ->). cbn [read_content targetState].
  destruct (parse_targets (i_content i)) as [[[boot generation] targets]|] eqn:Hp; simpl; [|done]. eauto.
Qed.
End store_facts.

(** * Properties *)

Section properties.
Context `{JsonTextLaws}.

(** The target document is strict and faithful: what the store accepts for
    writing (a valid boot id, a positive generation, at most 256 valid targets
    with different users, within the size bound) is read back exactly, and
    every content it accepts for reading is one it would have written. *)
Theorem target_document_exact :
  (∀ boot generation targets,
     validWrite boot generation targets = true → Forall in_range targets → (0 ≤ generation < 2 ^ 64)%Z →
     (Z.of_nat (String.length (serialize_targets boot generation targets)) ≤ kStoreMaxBytes)%Z →
     parse_targets (serialize_targets boot generation targets) = Some (boot, generation, targets)) ∧
  (∀ text boot generation targets,
     parse_targets text = Some (boot, generation, targets) → validWrite boot generation targets = true).
Proof. split; [intros; by apply targets_roundtrip|intros text boot generation targets; apply parse_targets_valid]. Qed.

(** A durable conditional write of the targets is what every later read
    proves: with nobody else acting and whichever system calls fail, when
    [writeIfCurrent] reports success, the predecessor it was given was still
    there, a crash brings back only the new document, and a read that is proven
    afterwards returns exactly the targets written. *)
Theorem targets_read_back path fic_group expected boot generation targets w :
  alone w → wf (w_disk w) → visible path → Forall in_range targets → (0 ≤ generation < 2 ^ 64)%Z →
  let r := writeIfCurrent path fic_group expected boot generation targets w in
  r.1 = true →
  (∀ s, tr_provenState expected = Some s → object_at (w_disk w) path s) ∧
  holds (w_disk r.2) path (serialize_targets boot generation targets) ∧
  let later := (target_read path fic_group r.2).1 in
  (tr_provenance later = TProven → tr_bootId later = boot ∧ tr_generation later = generation ∧ tr_targets later = targets) ∧
  tr_provenance later ≠ TAbsent.
Proof.
  intros Ha Hw Hp Hr Hg r Hdone.
  destruct ((writeIfCurrent_runs path fic_group Hp (w_disk w) expected boot generation targets Hw) w Ha eq_refl) as [Ha' Hpost].
  destruct (Hpost Hdone) as (Hv & Hsize & Hholds & _ & Hobj). split; [done|]. split; [done|]. fold r in Ha', Hholds.
  pose proof (runs_elim _ _ _ _ (looks_target_read path fic_group (w_disk r.2)) eq_refl Ha') as [_ Hread]. cbv beta in Hread.
  destruct Hholds as (n & i & Hl & Hc & _). split.
  - intros Hpr. rewrite Hpr in Hread. destruct Hread as (n' & i' & Hl' & Hparse & _). rewrite Hl in Hl'. injection Hl' as <- <-.
    rewrite Hc, targets_roundtrip in Hparse by done. by injection Hparse.
  - intros Hab. rewrite Hab in Hread. congruence.
Qed.
End properties.

(** * Witnesses *)

(** A text format that satisfies the laws: the bits of a tree encoding. *)
Fixpoint to_tree (j : json) : gen_tree (Z + string) :=
  match j with
  | JNull => GenNode 0 []
  | JBool b => GenNode (if b then 2 else 1) []
  | JUnsigned n => GenNode 3 [GenLeaf (inl n)]
  | JInteger z => GenNode 4 [GenLeaf (inl z)]
  | JFloat t => GenNode 5 [GenLeaf (inl t)]
  | JString s => GenNode 6 [GenLeaf (inr s)]
  | JArray items => GenNode 7 (map to_tree items)
  | JObject members => GenNode 8 (map (λ m, GenNode 9 [GenLeaf (inr m.1); to_tree m.2]) members)
  end.

Fixpoint of_tree (t : gen_tree (Z + string)) : json :=
  match t with
  | GenNode 1 _ => JBool false
  | GenNode 2 _ => JBool true
  | GenNode 3 [GenLeaf (inl n)] => JUnsigned n
  | GenNode 4 [GenLeaf (inl z)] => JInteger z
  | GenNode 5 [GenLeaf (inl t)] => JFloat t
  | GenNode 6 [GenLeaf (inr s)] => JString s
  | GenNode 7 items => JArray (map of_tree items)
  | GenNode 8 members =>
      JObject (map (λ m, match m with GenNode 9 [GenLeaf (inr k); v] => (k, of_tree v) | _ => ("", JNull) end) members)
  | _ => JNull
  end.

Lemma of_to_tree j : of_tree (to_tree j) = j.
Proof.
  revert j. fix IH 1. intros [|[]|n|z|t|s|items|members]; simpl; try reflexivity.
  - f_equal. induction items as [|item items IHl]; simpl; [done|]. by rewrite IH, IHl.
  - f_equal. induction members as [|[k v] members IHl]; simpl; [done|]. by rewrite IH, IHl.
Qed.

Fixpoint bits (p : positive) : string :=
  match p with xH => "" | xO p => String "0" (bits p) | xI p => String "1" (bits p) end.
Fixpoint unbits (s : string) : positive :=
  match s with EmptyString => xH | String c s => if Ascii.eqb c "1" then xI (unbits s) else xO (unbits s) end.
Lemma unbits_bits p : unbits (bits p) = p.
Proof. by induction p as [p IH|p IH|]; simpl; rewrite ?IH. Qed.

#[export] Instance bit_json : JsonText := {|
  json_dump j := bits (encode (to_tree j));
  json_parse s := of_tree <$> decode (unbits s)
|}.
#[export] Instance bit_json_laws : JsonTextLaws.
Proof. split. intros j _. simpl. rewrite unbits_bits, decode_encode. simpl. by rewrite of_to_tree. Qed.

Definition sample_boot : string := "01234567-89ab-cdef-0123-456789abcdef".
Definition sample_target : IncidentSessionTarget := mkSessionTarget 1000 "eve" "c2" 77 "user" Pending.

Lemma target_document_exact_witness :
  parse_targets (serialize_targets sample_boot 1 [sample_target]) = Some (sample_boot, 1%Z, [sample_target]).
Proof.
  refine (proj1 target_document_exact sample_boot 1%Z [sample_target] _ _ _ _).
  - vm_compute. reflexivity.
  - repeat constructor; vm_compute; congruence.
  - split; vm_compute; congruence.
  - vm_compute. congruence.
Defined.

Lemma targets_read_back_witness :
  let w := mkWorld empty_disk (failing []) in
  (writeIfCurrent "targets" 7 (no_targets TAbsent) sample_boot 1 [sample_target] w).1 = true ∧
  holds (w_disk (writeIfCurrent "targets" 7 (no_targets TAbsent) sample_boot 1 [sample_target] w).2) "targets"
    (serialize_targets sample_boot 1 [sample_target]).
Proof.
  assert ((writeIfCurrent "targets" 7 (no_targets TAbsent) sample_boot 1 [sample_target] (mkWorld empty_disk (failing []))).1 = true) as Hrun
    by (vm_compute; reflexivity).
  split; [exact Hrun|].
  refine (proj1 (proj2 (targets_read_back "targets" 7 (no_targets TAbsent) sample_boot 1 [sample_target]
    (mkWorld empty_disk (failing [])) (failing_alone _ _) _ ltac:(done) _ _ Hrun))).
  - intros n _. split_and!; simpl; [apply lookup_empty|intros p; by rewrite lookup_empty|intros p l; by rewrite lookup_empty].
  - repeat constructor; vm_compute; congruence.
  - split; vm_compute; congruence.
Defined.
