(* ===== verification/Effects.v ===== *)
(** Programs that talk to other components, and a logic for them.

    A program is a tree of calls: it makes a call, gets any response of that
    call's type, and goes on. [ensures G Q h p] says that, with the calls in [h]
    already made (latest first), [p] makes every further call in a situation
    that [G] allows, whatever the responses are, and ends with a result that
    satisfies [Q]. A handler gives the responses and turns a program into a
    function. *)

From S2P Require Import Prelude.
Open Scope list_scope.

Section effects.
Context {Call : Type} (resp : Call → Type).

Inductive prog (A : Type) : Type :=
  | Ret (a : A)
  | Do (c : Call) (k : resp c → prog A).
#[global] Arguments Ret {A} a.
#[global] Arguments Do {A} c k.

Fixpoint pbind {A B} (p : prog A) (f : A → prog B) : prog B :=
  match p with
  | Ret a => f a
  | Do c k => Do c (λ x, pbind (k x) f)
  end.

Record event := Ev { ev_call : Call; ev_resp : resp ev_call }.

(** * Protocols and postconditions *)

Fixpoint ensures {A} (G : list event → Call → Prop) (Q : list event → A → Prop) (h : list event) (p : prog A) : Prop :=
  match p with
  | Ret a => Q h a
  | Do c k => G h c ∧ ∀ x, ensures G Q (Ev c x :: h) (k x)
  end.

Lemma ensures_bind {A B} G (Q : list event → B → Prop) h (p : prog A) (f : A → prog B) :
  ensures G (λ h a, ensures G Q h (f a)) h p → ensures G Q h (pbind p f).
Proof. revert h. induction p as [a|c k IH]; intros h; simpl; [done|]. intros [HG Hk]. auto. Qed.

Lemma ensures_mono {A} G (Q Q' : list event → A → Prop) h (p : prog A) :
  ensures G Q' h p → (∀ h' a, Q' h' a → Q h' a) → ensures G Q h p.
Proof. intros Hp HQ. revert h Hp. induction p as [a|c k IH]; intros h; simpl; [auto|]. intros [HG Hk]. auto. Qed.

Lemma ensures_protocol {A} (G G' : list event → Call → Prop) (Q : list event → A → Prop) h (p : prog A) :
  ensures G' Q h p → (∀ h c, G' h c → G h c) → ensures G Q h p.
Proof. intros Hp HG. revert h Hp. induction p as [a|c k IH]; intros h; simpl; [auto|]. intros [? Hk]. auto. Qed.

Lemma ensures_and {A} G G' (Q Q' : list event → A → Prop) h (p : prog A) :
  ensures G Q h p → ensures G' Q' h p →
  ensures (λ h c, G h c ∧ G' h c) (λ h a, Q h a ∧ Q' h a) h p.
Proof.
  revert h. induction p as [a|c k IH]; intros h; simpl; [auto|]. intros [? Hk] [? Hk']. split; [done|]. intros x. auto.
Qed.

(** The history only grows. *)
Lemma ensures_extends {A} G (Q : list event → A → Prop) h (p : prog A) :
  ensures G Q h p → ensures G (λ h' a, Q h' a ∧ ∃ new, h' = new ++ h) h p.
Proof.
  assert (∀ h1, (∃ new, h1 = new ++ h) → ensures G Q h1 p → ensures G (λ h' a, Q h' a ∧ ∃ new, h' = new ++ h) h1 p) as Hgen.
  { induction p as [a|c k IH]; intros h1 [new ->]; simpl; [eauto|]. intros [HG Hk]. split; [done|]. intros x.
    apply IH; [by exists (Ev c x :: new)|done]. }
  intros Hp. apply Hgen; [by exists []|done].
Qed.

(** A protocol that only looks at the call says what the new calls are. *)
Lemma ensures_new {A} (P : Call → Prop) (Q : list event → A → Prop) h (p : prog A) :
  ensures (λ _ c, P c) Q h p →
  ensures (λ _ c, P c) (λ h' a, Q h' a ∧ ∃ new, h' = new ++ h ∧ ∀ e, e ∈ new → P (ev_call e)) h p.
Proof.
  assert (∀ h1, (∃ new, h1 = new ++ h ∧ ∀ e, e ∈ new → P (ev_call e)) → ensures (λ _ c, P c) Q h1 p →
    ensures (λ _ c, P c) (λ h' a, Q h' a ∧ ∃ new, h' = new ++ h ∧ ∀ e, e ∈ new → P (ev_call e)) h1 p) as Hgen.
  { induction p as [a|c k IH]; intros h1 (new & -> & Hnew); simpl; [eauto|]. intros [HP Hk]. split; [done|]. intros x.
    apply IH; [|done]. exists (Ev c x :: new). split; [done|]. intros e [->|He]%elem_of_cons; auto. }
  intros Hp. apply Hgen; [|done]. exists []. split; [done|]. intros e He. inversion He.
Qed.

(** * Running against a handler *)

Fixpoint run {A E} (handle : ∀ c, E → resp c * E) (p : prog A) (h : list event) (e : E) : A * list event * E :=
  match p with
  | Ret a => (a, h, e)
  | Do c k => let '(x, e') := handle c e in run handle (k x) (Ev c x :: h) e'
  end.

(** What a program ensures, it ensures of every run; and an invariant between
    the history and the world that each allowed call keeps holds at the end. *)
Lemma run_ensures {A E} (handle : ∀ c, E → resp c * E) (I : list event → E → Prop) G Q (p : prog A) h e :
  (∀ h e c, I h e → G h c → I (Ev c (handle c e).1 :: h) (handle c e).2) →
  I h e → ensures G Q h p →
  let '(a, h', e') := run handle p h e in Q h' a ∧ I h' e'.
Proof.
  intros Hstep. revert h e. induction p as [a|c k IH]; intros h e HI; simpl; [done|]. intros [HG Hk].
  specialize (Hstep h e c HI HG). destruct (handle c e) as [x e']. simpl in Hstep. by apply IH.
Qed.

Lemma run_map {A B E} (handle : ∀ c, E → resp c * E) (p : prog A) (f : A → B) h e :
  (run handle (pbind p (λ a, Ret (f a))) h e).1.1 = f (run handle p h e).1.1.
Proof. revert h e. induction p as [a|c k IH]; intros h e; simpl; [done|]. destruct (handle c e) as [x e']. apply IH. Qed.

(** The worlds of a run, and an invariant that holds in all of them. *)
Fixpoint visited {A E} (handle : ∀ c, E → resp c * E) (p : prog A) (e : E) : list E :=
  e :: match p with Ret _ => [] | Do c k => let '(x, e') := handle c e in visited handle (k x) e' end.

Lemma visited_ensures {A E} (handle : ∀ c, E → resp c * E) (I : list event → E → Prop) G Q (p : prog A) h e :
  (∀ h e c, I h e → G h c → I (Ev c (handle c e).1 :: h) (handle c e).2) →
  I h e → ensures G Q h p → Forall (λ e', ∃ h', I h' e') (visited handle p e).
Proof.
  intros Hstep. revert h e. induction p as [a|c k IH]; intros h e HI; simpl; [intros _; constructor; [by exists h|constructor]|].
  intros [HG Hk]. constructor; [by exists h|]. specialize (Hstep h e c HI HG). destruct (handle c e) as [x e']. simpl in Hstep. by eapply IH.
Qed.

(** In a run from the beginning, every call was made in a situation its
    protocol allows. *)
Lemma run_protocol {A E} (handle : ∀ c, E → resp c * E) G (Q : list event → A → Prop) (p : prog A) e :
  ensures G Q [] p →
  ∀ new ev before, (run handle p [] e).1.2 = new ++ ev :: before → G before (ev_call ev).
Proof.
  intros Hp. pose proof (run_ensures handle (λ h _, ∀ new ev before, h = new ++ ev :: before → G before (ev_call ev))
    G Q p [] e) as Hrun.
  destruct (run handle p [] e) as [[a h'] e']. apply Hrun; [|intros []; done|done].
  intros h1 e1 c IH HG new ev before. destruct new as [|ev' new]; simpl; [by intros [= <- <-]|].
  intros [= _ Heq]. by apply (IH new ev before).
Qed.

(** * Programs with a state of their own *)

Section state.
Context {S : Type}.

Definition sprog (A : Type) : Type := S → prog (A * S).

Definition ret {A} (a : A) : sprog A := λ s, Ret (a, s).
Definition sbind {A B} (m : sprog A) (f : A → sprog B) : sprog B := λ s, pbind (m s) (λ r, f r.1 r.2).

Definition call (c : Call) : sprog (resp c) := λ s, Do c (λ x, Ret (x, s)).
Definition get : sprog S := λ s, Ret (s, s).
Definition modify (f : S → S) : sprog unit := λ s, Ret (tt, f s).

Definition hoare {A} (G : list event → Call → Prop) (h : list event) (s : S) (m : sprog A)
    (Q : list event → S → A → Prop) : Prop :=
  ensures G (λ h r, Q h r.2 r.1) h (m s).

Lemma hoare_ret {A} G h s (a : A) (Q : list event → S → A → Prop) : Q h s a → hoare G h s (ret a) Q.
Proof. done. Qed.

Lemma hoare_bind {A B} G h s (m : sprog A) (f : A → sprog B) (Q : list event → S → B → Prop) :
  hoare G h s m (λ h s a, hoare G h s (f a) Q) → hoare G h s (sbind m f) Q.
Proof. apply ensures_bind. Qed.

Lemma hoare_call G h s c (Q : list event → S → resp c → Prop) :
  G h c → (∀ x, Q (Ev c x :: h) s x) → hoare G h s (call c) Q.
Proof. by split. Qed.

Lemma hoare_get G h s (Q : list event → S → S → Prop) : Q h s s → hoare G h s get Q.
Proof. done. Qed.

Lemma hoare_modify G h s f (Q : list event → S → unit → Prop) : Q h (f s) tt → hoare G h s (modify f) Q.
Proof. done. Qed.

Lemma hoare_mono {A} G h s (m : sprog A) (Q Q' : list event → S → A → Prop) :
  hoare G h s m Q' → (∀ h' s' a, Q' h' s' a → Q h' s' a) → hoare G h s m Q.
Proof. intros Hm HQ. eapply ensures_mono; [exact Hm|]. intros h' [a s']. apply HQ. Qed.

Lemma hoare_extends {A} G h s (m : sprog A) (Q : list event → S → A → Prop) :
  hoare G h s m Q → hoare G h s m (λ h' s' a, Q h' s' a ∧ ∃ new, h' = new ++ h).
Proof. intros Hm. eapply ensures_mono; [by apply ensures_extends|]. by intros h' [a s']. Qed.
End state.
End effects.

Arguments Ret {Call resp A} a.
Arguments Do {Call resp A} c k.
Arguments Ev {Call resp} ev_call ev_resp.
Arguments ev_call {Call resp} e.
Arguments ev_resp {Call resp} e.
Arguments ret {Call resp S A} a.
Arguments sbind {Call resp S A B} m f.
Arguments call {Call resp S} c.
Arguments get {Call resp S}.
Arguments modify {Call resp S} f.

Declare Scope prog_scope.
Notation "x ← y ; z" := (sbind y (λ x, z)) : prog_scope.
