(* ===== verification/Controller.v ===== *)
(** The incident controller (fic/src/incident/IncidentController): the single
    owner of the incident, which persists a severity and carries out the
    containment it requires.

    The components it talks to are calls ([Call]): the state store, the target
    store, the kernel's boot id, the PAM gate verifier, the network backend, the
    session backend (SessionContainmentBackend.h), the audit and notification
    sinks. A program of the controller is a tree of such calls over the
    controller's own state ([Ctl]). [wiring] says which of the optional
    components are present. The two mutexes make every public operation atomic,
    so an operation is one program. Diagnostic texts are labels without the
    diagnostics of other components. *)

From S2P Require Import Prelude Severity StateStore ResponseMode TargetStore AtomicWriter Effects.
Open Scope string_scope.
Open Scope list_scope.
Open Scope prog_scope.

(** * Data *)

Inductive RuntimeState := Inactive | Applying | Active | Degraded | Clearing.
#[export] Instance RuntimeState_eq_dec : EqDecision RuntimeState.
Proof. solve_decision. Defined.

Definition runtimeStateToString (state : RuntimeState) : string :=
  match state with
  | Inactive => "inactive" | Applying => "applying" | Active => "active"
  | Degraded => "degraded" | Clearing => "clearing"
  end.

Record ContainmentStatus := mkContainment {
  pamGateActive : bool;
  sessionsContained : bool;
  userRuntimeContained : bool;
  networkQuarantined : bool
}.
Definition no_containment : ContainmentStatus := mkContainment false false false false.

Record IncidentResult := mkResult {
  r_ok : bool;
  r_ignoredByMode : bool;
  r_previous : IncidentSeverity;
  r_effective : IncidentSeverity;
  r_escalated : bool;
  r_persistenceConfirmed : bool;
  r_persistentStateBroken : bool;
  r_runtime : RuntimeState
}.
Definition default_result : IncidentResult := mkResult false false Unlocked Isolate false false false Inactive.

Record IncidentStatus := mkStatus {
  st_responseMode : IncidentResponseModeResult;
  st_severity : IncidentSeverity;
  st_stateProven : bool;
  st_provenance : Provenance;
  st_runtime : RuntimeState;
  st_containment : ContainmentStatus
}.

Record IncidentSource := mkSource {
  src_name : string; src_policyModule : string; src_policySubmodule : string; src_policyName : string;
  src_deviceId : string; src_failureOrigin : string
}.
Definition named_source (name : string) : IncidentSource := mkSource name "" "" "" "" "".

Inductive SessionKind := Graphical | Terminal | UnknownKind.
#[export] Instance SessionKind_eq_dec : EqDecision SessionKind.
Proof. solve_decision. Defined.

Record LoginSession := mkSession {
  ls_id : string; ls_uid : Z; ls_user : string; ls_type : string; ls_kind : SessionKind;
  ls_recovery : bool; ls_className : string; ls_state : string; ls_remote : bool; ls_ordinary : bool;
  ls_serviceAccount : bool; ls_objectPath : string; ls_logindOwner : string; ls_startTimestamp : Z
}.

#[export] Instance LoginSession_eq_dec : EqDecision LoginSession.
Proof. solve_decision. Defined.

Record LoginUser := mkUser {
  lu_uid : Z; lu_name : string; lu_serviceAccount : bool; lu_recovery : bool; lu_managerRunning : bool;
  lu_ordinary : bool; lu_objectPath : string; lu_logindOwner : string
}.
Definition no_user : LoginUser := mkUser 0 "" false false false false "" "".
Definition with_identity (user : LoginUser) (target : IncidentSessionTarget) : LoginUser :=
  mkUser (uid target) (canonicalName target) (lu_serviceAccount user) (lu_recovery user) (lu_managerRunning user)
    (lu_ordinary user) (lu_objectPath user) (lu_logindOwner user).

Inductive LookupStatus := Found | NotThere | NotProven.
#[export] Instance LookupStatus_eq_dec : EqDecision LookupStatus.
Proof. solve_decision. Defined.
Record RegisteredUserLookup := mkLookup { lookup_status : LookupStatus; lookup_user : LoginUser }.

(** * The components the controller calls *)

Inductive Call :=
  | ResolveMode
  | StateRead
  | StateRaise (requested : IncidentSeverity)
  | StateClear
  | StateEncode
  | TargetRead
  | TargetWrite (expected : TargetReadResult) (bootId : string) (generation : Z) (targets : list IncidentSessionTarget)
  | BootId
  | VerifyGate
  | ApplyQuarantine (enabled : bool)
  | ListSessions
  | ClassifySession (session : LoginSession)
  | LockSession (session : LoginSession)
  | VerifySessionLocked (session : LoginSession)
  | TerminateSession (session : LoginSession)
  | VerifySessionsGone (sessions : list LoginSession)
  | LookupProvenUser (user : Z) (expectedCanonicalName : string)
  | TerminateUser (user : LoginUser)
  | VerifyUserRuntimeGone (user : LoginUser)
  | Audit (event : string) (result : IncidentResult) (source : IncidentSource) (reason : string)
  | Notify (severity : IncidentSeverity) (reason : string).

(** [None] stands for an exception of the mode resolver and of the gate
    verifier, and for an inventory that is not proven. *)
Definition resp (c : Call) : Type :=
  match c with
  | ResolveMode => option IncidentResponseModeResult
  | StateRead => ReadResult
  | StateRaise _ | StateEncode => RaiseResult
  | StateClear => ClearResult
  | TargetRead => TargetReadResult
  | BootId => string
  | VerifyGate => option bool
  | ListSessions => option (list LoginSession)
  | ClassifySession _ => SessionKind
  | LookupProvenUser _ _ => RegisteredUserLookup
  | TargetWrite _ _ _ _ | ApplyQuarantine _ | LockSession _ | VerifySessionLocked _ | TerminateSession _
  | VerifySessionsGone _ | TerminateUser _ | VerifyUserRuntimeGone _ => bool
  | Audit _ _ _ _ | Notify _ _ => unit
  end.

Record Wiring := mkWiring { has_sessions : bool; has_verifier : bool; has_resolver : bool; has_audit : bool; has_notify : bool }.

(** * The controller's state *)

Record Ctl := mkCtl {
  incidentGeneration : option Z;
  lastNotified : option IncidentSeverity;
  runtime : RuntimeState;
  containment : ContainmentStatus;
  lastMode : option IncidentResponseMode;
  forcedNetworkQuarantine : bool
}.
Definition initial_ctl : Ctl := mkCtl None None Inactive no_containment None false.

Definition set_generation g (s : Ctl) := mkCtl g (lastNotified s) (runtime s) (containment s) (lastMode s) (forcedNetworkQuarantine s).
Definition set_notified n (s : Ctl) := mkCtl (incidentGeneration s) n (runtime s) (containment s) (lastMode s) (forcedNetworkQuarantine s).
Definition set_runtime r (s : Ctl) := mkCtl (incidentGeneration s) (lastNotified s) r (containment s) (lastMode s) (forcedNetworkQuarantine s).
Definition set_containment c (s : Ctl) := mkCtl (incidentGeneration s) (lastNotified s) (runtime s) c (lastMode s) (forcedNetworkQuarantine s).
Definition set_mode m (s : Ctl) := mkCtl (incidentGeneration s) (lastNotified s) (runtime s) (containment s) (Some m) (forcedNetworkQuarantine s).
Definition set_forced b (s : Ctl) := mkCtl (incidentGeneration s) (lastNotified s) (runtime s) (containment s) (lastMode s) b.

Abbreviation Ctrl := (sprog resp (S := Ctl)).
Abbreviation ask := (call (resp := resp) (S := Ctl)).

(** [std::numeric_limits<std::uint64_t>::max()]. *)
Definition max_generation : Z := (2 ^ 64 - 1)%Z.

Definition isOrdinaryTarget (session : LoginSession) : bool :=
  ls_ordinary session && negb (ls_recovery session) && negb (bool_decide (ls_uid session = 0%Z)).

Definition target_of_session (session : LoginSession) : IncidentSessionTarget :=
  mkSessionTarget (ls_uid session) (ls_user session) (ls_id session) (ls_startTimestamp session) (ls_className session) Pending.

(** A failure label when [ok] is false. *)
Definition fail_unless (ok : bool) (label : string) : list string := if ok then [] else [label].

Section controller.
Context (wiring : Wiring).

Definition controllerMode : Ctrl IncidentResponseModeResult :=
  if has_resolver wiring then
    m ← ask ResolveMode;
    ret (default (mkMode ModeActive false "fallback ACTIVE: mode resolver failed" "") m)
  else ret default_mode.

Definition settleNonActiveMode (mode : IncidentResponseMode) (severity : IncidentSeverity) : Ctrl IncidentResult :=
  _ ← modify (set_forced false);
  ok ← ask (ApplyQuarantine false);
  let state := if ok then Inactive else Degraded in
  _ ← modify (λ s, set_mode mode (set_runtime state (set_containment no_containment s)));
  ret (mkResult ok false Unlocked severity false false false state).

(** * The target store of the incident *)

Definition fenceNewIncident : Ctrl bool :=
  bootId ← ask BootId;
  if String.eqb bootId "" then ret false
  else
    store ← ask TargetRead;
    if bool_decide (tr_provenance store = TUnprovable) then ret false
    else if bool_decide (tr_provenance store = TProven) && bool_decide (tr_generation store = max_generation) then ret false
    else
      let generation := if bool_decide (tr_provenance store = TProven) then (tr_generation store + 1)%Z else 1%Z in
      written ← ask (TargetWrite store bootId generation []);
      if negb written then ret false
      else _ ← modify (set_generation (Some generation)); ret true.

Definition prepareActiveTargetStore : Ctrl bool :=
  state ← ask StateRead;
  if bool_decide (provenance state ≠ PProven) || incidentSeverityIsUnlocked (severity state) then ret false
  else
    bootId ← ask BootId;
    if String.eqb bootId "" then ret false
    else
      store ← ask TargetRead;
      if bool_decide (tr_provenance store ≠ TProven) then ret false
      else
        s ← get;
        if match incidentGeneration s with Some g => negb (bool_decide (g = tr_generation store)) | None => false end
        then ret false
        else
          rebased ← (if negb (String.eqb (tr_bootId store) bootId)
                     then ask (TargetWrite store bootId (tr_generation store) []) else ret true);
          if negb rebased then ret false
          else _ ← modify (set_generation (Some (tr_generation store))); ret true.

(** One round of the merge: the entry of the same user, if there is one, is
    kept, or re-armed with the new evidence; a different name refuses all. *)
Fixpoint merge_into (merged : list IncidentSessionTarget) (target : IncidentSessionTarget)
  : option (list IncidentSessionTarget * bool) :=
  match merged with
  | [] => Some ([target], true)
  | existing :: rest =>
      if bool_decide (uid existing = uid target) then
        if negb (String.eqb (canonicalName existing) (canonicalName target)) then None
        else match runtimeObligation existing with
             | Discharged =>
                 Some (mkSessionTarget (uid existing) (canonicalName existing) (sessionId target)
                         (sessionStartTimestamp target) (sessionClass target) Pending :: rest, true)
             | Pending => Some (existing :: rest, false)
             end
      else match merge_into rest target with
           | None => None
           | Some (rest', changed) => Some (existing :: rest', changed)
           end
  end.

Fixpoint merge_targets (merged : list IncidentSessionTarget) (newTargets : list IncidentSessionTarget)
  : option (list IncidentSessionTarget * bool) :=
  match newTargets with
  | [] => Some (merged, false)
  | target :: newTargets =>
      match merge_into merged target with
      | None => None
      | Some (merged, changed) =>
          match merge_targets merged newTargets with
          | None => None
          | Some (merged, changed') => Some (merged, changed || changed')
          end
      end
  end.

(** The store belongs to this boot and to the controller's generation. *)
Definition store_is_current (bootId : string) (store : TargetReadResult) (s : Ctl) : bool :=
  bool_decide (tr_provenance store = TProven) && String.eqb (tr_bootId store) bootId &&
  bool_decide (incidentGeneration s = Some (tr_generation store)).

Definition registerSessionTargets (newTargets : list IncidentSessionTarget) : Ctrl bool :=
  bootId ← ask BootId;
  if String.eqb bootId "" then ret false
  else
    store ← ask TargetRead;
    s ← get;
    if negb (store_is_current bootId store s) then ret false
    else match merge_targets (tr_targets store) newTargets with
         | None => ret false
         | Some (merged, changed) =>
             if negb changed then ret true else ask (TargetWrite store bootId (tr_generation store) merged)
         end.

(** * Containment *)

Definition verify_gate : Ctrl bool :=
  if has_verifier wiring then x ← ask VerifyGate; ret (default false x) else ret false.

(** The network action of a severity that is not UNLOCKED: whether it worked. *)
Definition contain_network (severity : IncidentSeverity) : Ctrl bool :=
  let isolate := bool_decide (severity = Isolate) in
  _ ← modify (set_forced isolate);
  ask (ApplyQuarantine isolate).

(** The loop over the inventory: the new targets, and the sessions to end. *)
Fixpoint select_sessions (severity : IncidentSeverity) (sessions : list LoginSession)
  : Ctrl (list IncidentSessionTarget * list LoginSession) :=
  match sessions with
  | [] => ret ([], [])
  | session :: rest =>
      if negb (isOrdinaryTarget session) then select_sessions severity rest
      else
        kind ← ask (ClassifySession session);
        terminate ← (if bool_decide (severity = Standard) && bool_decide (kind = Graphical) then
                       performed ← ask (LockSession session);
                       locked ← (if performed : bool then ask (VerifySessionLocked session) else ret false);
                       ret (negb locked)
                     else ret true);
        selected ← select_sessions severity rest;
        ret (target_of_session session :: selected.1,
              if terminate : bool then session :: selected.2 else selected.2)
  end.

Fixpoint terminate_sessions (sessions : list LoginSession) : Ctrl (list string) :=
  match sessions with
  | [] => ret []
  | session :: rest =>
      performed ← ask (TerminateSession session);
      failures ← terminate_sessions rest;
      ret (fail_unless performed "session termination request failed" ++ failures)
  end.

(** Sessions contained, targets usable, failures. *)
Definition contain_sessions (severity : IncidentSeverity) : Ctrl (bool * bool * list string) :=
  inventory ← ask ListSessions;
  match inventory with
  | None => ret (false, false, ["session inventory is unproven"; "session containment could not be proven"])
  | Some sessions =>
      selected ← select_sessions severity sessions;
      registered ← registerSessionTargets selected.1;
      let toTerminate := if registered : bool then selected.2 else [] in
      failures ← terminate_sessions toTerminate;
      gone ← (if registered then
                match toTerminate with [] => ret true | _ => ask (VerifySessionsGone toTerminate) end
              else ret false);
      ret (gone, registered,
        fail_unless registered "durable session target registration failed" ++ failures ++
        fail_unless gone "session containment could not be proven")
  end.

Definition with_obligation (o : RuntimeObligation) (t : IncidentSessionTarget) : IncidentSessionTarget :=
  mkSessionTarget (uid t) (canonicalName t) (sessionId t) (sessionStartTimestamp t) (sessionClass t) o.

(** What a pass over the obligations gives: them, whether one changed, whether
    all were proven, the failures. *)
Record pass := mkPass { p_targets : list IncidentSessionTarget; p_changed : bool; p_proven : bool; p_failures : list string }.
Definition pass_add (t : IncidentSessionTarget) (changed proven : bool) (failures : list string) (p : pass) : pass :=
  mkPass (t :: p_targets p) (changed || p_changed p) (proven && p_proven p) (failures ++ p_failures p).

(** Discharged users that are there again become pending. *)
Fixpoint rearm (obligations : list IncidentSessionTarget) : Ctrl pass :=
  match obligations with
  | [] => ret (mkPass [] false true [])
  | target :: rest =>
      match runtimeObligation target with
      | Pending => p ← rearm rest; ret (pass_add target false true [] p)
      | Discharged =>
          lookup ← ask (LookupProvenUser (uid target) (canonicalName target));
          match lookup_status lookup with
          | NotProven => p ← rearm rest; ret (pass_add target false false ["discharged user target is unproven"] p)
          | Found => p ← rearm rest; ret (pass_add (with_obligation Pending target) true true [] p)
          | NotThere =>
              gone ← ask (VerifyUserRuntimeGone (with_identity no_user target));
              p ← rearm rest;
              ret (pass_add target false gone (fail_unless gone "discharged user runtime absence is unproven") p)
          end
      end
  end.

(** The durable snapshot of the re-armed obligations: whether it is there, and
    the store to write against from now on. *)
Definition persist_rearmed (store : TargetReadResult) (obligations : list IncidentSessionTarget)
  : Ctrl (bool * TargetReadResult * list string) :=
  written ← ask (TargetWrite store (tr_bootId store) (tr_generation store) obligations);
  if negb written then ret (false, store, ["re-arming user-runtime obligations could not be made durable"])
  else
    store ← ask TargetRead;
    current ← (if bool_decide (tr_provenance store = TProven) then
                 bootId ← ask BootId;
                 s ← get;
                 ret (store_is_current bootId store s && bool_decide (tr_targets store = obligations))
               else ret false);
    ret (current, store, fail_unless current "target store changed after durable re-arm").

(** Pending users are terminated and proven gone. *)
Fixpoint discharge (obligations : list IncidentSessionTarget) : Ctrl pass :=
  match obligations with
  | [] => ret (mkPass [] false true [])
  | target :: rest =>
      match runtimeObligation target with
      | Discharged => p ← discharge rest; ret (pass_add target false true [] p)
      | Pending =>
          lookup ← ask (LookupProvenUser (uid target) (canonicalName target));
          if bool_decide (lookup_status lookup = NotProven)
          then p ← discharge rest; ret (pass_add target false false ["registered user target is unproven"] p)
          else
            let found := bool_decide (lookup_status lookup = Found) in
            let user := with_identity (if found then lookup_user lookup else no_user) target in
            performed ← ask (TerminateUser user);
            let failures := fail_unless (performed || negb found) "user runtime termination failed" in
            gone ← ask (VerifyUserRuntimeGone user);
            p ← discharge rest;
            ret (if gone : bool then pass_add (with_obligation Discharged target) true true failures p
                  else pass_add target false false (failures ++ ["user runtime containment could not be proven"]) p)
      end
  end.

(** The users of a usable store: whether all are proven contained. *)
Definition contain_registered (store : TargetReadResult) : Ctrl (bool * list string) :=
  armed ← rearm (tr_targets store);
  durable ← (if p_changed armed then persist_rearmed store (p_targets armed) else ret (true, store, []));
  let '(rearmDurable, store, failures) := durable in
  done ← (if rearmDurable : bool then discharge (p_targets armed) else ret (mkPass [] false true []));
  persisted ← (if p_changed done then
                 bootId ← ask BootId;
                 ask (TargetWrite store bootId (tr_generation store) (p_targets done))
               else ret true);
  ret (p_proven armed && rearmDurable && p_proven done && persisted,
        p_failures armed ++ failures ++ p_failures done ++
        fail_unless persisted "discharging user-runtime obligations could not be made durable").

Definition contain_users (targetsUsable : bool) : Ctrl (bool * list string) :=
  store ← ask TargetRead;
  usable ← (if bool_decide (tr_provenance store = TProven) then
              bootId ← ask BootId;
              s ← get;
              ret (negb (String.eqb bootId "") && store_is_current bootId store s)
            else ret false);
  let failures := fail_unless usable "incident session target store is not usable" ++
                  fail_unless targetsUsable "session target registration is unproven" in
  if negb usable || negb targetsUsable then ret (false, failures)
  else contain_registered store.

(** The end of [applyContainment] for a severity that is not UNLOCKED. *)
Definition finish_containment (severity : IncidentSeverity) (status : ContainmentStatus) (failures : list string)
  : Ctrl IncidentResult :=
  let complete :=
    bool_decide (failures = []) &&
    (incidentSeverityLess severity Standard || (pamGateActive status && sessionsContained status)) &&
    (negb (bool_decide (severity = Isolate)) || (networkQuarantined status && userRuntimeContained status)) in
  let state := if complete then Active else Degraded in
  _ ← modify (λ s, set_runtime state (set_containment status s));
  ret (mkResult complete false Unlocked severity false false false state).

(** Removal of the reversible containment. *)
Definition release_containment (severity : IncidentSeverity) : Ctrl IncidentResult :=
  _ ← modify (set_forced false);
  ok ← ask (ApplyQuarantine false);
  let state := if ok then Inactive else Degraded in
  _ ← modify (λ s, set_runtime state (set_containment (mkContainment false true true false) s));
  ret (mkResult ok false Unlocked severity false false false state).

Definition applyContainment (severity : IncidentSeverity) (allowTargetMutation : bool) : Ctrl IncidentResult :=
  _ ← modify (set_runtime Applying);
  let strong := incidentSeverityAtLeast severity Standard in
  gate ← (if strong then verify_gate else ret false);
  if incidentSeverityIsUnlocked severity then release_containment severity
  else
    network ← contain_network severity;
    lifecycle ← (if allowTargetMutation then prepareActiveTargetStore else ret false);
    sessions ← (if strong && has_sessions wiring && lifecycle then contain_sessions severity
                else ret (negb strong, false, fail_unless (negb strong || has_sessions wiring)
                                                "session containment backend is unavailable"));
    let '(contained, targetsUsable, sessionFailures) := sessions in
    users ← (if bool_decide (severity = Isolate) then
               if has_sessions wiring && lifecycle then contain_users targetsUsable
               else ret (false, fail_unless (has_sessions wiring) "user runtime containment backend is unavailable")
             else ret (true, []));
    let isolate := bool_decide (severity = Isolate) in
    finish_containment severity (mkContainment gate contained users.1 (isolate && network))
      (fail_unless (negb strong || gate) "PAM incident access gate is unproven" ++
       fail_unless network "network action failed" ++
       fail_unless lifecycle "incident target lifecycle is unproven" ++ sessionFailures ++ users.2).

(** * Audit and notification *)

Definition recordAudit (event : string) (result : IncidentResult) (source : IncidentSource) (reason : string) : Ctrl unit :=
  if has_audit wiring then ask (Audit event result source reason) else ret tt.

Definition notifySeverity (severity : IncidentSeverity) (reason : string) : Ctrl unit :=
  s ← get;
  if match lastNotified s with Some n => negb (incidentSeverityLess n severity) | None => false end then ret tt
  else
    _ ← modify (set_notified (Some severity));
    if has_notify wiring then ask (Notify severity reason) else ret tt.

(** * Public operations *)

(** The severity a read stands for: only a proven one counts. *)
Definition read_severity (r : ReadResult) : IncidentSeverity :=
  if bool_decide (provenance r = PProven) then severity r else Isolate.
Definition read_broken (r : ReadResult) : bool := negb (bool_decide (provenance r = PProven)).

(** [raise] in OFF mode. *)
Definition raise_ignored : Ctrl IncidentResult :=
  current ← ask StateRead;
  ignored ← settleNonActiveMode ModeOff (read_severity current);
  ret (mkResult (r_ok ignored) true (r_effective ignored) (r_effective ignored) false false (read_broken current)
         (r_runtime ignored)).

(** [raise] when the new incident could not be fenced. *)
Definition raise_unfenced (mode : IncidentResponseMode) (before : IncidentSeverity) (source : IncidentSource) (reason : string)
  : Ctrl IncidentResult :=
  _ ← ask StateEncode;
  _ ← (if bool_decide (mode = ModeActive) then applyContainment Isolate false else settleNonActiveMode mode Isolate);
  _ ← modify (set_runtime Degraded);
  let result := mkResult false false before Isolate false false true Degraded in
  _ ← recordAudit "incident_persistence_failed" result source reason;
  _ ← notifySeverity Isolate reason;
  ret result.

(** [raise] when the severity could not be made durable. *)
Definition raise_undurable (mode : IncidentResponseMode) (result : IncidentResult) (source : IncidentSource) (reason : string)
  : Ctrl IncidentResult :=
  if bool_decide (mode = ModePassive) then
    passive ← settleNonActiveMode mode Isolate;
    let passive := mkResult false false (r_previous result) (r_effective passive) (r_escalated result) false true
                     (r_runtime passive) in
    _ ← recordAudit "incident_persistence_failed" passive source reason;
    _ ← notifySeverity Isolate reason;
    ret passive
  else
    contained ← applyContainment Isolate false;
    _ ← modify (set_runtime Degraded);
    let contained := mkResult false false (r_previous result) Isolate (r_escalated result) (r_persistenceConfirmed contained)
                       (r_persistentStateBroken result) Degraded in
    _ ← recordAudit "incident_persistence_failed" contained source reason;
    _ ← recordAudit "incident_action_failed" contained source reason;
    _ ← notifySeverity Isolate reason;
    ret contained.

(** [raise] once the severity is durable. *)
Definition raise_durable (mode : IncidentResponseMode) (result : IncidentResult) (source : IncidentSource) (reason : string)
  : Ctrl IncidentResult :=
  contained ← (if bool_decide (mode = ModePassive) then settleNonActiveMode mode (r_effective result)
               else _ ← modify (set_mode ModeActive); applyContainment (r_effective result) true);
  let result := mkResult (r_ok result && r_ok contained) false (r_previous result) (r_effective result) (r_escalated result)
                  (r_persistenceConfirmed result) (r_persistentStateBroken result) (r_runtime contained) in
  _ ← recordAudit (if bool_decide (mode = ModePassive) || r_ok contained then "incident_raise" else "incident_action_failed")
        result source reason;
  _ ← (if r_escalated result then notifySeverity (r_effective result) reason else ret tt);
  ret result.

Definition raise (requested : IncidentSeverity) (source : IncidentSource) (reason : string) : Ctrl IncidentResult :=
  mode ← controllerMode;
  let mode := response_mode mode in
  if bool_decide (mode = ModeOff) then raise_ignored
  else
    before ← ask StateRead;
    let newIncident := bool_decide (provenance before = PProven) && bool_decide (severity before = Unlocked) in
    fenced ← (if newIncident && negb (incidentSeverityIsUnlocked requested) then fenceNewIncident else ret true);
    if negb fenced then raise_unfenced mode (read_severity before) source reason
    else
      raised ← ask (StateRaise requested);
      after ← ask StateRead;
      let result := mkResult (durable raised) false (read_severity before)
                      (if durable raised then effectiveSeverity raised else Isolate) (escalated raised)
                      (durable raised) (read_broken after) Inactive in
      if durable raised then raise_durable mode result source reason else raise_undurable mode result source reason.

(** The cleanup of the targets after a durable clear. *)
Definition clean_targets : Ctrl bool :=
  bootId ← ask BootId;
  store ← ask TargetRead;
  cleaned ←
    (if String.eqb bootId "" then ret false
     else if bool_decide (tr_provenance store = TUnprovable) then ret false
     else if bool_decide (tr_provenance store = TProven) && bool_decide (tr_generation store = max_generation) then ret false
     else
       let next := if bool_decide (tr_provenance store = TProven) then (tr_generation store + 1)%Z else 1%Z in
       ask (TargetWrite store bootId next []));
  _ ← modify (set_generation None);
  ret cleaned.

Definition settle_or_contain (mode : IncidentResponseMode) (severity : IncidentSeverity) : Ctrl IncidentResult :=
  if bool_decide (mode = ModeActive) then applyContainment severity true else settleNonActiveMode mode severity.

Definition clear (actor : string) : Ctrl IncidentResult :=
  mode ← controllerMode;
  let mode := response_mode mode in
  _ ← modify (set_runtime Clearing);
  before ← ask StateRead;
  cleared ← ask StateClear;
  after ← ask StateRead;
  if negb (clear_ok cleared) then
    contained ← settle_or_contain mode (clear_effective cleared);
    let confirmed := bool_decide (clear_persistence cleared = DurableConfirmed) in
    _ ← (if confirmed then ret tt else modify (set_runtime Degraded));
    let result := mkResult false false (read_severity before) (clear_effective cleared) false false (read_broken after)
                    (if confirmed then r_runtime contained else Degraded) in
    _ ← recordAudit "incident_clear" result (named_source "administrator") ("clear refused for actor " +:+ actor);
    ret result
  else
    cleaned ← clean_targets;
    contained ← settle_or_contain mode Unlocked;
    _ ← (if cleaned : bool then ret tt else modify (set_runtime Degraded));
    let result := mkResult (r_ok contained && cleaned) false (read_severity before) (clear_effective cleared) false true
                    (read_broken after) (if cleaned then r_runtime contained else Degraded) in
    _ ← modify (set_notified None);
    _ ← recordAudit "incident_clear" result (named_source "administrator") ("cleared by " +:+ actor);
    _ ← (if r_ok result && negb (bool_decide (read_severity before = Unlocked)) && has_notify wiring
         then ask (Notify Unlocked ("incident cleared by " +:+ actor)) else ret tt);
    ret result.

Definition status : Ctrl IncidentStatus :=
  read ← ask StateRead;
  mode ← controllerMode;
  s ← get;
  ret (mkStatus mode (read_severity read) (negb (read_broken read)) (provenance read) (runtime s) (containment s)).

Definition reconcile : Ctrl IncidentResult :=
  read ← ask StateRead;
  mode ← controllerMode;
  let mode := response_mode mode in
  let effective := read_severity read in
  contained ← settle_or_contain mode effective;
  _ ← (if bool_decide (mode = ModeActive) then modify (set_mode ModeActive) else ret tt);
  let ok := r_ok contained && (bool_decide (mode = ModeOff) || negb (read_broken read)) in
  _ ← (if ok then ret tt else modify (set_runtime Degraded));
  ret (mkResult ok false effective effective false false (read_broken read) (if ok then r_runtime contained else Degraded)).
End controller.
