(* ===== verification/ControllerFacts.v ===== *)
(** What the incident controller guarantees, whatever the components it calls
    answer: the results it reports are backed by what happened. *)

From S2P Require Import Prelude Severity StateStore ResponseMode TargetStore AtomicWriter Effects Controller.
Open Scope list_scope.
Open Scope prog_scope.

Abbreviation history := (list (event resp)).

(** * Histories *)

(** The later history of [h]. *)
Definition later (h h' : history) : Prop := ∃ new, h' = new ++ h.

#[export] Instance later_preorder : PreOrder later.
Proof.
  split; [by exists []|]. intros h1 h2 h3 [n1 ->] [n2 ->]. exists (n2 ++ n1). by rewrite app_assoc.
Qed.
Lemma later_cons e h : later h (e :: h).
Proof. by exists [e]. Qed.
Lemma later_push e h h' : later h h' → later h (e :: h').
Proof. intros [new ->]. by exists (e :: new). Qed.
Ltac later_tac := first [reflexivity | assumption | apply later_push; later_tac].
Lemma later_elem h h' e : later h h' → e ∈ h → e ∈ h'.
Proof. intros [new ->] He. apply elem_of_app. by right. Qed.

(** Symbolic execution of a program, one step. *)
Ltac hstep :=
  match goal with
  | |- hoare _ _ _ _ (sbind _ _) _ => apply hoare_bind
  | |- hoare _ _ _ _ (ret _) _ => apply hoare_ret
  | |- hoare _ _ _ _ (call _) _ => apply hoare_call; [try exact I|intros ?]
  | |- hoare _ _ _ _ get _ => apply hoare_get
  | |- hoare _ _ _ _ (modify _) _ => apply hoare_modify
  | |- hoare _ _ _ _ (if ?b then _ else _) _ => destruct b eqn:?
  | |- hoare _ _ _ _ (let '(_, _) := ?p in _) _ => destruct p eqn:?
  end.
Ltac hsteps := repeat (hstep; cbv beta).

Lemma merge_into_covers merged t merged' changed : merge_into merged t = Some (merged', changed) →
  runtimeObligation t = Pending →
  (∃ t', t' ∈ merged' ∧ uid t' = uid t ∧ canonicalName t' = canonicalName t ∧ runtimeObligation t' = Pending) ∧
  (∀ x, x ∈ merged → runtimeObligation x = Pending → ∃ x', x' ∈ merged' ∧ uid x' = uid x ∧
     canonicalName x' = canonicalName x ∧ runtimeObligation x' = Pending) ∧
  (changed = false → merged' = merged).
Proof.
  revert merged' changed. induction merged as [|e rest IH]; intros merged' changed; simpl.
  { intros [= <- <-] Hp. split_and!; [exists t; set_solver|set_solver|done]. }
  case_bool_decide as Hu.
  - destruct (String.eqb_spec (canonicalName e) (canonicalName t)) as [Hn|]; [|done]. simpl.
    destruct (runtimeObligation e) eqn:He; intros [= <- <-] Hp; split_and!; try done.
    + exists e. set_solver.
    + intros x Hx. exists x. set_solver.
    + eexists. split; [by left|]. done.
    + intros x [->|Hx]%elem_of_cons Hpx; [congruence|]. exists x. set_solver.
  - destruct (merge_into rest t) as [[rest' c]|] eqn:Hm; [|done]. intros [= <- <-] Hp.
    destruct (IH rest' c eq_refl Hp) as ((t' & Ht' & Heq) & Hkeep & Hsame). split_and!.
    + exists t'. set_solver.
    + intros x [->|Hx]%elem_of_cons Hpx; [exists e; set_solver|]. destruct (Hkeep x Hx Hpx) as (x' & Hx' & ?). exists x'. set_solver.
    + intros ->. by rewrite Hsame.
Qed.

Lemma merge_covers merged news merged' changed : merge_targets merged news = Some (merged', changed) →
  Forall (λ t, runtimeObligation t = Pending) news →
  (∀ t, t ∈ news → ∃ t', t' ∈ merged' ∧ uid t' = uid t ∧ canonicalName t' = canonicalName t ∧ runtimeObligation t' = Pending) ∧
  (∀ x, x ∈ merged → runtimeObligation x = Pending → ∃ x', x' ∈ merged' ∧ uid x' = uid x ∧
     canonicalName x' = canonicalName x ∧ runtimeObligation x' = Pending) ∧
  (changed = false → merged' = merged).
Proof.
  revert merged merged' changed. induction news as [|t news IH]; intros merged merged' changed; simpl.
  { intros [= <- <-] _. split_and!; [set_solver|intros x Hx; exists x; set_solver|done]. }
  destruct (merge_into merged t) as [[m1 c1]|] eqn:H1; [|done]. destruct (merge_targets m1 news) as [[m2 c2]|] eqn:H2; [|done].
  intros [= <- <-] [Hp Hall]%Forall_cons. destruct (merge_into_covers _ _ _ _ H1 Hp) as ((t' & Ht' & Hu' & Hn' & Hp') & Hkeep1 & Hs1).
  destruct (IH _ _ _ H2 Hall) as (Hnew & Hkeep2 & Hs2). split_and!.
  - intros x [->|Hx]%elem_of_cons; [|by apply Hnew]. destruct (Hkeep2 t' Ht' Hp') as (t2 & ? & ? & ? & ?).
    exists t2. split_and!; congruence.
  - intros x Hx Hpx. destruct (Hkeep1 x Hx Hpx) as (x1 & Hx1 & ? & ? & Hp1). destruct (Hkeep2 x1 Hx1 Hp1) as (x2 & ? & ? & ? & ?).
    exists x2. split_and!; congruence.
  - intros [-> ->]%orb_false_iff. rewrite (Hs2 eq_refl). by apply Hs1.
Qed.

(** * What a reported success is backed by *)

Abbreviation free := (λ (_ : history) (_ : Call), True).

(** The session was locked and verified, or ended and verified gone. *)
Definition session_contained (h : history) (severity : IncidentSeverity) (x : LoginSession) : Prop :=
  severity = Standard ∧ Ev (VerifySessionLocked x) true ∈ h ∨
  Ev (TerminateSession x) true ∈ h ∧ ∃ l, x ∈ l ∧ Ev (VerifySessionsGone l) true ∈ h.

(** The user's runtime was verified gone. *)
Definition user_gone (h : history) (t : IncidentSessionTarget) : Prop :=
  ∃ user, lu_uid user = uid t ∧ lu_name user = canonicalName t ∧ Ev (VerifyUserRuntimeGone user) true ∈ h.

Lemma user_gone_later h h' t : later h h' → user_gone h t → user_gone h' t.
Proof. intros Hl (u & ? & ? & ?). exists u. split_and!; [done|done|by eapply later_elem]. Qed.

Lemma select_backed severity h s sessions :
  hoare resp free h s (select_sessions severity sessions) (λ h' _ r, later h h' ∧
    ∀ x, x ∈ sessions → isOrdinaryTarget x = true →
      severity = Standard ∧ Ev (VerifySessionLocked x) true ∈ h' ∨ x ∈ r.2).
Proof.
  revert h s. induction sessions as [|x sessions IH]; intros h s; cbn [select_sessions].
  { apply hoare_ret. split; [later_tac|set_solver]. }
  destruct (isOrdinaryTarget x) eqn:Hord; cbn [negb]; cycle 1.
  { eapply hoare_mono; [apply IH|]. intros h' s' r [Hl Hr]. split; [done|].
    intros y [->|Hy]%elem_of_cons Hoy; [congruence|auto]. }
  assert (∀ h1 s1 (b : bool), later h h1 → (b = false → severity = Standard ∧ Ev (VerifySessionLocked x) true ∈ h1) →
    hoare resp free h1 s1 (selected ← select_sessions severity sessions;
      ret (target_of_session x :: selected.1, if b then x :: selected.2 else selected.2)) (λ h' _ r, later h h' ∧
      ∀ y, y ∈ x :: sessions → isOrdinaryTarget y = true →
        severity = Standard ∧ Ev (VerifySessionLocked y) true ∈ h' ∨ y ∈ r.2)) as Hrest.
  { intros h1 s1 b Hl Hb. apply hoare_bind. eapply hoare_mono; [apply IH|]. intros h2 s2 r [Hl2 Hr]. apply hoare_ret.
    split; [by etransitivity|]. intros y Hy Hoy. apply elem_of_cons in Hy as [->|Hy].
    - destruct b; [right; by left|]. left. destruct (Hb eq_refl) as [? Hv]. split; [done|]. by eapply later_elem.
    - destruct (Hr y Hy Hoy) as [?|Hin]; [by left|right]. destruct b; [by right|done]. }
  apply hoare_bind, hoare_call; [done|]. intros kind. apply hoare_bind.
  destruct (bool_decide _ && _) eqn:Hstd; [|apply hoare_ret; cbv beta; apply Hrest with (b := true); [later_tac|done]].
  apply andb_true_iff in Hstd as [Hs%bool_decide_eq_true _].
  apply hoare_bind, hoare_call; [done|]. intros performed. apply hoare_bind. destruct performed; cycle 1.
  { apply hoare_ret, hoare_ret. cbv beta. apply Hrest with (b := true); [later_tac|done]. }
  apply hoare_call; [done|]. intros locked. apply hoare_ret. cbv beta. apply Hrest; [later_tac|].
  intros ->%negb_false_iff. split; [done|by left].
Qed.

Lemma terminate_backed h s sessions :
  hoare resp free h s (terminate_sessions sessions) (λ h' _ failures, later h h' ∧
    (failures = [] → ∀ x, x ∈ sessions → Ev (TerminateSession x) true ∈ h')).
Proof.
  revert h s. induction sessions as [|x sessions IH]; intros h s; cbn [terminate_sessions].
  { apply hoare_ret. split; [later_tac|set_solver]. }
  apply hoare_bind, hoare_call; [done|]. intros performed. apply hoare_bind. eapply hoare_mono; [apply IH|].
  intros h' s' failures [Hl Hf]. apply hoare_ret. split; [etransitivity; [apply later_cons|done]|].
  destruct performed; [|done]. simpl. intros Hnil y [->|Hy]%elem_of_cons; [|by apply Hf].
  eapply later_elem; [exact Hl|]. by left.
Qed.

Lemma contain_sessions_backed severity h s :
  hoare resp free h s (contain_sessions severity) (λ h' _ r, later h h' ∧ (r.1.1 = true → r.2 = [] →
    ∃ sessions, Ev (resp := resp) ListSessions (Some sessions) ∈ h' ∧
      ∀ x, x ∈ sessions → isOrdinaryTarget x = true → session_contained h' severity x)).
Proof.
  unfold contain_sessions. apply hoare_bind, hoare_call; [done|]. intros [sessions|]; [|apply hoare_ret; split; [later_tac|done]].
  apply hoare_bind. eapply hoare_mono; [apply select_backed|]. intros h1 s1 [news ends] [Hl1 Hsel]. simpl in Hsel.
  apply hoare_bind. eapply (hoare_mono _ _ _ _ _ _ (λ h' _ _, later h1 h')).
  { unfold registerSessionTargets. hsteps; try later_tac. destruct (merge_targets _ _) as [[m []]|]; hsteps; later_tac. }
  intros h2 s2 registered Hl2. apply hoare_bind. eapply hoare_mono; [apply terminate_backed|]. intros h3 s3 failures [Hl3 Hterm].
  assert (later h1 h3) as Hl13 by (by etransitivity).
  assert (∀ h', later h1 h' → later h h') as Hh by (intros h' Hl; etransitivity; [|exact Hl]; etransitivity; [apply later_cons|exact Hl1]).
  assert (∀ h', later h1 h' → Ev (resp := resp) ListSessions (Some sessions) ∈ h') as Hlist.
  { intros h' Hl. eapply later_elem; [exact Hl|]. eapply later_elem; [exact Hl1|]. by left. }
  cbv beta. apply hoare_bind. destruct registered; [|apply hoare_ret, hoare_ret; split; [by apply Hh|done]]. cbn [fail_unless app].
  assert (∀ h', later h3 h' → (∀ x, x ∈ ends → ∃ l, x ∈ l ∧ Ev (VerifySessionsGone l) true ∈ h') → failures = [] →
    ∃ sessions, Ev (resp := resp) ListSessions (Some sessions) ∈ h' ∧
      ∀ x, x ∈ sessions → isOrdinaryTarget x = true → session_contained h' severity x) as Hconc.
  { intros h' Hl Hgone Hnil. assert (later h1 h') by (by etransitivity). exists sessions. split; [by apply Hlist|].
    intros x Hx Hox. destruct (Hsel x Hx Hox) as [[? Hv]|Hend]; [left; split; [done|by eapply later_elem]|right].
    split; [|by apply Hgone]. eapply later_elem; [exact Hl|]. by apply Hterm. }
  destruct ends as [|x0 ends].
  - apply hoare_ret, hoare_ret. split; [by apply Hh|]. intros _ Hnil. simpl in Hnil. rewrite app_nil_r in Hnil.
    apply Hconc; [later_tac|set_solver|done].
  - apply hoare_call; [done|]. intros gone. apply hoare_ret. split; [apply Hh; later_tac|]. simpl. intros -> Hnil.
    simpl in Hnil. rewrite app_nil_r in Hnil. apply Hconc; [later_tac| |done]. intros x Hx. exists (x0 :: ends). split; [done|by left].
Qed.

Lemma rearm_backed h s obligations :
  hoare resp free h s (rearm obligations) (λ h' _ p, later h h' ∧ (p_proven p = true →
    ∀ t, t ∈ obligations → user_gone h' t ∨
      ∃ t', t' ∈ p_targets p ∧ uid t' = uid t ∧ canonicalName t' = canonicalName t ∧ runtimeObligation t' = Pending)).
Proof.
  revert h s. induction obligations as [|t rest IH]; intros h s; cbn [rearm].
  { apply hoare_ret. split; [later_tac|set_solver]. }
  assert (∀ h1 s1 t' c v f, later h h1 → (v = true → user_gone h1 t ∨
      uid t' = uid t ∧ canonicalName t' = canonicalName t ∧ runtimeObligation t' = Pending) →
    hoare resp free h1 s1 (p ← rearm rest; ret (pass_add t' c v f p)) (λ h' _ p, later h h' ∧ (p_proven p = true →
      ∀ x, x ∈ t :: rest → user_gone h' x ∨
        ∃ t', t' ∈ p_targets p ∧ uid t' = uid x ∧ canonicalName t' = canonicalName x ∧ runtimeObligation t' = Pending))) as Hrest.
  { intros h1 s1 t' c v f Hl Ht. apply hoare_bind. eapply hoare_mono; [apply IH|]. intros h2 s2 p [Hl2 Hp]. apply hoare_ret.
    split; [by etransitivity|]. simpl. intros [Hv Hpp]%andb_true_iff x [->|Hx]%elem_of_cons.
    - destruct (Ht Hv) as [Hg|Hid]; [left; by eapply user_gone_later|right]. exists t'. split; [by left|done].
    - destruct (Hp Hpp x Hx) as [?|(y & Hy & ?)]; [by left|right]. exists y. split; [by right|done]. }
  destruct (runtimeObligation t) eqn:Hob; [apply Hrest; [later_tac|auto]|]. apply hoare_bind, hoare_call; [done|]. intros lookup.
  destruct (lookup_status lookup).
  - apply Hrest; [later_tac|auto].
  - apply hoare_bind, hoare_call; [done|]. intros gone. apply Hrest; [later_tac|]. intros ->. left.
    eexists. split_and!; [| |by left]; done.
  - apply Hrest; [later_tac|done].
Qed.

Lemma discharge_backed h s obligations :
  hoare resp free h s (discharge obligations) (λ h' _ p, later h h' ∧ (p_proven p = true →
    ∀ t, t ∈ obligations → runtimeObligation t = Pending → user_gone h' t)).
Proof.
  revert h s. induction obligations as [|t rest IH]; intros h s; cbn [discharge].
  { apply hoare_ret. split; [later_tac|set_solver]. }
  assert (∀ h1 s1 (f : pass → pass) (v : bool), later h h1 → (∀ p, p_proven (f p) = v && p_proven p) →
      (v = true → runtimeObligation t = Pending → user_gone h1 t) →
    hoare resp free h1 s1 (p ← discharge rest; ret (f p)) (λ h' _ p, later h h' ∧ (p_proven p = true →
      ∀ x, x ∈ t :: rest → runtimeObligation x = Pending → user_gone h' x))) as Hrest.
  { intros h1 s1 f v Hl Hf Hv. apply hoare_bind. eapply hoare_mono; [apply IH|]. intros h2 s2 p [Hl2 Hp]. apply hoare_ret.
    split; [by etransitivity|]. rewrite Hf. intros [Hvt Hpp]%andb_true_iff x [->|Hx]%elem_of_cons Hpx; [|by apply Hp].
    eapply user_gone_later; [exact Hl2|auto]. }
  destruct (runtimeObligation t) eqn:Hob; cycle 1.
  { apply (Hrest _ _ (pass_add t false true []) true); [later_tac|done|done]. }
  apply hoare_bind, hoare_call; [done|]. intros lookup. case_bool_decide.
  { apply (Hrest _ _ (pass_add t false false _) false); [later_tac|done|done]. }
  apply hoare_bind, hoare_call; [done|]. intros performed. apply hoare_bind, hoare_call; [done|]. intros gone.
  apply (Hrest _ _ (λ p, if gone then _ else _) gone); [later_tac|by destruct gone|].
  intros -> _. eexists. split_and!; [| |by left]; done.
Qed.

Lemma contain_registered_backed h s store :
  hoare resp free h s (contain_registered store) (λ h' _ r, later h h' ∧ (r.1 = true →
    ∀ t, t ∈ tr_targets store → user_gone h' t)).
Proof.
  unfold contain_registered. apply hoare_bind. eapply hoare_mono; [apply rearm_backed|]. intros h1 s1 armed [Hl1 Harm].
  apply hoare_bind. eapply (hoare_mono _ _ _ _ _ _ (λ h' _ _, later h1 h')).
  { unfold persist_rearmed. hsteps; later_tac. }
  intros h2 s2 [[rearmed store'] failures] Hl2. cbv beta. apply hoare_bind.
  eapply (hoare_mono _ _ _ _ _ _ (λ h' _ p, later h2 h' ∧ (rearmed = true → p_proven p = true →
    ∀ t, t ∈ p_targets armed → runtimeObligation t = Pending → user_gone h' t))).
  { destruct rearmed; [|by apply hoare_ret]. eapply hoare_mono; [apply discharge_backed|].
    intros h3 s3 p [Hl3 Hp]. split; [done|]. intros _. exact Hp. }
  intros h3 s3 done [Hl3 Hdone]. cbv beta. assert (later h1 h3) as Hl13 by (by etransitivity).
  assert (∀ h' (b : bool), later h3 h' → p_proven armed && rearmed && p_proven done && b = true →
    ∀ t, t ∈ tr_targets store → user_gone h' t) as Hconc.
  { intros h' b Hl [[[Ha Hr]%andb_true_iff Hd]%andb_true_iff _]%andb_true_iff t Ht. subst.
    eapply user_gone_later; [exact Hl|]. destruct (Harm Ha t Ht) as [Hg|(t' & Ht' & Hu & Hn & Hp)]; [by eapply user_gone_later|].
    destruct (Hdone eq_refl Hd t' Ht' Hp) as (u & ? & ? & ?). exists u. split_and!; congruence. }
  hsteps; (split; [etransitivity; [exact Hl1|]; etransitivity; [exact Hl13|]; later_tac|cbn [fst]; eapply Hconc; later_tac]).
Qed.

Lemma contain_users_backed usable h s :
  hoare resp free h s (contain_users usable) (λ h' _ r, later h h' ∧ (r.1 = true →
    ∃ store : TargetReadResult, Ev (resp := resp) TargetRead store ∈ h' ∧ tr_provenance store = TProven ∧
      ∀ t, t ∈ tr_targets store → user_gone h' t)).
Proof.
  unfold contain_users. apply hoare_bind, hoare_call; [done|]. intros store. apply hoare_bind.
  eapply (hoare_mono _ _ _ _ _ _ (λ h' _ b, later (Ev TargetRead store :: h) h' ∧ (b = true → tr_provenance store = TProven))).
  - case_bool_decide; [|apply hoare_ret; split; [later_tac|done]]. apply hoare_bind, hoare_call; [done|]. intros boot.
    apply hoare_bind, hoare_get, hoare_ret. split; [later_tac|done].
  - intros h1 s1 b [Hl Hb]. assert (later h h1) as Hl' by (etransitivity; [apply later_cons|exact Hl]).
    cbv beta. destruct (negb b || negb usable) eqn:Hbu; [by apply hoare_ret|].
    apply orb_false_iff in Hbu as [->%negb_false_iff _].
    eapply hoare_mono; [apply contain_registered_backed|]. intros h2 s2 r [Hl2 Hr]. split; [by etransitivity|].
    intros Hok. exists store. split_and!; [|by apply Hb|by apply Hr].
    eapply later_elem; [exact Hl2|]. eapply later_elem; [exact Hl|]. by left.
Qed.

(** The evidence of the two phases of a containment. *)
Definition sessions_backed (h : history) (severity : IncidentSeverity) : Prop :=
  ∃ sessions, Ev (resp := resp) ListSessions (Some sessions) ∈ h ∧
    ∀ x, x ∈ sessions → isOrdinaryTarget x = true → session_contained h severity x.
Definition users_backed (h : history) : Prop :=
  ∃ store : TargetReadResult, Ev (resp := resp) TargetRead store ∈ h ∧ tr_provenance store = TProven ∧
    ∀ t, t ∈ tr_targets store → user_gone h t.

Lemma sessions_backed_later h h' severity : later h h' → sessions_backed h severity → sessions_backed h' severity.
Proof.
  intros Hl (l & Hin & Hall). exists l. split; [by eapply later_elem|]. intros x Hx Hox.
  destruct (Hall x Hx Hox) as [[? Hv]|(Ht & k & Hk & Hg)]; [left|right].
  - split; [done|by eapply later_elem].
  - split; [by eapply later_elem|]. exists k. split; [done|by eapply later_elem].
Qed.

(** What must have happened for a severity to count as contained. *)
Record contained (h : history) (severity : IncidentSeverity) : Prop := {
  cn_network : Ev (ApplyQuarantine (bool_decide (severity = Isolate))) true ∈ h;
  cn_gate : sev_le Standard severity → Ev (resp := resp) VerifyGate (Some true) ∈ h;
  cn_sessions : sev_le Standard severity → sessions_backed h severity;
  cn_users : severity = Isolate → users_backed h
}.

Lemma contained_later h h' severity : later h h' → contained h severity → contained h' severity.
Proof.
  intros Hl [Hn Hg Hs Hu]. split.
  - by eapply later_elem.
  - intros Hle. eapply later_elem; [done|auto].
  - intros Hle. eapply sessions_backed_later; [done|auto].
  - intros Hi. destruct (Hu Hi) as (store & Hin & Hp & Hall). exists store. split_and!; [by eapply later_elem|done|].
    intros t Ht. eapply user_gone_later; [done|auto].
Qed.

Lemma gate_backed w h s :
  hoare resp free h s (verify_gate w) (λ h' _ b, later h h' ∧ (b = true → Ev (resp := resp) VerifyGate (Some true) ∈ h')).
Proof.
  unfold verify_gate. destruct (has_verifier w); [|apply hoare_ret; split; [later_tac|done]].
  apply hoare_bind, hoare_call; [done|]. intros [[]|]; (apply hoare_ret; split; [later_tac|try done]). intros _. by left.
Qed.

Lemma prepare_free h s : hoare resp free h s prepareActiveTargetStore (λ h' _ _, later h h').
Proof. unfold prepareActiveTargetStore. hsteps; later_tac. Qed.

Lemma fail_unless_nil b l : fail_unless b l = [] ↔ b = true.
Proof. by destruct b. Qed.

Lemma strong_le severity : incidentSeverityAtLeast severity Standard = true ↔ sev_le Standard severity.
Proof. unfold incidentSeverityAtLeast, sev_le. apply Z.leb_le. Qed.
Lemma weak_not_strong severity : incidentSeverityLess severity Standard = negb (incidentSeverityAtLeast severity Standard).
Proof. by destruct severity. Qed.

(** A containment: the controller's runtime state is the one it returns, and a
    success is backed by what happened. *)
Definition containment_result (severity : IncidentSeverity) (h : history) (s : Ctl) (r : IncidentResult) : Prop :=
  runtime s = r_runtime r ∧ r_effective r = severity ∧ r_persistenceConfirmed r = false ∧
  (r_ok r = true → if bool_decide (severity = Unlocked)
                   then r_runtime r = Inactive ∧ Ev (ApplyQuarantine false) true ∈ h
                   else r_runtime r = Active ∧ contained h severity) ∧
  (r_ok r = false → r_runtime r = Degraded).

Lemma finish_backed severity gate cont users network lifecycle sfails ufails h s :
  severity ≠ Unlocked →
  (gate = true → Ev (resp := resp) VerifyGate (Some true) ∈ h) →
  Ev (ApplyQuarantine (bool_decide (severity = Isolate))) network ∈ h →
  (sev_le Standard severity → cont = true → sfails = [] → sessions_backed h severity) →
  (severity = Isolate → users = true → users_backed h) →
  hoare resp free h s
    (finish_containment severity (mkContainment gate cont users (bool_decide (severity = Isolate) && network))
      (fail_unless (negb (incidentSeverityAtLeast severity Standard) || gate) "PAM incident access gate is unproven" ++
       fail_unless network "network action failed" ++
       fail_unless lifecycle "incident target lifecycle is unproven" ++ sfails ++ ufails))
    (λ h' s' r, h' = h ∧ containment_result severity h' s' r).
Proof.
  intros Hun Hgate Hnet Hsess Husers. unfold finish_containment. apply hoare_bind, hoare_modify, hoare_ret. split; [done|].
  match goal with |- containment_result _ _ _ (mkResult ?b _ _ _ _ _ _ _) => destruct b eqn:Hok end; unfold containment_result; simpl;
    rewrite (bool_decide_false (severity = Unlocked)) by done; split_and!; try done.
  intros _. split; [done|]. apply andb_true_iff in Hok as [[Hf%bool_decide_eq_true Hstrong]%andb_true_iff Hiso].
  apply app_eq_nil in Hf as [_ Hf]. apply app_eq_nil in Hf as [Hn Hf]. apply app_eq_nil in Hf as [_ Hf]. apply app_eq_nil in Hf as [Hsf _].
  apply fail_unless_nil in Hn. subst network. rewrite weak_not_strong in Hstrong.
  assert (sev_le Standard severity → gate = true ∧ cont = true) as Hboth.
  { intros Hle%strong_le. rewrite Hle in Hstrong. by apply andb_true_iff in Hstrong. }
  split; [done|intros Hle; by apply Hgate, Hboth|intros Hle; apply Hsess; [done|by apply Hboth|done]|].
  intros ->. apply Husers; [done|]. by destruct users.
Qed.

Lemma containment_backed w severity allow h s :
  hoare resp free h s (applyContainment w severity allow) (λ h' s' r, later h h' ∧ containment_result severity h' s' r).
Proof.
  unfold applyContainment. apply hoare_bind, hoare_modify, hoare_bind.
  eapply (hoare_mono _ _ _ _ _ _ (λ h' _ b, later h h' ∧ (b = true → Ev (resp := resp) VerifyGate (Some true) ∈ h'))).
  { destruct (incidentSeverityAtLeast _ _); [apply gate_backed|apply hoare_ret; split; [later_tac|done]]. }
  intros h1 s1 gate [Hl1 Hgate]. cbv beta. unfold incidentSeverityIsUnlocked. case_bool_decide as Hun.
  { unfold release_containment. apply hoare_bind, hoare_modify, hoare_bind, hoare_call; [done|]. intros ok.
    apply hoare_bind, hoare_modify, hoare_ret. split; [later_tac|]. unfold containment_result. simpl. rewrite bool_decide_true by done.
    split_and!; try done; intros ->; [split; [done|by left]|done]. }
  apply hoare_bind. unfold contain_network. apply hoare_bind, hoare_modify, hoare_call; [done|]. intros network. cbv beta.
  apply hoare_bind. eapply hoare_mono; [destruct allow; [apply prepare_free|apply hoare_ret; reflexivity]|].
  intros h3 s3 lifecycle Hl3. cbv beta. apply hoare_bind.
  eapply (hoare_mono _ _ _ _ _ _ (λ h' _ r, later h3 h' ∧
    (sev_le Standard severity → r.1.1 = true → r.2 = [] → sessions_backed h' severity))).
  { destruct (_ && lifecycle).
    - eapply hoare_mono; [apply contain_sessions_backed|]. intros h4 s4 r [Hl4 Hr]. split; [done|]. intros _. exact Hr.
    - apply hoare_ret. split; [later_tac|]. simpl. intros ->%strong_le. done. }
  intros h4 s4 [[cont usable] sfails] [Hl4 Hsess]. cbv beta. simpl in Hsess. apply hoare_bind.
  eapply (hoare_mono _ _ _ _ _ _ (λ h' _ r, later h4 h' ∧ (severity = Isolate → r.1 = true → users_backed h'))).
  { case_bool_decide as Hiso; [|apply hoare_ret; split; [later_tac|done]]. destruct (has_sessions w && lifecycle).
    - eapply hoare_mono; [apply contain_users_backed|]. intros h5 s5 r [Hl5 Hr]. split; [done|]. intros _. exact Hr.
    - apply hoare_ret. split; [later_tac|done]. }
  intros h5 s5 [users ufails] [Hl5 Husers]. cbn [fst snd] in *.
  assert (later h3 h5) as Hl35 by (by etransitivity).
  eapply hoare_mono; [apply finish_backed|intros h' s' r [-> Hr]; split; [|exact Hr]]; [done| | | |done|].
  - intros Hg. apply (later_elem h1); [|by apply Hgate]. etransitivity; [apply later_cons|]. etransitivity; [exact Hl3|done].
  - apply (later_elem h3); [done|]. apply (later_elem _ _ _ Hl3). by left.
  - intros Hle Hc Hnil. apply (sessions_backed_later h4); [done|]. by apply Hsess.
  - etransitivity; [exact Hl1|]. etransitivity; [apply later_cons|]. etransitivity; [exact Hl3|done].
Qed.

(** ** Raising *)

(** Audit and notification leave the runtime state alone. *)
Definition quiet {A} (p : Ctrl A) : Prop := ∀ h s, hoare resp free h s p (λ h' s' _, later h h' ∧ runtime s' = runtime s).

Lemma quiet_audit w event result source reason : quiet (recordAudit w event result source reason).
Proof. intros h s. unfold recordAudit. hsteps; (split; [later_tac|done]). Qed.
Lemma quiet_notify w severity reason : quiet (notifySeverity w severity reason).
Proof. intros h s. unfold notifySeverity. hsteps; (split; [later_tac|done]). Qed.
Lemma quiet_ret {A} (a : A) : quiet (ret a).
Proof. intros h s. apply hoare_ret. split; [later_tac|done]. Qed.

Lemma quiet_then {A B} (p : Ctrl A) (f : A → Ctrl B) h s Q :
  quiet p → (∀ h' s' a, later h h' → runtime s' = runtime s → hoare resp free h' s' (f a) Q) → hoare resp free h s (sbind p f) Q.
Proof. intros Hp Hf. apply hoare_bind. eapply hoare_mono; [apply Hp|]. intros h' s' a [Hl Hr]. by apply Hf. Qed.

Definition is_write (c : Call) : bool :=
  match c with StateRaise _ | StateClear | StateEncode | TargetWrite _ _ _ _ => true | _ => false end.

(** The outcome of a raise. *)
(** The response mode was resolved to OFF. *)
Definition switched_off (h : history) : Prop :=
  ∃ m, Ev (resp := resp) ResolveMode (Some m) ∈ h ∧ response_mode m = ModeOff.

Record raise_backed (requested : IncidentSeverity) (h : history) (s : Ctl) (r : IncidentResult) : Prop := {
  rb_ignored : r_ignoredByMode r = true → r_persistenceConfirmed r = false ∧ switched_off h ∧
    ∀ e, e ∈ h → is_write (ev_call e) = false;
  rb_confirmed : r_persistenceConfirmed r = true → ∃ x : RaiseResult, Ev (StateRaise requested) x ∈ h ∧ durable x = true ∧
    r_effective r = effectiveSeverity x ∧ r_escalated r = escalated x;
  rb_tried : r_ignoredByMode r = false →
    (∃ x : RaiseResult, Ev (StateRaise requested) x ∈ h ∧ r_effective r = if durable x then effectiveSeverity x else Isolate) ∨
    (∃ x : RaiseResult, Ev (resp := resp) StateEncode x ∈ h ∧ r_effective r = Isolate);
  rb_failed : r_ignoredByMode r = false → r_persistenceConfirmed r = false → r_ok r = false ∧ r_effective r = Isolate;
  rb_active : r_runtime r = Active → contained h (r_effective r);
  rb_runtime : runtime s = r_runtime r
}.

Lemma settle_backed mode severity h s :
  hoare resp free h s (settleNonActiveMode mode severity) (λ h' s' r, later h h' ∧ runtime s' = r_runtime r ∧
    r_effective r = severity ∧ r_runtime r ≠ Active ∧ h' = Ev (ApplyQuarantine false) (r_ok r) :: h).
Proof.
  unfold settleNonActiveMode. apply hoare_bind, hoare_modify, hoare_bind, hoare_call; [done|]. intros ok.
  apply hoare_bind, hoare_modify, hoare_ret. split_and!; [later_tac|done|done|by destruct ok|done].
Qed.

Lemma containment_active severity h s r : containment_result severity h s r → r_runtime r = Active → contained h severity.
Proof.
  intros (_ & _ & _ & Hok & Hno) Hact. destruct (r_ok r); [|by rewrite Hno in Hact].
  specialize (Hok eq_refl). case_bool_decide; [destruct Hok; congruence|by destruct Hok].
Qed.

Lemma raise_durable_backed w mode requested (x : RaiseResult) h s result source reason :
  Ev (StateRaise requested) x ∈ h → durable x = true → r_persistenceConfirmed result = true →
  r_effective result = effectiveSeverity x → r_escalated result = escalated x →
  hoare resp free h s (raise_durable w mode result source reason) (raise_backed requested).
Proof.
  intros Hin Hd Hc He Hesc. unfold raise_durable. apply hoare_bind.
  eapply (hoare_mono _ _ _ _ _ _ (λ h' s' r, later h h' ∧ runtime s' = r_runtime r ∧
    (r_runtime r = Active → contained h' (r_effective result)))).
  { destruct (bool_decide _).
    - eapply hoare_mono; [apply settle_backed|]. intros h' s' r (? & ? & _ & Hn & _). by split_and!.
    - apply hoare_bind, hoare_modify. eapply hoare_mono; [apply containment_backed|]. intros h' s' r [Hl Hr].
      split_and!; [done|apply Hr|by eapply containment_active]. }
  intros h1 s1 r1 (Hl1 & Hrt & Hact). cbv beta zeta. apply quiet_then; [apply quiet_audit|]. intros h2 s2 _ Hl2 Hs2.
  apply quiet_then; [destruct (r_escalated _); [apply quiet_notify|apply quiet_ret]|]. intros h3 s3 _ Hl3 Hs3. apply hoare_ret.
  assert (Ev (StateRaise requested) x ∈ h3) as Hx by (apply (later_elem h); [|done]; etransitivity; [exact Hl1|by etransitivity]).
  split; simpl; try congruence.
  - intros _. by exists x.
  - intros _. left. exists x. by rewrite Hd.
  - intros Ha. apply (contained_later h1); [by etransitivity|auto].
Qed.

Lemma raise_undurable_backed w mode requested (x : RaiseResult) h s result source reason :
  Ev (StateRaise requested) x ∈ h → durable x = false →
  hoare resp free h s (raise_undurable w mode result source reason) (raise_backed requested).
Proof.
  intros Hin Hd. assert (∀ h', later h h' → (∃ x : RaiseResult, Ev (StateRaise requested) x ∈ h' ∧
    Isolate = if durable x then effectiveSeverity x else Isolate) ∨ (∃ x : RaiseResult, Ev (resp := resp) StateEncode x ∈ h' ∧ Isolate = Isolate)) as Htried.
  { intros h' Hl. left. exists x. rewrite Hd. split; [by eapply later_elem|done]. }
  unfold raise_undurable. destruct (bool_decide _).
  - apply hoare_bind. eapply hoare_mono; [apply settle_backed|]. intros h1 s1 r1 (Hl1 & Hrt & He & Hn & _). cbv beta zeta.
    apply quiet_then; [apply quiet_audit|]. intros h2 s2 _ Hl2 Hs2. apply quiet_then; [apply quiet_notify|].
    intros h3 s3 _ Hl3 Hs3. apply hoare_ret. rewrite He in *. split; simpl in *; try done; intros; try congruence; try by split.
    apply Htried. etransitivity; [exact Hl1|by etransitivity].
  - apply hoare_bind. eapply hoare_mono; [apply containment_backed|]. intros h1 s1 r1 (Hl1 & _ & _ & Hc & _). cbv beta zeta.
    apply hoare_bind, hoare_modify. apply quiet_then; [apply quiet_audit|]. intros h2 s2 _ Hl2 Hs2.
    apply quiet_then; [apply quiet_audit|]. intros h3 s3 _ Hl3 Hs3. apply quiet_then; [apply quiet_notify|].
    intros h4 s4 _ Hl4 Hs4. apply hoare_ret. split; simpl in *; try done; intros; try congruence; try by split.
    apply Htried. etransitivity; [exact Hl1|]. etransitivity; [exact Hl2|by etransitivity].
Qed.

Lemma raise_unfenced_backed w mode requested before h s source reason :
  hoare resp free h s (raise_unfenced w mode before source reason) (raise_backed requested).
Proof.
  unfold raise_unfenced. apply hoare_bind, hoare_call; [done|]. intros broken. apply hoare_bind.
  eapply (hoare_mono _ _ _ _ _ _ (λ h' _ _, later (Ev StateEncode broken :: h) h')).
  { destruct (bool_decide _); (eapply hoare_mono; [apply containment_backed || apply settle_backed|by intros ? ? ? [? _]]). }
  intros h1 s1 _ Hl1. apply hoare_bind, hoare_modify. apply quiet_then; [apply quiet_audit|]. intros h2 s2 _ Hl2 Hs2.
  apply quiet_then; [apply quiet_notify|]. intros h3 s3 _ Hl3 Hs3. apply hoare_ret. split; simpl in *; try done; intros; try congruence; try by split.
  right. exists broken. split; [|done]. apply (later_elem (Ev (resp := resp) StateEncode broken :: h)); [etransitivity; [exact Hl1|by etransitivity]|by left].
Qed.

Lemma raise_is_backed w requested source reason s : hoare resp free [] s (raise w requested source reason) (raise_backed requested).
Proof.
  unfold raise. apply hoare_bind. eapply (hoare_mono _ _ _ _ _ _ (λ h' _ m, (∀ e, e ∈ h' → is_write (ev_call e) = false) ∧
    (response_mode m = ModeOff → switched_off h'))).
  { unfold controllerMode. hsteps; (split; [intros e He; try (apply list_elem_of_singleton in He as ->); done || inversion He|]).
    - intros Hm. destruct x as [m|]; [|done]. exists m. split; [by left|done].
    - done. }
  intros h0 s0 mode [Hfree Hoff]. cbv beta zeta. case_bool_decide as Hm.
  { destruct (Hoff Hm) as (m & Hin & Hmode). unfold raise_ignored. apply hoare_bind, hoare_call; [done|]. intros current. apply hoare_bind.
    eapply hoare_mono; [apply settle_backed|]. intros h1 s1 r1 (_ & Hrt & _ & Hn & ->). apply hoare_ret.
    split; simpl; try done. intros _. split_and!; [done|by exists m; split; [by do 2 right|]|].
    intros e [->|[->|He]%elem_of_cons]%elem_of_cons; [done|done|auto]. }
  apply hoare_bind, hoare_call; [done|]. intros before. apply hoare_bind.
  eapply (hoare_mono _ _ _ _ _ _ (λ _ _ _, True)).
  { unfold fenceNewIncident. hsteps; done. }
  intros h1 s1 fenced _. cbv beta. destruct (negb fenced); [apply raise_unfenced_backed|].
  apply hoare_bind, hoare_call; [done|]. intros raised. apply hoare_bind, hoare_call; [done|]. intros after. cbv beta zeta.
  destruct (durable raised) eqn:Hd; [|apply (raise_undurable_backed w _ requested raised); [right; by left|done]].
  apply (raise_durable_backed w _ requested raised); [right; by left|done..].
Qed.

(** ** Clearing *)

(** The targets were replaced by none, under the next generation. *)
Definition targets_cleared (h : history) : Prop :=
  ∃ (store : TargetReadResult) bootId, Ev (resp := resp) TargetRead store ∈ h ∧ tr_provenance store ≠ TUnprovable ∧
    Ev (TargetWrite store bootId (if bool_decide (tr_provenance store = TProven) then tr_generation store + 1 else 1)%Z []) true ∈ h.

Record clear_backed (h : history) (s : Ctl) (r : IncidentResult) : Prop := {
  cb_store : ∃ x : ClearResult, Ev (resp := resp) StateClear x ∈ h ∧ r_effective r = clear_effective x ∧
    r_persistenceConfirmed r = clear_ok x;
  cb_ok : r_ok r = true → r_persistenceConfirmed r = true ∧ targets_cleared h ∧ Ev (ApplyQuarantine false) true ∈ h;
  cb_fresh : r_persistenceConfirmed r = true → incidentGeneration s = None ∧ lastNotified s = None;
  cb_runtime : runtime s = r_runtime r
}.

Lemma targets_cleared_later h h' : later h h' → targets_cleared h → targets_cleared h'.
Proof. intros Hl (st & b & ? & ? & ?). exists st, b. split_and!; [by eapply later_elem|done|by eapply later_elem]. Qed.

Lemma clean_targets_backed h s :
  hoare resp free h s clean_targets (λ h' s' b, later h h' ∧ incidentGeneration s' = None ∧ (b = true → targets_cleared h')).
Proof.
  unfold clean_targets. apply hoare_bind, hoare_call; [done|]. intros boot. apply hoare_bind, hoare_call; [done|]. intros store.
  set (h1 := _ :: _ :: h). assert (later h h1) as Hl by (unfold h1; later_tac).
  assert (Ev (resp := resp) TargetRead store ∈ h1) as Hin by (by left). clearbody h1. apply hoare_bind.
  eapply (hoare_mono _ _ _ _ _ _ (λ h' _ b, later h h' ∧ (b = true → targets_cleared h'))).
  - destruct (String.eqb boot ""); [by apply hoare_ret|]. case_bool_decide as Hu; [by apply hoare_ret|].
    destruct (_ && _); [by apply hoare_ret|]. apply hoare_call; [done|]. intros written. split; [later_tac|]. intros ->.
    exists store, boot. split_and!; [by right|done|by left].
  - intros h2 s2 b [Hl2 Hb]. apply hoare_bind, hoare_modify, hoare_ret. by split_and!.
Qed.

(** Leaving the containment at UNLOCKED: the generation stays, a success is the
    removal of the quarantine. *)
Lemma release_backed w mode h s :
  hoare resp free h s (settle_or_contain w mode Unlocked) (λ h' s' r, later h h' ∧ runtime s' = r_runtime r ∧
    incidentGeneration s' = incidentGeneration s ∧ (r_ok r = true → Ev (ApplyQuarantine false) true ∈ h')).
Proof.
  unfold settle_or_contain. destruct (bool_decide _).
  - unfold applyContainment, release_containment. simpl. hsteps; (split_and!; [later_tac|done|done|intros Hx; simpl in Hx; subst; by left]).
  - unfold settleNonActiveMode. hsteps; (split_and!; [later_tac|done|done|intros Hx; simpl in Hx; subst; by left]).
Qed.

Lemma settle_or_contain_runtime w mode severity h s :
  hoare resp free h s (settle_or_contain w mode severity) (λ h' s' r, later h h' ∧ runtime s' = r_runtime r).
Proof.
  unfold settle_or_contain. destruct (bool_decide _).
  - eapply hoare_mono; [apply containment_backed|]. intros h' s' r [? Hr]. split; [done|apply Hr].
  - eapply hoare_mono; [apply settle_backed|]. intros h' s' r (? & ? & _). done.
Qed.

Lemma audit_keeps w event result source reason h s :
  hoare resp free h s (recordAudit w event result source reason) (λ h' s' _, later h h' ∧ s' = s).
Proof. unfold recordAudit. hsteps; (split; [later_tac|done]). Qed.

Lemma clear_is_backed w actor s : hoare resp free [] s (clear w actor) clear_backed.
Proof.
  unfold clear. apply hoare_bind. eapply (hoare_mono _ _ _ _ _ _ (λ _ _ _, True)); [unfold controllerMode; hsteps; done|].
  intros h0 s0 mode _. cbv beta zeta. apply hoare_bind, hoare_modify, hoare_bind, hoare_call; [done|]. intros before.
  apply hoare_bind, hoare_call; [done|]. intros cleared. apply hoare_bind, hoare_call; [done|]. intros after.
  set (h1 := _ :: _ :: _ :: h0). assert (Ev (resp := resp) StateClear cleared ∈ h1) as Hin by (right; by left). clearbody h1.
  destruct (clear_ok cleared) eqn:Hok; cbn [negb].
  - apply hoare_bind. eapply hoare_mono; [apply clean_targets_backed|]. intros h2 s2 cleaned (Hl2 & Hgen & Hcl). cbv beta.
    apply hoare_bind. eapply hoare_mono; [apply release_backed|]. intros h3 s3 r3 (Hl3 & Hrt & Hg3 & Hq). cbv beta.
    apply hoare_bind. eapply (hoare_mono _ _ _ _ _ _ (λ h' s' _, h' = h3 ∧ incidentGeneration s' = None ∧
      runtime s' = (if cleaned then r_runtime r3 else Degraded))).
    { destruct cleaned; [apply hoare_ret|apply hoare_modify]; (split_and!; [done|simpl; congruence|done]). }
    intros h4 s4 _ (-> & Hg4 & Hr4). cbv beta zeta. apply hoare_bind, hoare_modify, hoare_bind.
    eapply hoare_mono; [apply audit_keeps|]. intros h5 s5 _ [Hl5 ->]. cbv beta. apply hoare_bind.
    eapply (hoare_mono _ _ _ _ _ _ (λ h' s' _, later h5 h' ∧ s' = set_notified None s4)).
    { destruct (_ && has_notify w); [apply hoare_call; [done|intros ?]|apply hoare_ret]; (split; [later_tac|done]). }
    intros h6 s6 _ [Hl6 ->]. apply hoare_ret.
    assert (later h3 h6) as Hl36 by (by etransitivity). assert (later h2 h6) as Hl26 by (by etransitivity). split; simpl.
    + exists cleared. split_and!; [|done|by rewrite Hok]. apply (later_elem h1); [by etransitivity|done].
    + intros [Ho ->]%andb_true_iff. split_and!; [done|by apply (targets_cleared_later h2); auto|by apply (later_elem h3); auto].
    + done.
    + done.
  - apply hoare_bind. eapply hoare_mono; [apply settle_or_contain_runtime|]. intros h2 s2 r2 [Hl2 Hrt]. cbv beta zeta.
    apply hoare_bind. eapply (hoare_mono _ _ _ _ _ _ (λ h' s' _, h' = h2 ∧
      runtime s' = (if bool_decide (clear_persistence cleared = DurableConfirmed) then r_runtime r2 else Degraded))).
    { destruct (bool_decide _); [apply hoare_ret|apply hoare_modify]; done. }
    intros h3 s3 _ [-> Hr3]. cbv beta. apply hoare_bind. eapply hoare_mono; [apply audit_keeps|]. intros h4 s4 _ [Hl4 ->].
    apply hoare_ret. split; simpl; [|done|done|done].
    exists cleared. split_and!; [|done|by rewrite Hok]. apply (later_elem h1); [by etransitivity|done].
Qed.

(** * Properties *)

(** C28. A raise reports what happened, whatever the components answer. It
    confirms persistence only if the state store answered this request with a
    durable outcome, and reports that outcome's severity; if it neither confirms
    persistence nor ignored the event by mode, it reports failure and ISOLATE;
    unless it ignored the event, it did ask the state store to raise this
    severity, and what it reports is that answer (ISOLATE for one that is not
    durable), or, when the incident could not be fenced, to encode it as absence;
    an ignored event caused no write at all, and an event is ignored only when
    the response mode was resolved to OFF; it reports an ACTIVE containment
    only when the containment of the reported severity is backed; and the
    controller's runtime state is the one reported. *)
Theorem raise_reports_what_happened w requested source reason s (E : Type) (handle : ∀ c, E → resp c * E) (e : E) :
  let out := run resp handle (raise w requested source reason s) [] e in
  raise_backed requested out.1.2 out.1.1.2 out.1.1.1.
Proof.
  intros out. pose proof (run_ensures resp handle (λ _ _, True) _ _ _ [] e (λ _ _ _ _ _, I) I
    (raise_is_backed w requested source reason s)) as Hrun.
  fold out in Hrun. destruct out as [[[r s'] h] e']. by destruct Hrun.
Qed.

(** C27. A containment that reports success is proven, whatever the components
    answer: the network action of the severity succeeded; from STANDARD on the
    PAM gate was verified and every ordinary session of a proven inventory was
    verified locked (STANDARD only) or terminated and verified gone; at ISOLATE
    every user of a proven target store was verified gone. A containment that
    fails is DEGRADED. *)
Theorem containment_success_is_proven w severity allow s (E : Type) (handle : ∀ c, E → resp c * E) (e : E) :
  let out := run resp handle (applyContainment w severity allow s) [] e in
  containment_result severity out.1.2 out.1.1.2 out.1.1.1.
Proof.
  intros out. pose proof (run_ensures resp handle (λ _ _, True) _ _ _ [] e (λ _ _ _ _ _, I) I
    (containment_backed w severity allow [] s)) as Hrun.
  fold out in Hrun. destruct out as [[[r s'] h] e']. destruct Hrun as [[_ ?] _]. done.
Qed.

(** A clear reports what happened, whatever the components answer: its
    effective severity is the one the state store reported for this clear and it
    confirms persistence exactly when the store did; it reports success only if
    the targets of the incident were durably replaced by none under the next
    generation and the network quarantine was removed; a confirmed clear forgets
    the incident's generation and notifications. *)
Theorem clear_reports_what_happened w actor s (E : Type) (handle : ∀ c, E → resp c * E) (e : E) :
  let out := run resp handle (clear w actor s) [] e in
  clear_backed out.1.2 out.1.1.2 out.1.1.1.
Proof.
  intros out. pose proof (run_ensures resp handle (λ _ _, True) _ _ _ [] e (λ _ _ _ _ _, I) I (clear_is_backed w actor s)) as Hrun.
  fold out in Hrun. destruct out as [[[r s'] h] e']. by destruct Hrun.
Qed.

(** * Witnesses *)

Definition sample_session : LoginSession :=
  mkSession "c2" 1000 "eve" "tty" Terminal false "user" "active" false true false "" "" 77.
Definition all_wired : Wiring := mkWiring true true true true true.

(** Components that agree to everything during a proven incident at HARD. *)
Definition agreeable (c : Call) (e : unit) : resp c * unit :=
  (match c return resp c with
   | ResolveMode => Some (mkMode ModeActive true "" "ACTIVE")
   | StateRead => mkStateRead PProven Hard None
   | StateRaise q => mkRaise true DurableConfirmed q true false None
   | StateClear => mkClear true false Unlocked DurableConfirmed
   | StateEncode => mkRaise true DurableConfirmed Isolate false true None
   | TargetRead => mkTargetRead TProven "boot" 1 [] None
   | TargetWrite _ _ _ _ => true
   | BootId => "boot"
   | VerifyGate => Some true
   | ApplyQuarantine _ => true
   | ListSessions => Some [sample_session]
   | ClassifySession _ => Terminal
   | LockSession _ | VerifySessionLocked _ | TerminateSession _ | VerifySessionsGone _ | TerminateUser _
   | VerifyUserRuntimeGone _ => true
   | LookupProvenUser _ _ => mkLookup NotThere no_user
   | Audit _ _ _ _ | Notify _ _ => tt
   end, e).

