(* ===== verification/ControllerAuthority.v ===== *)
(** The authority of destructive actions: what the controller must have seen,
    in the same operation and not overtaken since, before it locks or ends a
    session or a user (fic/src/incident/IncidentController, [applyContainment]
    and what it calls). *)

From S2P Require Import Prelude Severity StateStore ResponseMode TargetStore AtomicWriter Effects Controller ControllerFacts.
Open Scope list_scope.
Open Scope prog_scope.

(** * What a history last said *)

(** The last read of the state file; nothing if the file was changed since. *)
Fixpoint last_state (h : history) : option ReadResult :=
  match h with
  | [] => None
  | Ev StateRead r :: _ => Some r
  | Ev (StateRaise _) _ :: _ | Ev StateClear _ :: _ | Ev StateEncode _ :: _ => None
  | _ :: h => last_state h
  end.

(** The last inventory; nothing if it was not proven. *)
Fixpoint last_inventory (h : history) : option (list LoginSession) :=
  match h with
  | [] => None
  | Ev ListSessions sessions :: _ => sessions
  | _ :: h => last_inventory h
  end.

Fixpoint last_boot (h : history) : option string :=
  match h with
  | [] => None
  | Ev BootId boot :: _ => Some boot
  | _ :: h => last_boot h
  end.

(** What the target store durably holds by the last dealing with it: boot id,
    generation and targets; nothing if it was not proven or not written. *)
Fixpoint last_record (h : history) : option (string * Z * list IncidentSessionTarget) :=
  match h with
  | [] => None
  | Ev TargetRead r :: _ =>
      if bool_decide (tr_provenance r = TProven) then Some (tr_bootId r, tr_generation r, tr_targets r) else None
  | Ev (TargetWrite _ bootId generation targets) written :: _ =>
      if written : bool then Some (bootId, generation, targets) else None
  | _ :: h => last_record h
  end.

(** The new generation of a fence. *)
Definition fenced (h : history) (g : Z) : Prop :=
  ∃ store bootId, Ev (TargetWrite store bootId g []) true ∈ h ∧
    g = (if bool_decide (tr_provenance store = TProven) then tr_generation store + 1 else 1)%Z.

(** A proven incident is in force: the state file was last read as a proven
    incident; the target store durably holds [targets] under the boot id last
    seen and the generation [g]; every write of this operation to the store had
    this generation; and it is the one the controller knew when the operation
    began ([known]), unless the operation fenced a new incident with it. *)
Record in_force (known : option Z) (h : history) (g : Z) (targets : list IncidentSessionTarget) : Prop := {
  if_state : ∃ r, last_state h = Some r ∧ provenance r = PProven ∧ severity r ≠ Unlocked;
  if_record : ∃ boot, last_boot h = Some boot ∧ last_record h = Some (boot, g, targets);
  if_writes : ∀ store boot g' ts, Ev (TargetWrite store boot g' ts) true ∈ h → g' = g;
  if_known : ∀ g', known = Some g' → g' = g ∨ fenced h g
}.

(** The user is recorded as still to be contained. *)
Definition pending (targets : list IncidentSessionTarget) (user : Z) (name : string) : Prop :=
  ∃ t, t ∈ targets ∧ uid t = user ∧ canonicalName t = name ∧ runtimeObligation t = Pending.

Definition inventoried (h : history) (session : LoginSession) : Prop :=
  ∃ sessions, last_inventory h = Some sessions ∧ session ∈ sessions.

(** * The protocol *)

Definition authorised (known : option Z) (h : history) (c : Call) : Prop :=
  match c with
  | LockSession session =>
      isOrdinaryTarget session = true ∧ inventoried h session ∧ (∃ g targets, in_force known h g targets) ∧
      ∃ rest, h = Ev (ClassifySession session) Graphical :: rest
  | TerminateSession session =>
      isOrdinaryTarget session = true ∧ inventoried h session ∧
      ∃ g targets, in_force known h g targets ∧ pending targets (ls_uid session) (ls_user session)
  | TerminateUser user =>
      is_Some (last_inventory h) ∧ (∃ performed, Ev (ApplyQuarantine true) performed ∈ h) ∧
      (∃ g targets, in_force known h g targets ∧ pending targets (lu_uid user) (lu_name user)) ∧
      ∃ lookup rest, h = Ev (LookupProvenUser (lu_uid user) (lu_name user)) lookup :: rest ∧
        lookup_status lookup ≠ NotProven
  | _ => True
  end.

(** * Frames *)

(** Calls that change nothing of what a history last said. *)
Definition neutral (c : Call) : bool :=
  match c with
  | StateRead | StateRaise _ | StateClear | StateEncode | TargetRead | TargetWrite _ _ _ _ | BootId | ListSessions => false
  | _ => true
  end.
Definition calm (h h' : history) : Prop := ∃ new, h' = new ++ h ∧ ∀ e, e ∈ new → neutral (ev_call e) = true.

#[export] Instance calm_preorder : PreOrder calm.
Proof.
  split; [by exists []; split; [|intros e He; inversion He]|]. intros h1 h2 h3 (n1 & -> & H1) (n2 & -> & H2). exists (n2 ++ n1).
  split; [by rewrite app_assoc|]. intros e [He|He]%elem_of_app; auto.
Qed.
Lemma calm_push e h h' : neutral (ev_call e) = true → calm h h' → calm h (e :: h').
Proof. intros He (new & -> & Hn). exists (e :: new). split; [done|]. intros e' [->|?]%elem_of_cons; auto. Qed.
Ltac calm_tac := first [reflexivity | assumption | apply calm_push; [reflexivity|calm_tac]].

Lemma calm_last h h' : calm h h' →
  last_state h' = last_state h ∧ last_inventory h' = last_inventory h ∧ last_boot h' = last_boot h ∧
  last_record h' = last_record h ∧ later h h' ∧
  ∀ store boot g ts, Ev (TargetWrite store boot g ts) true ∈ h' → Ev (TargetWrite store boot g ts) true ∈ h.
Proof.
  intros (new & -> & Hn). induction new as [|[c x] new IH]; [by split_and!|].
  destruct IH as (<- & <- & <- & <- & [n Hl] & Hw); [intros e He; apply Hn; by right|].
  specialize (Hn (Ev c x) ltac:(by left)). simpl in Hn.
  split_and!; try (by destruct c); [exists (Ev c x :: n); simpl; by rewrite Hl|].
  intros store boot g ts [Heq|Hin]%elem_of_cons; [|by eapply Hw]. apply (f_equal ev_call) in Heq. simpl in Heq. by subst.
Qed.
Lemma calm_later h h' : calm h h' → later h h'.
Proof. intros (new & -> & _). by exists new. Qed.

Section authority.
Context (known : option Z).
Implicit Types (h : history) (s : Ctl) (g : Z).

Lemma fenced_later h h' g : later h h' → fenced h g → fenced h' g.
Proof. intros Hl (store & boot & Hin & Hg). exists store, boot. split; [by eapply later_elem|done]. Qed.

Lemma in_force_move h g ts h' boot ts' : in_force known h g ts →
  later h h' → last_state h' = last_state h → last_boot h' = Some boot → last_record h' = Some (boot, g, ts') →
  (∀ store b g' l, Ev (TargetWrite store b g' l) true ∈ h' → Ev (TargetWrite store b g' l) true ∈ h ∨ g' = g) →
  in_force known h' g ts'.
Proof.
  intros [Hs _ Hw Hk] Hl Hs' Hb Hr Hnew. split.
  - by rewrite Hs'.
  - by exists boot.
  - intros store b g' l Hin. destruct (Hnew _ _ _ _ Hin) as [?|?]; [by eapply Hw|done].
  - intros g' Hg. destruct (Hk g' Hg); [by left|right; by eapply fenced_later].
Qed.
Lemma in_force_calm h g ts h' : calm h h' → in_force known h g ts → in_force known h' g ts.
Proof.
  intros (Hs & _ & Hb & Hr & Hl & Hw)%calm_last Hf. destruct (if_record _ _ _ _ Hf) as (boot & Hboot & Hrec).
  eapply (in_force_move h g ts h' boot); [done|done|done|congruence|congruence|eauto].
Qed.
Lemma inventoried_calm h h' x : calm h h' → inventoried h x → inventoried h' x.
Proof. intros (_ & Hi & _)%calm_last (l & Hl & Hx). exists l. by rewrite Hi. Qed.

(** Which of the writes in a history are new. *)
Ltac writes_tac := intros ? ? ? ? Hin;
  repeat (apply elem_of_cons in Hin as [Hin|Hin];
    [apply (f_equal ev_call) in Hin; simpl in Hin; first [discriminate Hin | injection Hin as -> -> -> ->; auto]|]); auto.

(** The store is read again and found current. *)
Lemma store_current boot store s g : store_is_current boot store s = true → incidentGeneration s = Some g →
  tr_provenance store = TProven ∧ tr_bootId store = boot ∧ tr_generation store = g.
Proof.
  unfold store_is_current. intros [[Hp%bool_decide_eq_true Hb%String.eqb_eq]%andb_true_iff Hg%bool_decide_eq_true]%andb_true_iff Hs.
  split_and!; congruence.
Qed.
Lemma in_force_reread h g ts s h' boot store : in_force known h g ts → incidentGeneration s = Some g →
  store_is_current boot store s = true →
  h' = Ev (resp := resp) TargetRead store :: Ev (resp := resp) BootId boot :: h ∨
  h' = Ev (resp := resp) BootId boot :: Ev (resp := resp) TargetRead store :: h →
  in_force known h' g (tr_targets store).
Proof.
  intros Hf Hs Hc Hh. destruct (store_current _ _ _ _ Hc Hs) as (Hp & Hb & Hg).
  eapply (in_force_move h g ts h' boot); [done| | | | |]; destruct Hh as [->| ->]; simpl; rewrite ?Hp, ?Hb, ?Hg; try done;
    try later_tac; writes_tac.
Qed.
Lemma in_force_write h g ts boot store ts' : in_force known h g ts → last_boot h = Some boot →
  in_force known (Ev (TargetWrite store boot g ts') true :: h) g ts'.
Proof. intros Hf Hb. eapply (in_force_move h g ts _ boot); [done|later_tac|done|done|done|writes_tac]. Qed.
Lemma in_force_list h g ts (sessions : option (list LoginSession)) : in_force known h g ts →
  in_force known (Ev (resp := resp) ListSessions sessions :: h) g ts.
Proof.
  intros Hf. destruct (if_record _ _ _ _ Hf) as (boot & Hb & Hr).
  eapply (in_force_move h g ts _ boot); [done|later_tac|done|done|done|writes_tac].
Qed.

(** * Sessions *)

Abbreviation obeys := (hoare resp (authorised known)).

Lemma register_authority h s g ts news : in_force known h g ts → incidentGeneration s = Some g →
  Forall (λ t, runtimeObligation t = Pending) news →
  obeys h s (registerSessionTargets news) (λ h' s' b, s' = s ∧ later h h' ∧ last_inventory h' = last_inventory h ∧
    (b = true → ∃ ts', in_force known h' g ts' ∧ ∀ t, t ∈ news → pending ts' (uid t) (canonicalName t))).
Proof.
  intros Hf Hs Hnews. unfold registerSessionTargets. apply hoare_bind, hoare_call; [done|]. intros boot.
  hstep; [apply hoare_ret; split_and!; [done|later_tac|done|done]|]. apply hoare_bind, hoare_call; [done|]. intros store.
  apply hoare_bind, hoare_get.
  destruct (store_is_current boot store s) eqn:Hcur; [|apply hoare_ret; split_and!; [done|later_tac|done|done]].
  pose proof (in_force_reread _ _ _ _ _ _ _ Hf Hs Hcur (or_introl eq_refl)) as Hf'. cbn [negb].
  destruct (merge_targets (tr_targets store) news) as [[merged changed]|] eqn:Hm; [|apply hoare_ret; split_and!; [done|later_tac|done|done]].
  destruct (merge_covers _ _ _ _ Hm Hnews) as (Hcov & _ & Hsame). destruct changed; simpl.
  - destruct (store_current _ _ _ _ Hcur Hs) as (_ & _ & ->). apply hoare_call; [done|]. intros written.
    split_and!; [done|later_tac|done|]. intros ->. exists merged. split; [by eapply in_force_write|].
    intros t Ht. destruct (Hcov t Ht) as (t' & ? & ?). by exists t'.
  - apply hoare_ret. split_and!; [done|later_tac|done|]. intros _. exists (tr_targets store). split; [done|]. rewrite Hsame in Hcov by done.
    intros t Ht. destruct (Hcov t Ht) as (t' & ? & ?). by exists t'.
Qed.

Lemma select_authority severity h s g ts sessions : in_force known h g ts →
  (∀ x, x ∈ sessions → inventoried h x) →
  obeys h s (select_sessions severity sessions) (λ h' s' r, s' = s ∧ calm h h' ∧
    Forall (λ t, runtimeObligation t = Pending) r.1 ∧
    ∀ x, x ∈ r.2 → x ∈ sessions ∧ isOrdinaryTarget x = true ∧ target_of_session x ∈ r.1).
Proof.
  revert h. induction sessions as [|x sessions IH]; intros h Hf Hinv; cbn [select_sessions].
  { apply hoare_ret. split_and!; [done|calm_tac|constructor|by intros x Hx; inversion Hx]. }
  assert (∀ h', calm h h' → obeys h' s (select_sessions severity sessions) (λ h'' s' r, s' = s ∧ calm h h'' ∧
    Forall (λ t, runtimeObligation t = Pending) r.1 ∧
    ∀ x, x ∈ r.2 → x ∈ sessions ∧ isOrdinaryTarget x = true ∧ target_of_session x ∈ r.1)) as Hgo.
  { intros h1 Hc. eapply hoare_mono; [apply IH; [by eapply in_force_calm|]|].
    - intros y Hy. eapply inventoried_calm; [exact Hc|]. apply Hinv. by right.
    - intros h' s' r (? & ? & ? & ?). split_and!; [done|by etransitivity|done|done]. }
  destruct (isOrdinaryTarget x) eqn:Hord; cbn [negb]; cycle 1.
  { eapply hoare_mono; [apply Hgo; reflexivity|]. intros h' s' r (-> & ? & ? & Hr). split_and!; [done..|]. intros y Hy. destruct (Hr y Hy). split; [by right|done]. }
  assert (∀ h', calm h h' → ∀ b : bool, obeys h' s (selected ← select_sessions severity sessions;
    ret (target_of_session x :: selected.1, if b then x :: selected.2 else selected.2)) (λ h'' s' r, s' = s ∧ calm h h'' ∧
    Forall (λ t, runtimeObligation t = Pending) r.1 ∧
    ∀ y, y ∈ r.2 → y ∈ x :: sessions ∧ isOrdinaryTarget y = true ∧ target_of_session y ∈ r.1)) as Hrest.
  { intros h1 Hl1 b. apply hoare_bind. eapply hoare_mono; [by apply Hgo|].
    intros h' s' r (-> & Hl & Hp & Hr). apply hoare_ret. split_and!; [done|done|by constructor|].
    intros y Hy. destruct (decide (y = x)) as [->|Hne]; [split_and!; [by left|done|by left]|].
    assert (y ∈ r.2) as Hy' by (destruct b; [by apply elem_of_cons in Hy as [?|?]|done]). destruct (Hr y Hy') as (? & ? & ?).
    split_and!; [by right|done|by right]. }
  apply hoare_bind, hoare_call; [done|]. intros kind. apply hoare_bind. destruct (bool_decide _ && _) eqn:Hk.
  - apply andb_true_iff in Hk as [_ ->%bool_decide_eq_true]. apply hoare_bind, hoare_call.
    { split_and!; [done| | |by eexists].
      - eapply inventoried_calm; [|apply Hinv; by left]. calm_tac.
      - exists g, ts. eapply in_force_calm; [|exact Hf]. calm_tac. }
    intros performed. apply hoare_bind. destruct performed.
    + apply hoare_call; [done|]. intros locked. apply hoare_ret. cbv beta. apply Hrest. calm_tac.
    + apply hoare_ret, hoare_ret. cbv beta. apply Hrest with (b := true). calm_tac.
  - apply hoare_ret. cbv beta. apply Hrest with (b := true). calm_tac.
Qed.

Lemma terminate_authority h s g ts sessions : in_force known h g ts →
  (∀ x, x ∈ sessions → isOrdinaryTarget x = true ∧ inventoried h x ∧ pending ts (ls_uid x) (ls_user x)) →
  obeys h s (terminate_sessions sessions) (λ h' s' _, s' = s ∧ calm h h').
Proof.
  revert h. induction sessions as [|x sessions IH]; intros h Hf Hall; cbn [terminate_sessions]; [apply hoare_ret; split; [done|calm_tac]|].
  destruct (Hall x) as (Ho & Hi & Hp); [by left|]. apply hoare_bind, hoare_call; [split_and!; [done|done|by exists g, ts]|]. intros performed.
  assert (calm h (Ev (TerminateSession x) performed :: h)) as Hc by calm_tac.
  apply hoare_bind. eapply hoare_mono; [apply IH|].
  - by eapply in_force_calm.
  - intros y Hy. destruct (Hall y) as (? & ? & ?); [by right|]. split_and!; [done|by eapply inventoried_calm|done].
  - intros h' s' r [-> Hl]. apply hoare_ret. split; [done|]. by etransitivity.
Qed.

Lemma contain_sessions_authority severity h s g ts : in_force known h g ts → incidentGeneration s = Some g →
  obeys h s (contain_sessions severity) (λ h' s' r, s' = s ∧ later h h' ∧
    (r.1.2 = true → is_Some (last_inventory h') ∧ ∃ ts', in_force known h' g ts')).
Proof.
  intros Hf Hs. unfold contain_sessions. apply hoare_bind, hoare_call; [done|].
  intros [sessions|]; [|apply hoare_ret; split_and!; [done|later_tac|done]].
  set (h1 := Ev _ _ :: h). assert (∀ x, x ∈ sessions → inventoried h1 x) as Hinv by (intros x Hx; by exists sessions).
  assert (last_inventory h1 = Some sessions) as Hi1 by done.
  assert (later h h1) as Hl1 by (unfold h1; later_tac). pose proof (in_force_list _ _ _ (Some sessions) Hf : in_force known h1 g ts) as Hf1. clearbody h1.
  apply hoare_bind. eapply hoare_mono; [by eapply select_authority|]. intros h2 s2 [news ends] (-> & Hc2 & Hpend & Hends).
  simpl in Hpend, Hends. pose proof (in_force_calm _ _ _ _ Hc2 Hf1) as Hf2. destruct (calm_last _ _ Hc2) as (_ & Hi2 & _ & _ & Hl2 & _).
  apply hoare_bind. eapply hoare_mono; [by eapply register_authority|]. intros h3 s3 registered (-> & Hl3 & Hi3 & Hreg). cbv beta.
  assert (later h h3) as Hl by (do 2 (etransitivity; [eassumption|]); done). cbn [snd fst].
  destruct registered; cycle 1.
  { cbn [terminate_sessions]. hsteps. split_and!; [done|done|done]. }
  destruct (Hreg eq_refl) as (ts' & Hf3 & Hp3). apply hoare_bind. eapply hoare_mono; [eapply terminate_authority; [exact Hf3|]|].
  - intros x Hx. destruct (Hends x Hx) as (Hin & Ho & Ht). split_and!; [done| |by apply (Hp3 _ Ht)].
    destruct (Hinv x Hin) as (l & Hl' & Hxl). exists l. split; [congruence|done].
  - intros h4 s4 failures [-> Hc4]. cbv beta. destruct (calm_last _ _ Hc4) as (_ & Hi4 & _ & _ & Hl4 & _).
    assert (∀ (b : bool) (f : list string) h5, calm h4 h5 → obeys h5 s (ret (b, true, f)) (λ h' s' r, s' = s ∧ later h h' ∧
      (r.1.2 = true → is_Some (last_inventory h') ∧ ∃ ts', in_force known h' g ts'))) as Hend.
    { intros b f h5 Hc5. apply hoare_ret. destruct (calm_last _ _ Hc5) as (_ & Hi5 & _ & _ & Hl5 & _).
      split_and!; [done|exact (transitivity Hl (transitivity Hl4 Hl5))|]. intros _. split; [rewrite Hi5, Hi4, Hi3, Hi2, Hi1; by eexists|].
      exists ts'. eapply in_force_calm; [|exact Hf3]. by etransitivity. }
    apply hoare_bind. destruct ends; [apply hoare_ret; by apply Hend|]. apply hoare_call; [done|]. intros gone. apply Hend. calm_tac.
Qed.

(** * Users *)

Lemma rearm_authority h s obligations :
  obeys h s (rearm obligations) (λ h' s' p, s' = s ∧ calm h h' ∧ (p_changed p = false → p_targets p = obligations)).
Proof.
  revert h. induction obligations as [|t rest IH]; intros h; cbn [rearm].
  { apply hoare_ret. split_and!; [done|calm_tac|done]. }
  assert (∀ h1 t' c v f, calm h h1 → (c = false → t' = t) →
    obeys h1 s (p ← rearm rest; ret (pass_add t' c v f p))
      (λ h' s' p, s' = s ∧ calm h h' ∧ (p_changed p = false → p_targets p = t :: rest))) as Hrest.
  { intros h1 t' c v f Hl Ht. apply hoare_bind. eapply hoare_mono; [apply IH|]. intros h2 s2 p (-> & Hl2 & Hp). apply hoare_ret.
    split_and!; [done|by etransitivity|]. simpl. intros [Hc Hpc]%orb_false_iff. by rewrite Ht, Hp. }
  destruct (runtimeObligation t); [by apply Hrest|]. apply hoare_bind, hoare_call; [done|]. intros lookup.
  destruct (lookup_status lookup).
  - apply Hrest; [calm_tac|done].
  - apply hoare_bind, hoare_call; [done|]. intros gone. apply Hrest; [calm_tac|done].
  - apply Hrest; [calm_tac|done].
Qed.

Lemma persist_authority h s g ts store obligations : in_force known h g ts → incidentGeneration s = Some g →
  last_boot h = Some (tr_bootId store) → tr_generation store = g →
  obeys h s (persist_rearmed store obligations) (λ h' s' r, s' = s ∧ later h h' ∧ last_inventory h' = last_inventory h ∧
    (r.1.1 = true → in_force known h' g obligations)).
Proof.
  intros Hf Hs Hb Hg. unfold persist_rearmed. rewrite Hg. apply hoare_bind, hoare_call; [done|]. intros written.
  destruct written; cbn [negb]; [|apply hoare_ret; split_and!; [done|later_tac|done|done]].
  pose proof (in_force_write h g ts _ store obligations Hf Hb) as Hf1. apply hoare_bind, hoare_call; [done|]. intros store'.
  apply hoare_bind. case_bool_decide as Hp; [|apply hoare_ret, hoare_ret; split_and!; [done|later_tac|done|done]].
  apply hoare_bind, hoare_call; [done|]. intros boot. apply hoare_bind, hoare_get, hoare_ret, hoare_ret.
  split_and!; [done|later_tac|done|]. intros [Hcur <-%bool_decide_eq_true]%andb_true_iff.
  by eapply in_force_reread; [exact Hf1| | |right].
Qed.

Lemma discharge_authority h s g ts obligations : in_force known h g ts →
  is_Some (last_inventory h) → (∃ performed, Ev (ApplyQuarantine true) performed ∈ h) →
  (∀ t, t ∈ obligations → t ∈ ts) →
  obeys h s (discharge obligations) (λ _ _ _, True).
Proof.
  revert h. induction obligations as [|t rest IH]; intros h Hf Hi (performed & Hq) Hall; cbn [discharge]; [by apply hoare_ret|].
  assert (∀ h1 (f : pass → pass), calm h h1 → obeys h1 s (p ← discharge rest; ret (f p)) (λ _ _ _, True)) as Hrest.
  { intros h1 f Hc. apply hoare_bind. destruct (calm_last _ _ Hc) as (_ & Hi1 & _ & _ & Hl & _). eapply hoare_mono; [apply IH|].
    - by eapply in_force_calm.
    - by rewrite Hi1.
    - exists performed. by eapply later_elem.
    - intros x Hx. apply Hall. by right.
    - done. }
  destruct (runtimeObligation t) eqn:Hob; [|apply (Hrest _ (pass_add t false true [])); calm_tac].
  apply hoare_bind, hoare_call; [done|]. intros lookup. case_bool_decide as Hnp.
  { apply (Hrest _ (pass_add t false false _)). calm_tac. }
  assert (calm h (Ev (LookupProvenUser (uid t) (canonicalName t)) lookup :: h)) as Hc by calm_tac.
  apply hoare_bind, hoare_call.
  { split_and!; [done|exists performed; by right| |by exists lookup, h].
    exists g, ts. split; [by eapply in_force_calm|]. exists t. split_and!; [apply Hall; by left|done..]. }
  intros done. apply hoare_bind, hoare_call; [done|]. intros gone.
  apply (Hrest _ (λ p, if gone then _ else _)). calm_tac.
Qed.

Lemma contain_registered_authority h s g boot (store : TargetReadResult) : in_force known h g (tr_targets store) → incidentGeneration s = Some g →
  store_is_current boot store s = true → last_boot h = Some boot →
  is_Some (last_inventory h) → (∃ performed, Ev (ApplyQuarantine true) performed ∈ h) →
  obeys h s (contain_registered store) (λ _ _ _, True).
Proof.
  intros Hf Hs Hcur Hb Hi (performed & Hq). destruct (store_current _ _ _ _ Hcur Hs) as (_ & Hboot & Hg).
  unfold contain_registered. apply hoare_bind. eapply hoare_mono; [apply rearm_authority|].
  intros h1 s1 armed (-> & Hc1 & Hsame). destruct (calm_last _ _ Hc1) as (_ & Hi1 & Hb1 & _ & Hl1 & _).
  pose proof (in_force_calm _ _ _ _ Hc1 Hf) as Hf1. apply hoare_bind.
  eapply (hoare_mono _ _ _ _ _ _ (λ h' s' d, s' = s ∧ later h1 h' ∧ last_inventory h' = last_inventory h1 ∧
    (d.1.1 = true → in_force known h' g (p_targets armed)))).
  - destruct (p_changed armed); [eapply persist_authority; [done|done|congruence|done]|].
    apply hoare_ret. split_and!; [done|later_tac|done|]. intros _. by rewrite Hsame.
  - intros h2 s2 [[rearmed store'] failures] (-> & Hl2 & Hi2 & Hd). simpl in Hd. apply hoare_bind.
    eapply (hoare_mono _ _ _ _ _ _ (λ _ _ _, True)).
    + destruct rearmed; [|by apply hoare_ret]. eapply discharge_authority; [by apply Hd|by rewrite Hi2, Hi1| |done].
      exists performed. eapply later_elem; [exact Hl2|]. by eapply later_elem.
    + intros h3 s3 done _. cbv beta. hsteps; exact I.
Qed.

Lemma contain_users_authority h s g ts usable : in_force known h g ts → incidentGeneration s = Some g →
  (usable = true → is_Some (last_inventory h)) → (∃ performed, Ev (ApplyQuarantine true) performed ∈ h) →
  obeys h s (contain_users usable) (λ _ _ _, True).
Proof.
  intros Hf Hs Hi (performed & Hq). unfold contain_users. apply hoare_bind, hoare_call; [done|]. intros store. apply hoare_bind.
  case_bool_decide; [|by apply hoare_ret, hoare_ret]. apply hoare_bind, hoare_call; [done|]. intros boot.
  apply hoare_bind, hoare_get, hoare_ret. cbv beta.
  destruct (negb (String.eqb boot "") && _) eqn:Hcur, usable; simpl; try by apply hoare_ret.
  apply andb_true_iff in Hcur as [_ Hcur]. eapply (contain_registered_authority _ _ g boot); [|done|done|done| |].
  - by eapply in_force_reread; [| | |right].
  - by apply Hi.
  - exists performed. by do 2 right.
Qed.

(** * Containment *)

(** The writes of this operation had the generation the controller holds, which
    is the one it began with or a fence's. *)
Record ready (h : history) (s : Ctl) : Prop := {
  rd_writes : ∀ store boot g ts, Ev (TargetWrite store boot g ts) true ∈ h → incidentGeneration s = Some g;
  rd_known : ∀ g, known = Some g → incidentGeneration s = Some g ∨ ∃ g', incidentGeneration s = Some g' ∧ fenced h g'
}.

Lemma ready_later h h' s s' : ready h s → later h h' → incidentGeneration s' = incidentGeneration s →
  (∀ store boot g ts, Ev (TargetWrite store boot g ts) true ∈ h' → Ev (TargetWrite store boot g ts) true ∈ h) → ready h' s'.
Proof.
  intros [Hw Hk] Hl Hs Hn. split; rewrite Hs; [intros store boot g ts Hin; by eapply Hw, Hn|].
  intros g Hg. destruct (Hk g Hg) as [?|(g' & ? & ?)]; [by left|right]. exists g'. split; [done|]. by eapply fenced_later.
Qed.
Ltac ready_tac := eapply ready_later; [eassumption|later_tac|done|writes_tac].

Lemma prepare_authority h s : ready h s →
  obeys h s prepareActiveTargetStore (λ h' s' b, later h h' ∧
    (b = true → ∃ g ts, incidentGeneration s' = Some g ∧ in_force known h' g ts)).
Proof.
  intros [Hw Hk]. eapply hoare_mono; [apply hoare_extends|intros h' s' b [Hb Hl]; split; [exact Hl|exact Hb]].
  unfold prepareActiveTargetStore. apply hoare_bind, hoare_call; [done|]. intros state.
  destruct (bool_decide _ || _) eqn:Hact; [by apply hoare_ret|].
  apply orb_false_iff in Hact as [Hp%bool_decide_eq_false Hu%bool_decide_eq_false]. apply dec_stable in Hp.
  apply hoare_bind, hoare_call; [done|]. intros boot. hstep; [by apply hoare_ret|].
  apply hoare_bind, hoare_call; [done|]. intros store. case_bool_decide as Hpr; [by apply hoare_ret|].
  apply hoare_bind, hoare_get. destruct (match incidentGeneration s with Some _ => _ | None => _ end) eqn:Hgen; [by apply hoare_ret|].
  assert (∀ g, incidentGeneration s = Some g → g = tr_generation store) as Hsame.
  { intros g Hg. rewrite Hg in Hgen. by apply negb_false_iff, bool_decide_eq_true in Hgen. }
  set (h3 := Ev TargetRead store :: _). assert (∀ h4 ts, later h3 h4 → last_state h4 = Some state → last_boot h4 = Some boot →
    last_record h4 = Some (boot, tr_generation store, ts) →
    (∀ st b g' l, Ev (TargetWrite st b g' l) true ∈ h4 → Ev (TargetWrite st b g' l) true ∈ h ∨ g' = tr_generation store) →
    in_force known h4 (tr_generation store) ts) as Hforce.
  { intros h4 ts Hl Hst Hbt Hrec Hwr. split.
    - by exists state.
    - by exists boot.
    - intros st b g' l Hin. destruct (Hwr _ _ _ _ Hin) as [Hin'|?]; [|done]. by eapply Hsame, Hw.
    - intros g' Hg. destruct (Hk g' Hg) as [?|(g2 & Hg2 & Hfe)]; [left; by apply Hsame|right]. rewrite <-(Hsame _ Hg2).
      eapply fenced_later; [|exact Hfe]. etransitivity; [|exact Hl]. unfold h3. later_tac. }
  apply hoare_bind. destruct (String.eqb_spec (tr_bootId store) boot) as [Hbt|Hbt]; simpl.
  - apply hoare_ret. cbv beta. simpl. apply hoare_bind, hoare_modify, hoare_ret. intros _. eexists _, (tr_targets store).
    split; [done|]. apply Hforce; [later_tac|done|done|by simpl; rewrite Hpr, Hbt|unfold h3; writes_tac].
  - apply hoare_call; [done|]. intros written. destruct written; simpl; [|by apply hoare_ret].
    apply hoare_bind, hoare_modify, hoare_ret. intros _. eexists _, [].
    split; [done|]. apply Hforce; [later_tac|done|done|done|unfold h3; writes_tac].
Qed.

Lemma gate_calm w h s : obeys h s (verify_gate w) (λ h' s' _, s' = s ∧ calm h h').
Proof. unfold verify_gate. hsteps; (split; [done|calm_tac]). Qed.

Lemma containment_authority w severity allow h s :
  ready h s ∨ allow = false ∨ severity = Unlocked →
  obeys h s (applyContainment w severity allow) (λ _ _ _, True).
Proof.
  intros Hready. unfold applyContainment. apply hoare_bind, hoare_modify, hoare_bind.
  eapply (hoare_mono _ _ _ _ _ _ (λ h' s' _, s' = set_runtime Applying s ∧ calm h h')).
  { destruct (incidentSeverityAtLeast _ _); [apply gate_calm|apply hoare_ret; split; [done|calm_tac]]. }
  intros h1 s1 gate [-> Hc1]. cbv beta. destruct (incidentSeverityIsUnlocked severity) eqn:Hun; [unfold release_containment; hsteps; exact I|].
  destruct (calm_last _ _ Hc1) as (_ & _ & _ & _ & Hl1 & Hw1).
  assert (allow = true → ready h1 (set_runtime Applying s)) as Hr1.
  { intros ->. destruct Hready as [Hr|[?|Hu]]; [|done|by subst]. by eapply ready_later. }
  apply hoare_bind. unfold contain_network. apply hoare_bind, hoare_modify, hoare_call; [done|]. intros network. cbv beta.
  apply hoare_bind. set (h2 := Ev _ network :: h1). set (s2 := set_forced _ _).
  eapply (hoare_mono _ _ _ _ _ _ (λ h' s' b, later h2 h' ∧ (b = true → ∃ g ts, incidentGeneration s' = Some g ∧ in_force known h' g ts))).
  { destruct allow; [|by apply hoare_ret]. apply prepare_authority. specialize (Hr1 eq_refl). unfold h2, s2. ready_tac. }
  intros h3 s3 lifecycle [Hl3 Hact]. cbv beta. apply hoare_bind.
  eapply (hoare_mono _ _ _ _ _ _ (λ h' s' (r : bool * bool * list string), later h3 h' ∧ (lifecycle = true → ∃ g ts, incidentGeneration s' = Some g ∧
    (r.1.2 = true → is_Some (last_inventory h') ∧ in_force known h' g ts)))).
  { destruct (_ && lifecycle) eqn:Hb.
    - apply andb_true_iff in Hb as [_ ->]. destruct (Hact eq_refl) as (g & ts & Hg & Hf).
      eapply hoare_mono; [by eapply contain_sessions_authority|]. intros h4 s4 r (-> & Hl & Hu). split; [done|]. intros _.
      destruct r.1.2; [destruct (Hu eq_refl) as (? & ts' & ?); by exists g, ts'|by exists g, ts].
    - apply hoare_ret. split; [later_tac|]. intros ->. destruct (Hact eq_refl) as (g & ts & Hg & Hf). by exists g, ts. }
  intros h4 s4 [[contained usable] failures] [Hl4 Hu]. cbv beta. apply hoare_bind.
  eapply (hoare_mono _ _ _ _ _ _ (λ _ _ _, True)).
  { case_bool_decide as Hiso; [|by apply hoare_ret]. destruct (_ && lifecycle) eqn:Hb; [|by apply hoare_ret].
    apply andb_true_iff in Hb as [_ ->]. destruct (Hu eq_refl) as (g & ts & Hg & Hf). simpl in Hf.
    assert (Ev (ApplyQuarantine true) network ∈ h4) as Hq.
    { eapply later_elem; [exact Hl4|]. eapply later_elem; [exact Hl3|]. unfold h2. subst severity. by left. }
    destruct usable; [destruct (Hf eq_refl); eapply contain_users_authority; [done|done|done|by exists network]|].
    unfold contain_users. hsteps; try exact I; by rewrite orb_true_r in *. }
  intros h5 s5 users _. unfold finish_containment. hsteps; exact I.
Qed.
End authority.

(** * The operations *)

(** A program without destructive actions. *)
Definition harmless {A} (p : Ctrl A) : Prop := ∀ known h s, hoare resp (authorised known) h s p (λ _ _ _, True).

Lemma harmless_bind {A B} (m : Ctrl A) (f : A → Ctrl B) : harmless m → (∀ a, harmless (f a)) → harmless (sbind m f).
Proof. intros Hm Hf known h s. apply hoare_bind. eapply hoare_mono; [apply Hm|]. intros h' s' a _. apply Hf. Qed.
Lemma harmless_ret {A} (a : A) : harmless (ret a).
Proof. by intros known h s. Qed.
Lemma harmless_get : harmless get.
Proof. by intros known h s. Qed.
Lemma harmless_modify f : harmless (modify f).
Proof. by intros known h s. Qed.
Lemma harmless_call c : (∀ known h, authorised known h c) → harmless (call c).
Proof. intros Hc known h s. by apply hoare_call. Qed.
Lemma harmless_without_targets w severity : harmless (applyContainment w severity false).
Proof. intros known h s. apply containment_authority. by right; left. Qed.
Lemma harmless_release w allow : harmless (applyContainment w Unlocked allow).
Proof. intros known h s. apply containment_authority. by right; right. Qed.

Ltac harmless_tac := repeat match goal with
  | |- harmless (sbind _ _) => apply harmless_bind; [|intros ?]
  | |- harmless (ret _) => apply harmless_ret
  | |- harmless get => apply harmless_get
  | |- harmless (modify _) => apply harmless_modify
  | |- harmless (call _) => apply harmless_call; intros ? ?; exact I
  | |- harmless (applyContainment _ _ false) => apply harmless_without_targets
  | |- harmless (applyContainment _ Unlocked _) => apply harmless_release
  | |- harmless (if ?b then _ else _) => destruct b
  | |- harmless (match ?x with _ => _ end) => destruct x
  end.

Section operations.
Context (w : Wiring).

Lemma harmless_mode : harmless (controllerMode w).
Proof. unfold controllerMode. harmless_tac. Qed.
Lemma harmless_settle mode severity : harmless (settleNonActiveMode mode severity).
Proof. unfold settleNonActiveMode. harmless_tac. Qed.
Lemma harmless_audit event result source reason : harmless (recordAudit w event result source reason).
Proof. unfold recordAudit. harmless_tac. Qed.
Lemma harmless_notify severity reason : harmless (notifySeverity w severity reason).
Proof. unfold notifySeverity. harmless_tac. Qed.
Lemma harmless_ignored : harmless raise_ignored.
Proof. unfold raise_ignored. harmless_tac. apply harmless_settle. Qed.
Lemma harmless_unfenced mode before source reason : harmless (raise_unfenced w mode before source reason).
Proof. unfold raise_unfenced. harmless_tac; first [apply harmless_settle|apply harmless_audit|apply harmless_notify]. Qed.
Lemma harmless_undurable mode result source reason : harmless (raise_undurable w mode result source reason).
Proof. unfold raise_undurable. harmless_tac; first [apply harmless_settle|apply harmless_audit|apply harmless_notify]. Qed.

(** Nothing was written to the target store. *)
Definition unwritten (h : history) : Prop := ∀ store boot g ts x, Ev (TargetWrite store boot g ts) x ∉ h.
Lemma unwritten_cons e h : match ev_call e with TargetWrite _ _ _ _ => False | _ => True end → unwritten h → unwritten (e :: h).
Proof.
  intros He Hh store boot g ts x [Heq|Hin]%elem_of_cons; [|by eapply Hh]. apply (f_equal ev_call) in Heq. simpl in Heq. by rewrite <-Heq in He.
Qed.
Lemma unwritten_ready h s : unwritten h → ready (incidentGeneration s) h s.
Proof. intros Hh. split; [intros store boot g ts Hin; by destruct (Hh store boot g ts true)|by left]. Qed.
Ltac unwritten_tac := repeat (apply unwritten_cons; [exact I|]); assumption.

Lemma mode_unwritten known h s : unwritten h →
  hoare resp (authorised known) h s (controllerMode w) (λ h' s' _, s' = s ∧ unwritten h').
Proof. intros Hh. unfold controllerMode. hsteps; (split; [done|unwritten_tac]). Qed.

Lemma fence_authority known h s : unwritten h → incidentGeneration s = known →
  hoare resp (authorised known) h s fenceNewIncident (λ h' s' b, b = true → ready known h' s').
Proof.
  intros Hh Hk. unfold fenceNewIncident. apply hoare_bind, hoare_call; [done|]. intros boot. hstep; [by apply hoare_ret|].
  apply hoare_bind, hoare_call; [done|]. intros store. hstep; [by apply hoare_ret|]. hstep; [by apply hoare_ret|].
  apply hoare_bind, hoare_call; [done|]. intros written. destruct written; simpl; [|by apply hoare_ret].
  apply hoare_bind, hoare_modify, hoare_ret. intros _. split.
  - intros st b g ts [Heq|Hin]%elem_of_cons; [apply (f_equal ev_call) in Heq; simpl in Heq; by injection Heq as _ _ <- _|].
    exfalso. revert Hin. assert (unwritten (Ev (resp := resp) TargetRead store :: Ev (resp := resp) BootId boot :: h)) as Hu by unwritten_tac.
    apply Hu.
  - intros g Hg. right. eexists. split; [done|]. exists store, boot. split; [by left|done].
Qed.

Lemma durable_authority known mode result source reason h s : ready known h s →
  hoare resp (authorised known) h s (raise_durable w mode result source reason) (λ _ _ _, True).
Proof.
  intros Hr. unfold raise_durable. apply hoare_bind. eapply (hoare_mono _ _ _ _ _ _ (λ _ _ _, True)).
  - destruct (bool_decide _); [apply harmless_settle|]. apply hoare_bind, hoare_modify, containment_authority.
    left. by apply (ready_later known h h s).
  - intros h1 s1 contained _. cbv beta zeta.
    apply (harmless_bind (recordAudit _ _ _ _ _)); [apply harmless_audit|intros ?]. harmless_tac; apply harmless_notify.
Qed.

Lemma raise_authority requested source reason s :
  hoare resp (authorised (incidentGeneration s)) [] s (raise w requested source reason) (λ _ _ _, True).
Proof.
  unfold raise. apply hoare_bind. eapply hoare_mono; [apply mode_unwritten; intros ? ? ? ? ? Hin; inversion Hin|].
  intros h1 s1 mode [-> Hu]. cbv beta zeta. destruct (bool_decide _); [apply harmless_ignored|].
  apply hoare_bind, hoare_call; [done|]. intros before. apply hoare_bind.
  eapply (hoare_mono _ _ _ _ _ _ (λ h' s' b, b = true → ready (incidentGeneration s) h' s')).
  { destruct (_ && _); [apply fence_authority; [unwritten_tac|done]|]. apply hoare_ret. intros _. apply unwritten_ready. unwritten_tac. }
  intros h2 s2 [] Hr; cbn [negb]; [|apply harmless_unfenced]. specialize (Hr eq_refl).
  apply hoare_bind, hoare_call; [done|]. intros raised. apply hoare_bind, hoare_call; [done|]. intros after. cbv beta zeta.
  destruct (durable raised); [|apply harmless_undurable]. apply durable_authority.
  eapply ready_later; [exact Hr|later_tac|done|]. intros st b g ts Hin.
  repeat (apply elem_of_cons in Hin as [Hin|Hin]; [apply (f_equal ev_call) in Hin; discriminate Hin|]). done.
Qed.

Lemma settle_or_contain_authority known mode severity h s : ready known h s →
  hoare resp (authorised known) h s (settle_or_contain w mode severity) (λ _ _ _, True).
Proof.
  intros Hr. unfold settle_or_contain. destruct (bool_decide _); [apply containment_authority; by left|apply harmless_settle].
Qed.

Lemma clear_authority actor s :
  hoare resp (authorised (incidentGeneration s)) [] s (clear w actor) (λ _ _ _, True).
Proof.
  unfold clear. apply hoare_bind. eapply hoare_mono; [apply mode_unwritten; intros ? ? ? ? ? Hin; inversion Hin|].
  intros h1 s1 mode [-> Hu]. cbv beta zeta. apply hoare_bind, hoare_modify.
  do 3 (apply hoare_bind, hoare_call; [done|]; intros ?). cbv beta. destruct (negb (clear_ok _)).
  - apply hoare_bind. eapply hoare_mono; [apply settle_or_contain_authority|].
    + change (incidentGeneration s) with (incidentGeneration (set_runtime Clearing s)). apply unwritten_ready. unwritten_tac.
    + intros h2 s2 contained _. cbv beta zeta. match goal with |- hoare _ _ _ _ ?p _ => enough (harmless p) as Hp by apply Hp end.
      harmless_tac. apply harmless_audit.
  - match goal with |- hoare _ _ _ _ ?p _ => enough (harmless p) as Hp by apply Hp end.
    unfold clean_targets, settle_or_contain. harmless_tac; first [apply harmless_settle|apply harmless_audit].
Qed.

Lemma reconcile_authority s : hoare resp (authorised (incidentGeneration s)) [] s (reconcile w) (λ _ _ _, True).
Proof.
  unfold reconcile. apply hoare_bind, hoare_call; [done|]. intros read. apply hoare_bind.
  eapply hoare_mono; [apply mode_unwritten; apply unwritten_cons; [exact I|]; intros ? ? ? ? ? Hin; inversion Hin|].
  intros h1 s1 mode [-> Hu]. cbv beta zeta. apply hoare_bind.
  eapply hoare_mono; [by apply settle_or_contain_authority, unwritten_ready|]. intros h2 s2 contained _. cbv beta zeta.
  match goal with |- hoare _ _ _ _ ?p _ => enough (harmless p) as Hp by apply Hp end. harmless_tac.
Qed.

Lemma harmless_status : harmless (status w).
Proof. unfold status. harmless_tac. apply harmless_mode. Qed.
End operations.

Inductive Operation :=
  | OpRaise (requested : IncidentSeverity) (source : IncidentSource) (reason : string)
  | OpClear (actor : string)
  | OpReconcile
  | OpStatus.

Definition operation (w : Wiring) (op : Operation) : Ctrl unit :=
  match op with
  | OpRaise requested source reason => _ ← raise w requested source reason; ret tt
  | OpClear actor => _ ← clear w actor; ret tt
  | OpReconcile => _ ← reconcile w; ret tt
  | OpStatus => _ ← status w; ret tt
  end.

Lemma operation_authority w op s : hoare resp (authorised (incidentGeneration s)) [] s (operation w op) (λ _ _ _, True).
Proof.
  destruct op; simpl; apply hoare_bind; eapply hoare_mono;
    first [apply raise_authority|apply clear_authority|apply reconcile_authority|apply harmless_status|intros ? ? ? _; by apply hoare_ret].
Qed.

(** * Property *)


(** * Witness *)

