(* ===== verification/ControllerDisk.v ===== *)
(** The incident controller on its two files: the calls to the state store and
    to the target store run on the disk of [FileModel], every other component
    is arbitrary ([other]). *)

From S2P Require Import Prelude Severity FileModel AtomicWriter AtomicFacts StateStore ResponseMode TargetStore Effects Controller ControllerFacts.
Open Scope list_scope.

(** * Which calls a program makes *)

Definition state_mutation (c : Call) : bool :=
  match c with StateRaise _ | StateClear | StateEncode => true | _ => false end.

(** The program never changes the state file. *)
Definition spares_state {A} (p : Ctrl A) : Prop :=
  ∀ h s, hoare resp (λ _ c, state_mutation c = false) h s p (λ _ _ _, True).

Lemma spares_bind {A B} (m : Ctrl A) (f : A → Ctrl B) : spares_state m → (∀ a, spares_state (f a)) → spares_state (sbind m f).
Proof. intros Hm Hf h s. apply hoare_bind. eapply hoare_mono; [apply Hm|]. intros h' s' a _. apply Hf. Qed.
Lemma spares_ret {A} (a : A) : spares_state (ret a).
Proof. by intros h s. Qed.
Lemma spares_get : spares_state get.
Proof. by intros h s. Qed.
Lemma spares_modify f : spares_state (modify f).
Proof. by intros h s. Qed.
Lemma spares_call c : state_mutation c = false → spares_state (call c).
Proof. intros Hc h s. by apply hoare_call. Qed.

Ltac spares_tac := repeat match goal with
  | |- spares_state (sbind _ _) => apply spares_bind; [|intros ?]
  | |- spares_state (ret _) => apply spares_ret
  | |- spares_state get => apply spares_get
  | |- spares_state (modify _) => apply spares_modify
  | |- spares_state (call _) => apply spares_call; reflexivity
  | |- spares_state (if ?b then _ else _) => destruct b
  | |- spares_state (match ?x with _ => _ end) => destruct x
  end.

Lemma spares_select severity sessions : spares_state (select_sessions severity sessions).
Proof. induction sessions; cbn [select_sessions]; spares_tac; done. Qed.
Lemma spares_terminate sessions : spares_state (terminate_sessions sessions).
Proof. induction sessions; cbn [terminate_sessions]; spares_tac; done. Qed.
Lemma spares_rearm obligations : spares_state (rearm obligations).
Proof. induction obligations; cbn [rearm]; spares_tac; done. Qed.
Lemma spares_discharge obligations : spares_state (discharge obligations).
Proof. induction obligations; cbn [discharge]; spares_tac; done. Qed.
Lemma spares_contain_sessions severity : spares_state (contain_sessions severity).
Proof.
  unfold contain_sessions, registerSessionTargets. spares_tac; first [apply spares_select|apply spares_terminate].
Qed.
Lemma spares_contain_users usable : spares_state (contain_users usable).
Proof.
  unfold contain_users, contain_registered, persist_rearmed. spares_tac; first [apply spares_rearm|apply spares_discharge].
Qed.
Lemma spares_containment w severity allow : spares_state (applyContainment w severity allow).
Proof.
  unfold applyContainment, verify_gate, release_containment, contain_network, prepareActiveTargetStore, finish_containment.
  spares_tac; first [apply spares_contain_sessions|apply spares_contain_users].
Qed.
Lemma spares_settle mode severity : spares_state (settleNonActiveMode mode severity).
Proof. unfold settleNonActiveMode. spares_tac. Qed.
Lemma spares_audit w event result source reason : spares_state (recordAudit w event result source reason).
Proof. unfold recordAudit. spares_tac. Qed.
Lemma spares_notify w severity reason : spares_state (notifySeverity w severity reason).
Proof. unfold notifySeverity. spares_tac. Qed.

(** * How a raise touches the state file *)

Definition raised_of (e : event resp) : option RaiseResult :=
  match e with Ev (StateRaise _) x => Some x | _ => None end.
Definition encoded_of (e : event resp) : option RaiseResult :=
  match e with Ev StateEncode x => Some x | _ => None end.
Definition untouched (h : history) : Prop := ∀ e, e ∈ h → state_mutation (ev_call e) = false.

(** Once, with the requested severity, and nothing afterwards; never a clear. *)
Definition raises_once (requested : IncidentSeverity) (h : history) (c : Call) : Prop :=
  match c with
  | StateRaise q => q = requested ∧ untouched h
  | StateEncode => untouched h
  | StateClear => False
  | _ => True
  end.

Lemma spares_raises_once {A} requested (p : Ctrl A) h s : spares_state p →
  hoare resp (raises_once requested) h s p (λ h' _ _, untouched h → untouched h').
Proof.
  intros Hp. eapply ensures_protocol; [|intros h' c Hc].
  - eapply ensures_mono; [apply (ensures_new resp (λ c, state_mutation c = false)), (Hp h s)|].
    intros h' r (_ & new & -> & Hnew) Hh e [He|He]%elem_of_app; [|by apply Hh].
    by apply Hnew.
  - cbv beta in Hc. by destruct c.
Qed.

Lemma spares_end {A} requested (p : Ctrl A) h s : spares_state p → hoare resp (raises_once requested) h s p (λ _ _ _, True).
Proof. intros Hp. eapply hoare_mono; [by apply spares_raises_once|done]. Qed.

Lemma spares_mode w : spares_state (controllerMode w).
Proof. unfold controllerMode. spares_tac. Qed.
Lemma spares_raise_ignored : spares_state raise_ignored.
Proof. unfold raise_ignored. spares_tac. apply spares_settle. Qed.
Lemma spares_durable w mode result source reason : spares_state (raise_durable w mode result source reason).
Proof.
  unfold raise_durable. spares_tac; first [apply spares_settle|apply spares_containment|apply spares_audit|apply spares_notify].
Qed.
Lemma spares_undurable w mode result source reason : spares_state (raise_undurable w mode result source reason).
Proof.
  unfold raise_undurable. spares_tac; first [apply spares_settle|apply spares_containment|apply spares_audit|apply spares_notify].
Qed.

Lemma raise_raises_once w requested source reason s :
  hoare resp (raises_once requested) [] s (raise w requested source reason) (λ _ _ _, True).
Proof.
  unfold raise. apply hoare_bind. eapply hoare_mono; [apply spares_raises_once, spares_mode|]. intros h1 s1 mode Hh1.
  assert (untouched h1) as Hn1 by (apply Hh1; intros e He; inversion He). clear Hh1. cbv beta zeta.
  destruct (bool_decide _); [apply spares_end, spares_raise_ignored|].
  apply hoare_bind, hoare_call; [done|]. intros before. apply hoare_bind.
  eapply hoare_mono; [apply spares_raises_once; unfold fenceNewIncident; spares_tac|]. intros h2 s2 fenced Hn2.
  assert (untouched h2) as Hn by (apply Hn2; intros e [->|He]%elem_of_cons; [done|by apply Hn1]). cbv beta.
  destruct (negb fenced).
  - unfold raise_unfenced. apply hoare_bind, hoare_call; [done|]. intros broken. apply spares_end.
    spares_tac; first [apply spares_settle|apply spares_containment|apply spares_audit|apply spares_notify].
  - apply hoare_bind, hoare_call; [by split|]. intros raised. apply hoare_bind, hoare_call; [done|]. intros after. cbv beta zeta.
    destruct (durable raised); [apply spares_end, spares_durable|apply spares_end, spares_undurable].
Qed.

(** * The controller on the disk *)

Section disk.
Context `{JsonText} (state_path target_path : string) (fic_group : Z) {X : Type} (other : ∀ c, X → resp c * X).
Hypothesis state_visible : visible state_path.
Hypothesis target_visible : visible target_path.
Hypothesis paths_differ : state_path ≠ target_path.

(** A program of the disk as a handler of the pair. *)
Definition on_disk {A} (m : M A) (e : World * X) : A * (World * X) := let '(a, w) := m e.1 in (a, (w, e.2)).

Definition disk_handle (c : Call) : World * X → resp c * (World * X) :=
  match c with
  | StateRead => on_disk (StateStore.read state_path fic_group)
  | StateRaise requested => on_disk (raiseToAtLeast state_path fic_group requested)
  | StateClear => on_disk (StateStore.clear state_path fic_group)
  | StateEncode => on_disk (encodeDurableBrokenState state_path fic_group)
  | TargetRead => on_disk (target_read target_path fic_group)
  | TargetWrite expected bootId generation targets =>
      on_disk (writeIfCurrent target_path fic_group expected bootId generation targets)
  | c => λ e, let '(x, e2) := other c e.2 in (x, (e.1, e2))
  end.

(** What holds of the world after the calls of a raise. *)
Record raise_inv (requested : IncidentSeverity) (d0 : Disk) (h : history) (e : World * X) : Prop := {
  ri_alone : alone e.1;
  ri_wf : wf (w_disk e.1);
  ri_may : ∀ s, may_be (w_disk e.1) state_path s → may_be d0 state_path s ∨ sev_le requested s;
  ri_settled : untouched h → settled d0 state_path → settled (w_disk e.1) state_path;
  ri_raised : ∀ ev r, ev ∈ h → raised_of ev = Some r → durable r = true →
    sev_le requested (effectiveSeverity r) ∧
    (escalated r = true ∨ brokenStatePersisted r = true ∨ settled d0 state_path →
       ∀ s, may_be (w_disk e.1) state_path s → s = effectiveSeverity r);
  ri_encoded : ∀ r : RaiseResult, Ev (resp := resp) StateEncode r ∈ h → durable r = true →
    ∀ s, may_be (w_disk e.1) state_path s → s = Isolate
}.

(** A call that adds nothing to what the state file can stand for. *)
Lemma inv_frame requested d0 h e e' c (x : resp c) :
  raise_inv requested d0 h e → state_mutation c = false → alone e'.1 → wf (w_disk e'.1) →
  (∀ s, may_be (w_disk e'.1) state_path s → may_be (w_disk e.1) state_path s) →
  (settled (w_disk e.1) state_path → settled (w_disk e'.1) state_path) →
  raise_inv requested d0 (Ev c x :: h) e'.
Proof.
  intros [Ha Hw Hm Hs Hr He] Hno Ha' Hw' Hm' Hs'. split; [done|done|auto| | |].
  - intros Hu Hset. apply Hs', Hs; [|done]. intros ev Hin. apply Hu. by right.
  - intros ev r [->|Hin]%elem_of_cons Hev Hd; [by destruct c|]. destruct (Hr ev r Hin Hev Hd) as [? Hall]. split; [done|]. auto.
  - intros r [Heq|Hin]%elem_of_cons Hd s Hsm; [apply (f_equal ev_call) in Heq; simpl in Heq; by subst|]. by eapply He, Hm'.
Qed.

Lemma on_disk_runs {A} (m : M A) e (Q : A → Disk → Prop) : alone e.1 → runs m (w_disk e.1) Q →
  alone (on_disk m e).2.1 ∧ Q (on_disk m e).1 (w_disk (on_disk m e).2.1).
Proof.
  intros Ha Hm. destruct (Hm e.1 Ha eq_refl) as [Ha' HQ]. unfold on_disk. destruct (m e.1) as [a w']. done.
Qed.

(** A read. *)
Lemma inv_look requested d0 h e c (m : M (resp c)) φ : looks m φ → state_mutation c = false →
  raise_inv requested d0 h e → raise_inv requested d0 (Ev c (on_disk m e).1 :: h) (on_disk m e).2.
Proof.
  intros Hm Hc HI. destruct (on_disk_runs m e _ (ri_alone _ _ _ _ HI) (Hm (w_disk e.1))) as [Ha [Hd _]].
  eapply inv_frame; [exact HI|done|done|..]; rewrite Hd; [apply HI|done|done].
Qed.

Lemma inv_step requested d0 h e c : raise_inv requested d0 h e → raises_once requested h c →
  raise_inv requested d0 (Ev c (disk_handle c e).1 :: h) (disk_handle c e).2.
Proof.
  intros HI HG. pose proof HI as [Ha Hw Hm Hs Hr He].
  assert (∀ c, state_mutation c = false → disk_handle c e = (let '(x, e2) := other c e.2 in (x, (e.1, e2))) →
    raise_inv requested d0 (Ev c (disk_handle c e).1 :: h) (disk_handle c e).2) as Hother.
  { intros c' Hc' ->. destruct (other c' e.2) as [x e2]. by eapply inv_frame; [exact HI|..]. }
  destruct c; try (apply Hother; reflexivity).
  - eapply (inv_look _ _ _ _ StateRead); [apply looks_state_read|done|done].
  - destruct HG as [-> Hu].
    destruct (on_disk_runs _ e _ Ha (raiseToAtLeast_runs state_path fic_group state_visible (w_disk e.1) requested Hw)) as [Ha' Hres].
    cbn [disk_handle]. destruct (on_disk _ e) as [r e'] eqn:He'. simpl in *.
    destruct (raise_result_le _ _ _ _ _ Hres) as [Hle Hmay]. destruct Hres as (_ & _ & _ & Hall & _ & Hw' & _).
    split; [done|done| | | |].
    + intros s Hs'. destruct (Hmay s Hs'); auto.
    + intros Hbad. specialize (Hbad (Ev (StateRaise requested) r) ltac:(by left)). done.
    + intros ev r' [->|Hin]%elem_of_cons Hev Hd; [|specialize (Hu ev Hin); by destruct ev as [[] ?]].
      injection Hev as <-. split; [auto|]. intros Hcase. apply Hall; [done|]. destruct Hcase as [?|[?|?]]; auto.
    + intros r' [Heq|Hin]%elem_of_cons; [by apply (f_equal ev_call) in Heq|]. by specialize (Hu _ Hin).
  - done.
  - destruct (on_disk_runs _ e _ Ha (encode_runs state_path fic_group (w_disk e.1) None Hw)) as [Ha' Hres].
    cbn [disk_handle]. unfold encodeDurableBrokenState. destruct (on_disk _ e) as [r e'] eqn:He'. simpl in *. destruct Hres as (Hw' & Hout & Hmay & _).
    split; [done|done| | | |].
    + intros s Hs'. destruct (Hmay s Hs') as [->|?]; [right; apply sev_le_isolate|auto].
    + intros Hbad. specialize (Hbad (Ev StateEncode r) ltac:(by left)). done.
    + intros ev r' [->|Hin]%elem_of_cons Hev Hd; [done|]. specialize (HG ev Hin). by destruct ev as [[] ?].
    + intros r' [Heq|Hin]%elem_of_cons Hd; [|by specialize (HG _ Hin)].
      apply (f_equal encoded_of) in Heq. injection Heq as ->. destruct Hout as [->|(_ & _ & Hiso)]; done.
  - eapply (inv_look _ _ _ _ TargetRead); [apply looks_target_read|done|done].
  - destruct (on_disk_runs _ e _ Ha (writeIfCurrent_others target_path fic_group target_visible (w_disk e.1) expected bootId
      generation targets Hw)) as [Ha' [Hw' Hl]].
    destruct (Hl state_path state_visible paths_differ) as [Hmay Hset]. by eapply inv_frame; [exact HI|..].
Qed.

(** A program that raises once, run from the beginning. *)
Lemma raises_on_disk {A} requested (p : Ctrl A) (Q : history → Ctl → A → Prop) s w x :
  hoare resp (raises_once requested) [] s p Q → alone w → wf (w_disk w) →
  let out := run resp disk_handle (p s) [] (w, x) in
  Q out.1.2 out.1.1.2 out.1.1.1 ∧ raise_inv requested (w_disk w) out.1.2 out.2.
Proof.
  intros Hp Ha Hw. assert (raise_inv requested (w_disk w) [] (w, x)) as HI.
  { split; auto; [intros ? ? Hin; inversion Hin|intros ? Hin; inversion Hin]. }
  pose proof (run_ensures resp disk_handle _ _ _ _ [] (w, x) (λ h e c, inv_step requested (w_disk w) h e c) HI Hp) as Hrun.
  destruct (run resp disk_handle _ [] (w, x)) as [[[r s'] h] e']. exact Hrun.
Qed.
End disk.

(** What the outcome of a raise and the disk have to do with each other. *)
Lemma raise_outcome state_path requested d0 X h e s r :
  raise_backed requested h s r → raise_inv (X := X) state_path requested d0 h e →
  (r_ignoredByMode r = false → sev_le requested (r_effective r)) ∧
  (r_persistenceConfirmed r = true → r_escalated r = true ∨ settled d0 state_path →
     ∀ s, may_be (w_disk e.1) state_path s → s = r_effective r).
Proof.
  intros Hback [_ _ _ _ Hraised _]. split.
  - intros Hign. destruct (r_persistenceConfirmed r) eqn:Hc.
    + destruct (rb_confirmed _ _ _ _ Hback Hc) as (y & Hin & Hd & -> & _). by apply (Hraised _ y Hin eq_refl Hd).
    + destruct (rb_failed _ _ _ _ Hback Hign Hc) as [_ ->]. apply sev_le_isolate.
  - intros Hc Hcase. destruct (rb_confirmed _ _ _ _ Hback Hc) as (y & Hin & Hd & -> & Hesc).
    apply (Hraised _ y Hin eq_refl Hd). destruct Hcase as [He|Hset]; [left; congruence|auto].
Qed.

(** A raise touches the state once and its report is backed. *)
Lemma raise_once_backed w requested source reason s :
  hoare resp (raises_once requested) [] s (raise w requested source reason) (raise_backed requested).
Proof.
  pose proof (ensures_and resp _ _ _ _ _ _ (raise_raises_once w requested source reason s)
    (raise_is_backed w requested source reason s)) as Hens.
  eapply ensures_protocol; [eapply ensures_mono; [exact Hens|]|]; simpl; tauto.
Qed.

(** * Properties *)

Section properties.
Context `{JsonText}.

(** C2. A raise is fail-closed from the caller down to the disk. Let the
    controller run on its two files, which nobody else touches, with any system
    calls failing and every other component (sessions, network, PAM gate, boot
    id, response mode) answering anything. Unless the response mode made it
    ignore the event, the effective severity it reports is at least the
    requested one; no weaker severity than the requested one becomes possible
    for the state file that was not possible before; and when it confirms
    persistence of an escalation, or confirms it from a state file without
    unsynced changes, every crash brings back exactly the reported severity. *)
Theorem raise_end_to_end state_path target_path fic_group (X : Type) (other : ∀ c, X → resp c * X)
    wiring requested source reason s w x :
  visible state_path → visible target_path → state_path ≠ target_path → alone w → wf (w_disk w) →
  let out := run resp (disk_handle state_path target_path fic_group other) (raise wiring requested source reason s) [] (w, x) in
  let r := out.1.1.1 in
  let d' := w_disk out.2.1 in
  (r_ignoredByMode r = false → sev_le requested (r_effective r)) ∧
  (∀ s, may_be d' state_path s → may_be (w_disk w) state_path s ∨ sev_le requested s) ∧
  (r_persistenceConfirmed r = true → r_escalated r = true ∨ settled (w_disk w) state_path →
     ∀ s, may_be d' state_path s → s = r_effective r).
Proof.
  intros Hsv Htv Hne Ha Hw out.
  destruct (raises_on_disk state_path target_path fic_group other Hsv Htv Hne requested _ _ s w x
    (raise_once_backed wiring requested source reason s) Ha Hw) as [Hback HI]. fold out in Hback, HI.
  destruct (raise_outcome _ _ _ _ _ _ _ _ Hback HI) as [Hsev Hall]. split_and!; [done|apply HI|done].
Qed.
End properties.

(** * Witnesses *)

Definition two_disk : World := mkWorld (one_file "state" (serialize Unlocked)) (failing []).

Definition booted (c : Call) (e : unit) : resp c * unit :=
  match c return resp c * unit with BootId => (sample_boot, e) | c => agreeable c e end.

Lemma raise_end_to_end_witness :
  let out := run resp (disk_handle "state" "targets" 7 booted)
    (raise all_wired Standard (named_source "device") "test" initial_ctl) [] (two_disk, tt) in
  r_persistenceConfirmed out.1.1.1 = true ∧ r_escalated out.1.1.1 = true ∧
  ∀ s, may_be (w_disk out.2.1) "state" s → s = r_effective out.1.1.1.
Proof.
  split; [vm_compute; reflexivity|]. split; [vm_compute; reflexivity|].
  refine (proj2 (proj2 (raise_end_to_end "state" "targets" 7 unit booted all_wired Standard (named_source "device") "test"
    initial_ctl two_disk tt ltac:(done) ltac:(done) ltac:(done) (failing_alone _ _) (one_file_wf _ _))) _ (or_introl _));
    vm_compute; reflexivity.
Defined.
