(* ===== verification/Reporter.v ===== *)
(** From failed policies to the incident (fic/src/incident/
    PolicyIncidentReporter): the finished report of an execution is inspected
    and the controller is asked once for the worst severity that the failed
    policies declare. *)

From S2P Require Import Prelude Logger Severity PolicyValue ConfigFile PolicyModel Registry DependencyGraph Planner FileModel AtomicWriter AtomicFacts StateStore ResponseMode TargetStore Effects Controller ControllerFacts ControllerDisk.
Open Scope string_scope.
Open Scope list_scope.
Open Scope prog_scope.

(** * The reporter *)

Record Activation := mkActivation {
  a_severity : IncidentSeverity;
  a_source : IncidentSource;
  a_message : string;
  a_origin : PolicyFailureOrigin
}.

(** ["module/submodule/policy"], the second sort key. *)
Definition activation_ref (a : Activation) : string :=
  src_policyModule (a_source a) +:+ "/" +:+ src_policySubmodule (a_source a) +:+ "/" +:+ src_policyName (a_source a).

(** The comparison of the sort. Activations with equal keys may come in any
    order; the model keeps them as they came. *)
Definition activation_key (a : Activation) : Z * string := (severity_int (a_severity a), activation_ref a).
Definition activation_le (a b : Activation) : Prop := cle (activation_key a) (activation_key b).
#[export] Instance activation_le_dec a b : Decision (activation_le a b).
Proof. apply cle_dec. Defined.

Section reporter.
Context {W : Type} `{JsonArrays}.
Implicit Types reg : PolicyRegistry W.

(** What one result contributes. The severity of a policy that reacts always
    converts. *)
Definition activation_of reg (r : PolicyApplyResult) : option Activation :=
  if bool_decide (PolicyModel.status r ≠ Failed) then None
  else match findPolicy reg (result_ref r) with
  | None => None
  | Some policy =>
      if negb (isEnabled policy) then None
      else if negb (violationSeverityReacts (getViolationSeverity policy)) then None
      else match violationSeverityToIncidentSeverity (getViolationSeverity policy) with
           | Exn _ => None
           | Val severity =>
               Some (mkActivation severity
                 (mkSource "policy" (res_moduleName r) (res_submoduleName r) (res_policyName r) ""
                    (policyFailureOriginToString (failureOrigin r)))
                 (message r) (failureOrigin r))
           end
  end.

Definition worst (activations : list Activation) : IncidentSeverity :=
  foldl (λ s a, maxIncidentSeverity s (a_severity a)) Unlocked activations.

Definition activation_text (a : Activation) : string :=
  "; " +:+ activation_ref a +:+ " failed (" +:+ policyFailureOriginToString (a_origin a) +:+ "): " +:+ a_message a.
Definition activation_detail (reason : string) (activations : list Activation) : string :=
  foldl (λ d a, d +:+ activation_text a) reason activations.

Definition report (wiring : Wiring) reg (summary : PolicyApplySummary) (reason : string) : Ctrl IncidentSeverity :=
  match omap (activation_of reg) (results summary) with
  | [] => st ← Controller.status wiring; ret (st_severity st)
  | first :: rest =>
      let activations := merge_sort activation_le (first :: rest) in
      raised ← raise wiring (worst activations) (a_source (default first (last activations)))
                 (activation_detail reason activations);
      ret (r_effective raised)
  end.
End reporter.

(** * Facts *)

#[export] Instance activation_le_total : Total activation_le.
Proof. intros a b. apply (total cle). Qed.
#[export] Instance activation_le_trans : Transitive activation_le.
Proof. intros a b c. apply cle_trans. Qed.

Lemma worst_bound activations a : a ∈ activations → sev_le (a_severity a) (worst activations).
Proof.
  unfold worst. intros Ha. generalize Unlocked. induction activations as [|b l IH]; intros s; [by inversion Ha|].
  apply elem_of_cons in Ha as [<-|Ha]; simpl; [|by apply IH].
  transitivity (maxIncidentSeverity s (a_severity a)); [apply sev_le_max_r|]. clear IH.
  generalize (maxIncidentSeverity s (a_severity a)) as t. induction l as [|c l IH]; intros t; simpl; [reflexivity|].
  transitivity (maxIncidentSeverity t (a_severity c)); [apply sev_le_max_l|apply IH].
Qed.

Lemma worst_attained activations : activations ≠ [] → ∃ a, a ∈ activations ∧ a_severity a = worst activations.
Proof.
  unfold worst. destruct activations as [|a l]; [done|]. intros _. simpl. rewrite max_unlocked_l.
  revert a. induction l as [|b l IH]; intros a; simpl; [exists a; split; [by left|done]|].
  destruct (IH (if incidentSeverityLess (a_severity a) (a_severity b) then b else a)) as (c & Hc & Heq).
  exists c. split.
  - apply elem_of_cons in Hc as [->|Hc]; [|by do 2 right]. destruct (incidentSeverityLess _ _); [right; by left|by left].
  - rewrite Heq. f_equal. unfold maxIncidentSeverity. by destruct (incidentSeverityLess _ _).
Qed.

(** Two sorted arrangements of the same activations with different keys are
    the same list. *)
Lemma sorted_unique l l' : StronglySorted activation_le l → StronglySorted activation_le l' →
  NoDup (activation_key <$> l) → l ≡ₚ l' → l = l'.
Proof.
  revert l'. induction l as [|a l IH]; intros l' Hs Hs' Hnd Hp.
  - by apply Permutation_nil_l in Hp.
  - destruct l' as [|b l']; [by apply symmetry, Permutation_nil_cons in Hp|].
    apply StronglySorted_inv in Hs as [Hs Ha]. apply StronglySorted_inv in Hs' as [Hs' Hb].
    assert (a = b) as <-.
    { assert (b ∈ a :: l) as Hba by (rewrite Hp; by left). assert (a ∈ b :: l') as Hab by (rewrite <-Hp; by left).
      apply elem_of_cons in Hba as [->|Hba]; [done|]. apply elem_of_cons in Hab as [->|Hab]; [done|].
      rewrite Forall_forall in Ha, Hb. simpl in Hnd. apply NoDup_cons in Hnd as [Hnin _]. exfalso. apply Hnin.
      replace (activation_key a) with (activation_key b); [by apply list_elem_of_fmap_2|].
      apply (anti_symm cle); [by apply Hb|by apply Ha]. }
    f_equal. apply IH; [done|done|by inversion Hnd|by apply Permutation_cons_inv in Hp].
Qed.

Section facts.
Context {W : Type} `{JsonArrays}.
Implicit Types reg : PolicyRegistry W.

Lemma activation_of_failed reg r policy severity :
  PolicyModel.status r = Failed → findPolicy reg (result_ref r) = Some policy → isEnabled policy = true →
  violationSeverityToIncidentSeverity (getViolationSeverity policy) = Val severity →
  ∃ a, activation_of reg r = Some a ∧ a_severity a = severity.
Proof.
  intros Hst Hf He Hsev. unfold activation_of. rewrite bool_decide_eq_false_2 by naive_solver. rewrite Hf, He. simpl.
  assert (violationSeverityReacts (getViolationSeverity policy) = true) as ->.
  { unfold violationSeverityToIncidentSeverity in Hsev. by destruct (violationSeverityReacts _). }
  simpl. rewrite Hsev. by eexists.
Qed.

Lemma report_spec wiring reg summary reason s a :
  a ∈ omap (activation_of reg) (results summary) →
  ∃ requested, sev_le (a_severity a) requested ∧
    hoare resp (raises_once requested) [] s (report wiring reg summary reason)
      (λ h s' severity, ∃ r, raise_backed requested h s' r ∧ severity = r_effective r).
Proof.
  intros Ha. unfold report. destruct (omap _ _) as [|first rest] eqn:Hl; [by inversion Ha|].
  set (activations := merge_sort activation_le (first :: rest)). exists (worst activations). split.
  { apply worst_bound. unfold activations. by rewrite merge_sort_Permutation. }
  apply hoare_bind. eapply hoare_mono; [apply raise_once_backed|]. intros h s' r Hr. apply hoare_ret. eauto.
Qed.
End facts.

(** What a raise that was not ignored did to the disk. *)
Lemma raise_reached state_path severity requested d0 X h e s r :
  sev_le severity requested → raise_backed requested h s r → raise_inv (X := X) state_path requested d0 h e → r_ignoredByMode r = false →
  (∃ requested (answer : RaiseResult), sev_le severity requested ∧ Ev (StateRaise requested) answer ∈ h ∧
     if durable answer then
       r_effective r = effectiveSeverity answer ∧ sev_le severity (r_effective r) ∧
       (escalated answer = true ∨ settled d0 state_path → ∀ s', may_be (w_disk e.1) state_path s' → s' = r_effective r)
     else r_effective r = Isolate) ∨
  (∃ answer : RaiseResult, Ev (resp := resp) StateEncode answer ∈ h ∧ r_effective r = Isolate ∧
     (durable answer = true → ∀ s', may_be (w_disk e.1) state_path s' → s' = Isolate)).
Proof.
  intros Hle Hback HI Hign. destruct (rb_tried _ _ _ _ Hback Hign) as [(y & Hy & Hey)|(y & Hy & Hey)].
  - left. exists requested, y. split_and!; [done|done|]. destruct (durable y) eqn:Hd; [|done].
    destruct (ri_raised _ _ _ _ _ HI _ y Hy eq_refl Hd) as [Hq Hall]. rewrite Hey. split_and!; [done|by transitivity requested|].
    intros Hcase. apply Hall. destruct Hcase; auto.
  - right. exists y. split_and!; [done|done|]. intros Hd. by apply (ri_encoded _ _ _ _ _ HI y).
Qed.

(** * Properties *)


(** The order of the results does not matter: two summaries with the same
    results in any order are reported by the same calls, with the same severity,
    source and text, provided no two results have the same written reference. *)
Theorem report_order_independent {W} `{JsonArrays} wiring (reg : PolicyRegistry W) summary summary' reason :
  results summary ≡ₚ results summary' →
  NoDup ((λ r, res_moduleName r +:+ "/" +:+ res_submoduleName r +:+ "/" +:+ res_policyName r) <$> results summary) →
  report wiring reg summary reason = report wiring reg summary' reason.
Proof.
  intros Hp Hnd. set (text := λ r, _) in Hnd.
  assert (omap (activation_of reg) (results summary) ≡ₚ omap (activation_of reg) (results summary')) as Hl by (by rewrite Hp).
  assert (∀ r a, activation_of reg r = Some a → activation_ref a = text r) as Htext.
  { intros r a. unfold activation_of. repeat case_match; try done. by intros [= <-]. }
  assert (NoDup (activation_key <$> omap (activation_of reg) (results summary))) as Hkeys.
  { apply (NoDup_fmap_1 snd). rewrite <-list_fmap_compose. revert Hnd. clear -Htext. induction (results summary) as [|r l IH]; [done|].
    simpl. intros [Hr Hl]%NoDup_cons. destruct (activation_of reg r) as [a|] eqn:Ha; simpl; [|auto].
    apply NoDup_cons. split; [|auto]. intros (b & Hb & (r' & Hr' & Hact)%list_elem_of_omap)%list_elem_of_fmap.
    simpl in Hb. rewrite (Htext _ _ Ha), (Htext _ _ Hact) in Hb. apply Hr. rewrite Hb. by apply list_elem_of_fmap_2. }
  unfold report. destruct (omap _ (results summary)) as [|a l] eqn:E, (omap _ (results summary')) as [|a' l'] eqn:E'.
  - done.
  - by apply Permutation_nil_cons in Hl.
  - by apply symmetry, Permutation_nil_cons in Hl.
  - assert (merge_sort activation_le (a :: l) = merge_sort activation_le (a' :: l')) as Hs.
    { pose proof (merge_sort_Permutation activation_le (a :: l)) as H1.
      pose proof (merge_sort_Permutation activation_le (a' :: l')) as H2.
      apply sorted_unique; [by apply (StronglySorted_merge_sort _)..| |].
      - by rewrite H1.
      - by rewrite H1, H2. }
    rewrite Hs. destruct (last (merge_sort activation_le (a' :: l'))) as [z|] eqn:Hlast; [done|].
    apply last_None in Hlast. pose proof (merge_sort_Permutation activation_le (a' :: l')) as Hm.
    rewrite Hlast in Hm. by apply Permutation_nil_cons in Hm.
Qed.

(** * Witnesses *)

Definition broken_chain_state := final_state (run_sample chain_broken [ref_a] ∅).

Lemma broken_chain_runs :
  @execute _ binary_json still_clock chain_broken None (mkRequest [ref_a] ∅) [] = Some (Val broken_chain_state).
Proof. vm_compute. reflexivity. Qed.

Definition broken_policy := default (sample_policy ref_a true [] true) (findPolicy chain_broken ref_a).

Definition broken_chain_reported :=
  run resp (disk_handle "state" "targets" 7 booted)
    (report all_wired chain_broken (ps_summary broken_chain_state) "scheduled" initial_ctl) [] (two_disk, tt).

(** The calls of that report: not switched off, raised durably and upwards. *)
Definition raised_well (e : event resp) : bool :=
  match e with
  | Ev ResolveMode (Some m) => negb (bool_decide (response_mode m = ModeOff))
  | Ev (StateRaise _) y => durable y && escalated y
  | Ev StateEncode _ => false
  | _ => true
  end.
Lemma broken_chain_raised_well : forallb raised_well broken_chain_reported.1.2 = true.
Proof. vm_compute. reflexivity. Qed.


Lemma report_order_independent_witness :
  results (ps_summary broken_chain_state) ≠ reverse (results (ps_summary broken_chain_state)) ∧
  report all_wired chain_broken (ps_summary broken_chain_state) "scheduled" =
  report all_wired chain_broken (mkSummary (reverse (results (ps_summary broken_chain_state))) []) "scheduled".
Proof.
  split; [vm_compute; discriminate|].
  apply (@report_order_independent _ binary_json all_wired chain_broken (ps_summary broken_chain_state)
    (mkSummary (reverse (results (ps_summary broken_chain_state))) []) "scheduled").
  - simpl. by rewrite reverse_Permutation.
  - apply (bool_decide_unpack _). vm_compute. exact I.
Defined.
