(* ===== verification/DeviceData.v ===== *)
(** The devices of the device daemon and the categories that block them
    (fic-common/fic-device-db: the structures of DB.h and
    DeviceCategoryPolicy.h). *)

From S2P Require Import Prelude.
Open Scope string_scope.
Open Scope list_scope.

(** * Data *)

Record DeviceInfo := mkDevice {
  d_id : Z;
  device_hash : string;
  devpath : string;
  subsystem : string;
  device_type : string;
  parent_id : Z;
  control_level : string;
  control_explicit : bool;
  ignore_hierarchy : bool;
  boot_id : string;
  created_at : string;
  last_event_at : string;
  notes : string;
  children_control : string
}.
#[export] Instance DeviceInfo_eq_dec : EqDecision DeviceInfo.
Proof. solve_decision. Defined.

(** [DeviceInfo{-1}]: what a query that finds nothing returns. *)
Definition no_device : DeviceInfo := mkDevice (-1) "" "" "" "" (-1) "" true false "" "" "" "" "inherit".

(** [std::map<std::string, std::string>]. *)
Abbreviation DeviceIdentityTerms := (smap string string).

(** [find] with the empty string for a missing key. *)
Definition attribute (attributes : DeviceIdentityTerms) (name : string) : string := default "" (smap_find name attributes).

Record KnownDeviceIdentity := mkKnown {
  k_hash : string;
  k_subsystem : string;
  k_attributes : DeviceIdentityTerms
}.
#[export] Instance KnownDeviceIdentity_eq_dec : EqDecision KnownDeviceIdentity.
Proof. solve_decision. Defined.

Record DeviceCategoryPolicyState := mkCategories {
  block_usb_storage : string;
  block_printers_scanners : string;
  block_optical_drives : string;
  epochs : smap string Z;
  known : smap string (list KnownDeviceIdentity)
}.
#[export] Instance DeviceCategoryPolicyState_eq_dec : EqDecision DeviceCategoryPolicyState.
Proof. solve_decision. Defined.

(** * Patterns *)

(** [fnmatch(pattern, value, 0) == 0] for patterns without brackets and
    backslashes: a star stands for any text, slashes included, a question mark
    for one character. *)
Fixpoint fnmatch (pattern value : string) : bool :=
  match pattern with
  | "" => String.eqb value ""
  | String c pattern =>
      if Ascii.eqb c "*" then
        (fix star (value : string) : bool :=
           fnmatch pattern value || match value with "" => false | String _ value => star value end) value
      else match value with
           | "" => false
           | String d value => (Ascii.eqb c "?" || Ascii.eqb c d) && fnmatch pattern value
           end
  end.

(** The pieces between the bars: the loop with [find('|', start)]. *)
Fixpoint alternatives_from (piece : string) (pattern : string) : list string :=
  match pattern with
  | "" => [piece]
  | String c pattern =>
      if Ascii.eqb c "|" then piece :: alternatives_from "" pattern
      else alternatives_from (piece +:+ String c "") pattern
  end.
Definition alternatives (pattern : string) : list string := alternatives_from "" pattern.

Definition udevPatternMatches (pattern value : string) : bool :=
  existsb (λ p, fnmatch p value) (alternatives pattern).

(** * Categories *)

Record CategoryPredicate := mkPredicate {
  pred_subsystem : string;
  pred_attributes : DeviceIdentityTerms
}.

Definition usb_storage_predicates : list CategoryPredicate :=
  [ mkPredicate "block" [("ID_BUS", "usb")];
    mkPredicate "block" [("DEVPATH", "*/usb*/*")];
    mkPredicate "usb" [("ID_USB_INTERFACES", "*:08*")];
    mkPredicate "usb" [("TYPE", "8/*")];
    mkPredicate "usb" [("INTERFACE", "8/*")] ].
Definition usbPrinterPredicates : list CategoryPredicate :=
  [ mkPredicate "usb" [("ID_USB_INTERFACES", "*:06*|*:07*")];
    mkPredicate "usb" [("TYPE", "6/*|7/*")];
    mkPredicate "usb" [("INTERFACE", "6/*|7/*")];
    mkPredicate "usb" [("MODALIAS", "*ic06*|*ic07*")] ].
Definition optical_predicates : list CategoryPredicate :=
  [ mkPredicate "block" [("ID_CDROM", "1")];
    mkPredicate "block" [("ID_CDROM_CD", "1")];
    mkPredicate "block" [("ID_TYPE", "cd")] ].

(** The map in the order of its keys. *)
Definition categoryPredicates : list (string * list CategoryPredicate) :=
  [ ("block_optical_drives", optical_predicates);
    ("block_printers_scanners",
      usbPrinterPredicates ++
      foldr (λ s l, ((λ p, mkPredicate s (smap_set "ID_BUS" "usb" (pred_attributes p))) <$> usbPrinterPredicates) ++ l)
        [] ["usbmisc"; "pci"; "block"]);
    ("block_usb_storage",
      usb_storage_predicates ++
      foldr (λ s l, if negb (String.eqb s "block")
                    then mkPredicate s [("DEVTYPE", "disk"); ("ID_BUS", "usb")] :: l else l)
        [] ["usbmisc"; "pci"; "block"]) ].

(** [None]: the exception for a name that is no category; the callers only ask
    for the names of [categoryPredicates]. *)
Definition categoryMode (state : DeviceCategoryPolicyState) (category : string) : option string :=
  if String.eqb category "block_usb_storage" then Some (block_usb_storage state)
  else if String.eqb category "block_printers_scanners" then Some (block_printers_scanners state)
  else if String.eqb category "block_optical_drives" then Some (block_optical_drives state)
  else None.

Definition mode_is (state : DeviceCategoryPolicyState) (category mode : string) : bool :=
  bool_decide (categoryMode state category = Some mode).

(** [find_first_of(set) != npos]. *)
Fixpoint contains_any (set s : string) : bool :=
  match s with
  | "" => false
  | String c s => contains c set || contains_any set s
  end.

Definition newline : string := String (Ascii.ascii_of_nat 10) "".
Definition unsafe_chars : string :=
  "*?[|\" +:+ String (Ascii.ascii_of_nat 34) newline +:+ String (Ascii.ascii_of_nat 13) (String (Ascii.ascii_of_nat 9) "$%").

(** Below 0x20 or 0x7f. *)
Definition control_char (c : Ascii.ascii) : bool := (Ascii.nat_of_ascii c <? 32)%nat || (Ascii.nat_of_ascii c =? 127)%nat.
Fixpoint has_control (s : string) : bool :=
  match s with
  | "" => false
  | String c s => control_char c || has_control s
  end.

Definition safe_term (entry : string) : bool :=
  negb (String.eqb entry "") && negb (contains_any unsafe_chars entry) && negb (has_control entry).

(** The terms before the two safety loops. *)
Definition raw_identity_terms (sub : string) (attributes : DeviceIdentityTerms) : option DeviceIdentityTerms :=
  let value := attribute attributes in
  if String.eqb sub "usb" then
    if String.eqb (value "DEVTYPE") "usb_device" then
      if match smap_find "FIC_PHYSICAL_SERIAL" attributes with Some _ => true | None => false end &&
         (negb (String.eqb (value "FIC_PHYSICAL_SERIAL") (value "ID_SERIAL_SHORT")) ||
          negb (String.eqb (value "FIC_PHYSICAL_VENDOR") (value "ID_VENDOR_ID")) ||
          negb (String.eqb (value "FIC_PHYSICAL_MODEL") (value "ID_MODEL_ID")))
      then None
      else Some [("idProduct", value "ID_MODEL_ID"); ("idVendor", value "ID_VENDOR_ID"); ("serial", value "ID_SERIAL_SHORT")]
    else if String.eqb (value "DEVTYPE") "usb_interface" then
      Some [("idProduct", value "FIC_PHYSICAL_MODEL"); ("idVendor", value "FIC_PHYSICAL_VENDOR");
            ("serial", value "FIC_PHYSICAL_SERIAL")]
    else None
  else if String.eqb sub "block" then
    if negb (String.eqb (value "ID_WWN") "") then Some [("ID_WWN", value "ID_WWN")]
    else Some [("ID_MODEL", value "ID_MODEL"); ("ID_SERIAL_SHORT", value "ID_SERIAL_SHORT"); ("ID_VENDOR", value "ID_VENDOR")]
  else None.

Definition physicalIdentityTerms (sub : string) (attributes : DeviceIdentityTerms) : option DeviceIdentityTerms :=
  match raw_identity_terms sub attributes with
  | Some terms => if forallb (λ t, safe_term t.2) terms then Some terms else None
  | None => None
  end.

Definition predicate_matches (device : DeviceInfo) (attributes : DeviceIdentityTerms) (p : CategoryPredicate) : bool :=
  String.eqb (pred_subsystem p) (subsystem device) &&
  forallb (λ kp, udevPatternMatches kp.2 (attribute attributes kp.1)) (pred_attributes p).

(** [categoryPredicates().at(category)]. *)
Definition predicates_of (category : string) : list CategoryPredicate := default [] (smap_find category categoryPredicates).

Definition categoryMatches (category : string) (device : DeviceInfo) (attributes : DeviceIdentityTerms) : bool :=
  existsb (predicate_matches device (smap_set "DEVPATH" (devpath device) attributes)) (predicates_of category).

Definition knownAtCategoryEpoch (state : DeviceCategoryPolicyState) (category : string) (device : DeviceInfo)
    (attributes : DeviceIdentityTerms) : bool :=
  match physicalIdentityTerms (subsystem device) attributes with
  | None => false
  | Some terms =>
      match smap_find category (known state) with
      | None => false
      | Some identities =>
          existsb (λ identity, String.eqb (k_subsystem identity) (subsystem device) &&
            bool_decide (physicalIdentityTerms (k_subsystem identity) (k_attributes identity) = Some terms)) identities
      end
  end.

Record DeviceCategoryDecision := mkDecision { dec_category : string; dec_mode : string }.

(** Whether a category denies in this mode. *)
Definition denies (state : DeviceCategoryPolicyState) (device : DeviceInfo) (attributes : DeviceIdentityTerms)
    (mode category : string) : bool :=
  mode_is state category mode && categoryMatches category device attributes &&
  (String.eqb mode "all" || negb (knownAtCategoryEpoch state category device attributes)).

Definition category_names : list string := categoryPredicates.*1.

Definition categoryDenial (state : DeviceCategoryPolicyState) (device : DeviceInfo) (attributes : DeviceIdentityTerms)
    (hardOnly : bool) : option DeviceCategoryDecision :=
  let first mode := (λ c, mkDecision c mode) <$> head (filter (denies state device attributes mode) category_names) in
  match first "all" with
  | Some decision => Some decision
  | None => if hardOnly then None else first "new"
  end.

Example printer_category :
  categoryMatches "block_printers_scanners" (mkDevice 7 "h" "/devices/pci0000:00/usb1/1-2" "usb" "usb" 1 "allowed" false false "b" "" "" "" "inherit")
    [("DEVTYPE", "usb_device"); ("ID_USB_INTERFACES", ":070103:")] = true.
Proof. vm_compute. reflexivity. Qed.
