(* ===== verification/DeviceDb.v ===== *)
(** The device database (fic-common/fic-device-db/src/DB.cpp): its tables and
    the effect of each statement the program executes on them.

    A table is the list of its rows in rowid order, the order in which SQLite
    visits both the table and the entries of an index with equal keys. The
    constraints and triggers of the schema are part of the statements: CHECK and
    FOREIGN KEY constraints refuse them, deletions cascade, and the triggers
    count revisions. A NULL parent is stored as -1, as [resultToDeviceInfo]
    reads it. [now] is CURRENT_TIMESTAMP. Errors of SQLite itself are in
    [DeviceLifecycle], which runs these statements in transactions. *)

From S2P Require Import Prelude DeviceData.
Open Scope string_scope.
Open Scope list_scope.
Open Scope Z_scope.

(** * Tables *)

Record DeviceEvent := mkEvent {
  ev_id : Z;
  ev_device_id : Z;
  event_type : string;
  event_result : string;
  event_details : string;
  ev_created_at : string
}.

Record Tables := mkTables {
  devices : list DeviceInfo;
  attribute_rows : smap Z DeviceIdentityTerms;
  events : list DeviceEvent;
  next_device : Z;
  next_event : Z;
  tree_revision : Z;
  desired_revision : Z;
  active_revision : Z;
  categories : DeviceCategoryPolicyState
}.

Definition with_devices (l : list DeviceInfo) (t : Tables) : Tables :=
  mkTables l (attribute_rows t) (events t) (next_device t) (next_event t) (tree_revision t) (desired_revision t)
    (active_revision t) (categories t).
Definition with_attributes (a : smap Z DeviceIdentityTerms) (t : Tables) : Tables :=
  mkTables (devices t) a (events t) (next_device t) (next_event t) (tree_revision t) (desired_revision t)
    (active_revision t) (categories t).
Definition with_events (l : list DeviceEvent) (t : Tables) : Tables :=
  mkTables (devices t) (attribute_rows t) l (next_device t) (next_event t) (tree_revision t) (desired_revision t)
    (active_revision t) (categories t).
Definition with_sequences (device event : Z) (t : Tables) : Tables :=
  mkTables (devices t) (attribute_rows t) (events t) device event (tree_revision t) (desired_revision t)
    (active_revision t) (categories t).
Definition with_revisions (tree desired active : Z) (t : Tables) : Tables :=
  mkTables (devices t) (attribute_rows t) (events t) (next_device t) (next_event t) tree desired active (categories t).
Definition with_categories (c : DeviceCategoryPolicyState) (t : Tables) : Tables :=
  mkTables (devices t) (attribute_rows t) (events t) (next_device t) (next_event t) (tree_revision t) (desired_revision t)
    (active_revision t) c.

(** The triggers [device_tree_revision_*] and [device_policy_revision_*]. *)
Definition bump_tree (n : nat) (t : Tables) : Tables :=
  with_revisions (tree_revision t + Z.of_nat n) (desired_revision t) (active_revision t) t.
Definition bump_desired (n : nat) (t : Tables) : Tables :=
  with_revisions (tree_revision t) (desired_revision t + Z.of_nat n) (active_revision t) t.

(** * Queries *)

Definition first_device (P : DeviceInfo → bool) (t : Tables) : DeviceInfo := default no_device (head (filter P (devices t))).

Definition getDeviceById (t : Tables) (id : Z) : DeviceInfo := first_device (λ d, d_id d =? id) t.
Definition getDeviceByPathAndBootId (t : Tables) (path boot : string) : DeviceInfo :=
  first_device (λ d, String.eqb (devpath d) path && String.eqb (boot_id d) boot) t.
Definition getDeviceByDevpathAndSubsystem (t : Tables) (path sub : string) : DeviceInfo :=
  first_device (λ d, String.eqb (devpath d) path && String.eqb (subsystem d) sub) t.
Definition getDeviceByDevpathSubsystemAndBootId (t : Tables) (path sub boot : string) : DeviceInfo :=
  first_device (λ d, String.eqb (devpath d) path && String.eqb (subsystem d) sub && String.eqb (boot_id d) boot) t.
Definition same_identity (hash sub : string) (d : DeviceInfo) : bool :=
  String.eqb (device_hash d) hash && String.eqb (subsystem d) sub.
Definition getDeviceByHashAndSubsystem (t : Tables) (hash sub : string) : DeviceInfo :=
  first_device (same_identity hash sub) t.
Definition getDeviceByHashAndSubsystemAndParent (t : Tables) (hash sub : string) (parent : Z) : DeviceInfo :=
  first_device (λ d, same_identity hash sub d && (parent_id d =? parent)) t.
Definition getDevicesByHashAndSubsystem (t : Tables) (hash sub : string) : list DeviceInfo :=
  filter (same_identity hash sub) (devices t).
Definition getAllDevices (t : Tables) : list DeviceInfo := devices t.
Definition getComputerRoot (t : Tables) : DeviceInfo :=
  first_device (λ d, String.eqb (device_hash d) "virtual_computer_root_sha256_placeholder" &&
    String.eqb (subsystem d) "__computer__" && String.eqb (device_type d) "computer") t.

(** A comparison with the bound NULL holds of no row. *)
Definition getChildDevices (t : Tables) (parent : Z) : list DeviceInfo :=
  if 0 <? parent then filter (λ d, parent_id d =? parent) (devices t) else [].

Definition getDeviceAttributes (t : Tables) (id : Z) : DeviceIdentityTerms := default [] (smap_find id (attribute_rows t)).
Definition getDeviceAttribute (t : Tables) (id : Z) (name default_string : string) : string :=
  match smap_find name (getDeviceAttributes t id) with
  | Some value => if String.eqb value "" then default_string else value
  | None => default_string
  end.

(** The recursion has no end on a cycle of parents; [None] is that. *)
Fixpoint getDescendantDevices (fuel : nat) (t : Tables) (parent : Z) : option (list DeviceInfo) :=
  match fuel with
  | O => None
  | S fuel =>
      foldr (λ child rest,
        match rest, getDescendantDevices fuel t (d_id child) with
        | Some rest, Some below => Some (child :: below ++ rest)
        | _, _ => None
        end) (Some []) (getChildDevices t parent)
  end.

Definition getDeviceTreeRevision (t : Tables) : Z := tree_revision t.
Definition getDesiredPolicyRevision (t : Tables) : Z := desired_revision t.
Definition getActivePolicyRevision (t : Tables) : Z := active_revision t.

Definition mode_valid (mode : string) : bool :=
  String.eqb mode "disabled" || String.eqb mode "new" || String.eqb mode "all".

(** The three categories in the order of the source's arrays. *)
Definition state_modes (c : DeviceCategoryPolicyState) : list (string * string) :=
  [("block_usb_storage", block_usb_storage c); ("block_printers_scanners", block_printers_scanners c);
   ("block_optical_drives", block_optical_drives c)].
Definition epoch_of (c : DeviceCategoryPolicyState) (category : string) : Z := default 0 (smap_find category (epochs c)).

(** The checks while the row is read; [None] is the exception. *)
Definition getDeviceCategoryPolicyState (t : Tables) : option DeviceCategoryPolicyState :=
  let c := categories t in
  if forallb (λ nm, (0 <=? epoch_of c nm.1) && negb (String.eqb nm.2 "new" && (epoch_of c nm.1 =? 0)) && mode_valid nm.2)
       (state_modes c)
  then Some c else None.

(** * Updates *)

Definition level_valid (level : string) : bool :=
  existsb (String.eqb level) ["blocked"; "allowed"; "permanent"; "ignored"].
Definition children_valid (level : string) : bool := existsb (String.eqb level) ["allow"; "deny"; "inherit"].
Definition device_exists (t : Tables) (id : Z) : bool := existsb (λ d, d_id d =? id) (devices t).

(** The WHEN clause of [device_policy_revision_devices_update]. *)
Definition policy_changed (old new : DeviceInfo) : bool :=
  negb (String.eqb (control_level old) (control_level new) && Bool.eqb (control_explicit old) (control_explicit new) &&
        Bool.eqb (ignore_hierarchy old) (ignore_hierarchy new) && String.eqb (children_control old) (children_control new)).

Definition row_valid (d : DeviceInfo) : bool := level_valid (control_level d) && children_valid (children_control d).
Definition parent_valid (t : Tables) (d : DeviceInfo) : bool := (parent_id d =? -1) || device_exists t (parent_id d).

(** [UPDATE devices SET ... WHERE id = ?]: the rows, and how many changed.
    [None]: a constraint refused it. *)
Definition update_device (f : DeviceInfo → DeviceInfo) (id : Z) (t : Tables) : option (Tables * nat) :=
  let matching := filter (λ d, d_id d =? id) (devices t) in
  if forallb (λ d, row_valid (f d) && parent_valid t (f d)) matching then
    let t' := with_devices ((λ d, if d_id d =? id then f d else d) <$> devices t) t in
    Some (bump_desired (length (filter (λ d, policy_changed d (f d)) matching)) (bump_tree (length matching) t'),
          length matching)
  else None.

(** The result of a statement: success and the tables. *)
Definition settle (r : option (Tables * nat)) (need_rows : bool) (t : Tables) : bool * Tables :=
  match r with
  | None => (false, t)
  | Some (t', n) => (negb need_rows || (0 <? n)%nat, t')
  end.

Definition set_control (level : string) (explicit ignore : bool) (children : string) (d : DeviceInfo) : DeviceInfo :=
  mkDevice (d_id d) (device_hash d) (devpath d) (subsystem d) (device_type d) (parent_id d) level explicit ignore
    (boot_id d) (created_at d) (last_event_at d) (notes d) children.
Definition set_boot (boot now : string) (d : DeviceInfo) : DeviceInfo :=
  mkDevice (d_id d) (device_hash d) (devpath d) (subsystem d) (device_type d) (parent_id d) (control_level d)
    (control_explicit d) (ignore_hierarchy d) boot (created_at d) now (notes d) (children_control d).
(** All columns but the key and the two timestamps. *)
Definition overwrite (new old : DeviceInfo) : DeviceInfo :=
  mkDevice (d_id old) (device_hash new) (devpath new) (subsystem new) (device_type new) (parent_id new) (control_level new)
    (control_explicit new) (ignore_hierarchy new) (boot_id new) (created_at old) (last_event_at old) (notes new)
    (children_control new).

Definition updateDevice (t : Tables) (device : DeviceInfo) (id : Z) : bool * Tables :=
  settle (update_device (overwrite device) id t) false t.
Definition updateDeviceControlLevel (t : Tables) (id : Z) (level : string) : bool * Tables :=
  settle (update_device (λ d, set_control level true (ignore_hierarchy d) (children_control d) d) id t) false t.
Definition updateDeviceControl (t : Tables) (id : Z) (level : string) (explicit ignore : bool) (children : string)
  : bool * Tables :=
  settle (update_device (set_control level explicit ignore children) id t) false t.
Definition updateDeviceIgnoreHierarchy (t : Tables) (id : Z) (ignore : bool) : bool * Tables :=
  settle (update_device (λ d, set_control (control_level d) (control_explicit d) ignore (children_control d) d) id t) false t.
Definition updateDeviceChildrenControl (t : Tables) (id : Z) (children : string) : bool * Tables :=
  settle (update_device (λ d, set_control (control_level d) (control_explicit d) (ignore_hierarchy d) children d) id t) true t.
Definition updateBootId (now : string) (t : Tables) (id : Z) (boot : string) : bool * Tables :=
  if id <=? 0 then (false, t) else settle (update_device (set_boot boot now) id t) true t.

(** The new row's id, or -1. A bound parent of -1 names no row and is refused. *)
Definition addDevice (now : string) (t : Tables) (device : DeviceInfo) : Z * Tables :=
  if row_valid device && device_exists t (parent_id device) then
    let row := mkDevice (next_device t) (device_hash device) (devpath device) (subsystem device) (device_type device)
                 (parent_id device) (control_level device) (control_explicit device) (ignore_hierarchy device)
                 (boot_id device) now now (notes device) (children_control device) in
    (next_device t, bump_tree 1 (with_sequences (next_device t + 1) (next_event t) (with_devices (devices t ++ [row]) t)))
  else (-1, t).

(** A replaced row fires the insert trigger only. *)
Definition addDeviceAttribute (t : Tables) (id : Z) (name value : string) : bool * Tables :=
  if device_exists t id then
    (true, bump_tree 1 (with_attributes (smap_set id (smap_set name value (getDeviceAttributes t id)) (attribute_rows t)) t))
  else (false, t).

Definition event_valid (type result : string) : bool :=
  existsb (String.eqb type) ["connect"; "disconnect"; "block"; "allow"; "lock"; "unlock"] &&
  existsb (String.eqb result) ["success"; "blocked_by_parent"; "blocked_by_policy"; "error"; "temporary_allowed"].

Definition addDeviceEvent (now : string) (t : Tables) (device : Z) (type result details : string) : Z * Tables :=
  if event_valid type result && device_exists t device then
    (next_event t, bump_tree 1 (with_sequences (next_device t) (next_event t + 1)
       (with_events (events t ++ [mkEvent (next_event t) device type result details now]) t)))
  else (-1, t).

(** Rows whose parent is among [ids], added until nothing changes: the rows a
    cascading deletion removes. *)
Definition cascade_step (t : Tables) (ids : list Z) : list Z :=
  ids ++ (d_id <$> filter (λ d, parent_id d ∈ ids ∧ d_id d ∉ ids) (devices t)).
Definition cascade (t : Tables) (id : Z) : list Z := Nat.iter (length (devices t)) (cascade_step t) [id].

Definition deleteDevice (t : Tables) (id : Z) : bool * Tables :=
  if device_exists t id then
    let gone := cascade t id in
    let kept := filter (λ d, d_id d ∉ gone) (devices t) in
    let kept_events := filter (λ e, ev_device_id e ∉ gone) (events t) in
    let lost_attributes := sum_list_with (λ a, length a.2) (filter (λ a, a.1 ∈ gone) (attribute_rows t)) in
    let rows := (length (devices t) - length kept)%nat in
    (true,
      bump_desired rows (bump_tree (rows + (length (events t) - length kept_events) + lost_attributes)%nat
        (with_events kept_events (with_attributes (filter (λ a, a.1 ∉ gone) (attribute_rows t)) (with_devices kept t)))))
  else (false, t).

Definition setActivePolicyRevision (t : Tables) (revision : Z) : Tables :=
  with_revisions (tree_revision t) (desired_revision t) revision t.

(** * Category epochs *)

(** [attribute_name IN (...) AND attribute_value != '']. *)
Definition has_proof (attributes : DeviceIdentityTerms) : bool :=
  existsb (λ name, negb (String.eqb (attribute attributes name) "")) ["ID_SERIAL_SHORT"; "ID_WWN"; "FIC_PHYSICAL_SERIAL"].

(** The occurrence that provides the attributes of an identity: the one with
    the greatest id among those with a proof. *)
Definition proving_occurrence (t : Tables) (hash sub : string) : option DeviceInfo :=
  last (filter (λ d, has_proof (getDeviceAttributes t (d_id d)) = true) (getDevicesByHashAndSubsystem t hash sub)).

(** What the two INSERT statements store and the ordered query reads back. *)
Definition identity_keys (t : Tables) : list (string * string) :=
  sort_set (remove_dups ((λ d, (device_hash d, subsystem d)) <$> devices t)).
Definition capture_identities (t : Tables) : list KnownDeviceIdentity :=
  (λ key, mkKnown key.1 key.2
     match proving_occurrence t key.1 key.2 with
     | Some d => getDeviceAttributes t (d_id d)
     | None => []
     end) <$> identity_keys t.

(** A map entry exists only when there is a row for it. *)
Definition store_known (category : string) (identities : list KnownDeviceIdentity) (k : smap string (list KnownDeviceIdentity))
  : smap string (list KnownDeviceIdentity) :=
  match identities with
  | [] => filter (λ e, e.1 ≠ category) k
  | _ => smap_set category identities k
  end.

Definition set_mode (category mode : string) (c : DeviceCategoryPolicyState) : DeviceCategoryPolicyState :=
  if String.eqb category "block_usb_storage" then
    mkCategories mode (block_printers_scanners c) (block_optical_drives c) (epochs c) (known c)
  else if String.eqb category "block_printers_scanners" then
    mkCategories (block_usb_storage c) mode (block_optical_drives c) (epochs c) (known c)
  else mkCategories (block_usb_storage c) (block_printers_scanners c) mode (epochs c) (known c).

(** One round of the loop over the categories. *)
Definition update_category (t : Tables) (category mode : string) (c : DeviceCategoryPolicyState) : DeviceCategoryPolicyState :=
  if bool_decide (categoryMode c category = Some mode) then c
  else
    let c := if String.eqb mode "new"
             then mkCategories (block_usb_storage c) (block_printers_scanners c) (block_optical_drives c)
                    (smap_set category (epoch_of c category + 1) (epochs c))
                    (store_known category (capture_identities t) (known c))
             else c in
    set_mode category mode c.

Definition updateDeviceCategoryPolicyState (t : Tables) (state : DeviceCategoryPolicyState) : bool * Tables :=
  if negb (forallb (λ nm, mode_valid nm.2) (state_modes state)) then (false, t)
  else match getDeviceCategoryPolicyState t with
  | None => (false, t)
  | Some previous =>
      let updated := foldl (λ c nm, update_category t nm.1 nm.2 c) previous (state_modes state) in
      let changed := negb (bool_decide (state_modes previous = state_modes state)) in
      (true, if changed then bump_desired 1 (bump_tree 1 (with_categories updated t)) else t)
  end.

(** * The baseline *)

Definition container (now : string) (id : Z) (hash path sub type : string) (parent : Z) (note : string) : DeviceInfo :=
  mkDevice id hash path sub type parent "allowed" true false "-1" now now note "inherit".

(** [SCHEMA_SQL] and [BASELINE_DATA_SQL] on a new file. Each row fires the
    insert trigger. *)
Definition baseline (now : string) : Tables :=
  mkTables
    [ container now 1 "virtual_computer_root_sha256_placeholder" "/" "__computer__" "computer" (-1) "FIC virtual computer root";
      container now 2 "virtual_container_cpu_sha256_placeholder" "/cpu_list" "__cpu__" "container_cpu" 1 "FIC virtual CPU container";
      container now 3 "virtual_container_memory_sha256_placeholder" "/memory_list" "__memory__" "container_memory" 1
        "FIC virtual memory container";
      container now 4 "virtual_container_board_sha256_placeholder" "/board_list" "__board__" "container_board" 1
        "FIC virtual board container";
      container now 5 "virtual_container_udev_sha256_placeholder" "/devices" "__udev__" "container_udev" 1
        "FIC virtual udev container";
      container now 6 "virtual_container_pci_sha256_placeholder" "/devices/pci0000:00" "__pci__" "container_pci" 5
        "FIC virtual PCI container" ]
    [] [] 7 1 6 0 0
    (mkCategories "disabled" "disabled" "disabled"
       [("block_optical_drives", 0); ("block_printers_scanners", 0); ("block_usb_storage", 0)] []).

(** * Sequences of statements *)

Inductive Statement :=
  | AddDevice (device : DeviceInfo)
  | UpdateDevice (device : DeviceInfo) (id : Z)
  | UpdateControlLevel (id : Z) (level : string)
  | UpdateControl (id : Z) (level : string) (explicit ignore : bool) (children : string)
  | UpdateIgnoreHierarchy (id : Z) (ignore : bool)
  | UpdateChildrenControl (id : Z) (children : string)
  | UpdateBootId (id : Z) (boot : string)
  | DeleteDevice (id : Z)
  | AddAttribute (id : Z) (name value : string)
  | AddEvent (device : Z) (type result details : string)
  | SetActiveRevision (revision : Z)
  | UpdateCategories (state : DeviceCategoryPolicyState).

Definition perform (now : string) (t : Tables) (s : Statement) : Tables :=
  match s with
  | AddDevice device => (addDevice now t device).2
  | UpdateDevice device id => (updateDevice t device id).2
  | UpdateControlLevel id level => (updateDeviceControlLevel t id level).2
  | UpdateControl id level explicit ignore children => (updateDeviceControl t id level explicit ignore children).2
  | UpdateIgnoreHierarchy id ignore => (updateDeviceIgnoreHierarchy t id ignore).2
  | UpdateChildrenControl id children => (updateDeviceChildrenControl t id children).2
  | UpdateBootId id boot => (updateBootId now t id boot).2
  | DeleteDevice id => (deleteDevice t id).2
  | AddAttribute id name value => (addDeviceAttribute t id name value).2
  | AddEvent device type result details => (addDeviceEvent now t device type result details).2
  | SetActiveRevision revision => setActivePolicyRevision t revision
  | UpdateCategories state => (updateDeviceCategoryPolicyState t state).2
  end.

(** * The invariant of the schema *)

Definition categories_ok (c : DeviceCategoryPolicyState) : Prop :=
  smap_wf (epochs c) ∧ smap_wf (known c) ∧
  Forall (λ nm, 0 ≤ epoch_of c nm.1 ∧ (nm.2 = "new" → epoch_of c nm.1 ≠ 0) ∧ mode_valid nm.2 = true) (state_modes c).

Record db_ok (t : Tables) : Prop := {
  ok_ids : StronglySorted Z.lt (d_id <$> devices t);
  ok_range : ∀ d, d ∈ devices t → 0 < d_id d < next_device t;
  ok_rows : ∀ d, d ∈ devices t → row_valid d = true;
  ok_parents : ∀ d, d ∈ devices t → parent_id d = -1 ∨ parent_id d ∈ d_id <$> devices t;
  ok_attributes : smap_wf (attribute_rows t) ∧
    ∀ id a, (id, a) ∈ attribute_rows t → id ∈ d_id <$> devices t ∧ smap_wf a;
  ok_events : ∀ e, e ∈ events t → ev_device_id e ∈ d_id <$> devices t ∧ event_valid (event_type e) (event_result e) = true;
  ok_categories : categories_ok (categories t)
}.

Lemma device_exists_spec t id : device_exists t id = true ↔ id ∈ d_id <$> devices t.
Proof.
  unfold device_exists. rewrite existsb_exists, list_elem_of_fmap. split.
  - intros (d & Hd & Heq%Z.eqb_eq). exists d. split; [done|]. by apply list_elem_of_In.
  - intros (d & -> & Hd). exists d. split; [by apply list_elem_of_In|apply Z.eqb_refl].
Qed.

Lemma baseline_ok now : db_ok (baseline now).
Proof.
  split.
  - repeat constructor; lia.
  - apply Forall_forall. repeat constructor; simpl; lia.
  - apply Forall_forall. repeat constructor.
  - apply Forall_forall. repeat constructor; simpl; rewrite ?elem_of_cons; naive_solver lia.
  - split; [constructor|]. intros id a Hin. inversion Hin.
  - intros e He. inversion He.
  - by split; repeat constructor.
Qed.

(** ** Statements that change rows *)

(** The keys stay. *)
Definition keeps_key (f : DeviceInfo → DeviceInfo) : Prop := ∀ d, d_id (f d) = d_id d.

Definition updated (f : DeviceInfo → DeviceInfo) (id : Z) (l : list DeviceInfo) : list DeviceInfo :=
  (λ d, if d_id d =? id then f d else d) <$> l.

Lemma updated_ids f id l : keeps_key f → d_id <$> updated f id l = d_id <$> l.
Proof.
  intros Hf. unfold updated. rewrite <-list_fmap_compose. apply list_fmap_ext. intros i d _. simpl. destruct (d_id d =? id); auto.
Qed.

Lemma update_device_ok f id t t' n : keeps_key f → db_ok t → update_device f id t = Some (t', n) → db_ok t'.
Proof.
  intros Hf [Hids Hrange Hrows Hpar Hatt Hev Hcat]. unfold update_device.
  destruct (forallb _ _) eqn:Hall; [|done]. intros [= <- <-]. rewrite forallb_forall in Hall.
  fold (updated f id (devices t)). pose proof (updated_ids f id (devices t) Hf) as Hk.
  assert (∀ d, d ∈ updated f id (devices t) → ∃ d0, d0 ∈ devices t ∧ d_id d0 = d_id d ∧
    (d = d0 ∨ row_valid d = true ∧ parent_valid t d = true)) as Hcase.
  { intros d (d0 & -> & Hd0)%list_elem_of_fmap. exists d0. destruct (Z.eqb_spec (d_id d0) id) as [Heq|Hne].
    - split_and!; [done|by rewrite Hf|]. right. apply andb_true_iff, Hall, list_elem_of_In, list_elem_of_filter.
      split; [by apply Is_true_true, Z.eqb_eq|done].
    - by split_and!; [..|left]. }
  split; simpl; rewrite ?Hk; [done| | | |done|done|done].
  - intros d Hd. destruct (Hcase d Hd) as (d0 & Hd0 & <- & _). auto.
  - intros d Hd. destruct (Hcase d Hd) as (d0 & Hd0 & _ & [->|[? _]]); auto.
  - intros d Hd. destruct (Hcase d Hd) as (d0 & Hd0 & _ & [->|[_ Hp]]); [auto|].
    apply orb_true_iff in Hp as [?%Z.eqb_eq|?%device_exists_spec]; auto.
Qed.

Lemma settle_ok f id need t : keeps_key f → db_ok t → db_ok (settle (update_device f id t) need t).2.
Proof.
  intros Hf Hok. destruct (update_device f id t) as [[t' n]|] eqn:Hu; simpl; [|done]. by eapply update_device_ok.
Qed.

(** ** The cascade *)

Lemma cascade_step_incl t ids id : id ∈ ids → id ∈ cascade_step t ids.
Proof. intros Hid. apply elem_of_app. by left. Qed.

Definition closed (t : Tables) (ids : list Z) : Prop := ∀ d, d ∈ devices t → parent_id d ∈ ids → d_id d ∈ ids.

Lemma cascade_step_closed t ids : closed t ids → cascade_step t ids = ids.
Proof.
  intros Hc. unfold cascade_step. replace (filter _ (devices t)) with (@nil DeviceInfo); [by rewrite app_nil_r|].
  symmetry. apply elem_of_nil_inv. intros d [[Hp Hn] Hd]%list_elem_of_filter. by apply Hn, Hc.
Qed.

Definition outside (t : Tables) (ids : list Z) : nat := length (filter (λ d, d_id d ∉ ids) (devices t)).

Lemma cascade_step_progress t ids : closed t ids ∨ (outside t (cascade_step t ids) < outside t ids)%nat.
Proof.
  destruct (decide (Forall (λ d, parent_id d ∈ ids → d_id d ∈ ids) (devices t))) as [Hc|Hn].
  { left. intros d Hd. by apply (proj1 (Forall_forall _ _) Hc). }
  right. apply not_Forall_Exists in Hn; [|apply _]. apply Exists_exists in Hn as (d & Hd & Hbad).
  assert (parent_id d ∈ ids ∧ d_id d ∉ ids) as [Hp Hnd].
  { destruct (decide (parent_id d ∈ ids)) as [Hp|Hnp]; [split; [done|intros ?; by apply Hbad]|by exfalso; apply Hbad]. }
  unfold outside. clear Hbad. assert (d_id d ∈ cascade_step t ids) as Hin.
  { apply elem_of_app. right. apply list_elem_of_fmap. exists d. split; [done|]. by apply list_elem_of_filter. }
  assert (∀ x, x ∈ ids → x ∈ cascade_step t ids) as Hmono by (intros x; apply cascade_step_incl). clear Hp.
  induction (devices t) as [|x l IH]; [by inversion Hd|]. rewrite !filter_cons.
  assert (length (filter (λ d, d_id d ∉ cascade_step t ids) l) ≤ length (filter (λ d, d_id d ∉ ids) l))%nat as Hle.
  { clear -Hmono. induction l as [|y l IH]; [done|]. rewrite !filter_cons. repeat case_decide; simpl; try lia.
    exfalso. auto. }
  apply elem_of_cons in Hd as [<-|Hd].
  - rewrite decide_False, decide_True by tauto. simpl. lia.
  - specialize (IH Hd). repeat case_decide; simpl; try lia. exfalso. auto.
Qed.

Lemma cascade_iter_closed t ids n : (outside t ids ≤ n)%nat → closed t (Nat.iter n (cascade_step t) ids).
Proof.
  assert (∀ n, closed t ids → Nat.iter n (cascade_step t) ids = ids) as Hfix.
  { intros m Hc. induction m as [|m IH]; simpl; [done|]. by rewrite IH, cascade_step_closed. }
  revert ids Hfix. induction n as [|n IH]; intros ids Hfix Hle.
  - intros d Hd _. destruct (decide (d_id d ∈ ids)) as [?|Hn]; [done|exfalso].
    assert (d ∈ filter (λ d, d_id d ∉ ids) (devices t)) as Hf by (by apply list_elem_of_filter).
    unfold outside in Hle. destruct (filter _ _); [by inversion Hf|simpl in Hle; lia].
  - destruct (cascade_step_progress t ids) as [Hc|Hlt]; [by rewrite (Hfix (S n) Hc)|].
    rewrite Nat.iter_succ_r. apply IH; [|lia]. intros m Hc. induction m as [|m IHm]; simpl; [done|]. by rewrite IHm, cascade_step_closed.
Qed.

Lemma cascade_closed t id : closed t (cascade t id).
Proof. apply cascade_iter_closed. unfold outside. apply length_filter. Qed.

Lemma cascade_self t id : id ∈ cascade t id.
Proof.
  unfold cascade. induction (length (devices t)) as [|n IH]; simpl; [by left|]. by apply cascade_step_incl.
Qed.

(** Only descendants go. *)
Inductive below (t : Tables) (root : Z) : Z → Prop :=
  | below_self : below t root root
  | below_child d : d ∈ devices t → below t root (parent_id d) → below t root (d_id d).

Lemma cascade_below t id x : x ∈ cascade t id → below t id x.
Proof.
  unfold cascade. revert x. induction (length (devices t)) as [|n IH]; simpl; intros x Hx.
  - apply list_elem_of_singleton in Hx as ->. constructor.
  - apply elem_of_app in Hx as [Hx|(d & -> & [[Hp _] Hd]%list_elem_of_filter)%list_elem_of_fmap]; [auto|].
    apply below_child; auto.
Qed.

(** ** Every statement keeps the invariant *)

Lemma sorted_sublist (l l' : list Z) : sublist l l' → StronglySorted Z.lt l' → StronglySorted Z.lt l.
Proof.
  induction 1 as [|x l l' Hs IH|x l l' Hs IH]; intros Hl'; [done|..]; apply StronglySorted_inv in Hl' as [Hl' Hall]; [|auto].
  constructor; [auto|]. rewrite Forall_forall in Hall |- *. intros y Hy. apply Hall.
  by apply (elem_of_submseteq l), sublist_submseteq.
Qed.

Lemma kept_ids t (gone : list Z) x :
  x ∈ d_id <$> devices t → x ∉ gone → x ∈ d_id <$> filter (λ d, d_id d ∉ gone) (devices t).
Proof.
  intros (d & -> & Hd)%list_elem_of_fmap Hx. apply list_elem_of_fmap. exists d. split; [done|]. by apply list_elem_of_filter.
Qed.

Lemma filter_smap_wf {K V} `{Cmp K} (P : K * V → Prop) `{∀ x, Decision (P x)} (m : list (K * V)) :
  smap_wf m → smap_wf (filter P m).
Proof.
  induction m as [|[k v] m IH]; intros Hw; [done|]. apply smap_wf_cons in Hw as [Hw Hall]. rewrite filter_cons.
  case_decide; [|auto]. apply smap_wf_cons. split; [auto|]. rewrite Forall_forall in Hall |- *.
  intros x [_ Hx]%list_elem_of_filter. auto.
Qed.

Lemma deleteDevice_ok t id : db_ok t → db_ok (deleteDevice t id).2.
Proof.
  intros [Hids Hrange Hrows Hpar [Hwf Hatt] Hev Hcat]. unfold deleteDevice. destruct (device_exists t id); [|done]. simpl.
  split; simpl.
  - eapply sorted_sublist; [|exact Hids]. apply fmap_sublist, sublist_filter.
  - intros d [_ Hd]%list_elem_of_filter. auto.
  - intros d [_ Hd]%list_elem_of_filter. auto.
  - intros d [Hn Hd]%list_elem_of_filter. destruct (Hpar d Hd) as [?|Hp]; [by left|right]. apply kept_ids; [done|].
    intros Hg. by apply Hn, (cascade_closed t id).
  - split; [by apply filter_smap_wf|]. intros x a [Hn Hin]%list_elem_of_filter. destruct (Hatt x a Hin). split; [|done].
    by apply kept_ids.
  - intros e [Hn Hin]%list_elem_of_filter. destruct (Hev e Hin). split; [|done]. by apply kept_ids.
  - done.
Qed.

Lemma addDevice_ok now t device : db_ok t → db_ok (addDevice now t device).2.
Proof.
  intros [Hids Hrange Hrows Hpar [Hwf Hatt] Hev Hcat]. unfold addDevice.
  destruct (row_valid device && device_exists t (parent_id device)) eqn:Hv; [|done]. simpl.
  apply andb_true_iff in Hv as [Hv Hp%device_exists_spec].
  set (row := mkDevice _ _ _ _ _ _ _ _ _ _ _ _ _ _).
  assert (∀ x, x ∈ d_id <$> devices t → x ∈ d_id <$> devices t ++ [row]) as Hmono.
  { intros x Hx. rewrite fmap_app. apply elem_of_app. by left. }
  assert (∀ d, d ∈ devices t ++ [row] → d ∈ devices t ∨ d = row) as Hcase.
  { intros d [?|?%list_elem_of_singleton]%elem_of_app; auto. }
  split; simpl.
  - rewrite fmap_app. simpl. clear -Hids Hrange. induction (devices t) as [|d l IH]; simpl; [repeat constructor|].
    apply StronglySorted_inv in Hids as [Hids Hall]. constructor.
    + apply IH; [done|]. intros x Hx. apply Hrange. by right.
    + apply Forall_app. split; [done|]. constructor; [|done]. apply (Hrange d). by left.
  - intros d [Hd| ->]%Hcase; [specialize (Hrange d Hd); lia|]. simpl. split; [|lia].
    apply list_elem_of_fmap in Hp as (p & _ & Hp). specialize (Hrange p Hp). lia.
  - intros d [Hd| ->]%Hcase; auto.
  - intros d [Hd| ->]%Hcase; [destruct (Hpar d Hd); auto|]. right. auto.
  - split; [done|]. intros x a Hin. destruct (Hatt x a Hin). auto.
  - intros e Hin. destruct (Hev e Hin). auto.
  - done.
Qed.

Lemma addDeviceAttribute_ok t id name value : db_ok t → db_ok (addDeviceAttribute t id name value).2.
Proof.
  intros [Hids Hrange Hrows Hpar [Hwf Hatt] Hev Hcat]. unfold addDeviceAttribute.
  destruct (device_exists t id) eqn:Hx; [|done]. apply device_exists_spec in Hx. split; simpl; try done.
  split; [by apply smap_set_wf|]. intros x a Hin. apply smap_find_elem in Hin; [|by apply smap_set_wf].
  destruct (decide (id = x)) as [<-|Hne].
  - rewrite smap_find_set_eq in Hin. injection Hin as <-. split; [done|]. apply smap_set_wf.
    unfold getDeviceAttributes. destruct (smap_find id (attribute_rows t)) as [a|] eqn:Hf; [|constructor].
    apply smap_find_elem in Hf; [|done]. by apply (Hatt id a).
  - rewrite smap_find_set_ne in Hin by done. apply (smap_find_elem _ _ _ Hwf) in Hin. auto.
Qed.

Lemma addDeviceEvent_ok now t device type result details : db_ok t → db_ok (addDeviceEvent now t device type result details).2.
Proof.
  intros [Hids Hrange Hrows Hpar Hatt Hev Hcat]. unfold addDeviceEvent. destruct (_ && _) eqn:Hx; [|done].
  apply andb_true_iff in Hx as [? Hx%device_exists_spec]. split; simpl; try done.
  intros e [Hin| ->%list_elem_of_singleton]%elem_of_app; [auto|]. done.
Qed.

(** ** Categories *)

Lemma mode_valid_ok c : is_Some (getDeviceCategoryPolicyState c) ↔
  Forall (λ nm, 0 ≤ epoch_of (categories c) nm.1 ∧ (nm.2 = "new" → epoch_of (categories c) nm.1 ≠ 0) ∧ mode_valid nm.2 = true)
    (state_modes (categories c)).
Proof.
  unfold getDeviceCategoryPolicyState. rewrite Forall_forall. destruct (forallb _ _) eqn:Hall.
  - rewrite forallb_forall in Hall. split; [|by eexists]. intros _ nm Hnm.
    specialize (Hall nm ltac:(by apply list_elem_of_In)). rewrite !andb_true_iff, Z.leb_le, negb_true_iff, andb_false_iff in Hall.
    destruct Hall as [[? Hn] ?]. split_and!; [done| |done]. intros Hnew Hz%Z.eqb_eq. rewrite Hnew in Hn. destruct Hn; [done|congruence].
  - split; [by intros []|]. intros HF. apply not_true_iff_false in Hall. destruct Hall. apply forallb_forall.
    intros nm Hnm%list_elem_of_In. destruct (HF nm Hnm) as (? & Hn & ?). rewrite !andb_true_iff, Z.leb_le, negb_true_iff, andb_false_iff.
    split_and!; [done| |done]. destruct (String.eqb_spec nm.2 "new"); [right|by left]. apply Z.eqb_neq. auto.
Qed.


Lemma set_mode_modes category mode c :
  category ∈ ["block_usb_storage"; "block_printers_scanners"; "block_optical_drives"] →
  state_modes (set_mode category mode c) = (λ nm, if String.eqb nm.1 category then (nm.1, mode) else nm) <$> state_modes c.
Proof. rewrite !elem_of_cons. intros [->|[->|[->|Hx]]]; [done..|inversion Hx]. Qed.

Lemma set_mode_rest category mode c : epochs (set_mode category mode c) = epochs c ∧ known (set_mode category mode c) = known c.
Proof. unfold set_mode. destruct (String.eqb category "block_usb_storage"), (String.eqb category "block_printers_scanners"); done. Qed.

Lemma store_known_wf category identities k : smap_wf k → smap_wf (store_known category identities k).
Proof. intros Hk. unfold store_known. destruct identities; [by apply filter_smap_wf|by apply smap_set_wf]. Qed.

Lemma update_category_ok t category mode c :
  category ∈ ["block_usb_storage"; "block_printers_scanners"; "block_optical_drives"] → mode_valid mode = true →
  categories_ok c → categories_ok (update_category t category mode c).
Proof.
  intros Hcat Hmode (Hwf & Hkn & Hall). unfold update_category. case_bool_decide as Hsame; [done|].
  set (c' := if String.eqb mode "new" then _ else c).
  assert (smap_wf (known c')) as Hkn'.
  { unfold c'. destruct (String.eqb mode "new"); [|done]. by apply store_known_wf. }
  assert (smap_wf (epochs c') ∧ state_modes c' = state_modes c ∧ (mode = "new" → 0 < epoch_of c' category) ∧
    (∀ x, epoch_of c x ≤ epoch_of c' x)) as (Hwf' & Hm & Hpos & Hle).
  { unfold c'. destruct (String.eqb_spec mode "new") as [->|Hne]; [|by split_and!]. simpl.
    assert (0 ≤ epoch_of c category) as H0.
    { rewrite Forall_forall in Hall. apply elem_of_cons in Hcat as [->|[->|[->|Hx]%elem_of_cons]%elem_of_cons];
        [by apply (Hall ("block_usb_storage", block_usb_storage c)); left
        |by apply (Hall ("block_printers_scanners", block_printers_scanners c)); right; left
        |by apply (Hall ("block_optical_drives", block_optical_drives c)); do 2 right; left|inversion Hx]. }
    unfold epoch_of; simpl. split_and!; [by apply smap_set_wf|done|intros _; rewrite smap_find_set_eq; simpl; unfold epoch_of in H0; lia|].
    intros x. destruct (decide (category = x)) as [<-|Hx]; [rewrite smap_find_set_eq; simpl; unfold epoch_of; lia|].
    by rewrite smap_find_set_ne. }
  destruct (set_mode_rest category mode c') as [He Hk].
  assert (∀ x, epoch_of (set_mode category mode c') x = epoch_of c' x) as Hep by (intros x; unfold epoch_of; by rewrite He).
  split; [by rewrite He|]. split; [by rewrite Hk|]. rewrite set_mode_modes, Hm by done. rewrite Forall_fmap. eapply Forall_impl; [exact Hall|].
  intros [n md] (H0 & Hn & Hv). simpl in *. specialize (Hle n). destruct (String.eqb_spec n category) as [->|Hx]; simpl; rewrite Hep.
  - split_and!; [lia| |done]. intros Hnew. specialize (Hpos Hnew). lia.
  - split_and!; [lia| |done]. intros Hnew. specialize (Hn Hnew). lia.
Qed.

Lemma category_fold_ok t modes c :
  Forall (λ nm, nm.1 ∈ ["block_usb_storage"; "block_printers_scanners"; "block_optical_drives"] ∧ mode_valid nm.2 = true) modes →
  categories_ok c → categories_ok (foldl (λ c nm, update_category t nm.1 nm.2 c) c modes).
Proof.
  intros Hall. revert c. induction Hall as [|[n md] l [Hn Hv] _ IH]; intros c Hc; simpl; [done|]. by apply IH, update_category_ok.
Qed.

Lemma getCategories_eq t c : getDeviceCategoryPolicyState t = Some c → c = categories t.
Proof. unfold getDeviceCategoryPolicyState. destruct (forallb _ _); congruence. Qed.

Lemma updateCategories_ok t state : db_ok t → db_ok (updateDeviceCategoryPolicyState t state).2.
Proof.
  intros Hok. unfold updateDeviceCategoryPolicyState. destruct (forallb _ (state_modes state)) eqn:Hv; simpl; [|done].
  destruct (getDeviceCategoryPolicyState t) as [c|] eqn:Hc; simpl; [|done]. apply getCategories_eq in Hc as ->.
  destruct (negb _); [|done]. destruct Hok as [Hids Hrange Hrows Hpar Hatt Hev Hcat]. split; simpl; try done.
  apply (category_fold_ok t (state_modes state)); [|done]. rewrite forallb_forall in Hv. apply Forall_forall. intros nm Hnm.
  split; [|by apply Hv, list_elem_of_In]. clear Hv. unfold state_modes in Hnm. rewrite !elem_of_cons in Hnm. rewrite !elem_of_cons.
  destruct Hnm as [->|[->|[->|Hx]]]; simpl; [by left|right; by left|do 2 right; by left|inversion Hx].
Qed.

Lemma perform_ok now t s : db_ok t → db_ok (perform now t s).
Proof.
  intros Hok. destruct s; simpl.
  - by apply addDevice_ok.
  - by apply settle_ok.
  - by apply settle_ok.
  - by apply settle_ok.
  - by apply settle_ok.
  - by apply settle_ok.
  - unfold updateBootId. destruct (id <=? 0); [done|]. by apply settle_ok.
  - by apply deleteDevice_ok.
  - by apply addDeviceAttribute_ok.
  - by apply addDeviceEvent_ok.
  - by destruct Hok.
  - by apply updateCategories_ok.
Qed.

(** ** Revisions *)

Definition control_view (d : DeviceInfo) : string * bool * bool * string :=
  (control_level d, control_explicit d, ignore_hierarchy d, children_control d).

Lemma policy_changed_false old new : policy_changed old new = false → control_view new = control_view old.
Proof.
  unfold policy_changed, control_view. rewrite negb_false_iff, !andb_true_iff, !String.eqb_eq, !Bool.eqb_true_iff. intros [[[-> ->] ->] ->]. done.
Qed.

(** What a statement does to the counters. *)
Definition counted (t t' : Tables) : Prop :=
  tree_revision t ≤ tree_revision t' ∧ desired_revision t ≤ desired_revision t' ∧
  (tree_revision t' = tree_revision t → devices t' = devices t ∧ attribute_rows t' = attribute_rows t ∧ events t' = events t ∧
     categories t' = categories t) ∧
  (desired_revision t' = desired_revision t →
     (∀ d, d ∈ devices t → ∃ d', d' ∈ devices t' ∧ d_id d' = d_id d ∧ control_view d' = control_view d) ∧
     categories t' = categories t).

Lemma counted_refl t : counted t t.
Proof. split_and!; [lia|lia|done|]. intros _. split; [|done]. eauto. Qed.

Lemma settle_counted f id need t : keeps_key f → counted t (settle (update_device f id t) need t).2.
Proof.
  intros Hf. unfold update_device. destruct (forallb _ _); [|apply counted_refl]. simpl.
  fold (updated f id (devices t)). split_and!; simpl; [lia|lia| |].
  - intros Hz. assert (filter (λ d, d_id d =? id) (devices t) = []) as Hnone by (apply nil_length_inv; lia).
    split_and!; [|done..]. unfold updated. rewrite <-(list_fmap_id (devices t)) at 2. apply list_fmap_ext. intros i d Hd. simpl.
    destruct (d_id d =? id) eqn:Heq; [|done]. exfalso. apply (filter_nil_not_elem_of _ _ d Hnone); [by rewrite Heq|].
    by eapply list_elem_of_lookup_2.
  - intros Hz. split; [|done]. intros d Hd. exists (if d_id d =? id then f d else d). split.
    { apply list_elem_of_fmap. by exists d. }
    destruct (d_id d =? id) eqn:Heq; [|done]. split; [done|]. apply policy_changed_false.
    destruct (policy_changed d (f d)) eqn:Hc; [|done]. exfalso.
    assert (filter (λ d, policy_changed d (f d)) (filter (λ d, d_id d =? id) (devices t)) = []) as Hnone by (apply nil_length_inv; lia).
    apply (filter_nil_not_elem_of _ _ d Hnone); [by rewrite Hc|]. apply list_elem_of_filter. by rewrite Heq.
Qed.

Lemma perform_counted now t s : counted t (perform now t s).
Proof.
  destruct s; simpl; try (by apply settle_counted).
  - unfold addDevice. destruct (_ && _); [|apply counted_refl]. split_and!; simpl; [lia|lia|lia|]. intros _. split; [|done].
    intros d Hd. exists d. split; [|done]. apply elem_of_app. by left.
  - unfold updateBootId. destruct (id <=? 0); [apply counted_refl|by apply settle_counted].
  - unfold deleteDevice. destruct (device_exists t id) eqn:Hx; [|apply counted_refl].
    assert (length (filter (λ d, d_id d ∉ cascade t id) (devices t)) < length (devices t))%nat as Hlt.
    { apply device_exists_spec, list_elem_of_fmap in Hx as (d & -> & Hd). pose proof (cascade_self t (d_id d)) as Hself. revert Hself.
      generalize (cascade t (d_id d)) as gone. intros gone Hg. clear -Hd Hg. induction (devices t) as [|x l IH]; [by inversion Hd|].
      rewrite filter_cons. pose proof (length_filter (λ d, d_id d ∉ gone) l). apply elem_of_cons in Hd as [<-|Hd].
      - rewrite decide_False by tauto. simpl. lia.
      - specialize (IH Hd). case_decide; simpl; lia. }
    split_and!; simpl; [lia|lia|lia|lia].
  - unfold addDeviceAttribute. destruct (device_exists t id); [|apply counted_refl].
    split_and!; simpl; [lia|lia|lia|]. intros _. split; [eauto|done].
  - unfold addDeviceEvent. destruct (_ && _); [|apply counted_refl]. split_and!; simpl; [lia|lia|lia|]. intros _. split; [eauto|done].
  - split_and!; simpl; [lia|lia|done|]. intros _. split; [eauto|done].
  - unfold updateDeviceCategoryPolicyState. destruct (negb (forallb _ _)); [apply counted_refl|].
    destruct (getDeviceCategoryPolicyState t); [|apply counted_refl]. simpl. destruct (negb _); [|apply counted_refl].
    split_and!; simpl; [lia|lia|lia|lia].
Qed.

(** ** What an epoch knows *)

Lemma store_known_eq category identities k : identities ≠ [] → smap_find category (store_known category identities k) = Some identities.
Proof. intros Hn. unfold store_known. destruct identities; [done|]. apply smap_find_set_eq. Qed.

Lemma store_known_nil category k : smap_wf k → smap_find category (store_known category [] k) = None.
Proof.
  intros Hk. simpl. destruct (smap_find category _) as [l|] eqn:Hf; [|done].
  apply smap_find_elem in Hf; [|by apply filter_smap_wf]. apply list_elem_of_filter in Hf as [Hn _]. by destruct Hn.
Qed.

Lemma store_known_ne category category' identities k : smap_wf k → category ≠ category' →
  smap_find category' (store_known category identities k) = smap_find category' k.
Proof.
  intros Hk Hne. unfold store_known. destruct identities; [|by rewrite smap_find_set_ne].
  apply option_eq. intros l. rewrite !smap_find_elem by (done || by apply filter_smap_wf).
  split; [by intros [_ ?]%list_elem_of_filter|]. intros Hin. apply list_elem_of_filter. split; [|done]. simpl. congruence.
Qed.

Lemma update_category_known t category mode c category' : smap_wf (known c) →
  smap_find category' (known (update_category t category mode c)) =
    if bool_decide (category' = category ∧ mode = "new" ∧ categoryMode c category ≠ Some "new")
    then smap_find category' (store_known category (capture_identities t) (known c)) else smap_find category' (known c).
Proof.
  intros Hk. unfold update_category. case_bool_decide as Hsame.
  { rewrite bool_decide_eq_false_2; [done|]. intros (_ & -> & ?). done. }
  match goal with |- smap_find _ (known (set_mode _ _ ?c')) = _ => destruct (set_mode_rest category mode c') as [_ ->] end.
  destruct (String.eqb_spec mode "new") as [->|Hne]; simpl.
  - destruct (decide (category' = category)) as [->|Hd]; [by rewrite bool_decide_eq_true_2|].
    rewrite bool_decide_eq_false_2 by tauto. by apply store_known_ne.
  - by rewrite bool_decide_eq_false_2 by tauto.
Qed.

Lemma category_mode_in c category mode : categoryMode c category = Some mode → (category, mode) ∈ state_modes c.
Proof.
  unfold categoryMode, state_modes. rewrite !elem_of_cons.
  destruct (String.eqb_spec category "block_usb_storage") as [->|]; [intros [= <-]; auto|].
  destruct (String.eqb_spec category "block_printers_scanners") as [->|]; [intros [= <-]; auto|].
  destruct (String.eqb_spec category "block_optical_drives") as [->|]; [intros [= <-]; auto|done].
Qed.

(** The mode of a category is set by its own round only. *)
Lemma update_category_mode t category mode c category' :
  category ∈ ["block_usb_storage"; "block_printers_scanners"; "block_optical_drives"] → category' ≠ category →
  categoryMode (update_category t category mode c) category' = categoryMode c category'.
Proof.
  intros Hcat Hne. unfold update_category. case_bool_decide; [done|].
  rewrite !elem_of_cons in Hcat. unfold categoryMode.
  destruct Hcat as [->|[->|[->|Hx]]]; [..|inversion Hx]; unfold set_mode; simpl;
    repeat match goal with |- context [String.eqb category' ?x] => destruct (String.eqb_spec category' x) as [->|] end;
    try done; by destruct (String.eqb mode "new").
Qed.

Lemma fold_known t c state category : categories_ok c → categoryMode c category ≠ Some "new" →
  categoryMode state category = Some "new" →
  ∃ k, smap_wf k ∧
    smap_find category (known (foldl (λ c nm, update_category t nm.1 nm.2 c) c (state_modes state))) =
    smap_find category (store_known category (capture_identities t) k).
Proof.
  intros (_ & Hk & _) Hold Hnew. pose proof (category_mode_in _ _ _ Hnew) as Hin.
  assert (∀ category mode c, smap_wf (known c) → smap_wf (known (update_category t category mode c))) as Hwf.
  { intros n md c' Hc'. unfold update_category. case_bool_decide; [done|].
    match goal with |- smap_wf (known (set_mode _ _ ?c'')) => destruct (set_mode_rest n md c'') as [_ ->] end.
    destruct (String.eqb md "new"); [by apply store_known_wf|done]. }
  assert (∀ l c, smap_wf (known c) → category ∉ l.*1 →
    smap_find category (known (foldl (λ c nm, update_category t nm.1 nm.2 c) c l)) = smap_find category (known c)) as Hrest.
  { induction l as [|[n md] l IH]; intros c' Hc' Hn; simpl; [done|]. apply not_elem_of_cons in Hn as [Hne Hn].
    rewrite IH, update_category_known, bool_decide_eq_false_2 by (auto; tauto). done. }
  assert (∀ l c, smap_wf (known c) → categoryMode c category ≠ Some "new" → NoDup (l.*1) → (category, "new") ∈ l →
    Forall (λ nm, nm.1 ∈ ["block_usb_storage"; "block_printers_scanners"; "block_optical_drives"]) l →
    ∃ k, smap_wf k ∧ smap_find category (known (foldl (λ c nm, update_category t nm.1 nm.2 c) c l)) =
      smap_find category (store_known category (capture_identities t) k)) as Hgen.
  { induction l as [|[n md] l IH]; intros c' Hc' Ho Hnd Hl Hnames; [by inversion Hl|].
    apply NoDup_cons in Hnd as [Hn Hnd]. apply Forall_cons in Hnames as [Hname Hnames]. simpl in *.
    apply elem_of_cons in Hl as [[= <- <-]|Hl].
    - exists (known c'). split; [done|]. rewrite Hrest, update_category_known, bool_decide_eq_true_2 by auto. done.
    - apply IH; [auto| |done|done|done]. rewrite update_category_mode; [done|done|]. intros ->. apply Hn, list_elem_of_fmap. by exists (n, "new"). }
  apply Hgen; [done|done| |done|].
  - unfold state_modes. simpl. apply (bool_decide_unpack _). vm_compute. done.
  - unfold state_modes. repeat constructor; simpl; rewrite !elem_of_cons; auto.
Qed.

(** Blank terms are not safe, so only an occurrence with a proof is known. *)
Lemma no_terms_without_attributes sub : physicalIdentityTerms sub [] = None.
Proof.
  unfold physicalIdentityTerms, raw_identity_terms. destruct (String.eqb sub "usb"); simpl; [done|]. by destruct (String.eqb sub "block").
Qed.

Lemma capture_elem t k : k ∈ capture_identities t ↔ ∃ d, d ∈ devices t ∧
  k = mkKnown (device_hash d) (subsystem d)
        match proving_occurrence t (device_hash d) (subsystem d) with Some o => getDeviceAttributes t (d_id o) | None => [] end.
Proof.
  unfold capture_identities, identity_keys. rewrite list_elem_of_fmap. split.
  - intros ([h s] & -> & Hin). apply elem_of_sort_set, elem_of_remove_dups, list_elem_of_fmap in Hin as (d & [= -> ->] & Hd). eauto.
  - intros (d & Hd & ->). exists (device_hash d, subsystem d). split; [done|].
    apply elem_of_sort_set, elem_of_remove_dups, list_elem_of_fmap. eauto.
Qed.

Lemma proving_spec t hash sub o : proving_occurrence t hash sub = Some o →
  o ∈ devices t ∧ device_hash o = hash ∧ subsystem o = sub ∧ has_proof (getDeviceAttributes t (d_id o)) = true.
Proof.
  unfold proving_occurrence. intros Hl. apply last_Some_elem_of, list_elem_of_filter in Hl as [Hp Hin].
  apply list_elem_of_filter in Hin as [Hs Hin]. apply Is_true_true, andb_true_iff in Hs as [?%String.eqb_eq ?%String.eqb_eq]. done.
Qed.

(** * Properties *)

(** C35. The schema holds in every reachable database: after any statements on
    a new database, ids are positive, distinct and below the sequence; every
    parent exists; levels, children rules and events pass their CHECK
    constraints; attributes and events belong to existing devices; and the
    category row can be read. *)
Theorem database_invariant now (log : list (string * Statement)) :
  db_ok (foldl (λ t x, perform x.1 t x.2) (baseline now) log).
Proof.
  cut (∀ t, db_ok t → db_ok (foldl (λ t x, perform x.1 t x.2) t log)); [intros Hgen; apply Hgen, baseline_ok|].
  induction log as [|[time s] log IH]; intros t Ht; simpl; [done|]. by apply IH, perform_ok.
Qed.

(** The revision counters do not miss a change: no statement decreases
    them; one that leaves the tree revision leaves devices, attributes, events
    and categories as they were; and one that leaves the desired policy revision
    leaves every device in place with its control level, its explicit and
    ignore_hierarchy flags and its children rule, and the category state. *)
Theorem revisions_track_changes now t s :
  let t' := perform now t s in
  tree_revision t ≤ tree_revision t' ∧ desired_revision t ≤ desired_revision t' ∧
  (tree_revision t' = tree_revision t → devices t' = devices t ∧ attribute_rows t' = attribute_rows t ∧ events t' = events t ∧
     categories t' = categories t) ∧
  (desired_revision t' = desired_revision t →
     (∀ d, d ∈ devices t → ∃ d', d' ∈ devices t' ∧ d_id d' = d_id d ∧ control_view d' = control_view d) ∧
     categories t' = categories t).
Proof. apply perform_counted. Qed.

(** A new epoch knows exactly what is present: when a category is switched
    to "new", a device is known afterwards exactly if its physical identity can
    be established and is that of a recorded device, namely of the latest
    occurrence with a serial or WWN of some recorded identity. *)
Theorem epoch_knows_the_present t t' state category :
  db_ok t → updateDeviceCategoryPolicyState t state = (true, t') →
  categoryMode (categories t) category ≠ Some "new" → categoryMode state category = Some "new" →
  ∀ device attributes,
    knownAtCategoryEpoch (categories t') category device attributes = true ↔
    ∃ terms d, physicalIdentityTerms (subsystem device) attributes = Some terms ∧
      subsystem d = subsystem device ∧ proving_occurrence t (device_hash d) (subsystem d) = Some d ∧
      physicalIdentityTerms (subsystem d) (getDeviceAttributes t (d_id d)) = Some terms.
Proof.
  intros Hok Hup Hold Hnew device attributes. unfold updateDeviceCategoryPolicyState in Hup.
  destruct (negb (forallb _ _)); [done|]. destruct (getDeviceCategoryPolicyState t) as [c|] eqn:Hc; [|done].
  apply getCategories_eq in Hc as ->. rewrite bool_decide_eq_false_2 in Hup.
  2: { intros Heq. apply Hold. rewrite <-Hnew. clear -Heq. unfold state_modes in Heq. injection Heq as H1 H2 H3.
       unfold categoryMode. by rewrite H1, H2, H3. }
  destruct (fold_known t (categories t) state category (ok_categories t Hok) Hold Hnew) as (k & Hwf & Hf).
  set (u := foldl _ _ _) in Hup, Hf. clearbody u. injection Hup as <-. unfold knownAtCategoryEpoch. simpl. rewrite Hf.
  destruct (physicalIdentityTerms (subsystem device) attributes) as [terms|] eqn:Hterms; [|split; [done|naive_solver]].
  transitivity (∃ i, i ∈ capture_identities t ∧ k_subsystem i = subsystem device ∧
    physicalIdentityTerms (k_subsystem i) (k_attributes i) = Some terms).
  { destruct (capture_identities t) as [|i l] eqn:Hcap.
    - rewrite (store_known_nil category k Hwf). split; [done|]. intros (i & Hi & _). inversion Hi.
    - rewrite store_known_eq by done. rewrite existsb_exists. split.
      + intros (x & Hx%list_elem_of_In & [?%String.eqb_eq ?%bool_decide_eq_true_1]%andb_true_iff). eauto.
      + intros (x & Hx & Hs & Ht). exists x. split; [by apply list_elem_of_In|]. by rewrite Hs, String.eqb_refl, bool_decide_eq_true_2 by congruence. }
  split.
  - intros (i & (d & Hd & ->)%capture_elem & Hs & Ht). simpl in *.
    destruct (proving_occurrence t (device_hash d) (subsystem d)) as [o|] eqn:Ho; [|by rewrite no_terms_without_attributes in Ht].
    destruct (proving_spec _ _ _ _ Ho) as (Hin & Hh & Hsub & _). exists terms, o. rewrite Hh, Hsub. done.
  - intros (terms' & d & [= <-] & Hs & Ho & Ht). destruct (proving_spec _ _ _ _ Ho) as (Hin & _).
    exists (mkKnown (device_hash d) (subsystem d) (getDeviceAttributes t (d_id d))). split; [|done].
    apply capture_elem. exists d. by rewrite Ho.
Qed.

(** * Witnesses *)

Definition stick : DeviceInfo :=
  mkDevice 0 "stick" "/devices/pci0000:00/usb1/1-2" "usb" "usb" 6 "allowed" false false "boot" "" "" "" "inherit".
Definition stick_attributes : list (string * string) :=
  [("DEVTYPE", "usb_device"); ("ID_MODEL_ID", "5567"); ("ID_SERIAL_SHORT", "4C530"); ("ID_USB_INTERFACES", ":080650:");
   ("ID_VENDOR_ID", "0781")].
Definition with_stick : Tables :=
  foldl (λ t kv, (addDeviceAttribute t 7 kv.1 kv.2).2) (addDevice "now" (baseline "now") stick).2 stick_attributes.
Definition only_known : DeviceCategoryPolicyState := mkCategories "new" "disabled" "disabled" [] [].

Lemma with_stick_ok : db_ok with_stick.
Proof.
  unfold with_stick. cut (∀ l t, db_ok t → db_ok (foldl (λ t kv, (addDeviceAttribute t 7 kv.1 kv.2).2) t l)).
  - intros Hgen. apply Hgen, addDevice_ok, baseline_ok.
  - induction l as [|kv l IH]; intros t Ht; simpl; [done|]. by apply IH, addDeviceAttribute_ok.
Qed.

Lemma epoch_knows_the_present_witness :
  knownAtCategoryEpoch (categories (updateDeviceCategoryPolicyState with_stick only_known).2) "block_usb_storage" stick
    (getDeviceAttributes with_stick 7) = true.
Proof.
  apply (epoch_knows_the_present with_stick (updateDeviceCategoryPolicyState with_stick only_known).2 only_known
    "block_usb_storage" with_stick_ok); [vm_compute; reflexivity|vm_compute; discriminate|reflexivity|].
  eexists _, (getDeviceById with_stick 7). split_and!; vm_compute; reflexivity.
Defined.
