(* ===== verification/DevicePolicy.v ===== *)
(** What level applies to a device. The device daemon computes it from the
    database (fic-dick/src/daemon/DeviceControlDaemon.cpp, [effective_policy]);
    the tree snapshot computes it again from one consistent read
    (fic-dick/src/device/DeviceTreeSnapshot.cpp). *)

From S2P Require Import Prelude DeviceData DeviceDb.
From stdpp Require Import pretty.
Open Scope string_scope.
Open Scope list_scope.
Open Scope Z_scope.

(** [std::to_string]. *)
Definition id_text (id : Z) : string := pretty id.

Record EffectivePolicy := mkEffective {
  level : string;
  source : string;
  sourceDeviceId : Z;
  reason : string
}.
#[export] Instance EffectivePolicy_eq_dec : EqDecision EffectivePolicy.
Proof. solve_decision. Defined.

Definition blocked_by_category (device : DeviceInfo) (d : DeviceCategoryDecision) (why : string) : EffectivePolicy :=
  mkEffective "blocked" ("dc:" +:+ dec_category d +:+ ":" +:+ dec_mode d) (d_id device) why.
Definition identity_policy (occurrence : DeviceInfo) : EffectivePolicy :=
  mkEffective (control_level occurrence) ("identity:" +:+ id_text (d_id occurrence)) (d_id occurrence)
    "explicit same-identity rule with ignore_hierarchy=true".
Definition placement_policy (device : DeviceInfo) : EffectivePolicy :=
  mkEffective (control_level device) ("placement:" +:+ id_text (d_id device)) (d_id device) "explicit placement rule".
Definition children_policy (parent : DeviceInfo) : EffectivePolicy :=
  mkEffective (if String.eqb (children_control parent) "deny" then "blocked" else "allowed")
    ("children:" +:+ id_text (d_id parent)) (d_id parent) "nearest explicit ancestor children rule".
Definition default_policy : EffectivePolicy := mkEffective "allowed" "default" (-1) "default allow".

Definition identity_rule (d : DeviceInfo) : bool := control_explicit d && ignore_hierarchy d.
Definition children_rule (d : DeviceInfo) : bool := negb (String.eqb (children_control d) "inherit").

(** * The daemon *)

Record ControlOverride := mkOverride {
  ov_device : Z;
  ov_level : string;
  ov_explicit : bool;
  ov_ignore : bool;
  ov_children : string
}.

Definition with_override (device : DeviceInfo) (override : option ControlOverride) : DeviceInfo :=
  match override with
  | Some o => if d_id device =? ov_device o then set_control (ov_level o) (ov_explicit o) (ov_ignore o) (ov_children o) device
              else device
  | None => device
  end.

(** The loop of [device_path_to_root]. Each round adds a new id to [seen], so
    one round more than there are rows is enough. *)
Fixpoint path_loop (fuel : nat) (t : Tables) (override : option ControlOverride) (seen : list Z) (device : DeviceInfo)
  : list DeviceInfo :=
  match fuel with
  | O => []
  | S fuel =>
      if (0 <? d_id device) && negb (bool_decide (d_id device ∈ seen)) then
        device ::
        (if parent_id device <=? 0 then []
         else
           let parent := with_override (getDeviceById t (parent_id device)) override in
           if d_id parent =? -1 then [] else path_loop fuel t override (d_id device :: seen) parent)
      else []
  end.
Definition device_path_to_root (t : Tables) (device : DeviceInfo) (override : option ControlOverride) : list DeviceInfo :=
  path_loop (length (devices t) + 2) t override [] (with_override device override).

(** [None]: the exception of the category state. *)
Definition effective_policy (t : Tables) (device : DeviceInfo) (override : option ControlOverride)
    (liveAttributes : option DeviceIdentityTerms) : option EffectivePolicy :=
  let device := with_override device override in
  match getDeviceCategoryPolicyState t with
  | None => None
  | Some categories =>
      let attributes := default (getDeviceAttributes t (d_id device)) liveAttributes in
      let category (hardOnly : bool) :=
        (λ d, blocked_by_category device d
                (if String.eqb (dec_mode d) "all" then "absolute category all DENY" else "identity absent from category epoch"))
        <$> categoryDenial categories device attributes hardOnly in
      Some match category true with
      | Some hard => hard
      | None =>
          let path := device_path_to_root t device override in
          match head (filter identity_rule
                   ((λ c, with_override c override) <$> getDevicesByHashAndSubsystem t (device_hash device) (subsystem device))) with
          | Some candidate => identity_policy candidate
          | None =>
              if control_explicit device then placement_policy device
              else match category false with
              | Some categoryPolicy => categoryPolicy
              | None =>
                  match head (filter children_rule (tail path)) with
                  | Some parent => children_policy parent
                  | None => default_policy
                  end
              end
          end
      end
  end.

(** * The snapshot *)

(** The members of [DeviceTreeSnapshot] that the evaluation reads. *)
Record Snapshot := mkSnapshot {
  entries : list (DeviceInfo * DeviceIdentityTerms);
  identityOccurrences : list DeviceInfo;
  categoryPolicy : DeviceCategoryPolicyState
}.

(** [devicesById]: the first occurrence of an id. *)
Definition by_id (occurrences : list DeviceInfo) (id : Z) : option DeviceInfo := head (filter (λ d, d_id d =? id) occurrences).

(** The walk over the parents; [inl] is the error. Every round visits a new id
    among those of the occurrences. *)
Fixpoint ancestor_walk (fuel : nat) (occurrences : list DeviceInfo) (visited : list Z) (parentId : Z)
  : string + option EffectivePolicy :=
  match fuel with
  | O => inl "out of fuel"
  | S fuel =>
      if parentId <=? 0 then inr None
      else if bool_decide (parentId ∈ visited) then inl "cycle detected while evaluating device hierarchy"
      else match by_id occurrences parentId with
      | None => inl "missing parent while evaluating device hierarchy"
      | Some parent =>
          if children_rule parent then inr (Some (children_policy parent))
          else ancestor_walk fuel occurrences (parentId :: visited) (parent_id parent)
      end
  end.

(** [identity_key] separates hash and subsystem by a NUL, which neither holds:
    equal keys are equal pairs. *)
Definition snapshot_policy (snapshot : Snapshot) (entry : DeviceInfo * DeviceIdentityTerms) : string + EffectivePolicy :=
  let device := entry.1 in
  let occurrences := identityOccurrences snapshot in
  match categoryDenial (categoryPolicy snapshot) device entry.2 true with
  | Some d => inr (blocked_by_category device d "absolute category all DENY")
  | None =>
      match head (filter identity_rule (filter (same_identity (device_hash device) (subsystem device)) occurrences)) with
      | Some occurrence => inr (identity_policy occurrence)
      | None =>
          if control_explicit device then inr (placement_policy device)
          else match categoryDenial (categoryPolicy snapshot) device entry.2 false with
          | Some d => inr (blocked_by_category device d "identity absent from category epoch")
          | None =>
              match ancestor_walk (length occurrences + 1) occurrences [d_id device] (parent_id device) with
              | inl error => inl error
              | inr (Some policy) => inr policy
              | inr None => inr default_policy
              end
          end
      end
  end.

(** The recursive query of [getDeviceTreeSnapshot]: level by level, a row with
    the ids on the way to the root. *)
Definition tree_row : Type := DeviceInfo * list Z.

Definition in_tree (includeDisconnected : bool) (boot : string) (d : DeviceInfo) : bool :=
  includeDisconnected || String.eqb (boot_id d) "-1" || String.eqb (boot_id d) boot.

Definition row_children (t : Tables) (includeDisconnected : bool) (boot : string) (row : tree_row) : list tree_row :=
  (λ d, (d, d_id d :: row.2)) <$> filter (λ d, (parent_id d =? d_id row.1) && in_tree includeDisconnected boot d) (devices t).

(** [ORDER BY tree.depth, d.id]. *)
Definition row_le (a b : tree_row) : Prop := d_id a.1 ≤ d_id b.1.
#[export] Instance row_le_dec a b : Decision (row_le a b).
Proof. unfold row_le. apply _. Defined.

Definition cyclic (row : tree_row) : bool := bool_decide (d_id row.1 ∈ tail row.2).

Definition max_depth : nat := 1024.

(** An attribute without a name. *)
Definition malformed (t : Tables) (row : tree_row) : bool :=
  existsb (λ kv, String.eqb kv.1 "") (getDeviceAttributes t (d_id row.1)).

(** Whether the reading ends at this row, and how. [depth] is that of its parent. *)
Definition refused (t : Tables) (depth : nat) (row : tree_row) : bool :=
  cyclic row || (max_depth <=? depth)%nat || malformed t row.
Definition refusal (depth : nat) (row : tree_row) : string :=
  if cyclic row then "cycle detected in device tree"
  else if (max_depth <=? depth)%nat then "device tree exceeds maximum depth of 1024"
  else "malformed device attribute in tree snapshot".

(** [depth] is the depth of [level]; the rows of a level are read before those
    of the next. *)
Fixpoint tree_levels (fuel : nat) (t : Tables) (includeDisconnected : bool) (boot : string) (depth : nat)
    (level : list tree_row) : string + list tree_row :=
  match fuel with
  | O => inl "out of fuel"
  | S fuel =>
      match level with
      | [] => inr []
      | _ =>
          let next := merge_sort row_le (foldr (λ row l, row_children t includeDisconnected boot row ++ l) [] level) in
          match head (filter (refused t depth) next) with
          | Some row => inl (refusal depth row)
          | None =>
              match tree_levels fuel t includeDisconnected boot (S depth) next with
              | inl error => inl error
              | inr below => inr (level ++ below)
              end
          end
      end
  end.

(** A level deeper than [max_depth] is refused, so these levels are enough. *)
Definition tree_fuel : nat := S (S (S max_depth)).

Definition getDeviceTreeSnapshot (t : Tables) (rootId : Z) (includeDisconnected : bool) (boot : string) : string + Snapshot :=
  if rootId <=? 0 then inl "invalid device tree root"
  else match by_id (devices t) rootId with
  | None => inl "device tree root was not found"
  | Some root =>
      if malformed t (root, []) then inl "malformed device attribute in tree snapshot"
      else match tree_levels tree_fuel t includeDisconnected boot 0 [(root, [d_id root])] with
      | inl error => inl error
      | inr rows =>
          match getDeviceCategoryPolicyState t with
          | None => inl "invalid category state in database"
          | Some c => inr (mkSnapshot ((λ row, (row.1, getDeviceAttributes t (d_id row.1))) <$> rows) (devices t) c)
          end
      end
  end.

(** The loop of [device_tree_snapshot_response]. *)
Fixpoint evaluate_entries (snapshot : Snapshot) (l : list (DeviceInfo * DeviceIdentityTerms))
  : string + list (DeviceInfo * EffectivePolicy) :=
  match l with
  | [] => inr []
  | entry :: l =>
      match snapshot_policy snapshot entry with
      | inl error => inl ("failed to evaluate device tree snapshot: " +:+ error)
      | inr policy =>
          match evaluate_entries snapshot l with
          | inl error => inl error
          | inr rest => inr ((entry.1, policy) :: rest)
          end
      end
  end.

(** [fic::ipc::MAX_RESPONSE_BYTES]. *)
Definition MAX_RESPONSE_BYTES : Z := 1024 * 1024.

(** [response_size]: the size of the dumped response with these rows. *)
Definition device_tree_snapshot (response_size : list (DeviceInfo * EffectivePolicy) → Z)
    (t : Tables) (includeDisconnected : bool) (boot : string)
  : string + list (DeviceInfo * EffectivePolicy) :=
  let root := getComputerRoot t in
  if d_id root <=? 0 then inl "device root not found"
  else match getDeviceTreeSnapshot t (d_id root) includeDisconnected boot with
  | inl error => inl ("failed to build device tree snapshot: " +:+ error)
  | inr snapshot =>
      match evaluate_entries snapshot (entries snapshot) with
      | inl error => inl error
      | inr rows =>
          if MAX_RESPONSE_BYTES <? response_size rows then inl "device tree snapshot exceeds the IPC response size limit"
          else inr rows
      end
  end.

Example stick_tree :
  match device_tree_snapshot (λ rows, 200 * Z.of_nat (length rows)) with_stick false "boot" with
  | inr l => (λ dp, (d_id dp.1, source dp.2)) <$> l
  | inl _ => []
  end = [(1, "placement:1"); (2, "placement:2"); (3, "placement:3"); (4, "placement:4"); (5, "placement:5"); (6, "placement:6");
         (7, "default")].
Proof. vm_compute. reflexivity. Qed.

(** * Rows and their ids *)

Lemma sorted_ids_inj l d d' : StronglySorted Z.lt (d_id <$> l) → d ∈ l → d' ∈ l → d_id d = d_id d' → d = d'.
Proof.
  induction l as [|x l IH]; simpl; intros Hs Hd Hd' Heq; [by inversion Hd|].
  apply StronglySorted_inv in Hs as [Hs Hall]. rewrite Forall_fmap, Forall_forall in Hall.
  apply elem_of_cons in Hd as [->|Hd], Hd' as [->|Hd']; [done|specialize (Hall d' Hd'); simpl in Hall; lia
    |specialize (Hall d Hd); simpl in Hall; lia|auto].
Qed.

Lemma by_id_spec t id d : db_ok t → by_id (devices t) id = Some d ↔ d ∈ devices t ∧ d_id d = id.
Proof.
  intros Hok. unfold by_id. split.
  - intros Hh. assert (d ∈ filter (λ d, d_id d =? id) (devices t)) as Hin.
    { destruct (filter _ _); [done|]. injection Hh as ->. by left. }
    apply list_elem_of_filter in Hin as [?%Is_true_true%Z.eqb_eq ?]. done.
  - intros [Hd Hid]. destruct (filter (λ d, d_id d =? id) (devices t)) as [|x l] eqn:Hf.
    + exfalso. apply (filter_nil_not_elem_of _ _ d Hf); [|done]. by apply Is_true_true, Z.eqb_eq.
    + simpl. f_equal. assert (x ∈ filter (λ d, d_id d =? id) (devices t)) as Hx by (rewrite Hf; by left).
      apply list_elem_of_filter in Hx as [Hx%Is_true_true%Z.eqb_eq Hin].
      apply (sorted_ids_inj (devices t)); [apply Hok|done|done|congruence].
Qed.

Lemma getDeviceById_by_id t id : getDeviceById t id = default no_device (by_id (devices t) id).
Proof. done. Qed.

Lemma getDeviceById_elem t d : db_ok t → d ∈ devices t → getDeviceById t (d_id d) = d.
Proof. intros Hok Hd. rewrite getDeviceById_by_id. by rewrite (proj2 (by_id_spec t (d_id d) d Hok) (conj Hd eq_refl)). Qed.

(** ** The daemon's path and the snapshot's walk *)

Definition walk_policy (l : list DeviceInfo) : EffectivePolicy :=
  match head (filter children_rule l) with Some parent => children_policy parent | None => default_policy end.

(** If the walk ends without an error, it found what the path holds. *)
Lemma walk_path t n m seen d r : db_ok t → d ∈ devices t → d_id d ∉ tail seen → head seen = Some (d_id d) →
  ancestor_walk n (devices t) seen (parent_id d) = inr r → (n ≤ m)%nat →
  walk_policy (tail (path_loop (S m) t None (tail seen) d)) = default default_policy r.
Proof.
  intros Hok. revert m seen d. induction n as [|n IH]; intros m seen d Hd Hnew Hhead Hw Hle; [done|].
  destruct seen as [|s0 seen]; [done|]. simpl in Hhead, Hnew. injection Hhead as ->. cbn [tail].
  cbn [path_loop]. assert (0 < d_id d) as Hpos by apply (ok_range t Hok d Hd).
  rewrite (proj2 (Z.ltb_lt _ _) Hpos), bool_decide_eq_false_2 by done. cbn [negb andb tail].
  cbn [ancestor_walk] in Hw. destruct (parent_id d <=? 0); [by injection Hw as <-|].
  case_bool_decide as Hvis; [done|]. cbn [with_override]. rewrite getDeviceById_by_id.
  destruct (by_id (devices t) (parent_id d)) as [p|] eqn:Hp; [|done]. cbn [default from_option id].
  apply (by_id_spec t _ _ Hok) in Hp as [Hp Hid]. assert (0 < d_id p) as Hpp by apply (ok_range t Hok p Hp).
  rewrite (proj2 (Z.eqb_neq (d_id p) (-1))) by lia. destruct m as [|m]; [lia|].
  assert (∃ rest, path_loop (S m) t None (d_id d :: seen) p = p :: rest) as [rest Hrest].
  { cbn [path_loop]. rewrite (proj2 (Z.ltb_lt _ _) Hpp), bool_decide_eq_false_2 by congruence. by eexists. }
  unfold walk_policy. rewrite Hrest, filter_cons. destruct (children_rule p) eqn:Hc.
  - injection Hw as <-. by rewrite decide_True.
  - rewrite decide_False by auto. specialize (IH m (parent_id d :: d_id d :: seen) p Hp). cbn [tail head] in IH.
    rewrite Hrest in IH. apply IH; [congruence|congruence|done|lia].
Qed.

(** ** Categories in the two evaluations *)

Lemma denial_hard state d a x : categoryDenial state d a true = Some x → dec_mode x = "all".
Proof. unfold categoryDenial. destruct (head _); simpl; [by intros [= <-]|done]. Qed.

Lemma denial_soft state d a x : categoryDenial state d a true = None → categoryDenial state d a false = Some x → dec_mode x = "new".
Proof.
  unfold categoryDenial. destruct (head _); simpl; [done|]. intros _. destruct (head _); simpl; [by intros [= <-]|done].
Qed.

Lemma snapshot_agrees t c l d p : db_ok t → d ∈ devices t → getDeviceCategoryPolicyState t = Some c →
  snapshot_policy (mkSnapshot l (devices t) c) (d, getDeviceAttributes t (d_id d)) = inr p →
  effective_policy t d None None = Some p.
Proof.
  intros Hok Hd Hc Hp. unfold effective_policy, snapshot_policy in *. cbn [with_override default entries identityOccurrences
    categoryPolicy fst snd] in *. rewrite Hc. cbn [default from_option]. f_equal.
  destruct (categoryDenial c d _ true) as [x|] eqn:Hhard; simpl.
  { injection Hp as <-. by rewrite (denial_hard _ _ _ _ Hhard). }
  rewrite list_fmap_id. unfold getDevicesByHashAndSubsystem. destruct (head (filter identity_rule _)); [by injection Hp as <-|].
  destruct (control_explicit d); [by injection Hp as <-|].
  destruct (categoryDenial c d _ false) as [x|] eqn:Hsoft; simpl.
  { injection Hp as <-. by rewrite (denial_soft _ _ _ _ Hhard Hsoft). }
  destruct (ancestor_walk _ _ _ _) as [e|r] eqn:Hw; [done|].
  assert (walk_policy (tail (device_path_to_root t d None)) = default default_policy r) as Hwalk.
  { unfold device_path_to_root. replace (length (devices t) + 2)%nat with (S (length (devices t) + 1)) by lia.
    apply (walk_path t (length (devices t) + 1) _ [d_id d]); [done|done|by intros Hx; inversion Hx|done|done|lia]. }
  unfold walk_policy in Hwalk. rewrite Hwalk. destruct r; by injection Hp as <-.
Qed.

(** ** Rows of the tree reach the root *)

Inductive chained (t : Tables) : DeviceInfo → list Z → Prop :=
  | chain_root d : d ∈ devices t → parent_id d ≤ 0 → chained t d [d_id d]
  | chain_child d p path : d ∈ devices t → parent_id d = d_id p → chained t p path → d_id d ∉ path →
      chained t d (d_id d :: path).

Lemma chained_in t d path : chained t d path → d ∈ devices t ∧ NoDup path ∧ head path = Some (d_id d) ∧
  ∀ x, x ∈ path → x ∈ d_id <$> devices t.
Proof.
  induction 1 as [d Hd Hp|d p path Hd Hp _ (_ & Hnd & _ & Hall) Hn].
  - split_and!; [done|apply NoDup_singleton|done|]. intros x ->%list_elem_of_singleton. by apply list_elem_of_fmap_2.
  - split_and!; [done|by apply NoDup_cons|done|]. intros x [->|Hx]%elem_of_cons; [by apply list_elem_of_fmap_2|auto].
Qed.

Lemma chained_length t d path : chained t d path → (length path ≤ length (devices t))%nat.
Proof.
  intros (_ & Hnd & _ & Hall)%chained_in. rewrite <-(length_fmap d_id). by apply submseteq_length, NoDup_submseteq.
Qed.

Lemma chained_walk t d path : db_ok t → chained t d path → ∀ n seen, (∀ x, x ∈ tail path → x ∉ seen) → (length path ≤ n)%nat →
  ∃ r, ancestor_walk n (devices t) seen (parent_id d) = inr r.
Proof.
  intros Hok. induction 1 as [d Hd Hp|d p path Hd Hp Hch IH Hn]; intros n seen Hdis Hle; (destruct n as [|n]; [simpl in Hle; lia|]).
  - simpl. rewrite (proj2 (Z.leb_le _ _) Hp). by eexists.
  - destruct (chained_in _ _ _ Hch) as (Hpin & Hnd & Hhead & _). destruct path as [|p0 path]; [done|]. injection Hhead as ->.
    simpl in Hdis, Hle |- *. pose proof (ok_range t Hok p Hpin). rewrite Hp.
    rewrite (proj2 (Z.leb_gt _ _)), bool_decide_eq_false_2 by (lia || apply Hdis; by left).
    rewrite (proj2 (by_id_spec t (d_id p) p Hok) (conj Hpin eq_refl)). destruct (children_rule p); [by eexists|].
    apply IH; [|simpl; lia]. simpl. apply NoDup_cons in Hnd as [Hnp _]. intros x Hx [->|Hs]%elem_of_cons; [done|].
    apply (Hdis x); [by right|done].
Qed.

Lemma chained_children t incl boot row child : chained t row.1 row.2 → child ∈ row_children t incl boot row →
  cyclic child = false → chained t child.1 child.2.
Proof.
  intros Hch (d & -> & [Hp%Is_true_true Hd]%list_elem_of_filter)%list_elem_of_fmap Hcyc. simpl in *.
  apply andb_true_iff in Hp as [Hp%Z.eqb_eq _]. apply bool_decide_eq_false in Hcyc. simpl in Hcyc.
  by apply (chain_child t d row.1).
Qed.

Lemma tree_levels_chained t incl boot fuel depth level rows : Forall (λ row, chained t row.1 row.2) level →
  tree_levels fuel t incl boot depth level = inr rows → Forall (λ row, chained t row.1 row.2) rows.
Proof.
  revert depth level rows. induction fuel as [|fuel IH]; intros depth level rows Hall; [done|]. cbn [tree_levels].
  destruct level as [|r0 level]; [intros [= <-]; constructor|]. set (lvl := r0 :: level) in *.
  set (next := merge_sort row_le _). destruct (head (filter _ next)) eqn:Hflag; [done|].
  destruct (tree_levels fuel t incl boot (S depth) next) as [e|below] eqn:Hbelow; [done|]. intros [= <-].
  change (Forall (λ row, chained t row.1 row.2) (lvl ++ below)). apply Forall_app. split; [done|].
  apply (IH (S depth) next); [|done].
  rewrite Forall_forall in Hall |- *. intros child Hchild. assert (cyclic child = false) as Hcyc.
  { destruct (cyclic child) eqn:Hc; [|done]. exfalso. destruct (filter _ next) eqn:Hf; [|done].
    apply (filter_nil_not_elem_of _ _ child Hf); [unfold refused; by rewrite Hc|done]. }
  unfold next in Hchild. rewrite merge_sort_Permutation in Hchild.
  assert (∃ row, row ∈ lvl ∧ child ∈ row_children t incl boot row) as (row & Hrow & Hin).
  { clear -Hchild. induction lvl as [|r l IH]; simpl in Hchild; [by inversion Hchild|].
    apply elem_of_app in Hchild as [?|?]; [exists r; split; [by left|done]|].
    destruct IH as (row & ? & ?); [done|]. exists row. split; [by right|done]. }
  eapply chained_children; [by apply Hall|done|done].
Qed.

Lemma evaluate_entries_total snapshot l :
  (∀ entry, entry ∈ l → ∃ p, snapshot_policy snapshot entry = inr p) →
  ∃ r, evaluate_entries snapshot l = inr r ∧ r.*1 = l.*1 ∧
    ∀ d p, (d, p) ∈ r → ∃ a, (d, a) ∈ l ∧ snapshot_policy snapshot (d, a) = inr p.
Proof.
  induction l as [|[d a] l IH]; intros Hall; simpl.
  { exists []. split_and!; [done|done|]. intros d p Hx. inversion Hx. }
  destruct (Hall (d, a)) as [p Hp]; [by left|]. rewrite Hp. destruct IH as (r & -> & Hk & Hr).
  { intros e He. apply Hall. by right. }
  eexists. split_and!; [done|by rewrite !fmap_cons, Hk|]. intros d' p' [[= -> ->]|Hin]%elem_of_cons.
  - exists a. split; [by left|done].
  - destruct (Hr _ _ Hin) as (a' & ? & ?). exists a'. split; [by right|done].
Qed.

Lemma computer_root_in t : 0 < d_id (getComputerRoot t) → getComputerRoot t ∈ devices t.
Proof.
  unfold getComputerRoot, first_device. destruct (head _) as [d|] eqn:Hh; simpl; [|lia]. intros _.
  destruct (filter _ _) as [|x l] eqn:Hf; [done|]. injection Hh as ->.
  assert (d ∈ d :: l) as Hd by (by left). rewrite <-Hf in Hd. by apply list_elem_of_filter in Hd as [_ ?].
Qed.

Lemma chained_total t c l d path : db_ok t → chained t d path →
  ∃ p, snapshot_policy (mkSnapshot l (devices t) c) (d, getDeviceAttributes t (d_id d)) = inr p.
Proof.
  intros Hok Hch. unfold snapshot_policy. cbn [fst snd identityOccurrences categoryPolicy].
  destruct (categoryDenial _ _ _ true); [by eexists|]. destruct (head _); [by eexists|].
  destruct (control_explicit d); [by eexists|]. destruct (categoryDenial _ _ _ false); [by eexists|].
  destruct (chained_walk t d path Hok Hch (length (devices t) + 1) [d_id d]) as [r ->]; [| |by destruct r; eexists].
  - intros x Hx. apply chained_in in Hch as (_ & Hnd & Hhead & _). destruct path as [|y path]; [done|]. injection Hhead as ->.
    apply NoDup_cons in Hnd as [Hn _]. intros ->%list_elem_of_singleton. done.
  - apply chained_length in Hch. lia.
Qed.

(** C33. The two evaluations agree: when the database can build the tree,
    the tree response holds every entry of the tree, in the tree's order, with
    the policy that the daemon computes for that device, unless it is larger than
    the limit of the protocol, which is the error reported then. Its evaluation
    meets neither a cycle nor a missing parent. *)
Theorem snapshot_agrees_with_daemon response_size t incl boot snapshot :
  db_ok t → parent_id (getComputerRoot t) = -1 →
  getDeviceTreeSnapshot t (d_id (getComputerRoot t)) incl boot = inr snapshot →
  ∃ l, device_tree_snapshot response_size t incl boot =
         (if MAX_RESPONSE_BYTES <? response_size l then inl "device tree snapshot exceeds the IPC response size limit" else inr l) ∧ l.*1 = (entries snapshot).*1 ∧
    ∀ d p, (d, p) ∈ l → d ∈ devices t ∧ effective_policy t d None None = Some p.
Proof.
  intros Hok Hroot Hs. unfold device_tree_snapshot. rewrite Hs. unfold getDeviceTreeSnapshot in Hs.
  destruct (d_id (getComputerRoot t) <=? 0) eqn:Hpos; [done|]. apply Z.leb_gt in Hpos.
  rewrite (proj2 (by_id_spec t _ _ Hok) (conj (computer_root_in t Hpos) eq_refl)) in Hs.
  destruct (malformed _ _); [done|]. destruct (tree_levels _ _ _ _ _ _) as [e|rows] eqn:Hrows; [done|].
  destruct (getDeviceCategoryPolicyState t) as [c|] eqn:Hc; [|done]. injection Hs as <-.
  apply tree_levels_chained in Hrows.
  2: { constructor; [|done]. simpl. apply chain_root; [by apply computer_root_in|lia]. }
  rewrite Forall_forall in Hrows. cbn [entries].
  set (l := (λ row : tree_row, (row.1, getDeviceAttributes t (d_id row.1))) <$> rows).
  assert (∀ d a, (d, a) ∈ l → a = getDeviceAttributes t (d_id d) ∧ ∃ path, chained t d path) as Hl.
  { intros d a (row & [= -> ->] & Hrow)%list_elem_of_fmap. split; [done|]. eexists. by apply Hrows. }
  destruct (evaluate_entries_total (mkSnapshot l (devices t) c) l) as (r & Hr & Hk & Hp).
  { intros [d a] Hin. destruct (Hl d a Hin) as (-> & path & Hch). by eapply chained_total. }
  exists r. split_and!; [match goal with |- match ?e with _ => _ end = _ => by replace e with (inr r : string + list (DeviceInfo * EffectivePolicy)) by (symmetry; exact Hr) end|done|]. intros d p Hin. destruct (Hp d p Hin) as (a & Ha & Hpol).
  destruct (Hl d a Ha) as (-> & path & Hch). assert (d ∈ devices t) as Hd by (by apply chained_in in Hch as (? & _)).
  split; [done|]. by eapply snapshot_agrees.
Qed.

Lemma snapshot_agrees_with_daemon_witness :
  effective_policy with_stick (getDeviceById with_stick 7) None None = Some default_policy.
Proof.
  destruct (snapshot_agrees_with_daemon (λ rows, 200 * Z.of_nat (length rows)) with_stick false "boot"
    (match getDeviceTreeSnapshot with_stick 1 false "boot" with inr s => s | inl _ => mkSnapshot [] [] only_known end)
    with_stick_ok) as (l & Hl & _ & Hall); [vm_compute; reflexivity|vm_compute; reflexivity|].
  apply (Hall (getDeviceById with_stick 7) default_policy). assert (device_tree_snapshot (λ rows, 200 * Z.of_nat (length rows)) with_stick false "boot" = inr l) as Hl'.
  { destruct (_ <? _); [|exact Hl]. vm_compute in Hl. discriminate Hl. }
  vm_compute in Hl'. injection Hl' as <-. apply list_elem_of_In. vm_compute. tauto.
Defined.

(** * The preview of an update *)

Definition is_connected (device : DeviceInfo) (boot : string) : bool :=
  negb (String.eqb boot "") && String.eqb (boot_id device) boot.

(** [addDevice] of [affected_devices_for_override]. *)
Definition add_affected (l : list DeviceInfo) (d : DeviceInfo) : list DeviceInfo :=
  if (0 <? d_id d) && negb (bool_decide (d_id d ∈ d_id <$> l)) then l ++ [d] else l.

Definition affected_devices_for_override (t : Tables) (target : DeviceInfo) : option (list DeviceInfo) :=
  below ← getDescendantDevices (length (devices t) + 1) t (d_id target);
  Some (foldl add_affected [] (target :: below ++ getDevicesByHashAndSubsystem t (device_hash target) (subsystem target))).

(** [None]: the recursion over the descendants does not end, or the category
    state cannot be read. *)
Definition connected_blockers_for_override (t : Tables) (boot : string) (target : DeviceInfo) (override : ControlOverride)
  : option (list (DeviceInfo * EffectivePolicy)) :=
  affected ← affected_devices_for_override t target;
  policies ← mapM (λ d, after ← effective_policy t d (Some override) None; Some (d, after))
               (filter (λ d, is_connected d boot) affected);
  Some (filter (λ dp, level dp.2 = "blocked") policies).

(** ** Descendants *)

Inductive descends (t : Tables) (root : Z) : DeviceInfo → Prop :=
  | descends_child d : d ∈ devices t → parent_id d = root → descends t root d
  | descends_step d p : descends t root p → d ∈ devices t → parent_id d = d_id p → descends t root d.

(** Whom an update of [target] may concern: itself, its descendants, and the
    devices of its identity. *)
Definition touched (t : Tables) (target d : DeviceInfo) : Prop :=
  d_id d = d_id target ∨ descends t (d_id target) d ∨ same_identity (device_hash target) (subsystem target) d = true.

(** No cycle of parents. *)
Definition rooted (t : Tables) : Prop := ∀ d, d ∈ devices t → ∃ path, chained t d path.

Lemma chained_det t d path path' : db_ok t → chained t d path → chained t d path' → path = path'.
Proof.
  intros Hok Hch. revert path'. induction Hch as [d Hd Hp|d p path Hd Hp Hch IH Hn]; intros path' Hch'.
  - inversion Hch' as [|? q ? ? Hq Hcq]; subst; [done|]. apply chained_in in Hcq as (Hq' & _).
    pose proof (ok_range t Hok q Hq'). lia.
  - apply chained_in in Hch as (Hpin & _). pose proof (ok_range t Hok p Hpin).
    inversion Hch' as [|? q ? ? Hq Hcq]; subst; [lia|]. f_equal. apply IH.
    destruct (chained_in _ _ _ Hcq) as (Hq' & _).
    by rewrite (sorted_ids_inj (devices t) p q (ok_ids t Hok) Hpin Hq' ltac:(congruence)).
Qed.

(** A row on the way to the root has a way of its own, which is no longer. *)
Lemma chained_suffix t d path x : chained t d path → x ∈ path →
  ∃ e path', d_id e = x ∧ chained t e path' ∧ (length path' ≤ length path)%nat.
Proof.
  induction 1 as [d Hd Hp|d p path Hd Hp Hch IH Hn].
  - intros ->%list_elem_of_singleton. exists d, [d_id d]. split_and!; [done|by constructor|done].
  - intros [->|Hx]%elem_of_cons.
    + exists d, (d_id d :: path). split_and!; [done|by eapply chain_child|done].
    + destruct (IH Hx) as (e & path' & ? & ? & ?). exists e, path'. split_and!; [done|done|simpl; lia].
Qed.

Lemma child_chain t p path d : db_ok t → rooted t → chained t p path → d ∈ devices t → parent_id d = d_id p →
  chained t d (d_id d :: path).
Proof.
  intros Hok Hr Hp Hd Hpar. destruct (Hr d Hd) as [q Hq]. destruct (chained_in _ _ _ Hp) as (Hpin & _).
  pose proof (ok_range t Hok p Hpin) as Hpos. inversion Hq as [|? p' ? ? Hp' Hcp' Hn]; subst; [lia|].
  destruct (chained_in _ _ _ Hcp') as (Hpin' & _).
  assert (p' = p) as -> by (apply (sorted_ids_inj (devices t)); [apply Hok|done|done|congruence]).
  by rewrite <-(chained_det t p path0 path Hok Hcp' Hp).
Qed.

Lemma getChildDevices_elem t root d : 0 < root → d ∈ getChildDevices t root ↔ d ∈ devices t ∧ parent_id d = root.
Proof.
  intros Hpos. unfold getChildDevices. rewrite (proj2 (Z.ltb_lt _ _) Hpos), list_elem_of_filter, Is_true_true, Z.eqb_eq. naive_solver.
Qed.

Lemma descend_fold t fuel children :
  (∀ c, c ∈ children → is_Some (getDescendantDevices fuel t (d_id c))) →
  is_Some (foldr (λ child rest,
        match rest, getDescendantDevices fuel t (d_id child) with
        | Some rest, Some below => Some (child :: below ++ rest)
        | _, _ => None
        end) (Some []) children).
Proof.
  induction children as [|c l IH]; intros Hall; simpl; [by eexists|].
  destruct IH as [r ->]; [intros x Hx; apply Hall; by right|]. destruct (Hall c) as [b ->]; [by left|]. by eexists.
Qed.

(** Without a cycle the recursion ends. *)
Lemma descendants_total t p path fuel : db_ok t → rooted t → chained t p path →
  (length (devices t) < fuel + length path)%nat → is_Some (getDescendantDevices fuel t (d_id p)).
Proof.
  intros Hok Hr. revert p path. induction fuel as [|fuel IH]; intros p path Hp Hle; [apply chained_length in Hp; simpl in Hle; lia|].
  cbn [getDescendantDevices]. apply descend_fold. intros c Hc.
  destruct (chained_in _ _ _ Hp) as (Hpin & _). apply getChildDevices_elem in Hc as [Hc Hpar]; [|apply (ok_range t Hok p Hpin)].
  apply (IH c (d_id c :: path)); [by eapply child_chain|simpl; lia].
Qed.

Lemma descend_fold_elem t fuel children l :
  foldr (λ child rest,
        match rest, getDescendantDevices fuel t (d_id child) with
        | Some rest, Some below => Some (child :: below ++ rest)
        | _, _ => None
        end) (Some []) children = Some l →
  ∀ x, x ∈ l ↔ ∃ c b, c ∈ children ∧ getDescendantDevices fuel t (d_id c) = Some b ∧ x ∈ c :: b.
Proof.
  revert l. induction children as [|c' children IH]; intros l Hf x.
  { injection Hf as <-. split; [by intros Hx; inversion Hx|]. intros (c & b & Hc & _). inversion Hc. }
  simpl in Hf. destruct (foldr _ _ _) as [rest|] eqn:Hrest; [|done].
  destruct (getDescendantDevices fuel t (d_id c')) as [b'|] eqn:Hb'; [|done]. injection Hf as <-.
  rewrite (app_comm_cons b' rest c'), elem_of_app, (IH rest eq_refl). split.
  - intros [Hx|(c & b & Hc & Hb & Hx)]; [exists c', b'|exists c, b]; split_and!; try done; [by left|by right].
  - intros (c & b & [->|Hc]%elem_of_cons & Hb & Hx); [left; congruence|right; eauto].
Qed.

Lemma descend_children t fuel root l d : getDescendantDevices fuel t root = Some l →
  d ∈ getChildDevices t root → d ∈ l.
Proof.
  destruct fuel as [|fuel]; [done|]. cbn [getDescendantDevices]. intros Hl Hd. apply (descend_fold_elem t fuel _ l Hl).
  assert (∃ b, getDescendantDevices fuel t (d_id d) = Some b) as [b Hb]; [|exists d, b; split_and!; [done|done|by left]].
  revert l Hl Hd. induction (getChildDevices t root) as [|c children IH]; intros l Hl Hd; [by inversion Hd|]. simpl in Hl.
  destruct (foldr _ _ _) as [rest|] eqn:Hrest; [|done].
  destruct (getDescendantDevices fuel t (d_id c)) as [b'|] eqn:Hb'; [|done]. apply elem_of_cons in Hd as [->|Hd]; eauto.
Qed.

Lemma descend_closed t fuel root l p d : db_ok t → getDescendantDevices fuel t root = Some l →
  p ∈ l → d ∈ getChildDevices t (d_id p) → d ∈ l.
Proof.
  intros Hok. revert root l. induction fuel as [|fuel IH]; intros root l Hl Hp Hd; [done|]. cbn [getDescendantDevices] in Hl.
  rewrite (descend_fold_elem t fuel _ l Hl) in Hp |- *. destruct Hp as (c & b & Hc & Hb & [->|Hp]%elem_of_cons).
  - exists c, b. split_and!; [done|done|right]. by eapply descend_children.
  - exists c, b. split_and!; [done|done|right]. by eapply IH.
Qed.

Lemma descendants_complete t fuel root l d : db_ok t → 0 < root → getDescendantDevices fuel t root = Some l →
  descends t root d → d ∈ l.
Proof.
  intros Hok Hpos Hl. induction 1 as [d Hd Hp|d p Hbelow IH Hd Hp].
  - eapply descend_children; [done|]. by apply getChildDevices_elem.
  - assert (p ∈ devices t) as Hpin by (destruct Hbelow; done).
    eapply descend_closed; [done|done|done|]. apply getChildDevices_elem; [apply (ok_range t Hok p Hpin)|done].
Qed.

Lemma descendants_in t fuel root l d : getDescendantDevices fuel t root = Some l → d ∈ l → d ∈ devices t.
Proof.
  revert root l. induction fuel as [|fuel IH]; intros root l Hl Hd; [done|]. cbn [getDescendantDevices] in Hl.
  rewrite (descend_fold_elem t fuel _ l Hl) in Hd. destruct Hd as (c & b & Hc & Hb & [->|Hd]%elem_of_cons); [|by eapply IH].
  unfold getChildDevices in Hc. destruct (0 <? root); [|by inversion Hc]. by apply list_elem_of_filter in Hc as [_ ?].
Qed.

Lemma descendants_sound t fuel root l d : getDescendantDevices fuel t root = Some l → d ∈ l → descends t root d.
Proof.
  revert root l d. induction fuel as [|fuel IH]; intros root l d Hl Hd; [done|]. cbn [getDescendantDevices] in Hl.
  rewrite (descend_fold_elem t fuel _ l Hl) in Hd. destruct Hd as (c & b & Hc & Hb & Hd).
  assert (descends t root c) as Hbelow.
  { unfold getChildDevices in Hc. destruct (0 <? root); [|by inversion Hc]. apply list_elem_of_filter in Hc as [Hp Hc].
    apply descends_child; [done|]. by apply Z.eqb_eq, Is_true_true. }
  apply elem_of_cons in Hd as [->|Hd]; [done|]. specialize (IH _ _ _ Hb Hd). clear -Hbelow IH.
  induction IH as [d Hd Hp|d p _ IH' Hd Hp]; by eapply descends_step.
Qed.

Lemma mapM_elem {A B} (f : A → option B) l k : mapM f l = Some k → ∀ y, y ∈ k ↔ ∃ x, x ∈ l ∧ f x = Some y.
Proof.
  intros Hf%mapM_Some. induction Hf as [|x y l k Hxy Hf IH]; intros z.
  - split; [by intros Hz; inversion Hz|]. intros (x & Hx & _). inversion Hx.
  - rewrite elem_of_cons, IH. setoid_rewrite elem_of_cons. naive_solver.
Qed.

Lemma add_affected_elem l acc x : (∀ d, d ∈ l → 0 < d_id d) → x ∈ acc ∨ x ∈ l →
  ∃ y, y ∈ foldl add_affected acc l ∧ d_id y = d_id x.
Proof.
  revert acc x. induction l as [|d l IH]; intros acc x Hpos; simpl; [intros [Hx|Hx]; [eauto|inversion Hx]|].
  assert (∀ e, e ∈ l → 0 < d_id e) as Hpos' by (intros e He; apply Hpos; by right).
  intros Hx. unfold add_affected at 2. rewrite (proj2 (Z.ltb_lt _ _) (Hpos d ltac:(by left))).
  destruct (decide (d_id d ∈ d_id <$> acc)) as [Hin|Hin].
  - rewrite bool_decide_eq_true_2 by done. simpl. destruct Hx as [Hx|[->|Hx]%elem_of_cons]; [auto| |auto].
    apply list_elem_of_fmap in Hin as (y & Heq & Hy). destruct (IH acc y Hpos' ltac:(by left)) as (z & ? & ?).
    exists z. split; [done|congruence].
  - rewrite bool_decide_eq_false_2 by done. simpl. apply IH; [done|]. rewrite elem_of_app, list_elem_of_singleton.
    destruct Hx as [Hx|[->|Hx]%elem_of_cons]; auto.
Qed.

Lemma add_affected_sub l acc x : x ∈ foldl add_affected acc l → x ∈ acc ∨ x ∈ l.
Proof.
  revert acc. induction l as [|d l IH]; intros acc; simpl; [auto|]. intros [Hx|Hx]%IH; [|right; by right].
  unfold add_affected in Hx. destruct (_ && _); [|auto]. apply elem_of_app in Hx as [?| ->%list_elem_of_singleton]; [auto|].
  right. by left.
Qed.

Section preview.
Context (t : Tables) (Hok : db_ok t) (target : DeviceInfo) (Htarget : target ∈ devices t).
Context (o : ControlOverride) (Ho : ov_device o = d_id target).
Context (t' : Tables) (Hup : updateDeviceControl t (d_id target) (ov_level o) (ov_explicit o) (ov_ignore o) (ov_children o) = (true, t')).

Let f := set_control (ov_level o) (ov_explicit o) (ov_ignore o) (ov_children o).

Lemma update_result : devices t' = (λ d, with_override d (Some o)) <$> devices t ∧ attribute_rows t' = attribute_rows t ∧
  categories t' = categories t.
Proof.
  revert Hup. unfold updateDeviceControl, update_device, settle. destruct (forallb _ _); [|done]. intros [= <-]. simpl.
  split_and!; [|done..]. apply list_fmap_ext. intros i d _. simpl. by rewrite Ho.
Qed.

Lemma override_key d : d_id (with_override d (Some o)) = d_id d ∧ parent_id (with_override d (Some o)) = parent_id d ∧
  device_hash (with_override d (Some o)) = device_hash d ∧ subsystem (with_override d (Some o)) = subsystem d ∧
  boot_id (with_override d (Some o)) = boot_id d.
Proof. simpl. by destruct (d_id d =? ov_device o). Qed.

Lemma first_after (P : DeviceInfo → bool) : (∀ d, P (with_override d (Some o)) = P d) →
  filter P (devices t') = (λ d, with_override d (Some o)) <$> filter P (devices t).
Proof.
  intros HP. destruct update_result as [-> _]. clear -HP. induction (devices t) as [|d l IH]; [done|].
  rewrite fmap_cons, !filter_cons, HP. case_decide; rewrite IH; done.
Qed.

Lemma getDeviceById_after id : getDeviceById t' id = with_override (getDeviceById t id) (Some o).
Proof.
  unfold getDeviceById, first_device. rewrite first_after.
  - destruct (filter _ _) as [|d l]; [|done]. cbn [head default from_option fmap list_fmap with_override].
    replace (d_id no_device =? ov_device o) with false; [done|]. symmetry. apply Z.eqb_neq. rewrite Ho.
    pose proof (ok_range t Hok target Htarget). simpl. lia.
  - intros d. by destruct (override_key d) as (-> & _).
Qed.

Lemma path_after n seen d : path_loop n t' None seen d = path_loop n t (Some o) seen d.
Proof.
  revert seen d. induction n as [|n IH]; intros seen d; [done|]. cbn [path_loop].
  change (with_override (getDeviceById t' (parent_id d)) None) with (getDeviceById t' (parent_id d)).
  rewrite getDeviceById_after. destruct (_ && _); [|done]. destruct (parent_id d <=? 0); [done|]. cbv zeta.
  destruct (d_id _ =? -1); [done|]. by rewrite IH.
Qed.

(** What the preview computes is what the update brings about. *)
Lemma override_is_update d : effective_policy t d (Some o) None = effective_policy t' (with_override d (Some o)) None None.
Proof.
  destruct update_result as (Hdev & Hatt & Hcat). unfold effective_policy.
  set (d' := with_override d (Some o)). cbn [with_override default from_option].
  assert (getDeviceCategoryPolicyState t' = getDeviceCategoryPolicyState t) as -> by (unfold getDeviceCategoryPolicyState; by rewrite Hcat).
  destruct (getDeviceCategoryPolicyState t) as [c|]; [|done].
  assert (getDeviceAttributes t' (d_id d') = getDeviceAttributes t (d_id d')) as -> by (unfold getDeviceAttributes; by rewrite Hatt).
  assert (device_path_to_root t' d' None = device_path_to_root t d' (Some o)) as ->.
  { unfold device_path_to_root. assert (with_override d' (Some o) = d') as ->.
    { unfold d'. simpl. destruct (d_id d =? ov_device o) eqn:He; simpl; by rewrite He. }
    rewrite Hdev, length_fmap. apply path_after. }
  assert (getDevicesByHashAndSubsystem t' (device_hash d') (subsystem d') =
    (λ c, with_override c (Some o)) <$> getDevicesByHashAndSubsystem t (device_hash d') (subsystem d')) as ->.
  { apply first_after. intros x. unfold same_identity. by destruct (override_key x) as (_ & _ & -> & -> & _). }
  by rewrite list_fmap_id.
Qed.

(** A device's path changes only if it leads to the target. *)
Lemma path_unaffected n seen d : d ∈ devices t →
  path_loop n t (Some o) seen d = path_loop n t None seen d ∨ descends t (d_id target) d.
Proof.
  revert seen d. induction n as [|n IH]; intros seen d Hd; [by left|]. cbn [path_loop].
  destruct (_ && _); [|by left]. destruct (parent_id d <=? 0); [by left|]. cbv zeta.
  change (with_override (getDeviceById t (parent_id d)) None) with (getDeviceById t (parent_id d)).
  destruct (override_key (getDeviceById t (parent_id d))) as (-> & _).
  destruct (d_id (getDeviceById t (parent_id d)) =? -1) eqn:Hnone; [by left|]. apply Z.eqb_neq in Hnone.
  rewrite getDeviceById_by_id in *. destruct (by_id (devices t) (parent_id d)) as [p|] eqn:Hp; [|done].
  cbn [default from_option id] in *. apply (by_id_spec t _ _ Hok) in Hp as [Hp Hid].
  destruct (decide (d_id p = d_id target)) as [Heq|Hne]; [right; apply descends_child; congruence|].
  assert (with_override p (Some o) = p) as ->.
  { simpl. by rewrite Ho, (proj2 (Z.eqb_neq _ _) Hne). }
  destruct (IH (d_id d :: seen) p Hp) as [->|Hb]; [by left|]. right. by eapply descends_step.
Qed.

(** A device that is not among the affected ones keeps its level. *)
Lemma unaffected d : d ∈ devices t → d_id d ≠ d_id target → ¬ descends t (d_id target) d →
  same_identity (device_hash target) (subsystem target) d = false →
  effective_policy t d (Some o) None = effective_policy t d None None.
Proof.
  intros Hd Hne Hnb Hsame. unfold effective_policy.
  assert (with_override d (Some o) = d) as -> by (simpl; by rewrite Ho, (proj2 (Z.eqb_neq _ _) Hne)).
  change (with_override d None) with d. destruct (getDeviceCategoryPolicyState t) as [c|]; [|done].
  assert (device_path_to_root t d (Some o) = device_path_to_root t d None) as ->.
  { unfold device_path_to_root. assert (with_override d (Some o) = d) as -> by (simpl; by rewrite Ho, (proj2 (Z.eqb_neq _ _) Hne)).
    by destruct (path_unaffected (length (devices t) + 2) [] d Hd). }
  assert ((λ c, with_override c (Some o)) <$> getDevicesByHashAndSubsystem t (device_hash d) (subsystem d) =
          (λ c, with_override c None) <$> getDevicesByHashAndSubsystem t (device_hash d) (subsystem d)) as ->; [|done].
  apply list_fmap_ext. intros i x Hx%list_elem_of_lookup_2. apply list_elem_of_filter in Hx as [Hx%Is_true_true Hin].
  simpl. rewrite Ho. destruct (d_id x =? d_id target) eqn:Heq; [|done]. apply Z.eqb_eq in Heq.
  rewrite (sorted_ids_inj (devices t) x target (ok_ids t Hok) Hin Htarget Heq) in Hx.
  unfold same_identity in *. apply andb_true_iff in Hx as [H1%String.eqb_eq H2%String.eqb_eq].
  rewrite H1, H2, !String.eqb_refl in Hsame. done.
Qed.

Lemma effective_total d ov live : is_Some (effective_policy t d ov live).
Proof.
  unfold effective_policy. destruct (proj2 (mode_valid_ok t)) as [c ->]; [apply (ok_categories t Hok)|]. by eexists.
Qed.

Lemma affected_spec (Hr : rooted t) : ∃ l, affected_devices_for_override t target = Some l ∧
  ∀ d, d ∈ l ↔ d ∈ devices t ∧ touched t target d.
Proof.
  unfold affected_devices_for_override. destruct (Hr target Htarget) as [path Hpath].
  destruct (descendants_total t target path (length (devices t) + 1) Hok Hr Hpath) as [b Hb]; [lia|]. rewrite Hb. cbn [mbind option_bind].
  eexists. split; [done|]. unfold touched.
  assert (∀ d, d ∈ target :: b ++ getDevicesByHashAndSubsystem t (device_hash target) (subsystem target) → d ∈ devices t) as Hsub.
  { intros d [->|[Hd|Hd]%elem_of_app]%elem_of_cons; [done| |by apply list_elem_of_filter in Hd as [_ ?]].
    by eapply descendants_in. }
  intros d. split.
  { intros [Hd|Hd]%add_affected_sub; [inversion Hd|]. split; [auto|]. apply elem_of_cons in Hd as [->|[Hd|Hd]%elem_of_app]; [by left| |].
    - right; left. by eapply descendants_sound.
    - right; right. by apply list_elem_of_filter in Hd as [Hd%Is_true_true _]. }
  intros [Hd Hcase].
  assert (d ∈ target :: b ++ getDevicesByHashAndSubsystem t (device_hash target) (subsystem target)) as Hin.
  { destruct Hcase as [Heq|[Hbel|Hsame]].
    - rewrite (sorted_ids_inj (devices t) d target (ok_ids t Hok) Hd Htarget Heq). by left.
    - right. apply elem_of_app. left. eapply descendants_complete; [done|apply (ok_range t Hok target Htarget)|done|done].
    - right. apply elem_of_app. right. apply list_elem_of_filter. by rewrite Hsame. }
  destruct (add_affected_elem _ [] d ltac:(intros e He; apply (ok_range t Hok e (Hsub e He))) ltac:(by right)) as (y & Hy & Heq).
  rewrite <-(sorted_ids_inj (devices t) y d (ok_ids t Hok)); [done| |done|done].
  apply add_affected_sub in Hy as [Hy|Hy]; [inversion Hy|auto].
Qed.

(** The row of a device after the update. *)
Lemma row_after d : d ∈ devices t → getDeviceById t' (d_id d) = with_override d (Some o).
Proof. intros Hd. by rewrite getDeviceById_after, getDeviceById_elem. Qed.
End preview.

(** C34. The warning of a control update is exact: it lists the connected devices
    that the tables left by the update block, among the target, its descendants
    and the devices of its identity, each with the policy those tables give it,
    whether or not it was blocked before; and every other device keeps the policy
    it had. Without a cycle of parents the preview always ends. *)
Theorem preview_is_exact t t' target o boot :
  db_ok t → rooted t → target ∈ devices t → ov_device o = d_id target →
  updateDeviceControl t (d_id target) (ov_level o) (ov_explicit o) (ov_ignore o) (ov_children o) = (true, t') →
  ∃ blockers, connected_blockers_for_override t boot target o = Some blockers ∧
    (∀ d p, (d, p) ∈ blockers ↔ d ∈ devices t ∧ touched t target d ∧ is_connected d boot = true ∧ level p = "blocked" ∧
       effective_policy t' (getDeviceById t' (d_id d)) None None = Some p) ∧
    (∀ d, d ∈ devices t → ¬ touched t target d →
       effective_policy t' (getDeviceById t' (d_id d)) None None = effective_policy t d None None).
Proof.
  intros Hok Hr Ht Ho Hup. destruct (affected_spec t Hok target Ht Hr) as (aff & Haff & Hall).
  unfold connected_blockers_for_override. rewrite Haff. simpl mbind.
  set (f := λ d : DeviceInfo, after ← effective_policy t d (Some o) None; Some (d, after)).
  assert (∃ ps, mapM f (filter (λ d, is_connected d boot) aff) = Some ps) as [ps Hps].
  { apply mapM_is_Some, Forall_forall. intros d _. unfold f.
    destruct (effective_total t Hok d (Some o) None) as [p Hp]. exists (d, p). cbv beta. rewrite Hp. done. }
  rewrite Hps. eexists. split; [done|].
  assert (∀ d p, (d, p) ∈ ps ↔ d ∈ aff ∧ is_connected d boot = true ∧ effective_policy t d (Some o) None = Some p) as Hin.
  { intros d p. rewrite (mapM_elem f _ _ Hps). split.
    - intros (x & [Hc%Is_true_true Hx]%list_elem_of_filter & Hf). unfold f in Hf.
      destruct (effective_policy t x (Some o) None) eqn:He; [|done]. by injection Hf as -> ->.
    - intros (Hd & Hc & He). exists d. rewrite list_elem_of_filter, Hc. unfold f. by rewrite He. }
  assert (∀ d, d ∈ devices t → effective_policy t' (getDeviceById t' (d_id d)) None None = effective_policy t d (Some o) None) as Hafter.
  { intros d Hd. by rewrite (row_after t Hok target Ht o Ho t' Hup d Hd), <-(override_is_update t Hok target Ht o Ho t' Hup). }
  split.
  - intros d p. rewrite list_elem_of_filter, Hin, Hall. cbn [snd]. split.
    + intros (Hl & (Hd & Htouch) & Hc & He). by rewrite (Hafter d Hd).
    + intros (Hd & Htouch & Hc & Hl & He). by rewrite (Hafter d Hd) in He.
  - intros d Hd Hno. rewrite (Hafter d Hd). unfold touched in Hno.
    apply (unaffected t Hok target Ht o Ho d Hd); [naive_solver|naive_solver|]. apply not_true_iff_false. naive_solver.
Qed.

Definition block_stick : ControlOverride := mkOverride 7 "blocked" true false "inherit".

Lemma rooted_by_ids t : db_ok t → forallb (λ d, parent_id d <? d_id d) (devices t) = true → rooted t.
Proof.
  intros Hok Hall d Hd. rewrite forallb_forall in Hall.
  cut (∃ path, chained t d path ∧ ∀ x, x ∈ path → x ≤ d_id d); [naive_solver|].
  assert (∃ n, d_id d < Z.of_nat n) as [n Hn] by (exists (Z.to_nat (d_id d + 1)); pose proof (ok_range t Hok d Hd); lia).
  revert d Hd Hn. induction n as [|n IH]; intros d Hd Hn; [pose proof (ok_range t Hok d Hd); lia|].
  specialize (Hall d ltac:(by apply list_elem_of_In)) as Hlt%Z.ltb_lt.
  destruct (ok_parents t Hok d Hd) as [Hp|(p & Hp & Hin)%list_elem_of_fmap].
  - exists [d_id d]. split; [apply chain_root; [done|lia]|]. intros x ->%list_elem_of_singleton. lia.
  - destruct (IH p Hin) as (path & Hch & Hle); [lia|]. exists (d_id d :: path). split.
    + apply (chain_child t d p); [done..|]. intros Hx%Hle. lia.
    + intros x [->|Hx%Hle]%elem_of_cons; lia.
Qed.

Lemma preview_is_exact_witness :
  ∃ t' l, connected_blockers_for_override with_stick "boot" (getDeviceById with_stick 7) block_stick = Some l ∧
    ∀ d p, (d, p) ∈ l → level p = "blocked" ∧ effective_policy t' (getDeviceById t' (d_id d)) None None = Some p.
Proof.
  exists (updateDeviceControl with_stick 7 "blocked" true false "inherit").2.
  destruct (preview_is_exact with_stick (updateDeviceControl with_stick 7 "blocked" true false "inherit").2
    (getDeviceById with_stick 7) block_stick "boot" with_stick_ok) as (l & Hl & Hb & _);
    [apply rooted_by_ids; [apply with_stick_ok|vm_compute; reflexivity]|apply list_elem_of_In; vm_compute; tauto
    |vm_compute; reflexivity|vm_compute; reflexivity|].
  exists l. split; [exact Hl|]. intros d p Hd. apply Hb in Hd as (_ & _ & _ & ? & ?). by split.
Defined.
