(* ===== verification/DeviceIncidentEvent.v ===== *)
(** The main daemon's side of a missing permanent device
    (fic/src/daemon/DeviceIncidentEvent.cpp and the command
    incident_device_missing of fic/src/main.cpp): the check of the event, the
    reaction that the trusted configuration dictates, the one raise it leads to
    and the acknowledgement. *)

From S2P Require Import Prelude Severity PolicyValue ConfigFile PolicyModel Registry Json StateStore ResponseMode Effects Controller ControllerFacts ControllerDisk.
From stdpp Require Import pretty.
Open Scope string_scope.
Open Scope list_scope.
Open Scope Z_scope.
Open Scope prog_scope.

Definition int_max : Z := 2 ^ 31 - 1.
Definition API_VERSION : Z := 1.

Definition make_error_response (message : string) : json :=
  JObject [("api_version", JInteger API_VERSION); ("message", JString message); ("ok", JBool false)].
Definition make_ok_response (message : string) : json :=
  JObject [("api_version", JInteger API_VERSION); ("message", JString message); ("ok", JBool true)].

(** * The event *)

Record PeerCredentials := mkPeer { peer_available : bool; peer_uid : Z }.

Definition is_trusted_device_daemon_peer (peer : PeerCredentials) : bool := peer_available peer && (peer_uid peer =? 0).

Definition MAX_DEVICE_MISSING_IDS : nat := 64.

(** The first member that is not allowed, in the order of the keys. *)
Definition request_has_only_fields (request : json) (allowed : list string) : option string :=
  match request with
  | JObject members =>
      (λ m, "field is not allowed for this command: " +:+ m.1)
      <$> head (filter (λ m, m.1 ≠ "api_version" ∧ m.1 ∉ allowed) members)
  | _ => None
  end.

(** [at]: an exception for a missing key. *)
Definition at_key (key : string) (j : json) : exc json :=
  match Json.find key j with Some v => Val v | None => Exn ("key '" +:+ key +:+ "' not found") end.

(** One entry of [device_ids]. An unsigned value beyond the range of
    [std::int64_t] would come out negative and is refused as well. *)
Definition device_id_of (id : json) : string + Z :=
  match as_integer id with
  | None => inl "request.device_ids entries must be integers"
  | Some value =>
      if (value <=? 0) || (int_max <? value) then inl "request.device_ids entries must be positive device ids" else inr value
  end.
Fixpoint device_ids_of (ids : list json) : string + list Z :=
  match ids with
  | [] => inr []
  | id :: ids =>
      match device_id_of id with
      | inl error => inl error
      | inr value => match device_ids_of ids with inl error => inl error | inr rest => inr (value :: rest) end
      end
  end.

(** The error text or the ids. *)
Definition validate_device_missing_event (request : json) : exc (string + list Z) :=
  match request_has_only_fields request ["command"; "device_ids"; "device_ids_total"] with
  | Some error => Val (inl error)
  | None =>
      let! ids := at_key "device_ids" request in
      match as_array ids with
      | None | Some [] => Val (inl "request.device_ids must be a non-empty array")
      | Some ids =>
          if (MAX_DEVICE_MISSING_IDS <? length ids)%nat then Val (inl "request.device_ids exceeds the bounded payload")
          else match device_ids_of ids with
          | inl error => Val (inl error)
          | inr deviceIds =>
              let! total := at_key "device_ids_total" request in
              Val match as_unsigned total with
              | Some n =>
                  if (int_max <? n) || (n <? Z.of_nat (length ids))
                  then inl "request.device_ids_total must be a bounded non-negative integer not smaller than device_ids"
                  else inr deviceIds
              | None => inl "request.device_ids_total must be a bounded non-negative integer not smaller than device_ids"
              end
          end
      end
  end.

(** * The reaction *)

Inductive DeviceMissingReactionKind := Disabled | NoReaction | ReactSeverity | Unproven.
#[export] Instance DeviceMissingReactionKind_eq_dec : EqDecision DeviceMissingReactionKind.
Proof. solve_decision. Defined.

Record DeviceMissingReaction := mkReaction {
  kind : DeviceMissingReactionKind;
  reaction_severity : IncidentSeverity;
  diagnostic : string
}.
Definition default_reaction : DeviceMissingReaction := mkReaction Unproven Isolate "".
Definition unproven_reaction : DeviceMissingReaction :=
  mkReaction Unproven Isolate "permanent_device_missing_severity is unproven; fail-closed reaction ISOLATE".

Section main_daemon.
Context {W : Type} `{JsonArrays}.

(** [raw]: the module configuration as it is read again here; [None] if that fails. *)
Definition resolve_device_missing_severity (raw : option Config) (policy : Policy W) : exc DeviceMissingReaction :=
  match raw with
  | None => Val unproven_reaction
  | Some entries =>
      match config entries !! ModuleConfig.statusKey (policyName (p_ref policy)) with
      | None => Val unproven_reaction
      | Some status =>
          if negb (String.eqb status "ENABLE" || String.eqb status "DISABLE") then Val unproven_reaction
          else if negb (isEnabled policy) then
            Val (mkReaction Disabled Unlocked "permanent_device_missing_severity is DISABLE")
          else
            let! value := policy_getValue policy in
            match value with
            | None => Val unproven_reaction
            | Some value =>
                match parseViolationSeverityToken value with
                | None => Val unproven_reaction
                | Some violation =>
                    if negb (violationSeverityReacts violation) then
                      Val (mkReaction NoReaction Unlocked "permanent_device_missing_severity is NONE")
                    else
                      let! severity := violationSeverityToIncidentSeverity violation in
                      Val (mkReaction ReactSeverity severity ("configured " +:+ value))
                end
            end
      end
  end.

(** The first submodule with a policy of that name. *)
Definition getPolicyClass (reg : PolicyRegistry W) (module policy : string) : option (Policy W) :=
  match smap_find module (modules reg) with
  | None => None
  | Some m => head (omap (λ s, smap_find policy s.2) (submodules m))
  end.

Definition missing_reaction (reg : PolicyRegistry W) (raw : option Config) : exc DeviceMissingReaction :=
  match getPolicyClass reg "DC" "permanent_device_missing_severity" with
  | None => Val default_reaction
  | Some policy => resolve_device_missing_severity raw policy
  end.

(** * The acknowledgement *)

Definition raiseMessage (persistenceConfirmed degraded : bool) : string :=
  if negb persistenceConfirmed then "device incident could not be recorded"
  else if degraded then "device incident recorded; containment degraded"
  else "device incident processed".

Definition intentional (reaction : DeviceMissingReaction) : bool :=
  bool_decide (kind reaction = Disabled) || bool_decide (kind reaction = NoReaction).

Definition make_device_incident_ack_response (reaction : DeviceMissingReaction)
    (ignoredByMode persistenceConfirmed incidentOk : bool)
    (requestedSeverityToken effectiveSeverityToken responseModeToken runtimeToken : string)
    (escalated persistentStateBroken : bool) (detail : string) : json :=
  if ignoredByMode || intentional reaction then
    JObject [("acknowledged", JBool true); ("api_version", JInteger 1); ("command", JString "incident_device_missing");
             ("effective_severity", JString effectiveSeverityToken); ("escalated", JBool false); ("ignored", JBool true);
             ("incident_ok", JBool true); ("message", JString "device incident intentionally ignored"); ("ok", JBool true);
             ("persistence_confirmed", JBool false); ("reason", JString (diagnostic reaction));
             ("requested_severity", JString "NONE"); ("response_mode", JString responseModeToken);
             ("runtime", JString runtimeToken)]
  else
    JObject [("acknowledged", JBool persistenceConfirmed); ("api_version", JInteger 1);
             ("command", JString "incident_device_missing"); ("detail", JString detail);
             ("effective_severity", JString effectiveSeverityToken); ("escalated", JBool escalated); ("ignored", JBool false);
             ("incident_ok", JBool incidentOk);
             ("message", JString (raiseMessage persistenceConfirmed (String.eqb runtimeToken "degraded"))); ("ok", JBool incidentOk);
             ("persistence_confirmed", JBool persistenceConfirmed); ("persistent_state_broken", JBool persistentStateBroken);
             ("reason", JString (diagnostic reaction)); ("requested_severity", JString requestedSeverityToken);
             ("response_mode", JString responseModeToken); ("runtime", JString runtimeToken)].

Definition severity_text (s : IncidentSeverity) : string := match incidentSeverityToken s with Val t => t | Exn _ => "" end.

(** * The command *)

Definition missing_reason (deviceIds : list Z) : string :=
  foldl (λ r id, r +:+ " device_id=" +:+ pretty id) "PERMANENT_DEVICE_MISSING:" deviceIds.

Definition device_source : IncidentSource := named_source "device".

(** The event has been checked and the reaction resolved. *)
Definition react (wiring : Wiring) (reaction : DeviceMissingReaction) (mode : IncidentResponseModeResult) (deviceIds : list Z)
    (detail : string) : Ctrl json :=
  let modeToken := incidentResponseModeToken (response_mode mode) in
  if intentional reaction then
    st ← Controller.status wiring;
    ret (make_device_incident_ack_response reaction true false true "NONE" (severity_text (st_severity st)) modeToken
           (runtimeStateToString Inactive) false false "")
  else
    raised ← raise wiring (reaction_severity reaction) device_source (missing_reason deviceIds);
    ret (make_device_incident_ack_response reaction (r_ignoredByMode raised) (r_persistenceConfirmed raised) (r_ok raised)
           (severity_text (reaction_severity reaction)) (severity_text (r_effective raised)) modeToken
           (runtimeStateToString (r_runtime raised)) (r_escalated raised) (r_persistentStateBroken raised) detail).

(** [detail]: the text of the raise's diagnostics. The exceptions all precede
    the raise. *)
Definition incident_device_missing (wiring : Wiring) (reg : PolicyRegistry W) (raw : option Config)
    (mode : IncidentResponseModeResult) (detail : string) (peer : PeerCredentials) (request : json) : Ctrl json :=
  if negb (is_trusted_device_daemon_peer peer) then
    ret (make_error_response "incident_device_missing requires the trusted device daemon")
  else match validate_device_missing_event request with
  | Exn e => ret (make_error_response ("exception: " +:+ e))
  | Val (inl error) => ret (make_error_response error)
  | Val (inr deviceIds) =>
      match missing_reaction reg raw with
      | Exn e => ret (make_error_response ("exception: " +:+ e))
      | Val reaction => react wiring reaction mode deviceIds detail
      end
  end.
End main_daemon.
