(* ===== verification/DeviceIncident.v ===== *)
(** Missing permanent devices: how the device daemon finds them, reports them
    to the main daemon, and remembers what was not delivered (fic-dick/src/
    daemon/DeviceControlDaemon.cpp, PermanentDeviceIncident.cpp and
    PermanentDeviceRetry.h). *)

From S2P Require Import Prelude Severity PolicyValue ConfigFile PolicyModel Registry Json FileModel AtomicWriter AtomicFacts SecureRead StateStore TargetStore ResponseMode Effects Controller ControllerFacts ControllerDisk DeviceData DeviceDb DevicePolicy DeviceIncidentEvent.
Open Scope string_scope.
Open Scope list_scope.
Open Scope Z_scope.

(** * The obligations *)

Definition is_static_container (device : DeviceInfo) : bool := String.eqb (boot_id device) "-1".

Definition identity_connected (t : Tables) (device : DeviceInfo) (boot : string) : bool :=
  if (d_id device <=? 0) || String.eqb boot "" then false
  else if is_static_container device then true
  else existsb (λ occurrence, is_connected occurrence boot)
         (getDevicesByHashAndSubsystem t (device_hash device) (subsystem device)).

(** The device whose rule obliges. *)
Definition obliging_device (t : Tables) (device : DeviceInfo) (policy : EffectivePolicy) : DeviceInfo :=
  let found := if 0 <? sourceDeviceId policy then getDeviceById t (sourceDeviceId policy) else device in
  if d_id found =? -1 then device else found.

Definition permanent_satisfied (t : Tables) (boot : string) (device : DeviceInfo) (policy : EffectivePolicy) : bool :=
  if String.eqb boot "" then false else identity_connected t (obliging_device t device policy) boot.

Record PermanentViolation := mkViolation {
  v_deviceId : Z;
  v_sourceDeviceId : Z;
  v_devpath : string;
  v_source : string
}.

Record PermanentViolationScan := mkScan {
  scan_ok : bool;
  scan_error : string;
  violations : list PermanentViolation
}.

Definition obligation_key (source : DeviceInfo) : string := device_hash source +:+ DeviceData.newline +:+ subsystem source.

Definition category_error : string := "category policy state is not valid".

(** The loop over the candidates; an exception of the category state leaves it. *)
Fixpoint violations_of (t : Tables) (boot : string) (seenObligations : list string) (candidates : list DeviceInfo)
  : exc (list PermanentViolation) :=
  match candidates with
  | [] => Val []
  | device :: rest =>
      match effective_policy t device None None with
      | None => Exn category_error
      | Some policy =>
          if negb (String.eqb (level policy) "permanent") then violations_of t boot seenObligations rest
          else if permanent_satisfied t boot device policy then violations_of t boot seenObligations rest
          else
            let source := obliging_device t device policy in
            if bool_decide (obligation_key source ∈ seenObligations) then violations_of t boot seenObligations rest
            else
              let! more := violations_of t boot (obligation_key source :: seenObligations) rest in
              Val (mkViolation (d_id device) (d_id source) (devpath device) (DevicePolicy.source policy) :: more)
      end
  end.

(** [inventory]: the error of the checked read of all devices, if it failed. *)
Definition collect_missing_permanent_devices_checked (t : Tables) (boot : string) (inventory : option string)
    (candidateIds : option (list Z)) : exc PermanentViolationScan :=
  match candidateIds, inventory with
  | None, Some error => Val (mkScan false error [])
  | _, _ =>
      let candidates :=
        match candidateIds with
        | Some ids => filter (λ d, d_id d ≠ -1) (getDeviceById t <$> ids)
        | None => getAllDevices t
        end in
      let! found := violations_of t boot [] candidates in
      Val (mkScan true "" found)
  end.

(** * The request *)

Definition MAX_DEVICE_INCIDENT_IDS : nat := 64.

Definition permanent_device_incident_request (found : list PermanentViolation) : json :=
  JObject [("command", JString "incident_device_missing");
           ("device_ids", JArray ((λ v, JInteger (v_deviceId v)) <$> take MAX_DEVICE_INCIDENT_IDS found));
           ("device_ids_total", JUnsigned (Z.of_nat (length found)))].

Definition quote : string := String (Ascii.ascii_of_nat 34) "".

(** [None]: valid. *)
Definition is_valid_permanent_device_incident_request (request : json) : option string :=
  match request with
  | JObject members =>
      match head (filter (λ m, m.1 ∉ ["command"; "device_ids"; "device_ids_total"; "api_version"]) members) with
      | Some m => Some ("unknown request field: " +:+ m.1)
      | None =>
          if negb (bool_decide (string_at "command" request = Some "incident_device_missing"))
          then Some ("request.command must be " +:+ quote +:+ "incident_device_missing" +:+ quote)
          else match array_at "device_ids" request with
          | None => Some "request.device_ids must be an array"
          | Some [] => Some "request.device_ids must not be empty"
          | Some ids =>
              if (MAX_DEVICE_INCIDENT_IDS <? length ids)%nat then Some "request.device_ids exceeds the bounded payload"
              else match device_ids_of ids with
              | inl error => Some error
              | inr _ =>
                  match unsigned_at "device_ids_total" request with
                  | Some n => if int_max <? n then Some "request.device_ids_total must be a non-negative 32-bit integer" else None
                  | None => Some "request.device_ids_total must be a non-negative 32-bit integer"
                  end
              end
          end
      end
  | _ => Some "request must be an object"
  end.

(** * The acknowledgement *)

Record DeviceIncidentAcknowledgement := mkAck {
  ack_valid : bool;
  ack_acknowledged : bool;
  ack_persistenceConfirmed : bool;
  ack_ignored : bool;
  ack_escalated : bool;
  ack_mode : string;
  ack_requestedSeverity : string;
  ack_effectiveSeverity : string;
  ack_runtime : string;
  ack_message : string;
  ack_error : string
}.
Definition no_ack (error : string) : DeviceIncidentAcknowledgement := mkAck false false false false false "" "" "" "" "" error.

(** [value] with a default: an exception for a value of another type. *)
Definition value_string (key default_value : string) (j : json) : exc string :=
  match Json.find key j with
  | None => Val default_value
  | Some (JString s) => Val s
  | Some _ => Exn "type must be string"
  end.
Definition value_bool (key : string) (default_value : bool) (j : json) : exc bool :=
  match Json.find key j with
  | None => Val default_value
  | Some (JBool b) => Val b
  | Some _ => Exn "type must be boolean"
  end.

Definition required_fields : list string := ["acknowledged"; "persistence_confirmed"; "ignored"; "response_mode"].

Definition field_error (response : json) (field : string) : option string :=
  match Json.find field response with
  | None => Some ("response." +:+ field +:+ " is required")
  | Some item =>
      let ok := if String.eqb field "response_mode" then bool_decide (is_Some (as_string item))
                else bool_decide (is_Some (as_bool item)) in
      if ok then None else Some ("response." +:+ field +:+ " has an invalid type")
  end.

(** The checks of the mode and of the three statements. *)
Definition ack_fault (mode : string) (acknowledged persistenceConfirmed ignored : bool) : option string :=
  if negb (String.eqb mode "OFF" || String.eqb mode "PASSIVE" || String.eqb mode "ACTIVE")
  then Some ("response.response_mode is unknown: " +:+ mode)
  else if ignored then
    if persistenceConfirmed then Some "an intentionally ignored event must not claim persistence"
    else if negb acknowledged then Some "an intentionally ignored event must still be acknowledged"
    else None
  else if negb (Bool.eqb acknowledged persistenceConfirmed)
  then Some "a non-ignored event must acknowledge exactly a confirmed persistence"
  else None.

Definition parse_device_incident_acknowledgement (response : json) : exc DeviceIncidentAcknowledgement :=
  match response with
  | JObject _ =>
      if negb (bool_decide (string_at "command" response = Some "incident_device_missing")) then
        let! text := value_string "message" "unknown response" response in
        Val (no_ack ("main fic daemon did not process the device incident: " +:+ text))
      else match head (omap (field_error response) required_fields) with
      | Some error => Val (no_ack error)
      | None =>
          let! acknowledged := value_bool "acknowledged" false response in
          let! persistenceConfirmed := value_bool "persistence_confirmed" false response in
          let! ignored := value_bool "ignored" false response in
          let! escalated := value_bool "escalated" false response in
          let! mode := value_string "response_mode" "" response in
          let! requested := value_string "requested_severity" "" response in
          let! effective := value_string "effective_severity" "" response in
          let! runtime := value_string "runtime" "" response in
          let! message := value_string "message" "" response in
          let ack (valid : bool) (error : string) :=
            mkAck valid acknowledged persistenceConfirmed ignored escalated mode requested effective runtime message error in
          Val match ack_fault mode acknowledged persistenceConfirmed ignored with
          | Some error => ack false error
          | None => ack true ""
          end
      end
  | _ => Val (no_ack "main fic daemon returned a malformed response")
  end.

(** * The retry obligation *)

(** The flag before and after a pass. *)
Definition updatePermanentIncidentRetry (scanOk fullCheck violationsEmpty delivered : bool) (required : bool) : bool :=
  if negb scanOk then required
  else if negb fullCheck then (if negb violationsEmpty && negb delivered then true else required)
  else if violationsEmpty || delivered then false
  else true.

(** * The pass *)

Record DeviceIncidentDelivery := mkDelivery {
  del_delivered : bool;
  del_escalated : bool;
  del_ignored : bool;
  del_mode : string;
  del_requestedSeverity : string;
  del_effectiveSeverity : string;
  del_runtime : string;
  del_message : string
}.
Definition no_delivery (message : string) : DeviceIncidentDelivery := mkDelivery false false false "" "" "" "" message.

Section device_daemon.
Context {X : Type} (exchange : json → X → (string + json) * X).

(** [exchange] is [Client::requestWithStatus]: an error or the response. *)
Definition call_fic_device_incident (found : list PermanentViolation) (x : X) : exc DeviceIncidentDelivery * X :=
  let request := permanent_device_incident_request found in
  match is_valid_permanent_device_incident_request request with
  | Some schemaError => (Val (no_delivery ("detector event schema is invalid: " +:+ schemaError)), x)
  | None =>
      let '(result, x) := exchange request x in
      (match result with
       | inl error => Val (no_delivery (if String.eqb error "" then "main fic daemon did not respond" else error))
       | inr response =>
           let! ack := parse_device_incident_acknowledgement response in
           Val (if negb (ack_valid ack) then no_delivery (ack_error ack)
                else mkDelivery (ack_acknowledged ack) (ack_escalated ack) (ack_ignored ack) (ack_mode ack)
                       (ack_requestedSeverity ack) (ack_effectiveSeverity ack) (ack_runtime ack) (ack_message ack))
       end, x)
  end.

Definition bool_text (b : bool) : string := if b then "true" else "false".

Definition audit_details (d : DeviceIncidentDelivery) : string :=
  "permanent device is missing; incident_device_missing: " +:+ (if del_delivered d then "delivered" else "delivery failed") +:+
  "; mode=" +:+ del_mode d +:+ "; requested=" +:+ del_requestedSeverity d +:+ "; effective=" +:+ del_effectiveSeverity d +:+
  "; escalated=" +:+ bool_text (del_escalated d) +:+ "; runtime=" +:+ del_runtime d +:+ "; detail=" +:+ del_message d.

(** The loop that records the violations as events of the devices. *)
Definition record_violations (now : string) (d : DeviceIncidentDelivery) (found : list PermanentViolation) (t : Tables) : Tables :=
  foldl (λ t v, (addDeviceEvent now t (v_deviceId v) "incident" (if del_delivered d then "success" else "error")
                   (audit_details d)).2) t found.

Definition violation_json (v : PermanentViolation) : json :=
  JObject [("device_id", JInteger (v_deviceId v)); ("devpath", JString (v_devpath v)); ("source", JString (v_source v));
           ("source_device_id", JInteger (v_sourceDeviceId v))].

(** What a pass leaves: its response or exception, the retry flag, the
    tables, and the world behind [exchange]. *)
Definition check_permanent_devices (now boot : string) (inventory : option string) (candidateIds : option (list Z))
    (t : Tables) (required : bool) (x : X) : exc json * bool * Tables * X :=
  let fullCheck := bool_decide (candidateIds = None) in
  match collect_missing_permanent_devices_checked t boot inventory candidateIds with
  | Exn e => (Exn e, required, t, x)
  | Val scan =>
      if negb (scan_ok scan) then
        (Val (make_error_response ("permanent device inventory is unproven: " +:+ scan_error scan)), required, t, x)
      else match violations scan with
      | [] =>
          if fullCheck then
            (Val (make_ok_response "all permanent devices are connected"),
             updatePermanentIncidentRetry true true true false required, t, x)
          else (Val (make_ok_response "affected permanent devices are connected"), required, t, x)
      | found =>
          let '(delivery, x) := call_fic_device_incident found x in
          match delivery with
          | Exn e => (Exn e, required, t, x)
          | Val d =>
              let required := updatePermanentIncidentRetry true fullCheck false (del_delivered d) required in
              (Val (JObject
                 [("incident_effective_severity", JString (del_effectiveSeverity d)); ("incident_escalated", JBool (del_escalated d));
                  ("incident_ignored", JBool (del_ignored d)); ("incident_mode", JString (del_mode d));
                  ("incident_requested_severity", JString (del_requestedSeverity d));
                  ("message", JString (if del_delivered d then "missing permanent device; incident reported"
                                       else "missing permanent device; incident delivery failed"));
                  ("missing", JArray (violation_json <$> found)); ("ok", JBool (del_delivered d));
                  ("retry_required", JBool required)]),
               required, record_violations now d found t, x)
          end
      end
  end.
End device_daemon.

(** * What travels between the daemons *)

(** A value and what the receiver's JSON library reads from its text: an
    integer that is not negative is read as an unsigned one. *)
Inductive arrives : json → json → Prop :=
  | arrives_null : arrives JNull JNull
  | arrives_float t : arrives (JFloat t) (JFloat t)
  | arrives_bool b : arrives (JBool b) (JBool b)
  | arrives_string s : arrives (JString s) (JString s)
  | arrives_unsigned n : arrives (JUnsigned n) (JUnsigned n)
  | arrives_integer z : 0 ≤ z → arrives (JInteger z) (JUnsigned z)
  | arrives_negative z : z < 0 → arrives (JInteger z) (JInteger z)
  | arrives_array l l' : Forall2 arrives l l' → arrives (JArray l) (JArray l')
  | arrives_object l l' : Forall2 (λ a b, a.1 = b.1 ∧ arrives a.2 b.2) l l' → arrives (JObject l) (JObject l').

(** The text may not arrive. If it does, its members have arrived, beside
    the version that the sender adds. *)
Class Wire := { arrive : json → option json }.
Class WireLaws `{Wire} := {
  arrive_object : ∀ members j, arrive (JObject members) = Some j →
    ∃ members', j = JObject members' ∧
      (∀ m, m ∈ members' → m.1 = "api_version" ∨ m.1 ∈ members.*1) ∧
      (∀ key v, key ≠ "api_version" → member key members = Some v → ∃ v', member key members' = Some v' ∧ arrives v v')
}.

(** How an exchange may end: nothing arrives; the daemon refuses without
    handling the event; it handles it and the answer is lost; or it arrives. *)
Inductive exchanged `{Wire} {X} (handler : json → X → json * X) (request : json) (x : X) : string + json → X → Prop :=
  | ex_lost error : exchanged handler request x (inl error) x
  | ex_refused members text :
      string_at "command" (JObject members) ≠ Some "incident_device_missing" →
      string_at "message" (JObject members) = Some text → exchanged handler request x (inr (JObject members)) x
  | ex_answer_lost req error : arrive request = Some req → exchanged handler request x (inl error) (handler req x).2
  | ex_answered req reply : arrive request = Some req → arrive (handler req x).1 = Some reply →
      exchanged handler request x (inr reply) (handler req x).2.

(** * Facts *)

Section wire.
Context `{WireLaws}.

Lemma arrive_find members j key v : arrive (JObject members) = Some j → key ≠ "api_version" →
  member key members = Some v → ∃ v', Json.find key j = Some v' ∧ arrives v v'.
Proof. intros Hj Hk Hv. destruct (arrive_object _ _ Hj) as (members' & -> & _ & Hall). by apply Hall. Qed.

Lemma arrive_string members j key s : arrive (JObject members) = Some j → key ≠ "api_version" →
  member key members = Some (JString s) → Json.find key j = Some (JString s).
Proof. intros Hj Hk Hv. destruct (arrive_find _ _ _ _ Hj Hk Hv) as (v' & -> & Hs). by inversion Hs. Qed.
Lemma arrive_bool members j key b : arrive (JObject members) = Some j → key ≠ "api_version" →
  member key members = Some (JBool b) → Json.find key j = Some (JBool b).
Proof. intros Hj Hk Hv. destruct (arrive_find _ _ _ _ Hj Hk Hv) as (v' & -> & Hs). by inversion Hs. Qed.

(** ** The request is accepted *)

Lemma device_ids_of_ints ids l' : Forall (λ id, 0 < id ≤ int_max) ids → Forall2 arrives (JInteger <$> ids) l' →
  device_ids_of l' = inr ids.
Proof.
  intros Hall. revert l'. induction Hall as [|id ids Hid _ IH]; intros l' Hf; inversion Hf as [|? y ? l2 Hy Hl]; subst; [done|].
  simpl. assert (as_integer y = Some id) as Hi by (inversion Hy; subst; done).
  unfold device_id_of. rewrite Hi, (proj2 (Z.leb_gt id 0)), (proj2 (Z.ltb_ge int_max id)) by lia. simpl. by rewrite (IH l2).
Qed.

Lemma device_ids_of_own ids : Forall (λ id, 0 < id ≤ int_max) ids → device_ids_of (JInteger <$> ids) = inr ids.
Proof.
  induction 1 as [|id ids Hid _ IH]; [done|]. rewrite fmap_cons. cbn [device_ids_of]. rewrite IH. unfold device_id_of. simpl.
  by rewrite (proj2 (Z.leb_gt id 0)), (proj2 (Z.ltb_ge int_max id)) by lia.
Qed.

Definition reportable (found : list PermanentViolation) : Prop :=
  found ≠ [] ∧ Forall (λ v, 0 < v_deviceId v ≤ int_max) found ∧ Z.of_nat (length found) ≤ int_max.

Definition reported_ids (found : list PermanentViolation) : list Z := v_deviceId <$> take MAX_DEVICE_INCIDENT_IDS found.

Lemma reported_range found : reportable found → Forall (λ id, 0 < id ≤ int_max) (reported_ids found).
Proof. intros (_ & Hall & _). apply Forall_fmap, Forall_take. eapply Forall_impl; [exact Hall|done]. Qed.

Lemma request_ids found : permanent_device_incident_request found =
  JObject [("command", JString "incident_device_missing"); ("device_ids", JArray (JInteger <$> reported_ids found));
           ("device_ids_total", JUnsigned (Z.of_nat (length found)))].
Proof. unfold permanent_device_incident_request, reported_ids. by rewrite <-list_fmap_compose. Qed.

Lemma reported_length found : (length (reported_ids found) ≤ MAX_DEVICE_INCIDENT_IDS)%nat ∧
  (length (reported_ids found) ≤ length found)%nat.
Proof. unfold reported_ids. rewrite length_fmap, length_take. lia. Qed.

Lemma reported_nonempty found : found ≠ [] → reported_ids found ≠ [].
Proof. destruct found; [done|]. by intros _. Qed.

Lemma request_valid found : reportable found →
  is_valid_permanent_device_incident_request (permanent_device_incident_request found) = None.
Proof.
  intros Hr. rewrite request_ids. unfold is_valid_permanent_device_incident_request.
  pose proof (reported_range found Hr) as Hrange. destruct (reported_length found) as [Hlen _].
  replace (head (filter _ _)) with (@None (string * json)); [|done]. simpl string_at. rewrite bool_decide_eq_true_2 by done. simpl negb. cbn iota.
  change (array_at "device_ids" _) with (Some (JInteger <$> reported_ids found)).
  destruct (JInteger <$> reported_ids found) as [|x l] eqn:He.
  { destruct Hr as [Hne _]. apply reported_nonempty in Hne. by destruct (reported_ids found). }
  rewrite <-He. rewrite length_fmap, (proj2 (Nat.ltb_ge _ _) Hlen), device_ids_of_own by done.
  change (unsigned_at "device_ids_total" _) with (Some (Z.of_nat (length found))).
  destruct Hr as (_ & _ & Hn). by rewrite (proj2 (Z.ltb_ge _ _) Hn).
Qed.

Lemma request_accepted found req : reportable found → arrive (permanent_device_incident_request found) = Some req →
  validate_device_missing_event req = Val (inr (reported_ids found)).
Proof.
  intros Hr Hreq. rewrite request_ids in Hreq. unfold validate_device_missing_event.
  assert (request_has_only_fields req ["command"; "device_ids"; "device_ids_total"] = None) as ->.
  { destruct (arrive_object _ _ Hreq) as (members' & -> & Hkeys & _). simpl.
    destruct (filter _ members') as [|m l] eqn:Hf; [done|exfalso].
    assert (m ∈ m :: l) as Hm by (by left). rewrite <-Hf in Hm. apply list_elem_of_filter in Hm as [[Hv Hn] Hm].
    destruct (Hkeys m Hm) as [?|Hin]; [done|]. by apply Hn. }
  destruct (arrive_find _ _ "device_ids" _ Hreq ltac:(done) eq_refl) as (v' & Hv & Harr).
  inversion Harr as [| | | | | | |l l' Hl|]; subst. destruct (arrive_find _ _ "device_ids_total" _ Hreq ltac:(done) eq_refl) as (n' & Hn & Harr').
  inversion Harr'; subst. unfold at_key. rewrite Hv, Hn. cbn [exc_bind as_array as_unsigned].
  pose proof (Forall2_length _ _ _ Hl) as Hlen. rewrite length_fmap in Hlen. destruct (reported_length found) as [H64 Htot].
  destruct l' as [|x l'].
  { exfalso. destruct Hr as [Hne _]. apply (reported_nonempty found Hne). by apply nil_length_inv. }
  rewrite <-Hlen. change MAX_DEVICE_MISSING_IDS with MAX_DEVICE_INCIDENT_IDS. rewrite (proj2 (Nat.ltb_ge _ _) H64).
  rewrite (device_ids_of_ints (reported_ids found)); [|by apply reported_range|done].
  destruct Hr as (_ & _ & Hmax). rewrite (proj2 (Z.ltb_ge _ _) Hmax), (proj2 (Z.ltb_ge _ _)); [done|lia].
Qed.

(** ** The answer is understood *)

Lemma mode_token_known mode : incidentResponseModeToken mode ∈ ["OFF"; "PASSIVE"; "ACTIVE"].
Proof. destruct mode; simpl; apply list_elem_of_In; simpl; tauto. Qed.

Lemma parse_fields j acknowledged persistence ignored escalated mode requested effective runtime message :
  (∃ members, j = JObject members) →
  Json.find "command" j = Some (JString "incident_device_missing") → Json.find "acknowledged" j = Some (JBool acknowledged) →
  Json.find "persistence_confirmed" j = Some (JBool persistence) → Json.find "ignored" j = Some (JBool ignored) →
  Json.find "escalated" j = Some (JBool escalated) → Json.find "response_mode" j = Some (JString mode) →
  Json.find "requested_severity" j = Some (JString requested) → Json.find "effective_severity" j = Some (JString effective) →
  Json.find "runtime" j = Some (JString runtime) → Json.find "message" j = Some (JString message) →
  mode ∈ ["OFF"; "PASSIVE"; "ACTIVE"] →
  (if ignored then persistence = false ∧ acknowledged = true else acknowledged = persistence) →
  parse_device_incident_acknowledgement j =
    Val (mkAck true acknowledged persistence ignored escalated mode requested effective runtime message "").
Proof.
  intros [members Hj] Hc Ha Hp Hi He Hm Hr Hf Ht Hx Hmode Hcons. unfold parse_device_incident_acknowledgement.
  subst j. rewrite bool_decide_eq_true_2 by (unfold string_at; by rewrite Hc). cbn [negb].
  assert (head (omap (field_error (JObject members)) required_fields) = None) as ->.
  { unfold required_fields. cbn [omap list_omap]. unfold field_error. by rewrite Ha, Hp, Hi, Hm. }
  unfold value_bool, value_string. rewrite Ha, Hp, Hi, He, Hm, Hr, Hf, Ht, Hx. cbn [exc_bind].
  assert (ack_fault mode acknowledged persistence ignored = None) as ->; [|done]. unfold ack_fault.
  assert (String.eqb mode "OFF" || String.eqb mode "PASSIVE" || String.eqb mode "ACTIVE" = true) as ->.
  { apply list_elem_of_In in Hmode. simpl in Hmode. destruct Hmode as [<-|[<-|[<-|[]]]]; done. }
  simpl negb. cbn iota. destruct ignored; [by destruct Hcons as [-> ->]|]. subst. by destruct persistence.
Qed.

Lemma ack_understood reaction ignored persistence ok requested effective mode runtime esc broken detail reply :
  arrive (make_device_incident_ack_response reaction ignored persistence ok requested effective (incidentResponseModeToken mode)
    runtime esc broken detail) = Some reply →
  ∃ ack, parse_device_incident_acknowledgement reply = Val ack ∧ ack_valid ack = true ∧
    ack_acknowledged ack = (ignored || intentional reaction || persistence) ∧
    ack_ignored ack = (ignored || intentional reaction) ∧
    ack_persistenceConfirmed ack = negb (ignored || intentional reaction) && persistence.
Proof.
  unfold make_device_incident_ack_response. destruct (ignored || intentional reaction) eqn:Hig; intros Hreply;
    (destruct (arrive_object _ _ Hreply) as (members' & Hj & _);
     eexists; split;
       [eapply parse_fields; first
          [by eexists|eapply (arrive_string _ _ _ _ Hreply); [discriminate|reflexivity]
          |eapply (arrive_bool _ _ _ _ Hreply); [discriminate|reflexivity]|apply mode_token_known|done]|done]).
Qed.

Lemma error_understood message reply : arrive (make_error_response message) = Some reply →
  Json.find "command" reply = None →
  ∃ ack, parse_device_incident_acknowledgement reply = Val ack ∧ ack_valid ack = false.
Proof.
  intros Hreply Hc. destruct (arrive_object _ _ Hreply) as (members' & Hj & _). unfold parse_device_incident_acknowledgement.
  subst reply. rewrite bool_decide_eq_false_2 by (unfold string_at; by rewrite Hc). cbn [negb].
  unfold value_string. rewrite (arrive_string _ _ "message" message Hreply) by done. by eexists.
Qed.

Lemma error_no_command message reply : arrive (make_error_response message) = Some reply → Json.find "command" reply = None.
Proof.
  intros Hreply. destruct (arrive_object _ _ Hreply) as (members' & -> & Hkeys & _). simpl. clear Hreply.
  induction members' as [|[k v] l IH]; [done|]. simpl. destruct (String.eqb_spec k "command") as [->|Hne].
  - destruct (Hkeys ("command", v)) as [?|Hin]; [by left|done|]. apply list_elem_of_In in Hin. simpl in Hin. naive_solver.
  - apply IH. intros m Hm. apply Hkeys. by right.
Qed.
End wire.

(** ** The scan *)

Lemma violations_complete t boot seen candidates found d p :
  violations_of t boot seen candidates = Val found → d ∈ candidates → effective_policy t d None None = Some p →
  level p = "permanent" → permanent_satisfied t boot d p = false →
  obligation_key (obliging_device t d p) ∈ seen ∨
  ∃ v d' p', v ∈ found ∧ d' ∈ candidates ∧ effective_policy t d' None None = Some p' ∧ v_deviceId v = d_id d' ∧
    obligation_key (obliging_device t d' p') = obligation_key (obliging_device t d p).
Proof.
  revert seen found. induction candidates as [|c l IH]; intros seen found Hf Hd Hp Hl Hs; [by inversion Hd|]. simpl in Hf.
  assert (∀ seen' found', violations_of t boot seen' l = Val found' → d ∈ l →
    obligation_key (obliging_device t d p) ∈ seen' ∨
    ∃ v d' p', v ∈ found' ∧ d' ∈ c :: l ∧ effective_policy t d' None None = Some p' ∧ v_deviceId v = d_id d' ∧
      obligation_key (obliging_device t d' p') = obligation_key (obliging_device t d p)) as Hrec.
  { intros seen' found' Hf' Hd'. destruct (IH seen' found' Hf' Hd' Hp Hl Hs) as [?|(v & d' & p' & ? & ? & ? & ? & ?)]; [by left|right].
    exists v, d', p'. split_and!; [done|by right|done..]. }
  destruct (effective_policy t c None None) as [q|] eqn:Hq; [|done]. apply elem_of_cons in Hd as [<-|Hd].
  - rewrite Hq in Hp. injection Hp as ->. rewrite Hl, Hs in Hf. simpl in Hf.
    case_bool_decide as Hseen; [by left|]. right. apply exc_bind_Val in Hf as (more & _ & [= <-]).
    eexists _, d, p. split_and!; [by left|by left|done|done|done].
  - destruct (negb _); [by apply (Hrec seen)|]. destruct (permanent_satisfied t boot c q); [by apply (Hrec seen)|].
    case_bool_decide as Hseen; [by apply (Hrec seen)|]. apply exc_bind_Val in Hf as (more & Hmore & [= <-]).
    destruct (Hrec _ _ Hmore Hd) as [[Heq|?]%elem_of_cons|(v & d' & p' & ? & ? & ? & ? & ?)]; [|by left|].
    + right. eexists _, c, q. split_and!; [by left|by left|done|done|done].
    + right. exists v, d', p'. split_and!; [by right|done..].
Qed.

Lemma violations_sound t boot seen candidates found v :
  violations_of t boot seen candidates = Val found → v ∈ found →
  ∃ d p, d ∈ candidates ∧ v_deviceId v = d_id d ∧ effective_policy t d None None = Some p ∧ level p = "permanent" ∧
    permanent_satisfied t boot d p = false.
Proof.
  revert seen found. induction candidates as [|c l IH]; intros seen found Hf Hv; [injection Hf as <-; inversion Hv|]. simpl in Hf.
  assert (∀ seen' found', violations_of t boot seen' l = Val found' → v ∈ found' → ∃ d p, d ∈ c :: l ∧ v_deviceId v = d_id d ∧
    effective_policy t d None None = Some p ∧ level p = "permanent" ∧ permanent_satisfied t boot d p = false) as Hrec.
  { intros seen' found' Hf' Hv'. destruct (IH seen' found' Hf' Hv') as (d & p & ? & ? & ? & ? & ?).
    exists d, p. split_and!; [by right|done..]. }
  destruct (effective_policy t c None None) as [q|] eqn:Hq; [|done].
  destruct (String.eqb_spec (level q) "permanent") as [Hlevel|?]; simpl in Hf; [|by apply (Hrec seen found)].
  destruct (permanent_satisfied t boot c q) eqn:Hsat; [by apply (Hrec seen found)|].
  case_bool_decide as Hseen; [by apply (Hrec seen found)|]. apply exc_bind_Val in Hf as (more & Hmore & [= <-]).
  apply elem_of_cons in Hv as [->|Hv]; [|by apply (Hrec _ _ Hmore)].
  exists c, q. split_and!; [by left|done..].
Qed.

Lemma violations_total t boot seen candidates : db_ok t → ∃ found, violations_of t boot seen candidates = Val found ∧
  (length found ≤ length candidates)%nat.
Proof.
  intros Hok. revert seen. induction candidates as [|c l IH]; intros seen; simpl; [by exists []|].
  destruct (effective_total t Hok c None None) as [q ->].
  assert (∀ seen', ∃ found, violations_of t boot seen' l = Val found ∧ (length found ≤ S (length l))%nat) as Hrec.
  { intros seen'. destruct (IH seen') as (f & ? & ?). exists f. split; [done|lia]. }
  destruct (negb _); [apply Hrec|]. destruct (permanent_satisfied _ _ _ _); [apply Hrec|]. case_bool_decide; [apply Hrec|].
  destruct (IH (obligation_key (obliging_device t c q) :: seen)) as (f & -> & ?). simpl. eexists. split; [done|simpl; lia].
Qed.

(** ** The main daemon on its disk *)

Section end_to_end.
Context {P : Type} `{JsonArrays} `{JsonText} `{WireLaws}.
Context (wiring : Wiring) (reg : PolicyRegistry P) (raw : option Config) (mode : IncidentResponseModeResult) (detail : string)
  (peer : PeerCredentials).
Context (state_path target_path : string) (fic_group : Z) {Y : Type} (other : ∀ c, Y → resp c * Y).
Context (state_visible : visible state_path) (target_visible : visible target_path) (paths_differ : state_path ≠ target_path).

(** The controller's state, the disk, and the components behind [other]. *)
Definition serve (req : json) (x : Ctl * (World * Y)) : json * Ctl * history * (World * Y) :=
  run resp (disk_handle state_path target_path fic_group other)
    (incident_device_missing wiring reg raw mode detail peer req x.1) [] x.2.
Definition main_daemon (req : json) (x : Ctl * (World * Y)) : json * (Ctl * (World * Y)) :=
  let out := serve req x in (out.1.1.1, (out.1.1.2, out.2)).

(** What the event brought about: the configuration or the response mode
    wanted it ignored, or its severity is recorded. *)
Definition recorded (reaction : DeviceMissingReaction) (d d' : Disk) : Prop :=
  (∀ s, may_be d' state_path s → may_be d state_path s ∨ sev_le (reaction_severity reaction) s) ∧
  ∃ effective, sev_le (reaction_severity reaction) effective ∧
    (settled d state_path → ∀ s, may_be d' state_path s → s = effective).

Definition dealt_with (req : json) (s : Ctl) (w : World) (y : Y) : Prop :=
  let out := serve req (s, (w, y)) in
  ∃ reaction, missing_reaction reg raw = Val reaction ∧
    (intentional reaction = true ∨ switched_off out.1.2 ∨ recorded reaction (w_disk w) (w_disk out.2.1)).

Lemma react_spec reaction deviceIds s : intentional reaction = false →
  hoare resp (raises_once (reaction_severity reaction)) [] s (react wiring reaction mode deviceIds detail)
    (λ h s' j, ∃ r, raise_backed (reaction_severity reaction) h s' r ∧
       j = make_device_incident_ack_response reaction (r_ignoredByMode r) (r_persistenceConfirmed r) (r_ok r)
             (severity_text (reaction_severity reaction)) (severity_text (r_effective r))
             (incidentResponseModeToken (response_mode mode)) (runtimeStateToString (r_runtime r)) (r_escalated r)
             (r_persistentStateBroken r) detail).
Proof.
  intros Hint. unfold react. rewrite Hint. apply hoare_bind. eapply hoare_mono; [apply raise_once_backed|].
  intros h s' r Hr. apply hoare_ret. eauto.
Qed.

Lemma react_reply reaction deviceIds s (e : World * Y) : ∃ i p o q f m b br t,
  (run resp (disk_handle state_path target_path fic_group other) (react wiring reaction mode deviceIds detail s) [] e).1.1.1 =
  make_device_incident_ack_response reaction i p o q f (incidentResponseModeToken (response_mode mode)) m b br t.
Proof.
  unfold react, sbind, ret. destruct (intentional reaction); cbv beta zeta; rewrite run_map; simpl;
    by eexists _, _, _, _, _, _, _, _, _.
Qed.

(** An answer that acknowledges the event means that it was dealt with. *)
Lemma answer_means found req reply ack s w y : reportable found → alone w → wf (w_disk w) →
  arrive (permanent_device_incident_request found) = Some req → arrive (main_daemon req (s, (w, y))).1 = Some reply →
  parse_device_incident_acknowledgement reply = Val ack → ack_valid ack = true → ack_acknowledged ack = true →
  dealt_with req s w y.
Proof.
  intros Hr Ha Hw Hreq Hreply Hack Hvalid Hok. unfold dealt_with, main_daemon, serve in *. cbn [fst snd] in *.
  unfold incident_device_missing in *. rewrite (request_accepted found req Hr Hreq) in *.
  assert (∀ message, arrive (make_error_response message) = Some reply → False) as Hno.
  { intros message Herr. destruct (error_understood message reply Herr (error_no_command message reply Herr)) as (a & Ha' & Hv).
    congruence. }
  destruct (is_trusted_device_daemon_peer peer); simpl in Hreply; [|by destruct (Hno _ Hreply)].
  destruct (missing_reaction reg raw) as [reaction|e]; [|by destruct (Hno _ Hreply)].
  exists reaction. split; [done|]. cbn [negb]. destruct (intentional reaction) eqn:Hint; [by left|right].
  destruct (raises_on_disk state_path target_path fic_group other state_visible target_visible paths_differ
    (reaction_severity reaction) _ _ s w y (react_spec reaction (reported_ids found) s Hint) Ha Hw) as [(r & Hback & Hj) HI].
  set (out := run _ _ _ _ _) in *. rewrite Hj in Hreply. clear Hj.
  destruct (ack_understood _ _ _ _ _ _ _ _ _ _ _ _ Hreply) as (ack' & Hack' & _ & Hacked & _).
  rewrite Hack in Hack'. injection Hack' as <-. rewrite Hok, Hint, orb_false_r in Hacked.
  destruct (r_ignoredByMode r) eqn:Hign; [left; by apply (rb_ignored _ _ _ _ Hback)|right].
  destruct (raise_outcome _ _ _ _ _ _ _ _ Hback HI) as [Hsev Hall]. split; [apply HI|].
  exists (r_effective r). split; [auto|]. intros Hset. apply Hall; [done|by right].
Qed.

Context (exchange : json → Ctl * (World * Y) → (string + json) * (Ctl * (World * Y))).
Context (link : ∀ request x, exchanged main_daemon request x (exchange request x).1 (exchange request x).2).

(** A pass over violations either delivers them or keeps the obligation. *)
Lemma delivery_means found s w y : reportable found → alone w → wf (w_disk w) →
  ∃ d, (call_fic_device_incident exchange found (s, (w, y))).1 = Val d ∧
    (del_delivered d = true → ∃ req, arrive (permanent_device_incident_request found) = Some req ∧
       (call_fic_device_incident exchange found (s, (w, y))).2 = (main_daemon req (s, (w, y))).2 ∧ dealt_with req s w y).
Proof.
  intros Hr Ha Hw. unfold call_fic_device_incident. rewrite (request_valid found Hr).
  pose proof (link (permanent_device_incident_request found) (s, (w, y))) as Hx.
  destruct (exchange _ _) as [result x']. cbn [fst snd] in Hx |- *.
  inversion Hx as [error|members text Hc Hm|req error Hreq|req reply Hreq Hreply]; subst.
  - by eexists; split.
  - unfold parse_device_incident_acknowledgement. rewrite bool_decide_eq_false_2 by done. cbn [negb].
    unfold value_string. unfold string_at in Hm. destruct (Json.find "message" _) as [v|]; [|done]. destruct v; try done. by eexists; split.
  - by eexists; split.
  - assert (∃ ack, parse_device_incident_acknowledgement reply = Val ack) as [ack Hack].
    { unfold main_daemon, serve, incident_device_missing in Hreply. cbn [fst snd] in Hreply.
      rewrite (request_accepted found req Hr Hreq) in Hreply.
      assert (∀ message, arrive (make_error_response message) = Some reply → ∃ ack, parse_device_incident_acknowledgement reply = Val ack) as Herr.
      { intros message He. destruct (error_understood message reply He (error_no_command message reply He)) as (a & ? & _). eauto. }
      destruct (negb _); [exact (Herr _ Hreply)|]. destruct (missing_reaction reg raw) as [reaction|e]; [|exact (Herr _ Hreply)].
      destruct (react_reply reaction (reported_ids found) s (w, y)) as (i & p & o & q & f & m & b & br & t & Heq).
      rewrite Heq in Hreply. destruct (ack_understood _ _ _ _ _ _ _ _ _ _ _ _ Hreply) as (a & ? & _). eauto. }
    rewrite Hack. simpl. destruct (ack_valid ack) eqn:Hv; simpl; [|by eexists; split]. eexists. split; [done|]. simpl. intros Hok.
    exists req. split_and!; [done|done|]. by eapply answer_means.
Qed.
End end_to_end.

(** ** What is scanned can be reported *)

Lemma scan_reportable t boot found : db_ok t → next_device t ≤ int_max + 1 → found ≠ [] →
  violations_of t boot [] (devices t) = Val found → (length found ≤ length (devices t))%nat → reportable found.
Proof.
  intros Hok Hmax Hne Hf Hlen. split_and!; [done| |].
  - apply Forall_forall. intros v Hv. destruct (violations_sound _ _ _ _ _ _ Hf Hv) as (d & p & Hd & -> & _).
    pose proof (ok_range t Hok d Hd). lia.
  - enough (Z.of_nat (length (d_id <$> devices t)) ≤ next_device t - 0 - 1) by (rewrite length_fmap in *; lia).
    apply sorted_count; [|apply Hok|intros x (d & -> & Hd)%list_elem_of_fmap; apply (ok_range t Hok d Hd)].
    destruct (devices t) as [|d l] eqn:Hd; [destruct found; [done|simpl in Hlen; lia]|].
    pose proof (ok_range t Hok d ltac:(rewrite Hd; by left)). lia.
Qed.

(** * Properties *)

(** The full scan is exact: over a sound database it always ends with a
    list; every violation on it belongs to a device whose level is permanent
    and whose obliging device is not connected; and every such device is
    represented on it by a violation of the same obligation. *)
Theorem permanent_scan_exact t boot : db_ok t →
  ∃ found, collect_missing_permanent_devices_checked t boot None None = Val (mkScan true "" found) ∧
    (∀ v, v ∈ found → ∃ d p, d ∈ devices t ∧ v_deviceId v = d_id d ∧ effective_policy t d None None = Some p ∧
       level p = "permanent" ∧ permanent_satisfied t boot d p = false) ∧
    (∀ d p, d ∈ devices t → effective_policy t d None None = Some p → level p = "permanent" →
       permanent_satisfied t boot d p = false →
       ∃ v d' p', v ∈ found ∧ d' ∈ devices t ∧ v_deviceId v = d_id d' ∧ effective_policy t d' None None = Some p' ∧
         obligation_key (obliging_device t d' p') = obligation_key (obliging_device t d p)).
Proof.
  intros Hok. destruct (violations_total t boot [] (devices t) Hok) as (found & Hf & _).
  exists found. unfold collect_missing_permanent_devices_checked, getAllDevices. rewrite Hf. split_and!; [done| |].
  - intros v Hv. exact (violations_sound _ _ _ _ _ _ Hf Hv).
  - intros d p Hd Hp Hl Hs. destruct (violations_complete _ _ _ _ _ _ _ Hf Hd Hp Hl Hs) as [Hin|(v & d' & p' & ? & ? & ? & ? & ?)].
    + inversion Hin.
    + exists v, d', p'. done.
Qed.

(** C3. A missing permanent device is never lost between the daemons. Let a
    device of the database have the level permanent while its obliging device is
    not connected, and let a full check run over a link that may drop the request
    or the answer at will, or be refused; the main daemon's controller runs on
    its two files, with any system calls failing and any answers of its other
    components. Then either the device daemon still has its obligation to
    retry, or the main daemon has dealt with the event: its configuration says
    DISABLE or NONE, the response mode was OFF, or the configured severity
    (ISOLATE if the configuration proves nothing) bounds what the state file can
    stand for from then on. *)
Theorem missing_device_is_never_lost {P} `{JsonArrays} `{JsonText} `{WireLaws} wiring (reg : PolicyRegistry P) raw mode detail peer
    state_path target_path fic_group (Y : Type) (other : ∀ c, Y → resp c * Y)
    (exchange : json → Ctl * (World * Y) → (string + json) * (Ctl * (World * Y)))
    now boot t d p required s w y :
  db_ok t → next_device t ≤ int_max + 1 →
  d ∈ devices t → effective_policy t d None None = Some p → level p = "permanent" → permanent_satisfied t boot d p = false →
  visible state_path → visible target_path → state_path ≠ target_path → alone w → wf (w_disk w) →
  (∀ request x, exchanged (main_daemon wiring reg raw mode detail peer state_path target_path fic_group other) request x
     (exchange request x).1 (exchange request x).2) →
  let out := check_permanent_devices exchange now boot None None t required (s, (w, y)) in
  out.1.1.2 = true ∨
  ∃ found req, violations_of t boot [] (devices t) = Val found ∧ arrive (permanent_device_incident_request found) = Some req ∧
    out.2 = (main_daemon wiring reg raw mode detail peer state_path target_path fic_group other req (s, (w, y))).2 ∧
    dealt_with wiring reg raw mode detail peer state_path target_path fic_group other req s w y.
Proof.
  intros Hok Hmax Hd Hp Hl Hs Hsv Htv Hne Ha Hw link out.
  destruct (violations_total t boot [] (devices t) Hok) as (found & Hf & Hlen).
  assert (found ≠ []) as Hfound.
  { destruct (violations_complete _ _ _ _ _ _ _ Hf Hd Hp Hl Hs) as [Hin|(v & _ & _ & Hv & _)]; [inversion Hin|].
    intros ->. inversion Hv. }
  pose proof (scan_reportable t boot found Hok Hmax Hfound Hf Hlen) as Hr.
  destruct (delivery_means wiring reg raw mode detail peer state_path target_path fic_group other Hsv Htv Hne exchange link found s w y
    Hr Ha Hw) as (del & Hdel & Hmeans).
  unfold out, check_permanent_devices, collect_missing_permanent_devices_checked, getAllDevices. rewrite Hf. cbn [exc_bind scan_ok violations negb].
  destruct found as [|v found]; [done|]. destruct (call_fic_device_incident exchange (v :: found) (s, (w, y))) as [result x'] eqn:Hcall.
  cbn [fst snd] in Hdel, Hmeans. subst result. cbn [fst snd]. rewrite bool_decide_eq_true_2 by done.
  destruct (del_delivered del) eqn:Hdd; [right|by left]. destruct (Hmeans eq_refl) as (req & Hreq & Hx & Hdealt). by exists (v :: found), req.
Qed.

(** The outcomes of a pass that matter for the retry. *)
Record Pass := mkPassOutcome { p_scanOk : bool; p_full : bool; p_empty : bool; p_delivered : bool }.

Definition after_passes (passes : list Pass) (required : bool) : bool :=
  foldl (λ r p, updatePermanentIncidentRetry (p_scanOk p) (p_full p) (p_empty p) (p_delivered p) r) required passes.

Definition arms (p : Pass) : bool := p_scanOk p && negb (p_empty p) && negb (p_delivered p).
Definition discharges (p : Pass) : bool := p_scanOk p && p_full p && (p_empty p || p_delivered p).

Lemma update_cases p r :
  updatePermanentIncidentRetry (p_scanOk p) (p_full p) (p_empty p) (p_delivered p) r =
  if arms p then true else if discharges p then false else r.
Proof. destruct p as [[] [] [] []], r; reflexivity. Qed.

Lemma arms_not_discharges p : arms p = true → discharges p = false.
Proof. by destruct p as [[] [] [] []]. Qed.

(** The retry obligation over any sequence of passes: it is pending at the
    end exactly when some pass proved violations that were not delivered, or it
    was pending before, and no later full pass proved that nothing is missing or
    that everything was delivered. In particular neither a failed scan nor a
    partial one clears it. *)
Theorem retry_obligation_exact passes required :
  after_passes passes required = true ↔
  (∃ before p later, passes = before ++ p :: later ∧ arms p = true ∧ Forall (λ q, discharges q = false) later) ∨
  (required = true ∧ Forall (λ q, discharges q = false) passes).
Proof.
  induction passes as [|p passes IH] using rev_ind.
  { unfold after_passes. simpl. split; [intros ->; right; auto|]. intros [(b & q & l & Heq & _)|[-> _]]; [by destruct b|done]. }
  unfold after_passes in *. rewrite foldl_snoc, update_cases. destruct (arms p) eqn:Ha.
  { split; [|done]. intros _. left. exists passes, p, []. auto. }
  destruct (discharges p) eqn:Hd.
  { split; [done|]. intros [(b & q & l & Heq & Hq & Hl)|[_ Hall]].
    - destruct l as [|z l _] using rev_ind; [apply app_inj_tail in Heq as [_ ->]; congruence|].
      rewrite app_comm_cons, app_assoc in Heq. apply app_inj_tail in Heq as [_ ->]. apply Forall_app in Hl as [_ Hl]. inversion Hl; congruence.
    - apply Forall_app in Hall as [_ Hall]. inversion Hall; congruence. }
  rewrite IH. split.
  - intros [(b & q & l & -> & Hq & Hl)|[-> Hall]].
    + left. exists b, q, (l ++ [p]). split_and!; [by rewrite <-app_assoc|done|]. apply Forall_app. auto.
    + right. split; [done|]. apply Forall_app. auto.
  - intros [(b & q & l & Heq & Hq & Hl)|[-> Hall]].
    + destruct l as [|z l _] using rev_ind; [apply app_inj_tail in Heq as [_ ->]; congruence|].
      rewrite app_comm_cons, app_assoc in Heq. apply app_inj_tail in Heq as [-> ->]. left. exists b, q, l.
      apply Forall_app in Hl as [? _]. done.
    + right. apply Forall_app in Hall as [? _]. done.
Qed.

(** The events by which the device daemon means to record a missing
    device never reach the database: their type, "incident", is not one the
    schema allows, every insertion is refused, and a check leaves the tables as
    they were. *)
Theorem missing_device_event_refused {X} (exchange : json → X → (string + json) * X) now boot inventory candidateIds t required x :
  (check_permanent_devices exchange now boot inventory candidateIds t required x).1.2 = t.
Proof.
  unfold check_permanent_devices. destruct (collect_missing_permanent_devices_checked _ _ _ _) as [scan|]; [|done].
  destruct (negb _); [done|]. destruct (violations scan) as [|v l]; [by destruct (bool_decide _)|].
  destruct (call_fic_device_incident exchange (v :: l) x) as [[d|] x']; [|done]. cbn [fst snd].
  induction (v :: l) as [|u found IH]; [done|]. exact IH.
Qed.

(** * Witnesses *)

(** A link that loses nothing. *)
Fixpoint canonical (j : json) : json :=
  match j with
  | JInteger z => if 0 <=? z then JUnsigned z else JInteger z
  | JArray l => JArray (map canonical l)
  | JObject l => JObject (map (λ kv, (kv.1, canonical kv.2)) l)
  | j => j
  end.

Lemma arrives_canonical j : arrives j (canonical j).
Proof.
  revert j. fix IH 1. intros [|b|n|z| |s|items|members]; try constructor.
  - simpl. destruct (Z.leb_spec 0 z); constructor; lia.
  - induction items as [|i items IHl]; simpl; constructor; auto.
  - induction members as [|[k v] members IHl]; simpl; constructor; auto.
Qed.

Lemma member_canonical key members :
  member key (map (λ kv, (kv.1, canonical kv.2)) members) = canonical <$> member key members.
Proof. induction members as [|[k v] l IH]; simpl; [done|]. by destruct (String.eqb k key). Qed.

#[local] Instance whole_wire : Wire := {| arrive j := Some (canonical j) |}.
#[local] Instance whole_wire_laws : WireLaws.
Proof.
  split. intros members j [= <-]. eexists. split_and!; [reflexivity| |].
  - intros m Hm. right. change (m ∈ (λ kv, (kv.1, canonical kv.2)) <$> members) in Hm.
    apply list_elem_of_fmap in Hm as (kv & -> & Hkv). simpl. by apply list_elem_of_fmap_2.
  - intros key v _ Hv. exists (canonical v). rewrite member_canonical, Hv. split; [done|apply arrives_canonical].
Qed.

Definition permanent_stick : Tables := (updateDeviceControl with_stick 7 "permanent" true false "inherit").2.
Lemma permanent_stick_ok : db_ok permanent_stick.
Proof. apply (settle_ok (set_control "permanent" true false "inherit")); [done|apply with_stick_ok]. Qed.

Definition root_peer : PeerCredentials := mkPeer true 0.
Definition active_mode : IncidentResponseModeResult := mkMode ModeActive true "configured ACTIVE" "ACTIVE".

(** No policy is registered: the reaction is not proven, hence ISOLATE. *)
Definition bare_main (req : json) (x : Ctl * (World * unit)) : json * (Ctl * (World * unit)) :=
  main_daemon (H := PolicyValue.binary_json) all_wired (empty_registry (W := unit)) None active_mode "" root_peer "state" "targets" 7 booted req x.
Definition direct (request : json) (x : Ctl * (World * unit)) : (string + json) * (Ctl * (World * unit)) :=
  (inr (canonical (bare_main (canonical request) x).1), (bare_main (canonical request) x).2).

Definition stick_policy : EffectivePolicy := placement_policy (getDeviceById permanent_stick 7).

Lemma permanent_scan_exact_witness :
  ∃ found, collect_missing_permanent_devices_checked permanent_stick "later" None None = Val (mkScan true "" found) ∧
    ∃ v, v ∈ found.
Proof.
  destruct (permanent_scan_exact permanent_stick "later" permanent_stick_ok) as (found & Hf & _ & Hall). exists found.
  split; [exact Hf|].
  destruct (Hall (getDeviceById permanent_stick 7) stick_policy) as (v & _ & _ & Hv & _);
    [apply list_elem_of_In; vm_compute; tauto|vm_compute; reflexivity..|]. exists v. exact Hv.
Defined.

Definition stick_reported :=
  check_permanent_devices direct "now" "later" None None permanent_stick false (initial_ctl, (two_disk, tt)).

Lemma missing_device_is_never_lost_witness :
  stick_reported.1.1.2 = false ∧
  ∃ req, dealt_with (H := PolicyValue.binary_json) all_wired (empty_registry (W := unit)) None active_mode "" root_peer "state" "targets" 7 booted
    req initial_ctl two_disk tt.
Proof.
  split; [vm_compute; reflexivity|].
  destruct (missing_device_is_never_lost (H := PolicyValue.binary_json) all_wired (empty_registry (W := unit)) None active_mode ""
    root_peer "state" "targets" 7 unit booted direct "now" "later" permanent_stick (getDeviceById permanent_stick 7) stick_policy
    false initial_ctl two_disk tt permanent_stick_ok) as [Hyes|(_ & req & _ & _ & _ & Hdealt)];
    [vm_compute; congruence|apply list_elem_of_In; vm_compute; tauto|vm_compute; reflexivity|vm_compute; reflexivity
    |vm_compute; reflexivity|done|done|done|apply failing_alone|apply one_file_wf| | |exists req; exact Hdealt].
  - intros request x. apply ex_answered; reflexivity.
  - exfalso. vm_compute in Hyes. discriminate Hyes.
Defined.
