(* ===== verification/OwnershipGrammar.v ===== *)
(** The token grammars that ownership records are checked against: identities
    and keys of the PAM provider blocks, wrapper ids and paths of the sudoers
    wrappers, digests, GRUB keys, and the table of shared login.defs policies.

    Sources: fic/src/modules/identity_access/pam/PamProviderManagedBlock.h,
    modules/dac/sudo/SudoersDisabledWrapper.cpp, modules/oss/grub/GrubManagedBlock.h,
    modules/identity_access/shared/login_defs/IdentityLoginDefsPolicySpec.h,
    fic-common/fic-core/src/integrity/ContentDigest.cpp. *)

From S2P Require Import Prelude PolicyValue.
Open Scope string_scope.
Open Scope nat_scope.

(** * Characters *)

Definition chr (n : nat) : Ascii.ascii := Ascii.ascii_of_nat n.
Definition nul : Ascii.ascii := chr 0.
Definition lf : Ascii.ascii := chr 10.
Definition cr : Ascii.ascii := chr 13.

Fixpoint all_chars (P : Ascii.ascii → bool) (s : string) : bool :=
  match s with EmptyString => true | String c s' => P c && all_chars P s' end.

Definition one_of (l : list Ascii.ascii) (c : Ascii.ascii) : bool := existsb (Ascii.eqb c) l.

(** [find_first_of(l) == npos]. *)
Definition free_of (l : list Ascii.ascii) (s : string) : bool := all_chars (λ c, negb (one_of l c)) s.

Definition isdigit : Ascii.ascii → bool := char_in "0" "9".
Definition islower_ascii : Ascii.ascii → bool := char_in "a" "z".
(** [std::isalnum] in the C locale. *)
Definition isalnum (c : Ascii.ascii) : bool := isdigit c || char_in "A" "Z" c || islower_ascii c.

Definition is_empty (s : string) : bool := String.eqb s "".

(** [s.substr(n)] for [n <= s.size()]. *)
Definition drop_front (n : nat) (s : string) : string := String.substring n (String.length s - n) s.

(** [std::filesystem::path(s).is_absolute()] on POSIX, and [s.front() == '/']. *)
Definition is_absolute (s : string) : bool := String.prefix "/" s.

(** * Digests *)

Definition lower_hex (c : Ascii.ascii) : bool := isdigit c || char_in "a" "f" c.

Definition isCanonicalSha256Hex (digest : string) : bool :=
  (String.length digest =? 64) && all_chars lower_hex digest.

(** * Sudo wrappers *)

(** The loop over the groups: [digits] of the current group read so far. *)
Fixpoint wrapper_groups (s : string) (digits groups : nat) : option nat :=
  match s, digits with
  | EmptyString, 0 => Some groups
  | EmptyString, S _ => Some (S groups)
  | String c s', 0 => if isdigit c then wrapper_groups s' 1 groups else None
  | String c s', S _ =>
      if isdigit c then wrapper_groups s' (S digits) groups
      else if Ascii.eqb c "-" then wrapper_groups s' 0 (S groups) else None
  end.

Definition isCanonicalSudoWrapperId (wrapperId : string) : bool :=
  String.prefix "FIC-SUDO-" wrapperId &&
  bool_decide (wrapper_groups (drop_front 9 wrapperId) 0 0 = Some 5).

(** An absolute path is its own [lexically_normal()] when no component is a
    dot or a double dot and only the last one may be empty. *)
Definition special (component : string) : bool := String.eqb component "." || String.eqb component "..".
Fixpoint normal_from (component s : string) : bool :=
  match s with
  | EmptyString => negb (special component)
  | String c s' =>
      if Ascii.eqb c "/" then negb (is_empty component) && negb (special component) && normal_from "" s'
      else normal_from (component +:+ String c "") s'
  end.

Definition isCanonicalSudoProofPath (value : string) : bool :=
  match value with
  | String "/" rest => free_of [nul] value && normal_from "" rest
  | _ => false
  end.

(** * GRUB *)

Definition kGrubManagedKeys : list string := ["GRUB_CMDLINE_LINUX"; "GRUB_DISABLE_RECOVERY"; "GRUB_TIMEOUT"].

Definition isGrubManagedKey (key : string) : bool := existsb (String.eqb key) kGrubManagedKeys.

(** * PAM provider blocks *)

Definition isValidPamProviderIdentityToken (token : string) : bool :=
  negb (is_empty token) &&
  all_chars (λ c, islower_ascii c || isdigit c || Ascii.eqb c "_" || Ascii.eqb c "-") token.

Definition isValidPamProviderManagedKey (key : string) : bool :=
  negb (is_empty key) && all_chars (λ c, isalnum c || Ascii.eqb c "_" || Ascii.eqb c "-") key.

Definition pamProviderValueFreeOfControls (value : string) : bool := free_of [cr; lf] value && free_of [nul] value.

Fixpoint last_char (s : string) : option Ascii.ascii :=
  match s with
  | EmptyString => None
  | String c EmptyString => Some c
  | String _ s' => last_char s'
  end.

Definition isValidPamProviderEntryValue (value : string) : bool :=
  if is_empty value || negb (pamProviderValueFreeOfControls value) || negb (free_of ["#"%char] value) then false
  else match String.get 0 value, last_char value with
       | Some first, Some last => negb (isspace first) && negb (isspace last)
       | _, _ => false
       end.

(** The key and the value of a canonical entry body, [None] when the function
    returns false. *)
Definition parseCanonicalPamProviderEntryBody (body provider : string) : option (string * string) :=
  let delimiter := if String.eqb provider "pam_passwdqc" then "=" else " = " in
  separator ← String.index 0 delimiter body;
  if String.eqb provider "pam_passwdqc" && negb (all_chars (λ c, negb (isspace c)) body) then None
  else
    let key := String.substring 0 separator body in
    let value := drop_front (separator + String.length delimiter) body in
    if isValidPamProviderManagedKey key && isValidPamProviderEntryValue value then Some (key, value) else None.

Definition isValidPamProviderSuppressionId (token : string) : bool := isValidPamProviderIdentityToken token.

(** * Shared login.defs policies *)

Inductive ValueDomain := DBoolean | NonNegativeDays | DaysWithUnlimited | Uid.

Inductive Relation := RNone | PasswordMinimum | PasswordMaximum | UidMinimum | UidMaximum.

Record SharedLoginDefsPolicySpec := mkLoginDefsSpec {
  spec_policyName : string;
  spec_submodule : string;
  spec_key : string;
  spec_domain : ValueDomain;
  spec_relation : Relation
}.

Definition kSpecs : list SharedLoginDefsPolicySpec :=
  [mkLoginDefsSpec "user_create_home" "USER_CREATION" "CREATE_HOME" DBoolean RNone;
   mkLoginDefsSpec "user_create_private_group" "USER_CREATION" "USERGROUPS_ENAB" DBoolean RNone;
   mkLoginDefsSpec "password_min_age_days" "PASSWORD_AGING" "PASS_MIN_DAYS" NonNegativeDays PasswordMinimum;
   mkLoginDefsSpec "password_max_age_days" "PASSWORD_AGING" "PASS_MAX_DAYS" DaysWithUnlimited PasswordMaximum;
   mkLoginDefsSpec "password_expiration_warning_days" "PASSWORD_AGING" "PASS_WARN_AGE" DaysWithUnlimited RNone;
   mkLoginDefsSpec "regular_user_uid_min" "PASSWORD_AGING" "UID_MIN" Uid UidMinimum;
   mkLoginDefsSpec "regular_user_uid_max" "PASSWORD_AGING" "UID_MAX" Uid UidMaximum].

Definition findSharedLoginDefsPolicySpec (policyName : string) : option SharedLoginDefsPolicySpec :=
  List.find (λ spec, String.eqb policyName (spec_policyName spec)) kSpecs.

Definition LONG_MIN : Z := (- 2 ^ 63)%Z.
Definition LONG_MAX : Z := (2 ^ 63 - 1)%Z.

(** [std::strtol] in base 10: blanks, an optional sign, digits. *)
Definition strtol (s : string) : num_read :=
  match skip_space s with
  | String c s' =>
      if Ascii.eqb c "-"%char then ranged LONG_MIN LONG_MAX true (read_digits 0 0 s')
      else if Ascii.eqb c "+"%char then ranged LONG_MIN LONG_MAX false (read_digits 0 0 s')
      else ranged LONG_MIN LONG_MAX false (read_digits 0 0 (String c s'))
  | EmptyString => NumInvalid
  end.

(** [std::strtoull]: a minus sign negates modulo [2^64]. *)
Definition strtoull (s : string) : num_read :=
  match skip_space s with
  | String c s' =>
      if Ascii.eqb c "-"%char then
        match ranged 0 UINTMAX_MAX false (read_digits 0 0 s') with
        | NumOk z rest => NumOk ((- z) mod 2 ^ 64)%Z rest
        | r => r
        end
      else if Ascii.eqb c "+"%char then ranged 0 UINTMAX_MAX false (read_digits 0 0 s')
      else ranged 0 UINTMAX_MAX false (read_digits 0 0 (String c s'))
  | EmptyString => NumInvalid
  end.

Definition parseCanonicalSignedLong (value : string) (minimum maximum : Z) : bool :=
  if is_empty value then false
  else match strtol value with
       | NumOk z "" => (minimum <=? z)%Z && (z <=? maximum)%Z && String.eqb value (to_string z)
       | _ => false
       end.

Definition uid_max : Z := (2 ^ 32 - 1)%Z.

Definition parseCanonicalUid (value : string) : bool :=
  match value with
  | EmptyString => false
  | String c _ =>
      if Ascii.eqb c "-" || Ascii.eqb c "+" then false
      else match strtoull value with
           | NumOk z "" => (z <=? uid_max)%Z && String.eqb value (to_string z)
           | _ => false
           end
  end.

Definition validateSharedLoginDefsPolicyValue (policyName value : string) : bool :=
  match findSharedLoginDefsPolicySpec policyName with
  | None => false
  | Some spec =>
      match spec_domain spec with
      | DBoolean => String.eqb value "yes" || String.eqb value "no"
      | NonNegativeDays => parseCanonicalSignedLong value 0 INT_MAX
      | DaysWithUnlimited => parseCanonicalSignedLong value (-1) INT_MAX
      | Uid => parseCanonicalUid value
      end
  end.

(** * Checks *)

Example wrapper_id_shape :
  isCanonicalSudoWrapperId "FIC-SUDO-1-22-3-4-5" = true ∧ isCanonicalSudoWrapperId "FIC-SUDO-1-2-3-4" = false ∧
  isCanonicalSudoWrapperId "FIC-SUDO-1--3-4-5" = false ∧ isCanonicalSudoWrapperId "FIC-SUDO-1-2-3-4-5-" = true.
Proof. by vm_compute. Qed.

Example proof_path_shape :
  isCanonicalSudoProofPath "/etc/sudoers.d/x" = true ∧ isCanonicalSudoProofPath "/" = true ∧
  isCanonicalSudoProofPath "/etc//x" = false ∧ isCanonicalSudoProofPath "/etc/../x" = false ∧
  isCanonicalSudoProofPath "etc/x" = false.
Proof. by vm_compute. Qed.

Example entry_body_shape :
  parseCanonicalPamProviderEntryBody "deny = 5" "pam_faillock" = Some ("deny", "5") ∧
  parseCanonicalPamProviderEntryBody "min=8,8,8" "pam_passwdqc" = Some ("min", "8,8,8") ∧
  parseCanonicalPamProviderEntryBody "deny = 5 # x" "pam_faillock" = None ∧
  parseCanonicalPamProviderEntryBody "deny=5" "pam_faillock" = None.
Proof. by vm_compute. Qed.

Example login_defs_values :
  validateSharedLoginDefsPolicyValue "password_max_age_days" "-1" = true ∧
  validateSharedLoginDefsPolicyValue "password_min_age_days" "-1" = false ∧
  validateSharedLoginDefsPolicyValue "password_min_age_days" "007" = false ∧
  validateSharedLoginDefsPolicyValue "regular_user_uid_max" "4294967295" = true ∧
  validateSharedLoginDefsPolicyValue "regular_user_uid_max" "4294967296" = false ∧
  validateSharedLoginDefsPolicyValue "user_create_home" "yes" = true.
Proof. by vm_compute. Qed.
