(* ===== verification/MutationRecord.v ===== *)
(** The records of the mutation journal (fic/src/rollback/MutationRecord.h):
    what FIC changed on the system, for which policy, and what undoing it needs.

    Eighteen of the twenty payload kinds are here. The typed SSH and SSSD
    transactions ([UndoRemoveSshManagedPolicy], [SssdJournalOwnership]) are not:
    a journal that holds one of them is outside the model. *)

From S2P Require Import Prelude PolicyModel AtomicWriter.
Open Scope string_scope.
Open Scope nat_scope.

Definition MutationId : Type := Z.

Inductive MutationStatus := Prepared | Applied | RolledBack | RollbackFailed | Detached.
#[export] Instance MutationStatus_eq_dec : EqDecision MutationStatus.
Proof. solve_decision. Defined.

Inductive MutationBackend :=
  | Sysctl | Sudo | Ssh | Firewall | Grub | Sssd | Kerberos | Pam | UserCreation | IdentityLoginDefs
  | Scope | Desktop | DisplayManager.
#[export] Instance MutationBackend_eq_dec : EqDecision MutationBackend.
Proof. solve_decision. Defined.

(** * Payloads *)

(** A release of a sysctl setting in progress: the container before it, the
    container wanted, and the synced temporary file recorded before the rename. *)
Record SysctlReleaseIntent := mkRelease {
  rel_version : Z;
  rel_previousLegacy : bool;
  rel_before : option AtomicTargetState;
  rel_target : option AtomicTargetState;
  rel_prepared : option AtomicTargetState
}.
#[export] Instance SysctlReleaseIntent_eq_dec : EqDecision SysctlReleaseIntent.
Proof. solve_decision. Defined.

Record SysctlSettingState := mkSysctl {
  sys_version : Z;
  sys_containerCreated : bool;
  sys_containerIdentity : option AtomicTargetIdentity;
  sys_legacyContainerOrigin : Z;
  sys_pending : bool;
  sys_hadApplied : bool;
  sys_previousLegacy : bool;
  sys_attempted : bool;
  sys_targetValue : string;
  sys_release : option SysctlReleaseIntent
}.
#[export] Instance SysctlSettingState_eq_dec : EqDecision SysctlSettingState.
Proof. solve_decision. Defined.

Record UndoRemoveManagedSetting := mkSetting {
  set_key : string;
  set_appliedValue : string;
  set_sysctl : option SysctlSettingState
}.
#[export] Instance UndoRemoveManagedSetting_eq_dec : EqDecision UndoRemoveManagedSetting.
Proof. solve_decision. Defined.

Record UndoReleaseSudoGlobalDefault := mkSudoGlobal {
  sg_key : string;
  sg_appliedLine : string;
  sg_previousLine : string;
  sg_containerId : string;
  sg_addedSeparator : bool;
  sg_separatorPrefixDigest : string
}.
#[export] Instance UndoReleaseSudoGlobalDefault_eq_dec : EqDecision UndoReleaseSudoGlobalDefault.
Proof. solve_decision. Defined.

Record SudoScopedDefaultsWrapperProof := mkScopedProof {
  sp_wrapperId : string;
  sp_canonicalPath : string;
  sp_payloadDigest : string
}.
#[export] Instance SudoScopedDefaultsWrapperProof_eq_dec : EqDecision SudoScopedDefaultsWrapperProof.
Proof. solve_decision. Defined.

Record UndoReleaseSudoScopedDefaults := mkSudoScoped {
  ss_policyName : string;
  ss_previousProofs : list SudoScopedDefaultsWrapperProof;
  ss_targetProofs : list SudoScopedDefaultsWrapperProof
}.
#[export] Instance UndoReleaseSudoScopedDefaults_eq_dec : EqDecision UndoReleaseSudoScopedDefaults.
Proof. solve_decision. Defined.

Record AuthenticationProof := mkAuthProof {
  ap_wrapperId : string;
  ap_canonicalPath : string;
  ap_originalDigest : string;
  ap_replacementDigest : string
}.
#[export] Instance AuthenticationProof_eq_dec : EqDecision AuthenticationProof.
Proof. solve_decision. Defined.

Record UndoReleaseSudoAuthentication := mkSudoAuth {
  sa_previousProofs : list AuthenticationProof;
  sa_targetProofs : list AuthenticationProof
}.
#[export] Instance UndoReleaseSudoAuthentication_eq_dec : EqDecision UndoReleaseSudoAuthentication.
Proof. solve_decision. Defined.

Inductive UserCreationConfigKind := UseraddDefaults | LoginDefs | Adduser.
#[export] Instance UserCreationConfigKind_eq_dec : EqDecision UserCreationConfigKind.
Proof. solve_decision. Defined.

Record UserCreationManagedAssignment := mkAssignment {
  as_key : string;
  as_appliedLine : string
}.
#[export] Instance UserCreationManagedAssignment_eq_dec : EqDecision UserCreationManagedAssignment.
Proof. solve_decision. Defined.

Record UndoRemoveUserCreationManagedPolicy := mkUserCreation {
  uc_policyName : string;
  uc_configKind : UserCreationConfigKind;
  uc_configPath : string;
  uc_appliedAssignments : list UserCreationManagedAssignment;
  uc_previousAppliedAssignments : list UserCreationManagedAssignment
}.
#[export] Instance UndoRemoveUserCreationManagedPolicy_eq_dec : EqDecision UndoRemoveUserCreationManagedPolicy.
Proof. solve_decision. Defined.

Record UndoRemoveIdentityLoginDefsManagedPolicy := mkLoginDefs {
  ld_policyName : string;
  ld_configPath : string;
  ld_key : string;
  ld_appliedLine : string;
  ld_previousAppliedLine : string
}.
#[export] Instance UndoRemoveIdentityLoginDefsManagedPolicy_eq_dec : EqDecision UndoRemoveIdentityLoginDefsManagedPolicy.
Proof. solve_decision. Defined.

Record UndoRemoveFirewallPolicy := mkFirewall { fw_policyName : string }.
#[export] Instance UndoRemoveFirewallPolicy_eq_dec : EqDecision UndoRemoveFirewallPolicy.
Proof. solve_decision. Defined.

Record UndoRemoveGrubManagedSetting := mkGrub { gr_key : string; gr_appliedValue : string }.
#[export] Instance UndoRemoveGrubManagedSetting_eq_dec : EqDecision UndoRemoveGrubManagedSetting.
Proof. solve_decision. Defined.

Record UndoRemoveSssdManagedSetting := mkSssd { sd_section : string; sd_option : string; sd_appliedValue : string }.
#[export] Instance UndoRemoveSssdManagedSetting_eq_dec : EqDecision UndoRemoveSssdManagedSetting.
Proof. solve_decision. Defined.

Inductive KerberosBeforeKind := KMissing | KPresent.
#[export] Instance KerberosBeforeKind_eq_dec : EqDecision KerberosBeforeKind.
Proof. solve_decision. Defined.

Record UndoRestoreKerberosScalar := mkKerberos {
  kb_section : string;
  kb_relation : string;
  kb_appliedValue : string;
  kb_beforeKind : KerberosBeforeKind;
  kb_beforeRawLine : string;
  kb_sectionExistedBefore : bool
}.
#[export] Instance UndoRestoreKerberosScalar_eq_dec : EqDecision UndoRestoreKerberosScalar.
Proof. solve_decision. Defined.

Inductive PamTopologyKind := PamAuthUpdate | AltTcbManaged.
#[export] Instance PamTopologyKind_eq_dec : EqDecision PamTopologyKind.
Proof. solve_decision. Defined.

Record UndoDisablePamCapability := mkCapability {
  pc_capability : string;
  pc_topology : PamTopologyKind;
  pc_activationIdentifiers : list string;
  pc_hadAppliedProvenance : bool;
  pc_previousStrategy : option string;
  pc_targetStrategy : option string;
  pc_previousError : string
}.
#[export] Instance UndoDisablePamCapability_eq_dec : EqDecision UndoDisablePamCapability.
Proof. solve_decision. Defined.

Inductive PamProviderBlockPlacementContract := Beginning | End_.
#[export] Instance PamProviderBlockPlacementContract_eq_dec : EqDecision PamProviderBlockPlacementContract.
Proof. solve_decision. Defined.

Record UndoOwnPamProviderContainer := mkContainer { ct_providerName : string; ct_configPath : string }.
#[export] Instance UndoOwnPamProviderContainer_eq_dec : EqDecision UndoOwnPamProviderContainer.
Proof. solve_decision. Defined.

Record UndoRemovePamProviderManagedEntry := mkEntry {
  pe_policyName : string;
  pe_providerName : string;
  pe_configPath : string;
  pe_managedKey : string;
  pe_appliedBody : string;
  pe_previousAppliedBody : string;
  pe_placement : PamProviderBlockPlacementContract
}.
#[export] Instance UndoRemovePamProviderManagedEntry_eq_dec : EqDecision UndoRemovePamProviderManagedEntry.
Proof. solve_decision. Defined.

Record UndoRemovePamProviderManagedFlag := mkFlag {
  pf_policyName : string;
  pf_providerName : string;
  pf_configPath : string;
  pf_managedKey : string;
  pf_appliedEnabled : bool;
  pf_previousAppliedEnabled : option bool;
  pf_placement : PamProviderBlockPlacementContract;
  pf_suppressionIds : list string;
  pf_previousSuppressionIds : list string
}.
#[export] Instance UndoRemovePamProviderManagedFlag_eq_dec : EqDecision UndoRemovePamProviderManagedFlag.
Proof. solve_decision. Defined.

Record ScopeTransitionCheckpoint := mkScope {
  sc_committedScope : list string;
  sc_targetScope : list string;
  sc_phase : string
}.
#[export] Instance ScopeTransitionCheckpoint_eq_dec : EqDecision ScopeTransitionCheckpoint.
Proof. solve_decision. Defined.

Record UndoRestoreDesktopScalar := mkScalar {
  ds_desktop : string;
  ds_setting : string;
  ds_originalLine : option string;
  ds_appliedLine : string;
  ds_previousAppliedLine : option string;
  ds_owners : list PolicyRef;
  ds_hadApplied : bool;
  ds_phase : string;
  ds_originalLockLine : option string;
  ds_compiledBeforeDigest : string;
  ds_compiledTargetDigest : string
}.
#[export] Instance UndoRestoreDesktopScalar_eq_dec : EqDecision UndoRestoreDesktopScalar.
Proof. solve_decision. Defined.

Record UndoOwnDesktopArtifact := mkArtifact {
  da_kind : string;
  da_phase : string;
  da_hadApplied : bool;
  da_device : Z;
  da_inode : Z
}.
#[export] Instance UndoOwnDesktopArtifact_eq_dec : EqDecision UndoOwnDesktopArtifact.
Proof. solve_decision. Defined.

Record UndoRemoveDisplayManagerBlock := mkDm {
  dm_manager : string;
  dm_route : Z;
  dm_seats : list string;
  dm_createdFile : bool;
  dm_creationDevice : Z;
  dm_creationInode : Z;
  dm_separator : string;
  dm_hadApplied : bool;
  dm_phase : string
}.
#[export] Instance UndoRemoveDisplayManagerBlock_eq_dec : EqDecision UndoRemoveDisplayManagerBlock.
Proof. solve_decision. Defined.

Inductive UndoPayload :=
  | PSetting (p : UndoRemoveManagedSetting)
  | PSudoGlobal (p : UndoReleaseSudoGlobalDefault)
  | PSudoScoped (p : UndoReleaseSudoScopedDefaults)
  | PSudoAuth (p : UndoReleaseSudoAuthentication)
  | PUserCreation (p : UndoRemoveUserCreationManagedPolicy)
  | PFirewall (p : UndoRemoveFirewallPolicy)
  | PGrub (p : UndoRemoveGrubManagedSetting)
  | PSssd (p : UndoRemoveSssdManagedSetting)
  | PKerberos (p : UndoRestoreKerberosScalar)
  | PCapability (p : UndoDisablePamCapability)
  | PEntry (p : UndoRemovePamProviderManagedEntry)
  | PFlag (p : UndoRemovePamProviderManagedFlag)
  | PContainer (p : UndoOwnPamProviderContainer)
  | PLoginDefs (p : UndoRemoveIdentityLoginDefsManagedPolicy)
  | PScope (p : ScopeTransitionCheckpoint)
  | PScalar (p : UndoRestoreDesktopScalar)
  | PArtifact (p : UndoOwnDesktopArtifact)
  | PDm (p : UndoRemoveDisplayManagerBlock).
#[export] Instance UndoPayload_eq_dec : EqDecision UndoPayload.
Proof. solve_decision. Defined.

Record UndoAction := mkUndo { backend : MutationBackend; payload : UndoPayload }.
#[export] Instance UndoAction_eq_dec : EqDecision UndoAction.
Proof. solve_decision. Defined.

(** * Records *)

Record MutationRecord := mkRecord {
  mid : MutationId;
  policy : PolicyRef;
  resource : string;
  undo : UndoAction;
  status : MutationStatus;
  createdAtEpoch : Z;
  updatedAtEpoch : Z;
  merror : string
}.
#[export] Instance MutationRecord_eq_dec : EqDecision MutationRecord.
Proof. solve_decision. Defined.

Definition isActive (r : MutationRecord) : bool :=
  match status r with Prepared | Applied | RollbackFailed => true | RolledBack | Detached => false end.

(** [policy == policy && backend == backend && resource == resource]: one
    logical mutation. *)
Definition same_identity (a b : MutationRecord) : bool :=
  bool_decide (policy a = policy b) && bool_decide (backend (undo a) = backend (undo b)) &&
  String.eqb (resource a) (resource b).

Definition with_undo (u : UndoAction) (r : MutationRecord) : MutationRecord :=
  mkRecord (mid r) (policy r) (resource r) u (status r) (createdAtEpoch r) (updatedAtEpoch r) (merror r).
Definition with_status (s : MutationStatus) (r : MutationRecord) : MutationRecord :=
  mkRecord (mid r) (policy r) (resource r) (undo r) s (createdAtEpoch r) (updatedAtEpoch r) (merror r).
Definition with_error (e : string) (r : MutationRecord) : MutationRecord :=
  mkRecord (mid r) (policy r) (resource r) (undo r) (status r) (createdAtEpoch r) (updatedAtEpoch r) e.
Definition with_updated (now : Z) (r : MutationRecord) : MutationRecord :=
  mkRecord (mid r) (policy r) (resource r) (undo r) (status r) (createdAtEpoch r) now (merror r).
Definition with_payload (p : UndoPayload) (r : MutationRecord) : MutationRecord :=
  with_undo (mkUndo (backend (undo r)) p) r.

(** * Texts *)

Definition mutationStatusToString (s : MutationStatus) : string :=
  match s with
  | Prepared => "prepared" | Applied => "applied" | RolledBack => "rolled_back"
  | RollbackFailed => "rollback_failed" | Detached => "detached"
  end.

Definition mutationStatusFromString (value : string) : option MutationStatus :=
  if String.eqb value "prepared" then Some Prepared
  else if String.eqb value "applied" then Some Applied
  else if String.eqb value "rolled_back" then Some RolledBack
  else if String.eqb value "rollback_failed" then Some RollbackFailed
  else if String.eqb value "detached" then Some Detached
  else None.

Definition mutationBackendToString (b : MutationBackend) : string :=
  match b with
  | Sysctl => "sysctl" | Sudo => "sudo" | Ssh => "ssh" | Firewall => "firewall" | Grub => "grub" | Sssd => "sssd"
  | Kerberos => "kerberos" | Pam => "pam" | UserCreation => "user_creation"
  | IdentityLoginDefs => "identity_login_defs" | Scope => "scope" | Desktop => "desktop"
  | DisplayManager => "display_manager"
  end.

Definition mutationBackendFromString (value : string) : option MutationBackend :=
  if String.eqb value "sysctl" then Some Sysctl
  else if String.eqb value "sudo" then Some Sudo
  else if String.eqb value "ssh" then Some Ssh
  else if String.eqb value "firewall" then Some Firewall
  else if String.eqb value "grub" then Some Grub
  else if String.eqb value "sssd" then Some Sssd
  else if String.eqb value "kerberos" then Some Kerberos
  else if String.eqb value "pam" then Some Pam
  else if String.eqb value "user_creation" then Some UserCreation
  else if String.eqb value "identity_login_defs" then Some IdentityLoginDefs
  else if String.eqb value "scope" then Some Scope
  else if String.eqb value "desktop" then Some Desktop
  else if String.eqb value "display_manager" then Some DisplayManager
  else None.

Lemma status_text_roundtrip s : mutationStatusFromString (mutationStatusToString s) = Some s.
Proof. by destruct s. Qed.
Lemma backend_text_roundtrip b : mutationBackendFromString (mutationBackendToString b) = Some b.
Proof. by destruct b. Qed.

Definition undoActionTypeName (action : UndoAction) : string :=
  match payload action with
  | PDm _ => "remove_display_manager_block"
  | PArtifact _ => "own_desktop_artifact"
  | PScalar _ => "restore_desktop_scalar"
  | PScope _ => "scope_transition_checkpoint"
  | PSudoAuth _ => "release_sudo_authentication"
  | PSudoGlobal _ => "release_sudo_global_default"
  | PSetting _ => "remove_managed_setting"
  | PSudoScoped _ => "release_sudo_scoped_defaults"
  | PUserCreation _ => "remove_user_creation_managed_policy"
  | PLoginDefs _ => "remove_identity_login_defs_managed_policy"
  | PFirewall _ => "remove_firewall_policy"
  | PGrub _ => "remove_grub_managed_setting"
  | PSssd _ => "remove_sssd_managed_setting"
  | PKerberos _ => "restore_kerberos_scalar"
  | PCapability _ => "disable_pam_capability"
  | PEntry _ => "remove_pam_provider_managed_entry"
  | PFlag _ => "remove_pam_provider_managed_flag"
  | PContainer _ => "own_pam_provider_container"
  end.

(** * Authority over suppression wrappers *)

Definition preparedPamFlagSuppressionAuthority (flag : UndoRemovePamProviderManagedFlag) : list string :=
  (pf_suppressionIds flag ++ pf_previousSuppressionIds flag)%list.

Definition activePamFlagSuppressionAuthority (r : MutationRecord) (flag : UndoRemovePamProviderManagedFlag) : list string :=
  if negb (isActive r) then []
  else if bool_decide (status r = Prepared) then preparedPamFlagSuppressionAuthority flag
  else pf_suppressionIds flag.
