(* ===== verification/MutationValid.v ===== *)
(** The checks of the mutation journal on payloads and records
    (fic/src/rollback/MutationJournal.cpp). The same functions guard what is
    written and what is read. Diagnostic texts are left out: a check is the
    value the function returns. *)

From S2P Require Import Prelude PolicyValue PolicyModel AtomicWriter OwnershipGrammar MutationRecord.
Open Scope string_scope.
Open Scope nat_scope.

Definition ref_is (module submodule name : string) (r : PolicyRef) : bool :=
  String.eqb (moduleName r) module && String.eqb (submoduleName r) submodule && String.eqb (policyName r) name.

(** [std::set::insert(..).second] over a range: no element occurs twice. *)
Fixpoint all_distinct (seen l : list string) : bool :=
  match l with [] => true | x :: l' => negb (bool_decide (x ∈ seen)) && all_distinct (x :: seen) l' end.

(** [std::is_sorted] and [std::adjacent_find(..) == end()]. *)
Fixpoint is_sorted {A} `{Cmp A} (l : list A) : bool :=
  match l with
  | x :: ((y :: _) as l') => bool_decide (cmp y x ≠ Lt) && is_sorted l'
  | _ => true
  end.
Fixpoint no_adjacent_equal {A} `{Cmp A} (l : list A) : bool :=
  match l with
  | x :: ((y :: _) as l') => bool_decide (cmp x y ≠ Eq) && no_adjacent_equal l'
  | _ => true
  end.

(** * SUDO *)

Definition separator_proven (payload : UndoReleaseSudoGlobalDefault) : bool :=
  if sg_addedSeparator payload
  then (String.length (sg_separatorPrefixDigest payload) =? 64) && all_chars lower_hex (sg_separatorPrefixDigest payload)
  else is_empty (sg_separatorPrefixDigest payload).

Definition valid_global_line (key line : string) : bool :=
  if String.eqb key "exempt_group" then String.eqb line "Defaults !exempt_group"
  else if String.eqb key "env_reset" then
    String.eqb line ("Defaults " +:+ key) || String.eqb line ("Defaults !" +:+ key)
  else
    let prefix := "Defaults " +:+ key +:+ "=" in
    if negb (String.prefix prefix line) || (String.length line =? String.length prefix) then false
    else
      let value := drop_front (String.length prefix) line in
      if String.eqb key "passwd_tries" || String.eqb key "timestamp_timeout" then all_chars isdigit value
      else if negb (String.eqb key "secure_path") then false
      else free_of [cr; lf; ","; "="; "#"; "\"]%char value && free_of [nul] value.

Definition validateSudoGlobalDefaultPayload (payload : UndoReleaseSudoGlobalDefault) : bool :=
  separator_proven payload && isCanonicalSudoWrapperId (sg_containerId payload) &&
  valid_global_line (sg_key payload) (sg_appliedLine payload) &&
  (is_empty (sg_previousLine payload) || valid_global_line (sg_key payload) (sg_previousLine payload)).

Definition valid_auth_proof (proof : AuthenticationProof) : bool :=
  isCanonicalSudoWrapperId (ap_wrapperId proof) && isCanonicalSudoProofPath (ap_canonicalPath proof) &&
  isCanonicalSha256Hex (ap_originalDigest proof) && isCanonicalSha256Hex (ap_replacementDigest proof).

Definition valid_auth_proofs (proofs : list AuthenticationProof) : bool :=
  forallb valid_auth_proof proofs && all_distinct [] (ap_wrapperId <$> proofs).

Definition validateSudoAuthenticationPayload (payload : UndoReleaseSudoAuthentication) : bool :=
  negb (bool_decide (sa_targetProofs payload = [])) && valid_auth_proofs (sa_previousProofs payload) &&
  valid_auth_proofs (sa_targetProofs payload) &&
  forallb (λ proof, bool_decide (proof ∈ sa_targetProofs payload)) (sa_previousProofs payload).

Definition kAuthenticationPolicy : string := "sudo_require_authentication".
Definition kAuthenticationResource : string := "sudoers/authentication".
Definition kScopedDefaultsPolicyName : string := "sudo_disable_scoped_defaults".
Definition kScopedDefaultsResource : string := "sudo/scoped_defaults/wrappers".
Definition kSudoModuleName : string := "DAC".
Definition kSudoSubmoduleName : string := "SudoEdit".

(** The policy of each global sudoers key. *)
Definition sudo_route (key : string) : option string :=
  if String.eqb key "env_reset" then Some "sudo_env_reset"
  else if String.eqb key "passwd_tries" then Some "sudo_passwd_tries"
  else if String.eqb key "secure_path" then Some "sudo_securepath"
  else if String.eqb key "timestamp_timeout" then Some "sudo_timeout"
  else if String.eqb key "exempt_group" then Some "sudo_exempt_group_disable"
  else None.

Definition validateSudoGlobalRecord (record : MutationRecord) : bool :=
  match payload (undo record) with
  | PSudoAuth auth =>
      bool_decide (backend (undo record) = Sudo) && ref_is "DAC" "SudoEdit" kAuthenticationPolicy (policy record) &&
      String.eqb (resource record) kAuthenticationResource && validateSudoAuthenticationPayload auth
  | PSudoGlobal global =>
      match sudo_route (sg_key global) with
      | Some route =>
          bool_decide (backend (undo record) = Sudo) && ref_is "DAC" "SudoEdit" route (policy record) &&
          String.eqb (resource record) (sg_key global) && validateSudoGlobalDefaultPayload global
      | None => false
      end
  | _ => true
  end.

Definition validateSudoScopedDefaultsProof (proof : SudoScopedDefaultsWrapperProof) : bool :=
  negb (is_empty (sp_wrapperId proof)) && isCanonicalSudoWrapperId (sp_wrapperId proof) &&
  isCanonicalSudoProofPath (sp_canonicalPath proof) && isCanonicalSha256Hex (sp_payloadDigest proof).

Definition validateProofSetUnique (proofs : list SudoScopedDefaultsWrapperProof) : bool :=
  forallb validateSudoScopedDefaultsProof proofs && all_distinct [] (sp_wrapperId <$> proofs).

(** Every wrapper owned before is owned, with the same path and digest, after. *)
Definition scoped_target_of (targets : list SudoScopedDefaultsWrapperProof) (wrapperId : string)
    : option SudoScopedDefaultsWrapperProof :=
  List.find (λ proof, String.eqb (sp_wrapperId proof) wrapperId) targets.

Definition still_owned (targets : list SudoScopedDefaultsWrapperProof) (proof : SudoScopedDefaultsWrapperProof) : bool :=
  match scoped_target_of targets (sp_wrapperId proof) with
  | Some found =>
      String.eqb (sp_canonicalPath found) (sp_canonicalPath proof) &&
      String.eqb (sp_payloadDigest found) (sp_payloadDigest proof)
  | None => false
  end.

Definition validateSudoScopedDefaultsUndoPayload (payload : UndoReleaseSudoScopedDefaults) : bool :=
  String.eqb (ss_policyName payload) kScopedDefaultsPolicyName &&
  validateProofSetUnique (ss_previousProofs payload) && validateProofSetUnique (ss_targetProofs payload) &&
  forallb (still_owned (ss_targetProofs payload)) (ss_previousProofs payload) &&
  negb (bool_decide (ss_previousProofs payload = []) && bool_decide (ss_targetProofs payload = [])).

Definition sameSudoScopedDefaultsTransition (left right : UndoReleaseSudoScopedDefaults) : bool :=
  String.eqb (ss_policyName left) (ss_policyName right) &&
  bool_decide (ss_previousProofs left = ss_previousProofs right) &&
  bool_decide (ss_targetProofs left = ss_targetProofs right).

(** * Graphical scope, desktop and display managers *)

Definition known_scopes : list string := ["FLY"; "GNOME"; "KDE"; "XFCE"; "LXQT"; "SDDM"; "GDM"; "LIGHTDM"].

Definition valid_scope (known scope : list string) : bool :=
  is_sorted scope && no_adjacent_equal scope && forallb (λ name, bool_decide (name ∈ known)) scope.

Definition validScopeCheckpoint (checkpoint : ScopeTransitionCheckpoint) : bool :=
  valid_scope known_scopes (sc_committedScope checkpoint) && valid_scope known_scopes (sc_targetScope checkpoint) &&
  bool_decide (sc_phase checkpoint ∈ ["pending"; "failed"; "partial"; "committed"]) &&
  negb (String.eqb (sc_phase checkpoint) "committed" && bool_decide (sc_targetScope checkpoint = [])).

Definition validScopeRecord (record : MutationRecord) : bool :=
  let dm := String.eqb (resource record) "scope/dm" in
  let expected := mkRef "OSS" (if dm then "DisplayManager" else "DesktopEnvironment")
    (if dm then "controlled_display_managers" else "controlled_desktop_environments") in
  let known := if dm then ["SDDM"; "GDM"; "LIGHTDM"] else ["FLY"; "GNOME"; "KDE"; "XFCE"; "LXQT"] in
  match payload (undo record) with
  | PScope checkpoint =>
      bool_decide (backend (undo record) = Scope) && bool_decide (policy record = expected) &&
      String.eqb (resource record) (if dm then "scope/dm" else "scope/de") && validScopeCheckpoint checkpoint &&
      forallb (λ x, bool_decide (x ∈ known)) (sc_committedScope checkpoint) &&
      forallb (λ x, bool_decide (x ∈ known)) (sc_targetScope checkpoint) &&
      negb (bool_decide (status record = Applied) && negb (String.eqb (sc_phase checkpoint) "committed"))
  | _ => false
  end.

Definition valid_seat (seat : string) : bool :=
  (String.eqb seat "SeatDefaults" || String.prefix "Seat:" seat) && (String.length seat <=? 128) &&
  free_of [cr; lf; "["; "]"; nul]%char seat && all_chars (λ c, char_in " " "~" c) seat.

(** The tests on the seats of LightDM. The binary search for the wildcard seat
    is membership, the list being sorted as the same condition demands. *)
Definition valid_seats (manager : string) (seats : list string) : bool :=
  if String.eqb manager "LIGHTDM" then
    negb (bool_decide (seats = [])) && (length seats <=? 128) && bool_decide ("Seat:*" ∈ seats) &&
    is_sorted seats && no_adjacent_equal seats
  else bool_decide (seats = []).

Definition newline_string : string := String lf "".

Definition validDmRecord (record : MutationRecord) : bool :=
  match payload (undo record) with
  | PDm p =>
      bool_decide (backend (undo record) = DisplayManager) &&
      bool_decide (policy record = mkRef "OSS" "DisplayManager" "disable_autologin") &&
      bool_decide (dm_manager p ∈ ["SDDM"; "GDM"; "LIGHTDM"]) &&
      String.eqb (resource record) ("DM/" +:+ dm_manager p +:+ "/autologin") && bool_decide (dm_route p = 0%Z) &&
      bool_decide (dm_phase p ∈ ["ensure"; "release"]) &&
      (is_empty (dm_separator p) || String.eqb (dm_separator p) newline_string) &&
      negb (dm_createdFile p && negb (is_empty (dm_separator p))) &&
      (dm_createdFile p || bool_decide (dm_creationDevice p = 0%Z) && bool_decide (dm_creationInode p = 0%Z)) &&
      negb (bool_decide (status record = Applied) && dm_createdFile p && bool_decide (dm_creationInode p = 0%Z)) &&
      valid_seats (dm_manager p) (dm_seats p) &&
      negb (bool_decide (status record = Applied) && (negb (dm_hadApplied p) || negb (String.eqb (dm_phase p) "ensure"))) &&
      forallb valid_seat (dm_seats p)
  | _ => false
  end.

Definition desktop_policy : PolicyRef := mkRef "OSS" "DesktopEnvironment" "screenlock_timeout".

Definition artifact_kinds : list string :=
  ["dconf-directory"; "database-directory"; "profile-directory"; "source-directory"; "locks-directory"; "keyfile";
   "lockfile"; "profile"; "profile-entry"; "session-group"; "screensaver-group"; "lockdown-group"; "cache"].

Definition valid_artifact (record : MutationRecord) (artifact : UndoOwnDesktopArtifact) : bool :=
  let directory := match String.index 0 "-directory" (da_kind artifact) with Some _ => true | None => false end in
  bool_decide (backend (undo record) = Desktop) && bool_decide (policy record = desktop_policy) &&
  bool_decide (da_kind artifact ∈ artifact_kinds) &&
  String.eqb (resource record) ("GNOME/artifact/" +:+ da_kind artifact) &&
  bool_decide (da_phase artifact ∈ ["ensure"; "release"]) &&
  (directory || bool_decide (da_device artifact = 0%Z) && bool_decide (da_inode artifact = 0%Z)) &&
  negb (directory && da_hadApplied artifact && bool_decide (da_inode artifact = 0%Z)) &&
  negb (bool_decide (status record = Applied) &&
        (negb (da_hadApplied artifact) || negb (String.eqb (da_phase artifact) "ensure"))).

Definition gnomeBooleans : list string :=
  ["/org/gnome/desktop/screensaver/lock-enabled"; "/org/gnome/desktop/lockdown/disable-lock-screen"].
Definition gnomeIntegers : list string :=
  ["/org/gnome/desktop/session/idle-delay"; "/org/gnome/desktop/screensaver/lock-delay"].

(** [s.substr(s.find_last_of('/') + 1)]. *)
Fixpoint after_last_slash (acc s : string) : string :=
  match s with
  | EmptyString => acc
  | String c s' => if Ascii.eqb c "/" then after_last_slash "" s' else after_last_slash (acc +:+ String c "") s'
  end.

(** [pop_back] of one character. *)
Fixpoint drop_last_if (c : Ascii.ascii) (s : string) : string :=
  match s with
  | EmptyString => ""
  | String x EmptyString => if Ascii.eqb x c then "" else s
  | String x s' => String x (drop_last_if c s')
  end.

(** [rawLine]: the line without its terminator, [None] when refused. *)
Definition rawLine (line : string) : option string :=
  if (4096 <? String.length line) || negb (free_of [nul] line) then None
  else
    let raw := drop_last_if cr (drop_last_if lf line) in
    if free_of [cr; lf] raw then Some raw else None.

Definition blank : list Ascii.ascii := [" "%char; chr 9].
Fixpoint skip_blank (s : string) : string :=
  match s with String c s' => if one_of blank c then skip_blank s' else s | EmptyString => "" end.
Fixpoint trim_end_blank (s : string) : string :=
  match s with
  | EmptyString => ""
  | String c s' =>
      let rest := trim_end_blank s' in
      if is_empty rest && one_of blank c then "" else String c rest
  end.

(** The left side of the assignment, blanks around it removed, is the key. *)
Definition valid_original_line (key line : string) : bool :=
  match rawLine line with
  | None => false
  | Some raw =>
      match String.index 0 "=" raw with
      | None => false
      | Some equals =>
          let left := trim_end_blank (skip_blank (String.substring 0 equals raw)) in
          negb (is_empty left) && String.eqb left key
      end
  end.

(** [std::stoull] of at most ten digits, then the range of the setting. *)
Definition valid_desktop_number (fly : bool) (value : string) : bool :=
  if is_empty value || ((if fly then 4 else 10) <? String.length value) || negb (all_chars isdigit value) then false
  else match strtoull value with
       | NumOk number "" =>
           String.eqb value (to_string number) &&
           (if fly then (60 <=? number)%Z && (number <=? 1200)%Z && bool_decide (number mod 60 = 0)%Z
            else (number <=? 4294967295)%Z)
       | _ => false
       end.

Definition valid_applied_line (fly gnome : bool) (setting key line : string) : bool :=
  match rawLine line with
  | None => false
  | Some raw =>
      let prefix := key +:+ "=" in
      if negb (String.eqb line (raw +:+ newline_string)) || negb (String.prefix prefix raw) then false
      else
        let value := drop_front (String.length prefix) raw in
        if bool_decide (setting ∈ gnomeBooleans) then String.eqb value "true" || String.eqb value "false"
        else if gnome then
          if String.prefix "uint32 " value then valid_desktop_number fly (drop_front 7 value) else false
        else valid_desktop_number fly value
  end.

Definition valid_desktop_owner (owner : PolicyRef) : bool :=
  String.eqb (moduleName owner) "OSS" && String.eqb (submoduleName owner) "DesktopEnvironment" &&
  (String.eqb (policyName owner) "screenlock_timeout" ||
   String.eqb (policyName owner) "disable_kde_lock_screen_media_controls").

Definition valid_scalar (record : MutationRecord) (scalar : UndoRestoreDesktopScalar) : bool :=
  let fly := String.eqb (ds_desktop scalar) "FLY" && String.eqb (ds_setting scalar) "themerc/Variables/ScreenSaverDelay" in
  let gnome := String.eqb (ds_desktop scalar) "GNOME" &&
    (bool_decide (ds_setting scalar ∈ gnomeBooleans) || bool_decide (ds_setting scalar ∈ gnomeIntegers)) in
  let key := if fly then "ScreenSaverDelay" else after_last_slash "" (ds_setting scalar) in
  let applied_line := valid_applied_line fly gnome (ds_setting scalar) key in
  let validLock :=
    match ds_originalLockLine scalar with
    | None => true
    | Some line => negb fly && bool_decide (rawLine line = Some (ds_setting scalar))
    end in
  bool_decide (backend (undo record) = Desktop) && bool_decide (policy record = desktop_policy) && (fly || gnome) &&
  String.eqb (resource record) (if fly then "FLY/" +:+ ds_setting scalar else "GNOME" +:+ ds_setting scalar) &&
  validLock &&
  (negb fly || is_empty (ds_compiledBeforeDigest scalar) && is_empty (ds_compiledTargetDigest scalar)) &&
  (negb gnome || isCanonicalSha256Hex (ds_compiledBeforeDigest scalar) && isCanonicalSha256Hex (ds_compiledTargetDigest scalar)) &&
  bool_decide (ds_phase scalar ∈ ["ensure"; "release"]) &&
  negb (String.eqb (ds_phase scalar) "ensure" && bool_decide (ds_owners scalar = [])) &&
  negb (String.eqb (ds_phase scalar) "release" && negb (bool_decide (ds_owners scalar = []))) &&
  is_sorted (ds_owners scalar) && no_adjacent_equal (ds_owners scalar) && forallb valid_desktop_owner (ds_owners scalar) &&
  applied_line (ds_appliedLine scalar) &&
  match ds_originalLine scalar with Some line => valid_original_line key line | None => true end &&
  match ds_previousAppliedLine scalar with Some line => applied_line line | None => true end &&
  negb (bool_decide (status record = Applied) &&
        (negb (ds_hadApplied scalar) || negb (String.eqb (ds_phase scalar) "ensure"))).

Definition validDesktopRecord (record : MutationRecord) : bool :=
  match payload (undo record) with
  | PArtifact artifact => valid_artifact record artifact
  | PScalar scalar => valid_scalar record scalar
  | _ => false
  end.

(** * SYSCTL *)

Definition sysctlSameBytesMetadata (a b : AtomicTargetState) : bool :=
  String.eqb (content a) (content b) && bool_decide (mode a = mode b) && bool_decide (owner a = owner b) &&
  bool_decide (group a = group b).

Definition has_inode (s : AtomicTargetState) : bool := negb (bool_decide (inode (identity s) = 0%N)).

(** The conditions on the release intent. *)
Definition valid_release (record : MutationRecord) (x : SysctlSettingState) (r : SysctlReleaseIntent) : bool :=
  bool_decide (rel_version r = 1%Z) && negb (sys_pending x) && bool_decide (status record = Prepared) &&
  negb (rel_previousLegacy r && (sys_containerCreated x || negb (bool_decide (sys_legacyContainerOrigin x = mid record)))) &&
  match rel_before r with Some before => has_inode before | None => true end &&
  match rel_target r with
  | Some target =>
      match rel_before r with
      | Some before =>
          negb (has_inode target) && bool_decide (device (identity target) = 0%N) &&
          bool_decide (mode target = mode before) && bool_decide (owner target = owner before) &&
          bool_decide (group target = group before)
      | None => false
      end
  | None => true
  end &&
  match rel_prepared r with
  | Some prepared =>
      match rel_target r with
      | Some target => has_inode prepared && sysctlSameBytesMetadata prepared target
      | None => false
      end
  | None => true
  end.

Definition is_some {A} (o : option A) : bool := match o with Some _ => true | None => false end.

Definition valid_sysctl_state (record : MutationRecord) (p : UndoRemoveManagedSetting) (x : SysctlSettingState) : bool :=
  let prepared := bool_decide (status record = Prepared) in
  bool_decide (backend (undo record) = Sysctl) && String.eqb (moduleName (policy record)) "SYSCTL" &&
  String.eqb (resource record) (set_key p) && bool_decide (sys_version x = 1%Z) &&
  negb (sys_containerCreated x && negb (bool_decide (sys_legacyContainerOrigin x = 0%Z))) &&
  negb (negb (sys_containerCreated x) && is_some (sys_containerIdentity x)) &&
  negb (sys_containerCreated x && (negb (sys_pending x) || sys_hadApplied x) && negb (is_some (sys_containerIdentity x))) &&
  match sys_containerIdentity x with Some i => negb (bool_decide (inode i = 0%N)) | None => true end &&
  negb (sys_pending x && (negb prepared || is_empty (sys_targetValue x) ||
                          sys_hadApplied x && bool_decide (mid record = 0%Z))) &&
  negb (negb (sys_pending x) &&
        (prepared && negb (is_some (sys_release x)) || sys_hadApplied x || sys_previousLegacy x || sys_attempted x ||
         negb (is_empty (sys_targetValue x)))) &&
  negb (sys_previousLegacy x && (negb (sys_hadApplied x) || negb (bool_decide (sys_legacyContainerOrigin x = mid record)))) &&
  free_of [cr; lf] (set_appliedValue p) && free_of [nul] (set_appliedValue p) &&
  free_of [cr; lf] (sys_targetValue x) && free_of [nul] (sys_targetValue x).

Definition validSysctlRecord (record : MutationRecord) : bool :=
  match payload (undo record) with
  | PSetting p =>
      match set_sysctl p with
      | None => true
      | Some x =>
          match sys_release x with Some r => valid_release record x r | None => true end &&
          valid_sysctl_state record p x
      end
  | _ => negb (bool_decide (backend (undo record) = Sysctl))
  end.

(** [validSshRecord] for the payloads of the model: the SSH backend demands a
    payload of its own. *)
Definition validSshRecord (record : MutationRecord) : bool := negb (bool_decide (backend (undo record) = Ssh)).

(** * Scalar payloads *)

Definition lineFreeOfControlCharacters (line : string) : bool := free_of [cr; lf] line && free_of [nul] line.

Definition validateGrubUndoPayload (payload : UndoRemoveGrubManagedSetting) : bool :=
  negb (is_empty (gr_key payload)) && isGrubManagedKey (gr_key payload) &&
  free_of [cr; lf] (gr_appliedValue payload) && free_of [nul] (gr_appliedValue payload).

Definition validateSssdUndoPayload (payload : UndoRemoveSssdManagedSetting) : bool :=
  negb (is_empty (sd_section payload)) && free_of ["["; "]"; cr; lf]%char (sd_section payload) &&
  negb (is_empty (sd_option payload)) &&
  all_chars (λ c, isalnum c || Ascii.eqb c "_" || Ascii.eqb c "-") (sd_option payload) &&
  free_of [cr; lf] (sd_appliedValue payload) && free_of [nul] (sd_appliedValue payload).

Definition validKerberosSectionName (section : string) : bool :=
  negb (is_empty section) && free_of ["["; "]"; "*"; "#"; ";"; cr; lf]%char section.

Definition validKerberosRelationName (relation : string) : bool :=
  negb (is_empty relation) &&
  free_of ["="; "*"; "#"; ";"; "["; "]"; cr; lf; "{"; "}"; " "; chr 9]%char relation.

Definition validateKerberosUndoPayload (payload : UndoRestoreKerberosScalar) : bool :=
  validKerberosSectionName (kb_section payload) && validKerberosRelationName (kb_relation payload) &&
  negb (is_empty (kb_appliedValue payload)) && lineFreeOfControlCharacters (kb_appliedValue payload) &&
  match kb_beforeKind payload with
  | KPresent =>
      negb (is_empty (kb_beforeRawLine payload)) && lineFreeOfControlCharacters (kb_beforeRawLine payload) &&
      kb_sectionExistedBefore payload
  | KMissing => is_empty (kb_beforeRawLine payload)
  end.

(** * PAM *)

Definition valid_strategy (value : option string) : bool :=
  match value with Some s => bool_decide (s ∈ ["preauth_required"; "preauth_requisite"; "authsucc"]) | None => true end.

Definition valid_strategies (payload : UndoDisablePamCapability) : bool :=
  let previous := pc_previousStrategy payload in
  let target := pc_targetStrategy payload in
  valid_strategy previous && valid_strategy target &&
  negb (is_some previous && (negb (pc_hadAppliedProvenance payload) || negb (is_some target) || bool_decide (previous = target))) &&
  negb (pc_hadAppliedProvenance payload && is_some target && negb (is_some previous)) &&
  negb ((is_some previous || is_some target) && negb (String.eqb (pc_capability payload) "enable_authentication_lockout")) &&
  negb (negb (pc_hadAppliedProvenance payload) && negb (is_empty (pc_previousError payload))).

Definition valid_activation (identifier : string) : bool :=
  negb (is_empty identifier) && negb (String.prefix "-" identifier) &&
  all_chars (λ c, isalnum c || Ascii.eqb c "-" || Ascii.eqb c "_") identifier.

Definition validatePamUndoPayload (payload : UndoDisablePamCapability) : bool :=
  valid_strategies payload &&
  bool_decide (pc_capability payload ∈ ["enable_authentication_lockout"; "enable_password_history"; "enable_password_quality"]) &&
  match pc_topology payload with
  | PamAuthUpdate => negb (bool_decide (pc_activationIdentifiers payload = []))
  | AltTcbManaged => bool_decide (pc_activationIdentifiers payload = [])
  end &&
  forallb valid_activation (pc_activationIdentifiers payload) && all_distinct [] (pc_activationIdentifiers payload).

Definition valid_config_path (path : string) : bool :=
  negb (is_empty path) && is_absolute path && free_of [cr; lf] path && free_of [nul] path.

(** The body parses and its key is the managed key. *)
Definition body_of_key (body provider key : string) : bool :=
  match parseCanonicalPamProviderEntryBody body provider with
  | Some (k, _) => String.eqb k key
  | None => false
  end.

Definition validatePamProviderManagedEntryUndoPayload (payload : UndoRemovePamProviderManagedEntry) : bool :=
  isValidPamProviderIdentityToken (pe_policyName payload) && isValidPamProviderIdentityToken (pe_providerName payload) &&
  valid_config_path (pe_configPath payload) && isValidPamProviderManagedKey (pe_managedKey payload) &&
  body_of_key (pe_appliedBody payload) (pe_providerName payload) (pe_managedKey payload) &&
  (is_empty (pe_previousAppliedBody payload) ||
   body_of_key (pe_previousAppliedBody payload) (pe_providerName payload) (pe_managedKey payload) &&
   negb (String.eqb (pe_previousAppliedBody payload) (pe_appliedBody payload))).

Definition validatePamProviderContainerUndoPayload (payload : UndoOwnPamProviderContainer) : bool :=
  isValidPamProviderIdentityToken (ct_providerName payload) && valid_config_path (ct_configPath payload).

Definition validateSuppressionSet (ids : list string) : bool :=
  forallb isValidPamProviderSuppressionId ids && all_distinct [] ids.

Definition validatePamProviderManagedFlagUndoPayload (payload : UndoRemovePamProviderManagedFlag) : bool :=
  isValidPamProviderIdentityToken (pf_policyName payload) && isValidPamProviderIdentityToken (pf_providerName payload) &&
  isValidPamProviderManagedKey (pf_managedKey payload) && valid_config_path (pf_configPath payload) &&
  validateSuppressionSet (pf_suppressionIds payload) && validateSuppressionSet (pf_previousSuppressionIds payload) &&
  negb (pf_appliedEnabled payload && negb (bool_decide (pf_suppressionIds payload = []))) &&
  match pf_previousAppliedEnabled payload with
  | Some true | None => bool_decide (pf_previousSuppressionIds payload = [])
  | Some false => true
  end.

Definition samePamProviderPreparedTransition (existing incoming : UndoRemovePamProviderManagedEntry) : bool :=
  String.eqb (pe_policyName existing) (pe_policyName incoming) &&
  String.eqb (pe_providerName existing) (pe_providerName incoming) &&
  String.eqb (pe_configPath existing) (pe_configPath incoming) &&
  String.eqb (pe_managedKey existing) (pe_managedKey incoming) &&
  String.eqb (pe_previousAppliedBody existing) (pe_previousAppliedBody incoming) &&
  String.eqb (pe_appliedBody existing) (pe_appliedBody incoming) &&
  bool_decide (pe_placement existing = pe_placement incoming).

Definition samePamProviderPreparedFlagTransition (existing incoming : UndoRemovePamProviderManagedFlag) : bool :=
  String.eqb (pf_policyName existing) (pf_policyName incoming) &&
  String.eqb (pf_providerName existing) (pf_providerName incoming) &&
  String.eqb (pf_configPath existing) (pf_configPath incoming) &&
  String.eqb (pf_managedKey existing) (pf_managedKey incoming) &&
  bool_decide (pf_appliedEnabled existing = pf_appliedEnabled incoming) &&
  bool_decide (pf_previousAppliedEnabled existing = pf_previousAppliedEnabled incoming) &&
  bool_decide (pf_placement existing = pf_placement incoming) &&
  bool_decide (pf_suppressionIds existing = pf_suppressionIds incoming) &&
  bool_decide (pf_previousSuppressionIds existing = pf_previousSuppressionIds incoming).

(** * User creation and login.defs *)

(** The keys a USER_CREATION policy may assign; [None] for an unknown policy or
    a policy of another file. *)
Definition user_creation_keys (policyName : string) (kind : UserCreationConfigKind) : option (list string) :=
  let single key := if bool_decide (kind = UseraddDefaults) then Some [key] else None in
  if String.eqb policyName "user_home_base_directory" then single "HOME"
  else if String.eqb policyName "user_skeleton_directory" then single "SKEL"
  else if String.eqb policyName "user_default_shell" then single "SHELL"
  else if String.eqb policyName "user_default_primary_group" then single "GROUP"
  else if String.eqb policyName "user_default_supplementary_groups" then
    Some (match kind with
          | Adduser => ["ADD_EXTRA_GROUPS"; "EXTRA_GROUPS"]
          | UseraddDefaults => ["GROUPS"]
          | LoginDefs => []
          end)
  else None.

Definition valid_assignment (allowed : list string) (assignment : UserCreationManagedAssignment) : bool :=
  bool_decide (as_key assignment ∈ allowed) && negb (is_empty (as_appliedLine assignment)) &&
  lineFreeOfControlCharacters (as_appliedLine assignment) &&
  String.prefix (as_key assignment +:+ "=") (as_appliedLine assignment).

(** Equality of the sets of the elements. *)
Definition same_set (a b : list string) : bool :=
  forallb (λ x, bool_decide (x ∈ b)) a && forallb (λ x, bool_decide (x ∈ a)) b.

Definition valid_assignments (policyName : string) (kind : UserCreationConfigKind) (allowed : list string)
    (assignments : list UserCreationManagedAssignment) (allowEmpty : bool) : bool :=
  if bool_decide (assignments = []) then allowEmpty
  else
    let keys := as_key <$> assignments in
    if negb (forallb (valid_assignment allowed) assignments && all_distinct [] keys) then false
    else if negb (String.eqb policyName "user_default_supplementary_groups") then same_set keys allowed
    else if bool_decide (kind = UseraddDefaults) then same_set keys ["GROUPS"]
    else same_set keys ["ADD_EXTRA_GROUPS"] || same_set keys ["ADD_EXTRA_GROUPS"; "EXTRA_GROUPS"].

Definition validateUserCreationUndoPayload (payload : UndoRemoveUserCreationManagedPolicy) : bool :=
  if is_empty (uc_policyName payload) || is_empty (uc_configPath payload) || negb (is_absolute (uc_configPath payload)) then false
  else match user_creation_keys (uc_policyName payload) (uc_configKind payload) with
       | None => false
       | Some allowed =>
           let valid := valid_assignments (uc_policyName payload) (uc_configKind payload) allowed in
           valid (uc_appliedAssignments payload) false && valid (uc_previousAppliedAssignments payload) true
       end.

Definition valid_login_defs_line (policyName key line : string) : bool :=
  let prefix := key +:+ " " in
  String.prefix prefix line && validateSharedLoginDefsPolicyValue policyName (drop_front (String.length prefix) line).

Definition validateIdentityLoginDefsUndoPayload (payload : UndoRemoveIdentityLoginDefsManagedPolicy) : bool :=
  match findSharedLoginDefsPolicySpec (ld_policyName payload) with
  | None => false
  | Some spec =>
      is_absolute (ld_configPath payload) && negb (is_empty (ld_appliedLine payload)) &&
      lineFreeOfControlCharacters (ld_appliedLine payload) &&
      lineFreeOfControlCharacters (ld_previousAppliedLine payload) &&
      negb (is_empty (ld_key payload)) && String.eqb (ld_key payload) (spec_key spec) &&
      valid_login_defs_line (ld_policyName payload) (ld_key payload) (ld_appliedLine payload) &&
      (is_empty (ld_previousAppliedLine payload) ||
       valid_login_defs_line (ld_policyName payload) (ld_key payload) (ld_previousAppliedLine payload))
  end.

(** A USER_CREATION payload never names login.defs as its file: the two kinds
    its text distinguishes are all there are. *)
Lemma user_creation_kind p : validateUserCreationUndoPayload p = true → uc_configKind p ≠ LoginDefs.
Proof.
  unfold validateUserCreationUndoPayload. destruct (_ || _); [done|]. destruct p as [name kind path applied previous]. simpl.
  intros H ->. unfold user_creation_keys in H.
  repeat (destruct (String.eqb name _) in H; simpl in H; [try discriminate H|]); try discriminate H.
  apply andb_true_iff in H as [H _]. unfold valid_assignments in H. case_bool_decide; [done|].
  destruct applied as [|a applied]; [done|]. assert (valid_assignment [] a = false) as Ha.
  { unfold valid_assignment. rewrite bool_decide_false by apply not_elem_of_nil. done. }
  cbn [forallb] in H. by rewrite Ha in H.
Qed.
