(* ===== verification/MutationCodec.v ===== *)
(** The journal document: how records are written to JSON and read back
    (serializeUndoAction, deserializeUndoAction, serializeRecord,
    deserializeRecord and the parsing part of loadImpl in
    fic/src/rollback/MutationJournal.cpp).

    The two actions of the SSH and SSSD transactions are outside the model; a
    document that names one of them is refused here. *)

From S2P Require Import Prelude PolicyModel AtomicWriter Json JsonRead OwnershipGrammar MutationRecord MutationValid.
Open Scope string_scope.
Open Scope nat_scope.

(** * Writing *)

Definition junsigned (n : N) : json := JUnsigned (Z.of_N n).

Definition sysctlSnapshot (state : option AtomicTargetState) : json :=
  match state with
  | None => JNull
  | Some s =>
      obj [("device", junsigned (device (identity s))); ("inode", junsigned (inode (identity s)));
           ("mode", JUnsigned (mode s)); ("owner", JUnsigned (owner s)); ("group", JUnsigned (group s));
           ("content", JString (content s))]
  end.

Definition json_of_release (r : SysctlReleaseIntent) : json :=
  obj [("version", JUnsigned (rel_version r)); ("previous_legacy", JBool (rel_previousLegacy r));
       ("before", sysctlSnapshot (rel_before r)); ("target", sysctlSnapshot (rel_target r));
       ("prepared", sysctlSnapshot (rel_prepared r))].

Definition json_of_identity (o : option AtomicTargetIdentity) : json :=
  match o with
  | Some i => obj [("device", junsigned (device i)); ("inode", junsigned (inode i))]
  | None => JNull
  end.

Definition json_of_sysctl (x : SysctlSettingState) : json :=
  obj ([("version", JUnsigned (sys_version x)); ("container_created", JBool (sys_containerCreated x));
        ("legacy_container_origin", JUnsigned (sys_legacyContainerOrigin x)); ("pending", JBool (sys_pending x));
        ("had_applied", JBool (sys_hadApplied x)); ("previous_legacy", JBool (sys_previousLegacy x));
        ("attempted", JBool (sys_attempted x)); ("target_value", JString (sys_targetValue x));
        ("container_identity", json_of_identity (sys_containerIdentity x))] ++
       match sys_release x with Some r => [("release", json_of_release r)] | None => [] end)%list.

Definition json_of_owner (owner : PolicyRef) : json :=
  obj [("module", JString (moduleName owner)); ("submodule", JString (submoduleName owner));
       ("policy", JString (policyName owner))].

Definition json_of_auth_proof (proof : AuthenticationProof) : json :=
  obj [("wrapper_id", JString (ap_wrapperId proof)); ("canonical_path", JString (ap_canonicalPath proof));
       ("original_digest", JString (ap_originalDigest proof)); ("replacement_digest", JString (ap_replacementDigest proof))].

Definition json_of_scoped_proof (proof : SudoScopedDefaultsWrapperProof) : json :=
  obj [("wrapper_id", JString (sp_wrapperId proof)); ("canonical_path", JString (sp_canonicalPath proof));
       ("payload_digest", JString (sp_payloadDigest proof))].

Definition json_of_assignment (item : UserCreationManagedAssignment) : json :=
  obj [("key", JString (as_key item)); ("line", JString (as_appliedLine item))].

Definition placement_text (p : PamProviderBlockPlacementContract) : string :=
  match p with Beginning => "beginning" | End_ => "end" end.

(** The members each payload kind adds. *)
Definition payload_members (p : UndoPayload) : list (string * json) :=
  match p with
  | PDm dm =>
      [("manager", JString (dm_manager dm)); ("route", JUnsigned (dm_route dm)); ("seats", jstrings (dm_seats dm));
       ("created_file", JBool (dm_createdFile dm)); ("separator", JString (dm_separator dm));
       ("creation_device", JUnsigned (dm_creationDevice dm)); ("creation_inode", JUnsigned (dm_creationInode dm));
       ("had_applied", JBool (dm_hadApplied dm)); ("phase", JString (dm_phase dm))]
  | PArtifact artifact =>
      [("kind", JString (da_kind artifact)); ("phase", JString (da_phase artifact));
       ("had_applied", JBool (da_hadApplied artifact)); ("device", JUnsigned (da_device artifact));
       ("inode", JUnsigned (da_inode artifact))]
  | PScope checkpoint =>
      [("committed_scope", jstrings (sc_committedScope checkpoint)); ("target_scope", jstrings (sc_targetScope checkpoint));
       ("phase", JString (sc_phase checkpoint))]
  | PScalar scalar =>
      [("desktop", JString (ds_desktop scalar)); ("setting", JString (ds_setting scalar));
       ("original_line", joptional (ds_originalLine scalar)); ("applied_line", JString (ds_appliedLine scalar));
       ("previous_applied_line", joptional (ds_previousAppliedLine scalar));
       ("owners", JArray (json_of_owner <$> ds_owners scalar)); ("had_applied", JBool (ds_hadApplied scalar));
       ("phase", JString (ds_phase scalar)); ("original_lock_line", joptional (ds_originalLockLine scalar));
       ("compiled_before_digest", JString (ds_compiledBeforeDigest scalar));
       ("compiled_target_digest", JString (ds_compiledTargetDigest scalar))]
  | PSudoGlobal global =>
      [("key", JString (sg_key global)); ("applied_line", JString (sg_appliedLine global));
       ("previous_line", JString (sg_previousLine global)); ("container_id", JString (sg_containerId global));
       ("added_separator", JBool (sg_addedSeparator global));
       ("separator_prefix_digest", JString (sg_separatorPrefixDigest global))]
  | PSetting setting =>
      ([("key", JString (set_key setting)); ("applied_value", JString (set_appliedValue setting))] ++
       match set_sysctl setting with Some x => [("sysctl", json_of_sysctl x)] | None => [] end)%list
  | PSudoAuth auth =>
      [("previous_proofs", JArray (json_of_auth_proof <$> sa_previousProofs auth));
       ("target_proofs", JArray (json_of_auth_proof <$> sa_targetProofs auth))]
  | PSudoScoped scoped =>
      [("policy", JString (ss_policyName scoped));
       ("previous_proofs", JArray (json_of_scoped_proof <$> ss_previousProofs scoped));
       ("target_proofs", JArray (json_of_scoped_proof <$> ss_targetProofs scoped))]
  | PUserCreation user =>
      [("policy", JString (uc_policyName user));
       ("config_kind", JString (if bool_decide (uc_configKind user = UseraddDefaults) then "useradd_defaults" else "adduser"));
       ("config_path", JString (uc_configPath user));
       ("applied_assignments", JArray (json_of_assignment <$> uc_appliedAssignments user));
       ("previous_applied_assignments", JArray (json_of_assignment <$> uc_previousAppliedAssignments user))]
  | PFirewall firewall => [("policy", JString (fw_policyName firewall))]
  | PGrub grub => [("key", JString (gr_key grub)); ("applied_value", JString (gr_appliedValue grub))]
  | PSssd sssd =>
      [("section", JString (sd_section sssd)); ("option", JString (sd_option sssd));
       ("applied_value", JString (sd_appliedValue sssd))]
  | PKerberos kerberos =>
      [("section", JString (kb_section kerberos)); ("relation", JString (kb_relation kerberos));
       ("applied_value", JString (kb_appliedValue kerberos));
       ("before_kind", JString (match kb_beforeKind kerberos with KPresent => "present" | KMissing => "missing" end));
       ("before_raw_line", JString (kb_beforeRawLine kerberos));
       ("section_existed_before", JBool (kb_sectionExistedBefore kerberos))]
  | PCapability pam =>
      [("capability", JString (pc_capability pam));
       ("topology", JString (match pc_topology pam with PamAuthUpdate => "pam_auth_update" | AltTcbManaged => "alt_tcb_managed" end));
       ("activation_identifiers", jstrings (pc_activationIdentifiers pam));
       ("had_applied_provenance", JBool (pc_hadAppliedProvenance pam));
       ("previous_strategy", joptional (pc_previousStrategy pam)); ("target_strategy", joptional (pc_targetStrategy pam));
       ("previous_error", JString (pc_previousError pam))]
  | PEntry entry =>
      [("policy", JString (pe_policyName entry)); ("provider", JString (pe_providerName entry));
       ("config_path", JString (pe_configPath entry)); ("managed_key", JString (pe_managedKey entry));
       ("applied_body", JString (pe_appliedBody entry)); ("previous_applied_body", JString (pe_previousAppliedBody entry));
       ("placement", JString (placement_text (pe_placement entry)))]
  | PFlag flag =>
      [("policy", JString (pf_policyName flag)); ("provider", JString (pf_providerName flag));
       ("config_path", JString (pf_configPath flag)); ("managed_key", JString (pf_managedKey flag));
       ("applied_enabled", JBool (pf_appliedEnabled flag));
       ("previous_applied_enabled",
         JString (match pf_previousAppliedEnabled flag with None => "none" | Some true => "enabled" | Some false => "disabled" end));
       ("placement", JString (placement_text (pf_placement flag)));
       ("suppression_ids", jstrings (pf_suppressionIds flag));
       ("previous_suppression_ids", jstrings (pf_previousSuppressionIds flag))]
  | PContainer container =>
      [("provider", JString (ct_providerName container)); ("config_path", JString (ct_configPath container))]
  | PLoginDefs login =>
      [("policy", JString (ld_policyName login)); ("config_path", JString (ld_configPath login));
       ("key", JString (ld_key login)); ("applied_line", JString (ld_appliedLine login));
       ("previous_applied_line", JString (ld_previousAppliedLine login))]
  end.

Definition serializeUndoAction (action : UndoAction) : json :=
  obj (("action", JString (undoActionTypeName action)) ::
       ("backend", JString (mutationBackendToString (backend action))) :: payload_members (payload action)).

Definition serializeRecord (record : MutationRecord) : json :=
  obj [("id", JUnsigned (mid record)); ("policy", json_of_owner (policy record)); ("resource", JString (resource record));
       ("backend", JString (mutationBackendToString (backend (undo record))));
       ("status", JString (mutationStatusToString (status record))); ("undo", serializeUndoAction (undo record));
       ("created_at_epoch", jsigned (createdAtEpoch record)); ("updated_at_epoch", jsigned (updatedAtEpoch record));
       ("error", JString (merror record))].

Definition kSchemaVersion : Z := 3%Z.
Definition kWitnessSchemaVersion : Z := 1%Z.

(** The document [persist] writes. *)
Definition journal_document (nextId : Z) (records : list MutationRecord) : json :=
  obj [("schema_version", JUnsigned kSchemaVersion); ("next_id", JUnsigned nextId);
       ("records", JArray (serializeRecord <$> records))].

(** * Reading payloads *)

(** [at] and [is_number_unsigned]. *)
Definition at_unsigned (key : string) (j : json) : parsed Z :=
  let? v := json_at key j in match as_unsigned v with Some n => Accepted n | None => Rejected end.

Definition snapshot_limit : Z := (1024 * 1024)%Z.

Definition readSysctlSnapshot (j : json) : parsed (option AtomicTargetState) :=
  match j with
  | JNull => Accepted None
  | _ =>
      let? dev := at_unsigned "device" j in
      let? ino := at_unsigned "inode" j in
      let? m := at_unsigned "mode" j in
      let? o := at_unsigned "owner" j in
      let? g := at_unsigned "group" j in
      require (m <=? 4095)%Z && (o <=? uid_max)%Z && (g <=? uid_max)%Z in
      let? c := json_at "content" j in
      match c with
      | JString text =>
          require (Z.of_nat (String.length text) <=? snapshot_limit)%Z in
          Accepted (Some (mkTarget (mkIdentity (Z.to_N dev) (Z.to_N ino)) text m o g))
      | _ => Rejected
      end
  end.

Definition read_release (j : json) : parsed SysctlReleaseIntent :=
  let? version := let? v := json_at "version" j in get_u32 v in
  let? legacy := let? v := json_at "previous_legacy" j in get_bool v in
  let? before := let? v := json_at "before" j in readSysctlSnapshot v in
  let? target := let? v := json_at "target" j in readSysctlSnapshot v in
  let? prepared := let? v := json_at "prepared" j in readSysctlSnapshot v in
  Accepted (mkRelease version legacy before target prepared).

(** The consistency of the typed state on its own. *)
Definition sysctl_transition_ok (x : SysctlSettingState) : bool :=
  bool_decide (sys_version x = 1%Z) &&
  negb (sys_containerCreated x && negb (bool_decide (sys_legacyContainerOrigin x = 0%Z))) &&
  negb (sys_pending x && (is_empty (sys_targetValue x) || sys_previousLegacy x && negb (sys_hadApplied x))) &&
  negb (negb (sys_pending x) &&
        (sys_hadApplied x || sys_previousLegacy x || sys_attempted x || negb (is_empty (sys_targetValue x)))).

Definition read_container_identity (identity : json) : parsed (option AtomicTargetIdentity) :=
  match identity with
  | JNull => Accepted None
  | _ =>
      let? dev := at_unsigned "device" identity in
      let? ino := at_unsigned "inode" identity in
      Accepted (Some (mkIdentity (Z.to_N dev) (Z.to_N ino)))
  end.

Definition read_sysctl (x : json) : parsed SysctlSettingState :=
  let? version := let? v := json_at "version" x in get_u32 v in
  let? created := let? v := json_at "container_created" x in get_bool v in
  let? origin := let? v := json_at "legacy_container_origin" x in get_u64 v in
  let? pending := let? v := json_at "pending" x in get_bool v in
  let? applied := let? v := json_at "had_applied" x in get_bool v in
  let? legacy := let? v := json_at "previous_legacy" x in get_bool v in
  let? attempted := let? v := json_at "attempted" x in get_bool v in
  let? target := let? v := json_at "target_value" x in get_string v in
  let? identity := json_at "container_identity" x in
  let? container := read_container_identity identity in
  let state release := mkSysctl version created container origin pending applied legacy attempted target release in
  require sysctl_transition_ok (state None) in
  match Json.find "release" x with
  | None => Accepted (state None)
  | Some j => let? r := read_release j in Accepted (state (Some r))
  end.

Definition read_setting (b : MutationBackend) (value : json) : parsed UndoPayload :=
  let? key := value_string "key" value in
  let? applied := value_string "applied_value" value in
  let? sysctl :=
    match Json.find "sysctl" value with
    | None => Accepted None
    | Some x => require bool_decide (b = Sysctl) in let? state := read_sysctl x in Accepted (Some state)
    end in
  require negb (is_empty key) && negb (bool_decide (b = Sudo) && is_empty applied) in
  Accepted (PSetting (mkSetting key applied sysctl)).

Definition read_artifact (value : json) : parsed UndoPayload :=
  let? kind := string_field "kind" value in
  let? phase := string_field "phase" value in
  let? applied := bool_field "had_applied" value in
  let? dev := unsigned_field "device" value in
  let? ino := unsigned_field "inode" value in
  Accepted (PArtifact (mkArtifact kind phase applied dev ino)).

Definition read_owner (owner : json) : parsed PolicyRef :=
  require is_object owner in
  let? module := string_field "module" owner in
  let? submodule := string_field "submodule" owner in
  let? name := string_field "policy" owner in
  Accepted (mkRef module submodule name).

Definition read_scalar (value : json) : parsed UndoPayload :=
  let? desktop := string_field "desktop" value in
  let? setting := string_field "setting" value in
  let? applied := string_field "applied_line" value in
  let? phase := string_field "phase" value in
  let? before := string_field "compiled_before_digest" value in
  let? target := string_field "compiled_target_digest" value in
  let? original := optional_string_field "original_line" value in
  let? previous := optional_string_field "previous_applied_line" value in
  let? lock := optional_string_field "original_lock_line" value in
  let? items := array_field "owners" value in
  let? hadApplied := bool_field "had_applied" value in
  let? owners := get_all read_owner items in
  Accepted (PScalar (mkScalar desktop setting original applied previous owners hadApplied phase lock before target)).

Definition read_dm (value : json) : parsed UndoPayload :=
  let? manager := string_field "manager" value in
  let? separator := string_field "separator" value in
  let? phase := string_field "phase" value in
  let? route := unsigned_field "route" value in
  require bool_decide (route = 0%Z) in
  let? dev := unsigned_field "creation_device" value in
  let? ino := unsigned_field "creation_inode" value in
  let? seats := array_field "seats" value in
  let? created := bool_field "created_file" value in
  let? applied := bool_field "had_applied" value in
  let? names := get_strings (JArray seats) in
  Accepted (PDm (mkDm manager route names created dev ino separator applied phase)).

Definition read_scope (value : json) : parsed UndoPayload :=
  let? committed := array_field "committed_scope" value in
  let? target := array_field "target_scope" value in
  let? phase := string_field "phase" value in
  let? c := get_strings (JArray committed) in
  let? t := get_strings (JArray target) in
  let checkpoint := mkScope c t phase in
  require validScopeCheckpoint checkpoint in
  Accepted (PScope checkpoint).

(** A list of strings, any other item refused. *)
Definition all_strings (items : list json) : parsed (list string) :=
  match mapM as_string items with Some l => Accepted l | None => Rejected end.

Definition read_topology (text : string) : parsed PamTopologyKind :=
  if String.eqb text "pam_auth_update" then Accepted PamAuthUpdate
  else if String.eqb text "alt_tcb_managed" then Accepted AltTcbManaged else Rejected.

Definition read_capability (value : json) : parsed UndoPayload :=
  let? capability := string_field "capability" value in
  let? topologyText := string_field "topology" value in
  let? identifiers := array_field "activation_identifiers" value in
  let? established := bool_field "had_applied_provenance" value in
  let? previous := optional_string_field "previous_strategy" value in
  let? target := optional_string_field "target_strategy" value in
  let? previousError := string_field "previous_error" value in
  let? topology := read_topology topologyText in
  let? ids := all_strings identifiers in
  let p := mkCapability capability topology ids established previous target previousError in
  require validatePamUndoPayload p in
  Accepted (PCapability p).

Definition read_sudo_global (value : json) : parsed UndoPayload :=
  let? key := string_field "key" value in
  let? applied := string_field "applied_line" value in
  let? previous := string_field "previous_line" value in
  let? container := string_field "container_id" value in
  let? digest := string_field "separator_prefix_digest" value in
  let? separator := bool_field "added_separator" value in
  let p := mkSudoGlobal key applied previous container separator digest in
  require validateSudoGlobalDefaultPayload p in
  Accepted (PSudoGlobal p).

Definition read_auth_proof (item : json) : parsed AuthenticationProof :=
  require is_object item in
  let? wrapper := value_string "wrapper_id" item in
  let? path := value_string "canonical_path" item in
  let? original := value_string "original_digest" item in
  let? replacement := value_string "replacement_digest" item in
  Accepted (mkAuthProof wrapper path original replacement).

Definition read_auth_proofs (key : string) (value : json) : parsed (list AuthenticationProof) :=
  let? items := array_field key value in get_all read_auth_proof items.

Definition read_sudo_auth (value : json) : parsed UndoPayload :=
  let? previous := read_auth_proofs "previous_proofs" value in
  let? target := read_auth_proofs "target_proofs" value in
  let p := mkSudoAuth previous target in
  require validateSudoAuthenticationPayload p in
  Accepted (PSudoAuth p).

Definition read_scoped_proof (item : json) : parsed SudoScopedDefaultsWrapperProof :=
  require is_object item in
  let? wrapper := value_string "wrapper_id" item in
  let? path := value_string "canonical_path" item in
  let? digest := value_string "payload_digest" item in
  let proof := mkScopedProof wrapper path digest in
  require validateSudoScopedDefaultsProof proof in
  Accepted proof.

Definition read_scoped_proofs (key : string) (value : json) : parsed (list SudoScopedDefaultsWrapperProof) :=
  match Json.find key value with
  | None => Accepted []
  | Some (JArray items) => get_all read_scoped_proof items
  | Some _ => Rejected
  end.

Definition read_sudo_scoped (value : json) : parsed UndoPayload :=
  let? name := value_string "policy" value in
  let? previous := read_scoped_proofs "previous_proofs" value in
  let? target := read_scoped_proofs "target_proofs" value in
  let p := mkSudoScoped name previous target in
  require validateSudoScopedDefaultsUndoPayload p in
  Accepted (PSudoScoped p).

Fixpoint read_assignment_items (seen : list string) (items : list json) : parsed (list UserCreationManagedAssignment) :=
  match items with
  | [] => Accepted []
  | item :: rest =>
      require is_object item in
      let? key := value_string "key" item in
      let? line := value_string "line" item in
      require negb (is_empty key) && negb (is_empty line) && free_of [cr; lf] key && free_of [cr; lf] line &&
              negb (bool_decide (key ∈ seen)) in
      let? others := read_assignment_items (key :: seen) rest in
      Accepted (mkAssignment key line :: others)
  end.

Definition readAssignments (key : string) (value : json) : parsed (list UserCreationManagedAssignment) :=
  let? items := array_field key value in
  let? assignments := read_assignment_items [] items in
  require negb (bool_decide (assignments = [])) in
  Accepted assignments.

Definition read_user_creation (value : json) : parsed UndoPayload :=
  let? name := value_string "policy" value in
  let? path := value_string "config_path" value in
  let? kindText := value_string "config_kind" value in
  let? kind :=
    if String.eqb kindText "useradd_defaults" then Accepted UseraddDefaults
    else if String.eqb kindText "adduser" then Accepted Adduser else Rejected in
  require negb (is_empty name) && negb (is_empty path) in
  let? applied := readAssignments "applied_assignments" value in
  let? items := array_field "previous_applied_assignments" value in
  let? previous := if bool_decide (length items = 0) then Accepted [] else readAssignments "previous_applied_assignments" value in
  let p := mkUserCreation name kind path applied previous in
  require validateUserCreationUndoPayload p in
  Accepted (PUserCreation p).

Definition read_login_defs (value : json) : parsed UndoPayload :=
  let? name := value_string "policy" value in
  let? path := value_string "config_path" value in
  let? key := value_string "key" value in
  let? applied := value_string "applied_line" value in
  let? previous := string_field "previous_applied_line" value in
  let p := mkLoginDefs name path key applied previous in
  require validateIdentityLoginDefsUndoPayload p in
  Accepted (PLoginDefs p).

Definition read_firewall (value : json) : parsed UndoPayload :=
  let? name := value_string "policy" value in
  require negb (is_empty name) in
  Accepted (PFirewall (mkFirewall name)).

Definition read_grub (value : json) : parsed UndoPayload :=
  let? key := value_string "key" value in
  let? applied := string_field "applied_value" value in
  let p := mkGrub key applied in
  require validateGrubUndoPayload p in
  Accepted (PGrub p).

Definition read_sssd (value : json) : parsed UndoPayload :=
  let? section := string_field "section" value in
  let? option := string_field "option" value in
  let? applied := string_field "applied_value" value in
  let p := mkSssd section option applied in
  require validateSssdUndoPayload p in
  Accepted (PSssd p).

Definition read_before_kind (text : string) : parsed KerberosBeforeKind :=
  if String.eqb text "present" then Accepted KPresent
  else if String.eqb text "missing" then Accepted KMissing else Rejected.

Definition read_kerberos (value : json) : parsed UndoPayload :=
  let? section := string_field "section" value in
  let? relation := string_field "relation" value in
  let? applied := string_field "applied_value" value in
  let? kindText := string_field "before_kind" value in
  let? kind := read_before_kind kindText in
  let? raw := string_field "before_raw_line" value in
  let? existed := bool_field "section_existed_before" value in
  let p := mkKerberos section relation applied kind raw existed in
  require validateKerberosUndoPayload p in
  Accepted (PKerberos p).

Definition read_placement (text : string) : parsed PamProviderBlockPlacementContract :=
  if String.eqb text "beginning" then Accepted Beginning
  else if String.eqb text "end" then Accepted End_ else Rejected.

Definition read_entry (value : json) : parsed UndoPayload :=
  let? name := string_field "policy" value in
  let? provider := string_field "provider" value in
  let? path := string_field "config_path" value in
  let? key := string_field "managed_key" value in
  let? applied := string_field "applied_body" value in
  let? previous := string_field "previous_applied_body" value in
  let? placementText := string_field "placement" value in
  let? placement := read_placement placementText in
  let p := mkEntry name provider path key applied previous placement in
  require validatePamProviderManagedEntryUndoPayload p in
  Accepted (PEntry p).

Definition read_previous_enabled (text : string) : parsed (option bool) :=
  if String.eqb text "none" then Accepted None
  else if String.eqb text "enabled" then Accepted (Some true)
  else if String.eqb text "disabled" then Accepted (Some false) else Rejected.

Definition read_flag (value : json) : parsed UndoPayload :=
  let? name := string_field "policy" value in
  let? provider := string_field "provider" value in
  let? path := string_field "config_path" value in
  let? key := string_field "managed_key" value in
  let? enabled := bool_field "applied_enabled" value in
  let? previousText := string_field "previous_applied_enabled" value in
  let? previous := read_previous_enabled previousText in
  let? placementText := string_field "placement" value in
  let? placement := read_placement placementText in
  let? idItems := array_field "suppression_ids" value in
  let? ids := all_strings idItems in
  let? previousItems := array_field "previous_suppression_ids" value in
  let? previousIds := all_strings previousItems in
  let p := mkFlag name provider path key enabled previous placement ids previousIds in
  require validatePamProviderManagedFlagUndoPayload p in
  Accepted (PFlag p).

Definition read_container (value : json) : parsed UndoPayload :=
  let? provider := string_field "provider" value in
  let? path := string_field "config_path" value in
  let p := mkContainer provider path in
  require validatePamProviderContainerUndoPayload p in
  Accepted (PContainer p).

(** The dispatch on the action and its backend. *)
Definition read_payload (actionName : string) (b : MutationBackend) (value : json) : parsed UndoPayload :=
  let act name expected := String.eqb actionName name && bool_decide (b = expected) in
  if act "own_desktop_artifact" Desktop then read_artifact value
  else if act "restore_desktop_scalar" Desktop then read_scalar value
  else if act "remove_display_manager_block" DisplayManager then read_dm value
  else if act "scope_transition_checkpoint" Scope then read_scope value
  else if act "disable_pam_capability" Pam then read_capability value
  else if act "release_sudo_global_default" Sudo then read_sudo_global value
  else if act "remove_managed_setting" Sysctl || act "remove_managed_setting" Sudo then read_setting b value
  else if act "release_sudo_authentication" Sudo then read_sudo_auth value
  else if act "release_sudo_scoped_defaults" Sudo then read_sudo_scoped value
  else if act "remove_user_creation_managed_policy" UserCreation then read_user_creation value
  else if act "remove_identity_login_defs_managed_policy" IdentityLoginDefs then read_login_defs value
  else if act "remove_firewall_policy" Firewall then read_firewall value
  else if act "remove_grub_managed_setting" Grub then read_grub value
  else if act "remove_sssd_managed_setting" Sssd then read_sssd value
  else if act "restore_kerberos_scalar" Kerberos then read_kerberos value
  else if act "remove_pam_provider_managed_entry" Pam then read_entry value
  else if act "remove_pam_provider_managed_flag" Pam then read_flag value
  else if act "own_pam_provider_container" Pam then read_container value
  else Rejected.

Definition deserializeUndoAction (value : json) : parsed UndoAction :=
  let? actionName := value_string "action" value in
  let? backendName := value_string "backend" value in
  match mutationBackendFromString backendName with
  | None => Rejected
  | Some b => let? p := read_payload actionName b value in Accepted (mkUndo b p)
  end.

(** * Reading records *)

(** The identity a record of each backend must have. *)
Definition identity_matches (record : MutationRecord) : bool :=
  match backend (undo record) with
  | Grub => match payload (undo record) with PGrub p => String.eqb (gr_key p) (resource record) | _ => false end
  | Sssd =>
      match payload (undo record) with
      | PSssd p => String.eqb (sd_section p +:+ "/" +:+ sd_option p) (resource record)
      | _ => false
      end
  | Kerberos =>
      match payload (undo record) with
      | PKerberos p => String.eqb (kb_section p +:+ "/" +:+ kb_relation p) (resource record)
      | _ => false
      end
  | Pam =>
      match payload (undo record) with
      | PEntry p => ref_is "IDENTITY_ACCESS" "PAM" (pe_policyName p) (policy record) && String.eqb (resource record) (pe_configPath p)
      | PFlag p => ref_is "IDENTITY_ACCESS" "PAM" (pf_policyName p) (policy record) && String.eqb (resource record) (pf_configPath p)
      | PContainer p =>
          ref_is "IDENTITY_ACCESS" "PAM_CONTAINER" (ct_providerName p) (policy record) && String.eqb (resource record) (ct_configPath p)
      | PCapability p =>
          ref_is "IDENTITY_ACCESS" "PAM" (pc_capability p) (policy record) &&
          String.eqb (resource record) ("capability/" +:+ pc_capability p)
      | _ => false
      end
  | UserCreation =>
      match payload (undo record) with
      | PUserCreation p =>
          ref_is "IDENTITY_ACCESS" "USER_CREATION" (uc_policyName p) (policy record) && String.eqb (resource record) (uc_configPath p)
      | _ => false
      end
  | IdentityLoginDefs =>
      match payload (undo record) with
      | PLoginDefs p =>
          match findSharedLoginDefsPolicySpec (ld_policyName p) with
          | Some spec =>
              ref_is "IDENTITY_ACCESS" (spec_submodule spec) (ld_policyName p) (policy record) &&
              String.eqb (resource record) (ld_configPath p)
          | None => false
          end
      | _ => false
      end
  | _ => true
  end.

(** A record of a PAM capability also repeats its backend at the top. *)
Definition pam_backend_named (value : json) (u : UndoAction) : bool :=
  match backend u, payload u with
  | Pam, PCapability _ => bool_decide (string_at "backend" value = Some "pam")
  | _, _ => true
  end.

Definition is_scope (p : UndoPayload) : bool := match p with PScope _ => true | _ => false end.
Definition is_desktop (p : UndoPayload) : bool := match p with PScalar _ | PArtifact _ => true | _ => false end.
Definition is_dm (p : UndoPayload) : bool := match p with PDm _ => true | _ => false end.

(** [(backend == b || holds_alternative<..>) && !valid(record)]: refuse. *)
Definition scope_ok (r : MutationRecord) : bool :=
  negb (bool_decide (backend (undo r) = Scope) || is_scope (payload (undo r))) || validScopeRecord r.
(** The scope checked again once the status is known, for the backend alone. *)
Definition scope_status_ok (r : MutationRecord) : bool := negb (bool_decide (backend (undo r) = Scope)) || validScopeRecord r.
Definition desktop_ok (r : MutationRecord) : bool :=
  negb (bool_decide (backend (undo r) = Desktop) || is_desktop (payload (undo r))) || validDesktopRecord r.
Definition dm_ok (r : MutationRecord) : bool :=
  negb (bool_decide (backend (undo r) = DisplayManager) || is_dm (payload (undo r))) || validDmRecord r.

Definition deserializeRecord (value : json) : parsed MutationRecord :=
  require is_object value in
  let? rid := unsigned_field "id" value in
  let? ref := object_field "policy" value in
  let? module := value_string "module" ref in
  let? submodule := value_string "submodule" ref in
  let? name := value_string "policy" ref in
  require negb (is_empty module) && negb (is_empty name) in
  let? res := value_string "resource" value in
  let? undoValue := object_field "undo" value in
  let? u := deserializeUndoAction undoValue in
  let record st created updated err := mkRecord rid (mkRef module submodule name) res u st created updated err in
  let fresh := record Prepared 0%Z 0%Z "" in
  require scope_ok fresh && validateSudoGlobalRecord fresh && identity_matches fresh && pam_backend_named value u in
  let? statusText := value_string "status" value in
  match mutationStatusFromString statusText with
  | None => Rejected
  | Some st =>
      let r := record st 0%Z 0%Z "" in
      require validSshRecord r && validSysctlRecord r && desktop_ok r && scope_status_ok r && dm_ok r in
      let? created := value_i64 "created_at_epoch" value in
      let? updated := value_i64 "updated_at_epoch" value in
      let? err := value_string "error" value in
      Accepted (record st created updated err)
  end.

(** * Reading the document *)

(** The loops over [outer] and [inner > outer]. *)
Fixpoint no_clash {A} (clash : A → A → bool) (l : list A) : bool :=
  match l with [] => true | x :: l' => forallb (λ y, negb (clash x y)) l' && no_clash clash l' end.

Definition same_id (a b : MutationRecord) : bool := bool_decide (mid a = mid b).

Definition active_twice (a b : MutationRecord) : bool := isActive a && isActive b && same_identity a b.

Definition container_clash (a b : MutationRecord) : bool :=
  isActive a && isActive b &&
  match payload (undo a), payload (undo b) with
  | PContainer x, PContainer y => String.eqb (ct_configPath y) (ct_configPath x)
  | _, _ => false
  end.

Definition meets (a b : list string) : bool := existsb (λ x, bool_decide (x ∈ b)) a.

Definition flag_clash (a b : MutationRecord) : bool :=
  isActive a && isActive b &&
  match payload (undo a), payload (undo b) with
  | PFlag x, PFlag y =>
      String.eqb (pf_configPath y) (pf_configPath x) &&
      meets (activePamFlagSuppressionAuthority a x) (activePamFlagSuppressionAuthority b y)
  | _, _ => false
  end.

(** The checks across records. *)
Definition journal_ok (nextId : Z) (records : list MutationRecord) : bool :=
  forallb (λ r, (mid r <? nextId)%Z) records && no_clash same_id records && no_clash active_twice records &&
  no_clash container_clash records && no_clash flag_clash records.

Definition parse_document (document : json) : parsed (Z * list MutationRecord) :=
  require is_object document in
  let? schema := unsigned_field "schema_version" document in
  require bool_decide (schema = kSchemaVersion) || bool_decide (schema = 2%Z) in
  let? nextId := unsigned_field "next_id" document in
  let? items := array_field "records" document in
  let? records := get_all deserializeRecord items in
  require journal_ok nextId records in
  Accepted (nextId, records).
