(* ===== verification/CodecFacts.v ===== *)
(** What the journal writes is what it reads: the round trip of every payload
    kind, of records and of the document, and what the reader accepts. *)

From S2P Require Import Prelude PolicyModel AtomicWriter Json JsonRead OwnershipGrammar MutationRecord MutationValid MutationCodec.
Open Scope string_scope.
Open Scope nat_scope.

(** * What the reader demands of a record *)

Definition snapshot_loadable (o : option AtomicTargetState) : bool :=
  match o with
  | None => true
  | Some s => (mode s <=? 4095)%Z && (owner s <=? uid_max)%Z && (group s <=? uid_max)%Z &&
              (Z.of_nat (String.length (content s)) <=? snapshot_limit)%Z
  end.

Definition sysctl_loadable (x : SysctlSettingState) : bool :=
  sysctl_transition_ok x &&
  match sys_release x with
  | Some r => snapshot_loadable (rel_before r) && snapshot_loadable (rel_target r) && snapshot_loadable (rel_prepared r)
  | None => true
  end.

Definition payload_loadable (u : UndoAction) : bool :=
  let under b := bool_decide (backend u = b) in
  match payload u with
  | PSetting p =>
      (under Sysctl || under Sudo) &&
      match set_sysctl p with Some x => under Sysctl && sysctl_loadable x | None => true end &&
      negb (is_empty (set_key p)) && negb (under Sudo && is_empty (set_appliedValue p))
  | PSudoGlobal p => under Sudo && validateSudoGlobalDefaultPayload p
  | PSudoScoped p => under Sudo && validateSudoScopedDefaultsUndoPayload p
  | PSudoAuth p => under Sudo && validateSudoAuthenticationPayload p
  | PUserCreation p => under UserCreation && validateUserCreationUndoPayload p
  | PFirewall p => under Firewall && negb (is_empty (fw_policyName p))
  | PGrub p => under Grub && validateGrubUndoPayload p
  | PSssd p => under Sssd && validateSssdUndoPayload p
  | PKerberos p => under Kerberos && validateKerberosUndoPayload p
  | PCapability p => under Pam && validatePamUndoPayload p
  | PEntry p => under Pam && validatePamProviderManagedEntryUndoPayload p
  | PFlag p => under Pam && validatePamProviderManagedFlagUndoPayload p
  | PContainer p => under Pam && validatePamProviderContainerUndoPayload p
  | PLoginDefs p => under IdentityLoginDefs && validateIdentityLoginDefsUndoPayload p
  | PScope p => under Scope && validScopeCheckpoint p
  | PScalar p => under Desktop
  | PArtifact p => under Desktop
  | PDm p => under DisplayManager && bool_decide (dm_route p = 0%Z)
  end.

Definition record_loadable (r : MutationRecord) : bool :=
  negb (is_empty (moduleName (policy r))) && negb (is_empty (policyName (policy r))) && payload_loadable (undo r) &&
  validateSudoGlobalRecord r && identity_matches r && validSshRecord r && validSysctlRecord r && desktop_ok r &&
  scope_ok r && dm_ok r.

(** The ranges of the C++ integer types. *)
Definition u64 (z : Z) : Prop := (0 ≤ z < 2 ^ 64)%Z.
Definition u32 (z : Z) : Prop := (0 ≤ z < 2 ^ 32)%Z.
Definition i64 (z : Z) : Prop := (- 2 ^ 63 ≤ z < 2 ^ 63)%Z.

Definition identity_range (i : AtomicTargetIdentity) : Prop := (device i < 2 ^ 64)%N ∧ (inode i < 2 ^ 64)%N.
Definition snapshot_range (o : option AtomicTargetState) : Prop :=
  ∀ s, o = Some s → identity_range (identity s) ∧ u32 (mode s) ∧ u32 (owner s) ∧ u32 (group s).
Definition sysctl_range (x : SysctlSettingState) : Prop :=
  u32 (sys_version x) ∧ u64 (sys_legacyContainerOrigin x) ∧ (∀ i, sys_containerIdentity x = Some i → identity_range i) ∧
  ∀ r, sys_release x = Some r →
    u32 (rel_version r) ∧ snapshot_range (rel_before r) ∧ snapshot_range (rel_target r) ∧ snapshot_range (rel_prepared r).

Definition payload_range (p : UndoPayload) : Prop :=
  match p with
  | PSetting s => ∀ x, set_sysctl s = Some x → sysctl_range x
  | PArtifact a => u64 (da_device a) ∧ u64 (da_inode a)
  | PDm d => u32 (dm_route d) ∧ u64 (dm_creationDevice d) ∧ u64 (dm_creationInode d)
  | _ => True
  end.

Definition record_range (r : MutationRecord) : Prop :=
  u64 (mid r) ∧ payload_range (payload (undo r)) ∧ i64 (createdAtEpoch r) ∧ i64 (updatedAtEpoch r).

(** * Round trips of the parts *)

Ltac use_checks := repeat match goal with
  | H : _ && _ = true |- _ => apply andb_true_iff in H as [? ?]
  | H : bool_decide _ = true |- _ => apply bool_decide_eq_true in H
  end.
Ltac rewrite_checks := repeat match goal with
  | H : ?b = true |- context [?b] => rewrite H
  end.

Lemma snapshot_roundtrip o : snapshot_loadable o = true → readSysctlSnapshot (sysctlSnapshot o) = Accepted o.
Proof.
  destruct o as [[[dev ino] text m o g]|]; [|done]. simpl. intros H. unfold at_unsigned. use_checks.
  read_obj. rewrite_checks. simpl. rewrite_checks. simpl. by rewrite !N2Z.id.
Qed.

Lemma get_u32_roundtrip z : u32 z → get_u32 (JUnsigned z) = Accepted z.
Proof. intros Hz. unfold get_u32. simpl. by rewrite Z.mod_small. Qed.
Lemma get_u64_roundtrip z : u64 z → get_u64 (JUnsigned z) = Accepted z.
Proof. intros Hz. unfold get_u64. simpl. by rewrite Z.mod_small. Qed.

Lemma release_roundtrip r : u32 (rel_version r) →
  snapshot_loadable (rel_before r) = true → snapshot_loadable (rel_target r) = true → snapshot_loadable (rel_prepared r) = true →
  read_release (json_of_release r) = Accepted r.
Proof.
  intros Hv ???. unfold read_release, json_of_release. read_obj.
  rewrite get_u32_roundtrip, !snapshot_roundtrip by done. cbn [pbind]. by destruct r.
Qed.

Lemma identity_roundtrip o : read_container_identity (json_of_identity o) = Accepted o.
Proof. destruct o as [[dev ino]|]; [|done]. simpl. unfold at_unsigned. read_obj. simpl. by rewrite !N2Z.id. Qed.

Lemma sysctl_roundtrip x : sysctl_range x → sysctl_loadable x = true → read_sysctl (json_of_sysctl x) = Accepted x.
Proof.
  intros (Hv & Ho & Hi & Hr) H. unfold sysctl_loadable in H. use_checks.
  unfold read_sysctl, json_of_sysctl, at_unsigned. destruct x as [version created container origin pending applied legacy attempted target release].
  simpl in * |-. cbn [sys_version sys_containerCreated sys_containerIdentity sys_legacyContainerOrigin sys_pending sys_hadApplied
    sys_previousLegacy sys_attempted sys_targetValue sys_release app].
  assert (∀ rel, sysctl_transition_ok (mkSysctl version created container origin pending applied legacy attempted target rel) = true)
    as Hok by done.
  destruct release as [r|]; read_obj; rewrite get_u32_roundtrip, get_u64_roundtrip by done; cbn [pbind];
    rewrite identity_roundtrip; cbn [pbind]; rewrite Hok; cbn [pbind]; [|done].
  destruct (Hr r eq_refl) as [? _]. use_checks. by rewrite release_roundtrip.
Qed.

Lemma get_all_roundtrip {A} (write : A → json) (read : json → parsed A) l :
  (∀ a, a ∈ l → read (write a) = Accepted a) → get_all read (write <$> l) = Accepted l.
Proof.
  induction l as [|a l IH]; intros H; [done|]. rewrite fmap_cons. cbn [get_all]. rewrite H by set_solver. cbn [pbind].
  rewrite IH by set_solver. done.
Qed.

Lemma forallb_elem {A} (f : A → bool) l x : forallb f l = true → x ∈ l → f x = true.
Proof. rewrite forallb_forall. intros H Hx. by apply H, list_elem_of_In. Qed.

Lemma owner_roundtrip o : read_owner (json_of_owner o) = Accepted o.
Proof. unfold read_owner, json_of_owner. read_obj. by destruct o. Qed.
Lemma auth_proof_roundtrip p : read_auth_proof (json_of_auth_proof p) = Accepted p.
Proof. unfold read_auth_proof, json_of_auth_proof. read_obj. by destruct p. Qed.
Lemma scoped_proof_roundtrip p : validateSudoScopedDefaultsProof p = true → read_scoped_proof (json_of_scoped_proof p) = Accepted p.
Proof. intros H. unfold read_scoped_proof, json_of_scoped_proof. read_obj. simpl. destruct p. simpl in *. by rewrite H. Qed.

Lemma all_distinct_cons seen l :
  all_distinct seen l = true ↔ NoDup l ∧ ∀ x, x ∈ l → x ∉ seen.
Proof.
  revert seen. induction l as [|x l IH]; intros seen; simpl.
  - split; [intros _; split; [constructor|set_solver]|done].
  - rewrite andb_true_iff, IH, negb_true_iff, bool_decide_eq_false, NoDup_cons. set_solver.
Qed.

Lemma assignment_items_roundtrip seen allowed l :
  forallb (valid_assignment allowed) l = true → all_distinct seen (as_key <$> l) = true →
  (∀ k, k ∈ allowed → k ≠ "" ∧ free_of [cr; lf] k = true) →
  read_assignment_items seen (json_of_assignment <$> l) = Accepted l.
Proof.
  revert seen. induction l as [|a l IH]; intros seen Hv Hd Hk; [done|]. rewrite fmap_cons.
  change (as_key <$> a :: l) with (as_key a :: (as_key <$> l)) in Hd.
  cbn [forallb] in Hv. cbn [all_distinct] in Hd. use_checks. unfold valid_assignment in *. use_checks.
  destruct (Hk (as_key a) ltac:(done)) as [Hne Hf]. cbn [read_assignment_items]. unfold json_of_assignment at 1 2 3.
  read_obj. cbn [is_object obj pbind]. unfold lineFreeOfControlCharacters in *. use_checks.
  assert (is_empty (as_key a) = false) as -> by (unfold is_empty; by apply String.eqb_neq).
  rewrite_checks. cbn [negb andb pbind]. rewrite IH by done. cbn [pbind]. by destruct a.
Qed.

Lemma user_creation_allowed name kind allowed k :
  user_creation_keys name kind = Some allowed → k ∈ allowed → k ≠ "" ∧ free_of [cr; lf] k = true.
Proof.
  unfold user_creation_keys. intros H.
  repeat (destruct (String.eqb name _) in H; [|]); try case_bool_decide; try destruct kind; try discriminate H;
    injection H as <-; set_unfold; naive_solver.
Qed.

(** * Round trips of the payloads *)

(** The object of an action: two members every kind has, then its own. *)
Definition action_object (a b : json) (p : UndoPayload) : json := obj (("action", a) :: ("backend", b) :: payload_members p).

#[local] Arguments validateSudoGlobalDefaultPayload : simpl never.
#[local] Arguments validateSudoScopedDefaultsUndoPayload : simpl never.
#[local] Arguments validateSudoAuthenticationPayload : simpl never.
#[local] Arguments validateUserCreationUndoPayload : simpl never.
#[local] Arguments validateGrubUndoPayload : simpl never.
#[local] Arguments validateSssdUndoPayload : simpl never.
#[local] Arguments validateKerberosUndoPayload : simpl never.
#[local] Arguments validatePamUndoPayload : simpl never.
#[local] Arguments validatePamProviderManagedEntryUndoPayload : simpl never.
#[local] Arguments validatePamProviderManagedFlagUndoPayload : simpl never.
#[local] Arguments validatePamProviderContainerUndoPayload : simpl never.
#[local] Arguments validateIdentityLoginDefsUndoPayload : simpl never.
#[local] Arguments validScopeCheckpoint : simpl never.

Section kinds.
Context (a b : json).

Lemma setting_roundtrip back p : payload_range (PSetting p) → payload_loadable (mkUndo back (PSetting p)) = true →
  read_setting back (action_object a b (PSetting p)) = Accepted (PSetting p).
Proof.
  destruct p as [key applied sysctl]. intros Hr H. unfold payload_loadable in H. simpl in H.
  apply andb_true_iff in H as [H Happlied]. apply andb_true_iff in H as [H Hkey]. apply andb_true_iff in H as [_ Hs].
  unfold read_setting, action_object. destruct sysctl as [x|]; cbn [payload_members set_key set_appliedValue set_sysctl app]; read_obj.
  - use_checks. rewrite bool_decide_true by done. cbn [pbind]. rewrite sysctl_roundtrip by auto. cbn [pbind]. by rewrite Hkey, Happlied.
  - by rewrite Hkey, Happlied.
Qed.

Lemma sudo_global_roundtrip p : validateSudoGlobalDefaultPayload p = true →
  read_sudo_global (action_object a b (PSudoGlobal p)) = Accepted (PSudoGlobal p).
Proof. intros H. unfold read_sudo_global, action_object, payload_members. read_obj. destruct p. simpl in *. by rewrite H. Qed.

Lemma sudo_scoped_roundtrip p : validateSudoScopedDefaultsUndoPayload p = true →
  read_sudo_scoped (action_object a b (PSudoScoped p)) = Accepted (PSudoScoped p).
Proof.
  intros H. unfold read_sudo_scoped, read_scoped_proofs, action_object, payload_members. read_obj.
  pose proof H as H'. unfold validateSudoScopedDefaultsUndoPayload, validateProofSetUnique in H'. use_checks.
  rewrite !get_all_roundtrip.
  - cbn [pbind]. destruct p. simpl in *. by rewrite H.
  - intros q Hq. apply scoped_proof_roundtrip. eapply forallb_elem; [|exact Hq]; done.
  - intros q Hq. apply scoped_proof_roundtrip. eapply forallb_elem; [|exact Hq]; done.
Qed.

Lemma sudo_auth_roundtrip p : validateSudoAuthenticationPayload p = true →
  read_sudo_auth (action_object a b (PSudoAuth p)) = Accepted (PSudoAuth p).
Proof.
  intros H. unfold read_sudo_auth, read_auth_proofs, action_object, payload_members. read_obj.
  rewrite !get_all_roundtrip by (intros; apply auth_proof_roundtrip). cbn [pbind]. destruct p. simpl in *. by rewrite H.
Qed.

Lemma assignments_roundtrip name kind allowed l empty l0 key :
  user_creation_keys name kind = Some allowed → valid_assignments name kind allowed l empty = true → l ≠ [] →
  last_member key None l0 = Some (JArray (json_of_assignment <$> l)) →
  readAssignments key (obj l0) = Accepted l.
Proof.
  intros Hk H Hne Hl. unfold readAssignments. read_obj. rewrite Hl. cbn [base.mbind option_bind as_array pbind].
  unfold valid_assignments in H. rewrite bool_decide_false in H by done.
  destruct (forallb _ _ && all_distinct _ _) eqn:Hc; [|done]. use_checks.
  rewrite (assignment_items_roundtrip [] allowed); [|done|done|by intros ? ?; eapply user_creation_allowed]. cbn [pbind].
  by rewrite bool_decide_false.
Qed.

Lemma user_creation_roundtrip p : validateUserCreationUndoPayload p = true →
  read_user_creation (action_object a b (PUserCreation p)) = Accepted (PUserCreation p).
Proof.
  intros H. pose proof (user_creation_kind p H) as Hkind. pose proof H as H'. unfold validateUserCreationUndoPayload in H'.
  destruct (is_empty (uc_policyName p)) eqn:He1, (is_empty (uc_configPath p)) eqn:He2; simpl in H'; try done.
  destruct (is_absolute _); simpl in H'; [|done].
  destruct (user_creation_keys _ _) as [allowed|] eqn:Hk; [|done]. apply andb_true_iff in H' as [Ha Hp].
  unfold read_user_creation, action_object. cbn [payload_members].
  assert (uc_appliedAssignments p ≠ []) as Hne. { intros He. rewrite He in Ha. done. }
  read_obj. rewrite He1, He2.
  replace (if String.eqb (if bool_decide (uc_configKind p = UseraddDefaults) then "useradd_defaults" else "adduser") "useradd_defaults"
    then Accepted UseraddDefaults else _) with (Accepted (uc_configKind p)) by (by destruct (uc_configKind p)).
  cbn [pbind negb andb]. rewrite (assignments_roundtrip _ _ allowed (uc_appliedAssignments p) false _ _ Hk Ha Hne) by reflexivity. cbn [pbind].
  rewrite length_fmap. destruct (uc_previousAppliedAssignments p) as [|x l] eqn:Hl.
  - cbn [length pbind]. rewrite bool_decide_true by done. cbn [pbind]. destruct p. simpl in Hl. subst. simpl in *. by rewrite H.
  - rewrite bool_decide_false by (simpl; lia). rewrite <-Hl in Hp |- *.
    rewrite (assignments_roundtrip _ _ allowed (uc_previousAppliedAssignments p) true _ _ Hk Hp); [|by rewrite Hl|reflexivity].
    cbn [pbind]. destruct p. simpl in *. by rewrite H.
Qed.

Lemma login_defs_roundtrip p : validateIdentityLoginDefsUndoPayload p = true →
  read_login_defs (action_object a b (PLoginDefs p)) = Accepted (PLoginDefs p).
Proof. intros H. unfold read_login_defs, action_object, payload_members. read_obj. destruct p. simpl in *. by rewrite H. Qed.

Lemma firewall_roundtrip p : negb (is_empty (fw_policyName p)) = true →
  read_firewall (action_object a b (PFirewall p)) = Accepted (PFirewall p).
Proof. intros H. unfold read_firewall, action_object, payload_members. read_obj. destruct p. simpl in *. by rewrite H. Qed.

Lemma grub_roundtrip p : validateGrubUndoPayload p = true → read_grub (action_object a b (PGrub p)) = Accepted (PGrub p).
Proof. intros H. unfold read_grub, action_object, payload_members. read_obj. destruct p. simpl in *. by rewrite H. Qed.

Lemma sssd_roundtrip p : validateSssdUndoPayload p = true → read_sssd (action_object a b (PSssd p)) = Accepted (PSssd p).
Proof. intros H. unfold read_sssd, action_object, payload_members. read_obj. destruct p. simpl in *. by rewrite H. Qed.

Lemma kerberos_roundtrip p : validateKerberosUndoPayload p = true →
  read_kerberos (action_object a b (PKerberos p)) = Accepted (PKerberos p).
Proof.
  intros H. unfold read_kerberos, action_object, payload_members. read_obj.
  replace (read_before_kind _) with (Accepted (kb_beforeKind p)) by (by destruct (kb_beforeKind p)).
  cbn [pbind]. destruct p. simpl in *. by rewrite H.
Qed.

Lemma capability_roundtrip p : validatePamUndoPayload p = true →
  read_capability (action_object a b (PCapability p)) = Accepted (PCapability p).
Proof.
  intros H. unfold read_capability, action_object, payload_members. read_obj. rewrite !as_optional_joptional. cbn [pbind].
  replace (read_topology _) with (Accepted (pc_topology p)) by (by destruct (pc_topology p)). cbn [pbind].
  unfold all_strings. rewrite mapM_jstrings. cbn [pbind]. destruct p. simpl in *. by rewrite H.
Qed.

Lemma placement_roundtrip x : read_placement (placement_text x) = Accepted x.
Proof. by destruct x. Qed.

Lemma entry_roundtrip p : validatePamProviderManagedEntryUndoPayload p = true →
  read_entry (action_object a b (PEntry p)) = Accepted (PEntry p).
Proof.
  intros H. unfold read_entry, action_object, payload_members. read_obj. rewrite placement_roundtrip. cbn [pbind].
  destruct p. simpl in *. by rewrite H.
Qed.

Lemma flag_roundtrip p : validatePamProviderManagedFlagUndoPayload p = true →
  read_flag (action_object a b (PFlag p)) = Accepted (PFlag p).
Proof.
  intros H. unfold read_flag, action_object, payload_members. read_obj. rewrite placement_roundtrip.
  replace (read_previous_enabled _) with (Accepted (pf_previousAppliedEnabled p))
    by (by destruct (pf_previousAppliedEnabled p) as [[]|]).
  cbn [pbind]. unfold all_strings. rewrite !mapM_jstrings. cbn [pbind]. destruct p. simpl in *. by rewrite H.
Qed.

Lemma container_roundtrip p : validatePamProviderContainerUndoPayload p = true →
  read_container (action_object a b (PContainer p)) = Accepted (PContainer p).
Proof. intros H. unfold read_container, action_object, payload_members. read_obj. destruct p. simpl in *. by rewrite H. Qed.

Lemma scope_roundtrip p : validScopeCheckpoint p = true → read_scope (action_object a b (PScope p)) = Accepted (PScope p).
Proof.
  intros H. unfold read_scope, action_object, payload_members. read_obj.
  change (JArray (JString <$> ?l)) with (jstrings l). rewrite !get_strings_jstrings. cbn [pbind]. destruct p. simpl in *. by rewrite H.
Qed.

Lemma scalar_roundtrip p : read_scalar (action_object a b (PScalar p)) = Accepted (PScalar p).
Proof.
  unfold read_scalar, action_object, payload_members. read_obj. rewrite !as_optional_joptional. cbn [pbind].
  rewrite get_all_roundtrip by (intros; apply owner_roundtrip). by destruct p.
Qed.

Lemma artifact_roundtrip p : read_artifact (action_object a b (PArtifact p)) = Accepted (PArtifact p).
Proof. unfold read_artifact, action_object, payload_members. read_obj. by destruct p. Qed.

Lemma dm_roundtrip p : bool_decide (dm_route p = 0%Z) = true → read_dm (action_object a b (PDm p)) = Accepted (PDm p).
Proof.
  intros H. unfold read_dm, action_object, payload_members. read_obj. rewrite H. cbn [pbind].
  change (JArray (JString <$> ?l)) with (jstrings l). rewrite !get_strings_jstrings. by destruct p.
Qed.
End kinds.

(** * Round trips of actions, records and documents *)

Lemma no_head_members key found p : key = "action" ∨ key = "backend" → last_member key found (payload_members p) = found.
Proof. intros [-> | ->]; destruct p as [[k v [x|]]|p|p|p|p|p|p|p|p|p|p|p|p|p|p|p|p|p]; reflexivity. Qed.

(** The reader of each kind, and the dispatch that finds it. *)
Definition reader (p : UndoPayload) (b : MutationBackend) (v : json) : parsed UndoPayload :=
  match p with
  | PSetting _ => read_setting b v | PSudoGlobal _ => read_sudo_global v | PSudoScoped _ => read_sudo_scoped v
  | PSudoAuth _ => read_sudo_auth v | PUserCreation _ => read_user_creation v | PFirewall _ => read_firewall v
  | PGrub _ => read_grub v | PSssd _ => read_sssd v | PKerberos _ => read_kerberos v | PCapability _ => read_capability v
  | PEntry _ => read_entry v | PFlag _ => read_flag v | PContainer _ => read_container v | PLoginDefs _ => read_login_defs v
  | PScope _ => read_scope v | PScalar _ => read_scalar v | PArtifact _ => read_artifact v | PDm _ => read_dm v
  end.

(** The backends a kind is read under. *)
Definition home (p : UndoPayload) (b : MutationBackend) : bool :=
  match p, b with
  | PSetting _, (Sysctl | Sudo) | PSudoGlobal _, Sudo | PSudoScoped _, Sudo | PSudoAuth _, Sudo
  | PUserCreation _, UserCreation | PFirewall _, Firewall | PGrub _, Grub | PSssd _, Sssd | PKerberos _, Kerberos
  | PCapability _, Pam | PEntry _, Pam | PFlag _, Pam | PContainer _, Pam | PLoginDefs _, IdentityLoginDefs
  | PScope _, Scope | PScalar _, Desktop | PArtifact _, Desktop | PDm _, DisplayManager => true
  | _, _ => false
  end.

Lemma loadable_home u : payload_loadable u = true → home (payload u) (backend u) = true.
Proof. destruct u as [b p]. unfold payload_loadable. cbn [payload backend]. by destruct p, b. Qed.

Lemma read_payload_home p b v : home p b = true → read_payload (undoActionTypeName (mkUndo b p)) b v = reader p b v.
Proof. by destruct p, b. Qed.

Lemma reader_roundtrip a x u : payload_range (payload u) → payload_loadable u = true →
  reader (payload u) (backend u) (action_object a x (payload u)) = Accepted (payload u).
Proof.
  intros Hr H. destruct u as [b p]. cbn [payload backend] in *.
  destruct p as [q|q|q|q|q|q|q|q|q|q|q|q|q|q|q|q|q|q]; cbn [reader]; [by apply setting_roundtrip|..];
    unfold payload_loadable in H; cbn [payload backend] in H;
    try (apply andb_true_iff in H as [_ H]).
  - by apply sudo_global_roundtrip.
  - by apply sudo_scoped_roundtrip.
  - by apply sudo_auth_roundtrip.
  - by apply user_creation_roundtrip.
  - by apply firewall_roundtrip.
  - by apply grub_roundtrip.
  - by apply sssd_roundtrip.
  - by apply kerberos_roundtrip.
  - by apply capability_roundtrip.
  - by apply entry_roundtrip.
  - by apply flag_roundtrip.
  - by apply container_roundtrip.
  - by apply login_defs_roundtrip.
  - by apply scope_roundtrip.
  - apply scalar_roundtrip.
  - apply artifact_roundtrip.
  - by apply dm_roundtrip.
Qed.

Lemma undo_roundtrip u : payload_range (payload u) → payload_loadable u = true →
  deserializeUndoAction (serializeUndoAction u) = Accepted u.
Proof.
  intros Hr H. unfold deserializeUndoAction, serializeUndoAction. read_obj. rewrite !no_head_members by auto. cbn [get_string pbind].
  rewrite backend_text_roundtrip. destruct u as [b p].
  rewrite read_payload_home by (by apply (loadable_home (mkUndo b p))).
  change (obj (_ :: _ :: payload_members _)) with
    (action_object (JString (undoActionTypeName (mkUndo b p))) (JString (mutationBackendToString b)) p).
  by rewrite (reader_roundtrip _ _ (mkUndo b p)).
Qed.

(** The tests on a record ignore its time stamps and message; with the status
    still unset they ask no more. *)
Lemma scope_ok_fresh r : scope_ok r = true → scope_ok (with_status Prepared r) = true.
Proof.
  unfold scope_ok. destruct r as [i pol res u st c up e]. cbn [with_status undo]. rewrite !orb_true_iff. intros [H|H]; [by left|right].
  unfold validScopeRecord in *. cbn [with_status undo policy resource status] in *. destruct (payload u); try done.
  apply andb_true_iff in H as [H _]. apply andb_true_iff. split; [exact H|done].
Qed.

Lemma scope_ok_status r : scope_ok r = true → scope_status_ok r = true.
Proof. unfold scope_ok, scope_status_ok. destruct (bool_decide _); [|done]. by destruct (is_scope _). Qed.

Lemma scope_status_home r : payload_loadable (undo r) = true → scope_status_ok r = true → scope_ok r = true.
Proof.
  unfold scope_ok, scope_status_ok. intros Hh%loadable_home. destruct (bool_decide (backend (undo r) = Scope)) eqn:Hb; [done|].
  apply bool_decide_eq_false in Hb. by destruct (payload (undo r)), (backend (undo r)).
Qed.

Lemma record_roundtrip r : record_range r → record_loadable r = true → deserializeRecord (serializeRecord r) = Accepted r.
Proof.
  intros (Hid & Hp & Hc & Hu) H. unfold record_loadable in H. use_checks.
  unfold deserializeRecord, serializeRecord. rewrite is_object_obj. cbn [pbind]. unfold json_of_owner. read_obj.
  rewrite as_object_obj. cbn [pbind]. read_obj. rewrite_checks. cbn [andb pbind].
  assert (as_object (serializeUndoAction (undo r)) = Some (serializeUndoAction (undo r))) as -> by apply as_object_obj.
  cbn [pbind]. rewrite undo_roundtrip by done. cbn [pbind]. cbv zeta beta.
  destruct r as [i [m s n] res u st created updated err]. cbn [mid policy moduleName submoduleName policyName resource undo status
    createdAtEpoch updatedAtEpoch merror] in *.
  assert (scope_ok (mkRecord i (mkRef m s n) res u Prepared 0 0 "") = true) as ->.
  { change (scope_ok (with_status Prepared (mkRecord i (mkRef m s n) res u st 0 0 "")) = true). by apply scope_ok_fresh. }
  change (validateSudoGlobalRecord (mkRecord i (mkRef m s n) res u Prepared 0 0 "")) with
    (validateSudoGlobalRecord (mkRecord i (mkRef m s n) res u st created updated err)).
  change (identity_matches (mkRecord i (mkRef m s n) res u Prepared 0 0 "")) with
    (identity_matches (mkRecord i (mkRef m s n) res u st created updated err)).
  assert (∀ v, pam_backend_named (obj (("id", v) :: ("policy", json_of_owner (mkRef m s n)) :: ("resource", JString res) ::
    ("backend", JString (mutationBackendToString (backend u))) :: ("status", JString (mutationStatusToString st)) ::
    ("undo", serializeUndoAction u) :: ("created_at_epoch", jsigned created) :: ("updated_at_epoch", jsigned updated) ::
    [("error", JString err)])) u = true) as Hn.
  { intros v. unfold pam_backend_named. by destruct (backend u), (payload u). }
  unfold json_of_owner in Hn. cbn [moduleName submoduleName policyName] in Hn. rewrite Hn. rewrite_checks. cbn [andb pbind].
  rewrite status_text_roundtrip.
  change (validSshRecord (mkRecord i (mkRef m s n) res u st 0 0 "")) with (validSshRecord (mkRecord i (mkRef m s n) res u st created updated err)).
  change (validSysctlRecord (mkRecord i (mkRef m s n) res u st 0 0 "")) with (validSysctlRecord (mkRecord i (mkRef m s n) res u st created updated err)).
  change (desktop_ok (mkRecord i (mkRef m s n) res u st 0 0 "")) with (desktop_ok (mkRecord i (mkRef m s n) res u st created updated err)).
  rewrite (scope_ok_status (mkRecord i (mkRef m s n) res u st 0 0 "")) by done.
  change (dm_ok (mkRecord i (mkRef m s n) res u st 0 0 "")) with (dm_ok (mkRecord i (mkRef m s n) res u st created updated err)).
  rewrite_checks. cbn [andb pbind]. rewrite !get_i64_jsigned by done. done.
Qed.

Lemma journal_document_roundtrip nextId records :
  Forall record_range records → forallb record_loadable records = true → journal_ok nextId records = true →
  parse_document (journal_document nextId records) = Accepted (nextId, records).
Proof.
  intros Hr Hl Hok. unfold parse_document, journal_document. rewrite is_object_obj. cbn [pbind]. read_obj.
  rewrite bool_decide_true by done. cbn [orb pbind]. rewrite get_all_roundtrip.
  - cbn [pbind]. by rewrite Hok.
  - intros r Hin. rewrite Forall_forall in Hr. apply record_roundtrip; [by apply Hr|by eapply forallb_elem].
Qed.

(** * What the reader accepts *)

Lemma readAssignments_inv key v l : readAssignments key v = Accepted l → l ≠ [].
Proof. unfold readAssignments. intros H. inv_read H. injection H as <-. by apply negb_true_iff, bool_decide_eq_false in Heqb. Qed.

Lemma snapshot_inv j o : readSysctlSnapshot j = Accepted o → snapshot_loadable o = true.
Proof.
  unfold readSysctlSnapshot. destruct j; intros H; inv_read H; try discriminate H; try (by injection H as <-).
  all: match type of H with match ?c with _ => _ end = _ => destruct c; try discriminate H end.
  all: inv_read H; injection H as <-; simpl; by rewrite_checks.
Qed.

Lemma sysctl_inv j x : read_sysctl j = Accepted x → sysctl_loadable x = true.
Proof.
  unfold read_sysctl. intros H. inv_read H. unfold sysctl_loadable. destruct (Json.find "release" j) as [rj|].
  - inv_read H. injection H as <-. unfold sysctl_transition_ok in *. cbn [sys_version sys_containerCreated sys_containerIdentity
      sys_legacyContainerOrigin sys_pending sys_hadApplied sys_previousLegacy sys_attempted sys_targetValue sys_release] in *. rewrite_checks. cbn [andb].
    match goal with Hr : read_release rj = Accepted ?r |- _ => unfold read_release in Hr; inv_read Hr; injection Hr as <- end.
    repeat match goal with Hs : (let? v := json_at _ _ in readSysctlSnapshot v) = Accepted _ |- _ =>
      apply pbind_Accepted in Hs as (? & _ & ?%snapshot_inv) end. cbn [rel_before rel_target rel_prepared]. by rewrite_checks.
  - injection H as <-. rewrite_checks. done.
Qed.

(** Inversion of a reader that ends in the check of the payload. *)
Ltac inv_reader H := inv_read H; injection H as <-; unfold payload_loadable; cbn [payload backend]; rewrite ?bool_decide_true by done;
  rewrite_checks; try done.

Lemma reader_inv name b v p : read_payload name b v = Accepted p → payload_loadable (mkUndo b p) = true.
Proof.
  unfold read_payload. intros H.
  repeat match type of H with (if ?c then _ else _) = _ => destruct c eqn:?; [|] end; try discriminate H.
  all: repeat match goal with Hc : _ && _ = true |- _ => apply andb_true_iff in Hc as [_ ?] end.
  all: repeat match goal with Hc : bool_decide _ = true |- _ => apply bool_decide_eq_true in Hc; subst b end.
  - unfold read_artifact in H. inv_reader H.
  - unfold read_scalar in H. inv_reader H.
  - unfold read_dm in H. inv_reader H.
  - unfold read_scope in H. inv_reader H.
  - unfold read_capability in H. inv_reader H.
  - unfold read_sudo_global in H. inv_reader H.
  - unfold read_setting in H. inv_read H. injection H as <-. unfold payload_loadable.
    cbn [payload backend set_sysctl set_key set_appliedValue].
    assert (bool_decide (b = Sysctl) || bool_decide (b = Sudo) = true) as ->.
    { repeat match goal with Hc : _ || _ = true |- _ => apply orb_true_iff in Hc as [Hc|Hc]; apply andb_true_iff in Hc as [_ ->] end; [done|].
      apply orb_true_r. }
    use_checks. rewrite_checks. rewrite !andb_true_r. cbn [andb].
    match goal with Hs : match Json.find _ _ with _ => _ end = Accepted _ |- _ => destruct (Json.find _ _); [|by injection Hs as <-]; inv_read Hs; injection Hs as <- end.
    rewrite_checks. cbn [andb]. by eapply sysctl_inv.
  - unfold read_sudo_auth in H. inv_reader H.
  - unfold read_sudo_scoped in H. inv_reader H.
  - unfold read_user_creation in H. inv_reader H.
  - unfold read_login_defs in H. inv_reader H.
  - unfold read_firewall in H. inv_reader H.
  - unfold read_grub in H. inv_reader H.
  - unfold read_sssd in H. inv_reader H.
  - unfold read_kerberos in H. inv_reader H.
  - unfold read_entry in H. inv_reader H.
  - unfold read_flag in H. inv_reader H.
  - unfold read_container in H. inv_reader H.
Qed.

Lemma undo_inv v u : deserializeUndoAction v = Accepted u → payload_loadable u = true.
Proof.
  unfold deserializeUndoAction. intros H. inv_read H. destruct (mutationBackendFromString _); [|done]. inv_read H.
  injection H as <-. by eapply reader_inv.
Qed.

Lemma record_inv v r : deserializeRecord v = Accepted r → record_loadable r = true.
Proof.
  unfold deserializeRecord. intros H. inv_read H.
  match goal with Hf : scope_ok _ && validateSudoGlobalRecord _ && _ && _ = true |- _ => rename Hf into Hfresh end.
  match type of H with match ?c with _ => _ end = _ => destruct c as [st|] eqn:Hst; [|discriminate H] end.
  match type of H with pbind (if ?c then _ else _) _ = _ => destruct c eqn:Hlate; cbn [pbind] in H; [|discriminate H] end. inv_read H.
  injection H as <-. unfold record_loadable. cbn [policy moduleName policyName undo].
  match goal with Hu : deserializeUndoAction _ = Accepted _ |- _ => rewrite (undo_inv _ _ Hu) end.
  apply andb_true_iff in Hfresh as [[[_ Hsudo]%andb_true_iff Hid]%andb_true_iff _].
  apply andb_true_iff in Hlate as [[[[Hssh Hsys]%andb_true_iff Hdesk]%andb_true_iff Hscope]%andb_true_iff Hdm].
  repeat match goal with Hb : negb (is_empty _) && negb (is_empty _) = true |- _ => apply andb_true_iff in Hb as [-> ->] end. cbn [andb].
  match goal with |- context [scope_ok ?r] => assert (scope_ok r = true) as ->; [apply scope_status_home; [by eapply undo_inv|exact Hscope]|] end.
  rewrite !andb_true_iff. split_and!; assumption || done.
Qed.

Lemma get_all_inv {A} (read : json → parsed A) items l :
  get_all read items = Accepted l → Forall2 (λ item a, read item = Accepted a) items l.
Proof.
  revert l. induction items as [|item items IH]; intros l H; cbn [get_all] in H; [by injection H as <-|].
  inv_read H. injection H as <-. constructor; [done|]. by apply IH.
Qed.

Lemma journal_document_inv v nextId records : parse_document v = Accepted (nextId, records) →
  forallb record_loadable records = true ∧ journal_ok nextId records = true.
Proof.
  unfold parse_document. intros H. inv_read H. injection H as <- <-. split; [|done].
  match goal with Hg : get_all _ _ = Accepted _ |- _ => apply get_all_inv in Hg end.
  apply forallb_forall. intros r Hr%list_elem_of_In.
  apply list_elem_of_lookup in Hr as [i Hi].
  match goal with Hg : Forall2 _ _ _ |- _ => destruct (Forall2_lookup_r _ _ _ _ _ Hg Hi) as (item & _ & Hread) end. by eapply record_inv.
Qed.
