(* ===== verification/CodecText.v ===== *)
(** The text of the journal document: what is written is a value the JSON
    library prints and reads back unchanged, and what is read has the integer
    widths of the C++ types.

    [dump] throws on a string that is not UTF-8; which strings those are is the
    library's ([accepts_string]). A number the library parses is a 64-bit one
    ([JsonParseLaws]). *)

From S2P Require Import Prelude PolicyModel AtomicWriter Json JsonRead OwnershipGrammar MutationRecord MutationValid MutationCodec CodecFacts FileModel AtomicFacts TargetStore.
Open Scope string_scope.
Open Scope nat_scope.

(** * The library *)

Fixpoint json_numbers (j : json) : Prop :=
  match j with
  | JUnsigned n => u64 n
  | JInteger z => i64 z
  | JArray items => foldr (λ i P, json_numbers i ∧ P) True items
  | JObject members => foldr (λ m P, json_numbers m.2 ∧ P) True members
  | _ => True
  end.

Class JsonStrict := { accepts_string : string → bool }.

Class JsonParseLaws `{JsonText} := {
  json_parse_numbers : ∀ s j, json_parse s = Some j → json_numbers j
}.

(** Every string of the value is one [dump] accepts. *)
Fixpoint printable `{JsonStrict} (j : json) : bool :=
  match j with
  | JString s => accepts_string s
  | JArray items => forallb printable items
  | JObject members => forallb (λ m, accepts_string m.1 && printable m.2) members
  | _ => true
  end.

(** [document.dump(2) + "\n"]; [None] when it throws. *)
Definition dump_text `{JsonText} `{JsonStrict} (j : json) : option string :=
  if printable j then Some (json_dump j) else None.

(** * What is written is read back *)

Lemma foldr_and {A} (P : A → Prop) l : foldr (λ x Q, P x ∧ Q) True l ↔ Forall P l.
Proof. induction l as [|x l IH]; simpl; [by split|]. rewrite IH, Forall_cons. done. Qed.

Lemma smap_set_elem k v (m : list (string * json)) kv : kv ∈ smap_set k v m → kv = (k, v) ∨ kv ∈ m.
Proof.
  induction m as [|[k0 v0] m IH]; simpl; [set_solver|]. destruct (String.compare k k0); set_solver.
Qed.

Lemma fields_elem l kv : kv ∈ fields l → kv ∈ l.
Proof.
  unfold fields. enough (∀ m, kv ∈ foldl (λ m kv, smap_set kv.1 kv.2 m) m l → kv ∈ m ∨ kv ∈ l) as H.
  { intros [Hn|?]%H; [by apply not_elem_of_nil in Hn|done]. }
  induction l as [|[k v] l IH]; intros m Hin; simpl in Hin; [by left|].
  apply IH in Hin as [Hin|Hin]; [|right; by right]. apply smap_set_elem in Hin as [->|Hin]; [right; by left|by left].
Qed.

Lemma plain_obj l : Forall (λ kv, plain_json kv.2) l → plain_json (obj l).
Proof.
  intros H. unfold obj. cbn [plain_json]. split; [apply fields_sorted|]. apply (foldr_and (λ kv, plain_json kv.2)).
  rewrite Forall_forall in H |- *. intros kv Hkv. by apply H, fields_elem.
Qed.

Lemma plain_array {A} (f : A → json) l : (∀ x, x ∈ l → plain_json (f x)) → plain_json (JArray (f <$> l)).
Proof. intros H. cbn [plain_json]. apply foldr_and, Forall_fmap, Forall_forall. done. Qed.

Lemma plain_jstrings l : plain_json (jstrings l).
Proof. by apply plain_array. Qed.
Lemma plain_joptional o : plain_json (joptional o).
Proof. by destruct o. Qed.
Lemma plain_jsigned z : i64 z → plain_json (jsigned z).
Proof. unfold i64, jsigned. intros Hz. destruct (Z.leb_spec 0 z); simpl; lia. Qed.
Lemma plain_junsigned n : (n < 2 ^ 64)%N → plain_json (junsigned n).
Proof. intros Hn. simpl. change (2 ^ 64)%Z with (Z.of_N (2 ^ 64)). lia. Qed.
Lemma plain_u64 z : u64 z → plain_json (JUnsigned z).
Proof. done. Qed.
Lemma plain_u32 z : u32 z → plain_json (JUnsigned z).
Proof. unfold u32. simpl. lia. Qed.
#[local] Hint Resolve plain_jstrings plain_joptional plain_jsigned plain_junsigned plain_u64 plain_u32 : plain.

Ltac plain_members := apply plain_obj; repeat (apply Forall_cons; split); cbn [snd]; auto with plain; try exact I; try apply Forall_nil; try done.

Lemma plain_snapshot o : snapshot_range o → plain_json (sysctlSnapshot o).
Proof. destruct o as [s|]; [|done]. intros H. destruct (H s eq_refl) as ((?&?)&?&?&?). plain_members. Qed.

Lemma plain_sysctl x : sysctl_range x → plain_json (json_of_sysctl x).
Proof.
  intros (Hv & Ho & Hi & Hr). unfold json_of_sysctl.
  assert (plain_json (json_of_identity (sys_containerIdentity x))) as Hident.
  { destruct (sys_containerIdentity x) as [i|]; [|done]. destruct (Hi i eq_refl). plain_members. }
  destruct (sys_release x) as [r|]; cbn [app]; plain_members.
  destruct (Hr r eq_refl) as (?&?&?&?). plain_members; by apply plain_snapshot.
Qed.

Lemma plain_undo u : payload_range (payload u) → plain_json (serializeUndoAction u).
Proof.
  destruct u as [b p]. intros H. unfold serializeUndoAction. cbn [payload backend] in *.
  destruct p as [[k v [x|]]|q|q|q|q|q|q|q|q|q|q|q|q|q|q|q|q|q]; cbn [payload_members set_key set_appliedValue set_sysctl app];
    cbn [payload_range] in H; try (plain_members; fail).
  - plain_members. apply plain_sysctl. by apply H.
  - plain_members; apply plain_array; intros; plain_members.
  - plain_members; apply plain_array; intros; plain_members.
  - plain_members; apply plain_array; intros; plain_members.
  - plain_members; apply plain_array; intros; plain_members.
  - destruct H. plain_members.
  - destruct H as (?&?&?). plain_members.
Qed.

Lemma plain_document nextId records : u64 nextId → Forall record_range records → plain_json (journal_document nextId records).
Proof.
  intros Hn Hr. unfold journal_document. plain_members. apply plain_array. intros r Hin.
  rewrite Forall_forall in Hr. destruct (Hr r Hin) as (?&?&?&?). unfold serializeRecord. plain_members; [plain_members|by apply plain_undo].
Qed.

(** A journal whose records and numbers the reader accepts is what reading its
    text returns. *)
Lemma text_roundtrip `{JsonTextLaws} `{JsonStrict} nextId records text :
  u64 nextId → Forall record_range records → forallb record_loadable records = true → journal_ok nextId records = true →
  dump_text (journal_document nextId records) = Some text →
  ∃ document, json_parse text = Some document ∧ parse_document document = Accepted (nextId, records).
Proof.
  unfold dump_text. intros Hn Hr Hl Hok Hd. destruct (printable _); [|done]. injection Hd as <-.
  exists (journal_document nextId records). split; [by apply json_roundtrip, plain_document|by apply journal_document_roundtrip].
Qed.

(** * What is read has the widths of the types *)

Lemma member_numbers key members v : foldr (λ m P, json_numbers m.2 ∧ P) True members → member key members = Some v → json_numbers v.
Proof.
  induction members as [|[k w] members IH]; simpl; [done|]. intros [Hw Hrest]. destruct (String.eqb k key); [intros [= <-]; done|auto].
Qed.

Lemma find_numbers key j v : json_numbers j → Json.find key j = Some v → json_numbers v.
Proof. destruct j; try done. apply member_numbers. Qed.

Lemma at_numbers key j v : json_numbers j → json_at key j = Accepted v → json_numbers v.
Proof. unfold json_at. destruct (Json.find key j) eqn:Hf; [|done]. intros Hj [= <-]. by eapply find_numbers. Qed.

Lemma unsigned_numbers key j n : json_numbers j → unsigned_field key j = Accepted n → u64 n.
Proof.
  unfold unsigned_field, field. intros Hj. destruct (Json.find key j) as [v|] eqn:Hf; [|done]. destruct v; try done.
  intros [= <-]. by apply (find_numbers _ _ _ Hj Hf).
Qed.

Lemma at_unsigned_numbers key j n : json_numbers j → at_unsigned key j = Accepted n → u64 n.
Proof.
  unfold at_unsigned. intros Hj H. inv_read H. pose proof (at_numbers _ _ _ Hj Heqp) as Hv. destruct a; try done. by injection H as <-.
Qed.

Lemma u64_identity dev ino : u64 dev → u64 ino → identity_range (mkIdentity (Z.to_N dev) (Z.to_N ino)).
Proof. unfold u64, identity_range. simpl. change (2 ^ 64)%Z with (Z.of_N (2 ^ 64)). lia. Qed.

Lemma get_u32_range j n : get_u32 j = Accepted n → u32 n.
Proof.
  unfold get_u32, u32. destruct j; simpl; try done; intros [= <-]; try (apply Z.mod_pos_bound; lia).
  by destruct b.
Qed.
Lemma get_u64_range j n : get_u64 j = Accepted n → u64 n.
Proof. unfold get_u64, u64. destruct (number j); [|done]. intros [= <-]. apply Z.mod_pos_bound. lia. Qed.
Lemma value_i64_range key j n : value_i64 key j = Accepted n → i64 n.
Proof.
  unfold value_i64, value_or, get_i64, i64, signed64. destruct j; try done. destruct (member _ _) as [v|]; [|intros [= <-]; lia].
  destruct (number v) as [z|]; [|done]. intros [= <-]. pose proof (Z.mod_pos_bound (z + 2 ^ 63) (2 ^ 64) ltac:(lia)). lia.
Qed.

Lemma snapshot_numbers j o : json_numbers j → readSysctlSnapshot j = Accepted o → snapshot_range o.
Proof.
  intros Hj H. assert (o = None ∨ snapshot_range o) as [-> |?]; [|done..]. unfold readSysctlSnapshot in H.
  destruct j; try (injection H as <-; by left); right; inv_read H;
    try match type of H with match ?c with _ => _ end = _ => destruct c; try discriminate H end; inv_read H; injection H as <-;
    intros ? [= <-]; repeat match goal with Ha : at_unsigned _ _ = Accepted _ |- _ => apply (at_unsigned_numbers _ _ _ Hj) in Ha end;
    unfold u64, u32, uid_max in *; use_checks;
    repeat match goal with Hb : (_ <=? _)%Z = true |- _ => apply Z.leb_le in Hb end;
    (refine (conj _ (conj _ (conj _ _))); [by apply u64_identity|cbn [mode owner group]; lia..]).
Qed.

Lemma release_numbers j r : json_numbers j → read_release j = Accepted r →
  u32 (rel_version r) ∧ snapshot_range (rel_before r) ∧ snapshot_range (rel_target r) ∧ snapshot_range (rel_prepared r).
Proof.
  intros Hj H. unfold read_release in H. inv_read H. injection H as <-. cbn [rel_version rel_before rel_target rel_prepared].
  repeat match goal with Hs : (let? v := json_at _ _ in _ v) = Accepted _ |- _ => apply pbind_Accepted in Hs as (? & ?%at_numbers & Hs); [|done] end.
  refine (conj _ (conj _ (conj _ _))); [by eapply get_u32_range|(eapply snapshot_numbers; [|eassumption]; done)..].
Qed.

Lemma sysctl_numbers j x : json_numbers j → read_sysctl j = Accepted x → sysctl_range x.
Proof.
  intros Hj H. unfold read_sysctl in H. inv_read H.
  repeat match goal with Hs : (let? v := json_at _ _ in _ v) = Accepted _ |- _ => apply pbind_Accepted in Hs as (? & ? & Hs) end.
  match goal with Hc : read_container_identity ?a = Accepted ?c, Ha : json_at _ j = Accepted ?a |- _ =>
    assert (∀ i, c = Some i → identity_range i) as Hcont; [pose proof (at_numbers _ _ _ Hj Ha) as Hai|] end.
  { intros i ->. unfold read_container_identity in *.
    match goal with Hc : _ = Accepted (Some i) |- _ => destruct a7; try discriminate Hc; inv_read Hc; injection Hc as <- end;
      apply u64_identity; (eapply at_unsigned_numbers; [|eassumption]; done). }
  destruct (Json.find "release" j) as [rj|] eqn:Hf; [inv_read H|]; injection H as <-;
    (unfold sysctl_range; cbn [sys_version sys_legacyContainerOrigin sys_containerIdentity sys_release]; refine (conj _ (conj _ (conj _ _)));
      [by eapply get_u32_range|by eapply get_u64_range|done|]); [|done].
  intros r [= <-]. eapply release_numbers; [|eassumption]. by eapply find_numbers.
Qed.

Lemma payload_numbers name b v p : json_numbers v → read_payload name b v = Accepted p → payload_range p.
Proof.
  intros Hv H. unfold read_payload in H.
  repeat match type of H with (if ?c then _ else _) = _ => destruct c eqn:?; [|] end; try discriminate H.
  1: { unfold read_artifact in H. inv_read H. injection H as <-. split; (eapply unsigned_numbers; [|eassumption]; done). }
  2: { unfold read_dm in H. inv_read H. injection H as <-. cbn [payload_range dm_route dm_creationDevice dm_creationInode].
       refine (conj _ (conj _ _)); [by use_checks; subst|(eapply unsigned_numbers; [|eassumption]; done)..]. }
  5: { unfold read_setting in H. inv_read H. injection H as <-. cbn [payload_range set_sysctl].
       destruct (Json.find "sysctl" v) as [j|] eqn:Hf;
         match goal with Hs : _ = Accepted ?o |- ∀ x, ?o = Some x → _ => inv_read Hs; injection Hs as <- end; [|done].
       intros x [= <-]. eapply sysctl_numbers; [|eassumption]. by eapply find_numbers. }
  all: unfold read_scalar, read_scope, read_capability, read_sudo_global, read_sudo_auth, read_sudo_scoped, read_user_creation,
    read_login_defs, read_firewall, read_grub, read_sssd, read_kerberos, read_entry, read_flag, read_container in H;
    inv_read H; injection H as <-; exact I.
Qed.

Lemma record_numbers v r : json_numbers v → deserializeRecord v = Accepted r → record_range r.
Proof.
  intros Hv H. unfold deserializeRecord in H. inv_read H.
  match type of H with match ?c with _ => _ end = _ => destruct c as [st|]; [|discriminate H] end. inv_read H. injection H as <-.
  refine (conj _ (conj _ (conj _ _))); cbn [mid undo createdAtEpoch updatedAtEpoch]; [eapply unsigned_numbers; [|eassumption]; done| |by eapply value_i64_range..].
  match goal with Hu : deserializeUndoAction ?j = Accepted _, Hf : object_field _ v = Accepted ?j |- _ =>
    unfold deserializeUndoAction in Hu; inv_read Hu; unfold object_field, field in Hf; rename Hu into Hundo, Hf into Hfield end.
  destruct (Json.find "undo" v) as [j|] eqn:Hj; [|done]. destruct j; try done. injection Hfield as <-.
  destruct (mutationBackendFromString _); [|done]. inv_read Hundo. injection Hundo as <-. cbn [payload].
  eapply payload_numbers; [|eassumption]. by eapply find_numbers.
Qed.

Lemma document_numbers v nextId records : json_numbers v → parse_document v = Accepted (nextId, records) →
  u64 nextId ∧ Forall record_range records.
Proof.
  intros Hv H. unfold parse_document in H. inv_read H. injection H as <- <-. split; [eapply unsigned_numbers; [|eassumption]; done|].
  match goal with Ha : array_field _ v = Accepted ?l |- _ => assert (Forall json_numbers l) as Hl; [|] end.
  { match goal with Ha : array_field "records" v = Accepted ?l |- _ => unfold array_field, field in Ha; rename Ha into Harr end.
    destruct (Json.find "records" v) as [j|] eqn:Hj; [|done]. destruct j; try done. injection Harr as <-.
    apply (find_numbers _ _ _ Hv) in Hj. by apply foldr_and. }
  match goal with Hg : get_all _ _ = Accepted _ |- _ => apply get_all_inv in Hg; rename Hg into Hall end.
  clear -Hl Hall. induction Hall as [|j r js rs Hr _ IH]; [constructor|]. apply Forall_cons in Hl as [Hj Hl].
  constructor; [by eapply record_numbers|auto].
Qed.
