(* ===== verification/Journal.v ===== *)
(** The mutation journal as an object in the daemon's memory and its changing
    operations (class MutationJournal of fic/src/rollback/MutationJournal.cpp).

    An operation takes the object and acts on the files; it returns, or throws
    with the object as it is at that moment. Diagnostic texts are left out: a
    refusal is [Returned false]. [clock n] is the n-th reading of the clock in
    the operation. The hooks for tests are never set. *)

From S2P Require Import Prelude PolicyModel FileModel AtomicWriter AtomicFacts Json JsonRead TargetStore OwnershipGrammar MutationRecord MutationValid MutationCodec CodecFacts CodecText.
Open Scope string_scope.
Open Scope nat_scope.
Open Scope file_scope.

Inductive JournalHealth := Healthy | Indeterminate.
#[export] Instance JournalHealth_eq_dec : EqDecision JournalHealth.
Proof. solve_decision. Defined.

Record Journal := mkJournal {
  records : list MutationRecord;
  nextId : Z;
  loaded : bool;
  lifecycleInitialized : bool;
  health : JournalHealth
}.

Definition new_journal : Journal := mkJournal [] 1 false false Healthy.

Definition usable (j : Journal) : bool := loaded j && bool_decide (health j = Healthy).

Definition poisoned (j : Journal) : Journal := mkJournal (records j) (nextId j) (loaded j) (lifecycleInitialized j) Indeterminate.
Definition with_records (l : list MutationRecord) (j : Journal) : Journal :=
  mkJournal l (nextId j) (loaded j) (lifecycleInitialized j) (health j).

(** What a call does: it returns a value, or an exception leaves it. *)
Inductive flow (A : Type) : Type := Returned (a : A) | Thrown.
Arguments Returned {A} a.
Arguments Thrown {A}.

(** * Finding and changing records *)

Fixpoint find_record (i : MutationId) (l : list MutationRecord) : option MutationRecord :=
  match l with [] => None | r :: l' => if bool_decide (mid r = i) then Some r else find_record i l' end.

(** Changes the first record the test holds of. *)
Fixpoint change_first (P : MutationRecord → bool) (f : MutationRecord → MutationRecord) (l : list MutationRecord)
    : list MutationRecord :=
  match l with [] => [] | r :: l' => if P r then f r :: l' else r :: change_first P f l' end.

Definition has_id (i : MutationId) (r : MutationRecord) : bool := bool_decide (mid r = i).

Definition change_record (i : MutationId) (f : MutationRecord → MutationRecord) (j : Journal) : Journal :=
  with_records (change_first (has_id i) f (records j)) j.

Fixpoint first_match (P : MutationRecord → bool) (l : list MutationRecord) : option MutationRecord :=
  match l with [] => None | r :: l' => if P r then Some r else first_match P l' end.

(** The last record the test holds of: a loop without a break. *)
Definition last_match (P : MutationRecord → bool) (l : list MutationRecord) : option MutationRecord := last (List.filter P l).

Section journal.
Context `{JsonText} `{JsonStrict} (path : string).

(** * Persistence *)

Inductive PersistOutcome := Persisted | NotInstalled | PIndeterminate.

(** createIfMissing, rejectSymlink and mode 0600. *)
Definition journal_options (exclusive : bool) : AtomicWriteOptions :=
  mkOptions true true exclusive PreserveExisting (Some 384%Z) None None None None None.

Definition persist (j : Journal) : M (flow PersistOutcome) :=
  match dump_text (journal_document (nextId j) (records j)) with
  | None => mret Thrown
  | Some text =>
      let* r := writeWithResult path text (journal_options false) in
      let '(written, result) := r in
      if written then mret (Returned Persisted)
      else if negb (installed result) then mret (Returned NotInstalled)
      else match installedTargetState result with
           | None => mret (Returned PIndeterminate)
           | Some state =>
               let* confirmed := ensureTargetDurableIfCurrentState path state in
               mret (Returned (if confirmed then Persisted else PIndeterminate))
           end
  end.

(** What every operation does with the outcome: keep the new state, restore the
    old one exactly, or keep the new one and poison the journal. *)
Definition commit {A} (result : A) (failed : A) (old new : Journal) : M (flow A * Journal) :=
  let* outcome := persist new in
  mret (match outcome with
        | Returned Persisted => (Returned result, new)
        | Returned NotInstalled => (Returned failed, old)
        | Returned PIndeterminate => (Returned failed, poisoned new)
        | Thrown => (Thrown, new)
        end).

Definition refuse {A} (failed : A) (j : Journal) : M (flow A * Journal) := mret (Returned failed, j).
Definition throw {A} (j : Journal) : M (flow A * Journal) := mret (Thrown, j).

(** * Admission of a record *)

(** An active record of the same logical mutation. *)
Definition refreshes (record existing : MutationRecord) : bool := isActive existing && same_identity existing record.

Definition has_active (record : MutationRecord) (l : list MutationRecord) : bool := existsb (refreshes record) l.

(** The desktop scalar must carry its predecessor's provenance. *)
Definition scalar_admitted (l : list MutationRecord) (record : MutationRecord) : flow bool :=
  match backend (undo record), payload (undo record) with
  | Desktop, PScalar incoming =>
      match last_match (refreshes record) l with
      | None =>
          Returned (negb (ds_hadApplied incoming || is_some (ds_previousAppliedLine incoming) ||
                          negb (String.eqb (ds_phase incoming) "ensure")))
      | Some predecessor =>
          match payload (undo predecessor) with
          | PScalar previous =>
              Returned
                (bool_decide (ds_originalLine incoming = ds_originalLine previous) &&
                 bool_decide (ds_originalLockLine incoming = ds_originalLockLine previous) &&
                 negb (ds_hadApplied previous && negb (ds_hadApplied incoming)) &&
                 negb (String.eqb (ds_phase previous) "release" && negb (String.eqb (ds_phase incoming) "release")) &&
                 negb (is_some (ds_previousAppliedLine incoming) &&
                       negb (bool_decide (ds_previousAppliedLine incoming = ds_previousAppliedLine previous)) &&
                       negb (bool_decide (ds_previousAppliedLine incoming = Some (ds_appliedLine previous)))))
          | _ => Thrown
          end
      end
  | _, _ => Returned true
  end.

(** The last active record of a backend and resource, if its payload is of the
    kind asked for. *)
Definition predecessor_of (b : MutationBackend) (record : MutationRecord) (l : list MutationRecord) : option UndoPayload :=
  (λ r, payload (undo r)) <$>
    last_match (λ existing, isActive existing && String.eqb (resource existing) (resource record) &&
                            bool_decide (backend (undo existing) = b)) l.

Definition artifact_admitted (l : list MutationRecord) (record : MutationRecord) : bool :=
  match payload (undo record) with
  | PArtifact incoming =>
      match predecessor_of Desktop record l with
      | Some (PArtifact previous) =>
          negb (da_hadApplied previous &&
                (negb (da_hadApplied incoming) || negb (bool_decide (da_device incoming = da_device previous)) ||
                 negb (bool_decide (da_inode incoming = da_inode previous)))) &&
          negb (String.eqb (da_phase previous) "release" && negb (String.eqb (da_phase incoming) "release"))
      | _ => negb (da_hadApplied incoming || negb (String.eqb (da_phase incoming) "ensure"))
      end
  | _ => true
  end.

Definition dm_admitted (l : list MutationRecord) (record : MutationRecord) : bool :=
  match payload (undo record) with
  | PDm incoming =>
      match predecessor_of DisplayManager record l with
      | Some (PDm previous) =>
          String.eqb (dm_manager incoming) (dm_manager previous) && bool_decide (dm_route incoming = dm_route previous) &&
          bool_decide (dm_seats incoming = dm_seats previous) && bool_decide (dm_createdFile incoming = dm_createdFile previous) &&
          String.eqb (dm_separator incoming) (dm_separator previous) &&
          negb (dm_hadApplied previous &&
                (negb (dm_hadApplied incoming) || negb (bool_decide (dm_creationDevice incoming = dm_creationDevice previous)) ||
                 negb (bool_decide (dm_creationInode incoming = dm_creationInode previous)))) &&
          negb (String.eqb (dm_phase previous) "release" && negb (String.eqb (dm_phase incoming) "release"))
      | _ =>
          negb (dm_hadApplied incoming || negb (String.eqb (dm_phase incoming) "ensure") ||
                negb (bool_decide (dm_creationDevice incoming = 0%Z)) || negb (bool_decide (dm_creationInode incoming = 0%Z)))
      end
  | _ => true
  end.

(** GRUB, SSSD and Kerberos: the resource is the payload's, and the payload
    satisfies the reader's rules. *)
Definition scalar_backends_admitted (record : MutationRecord) : bool :=
  match backend (undo record), payload (undo record) with
  | Grub, PGrub p => String.eqb (gr_key p) (resource record) && validateGrubUndoPayload p
  | Grub, _ => false
  | Sssd, PSssd p => String.eqb (sd_section p +:+ "/" +:+ sd_option p) (resource record) && validateSssdUndoPayload p
  | Sssd, _ => false
  | Kerberos, PKerberos p =>
      String.eqb (kb_section p +:+ "/" +:+ kb_relation p) (resource record) && validateKerberosUndoPayload p
  | Kerberos, _ => false
  | _, _ => true
  end.

Definition pam_admitted (record : MutationRecord) : bool :=
  match backend (undo record) with
  | Pam =>
      match payload (undo record) with
      | PEntry p =>
          ref_is "IDENTITY_ACCESS" "PAM" (pe_policyName p) (policy record) && String.eqb (resource record) (pe_configPath p) &&
          validatePamProviderManagedEntryUndoPayload p
      | PFlag p =>
          ref_is "IDENTITY_ACCESS" "PAM" (pf_policyName p) (policy record) && String.eqb (resource record) (pf_configPath p) &&
          validatePamProviderManagedFlagUndoPayload p
      | PContainer p =>
          ref_is "IDENTITY_ACCESS" "PAM_CONTAINER" (ct_providerName p) (policy record) &&
          String.eqb (resource record) (ct_configPath p) && validatePamProviderContainerUndoPayload p
      | PCapability p =>
          ref_is "IDENTITY_ACCESS" "PAM" (pc_capability p) (policy record) &&
          String.eqb (resource record) ("capability/" +:+ pc_capability p) && validatePamUndoPayload p
      | _ => false
      end
  | _ => true
  end.

(** SUDO: a fresh record claims no previous wrappers. *)
Definition sudo_admitted (l : list MutationRecord) (record : MutationRecord) : bool :=
  match backend (undo record) with
  | Sudo =>
      validateSudoGlobalRecord record && validSshRecord record && validSysctlRecord record &&
      match payload (undo record) with
      | PSudoAuth auth =>
          existsb (λ current, isActive current && bool_decide (policy current = policy record) &&
                              String.eqb (resource current) (resource record)) l ||
          bool_decide (sa_previousProofs auth = [])
      | PSudoScoped p =>
          ref_is kSudoModuleName kSudoSubmoduleName (ss_policyName p) (policy record) &&
          String.eqb (resource record) kScopedDefaultsResource && validateSudoScopedDefaultsUndoPayload p &&
          (has_active record l || bool_decide (ss_previousProofs p = []))
      | _ => true
      end
  | _ => true
  end.

(** USER_CREATION and login.defs: a fresh record claims no previous state. *)
Definition identity_admitted (l : list MutationRecord) (record : MutationRecord) : bool :=
  match backend (undo record) with
  | UserCreation =>
      match payload (undo record) with
      | PUserCreation p =>
          ref_is "IDENTITY_ACCESS" "USER_CREATION" (uc_policyName p) (policy record) &&
          String.eqb (resource record) (uc_configPath p) && validateUserCreationUndoPayload p &&
          (has_active record l || bool_decide (uc_previousAppliedAssignments p = []))
      | _ => false
      end
  | IdentityLoginDefs =>
      match payload (undo record) with
      | PLoginDefs p =>
          match findSharedLoginDefsPolicySpec (ld_policyName p) with
          | Some spec =>
              ref_is "IDENTITY_ACCESS" (spec_submodule spec) (ld_policyName p) (policy record) &&
              String.eqb (resource record) (ld_configPath p) && validateIdentityLoginDefsUndoPayload p &&
              (has_active record l || is_empty (ld_previousAppliedLine p))
          | None => false
          end
      | _ => false
      end
  | _ => true
  end.

(** PAM: previous states need an active predecessor, suppression ids and
    containers have one owner. *)
Definition pam_unambiguous (l : list MutationRecord) (record : MutationRecord) : bool :=
  match backend (undo record) with
  | Pam =>
      match payload (undo record) with
      | PEntry p => has_active record l || is_empty (pe_previousAppliedBody p)
      | PFlag p =>
          forallb (λ other,
            if negb (isActive other) || negb (bool_decide (backend (undo other) = Pam)) ||
               bool_decide (policy other = policy record) || negb (String.eqb (resource other) (resource record))
            then true
            else match payload (undo other) with
                 | PFlag otherFlag =>
                     negb (String.eqb (pf_configPath otherFlag) (pf_configPath p) &&
                           meets (preparedPamFlagSuppressionAuthority p) (activePamFlagSuppressionAuthority other otherFlag))
                 | _ => true
                 end) l
      | PContainer p =>
          forallb (λ other,
            match payload (undo other) with
            | PContainer container =>
                negb (isActive other && String.eqb (ct_configPath container) (ct_configPath p) &&
                      negb (bool_decide (policy other = policy record)))
            | _ => true
            end) l
      | _ => true
      end
  | _ => true
  end.

(** * Refreshing an active record *)

Definition refresh_sysctl (existing record : MutationRecord) : flow bool :=
  match backend (undo record) with
  | Sysctl =>
      match payload (undo existing), payload (undo record) with
      | PSetting old, PSetting new => Returned (negb (is_some (set_sysctl old) || is_some (set_sysctl new)))
      | _, _ => Thrown
      end
  | _ => Returned true
  end.

(** The transition an ownership refresh may be: the same one again while it is
    unresolved, else one that starts from the state owned now. *)
Definition refresh_user_creation (existing record : MutationRecord) : bool :=
  match backend (undo record) with
  | UserCreation =>
      match payload (undo existing), payload (undo record) with
      | PUserCreation old, PUserCreation new =>
          String.eqb (uc_policyName old) (uc_policyName new) && bool_decide (uc_configKind old = uc_configKind new) &&
          String.eqb (uc_configPath old) (uc_configPath new) &&
          match status existing with
          | Prepared =>
              bool_decide (uc_appliedAssignments old = uc_appliedAssignments new) &&
              bool_decide (uc_previousAppliedAssignments old = uc_previousAppliedAssignments new)
          | RollbackFailed => false
          | Applied => bool_decide (uc_previousAppliedAssignments new = uc_appliedAssignments old)
          | _ => true
          end
      | _, _ => false
      end
  | _ => true
  end.

Definition refresh_login_defs (existing record : MutationRecord) : bool :=
  match backend (undo record) with
  | IdentityLoginDefs =>
      match payload (undo existing), payload (undo record) with
      | PLoginDefs old, PLoginDefs new =>
          String.eqb (ld_policyName old) (ld_policyName new) && String.eqb (ld_configPath old) (ld_configPath new) &&
          String.eqb (ld_key old) (ld_key new) &&
          match status existing with
          | Prepared =>
              String.eqb (ld_appliedLine old) (ld_appliedLine new) &&
              String.eqb (ld_previousAppliedLine old) (ld_previousAppliedLine new)
          | RollbackFailed => false
          | Applied => String.eqb (ld_previousAppliedLine new) (ld_appliedLine old)
          | _ => true
          end
      | _, _ => false
      end
  | _ => true
  end.

Definition refresh_sudo_global (existing record : MutationRecord) : bool :=
  match payload (undo record), payload (undo existing) with
  | PSudoGlobal next, PSudoGlobal old =>
      String.eqb (sg_key next) (sg_key old) && String.eqb (sg_containerId next) (sg_containerId old) &&
      bool_decide (sg_addedSeparator next = sg_addedSeparator old) &&
      String.eqb (sg_separatorPrefixDigest next) (sg_separatorPrefixDigest old) &&
      (if bool_decide (status existing = Prepared)
       then String.eqb (sg_appliedLine next) (sg_appliedLine old) && String.eqb (sg_previousLine next) (sg_previousLine old)
       else String.eqb (sg_previousLine next) (sg_appliedLine old))
  | PSudoGlobal _, _ | _, PSudoGlobal _ => false
  | _, _ => true
  end.

Definition refresh_sudo_auth (existing record : MutationRecord) : bool :=
  match payload (undo record), payload (undo existing) with
  | PSudoAuth next, PSudoAuth old =>
      negb (bool_decide (status existing = RollbackFailed)) &&
      (if bool_decide (status existing = Prepared)
       then bool_decide (sa_previousProofs next = sa_previousProofs old) && bool_decide (sa_targetProofs next = sa_targetProofs old)
       else bool_decide (sa_previousProofs next = sa_targetProofs old))
  | PSudoAuth _, _ | _, PSudoAuth _ => false
  | _, _ => true
  end.

Definition refresh_sudo_scoped (existing record : MutationRecord) : bool :=
  match payload (undo record), payload (undo existing) with
  | PSudoScoped new, PSudoScoped old =>
      match status existing with
      | Prepared => sameSudoScopedDefaultsTransition old new
      | RollbackFailed => false
      | _ =>
          bool_decide (ss_previousProofs new = ss_targetProofs old) &&
          forallb (λ proof, bool_decide (sp_wrapperId proof ∈ sp_wrapperId <$> ss_targetProofs new)) (ss_targetProofs old)
      end
  | PSudoScoped _, _ | _, PSudoScoped _ => false
  | _, _ => true
  end.

Definition refresh_sudo (existing record : MutationRecord) : bool :=
  match backend (undo record) with
  | Sudo => refresh_sudo_global existing record && refresh_sudo_auth existing record && refresh_sudo_scoped existing record
  | _ => true
  end.

Definition refresh_pam (existing record : MutationRecord) : bool :=
  match backend (undo record) with
  | Pam =>
      match payload (undo record) with
      | PEntry new =>
          match payload (undo existing) with
          | PEntry old =>
              String.eqb (pe_providerName old) (pe_providerName new) &&
              (if bool_decide (status existing = Prepared) then samePamProviderPreparedTransition old new
               else String.eqb (pe_previousAppliedBody new) (pe_appliedBody old))
          | _ => false
          end
      | PFlag new =>
          match payload (undo existing) with
          | PFlag old =>
              String.eqb (pf_providerName old) (pf_providerName new) &&
              (if bool_decide (status existing = Prepared) then samePamProviderPreparedFlagTransition old new
               else bool_decide (pf_previousAppliedEnabled new = Some (pf_appliedEnabled old)) &&
                    bool_decide (pf_previousSuppressionIds new = pf_suppressionIds old))
          | _ => false
          end
      | PContainer _ => negb (bool_decide (status existing = Applied))
      | _ => true
      end
  | _ => true
  end.

(** * Preparing a mutation *)

Definition wrap64 (z : Z) : Z := (z mod 2 ^ 64)%Z.

(** The checks before the loop over active records, in the order of the code. *)
Definition admitted (j : Journal) (record : MutationRecord) : flow bool :=
  if negb (validateSudoGlobalRecord record && validSshRecord record && validSysctlRecord record) then Returned false
  else if negb (loaded j) || bool_decide (health j = Indeterminate) then Returned false
  else if is_empty (moduleName (policy record)) || is_empty (policyName (policy record)) || is_empty (resource record)
  then Returned false
  else if negb (scope_ok record) || negb (desktop_ok record) then Returned false
  else match scalar_admitted (records j) record with
       | Thrown => Thrown
       | Returned scalar =>
           Returned (scalar && artifact_admitted (records j) record && dm_ok record && dm_admitted (records j) record &&
                     scalar_backends_admitted record && pam_admitted record && sudo_admitted (records j) record &&
                     identity_admitted (records j) record && pam_unambiguous (records j) record)
       end.

(** The refresh of [existing]: whether it is allowed. *)
Definition refresh_allowed (existing record : MutationRecord) : flow bool :=
  match refresh_sysctl existing record with
  | Thrown => Thrown
  | Returned b =>
      Returned (b && refresh_user_creation existing record && refresh_login_defs existing record &&
                refresh_sudo existing record && refresh_pam existing record)
  end.

Definition refreshed (now : Z) (u : UndoAction) (existing : MutationRecord) : MutationRecord :=
  with_updated now (with_error "" (with_status Prepared (with_undo u existing))).

(** The id of the record on success. *)
Definition prepareMutation (clock : nat → Z) (record : MutationRecord) (j : Journal) : M (flow (option MutationId) * Journal) :=
  match admitted j record with
  | Thrown => throw j
  | Returned false => refuse None j
  | Returned true =>
      match first_match (refreshes record) (records j) with
      | Some existing =>
          match refresh_allowed existing record with
          | Thrown => throw j
          | Returned false => refuse None j
          | Returned true =>
              commit (Some (mid existing)) None j
                (with_records (change_first (refreshes record) (refreshed (clock 0) (undo record)) (records j)) j)
          end
      | None =>
          let fresh := mkRecord (nextId j) (policy record) (resource record) (undo record) Prepared (clock 0) (clock 0) "" in
          commit (Some (nextId j)) None j
            (mkJournal (records j ++ [fresh])%list (wrap64 (nextId j + 1)) (loaded j) (lifecycleInitialized j) (health j))
      end
  end.

(** * Normalization of unresolved transitions *)

(** The common shape: the checked change of one record, validated again. *)
Definition normalize (i : MutationId) (change : MutationRecord → option MutationRecord) (j : Journal) : M (flow bool * Journal) :=
  if negb (loaded j) || bool_decide (health j = Indeterminate) then refuse false j
  else match find_record i (records j) ≫= change with
       | None => refuse false j
       | Some r => commit true false j (change_record i (λ _, r) j)
       end.

Definition normalizeUserCreationPreparedToProvenState (clock : nat → Z) (i : MutationId)
    (proven : list UserCreationManagedAssignment) : Journal → M (flow bool * Journal) :=
  normalize i (λ r,
    match status r, backend (undo r), payload (undo r) with
    | Prepared, UserCreation, PUserCreation p =>
        if bool_decide (uc_previousAppliedAssignments p = []) || negb (bool_decide (uc_previousAppliedAssignments p = proven)) then None
        else
          let p' := mkUserCreation (uc_policyName p) (uc_configKind p) (uc_configPath p) proven [] in
          if validateUserCreationUndoPayload p'
          then Some (with_updated (clock 0) (with_error "" (with_payload (PUserCreation p') r))) else None
    | _, _, _ => None
    end).

Definition normalizeIdentityLoginDefsPreparedToProvenState (clock : nat → Z) (i : MutationId) (proven : string)
    : Journal → M (flow bool * Journal) :=
  normalize i (λ r,
    match status r, backend (undo r), payload (undo r) with
    | Prepared, IdentityLoginDefs, PLoginDefs p =>
        if is_empty (ld_previousAppliedLine p) || negb (String.eqb (ld_previousAppliedLine p) proven) then None
        else
          let p' := mkLoginDefs (ld_policyName p) (ld_configPath p) (ld_key p) proven "" in
          if validateIdentityLoginDefsUndoPayload p'
          then Some (with_updated (clock 0) (with_error "" (with_payload (PLoginDefs p') r))) else None
    | _, _, _ => None
    end).

Definition normalizeSudoScopedDefaultsPreparedToPrevious (clock : nat → Z) (i : MutationId)
    (proven : list SudoScopedDefaultsWrapperProof) : Journal → M (flow bool * Journal) :=
  normalize i (λ r,
    match status r, backend (undo r), payload (undo r) with
    | Prepared, Sudo, PSudoScoped p =>
        if negb (String.eqb (resource r) kScopedDefaultsResource) || bool_decide (ss_previousProofs p = []) ||
           negb (bool_decide (ss_previousProofs p = proven)) ||
           negb (ref_is kSudoModuleName kSudoSubmoduleName (ss_policyName p) (policy r)) ||
           negb (String.eqb (ss_policyName p) kScopedDefaultsPolicyName) then None
        else
          let p' := mkSudoScoped (ss_policyName p) [] proven in
          if validateSudoScopedDefaultsUndoPayload p'
          then Some (with_updated (clock 0) (with_error "" (with_status Applied (with_payload (PSudoScoped p') r)))) else None
    | _, _, _ => None
    end).

Definition normalizeSudoAuthenticationPreparedToPrevious (clock : nat → Z) (i : MutationId)
    (proven : list AuthenticationProof) : Journal → M (flow bool * Journal) :=
  normalize i (λ r,
    match status r, backend (undo r), payload (undo r) with
    | Prepared, Sudo, PSudoAuth p =>
        if negb (String.eqb (resource r) kAuthenticationResource) || bool_decide (sa_previousProofs p = []) ||
           negb (bool_decide (sa_previousProofs p = proven)) ||
           negb (ref_is kSudoModuleName kSudoSubmoduleName kAuthenticationPolicy (policy r)) then None
        else
          let p' := mkSudoAuth [] proven in
          if validateSudoAuthenticationPayload p'
          then Some (with_updated (clock 0) (with_error "" (with_status Applied (with_payload (PSudoAuth p') r)))) else None
    | _, _, _ => None
    end).

(** * Status and removal *)

Definition unresolved_sysctl (r : MutationRecord) : bool :=
  match backend (undo r), payload (undo r) with
  | Sysctl, PSetting p => match set_sysctl p with Some x => sys_pending x || is_some (sys_release x) | None => false end
  | _, _ => false
  end.

(** A global sudoers default that is applied forgets its predecessor line. *)
Definition settled_payload (s : MutationStatus) (p : UndoPayload) : UndoPayload :=
  match s, p with
  | Applied, PSudoGlobal g =>
      PSudoGlobal (mkSudoGlobal (sg_key g) (sg_appliedLine g) "" (sg_containerId g) (sg_addedSeparator g) (sg_separatorPrefixDigest g))
  | _, _ => p
  end.

Definition setStatusWithMessage (clock : nat → Z) (i : MutationId) (s : MutationStatus) (message : string) (j : Journal)
    : M (flow bool * Journal) :=
  if negb (loaded j) || bool_decide (health j = Indeterminate) then refuse false j
  else match find_record i (records j) with
       | None => refuse false j
       | Some r =>
           let r' := with_payload (settled_payload s (payload (undo r))) (with_status s r) in
           if negb (desktop_ok r') then refuse false j
           else if bool_decide (backend (undo r') = Scope) && negb (validScopeRecord r') then refuse false j
           else if negb (dm_ok r') then refuse false j
           else if negb (validSshRecord r' && validSysctlRecord r') then refuse false j
           else if unresolved_sysctl r' && negb (bool_decide (s = Prepared)) then refuse false j
           else commit true false j (change_record i (λ _, with_updated (clock 0) (with_error message r')) j)
       end.

Definition setStatus (clock : nat → Z) (i : MutationId) (s : MutationStatus) : Journal → M (flow bool * Journal) :=
  setStatusWithMessage clock i s "".

(** Somebody else's delegated authority over a legacy container. *)
Definition delegated (i : MutationId) (r : MutationRecord) : bool :=
  isActive r && negb (has_id i r) && bool_decide (backend (undo r) = Sysctl) &&
  match payload (undo r) with
  | PSetting p => match set_sysctl p with Some x => bool_decide (sys_legacyContainerOrigin x = i) | None => false end
  | _ => false
  end.

Fixpoint remove_first (P : MutationRecord → bool) (l : list MutationRecord) : list MutationRecord :=
  match l with [] => [] | r :: l' => if P r then l' else r :: remove_first P l' end.

Definition discardImpl (i : MutationId) (provenInitialNoEffect : bool) (j : Journal) : M (flow bool * Journal) :=
  if existsb (delegated i) (records j) then refuse false j
  else if negb (loaded j) || bool_decide (health j = Indeterminate) then refuse false j
  else match find_record i (records j) with
       | None => refuse false j
       | Some r =>
           if unresolved_sysctl r && negb provenInitialNoEffect then refuse false j
           else commit true false j (with_records (remove_first (has_id i) (records j)) j)
       end.

Definition discard (i : MutationId) : Journal → M (flow bool * Journal) := discardImpl i false.

Definition activeRecords (p : PolicyRef) (j : Journal) : list MutationRecord :=
  List.filter (λ r, isActive r && bool_decide (policy r = p)) (records j).

(** * Typed sysctl ownership *)

(** The record validated again before it is written. *)
Definition persistRecordChange (clock : nat → Z) (i : MutationId) (r : MutationRecord) (j : Journal) : M (flow bool * Journal) :=
  if negb (validSshRecord r && validSysctlRecord r) then refuse false j
  else commit true false j (change_record i (λ _, with_updated (clock 0) r) j).

Definition persistSysctlChange (l : list MutationRecord) (j : Journal) : M (flow bool * Journal) :=
  if forallb validSysctlRecord l then commit true false j (with_records l j) else refuse false j.

Definition setting_of (r : MutationRecord) : option UndoRemoveManagedSetting :=
  match payload (undo r) with PSetting p => Some p | _ => None end.

Definition active_sysctl (r : MutationRecord) : bool := isActive r && bool_decide (backend (undo r) = Sysctl).

(** A sysctl record in the way of a new transaction. *)
Definition busy (r : MutationRecord) : bool :=
  match setting_of r with
  | None => true
  | Some p =>
      bool_decide (status r = Prepared) ||
      match set_sysctl p with Some x => sys_pending x || is_some (sys_release x) | None => false end
  end.

(** The loop of [prepareSysctl]: the policy's own applied record; [None] when
    it refuses. *)
Fixpoint sysctl_predecessor (p : PolicyRef) (key : string) (old : option MutationRecord) (l : list MutationRecord)
    : option (option MutationRecord) :=
  match l with
  | [] => Some old
  | r :: l' =>
      if negb (active_sysctl r) then sysctl_predecessor p key old l'
      else if busy r then None
      else if bool_decide (policy r = p) then
        if is_some old || negb (String.eqb (resource r) key) ||
           negb (bool_decide (set_key <$> setting_of r = Some key)) || negb (bool_decide (status r = Applied))
        then None else sysctl_predecessor p key (Some r) l'
      else sysctl_predecessor p key old l'
  end.

(** The origin named is a legacy sysctl record. *)
Definition legacy_origin_ok (origin : MutationId) (l : list MutationRecord) : bool :=
  bool_decide (origin = 0%Z) ||
  match find_record origin l with
  | Some r =>
      match setting_of r with
      | Some p => negb (is_some (set_sysctl p)) && bool_decide (backend (undo r) = Sysctl)
      | None => false
      end
  | None => false
  end.

Definition with_sysctl (x : option SysctlSettingState) (p : UndoRemoveManagedSetting) : UndoRemoveManagedSetting :=
  mkSetting (set_key p) (set_appliedValue p) x.

Definition prepareSysctl (clock : nat → Z) (p : PolicyRef) (key target : string) (created : bool) (legacyOrigin : MutationId)
    (container : option AtomicTargetState) (j : Journal) : M (flow (option MutationId) * Journal) :=
  if negb (usable j) || negb (lifecycleInitialized j) || negb (String.eqb (moduleName p) "SYSCTL") || is_empty key || is_empty target
  then refuse None j
  else match sysctl_predecessor p key None (records j) with
       | None => refuse None j
       | Some old =>
           if negb (legacy_origin_ok legacyOrigin (records j)) then refuse None j
           else
             let fresh : option AtomicTargetIdentity := if created then identity <$> container else None in
             match old with
             | Some r =>
                 match setting_of r with
                 | None => throw j
                 | Some setting =>
                     let legacy := negb (is_some (set_sysctl setting)) in
                     let ident := match set_sysctl setting with Some x => sys_containerIdentity x | None => None end in
                     let state := mkSysctl 1 (if legacy then false else created) ident (if legacy then mid r else legacyOrigin)
                                    true true legacy false target None in
                     if match set_sysctl setting with
                        | Some x => negb (bool_decide (sys_containerCreated x = created)) ||
                                    negb (bool_decide (sys_legacyContainerOrigin x = legacyOrigin))
                        | None => false
                        end
                     then refuse None j
                     else
                       let* result := persistRecordChange clock (mid r)
                         (with_error "" (with_status Prepared (with_payload (PSetting (with_sysctl (Some state) setting)) r))) j in
                       mret (match result with
                             | (Returned true, j') => (Returned (Some (mid r)), j')
                             | (Returned false, j') => (Returned None, j')
                             | (Thrown, j') => (Thrown, j')
                             end)
                 end
             | None =>
                 let state := mkSysctl 1 created fresh legacyOrigin true false false false target None in
                 prepareMutation clock
                   (mkRecord 0%Z p key (mkUndo Sysctl (PSetting (mkSetting key target (Some state)))) Prepared 0 0 "") j
             end
       end.

(** The sysctl record with an unresolved change, as four operations look it up. *)
Definition pending_record (i : MutationId) (j : Journal)
    : option (MutationRecord * UndoRemoveManagedSetting * SysctlSettingState) :=
  r ← find_record i (records j);
  p ← setting_of r;
  x ← set_sysctl p;
  if usable j && bool_decide (backend (undo r) = Sysctl) && bool_decide (status r = Prepared) && sys_pending x
  then Some (r, p, x) else None.

(** The typed state with its change resolved. *)
Definition resolved_state (x : SysctlSettingState) : option SysctlSettingState :=
  if sys_previousLegacy x then None
  else Some (mkSysctl (sys_version x) (sys_containerCreated x) (sys_containerIdentity x) (sys_legacyContainerOrigin x)
               false false (sys_previousLegacy x) false "" (sys_release x)).

Definition with_identity (i : AtomicTargetIdentity) (x : SysctlSettingState) : SysctlSettingState :=
  mkSysctl (sys_version x) (sys_containerCreated x) (Some i) (sys_legacyContainerOrigin x) (sys_pending x) (sys_hadApplied x)
    (sys_previousLegacy x) (sys_attempted x) (sys_targetValue x) (sys_release x).

(** Every active owner of the created container learns its new identity. *)
Definition owns_created (r : MutationRecord) : bool :=
  active_sysctl r &&
  match setting_of r with
  | Some p => match set_sysctl p with Some x => sys_containerCreated x | None => false end
  | None => false
  end.

Definition rebind (now : Z) (i : AtomicTargetIdentity) (r : MutationRecord) : MutationRecord :=
  match setting_of r with
  | Some p =>
      match set_sysctl p with
      | Some x => with_updated now (with_payload (PSetting (with_sysctl (Some (with_identity i x)) p)) r)
      | None => r
      end
  | None => r
  end.

Fixpoint rebind_owners (clock : nat → Z) (i : AtomicTargetIdentity) (l : list MutationRecord) : list MutationRecord :=
  match l with
  | [] => []
  | r :: l' =>
      if owns_created r then rebind (clock 0) i r :: rebind_owners (λ n, clock (S n)) i l'
      else r :: rebind_owners clock i l'
  end.

Definition finishSysctl (clock : nat → Z) (i : MutationId) (published : AtomicTargetState) (j : Journal) : M (flow bool * Journal) :=
  match pending_record i j with
  | None => refuse false j
  | Some (r, p, x) =>
      if negb (has_inode published) then refuse false j
      else
        let r' := with_updated (clock 0) (with_error "" (with_status Applied
                    (with_payload (PSetting (mkSetting (set_key p) (sys_targetValue x) (resolved_state x))) r))) in
        persistSysctlChange
          (rebind_owners (λ n, clock (S n)) (identity published) (change_first (has_id i) (λ _, r') (records j))) j
  end.

Definition noteSysctlAttempt (clock : nat → Z) (i : MutationId) (j : Journal) : M (flow bool * Journal) :=
  match pending_record i j with
  | None => refuse false j
  | Some (r, p, x) =>
      if sys_attempted x then refuse false j
      else
        let x' := mkSysctl (sys_version x) (sys_containerCreated x) (sys_containerIdentity x) (sys_legacyContainerOrigin x)
                    (sys_pending x) (sys_hadApplied x) (sys_previousLegacy x) true (sys_targetValue x) (sys_release x) in
        persistRecordChange clock i (with_payload (PSetting (with_sysctl (Some x') p)) r) j
  end.

Definition abortSysctlNoEffect (clock : nat → Z) (i : MutationId) (inlineNotInstalled : bool) (j : Journal)
    : M (flow bool * Journal) :=
  match pending_record i j with
  | None => refuse false j
  | Some (r, p, x) =>
      if sys_attempted x && negb inlineNotInstalled then refuse false j
      else if negb (sys_hadApplied x) then discardImpl i true j
      else persistRecordChange clock i
             (with_error "" (with_status Applied (with_payload (PSetting (with_sysctl (resolved_state x) p)) r))) j
  end.

Definition with_release (rel : option SysctlReleaseIntent) (x : SysctlSettingState) : SysctlSettingState :=
  mkSysctl (sys_version x) (sys_containerCreated x) (sys_containerIdentity x) (sys_legacyContainerOrigin x) (sys_pending x)
    (sys_hadApplied x) (sys_previousLegacy x) (sys_attempted x) (sys_targetValue x) rel.

Definition beginSysctlRelease (clock : nat → Z) (i : MutationId) (before target : option AtomicTargetState) (j : Journal)
    : M (flow bool * Journal) :=
  match find_record i (records j) with
  | None => refuse false j
  | Some r =>
      match setting_of r with
      | None => refuse false j
      | Some p =>
          if negb (usable j) || negb (lifecycleInitialized j) || negb (active_sysctl r) ||
             match set_sysctl p with Some x => sys_pending x || is_some (sys_release x) | None => false end
          then refuse false j
          else if existsb (λ other, active_sysctl other && negb (has_id i other) && busy other) (records j) then refuse false j
          else
            let release := mkRelease 1 (negb (is_some (set_sysctl p))) before target None in
            let x := match set_sysctl p with
                     | Some x => x
                     | None => mkSysctl 1 false None i false false false false "" None
                     end in
            persistRecordChange clock i
              (with_error "" (with_status Prepared (with_payload (PSetting (with_sysctl (Some (with_release (Some release) x)) p)) r))) j
      end
  end.

Definition noteSysctlReleasePrepared (clock : nat → Z) (i : MutationId) (prepared : AtomicTargetState) (j : Journal)
    : M (flow bool * Journal) :=
  match r ← find_record i (records j); p ← setting_of r; x ← set_sysctl p; rel ← sys_release x; Some (r, p, x, rel) with
  | None => refuse false j
  | Some (r, p, x, rel) =>
      if negb (usable j) then refuse false j
      else
        let rel' := mkRelease (rel_version rel) (rel_previousLegacy rel) (rel_before rel) (rel_target rel) (Some prepared) in
        persistRecordChange clock i (with_payload (PSetting (with_sysctl (Some (with_release (Some rel') x)) p)) r) j
  end.

Definition same_inode (a b : AtomicTargetState) : bool :=
  bool_decide (device (identity a) = device (identity b)) && bool_decide (inode (identity a) = inode (identity b)).

(** The published container is the one intended: the temporary file recorded
    before its rename, or the unchanged original. *)
Definition exact_receipt (intent : SysctlReleaseIntent) (published : option AtomicTargetState) : bool :=
  match rel_target intent, published with
  | None, None => true
  | Some target, Some p =>
      sysctlSameBytesMetadata p target &&
      (match rel_prepared intent with Some prepared => same_inode prepared p | None => false end ||
       match rel_before intent with Some before => sysctlSameBytesMetadata before p && same_inode before p | None => false end)
  | _, _ => false
  end.

Definition finishSysctlRelease (clock : nat → Z) (i : MutationId) (published : option AtomicTargetState) (j : Journal)
    : M (flow bool * Journal) :=
  match find_record i (records j) with
  | None => refuse false j
  | Some r =>
      if negb (usable j) || negb (lifecycleInitialized j) || negb (active_sysctl r) then refuse false j
      else match p ← setting_of r; x ← set_sysctl p; intent ← sys_release x; Some (p, x, intent) with
           | None => refuse false j
           | Some (p, x, intent) =>
               if sys_pending x || negb (exact_receipt intent published) then refuse false j
               else
                 let state := if rel_previousLegacy intent then None else Some (with_release None x) in
                 let r' := with_updated (clock 0) (with_error "" (with_status RolledBack
                             (with_payload (PSetting (with_sysctl state p)) r))) in
                 let l := change_first (has_id i) (λ _, r') (records j) in
                 match published with
                 | None => if existsb owns_created l then refuse false j else persistSysctlChange l j
                 | Some container => persistSysctlChange (rebind_owners (λ n, clock (S n)) (identity container) l) j
                 end
           end
  end.
End journal.
