(* ===== verification/JournalLoad.v ===== *)
(** The life of the journal's files: loading, the initialization witness, the
    state table of (journal, witness) and the daemon's access to the journal
    (loadImpl to bootstrapVirgin in fic/src/rollback/MutationJournal.cpp, and
    DaemonMutationJournal.cpp).

    The text functions of the JSON library stand for [dump(2)] with the newline
    after it, and for [parse]. *)

From S2P Require Import Prelude PolicyModel FileModel AtomicWriter AtomicFacts Json JsonRead TargetStore OwnershipGrammar MutationRecord MutationValid MutationCodec CodecFacts CodecText Journal.
Open Scope string_scope.
Open Scope nat_scope.
Open Scope file_scope.

(** * Probing *)

Inductive probe_result := ProbePresent | ProbeMissing | ProbeError.
#[export] Instance probe_result_eq_dec : EqDecision probe_result.
Proof. solve_decision. Defined.

(** [std::filesystem::status]. *)
Definition probe (p : string) : M probe_result :=
  let* st := sys_stat p in
  mret (match st with
        | inr _ => ProbePresent
        | inl e => if bool_decide (e = ENOENT) then ProbeMissing else ProbeError
        end).

Section load.
Context `{JsonText} `{JsonStrict} (path : string).

Definition witnessPath : string := path +:+ ".initialized".

(** Poisons the journal and keeps everything else. *)
Definition failLoad (j : Journal) : M (flow bool * Journal) := mret (Returned false, poisoned j).

Inductive MissingJournalPolicy := AllowFreshEmpty | RequireExisting.
#[local] Instance MissingJournalPolicy_eq_dec : EqDecision MissingJournalPolicy.
Proof. solve_decision. Defined.

(** What follows the capture of the document. *)
Definition load_snapshot (snapshot : AtomicTargetState) (j : Journal) : M (flow bool * Journal) :=
  if is_empty (content snapshot) then failLoad j
  else match json_parse (content snapshot) with
       | None => failLoad j
       | Some document =>
           match parse_document document with
           | Rejected => failLoad j
           | Threw => mret (Thrown, j)
           | Accepted (parsedNextId, parsed) =>
               let* durable := ensureTargetDurableIfCurrentState path snapshot in
               if negb durable then failLoad j
               else mret (Returned true, mkJournal parsed parsedNextId true (lifecycleInitialized j) Healthy)
           end
       end.

Definition loadImpl (missing : MissingJournalPolicy) (j : Journal) : M (flow bool * Journal) :=
  let* status := probe path in
  match status with
  | ProbeError => failLoad j
  | ProbeMissing =>
      if bool_decide (missing = AllowFreshEmpty) && negb (loaded j) && bool_decide (health j = Healthy)
      then mret (Returned true, mkJournal [] 1 true (lifecycleInitialized j) (health j))
      else failLoad j
  | ProbePresent =>
      let* captured := captureTargetState path in
      match captured with
      | None => failLoad j
      | Some snapshot => load_snapshot snapshot j
      end
  end.

Definition load : Journal → M (flow bool * Journal) := loadImpl AllowFreshEmpty.
Definition loadExisting : Journal → M (flow bool * Journal) := loadImpl RequireExisting.

(** * The witness *)

Definition witness_document : json :=
  obj [("schema_version", JUnsigned kWitnessSchemaVersion); ("initialized", JBool true)].

(** The exact versioned document. The version is read as a 32-bit number. *)
Definition witness_content_ok (document : json) : bool :=
  object_of_size 2 document &&
  match Json.find "schema_version" document, Json.find "initialized" document with
  | Some (JUnsigned n), Some (JBool true) => bool_decide (n mod 2 ^ 32 = kWitnessSchemaVersion)%Z
  | _, _ => false
  end.

Definition witnessIsValid : M bool :=
  let* captured := captureTargetState witnessPath in
  match captured with
  | None => mret false
  | Some snapshot =>
      match json_parse (content snapshot) with
      | None => mret false
      | Some document =>
          if negb (witness_content_ok document) then mret false
          else ensureTargetDurableIfCurrentState witnessPath snapshot
      end
  end.

(** Creates the witness and never replaces what is there; a concurrent valid
    witness counts. [None] when the text cannot be printed. *)
Definition createWitness : M (flow bool) :=
  match dump_text witness_document with
  | None => mret Thrown
  | Some text =>
      let* r := writeWithResult witnessPath text (journal_options true) in
      let '(written, result) := r in
      if written then mret (Returned true)
      else if negb (installed result) then
        let* valid := witnessIsValid in mret (Returned valid)
      else match installedTargetState result with
           | None => mret (Returned false)
           | Some state =>
               let* confirmed := ensureTargetDurableIfCurrentState witnessPath state in
               mret (Returned confirmed)
           end
  end.

(** * The state table *)

Definition set_initialized (j : Journal) : Journal := mkJournal (records j) (nextId j) (loaded j) true (health j).

(** A load, and the lifecycle completed when it succeeds. *)
Definition load_and_complete (j : Journal) : M (flow bool * Journal) :=
  let* r := loadExisting j in
  mret (match r with (Returned true, j') => (Returned true, set_initialized j') | other => other end).

Definition initializeExistingJournal (witnessMissing : bool) (j : Journal) : M (flow bool * Journal) :=
  if witnessMissing then
    let* r := loadExisting j in
    match r with
    | (Returned true, j') =>
        let* created := createWitness in
        match created with
        | Thrown => mret (Thrown, j')
        | Returned false => failLoad j'
        | Returned true => load_and_complete j'
        end
    | other => mret other
    end
  else
    let* valid := witnessIsValid in
    if negb valid then failLoad j else load_and_complete j.

Inductive BootstrapOutcome := BInstalled | ConflictJournalExists | BFailed.

Definition empty_document : json := journal_document 1 [].

(** The witness and the final proof, after the empty journal is there. *)
Definition bootstrap_finish (j : Journal) : M (flow BootstrapOutcome * Journal) :=
  let* created := createWitness in
  match created with
  | Thrown => mret (Thrown, j)
  | Returned false => mret (Returned BFailed, poisoned j)
  | Returned true =>
      let* r := load_and_complete j in
      mret (match r with
            | (Returned true, j') => (Returned BInstalled, j')
            | (Returned false, j') => (Returned BFailed, j')
            | (Thrown, j') => (Thrown, j')
            end)
  end.

Definition bootstrapVirgin (j : Journal) : M (flow BootstrapOutcome * Journal) :=
  match dump_text empty_document with
  | None => mret (Thrown, j)
  | Some text =>
      let* r := writeWithResult path text (journal_options true) in
      let '(written, result) := r in
      if written then bootstrap_finish j
      else if negb (installed result) then
        let* again := probe path in
        mret (match again with
              | ProbePresent => (Returned ConflictJournalExists, j)
              | _ => (Returned BFailed, poisoned j)
              end)
      else
        let* confirmed :=
          match installedTargetState result with
          | None => mret false
          | Some state => ensureTargetDurableIfCurrentState path state
          end in
        if negb confirmed then mret (Returned BFailed, poisoned j) else bootstrap_finish j
  end.

Definition kMaxStateTablePasses : nat := 3.

Fixpoint state_table (passes : nat) (j : Journal) : M (flow bool * Journal) :=
  match passes with
  | 0 => failLoad j
  | S passes =>
      let* journalStatus := probe path in
      if bool_decide (journalStatus = ProbeError) then failLoad j
      else
        let* witnessStatus := probe witnessPath in
        if bool_decide (witnessStatus = ProbeError) then failLoad j
        else match journalStatus, witnessStatus with
             | ProbeMissing, ProbeMissing =>
                 let* r := bootstrapVirgin j in
                 match r with
                 | (Returned BInstalled, j') => mret (Returned true, j')
                 | (Returned ConflictJournalExists, j') => state_table passes j'
                 | (Returned BFailed, j') => mret (Returned false, j')
                 | (Thrown, j') => mret (Thrown, j')
                 end
             | ProbeMissing, _ => let* _ := witnessIsValid in failLoad j
             | _, w => initializeExistingJournal (bool_decide (w = ProbeMissing)) j
             end
  end.

Definition initializeFresh : Journal → M (flow bool * Journal) := state_table kMaxStateTablePasses.

Definition initializeOrLoad (j : Journal) : M (flow bool * Journal) :=
  if lifecycleInitialized j then loadExisting j else initializeFresh j.

(** The same table without any write. *)
Definition validatePersistentStateReadOnly (j : Journal) : M (flow bool * Journal) :=
  let* journalStatus := probe path in
  if bool_decide (journalStatus = ProbeError) then failLoad j
  else
    let* witnessStatus := probe witnessPath in
    if bool_decide (witnessStatus = ProbeError) then failLoad j
    else match journalStatus, witnessStatus with
         | ProbeMissing, ProbeMissing => failLoad j
         | ProbeMissing, _ => let* _ := witnessIsValid in failLoad j
         | _, ProbeMissing => failLoad j
         | _, _ =>
             let* valid := witnessIsValid in
             if negb valid then failLoad j else load_and_complete j
         end.

(** * The daemon's journal *)

(** [journal_] of the singleton; [Some] is [open_]. *)
Definition Daemon : Type := option Journal.

(** A journal to work with, or a refusal. *)
Definition tryGet (d : Daemon) : M (flow (option Journal) * Daemon) :=
  match d with
  | Some j =>
      if usable j then mret (Returned (Some j), d)
      else
        let* r := initializeOrLoad j in
        mret (match r with
              | (Returned b, j') => (Returned (if b && usable j' && lifecycleInitialized j' then Some j' else None), Some j')
              | (Thrown, j') => (Thrown, Some j')
              end)
  | None =>
      let* r := initializeOrLoad new_journal in
      mret (match r with
            | (Returned b, j') => if b && usable j' && lifecycleInitialized j' then (Returned (Some j'), Some j') else (Returned None, None)
            | (Thrown, _) => (Thrown, None)
            end)
  end.

(** An operation on the journal the daemon hands out. *)
Definition with_journal {A} (failed : A) (operation : Journal → M (flow A * Journal)) (d : Daemon) : M (flow A * Daemon) :=
  let* r := tryGet d in
  match r with
  | (Returned (Some j), _) => let* s := operation j in mret (s.1, Some s.2)
  | (Returned None, d') => mret (Returned failed, d')
  | (Thrown, d') => mret (Thrown, d')
  end.

Definition recordPreparedMutation (clock : nat → Z) (p : PolicyRef) (res : string) (u : UndoAction)
    : Daemon → M (flow (option MutationId) * Daemon) :=
  with_journal None (prepareMutation path clock (mkRecord 0%Z p res u Prepared 0 0 "")).

Definition commitMutation (clock : nat → Z) (i : MutationId) : Daemon → M (flow bool * Daemon) :=
  with_journal false (setStatus path clock i Applied).

Definition discardMutation (i : MutationId) : Daemon → M (flow bool * Daemon) := with_journal false (discard path i).
End load.
