(* ===== verification/JournalFacts.v ===== *)
(** The journal in memory: what loading establishes every operation keeps, so
    that what is written can always be loaded again. *)

From S2P Require Import Prelude PolicyModel FileModel AtomicWriter AtomicFacts Json JsonRead TargetStore OwnershipGrammar MutationRecord MutationValid MutationCodec CodecFacts CodecText Journal.
Open Scope string_scope.
Open Scope nat_scope.
Open Scope file_scope.

(** The tests known to hold, evaluated in a hypothesis. *)
Ltac rewrite_checks_in H := repeat match goal with Hb : ?b = true |- _ => assert_fails (unify Hb H); progress rewrite Hb in H end.

(** * Clashes between records *)

Section clashes.
Context {A : Type} (clash : A → A → bool).

Lemma no_clash_spec l : (∀ x y, clash x y = clash y x) →
  no_clash clash l = true ↔ ∀ i j x y, i ≠ j → l !! i = Some x → l !! j = Some y → clash x y = false.
Proof.
  intros Hsym. induction l as [|a l IH]; simpl; [by split; [intros _ i j x y _ ?|]|].
  rewrite andb_true_iff, IH, forallb_forall. split.
  - intros [Ha Hl] [|i] [|j] x y Hne Hx Hy; simpl in *; simplify_eq; [| |eauto].
    + apply negb_true_iff, Ha, list_elem_of_In, list_elem_of_lookup. eauto.
    + rewrite Hsym. apply negb_true_iff, Ha, list_elem_of_In, list_elem_of_lookup. eauto.
  - intros Hall. split.
    + intros y [j Hj]%list_elem_of_In%list_elem_of_lookup. apply negb_true_iff. by apply (Hall 0 (S j)).
    + intros i j x y Hne Hx Hy. apply (Hall (S i) (S j)); [lia|done..].
Qed.

Lemma no_clash_at l i j x y : (∀ x y, clash x y = clash y x) → no_clash clash l = true →
  l !! i = Some x → l !! j = Some y → i ≠ j → clash x y = false.
Proof. intros Hsym Hl Hx Hy Hne. by eapply (proj1 (no_clash_spec l Hsym) Hl i j). Qed.

Lemma no_clash_insert l k r r' : (∀ x y, clash x y = clash y x) → no_clash clash l = true → l !! k = Some r →
  (∀ i y, i ≠ k → l !! i = Some y → clash r' y = false) → no_clash clash (<[k := r']> l) = true.
Proof.
  intros Hsym H Hk Hnew. rewrite no_clash_spec in H |- * by done. intros i j x y Hne Hx Hy.
  pose proof (lookup_lt_Some _ _ _ Hk).
  destruct (decide (i = k)) as [->|Hi], (decide (j = k)) as [->|Hj]; rewrite ?list_lookup_insert_eq, ?list_lookup_insert_ne in * by done;
    simplify_eq; eauto.
Qed.

Lemma no_clash_snoc l r : (∀ x y, clash x y = clash y x) → no_clash clash l = true →
  (∀ y, y ∈ l → clash r y = false) → no_clash clash (l ++ [r])%list = true.
Proof.
  intros Hsym. induction l as [|a l IH]; intros H Hnew; [done|]. simpl in *. apply andb_true_iff in H as [Ha Hl]. apply andb_true_iff. split.
  - rewrite forallb_app, Ha. simpl. rewrite Hsym, Hnew by set_solver. done.
  - apply IH; [done|]. set_solver.
Qed.

Lemma no_clash_sublist l l' : l' `sublist_of` l → no_clash clash l = true → no_clash clash l' = true.
Proof.
  intros Hs. induction Hs as [|x l1 l2 Hs IH|x l1 l2 Hs IH]; simpl; [done| |].
  - rewrite !andb_true_iff. intros [Hx Hl]. split; [|auto]. apply forallb_forall. intros y Hy. rewrite forallb_forall in Hx. apply Hx.
    apply list_elem_of_In. apply list_elem_of_In in Hy. by eapply elem_of_sublist.
  - intros [_ Hl]%andb_true_iff. auto.
Qed.
End clashes.

Lemma same_id_sym a b : same_id a b = same_id b a.
Proof. apply bool_decide_ext. naive_solver. Qed.
Lemma same_identity_sym a b : same_identity a b = same_identity b a.
Proof.
  unfold same_identity. f_equal; [f_equal; apply bool_decide_ext; naive_solver|apply String.eqb_sym].
Qed.
Lemma active_twice_sym a b : active_twice a b = active_twice b a.
Proof. unfold active_twice. rewrite same_identity_sym, (andb_comm (isActive a)). done. Qed.
Lemma container_clash_sym a b : container_clash a b = container_clash b a.
Proof. unfold container_clash. rewrite (andb_comm (isActive a)). f_equal. destruct (payload (undo a)), (payload (undo b)); try done. apply String.eqb_sym. Qed.

Lemma meets_spec a b : meets a b = true ↔ ∃ x, x ∈ a ∧ x ∈ b.
Proof. unfold meets. rewrite existsb_exists. setoid_rewrite <-list_elem_of_In. setoid_rewrite bool_decide_eq_true. done. Qed.
Lemma meets_sym a b : meets a b = meets b a.
Proof. apply eq_true_iff_eq. rewrite !meets_spec. naive_solver. Qed.
Lemma flag_clash_sym a b : flag_clash a b = flag_clash b a.
Proof.
  unfold flag_clash. rewrite (andb_comm (isActive a)). f_equal. destruct (payload (undo a)), (payload (undo b)); try done.
  rewrite meets_sym. f_equal. apply String.eqb_sym.
Qed.

(** * The invariant *)

(** Every record is one the reader accepts, and so are they together. *)
Record Inv (j : Journal) : Prop := {
  inv_next : u64 (nextId j);
  inv_range : Forall record_range (records j);
  inv_loadable : forallb record_loadable (records j) = true;
  inv_ok : journal_ok (nextId j) (records j) = true
}.

Lemma Inv_eq j j' : records j' = records j → nextId j' = nextId j → Inv j → Inv j'.
Proof. intros Hr Hn [? ? ? ?]. split; by rewrite ?Hr, ?Hn. Qed.

Lemma Inv_poisoned j : Inv j → Inv (poisoned j).
Proof. by apply Inv_eq. Qed.

(** How a journal may change: ids grow and are never given to another mutation,
    and a poisoned journal stays poisoned. *)
Definition same_mutation (r r' : MutationRecord) : Prop :=
  mid r' = mid r ∧ policy r' = policy r ∧ resource r' = resource r ∧ backend (undo r') = backend (undo r).

Record evolves (j j' : Journal) : Prop := {
  evolves_next : (nextId j ≤ nextId j')%Z;
  evolves_records : ∀ r', r' ∈ records j' → (∃ r, r ∈ records j ∧ same_mutation r r') ∨ (nextId j ≤ mid r')%Z;
  evolves_loaded : loaded j' = loaded j;
  evolves_lifecycle : lifecycleInitialized j' = lifecycleInitialized j;
  evolves_health : health j' = Healthy → health j = Healthy
}.

#[export] Instance evolves_preorder : PreOrder evolves.
Proof.
  split.
  - intros j. split; try done. intros r Hr. left. by exists r.
  - intros j1 j2 j3 [Hn1 Hr1 Hl1 Hi1 Hh1] [Hn2 Hr2 Hl2 Hi2 Hh2]. split; [lia| |congruence|congruence|auto].
    intros r3 Hin3. destruct (Hr2 r3 Hin3) as [(r2 & Hin2 & Hm2)|?]; [|right; lia].
    destruct (Hr1 r2 Hin2) as [(r1 & Hin1 & Hm1)|?]; [|right; by rewrite (proj1 Hm2)].
    left. exists r1. split; [done|]. destruct Hm1 as (?&?&?&?), Hm2 as (?&?&?&?). unfold same_mutation. split_and!; congruence.
Qed.

(** The result of an operation on a journal. *)
Definition good (j j' : Journal) : Prop := Inv j' ∧ evolves j j'.

Lemma good_refl j : Inv j → good j j.
Proof. by split. Qed.
#[export] Hint Extern 0 (good _ _) => (apply good_refl; assumption) : core.

Lemma good_poisoned j j' : good j j' → good j (poisoned j').
Proof. intros [Hi [? ? ? ? ?]]. split; [by apply Inv_poisoned|]. by split. Qed.

Section ops.
Context `{JsonText} `{JsonStrict} (path : string).

(** Only the committed state or the old one can be the result. *)
Lemma commit_journal {A} (result failed : A) old new w :
  let j' := (commit path result failed old new w).1.2 in j' = new ∨ j' = old ∨ j' = poisoned new.
Proof.
  unfold commit, mbind. destruct (persist path new w) as [outcome w']. destruct outcome as [[]|]; simpl; auto.
Qed.

Lemma commit_good {A} (result failed : A) old new w : Inv old → good old new → good old (commit path result failed old new w).1.2.
Proof. intros Ho Hn. destruct (commit_journal result failed old new w) as [-> |[-> | ->]]; [done..|]. by apply good_poisoned. Qed.
End ops.

(** * Changing a record in place *)

Lemma first_match_Some P l r : first_match P l = Some r → ∃ k, l !! k = Some r ∧ P r = true ∧
  ∀ f, change_first P f l = <[k := f r]> l.
Proof.
  induction l as [|a l IH]; simpl; [done|]. destruct (P a) eqn:Ha.
  - intros [= ->]. by exists 0.
  - intros (k & Hk & HP & Hf)%IH. exists (S k). split; [done|]. split; [done|]. intros f. simpl. by rewrite Hf.
Qed.

Lemma first_match_None P l : first_match P l = None → ∀ r, r ∈ l → P r = false.
Proof. induction l as [|a l IH]; simpl; [set_solver|]. destruct (P a) eqn:Ha; [done|]. set_solver. Qed.

Lemma find_first i l : find_record i l = first_match (has_id i) l.
Proof. induction l as [|a l IH]; simpl; [done|]. unfold has_id. by case_bool_decide. Qed.

Lemma evolves_pointwise j l : Forall2 same_mutation (records j) l → evolves j (with_records l j).
Proof.
  intros Hall. split; try done. intros r' [n Hn]%list_elem_of_lookup. left.
  destruct (Forall2_lookup_r _ _ _ _ _ Hall Hn) as (r & Hr & Hm). exists r. split; [|done]. apply list_elem_of_lookup. eauto.
Qed.

Lemma evolves_insert j k r r' : records j !! k = Some r → mid r' = mid r → policy r' = policy r → resource r' = resource r →
  backend (undo r') = backend (undo r) → evolves j (with_records (<[k := r']> (records j)) j).
Proof.
  intros Hk ????. apply evolves_pointwise. rewrite <-(list_insert_id (records j) k r Hk) at 1. by apply Forall2_insert; [apply Forall_Forall2_diag, Forall_true|].
Qed.

(** A record replaced by one with the same id that clashes with nothing new. *)
Lemma Inv_insert j k r r' : Inv j → records j !! k = Some r → mid r' = mid r → record_range r' → record_loadable r' = true →
  (∀ i y, i ≠ k → records j !! i = Some y →
     active_twice r' y = false ∧ container_clash r' y = false ∧ flag_clash r' y = false) →
  policy r' = policy r → resource r' = resource r → backend (undo r') = backend (undo r) → good j (with_records (<[k := r']> (records j)) j).
Proof.
  intros Hinv Hk Hid Hrange Hload Hnew Hpol Hres Hback. split; [|by eapply evolves_insert]. destruct Hinv as [Hn Hr Hl Hok]. unfold journal_ok in Hok. use_checks.
  split; cbn [with_records records nextId]; [done|by apply Forall_insert| |].
  - apply forallb_forall. intros y Hy%list_elem_of_In. apply list_elem_of_lookup in Hy as [i Hi].
    destruct (decide (i = k)) as [->|Hne].
    + rewrite list_lookup_insert_eq in Hi by (by eapply lookup_lt_Some). by injection Hi as <-.
    + rewrite list_lookup_insert_ne in Hi by done. eapply forallb_elem; [done|]. apply list_elem_of_lookup. eauto.
  - unfold journal_ok. repeat (apply andb_true_iff; split).
    + apply forallb_forall. intros y Hy%list_elem_of_In. apply list_elem_of_lookup in Hy as [i Hi].
      assert (∀ z, z ∈ records j → (mid z <? nextId j)%Z = true) as Hall by (intros; by eapply (forallb_elem (λ r, (mid r <? nextId j)%Z))).
      destruct (decide (i = k)) as [->|Hne].
      * rewrite list_lookup_insert_eq in Hi by (by eapply lookup_lt_Some). injection Hi as <-. rewrite Hid. apply Hall.
        apply list_elem_of_lookup. eauto.
      * rewrite list_lookup_insert_ne in Hi by done. apply Hall. apply list_elem_of_lookup. eauto.
    + eapply no_clash_insert; eauto using same_id_sym. intros i y Hne Hy.
      assert (same_id r y = false) as Hs. { by eapply (no_clash_at _ _ k i); eauto using same_id_sym. }
      unfold same_id in *. by rewrite Hid.
    + eapply no_clash_insert; eauto using active_twice_sym. intros i y Hne Hy. by apply (Hnew i y).
    + eapply no_clash_insert; eauto using container_clash_sym. intros i y Hne Hy. by apply (Hnew i y).
    + eapply no_clash_insert; eauto using flag_clash_sym. intros i y Hne Hy. by apply (Hnew i y).
Qed.

(** The clashes of a record that keeps its identity and gains no authority are
    those it had. *)
Definition no_more (r r' : MutationRecord) : Prop :=
  mid r' = mid r ∧ policy r' = policy r ∧ resource r' = resource r ∧ backend (undo r') = backend (undo r) ∧
  (isActive r' = true → isActive r = true) ∧
  (∀ c, payload (undo r') = PContainer c → ∃ c0, payload (undo r) = PContainer c0 ∧ ct_configPath c0 = ct_configPath c) ∧
  (∀ f, isActive r' = true → payload (undo r') = PFlag f → ∃ f0, payload (undo r) = PFlag f0 ∧ pf_configPath f0 = pf_configPath f ∧
     ∀ x, x ∈ activePamFlagSuppressionAuthority r' f → x ∈ activePamFlagSuppressionAuthority r f0).

Lemma no_more_clash r r' y : no_more r r' →
  (active_twice r' y = true → active_twice r y = true) ∧ (container_clash r' y = true → container_clash r y = true) ∧
  (flag_clash r' y = true → flag_clash r y = true).
Proof.
  intros (_ & Hp & Hres & Hb & Ha & Hc & Hf). split_and!.
  - unfold active_twice, same_identity. rewrite Hp, Hres, Hb, !andb_true_iff. naive_solver.
  - unfold container_clash. rewrite !andb_true_iff. intros [[Hr' Hy] Hm]. split; [by auto|].
    destruct (payload (undo r')) as [| | | | | | | | | | | |c| | | | |] eqn:Hpay; try done. destruct (Hc c eq_refl) as (c0 & -> & Hpath).
    by rewrite Hpath.
  - unfold flag_clash. rewrite !andb_true_iff. intros [[Hr' Hy] Hm]. split; [by auto|].
    destruct (payload (undo r')) as [| | | | | | | | | | |f| | | | | |] eqn:Hpay; try done.
    destruct (Hf f Hr' eq_refl) as (f0 & -> & Hpath & Hauth). rewrite Hpath. destruct (payload (undo y)); try done.
    apply andb_true_iff in Hm as [-> Hm]. apply meets_spec in Hm as (x & Hx & Hx'). apply meets_spec. eauto.
Qed.

(** * What the writer admits the reader accepts *)

(** What the writer leaves to its callers: the backend is the payload's own,
    the legacy settings and the firewall policy are named, and a new sysctl
    record carries no release. *)
Definition writer_ok (u : UndoAction) : bool :=
  home (payload u) (backend u) &&
  match payload u with
  | PSetting p =>
      negb (is_empty (set_key p)) && negb (bool_decide (backend u = Sudo) && is_empty (set_appliedValue p)) &&
      match set_sysctl p with Some x => negb (is_some (sys_release x)) | None => true end
  | PFirewall p => negb (is_empty (fw_policyName p))
  | _ => true
  end.

Lemma admitted_checks j record : admitted j record = Returned true →
  (validateSudoGlobalRecord record && validSshRecord record && validSysctlRecord record = true ∧ usable j = true ∧
   negb (is_empty (moduleName (policy record))) && negb (is_empty (policyName (policy record))) && negb (is_empty (resource record)) = true) ∧
  scope_ok record && desktop_ok record = true ∧ scalar_admitted (records j) record = Returned true ∧
  artifact_admitted (records j) record && dm_ok record && dm_admitted (records j) record &&
  scalar_backends_admitted record && pam_admitted record && sudo_admitted (records j) record &&
  identity_admitted (records j) record && pam_unambiguous (records j) record = true.
Proof.
  unfold admitted. destruct (_ && validSysctlRecord record) eqn:H1; [|done]. cbn [negb].
  destruct (loaded j) eqn:Hl, (bool_decide (health j = Indeterminate)) eqn:Hh; try done. cbn [negb orb].
  destruct (is_empty (moduleName _)); [done|]. destruct (is_empty (policyName _)); [done|]. destruct (is_empty (resource _)); [done|]. cbn [negb orb].
  destruct (scope_ok record), (desktop_ok record); try done. cbn [negb orb].
  destruct (scalar_admitted _ _) as [[]|]; try done. rewrite andb_true_l. intros [= H2]. split; [|done]. split; [done|]. split; [|done].
  unfold usable. rewrite Hl. apply bool_decide_eq_false in Hh. by destruct (health j).
Qed.

(** The id of a sysctl record matters only to a predecessor's authority. *)
Lemma sysctl_new_id r r' : status r = Prepared → mid r = 0%Z → writer_ok (undo r) = true → validSysctlRecord r = true →
  policy r' = policy r → resource r' = resource r → undo r' = undo r → status r' = Prepared → validSysctlRecord r' = true.
Proof.
  intros Hs Hm Hw Hv Hp Hres Hu Hs'. unfold validSysctlRecord in *. rewrite Hu. destruct (payload (undo r)) as [p| | | | | | | | | | | | | | | | |] eqn:Hpay; try done.
  destruct (set_sysctl p) as [x|] eqn:Hx; [|done]. unfold writer_ok in Hw. rewrite Hpay, Hx in Hw. use_checks.
  destruct (sys_release x) eqn:Hrel; [done|]. cbn [andb] in *. unfold valid_sysctl_state in *.
  rewrite Hu, Hp, Hres, Hs', Hrel. rewrite Hs, Hm, Hrel in *. rewrite (bool_decide_true (Prepared = Prepared)) in * by done. use_checks. rewrite_checks. cbn [andb is_some] in *.
  destruct (sys_pending x), (sys_hadApplied x), (sys_previousLegacy x); simpl in *; try done.
  all: repeat match goal with H : negb (_ || _) = true |- _ => apply negb_true_iff, orb_false_iff in H as [? ?] end; simpl in *; try done.
  repeat match goal with H : is_empty _ = false |- _ => rewrite H end. by rewrite !bool_decide_true.
Qed.

Lemma scope_payload r p : payload (undo r) = PScope p → scope_ok r = true → validScopeCheckpoint p = true ∧ backend (undo r) = Scope.
Proof.
  unfold scope_ok, validScopeRecord. intros ->. cbn [is_scope]. rewrite orb_true_r. cbn [negb orb]. intros H. use_checks. done.
Qed.

Lemma dm_payload r p : payload (undo r) = PDm p → dm_ok r = true → bool_decide (dm_route p = 0%Z) = true ∧ backend (undo r) = DisplayManager.
Proof.
  unfold dm_ok, validDmRecord. intros ->. cbn [is_dm]. rewrite orb_true_r. cbn [negb orb]. intros H. use_checks.
  split; [by apply bool_decide_eq_true|done].
Qed.

(** The rules on a typed state the reader repeats. *)
Lemma sysctl_payload r p x : payload (undo r) = PSetting p → set_sysctl p = Some x → validSysctlRecord r = true →
  sysctl_transition_ok x = true ∧ backend (undo r) = Sysctl.
Proof.
  unfold validSysctlRecord. intros -> ->. intros [_ H]%andb_true_iff. unfold valid_sysctl_state in H. use_checks. split; [|done].
  unfold sysctl_transition_ok. rewrite_checks.
  destruct (sys_pending x), (sys_hadApplied x), (sys_previousLegacy x), (sys_attempted x), (is_empty (sys_targetValue x)),
    (bool_decide (status r = Prepared)); simpl in *; rewrite ?orb_true_r in *; try done; by rewrite !bool_decide_true, ?andb_true_r.
Qed.

(** The checks of the writer, kind by kind. *)
Lemma admitted_payload j record : admitted j record = Returned true → status record = Prepared → mid record = 0%Z →
  writer_ok (undo record) = true → payload_loadable (undo record) = true ∧ identity_matches record = true.
Proof.
  intros Hadm Hs Hm Hw. destruct (admitted_checks _ _ Hadm) as ((Hv & _ & _) & Hsd & _ & Hrest).
  apply andb_true_iff in Hsd as [Hscope _]. unfold writer_ok in Hw. use_checks.
  repeat match goal with H : artifact_admitted _ _ = true |- _ => clear H | H : dm_admitted _ _ = true |- _ => clear H
    | H : pam_unambiguous _ _ = true |- _ => clear H end.
  unfold payload_loadable, identity_matches. unfold scalar_backends_admitted, pam_admitted, sudo_admitted, identity_admitted, validateSudoGlobalRecord in *.
  destruct (payload (undo record)) as [p|p|p|p|p|p|p|p|p|p|p|p|p|p|p|p|p|p] eqn:Hp; destruct (backend (undo record)) eqn:Hb; try done;
    cbn [home] in *; use_checks; rewrite_checks; rewrite ?(bool_decide_true (_ = _)) by done; try done.
  - split; [|done]. cbn [orb andb]. rewrite !andb_true_r. destruct (set_sysctl p) as [x|] eqn:Hx; [|done].
    destruct (sysctl_payload _ _ _ Hp Hx ltac:(done)) as [Hok _]. unfold sysctl_loadable. rewrite Hok. by destruct (sys_release x).
  - split; [|done]. destruct (set_sysctl p) as [x|] eqn:Hx; [|done].
    destruct (sysctl_payload _ _ _ Hp Hx ltac:(done)) as [_ Hc]. by rewrite Hb in Hc.
  - destruct (sudo_route _); [|done]. by use_checks.
  - destruct (findSharedLoginDefsPolicySpec _); [|done]. use_checks. by rewrite_checks.
  - split; [|done]. by apply (scope_payload record).
  - split; [|done]. by destruct (dm_payload _ _ Hp ltac:(done)) as [-> _].
Qed.

(** [r'] is [r] under another id and other time stamps. *)
Definition same_content (r r' : MutationRecord) : Prop :=
  policy r' = policy r ∧ resource r' = resource r ∧ undo r' = undo r ∧ status r' = status r.

Lemma admitted_loadable j record r' : admitted j record = Returned true → status record = Prepared → mid record = 0%Z →
  writer_ok (undo record) = true → same_content record r' → record_loadable r' = true.
Proof.
  intros Hadm Hs Hm Hw (Hp & Hr & Hu & Hst). destruct (admitted_payload _ _ Hadm Hs Hm Hw) as [Hpay Hid].
  destruct (admitted_checks _ _ Hadm) as ((Hv & _ & Hnames) & Hsd & _ & Hrest). use_checks.
  unfold record_loadable. rewrite Hp, Hu, Hpay. rewrite (sysctl_new_id record r') by (done || congruence).
  destruct r' as [i' p' r' u' s' c' t' e'], record as [i p r u s c t e]. cbn [policy resource undo status] in *. subst. rewrite_checks.
  repeat (apply andb_true_iff; split); done.
Qed.

(** A loadable flag or container lives under PAM at its own path. *)
Lemma loadable_pam r : record_loadable r = true →
  match payload (undo r) with
  | PContainer c => backend (undo r) = Pam ∧ resource r = ct_configPath c
  | PFlag f => backend (undo r) = Pam ∧ resource r = pf_configPath f
  | _ => True
  end.
Proof.
  unfold record_loadable, payload_loadable, identity_matches. intros H. use_checks. destruct (payload (undo r)); try done; use_checks;
    match goal with Hb : backend (undo r) = Pam |- _ => rewrite Hb in *; use_checks end; (split; [done|by apply String.eqb_eq]).
Qed.

Lemma refreshes_spec record y : refreshes record y = true ↔
  isActive y = true ∧ policy y = policy record ∧ resource y = resource record ∧ backend (undo y) = backend (undo record).
Proof. unfold refreshes, same_identity. rewrite !andb_true_iff, !bool_decide_eq_true, String.eqb_eq. tauto. Qed.

Lemma admitted_no_clash j record r' y : admitted j record = Returned true → status record = Prepared →
  home (payload (undo record)) (backend (undo record)) = true → same_content record r' →
  record_loadable r' = true → y ∈ records j → record_loadable y = true → refreshes record y = false →
  active_twice r' y = false ∧ container_clash r' y = false ∧ flag_clash r' y = false.
Proof.
  intros Hadm Hs Hhome (Hp & Hres & Hu & Hst) Hl' Hy Hly Hno.
  destruct (admitted_checks _ _ Hadm) as (_ & _ & _ & Hrest). apply andb_true_iff in Hrest as [Hpam Hun].
  repeat (apply andb_true_iff in Hpam as [Hpam _]). clear Hpam.
  apply loadable_pam in Hl', Hly. rewrite Hu, Hres in Hl'. unfold pam_unambiguous in Hun.
  assert (isActive y = true → policy y = policy record → resource y = resource record → backend (undo y) = backend (undo record) → False) as Hnot.
  { intros. by rewrite (proj2 (refreshes_spec record y)) in Hno. }
  split_and!; apply not_true_iff_false; intros Hc.
  - unfold active_twice, same_identity in Hc. rewrite Hu in Hc. use_checks. apply Hnot; [done|..]; [congruence| |done].
    match goal with H : (_ =? _)%string = true |- _ => apply String.eqb_eq in H end. congruence.
  - unfold container_clash in Hc. rewrite Hu in Hc. use_checks. destruct (payload (undo record)) as [| | | | | | | | | | | |c| | | | |] eqn:Hpr; try done.
    destruct (payload (undo y)) as [| | | | | | | | | | | |c'| | | | |] eqn:Hpy; try done. destruct Hl' as [Hb Hr], Hly as [Hby Hry].
    rewrite Hb in Hun. pose proof (forallb_elem _ _ _ Hun Hy) as Hone. cbv beta in Hone. rewrite Hpy in Hone.
    rewrite_checks_in Hone.
    cbn [andb negb] in Hone. rewrite negb_involutive in Hone. use_checks. match goal with H : (_ =? _)%string = true |- _ => apply String.eqb_eq in H end.
    apply Hnot; congruence.
  - unfold flag_clash in Hc. rewrite Hu in Hc. use_checks. destruct (payload (undo record)) as [| | | | | | | | | | |f| | | | | |] eqn:Hpr; try done.
    destruct (payload (undo y)) as [| | | | | | | | | | |f'| | | | | |] eqn:Hpy; try done. destruct Hl' as [Hb Hr], Hly as [Hby Hry].
    use_checks. rewrite Hb in Hun. pose proof (forallb_elem _ _ _ Hun Hy) as Hone. cbv beta in Hone. rewrite Hpy in Hone.
    assert (activePamFlagSuppressionAuthority r' f = preparedPamFlagSuppressionAuthority f) as Hauth.
    { unfold activePamFlagSuppressionAuthority. rewrite_checks. cbn [negb]. by rewrite bool_decide_true by congruence. }
    rewrite Hauth in *. rewrite_checks_in Hone.
    rewrite bool_decide_true in Hone by done. cbn [negb orb andb] in Hone.
    match goal with H : (_ =? _)%string = true |- _ => apply String.eqb_eq in H end.
    destruct (decide (policy y = policy record)); [apply Hnot; congruence|]. rewrite bool_decide_false in Hone by done. cbn [orb] in Hone.
    assert (resource y =? resource record = true)%string as Heq by (apply String.eqb_eq; congruence). by rewrite Heq in Hone.
Qed.

(** * Preparing keeps the invariant *)

Definition clocked (clock : nat → Z) : Prop := ∀ n, i64 (clock n).

Lemma Inv_records j y : Inv j → y ∈ records j → record_range y ∧ record_loadable y = true ∧ (mid y < nextId j)%Z.
Proof.
  intros [_ Hr Hl Hok] Hy. rewrite Forall_forall in Hr. unfold journal_ok in Hok. use_checks. split; [by apply Hr|]. split; [by eapply forallb_elem|].
  apply Z.ltb_lt. by eapply (forallb_elem (λ r, (mid r <? nextId j)%Z)).
Qed.

Lemma Inv_append j r : Inv j → mid r = nextId j → (nextId j + 1 < 2 ^ 64)%Z → record_range r → record_loadable r = true →
  (∀ y, y ∈ records j → active_twice r y = false ∧ container_clash r y = false ∧ flag_clash r y = false) →
  good j (mkJournal (records j ++ [r])%list (wrap64 (nextId j + 1)) (loaded j) (lifecycleInitialized j) (health j)).
Proof.
  intros Hinv Hid Hnext Hrange Hload Hnew. pose proof Hinv as [Hn Hr Hl Hok]. unfold journal_ok in Hok. use_checks. unfold wrap64, u64 in *.
  rewrite Z.mod_small by lia. split.
  2: { split; cbn [records nextId loaded lifecycleInitialized health]; try done; [lia|]. intros y [Hy| ->%list_elem_of_singleton]%elem_of_app; [|right; lia].
       left. by exists y. }
  split; cbn [records nextId]; [unfold u64; lia|by apply Forall_app, conj, Forall_singleton| |].
  - by rewrite forallb_app, Hl; simpl; rewrite Hload.
  - unfold journal_ok. repeat (apply andb_true_iff; split).
    + apply forallb_forall. intros y Hy%list_elem_of_In. apply Z.ltb_lt. apply elem_of_app in Hy as [Hy|Hy].
      * destruct (Inv_records j y Hinv Hy) as (_ & _ & ?). lia.
      * apply list_elem_of_singleton in Hy as ->. lia.
    + apply no_clash_snoc; [apply same_id_sym|done|]. intros y Hy. destruct (Inv_records j y Hinv Hy) as (_ & _ & ?).
      apply bool_decide_eq_false. lia.
    + apply no_clash_snoc; [apply active_twice_sym|done|]. intros y Hy. by apply Hnew.
    + apply no_clash_snoc; [apply container_clash_sym|done|]. intros y Hy. by apply Hnew.
    + apply no_clash_snoc; [apply flag_clash_sym|done|]. intros y Hy. by apply Hnew.
Qed.

(** The active record of an identity is the only one. *)
Lemma refreshes_unique j record k existing n y : Inv j → records j !! k = Some existing → refreshes record existing = true →
  records j !! n = Some y → n ≠ k → refreshes record y = false.
Proof.
  intros [_ _ _ Hok] Hk Hex Hn Hne. unfold journal_ok in Hok. use_checks. apply not_true_iff_false. intros Hy.
  assert (active_twice existing y = false) as Hat by (eapply (no_clash_at _ _ k n); eauto using active_twice_sym).
  apply refreshes_spec in Hy as (Hay & Hpy & Hry & Hby). apply refreshes_spec in Hex as (Hax & Hpx & Hrx & Hbx).
  unfold active_twice, same_identity in Hat. rewrite Hay, Hax in Hat. cbn [andb] in Hat.
  rewrite !bool_decide_true in Hat by congruence. cbn [andb] in Hat. rewrite Hrx, Hry, String.eqb_refl in Hat. done.
Qed.

Section prepare.
Context `{JsonText} `{JsonStrict} (path : string) (clock : nat → Z).

Lemma prepareMutation_Inv record j w : clocked clock → Inv j → (nextId j + 1 < 2 ^ 64)%Z →
  mid record = 0%Z → status record = Prepared → writer_ok (undo record) = true → payload_range (payload (undo record)) →
  good j (prepareMutation path clock record j w).1.2.
Proof.
  intros Hc Hinv Hnext Hm Hs Hw Hrange. unfold prepareMutation. destruct (admitted j record) as [[]|] eqn:Hadm; [|done..].
  assert (home (payload (undo record)) (backend (undo record)) = true) as Hhome by (unfold writer_ok in Hw; by use_checks).
  assert (∀ r', same_content record r' → record_loadable r' = true ∧
    ∀ y, y ∈ records j → refreshes record y = false → active_twice r' y = false ∧ container_clash r' y = false ∧ flag_clash r' y = false) as Hnew.
  { intros r' Hsame. pose proof (admitted_loadable j record r' Hadm Hs Hm Hw Hsame) as Hl. split; [done|]. intros y Hy Hno.
    destruct (Inv_records j y Hinv Hy) as (_ & ? & _). by eapply (admitted_no_clash j record). }
  destruct (first_match (refreshes record) (records j)) as [existing|] eqn:Hf.
  - destruct (refresh_allowed existing record) as [[]|]; [|done..].
    destruct (first_match_Some _ _ _ Hf) as (k & Hk & Hex & ->). apply commit_good; [done|].
    destruct (Inv_records j existing Hinv) as ((? & ? & ? & ?) & _ & _); [apply list_elem_of_lookup; eauto|].
    pose proof Hex as (_ & Hpx & Hrx & Hbx)%refreshes_spec. destruct (Hnew (refreshed (clock 0) (undo record) existing)) as [Hl Hn].
    { by refine (conj _ (conj _ (conj _ _))). }
    eapply Inv_insert; eauto; [refine (conj _ (conj _ (conj _ _))); [done..|apply Hc]|]. intros n y Hne Hy. apply Hn; [apply list_elem_of_lookup; eauto|].
    by apply (refreshes_unique j record k existing n y).
  - apply commit_good; [done|]. set (fresh := mkRecord _ _ _ _ _ _ _ _).
    destruct (Hnew fresh) as [Hl Hn]; [by refine (conj _ (conj _ (conj _ _)))|].
    apply Inv_append; [done|done|done| |done|].
    + refine (conj _ (conj _ (conj _ _))); [by apply Hinv|done|apply Hc..].
    + intros y Hy. apply Hn; [done|]. by eapply first_match_None.
Qed.
End prepare.

(** * Changes record by record *)

(** What a change of a record may do. *)
Definition keeps (r r' : MutationRecord) : Prop := no_more r r' ∧ record_range r' ∧ record_loadable r' = true.

Lemma no_more_refl r : no_more r r.
Proof. refine (conj eq_refl (conj eq_refl (conj eq_refl (conj eq_refl (conj _ (conj _ _)))))); [done|naive_solver|naive_solver]. Qed.

Lemma keeps_refl j r : Inv j → r ∈ records j → keeps r r.
Proof. intros Hinv Hr. destruct (Inv_records j r Hinv Hr) as (? & ? & _). split; [apply no_more_refl|done]. Qed.

Lemma no_clash_pointwise (clash : MutationRecord → MutationRecord → bool) l l' :
  (∀ a b, clash a b = clash b a) → (∀ r r' y, no_more r r' → clash r' y = true → clash r y = true) →
  Forall2 keeps l l' → no_clash clash l = true → no_clash clash l' = true.
Proof.
  intros Hsym Hless Hall Hno. apply (no_clash_spec clash _ Hsym). intros i k x' y' Hne Hx Hy.
  destruct (Forall2_lookup_r _ _ _ _ _ Hall Hx) as (x & Hx0 & (Hx1 & _)). destruct (Forall2_lookup_r _ _ _ _ _ Hall Hy) as (y & Hy0 & (Hy1 & _)).
  apply not_true_iff_false. intros Hc. apply (Hless x) in Hc; [|done]. rewrite Hsym in Hc. apply (Hless y) in Hc; [|done].
  by rewrite (no_clash_at clash _ k i y x Hsym Hno) in Hc.
Qed.

Lemma Inv_pointwise j l : Inv j → Forall2 keeps (records j) l → good j (with_records l j).
Proof.
  intros Hinv Hall. split.
  2: { apply evolves_pointwise. eapply Forall2_impl; [done|]. by intros r r' ((? & ? & ? & ? & _) & _). }
  pose proof Hinv as [Hn Hr Hl Hok]. unfold journal_ok in Hok. use_checks.
  assert (∀ r', r' ∈ l → ∃ r, r ∈ records j ∧ keeps r r') as Hof.
  { intros r' [i Hi]%list_elem_of_lookup. destruct (Forall2_lookup_r _ _ _ _ _ Hall Hi) as (r & Hr0 & Hk). exists r. split; [|done].
    apply list_elem_of_lookup. eauto. }
  split; cbn [with_records records nextId]; [done| | |].
  - apply Forall_forall. intros r' (r & _ & (_ & ? & _))%Hof. done.
  - apply forallb_forall. intros r' (r & _ & (_ & _ & ?))%list_elem_of_In%Hof. done.
  - unfold journal_ok. repeat (apply andb_true_iff; split).
    + apply forallb_forall. intros r' (r & Hin & ((-> & _) & _))%list_elem_of_In%Hof. apply Z.ltb_lt. by apply (Inv_records j r Hinv).
    + eapply (no_clash_pointwise same_id); eauto using same_id_sym. intros r r' y (Hid & _). unfold same_id. by rewrite Hid.
    + eapply (no_clash_pointwise active_twice); eauto using active_twice_sym. intros r r' y Hm. by apply no_more_clash.
    + eapply (no_clash_pointwise container_clash); eauto using container_clash_sym. intros r r' y Hm. by apply no_more_clash.
    + eapply (no_clash_pointwise flag_clash); eauto using flag_clash_sym. intros r r' y Hm. by apply no_more_clash.
Qed.

Lemma change_first_pointwise {R : MutationRecord → MutationRecord → Prop} P f l r :
  (∀ x, x ∈ l → R x x) → first_match P l = Some r → R r (f r) → Forall2 R l (change_first P f l).
Proof.
  induction l as [|a l IH]; simpl; [done|]. intros Hrefl. destruct (P a).
  - intros [= ->] Hr. constructor; [done|]. clear IH. induction l; constructor; [|apply IHl]; set_solver.
  - intros. constructor; [|apply IH]; set_solver.
Qed.

Lemma Inv_change j i r f : Inv j → find_record i (records j) = Some r → keeps r (f r) → good j (change_record i f j).
Proof.
  intros Hinv Hf Hk. apply Inv_pointwise; [done|]. rewrite find_first in Hf. eapply change_first_pointwise; eauto.
  intros x Hx. by eapply keeps_refl.
Qed.

Lemma find_in i l r : find_record i l = Some r → r ∈ l ∧ mid r = i.
Proof.
  rewrite find_first. intros Hf. destruct (first_match_Some _ _ _ Hf) as (k & Hk & Hid & _). split; [apply list_elem_of_lookup; eauto|].
  unfold has_id in Hid. by apply bool_decide_eq_true in Hid.
Qed.
