(* ===== verification/JournalSteps.v ===== *)
(** Every operation of the journal keeps the invariant, the histories of a
    journal, and what a refresh or a refusal leaves alone. *)

From S2P Require Import Prelude PolicyModel FileModel AtomicWriter AtomicFacts Json JsonRead TargetStore OwnershipGrammar MutationRecord MutationValid MutationCodec CodecFacts CodecText Journal JournalFacts.
Open Scope string_scope.
Open Scope nat_scope.
Open Scope file_scope.

(** * Status and removal *)

(** The new status of a record brings nothing back to life. *)
Definition no_revival (s : MutationStatus) (r : MutationRecord) : Prop :=
  (isActive (with_status s r) = true → isActive r = true) ∧ (s = Prepared → status r = Prepared).

Lemma authority_settles s r f x : no_revival s r → x ∈ activePamFlagSuppressionAuthority (with_status s r) f →
  x ∈ activePamFlagSuppressionAuthority r f.
Proof.
  intros [Ha Hs]. unfold activePamFlagSuppressionAuthority. destruct (isActive (with_status s r)); simpl; [|set_solver].
  rewrite (Ha eq_refl). simpl. case_bool_decide; [rewrite bool_decide_true by auto; done|].
  case_bool_decide; [|done]. unfold preparedPamFlagSuppressionAuthority. set_solver.
Qed.

Lemma settled_valid g : validateSudoGlobalDefaultPayload g = true →
  validateSudoGlobalDefaultPayload (mkSudoGlobal (sg_key g) (sg_appliedLine g) "" (sg_containerId g) (sg_addedSeparator g)
    (sg_separatorPrefixDigest g)) = true.
Proof.
  unfold validateSudoGlobalDefaultPayload, separator_proven. intros H. use_checks. cbn [sg_key sg_appliedLine sg_previousLine sg_containerId sg_addedSeparator
    sg_separatorPrefixDigest is_empty]. by rewrite_checks.
Qed.

(** Settling keeps every kind of payload but a global sudoers default. *)
Lemma settled_same s p : (∀ g, p ≠ PSudoGlobal g) ∨ s ≠ Applied → settled_payload s p = p.
Proof. destruct s, p; simpl; intros [Hp|Hs]; try done; by destruct (Hp p). Qed.

Lemma status_loadable s r : record_loadable r = true →
  let r' := with_payload (settled_payload s (payload (undo r))) (with_status s r) in
  desktop_ok r' = true → (bool_decide (backend (undo r') = Scope) && negb (validScopeRecord r')) = false → dm_ok r' = true →
  validSshRecord r' && validSysctlRecord r' = true → record_loadable r' = true.
Proof.
  intros Hl r' Hd Hsc Hdm Hv. pose proof Hl as Hl0. unfold record_loadable in Hl. use_checks. unfold record_loadable. rewrite_checks.
  destruct r as [i pol res [b p] st c u e]. unfold r' in *. clear r'. unfold with_payload, with_status, with_undo in *.
  cbn [mid policy resource undo status createdAtEpoch updatedAtEpoch merror payload backend] in *. rewrite_checks.
  assert (scope_ok (mkRecord i pol res (mkUndo b (settled_payload s p)) s c u e) = true) as ->.
  { unfold scope_ok. cbn [undo backend payload] in *. match goal with Hp : payload_loadable _ = true |- _ => apply loadable_home in Hp; cbn [payload backend] in Hp end.
    destruct (bool_decide (b = Scope)) eqn:Hb; simpl in Hsc |- *.
    - apply negb_false_iff in Hsc. exact Hsc.
    - apply bool_decide_eq_false in Hb. destruct p; try (by destruct s); by destruct b. }
  rewrite !andb_true_r. destruct (decide (s = Applied)) as [->|Hs]; [|rewrite settled_same by auto; rewrite !andb_true_iff; split_and!; done].
  destruct p as [p|g|p|p|p|p|p|p|p|p|p|p|p|p|p|p|p|p]; cbn [settled_payload];
    try (rewrite !andb_true_iff; split_and!; done).
  unfold payload_loadable, validateSudoGlobalRecord, identity_matches in *. cbn [payload backend undo policy resource sg_key] in *.
  destruct (sudo_route (sg_key g)); [|done]. use_checks. rewrite settled_valid by done. rewrite_checks. subst b. done.
Qed.

(** The time stamp and the message of a record are nobody's authority. *)
Lemma keeps_stamped r r' now e : i64 now → keeps r r' → keeps r (with_updated now (with_error e r')).
Proof.
  intros Hn (Hm & (? & ? & ? & ?) & Hl). split; [exact Hm|]. split; [by refine (conj _ (conj _ (conj _ _)))|exact Hl].
Qed.

Lemma keeps_updated r r' now : i64 now → keeps r r' → keeps r (with_updated now r').
Proof. intros Hn (Hm & (? & ? & ? & ?) & Hl). split; [exact Hm|]. split; [by refine (conj _ (conj _ (conj _ _)))|exact Hl]. Qed.

Lemma settled_keeps s r : record_range r → no_revival s r →
  let r' := with_payload (settled_payload s (payload (undo r))) (with_status s r) in record_loadable r' = true → keeps r r'.
Proof.
  intros (? & Hp & ? & ?) Hs r' Hl. split; [|split; [|done]].
  - refine (conj eq_refl (conj eq_refl (conj eq_refl (conj eq_refl (conj _ (conj _ _)))))).
    + apply Hs.
    + intros c Hc. assert (payload (undo r) = PContainer c) as ->; [|eauto]. unfold r' in Hc. cbn [with_payload with_undo undo payload] in Hc.
      by destruct s, (payload (undo r)).
    + intros f Ha Hf. assert (payload (undo r) = PFlag f) as ->.
      { unfold r' in Hf. cbn [with_payload with_undo undo payload] in Hf. by destruct s, (payload (undo r)). }
      exists f. split; [done|]. split; [done|]. intros x. by apply (authority_settles s).
  - refine (conj _ (conj _ (conj _ _))); try done. unfold r'. cbn [with_payload with_undo undo payload]. by destruct s, (payload (undo r)).
Qed.

Lemma Inv_sublist j l : Inv j → l `sublist_of` records j → good j (with_records l j).
Proof.
  intros Hinv Hs. assert (∀ r, r ∈ l → r ∈ records j) as Hof by (intros; by eapply elem_of_sublist). split.
  2: { split; try done. intros r Hr%Hof. left. by exists r. }
  pose proof Hinv as [Hn Hr Hl Hok]. unfold journal_ok in Hok. use_checks.
  split; cbn [with_records records nextId]; [done| | |].
  - apply Forall_forall. intros r Hin%Hof. by apply (Inv_records j r Hinv).
  - apply forallb_forall. intros r Hin%list_elem_of_In%Hof. by apply (Inv_records j r Hinv).
  - unfold journal_ok. repeat (apply andb_true_iff; split); try (by eapply no_clash_sublist).
    apply forallb_forall. intros r Hin%list_elem_of_In%Hof. apply Z.ltb_lt. by apply (Inv_records j r Hinv).
Qed.

Lemma remove_first_sublist P l : remove_first P l `sublist_of` l.
Proof. induction l as [|r l IH]; simpl; [constructor|]. destruct (P r); by constructor. Qed.

(** * The typed sysctl states *)

Definition release_loadable (x : SysctlSettingState) : bool :=
  match sys_release x with
  | Some r => snapshot_loadable (rel_before r) && snapshot_loadable (rel_target r) && snapshot_loadable (rel_prepared r)
  | None => true
  end.

(** What a typed state in the journal satisfies. *)
Definition state_ok (x : SysctlSettingState) : Prop := sysctl_range x ∧ release_loadable x = true.

(** A change of the typed state of a sysctl record. *)
Definition sysctl_change (r r' : MutationRecord) : Prop :=
  mid r' = mid r ∧ policy r' = policy r ∧ resource r' = resource r ∧ backend (undo r) = Sysctl ∧ backend (undo r') = Sysctl ∧
  (isActive r' = true → isActive r = true) ∧ i64 (createdAtEpoch r') ∧ i64 (updatedAtEpoch r') ∧
  ∃ p p', payload (undo r) = PSetting p ∧ payload (undo r') = PSetting p' ∧ set_key p' = set_key p ∧
    ∀ x, set_sysctl p' = Some x → state_ok x.

Lemma sysctl_change_keeps r r' : record_range r → record_loadable r = true → sysctl_change r r' → validSysctlRecord r' = true → keeps r r'.
Proof.
  intros (Hid & _ & _ & _) Hl (Hm & Hp & Hres & Hb & Hb' & Ha & Hc & Hu & p & p' & Hpay & Hpay' & Hkey & Hx) Hv. split; [|split].
  - refine (conj Hm (conj Hp (conj Hres (conj _ (conj Ha (conj _ _)))))); rewrite ?Hpay'; [congruence|done..].
  - refine (conj _ (conj _ (conj Hc Hu))); [by rewrite Hm|]. rewrite Hpay'. intros x Hs. by apply Hx.
  - unfold record_loadable in *. use_checks. rewrite Hp, Hv. rewrite_checks.
    unfold payload_loadable, validateSudoGlobalRecord, identity_matches, validSshRecord, desktop_ok, scope_ok, dm_ok in *.
    rewrite Hpay, Hb in *. rewrite Hpay', Hb' in *. cbn [is_desktop is_scope is_dm] in *. rewrite (bool_decide_true (Sysctl = Sysctl)) by done. rewrite !bool_decide_false by done.
    cbn [orb negb andb] in *. rewrite !andb_true_r. rewrite Hkey. use_checks. rewrite_checks. rewrite andb_true_r.
    destruct (set_sysctl p') as [x|] eqn:Hs; [|done]. destruct (Hx x eq_refl) as [_ Hrel]. cbn [andb]. unfold sysctl_loadable.
    destruct (sysctl_payload r' p' x Hpay' Hs Hv) as [-> _]. exact Hrel.
Qed.

Lemma sysctl_known j r p x : Inv j → r ∈ records j → payload (undo r) = PSetting p → set_sysctl p = Some x →
  state_ok x ∧ backend (undo r) = Sysctl.
Proof.
  intros Hinv Hin Hp Hx. destruct (Inv_records j r Hinv Hin) as ((_ & Hr & _ & _) & Hl & _). rewrite Hp in Hr. split; [split; [by apply Hr|]|].
  - unfold record_loadable, payload_loadable in Hl. rewrite Hp, Hx in Hl. use_checks. unfold sysctl_loadable in *. by use_checks.
  - apply (sysctl_payload r p x Hp Hx). unfold record_loadable in Hl. by use_checks.
Qed.

Lemma state_ok_identity x i : state_ok x → identity_range i → state_ok (with_identity i x).
Proof. intros [(? & ? & ? & ?) ?] Hi. split; [|done]. refine (conj _ (conj _ (conj _ _))); try done. by intros ? [= <-]. Qed.

Lemma state_ok_resolved x x' : state_ok x → resolved_state x = Some x' → state_ok x'.
Proof. unfold resolved_state. intros [(? & ? & ? & ?) ?]. destruct (sys_previousLegacy x); [done|]. intros [= <-]. split; [|done]. by refine (conj _ (conj _ (conj _ _))). Qed.

Lemma state_ok_release x rel : state_ok x →
  (∀ r, rel = Some r → u32 (rel_version r) ∧ snapshot_range (rel_before r) ∧ snapshot_range (rel_target r) ∧ snapshot_range (rel_prepared r) ∧
     snapshot_loadable (rel_before r) && snapshot_loadable (rel_target r) && snapshot_loadable (rel_prepared r) = true) →
  state_ok (with_release rel x).
Proof.
  intros [(? & ? & ? & ?) _] Hr. split.
  - refine (conj _ (conj _ (conj _ _))); try done. cbn [with_release sys_release]. intros r Heq. by destruct (Hr r Heq) as (? & ? & ? & ? & _).
  - unfold release_loadable. cbn [with_release sys_release]. destruct rel as [r|]; [|done]. by apply (Hr r).
Qed.

Lemma with_status_same s r : status r = s → with_status s r = r.
Proof. destruct r. by intros <-. Qed.

Lemma setting_change j r p p' s : Inv j → r ∈ records j → payload (undo r) = PSetting p → backend (undo r) = Sysctl →
  (isActive (with_status s r) = true → isActive r = true) → set_key p' = set_key p → (∀ x, set_sysctl p' = Some x → state_ok x) →
  sysctl_change r (with_status s (with_payload (PSetting p') r)).
Proof.
  intros Hinv Hin Hp Hb Ha Hk Hx. destruct (Inv_records j r Hinv Hin) as ((? & ? & ? & ?) & _ & _).
  refine (conj eq_refl (conj eq_refl (conj eq_refl (conj Hb (conj Hb (conj Ha (conj _ (conj _ _)))))))); [done..|]. by exists p, p'.
Qed.

Lemma change_error r r' e : sysctl_change r r' → sysctl_change r (with_error e r').
Proof. done. Qed.

Lemma change_updated r r' now : i64 now → sysctl_change r r' → sysctl_change r (with_updated now r').
Proof. by intros Hn (? & ? & ? & ? & ? & ? & ? & _ & ?). Qed.

Lemma change_same_status r r' : sysctl_change r (with_status (status r') r') → sysctl_change r r'.
Proof. by rewrite with_status_same. Qed.

(** A record left alone or changed. *)
Definition sysctl_step (r r' : MutationRecord) : Prop := r' = r ∨ sysctl_change r r'.

Lemma rebind_change j r r' now i : Inv j → r ∈ records j → sysctl_step r r' → owns_created r' = true → i64 now → identity_range i →
  sysctl_change r (rebind now i r').
Proof.
  intros Hinv Hin Hstep Ho Hn Hi. unfold owns_created, active_sysctl, rebind, setting_of in *. use_checks.
  destruct (payload (undo r')) as [p'| | | | | | | | | | | | | | | | |] eqn:Hp'; try done. destruct (set_sysctl p') as [x|] eqn:Hx; [|done].
  assert (sysctl_change r r') as (? & ? & ? & ? & ? & ? & ? & ? & p & p0 & Hp & Hp0 & Hk & Hok).
  { destruct Hstep as [-> |?]; [|done]. apply change_same_status. destruct (sysctl_known j r p' x Hinv Hin Hp' Hx) as [Hx0 _].
    replace r with (with_payload (PSetting p') r) at 3 by (destruct r as [? ? ? [? ?] ? ? ? ?]; cbn in *; by subst).
    apply (setting_change j r p'); [done..|]. intros ? Hy. by simplify_eq. }
  apply change_updated; [done|]. rewrite Hp' in Hp0. injection Hp0 as <-.
  refine (conj _ (conj _ (conj _ (conj _ (conj _ (conj _ (conj _ (conj _ _)))))))); try done.
  exists p, (with_sysctl (Some (with_identity i x)) p'). split; [done|]. split; [done|]. split; [done|]. intros ? [= <-].
  apply state_ok_identity; [by apply Hok|done].
Qed.

Lemma rebind_steps j clock i l l' : Inv j → clocked clock → identity_range i → (∀ r, r ∈ l → r ∈ records j) →
  Forall2 sysctl_step l l' → Forall2 sysctl_step l (rebind_owners clock i l').
Proof.
  intros Hinv Hc Hi Hin Hall. revert clock Hc. induction Hall as [|r r' l l' Hr Hall IH]; intros clock Hc; [constructor|].
  cbn [rebind_owners]. destruct (owns_created r') eqn:Ho; constructor; try done.
  - right. eapply rebind_change; try done. apply Hin. by left.
  - apply IH; [set_solver|]. intros n. apply Hc.
  - apply IH; [set_solver|done].
Qed.

Lemma changed_steps j i r r' : Inv j → find_record i (records j) = Some r → sysctl_change r r' →
  Forall2 sysctl_step (records j) (change_first (has_id i) (λ _, r') (records j)).
Proof.
  intros Hinv Hf Hch. rewrite find_first in Hf. eapply (change_first_pointwise (R := sysctl_step) _ _ _ r); [by left|done|by right].
Qed.

Lemma find_unique j r : Inv j → r ∈ records j → find_record (mid r) (records j) = Some r.
Proof.
  intros [_ _ _ Hok] [k Hk]%list_elem_of_lookup. unfold journal_ok in Hok. use_checks. rewrite find_first.
  destruct (first_match _ _) as [y|] eqn:Hf.
  - destruct (first_match_Some _ _ _ Hf) as (n & Hn & Hid & _). destruct (decide (n = k)) as [->|Hne]; [congruence|].
    assert (same_id y r = false) as Hs by (eapply (no_clash_at _ _ n k); eauto using same_id_sym). unfold same_id, has_id in *. congruence.
  - assert (has_id (mid r) r = false) as Hno by (eapply first_match_None; [done|apply list_elem_of_lookup; eauto]).
    unfold has_id in Hno. by rewrite bool_decide_true in Hno.
Qed.

Lemma sysctl_predecessor_in p key old l r : sysctl_predecessor p key old l = Some (Some r) →
  old = Some r ∨ r ∈ l ∧ active_sysctl r = true ∧ status r = Applied ∧ policy r = p.
Proof.
  revert old. induction l as [|a l IH]; intros old; simpl; [intros [= <-]; by left|].
  destruct (active_sysctl a) eqn:Ha; simpl; [|intros [?|?]%IH; [by left|right; set_solver]].
  destruct (busy a); [done|]. case_bool_decide as Hp; [|intros [?|?]%IH; [by left|right; set_solver]].
  destruct (_ || negb (bool_decide (status a = Applied))) eqn:Hc; [done|]. apply orb_false_iff in Hc as [_ Hst%negb_false_iff]. use_checks.
  intros [[= ->]|?]%IH; right; set_solver.
Qed.

(** The kinds whose validity is that of the payload and of the identity. *)
Definition owned_kind (p : UndoPayload) : bool :=
  match p with PUserCreation _ | PLoginDefs _ | PSudoScoped _ | PSudoAuth _ => true | _ => false end.

Lemma owned_keeps r s p' : let r' := with_status s (with_payload p' r) in
  record_range r → record_loadable r = true → status r = Prepared → owned_kind p' = true →
  payload_loadable (mkUndo (backend (undo r)) p') = true → validateSudoGlobalRecord r' = true → identity_matches r' = true → keeps r r'.
Proof.
  intros r' (? & _ & ? & ?) Hl Hs Hk Hp Hg Hi. split; [|split].
  - refine (conj eq_refl (conj eq_refl (conj eq_refl (conj eq_refl (conj _ (conj _ _)))))).
    + intros _. unfold isActive. by rewrite Hs.
    + intros c Hc. unfold r' in Hc. cbn in Hc. by subst p'.
    + intros f _ Hf. unfold r' in Hf. cbn in Hf. by subst p'.
  - refine (conj _ (conj _ (conj _ _))); try done. unfold r'. cbn [with_status with_payload with_undo undo payload]. by destruct p'.
  - unfold record_loadable in *. use_checks. rewrite Hg, Hi. change (undo r') with (mkUndo (backend (undo r)) p'). rewrite Hp.
    change (policy r') with (policy r). rewrite_checks. unfold payload_loadable in Hp. cbn [payload backend] in Hp.
    unfold validSshRecord, validSysctlRecord, desktop_ok, scope_ok, dm_ok. change (undo r') with (mkUndo (backend (undo r)) p'). cbn [payload backend].
    destruct p'; try done; use_checks;
      match goal with Hb : backend (undo r) = _ |- _ => rewrite Hb end; by rewrite !bool_decide_false.
Qed.

(** * Every operation *)

Section ops.
Context `{JsonText} `{JsonStrict} (path : string) (clock : nat → Z) (Hclock : clocked clock).

Lemma setStatus_Inv i s message j w : Inv j → (∀ r, find_record i (records j) = Some r → no_revival s r) →
  good j (setStatusWithMessage path clock i s message j w).1.2.
Proof.
  intros Hinv Hs. unfold setStatusWithMessage. destruct (_ || _); [done|]. destruct (find_record i (records j)) as [r|] eqn:Hf; [|done].
  destruct (find_in _ _ _ Hf) as [Hin _]. destruct (Inv_records j r Hinv Hin) as (Hr & Hl & _).
  set (r' := with_payload _ _). destruct (desktop_ok r') eqn:Hd; [|done]. destruct (bool_decide (backend (undo r') = Scope) && negb (validScopeRecord r')) eqn:Hsc; [done|].
  destruct (dm_ok r') eqn:Hdm; [|done]. destruct (validSshRecord r' && validSysctlRecord r') eqn:Hv; [|done]. cbn [negb].
  destruct (unresolved_sysctl r' && _); [done|]. apply commit_good; [done|]. eapply Inv_change; [done|done|]. apply keeps_stamped; [apply Hclock|].
  apply settled_keeps; [done|by apply Hs|]. by apply status_loadable.
Qed.

Lemma discard_Inv i proven j w : Inv j → good j (discardImpl path i proven j w).1.2.
Proof.
  intros Hinv. unfold discardImpl. destruct (existsb _ _); [done|]. destruct (_ || _); [done|]. destruct (find_record _ _) as [r|]; [|done].
  destruct (_ && _); [done|]. apply commit_good; [done|]. apply Inv_sublist; [done|apply remove_first_sublist].
Qed.

Lemma normalize_Inv i change j w : Inv j → (∀ r r', r ∈ records j → change r = Some r' → keeps r r') → good j (normalize path i change j w).1.2.
Proof.
  intros Hinv Hch. unfold normalize. destruct (_ || _); [done|]. destruct (find_record i (records j)) as [r|] eqn:Hf; [|done].
  cbn [base.mbind option_bind]. destruct (change r) as [r'|] eqn:Hr; [|done]. apply commit_good; [done|].
  eapply Inv_change; [done|done|]. apply Hch; [|done]. by eapply find_in.
Qed.

Lemma normalizeUserCreation_Inv i proven j w : Inv j →
  good j (normalizeUserCreationPreparedToProvenState path clock i proven j w).1.2.
Proof.
  intros Hinv. apply normalize_Inv; [done|]. intros r r' Hin Hr. destruct (Inv_records j r Hinv Hin) as (Hrange & Hl & _).
  destruct (status r) eqn:Hs; try done. destruct (backend (undo r)) eqn:Hb; try done.
  destruct (payload (undo r)) as [| | | |p| | | | | | | | | | | | |] eqn:Hp; try done.
  destruct (_ || _); [done|]. cbv zeta in Hr. destruct (validateUserCreationUndoPayload _) eqn:Hv; [|done]. injection Hr as <-.
  apply keeps_stamped; [apply Hclock|]. rewrite <-(with_status_same Prepared (with_payload _ r)) by done.
  apply (owned_keeps r Prepared); try done; unfold payload_loadable; cbn [payload backend]; rewrite ?Hb.
  - by rewrite bool_decide_true.
  - unfold record_loadable, identity_matches in *. cbn [with_status with_payload with_undo undo payload backend policy resource
      uc_policyName uc_configPath ld_policyName ld_configPath]. rewrite Hb, Hp in *. use_checks. try destruct (findSharedLoginDefsPolicySpec _); use_checks; by rewrite_checks.
Qed.

Lemma normalizeIdentityLoginDefs_Inv i proven j w : Inv j →
  good j (normalizeIdentityLoginDefsPreparedToProvenState path clock i proven j w).1.2.
Proof.
  intros Hinv. apply normalize_Inv; [done|]. intros r r' Hin Hr. destruct (Inv_records j r Hinv Hin) as (Hrange & Hl & _).
  destruct (status r) eqn:Hs; try done. destruct (backend (undo r)) eqn:Hb; try done.
  destruct (payload (undo r)) as [| | | | | | | | | | | | |p| | | |] eqn:Hp; try done.
  destruct (_ || _); [done|]. cbv zeta in Hr. destruct (validateIdentityLoginDefsUndoPayload _) eqn:Hv; [|done]. injection Hr as <-.
  apply keeps_stamped; [apply Hclock|]. rewrite <-(with_status_same Prepared (with_payload _ r)) by done.
  apply (owned_keeps r Prepared); try done; unfold payload_loadable; cbn [payload backend]; rewrite ?Hb.
  - by rewrite bool_decide_true.
  - unfold record_loadable, identity_matches in *. cbn [with_status with_payload with_undo undo payload backend policy resource
      uc_policyName uc_configPath ld_policyName ld_configPath]. rewrite Hb, Hp in *. use_checks. try destruct (findSharedLoginDefsPolicySpec _); use_checks; by rewrite_checks.
Qed.

Lemma normalizeSudoScoped_Inv i proven j w : Inv j →
  good j (normalizeSudoScopedDefaultsPreparedToPrevious path clock i proven j w).1.2.
Proof.
  intros Hinv. apply normalize_Inv; [done|]. intros r r' Hin Hr. destruct (Inv_records j r Hinv Hin) as (Hrange & Hl & _).
  destruct (status r) eqn:Hs; try done. destruct (backend (undo r)) eqn:Hb; try done.
  destruct (payload (undo r)) as [| |p| | | | | | | | | | | | | | |] eqn:Hp; try done.
  destruct (_ || _); [done|]. cbv zeta in Hr. destruct (validateSudoScopedDefaultsUndoPayload _) eqn:Hv; [|done]. injection Hr as <-.
  apply keeps_stamped; [apply Hclock|]. apply (owned_keeps r Applied); try done; unfold payload_loadable, identity_matches;
    cbn [with_status with_payload with_undo undo payload backend]; rewrite Hb; [by rewrite bool_decide_true|done].
Qed.

Lemma normalizeSudoAuthentication_Inv i proven j w : Inv j →
  good j (normalizeSudoAuthenticationPreparedToPrevious path clock i proven j w).1.2.
Proof.
  intros Hinv. apply normalize_Inv; [done|]. intros r r' Hin Hr. destruct (Inv_records j r Hinv Hin) as (Hrange & Hl & _).
  destruct (status r) eqn:Hs; try done. destruct (backend (undo r)) eqn:Hb; try done.
  destruct (payload (undo r)) as [| | |p| | | | | | | | | | | | | |] eqn:Hp; try done.
  destruct (_ || _); [done|]. cbv zeta in Hr. destruct (validateSudoAuthenticationPayload _) eqn:Hv; [|done]. injection Hr as <-.
  apply keeps_stamped; [apply Hclock|]. apply (owned_keeps r Applied); try done; unfold payload_loadable, identity_matches;
    cbn [with_status with_payload with_undo undo payload backend]; rewrite ?Hb; [by rewrite bool_decide_true| |done].
  unfold record_loadable, validateSudoGlobalRecord in *. cbn [with_status with_payload with_undo undo payload backend policy resource].
  rewrite Hp in Hl. use_checks. rewrite_checks. by rewrite bool_decide_true.
Qed.

(** ** Typed sysctl ownership *)

Lemma persistRecordChange_Inv i r r' j w : Inv j → find_record i (records j) = Some r → sysctl_change r r' →
  good j (persistRecordChange path clock i r' j w).1.2.
Proof.
  intros Hinv Hf Hch. unfold persistRecordChange. destruct (_ && _) eqn:Hv; [|done]. cbn [negb]. apply andb_true_iff in Hv as [_ Hv].
  destruct (find_in _ _ _ Hf) as [Hin _]. destruct (Inv_records j r Hinv Hin) as (Hr & Hl & _). apply commit_good; [done|].
  eapply Inv_change; [done|done|]. apply keeps_updated; [apply Hclock|]. by apply sysctl_change_keeps.
Qed.

Lemma persistSysctlChange_Inv l j w : Inv j → Forall2 sysctl_step (records j) l →
  good j (persistSysctlChange path l j w).1.2.
Proof.
  intros Hinv Hall. unfold persistSysctlChange. destruct (forallb _ _) eqn:Hv; [|done]. apply commit_good; [done|].
  apply Inv_pointwise; [done|]. apply Forall2_same_length_lookup_2; [by eapply Forall2_length|]. intros n r r' Hr Hr'.
  assert (r ∈ records j) as Hin by (apply list_elem_of_lookup; eauto). destruct (Inv_records j r Hinv Hin) as (? & ? & _).
  destruct (Forall2_lookup_lr _ _ _ _ _ _ Hall Hr Hr') as [-> |Hch]; [by eapply keeps_refl|]. apply sysctl_change_keeps; try done.
  eapply (forallb_elem validSysctlRecord); [done|]. apply list_elem_of_lookup. eauto.
Qed.

Lemma pending_record_inv i j r p x : pending_record i j = Some (r, p, x) →
  find_record i (records j) = Some r ∧ payload (undo r) = PSetting p ∧ set_sysctl p = Some x ∧ status r = Prepared ∧
  backend (undo r) = Sysctl ∧ sys_pending x = true ∧ usable j = true.
Proof.
  unfold pending_record. destruct (find_record i (records j)) as [r0|]; [|done]. cbn [base.mbind option_bind].
  unfold setting_of. destruct (payload (undo r0)) eqn:Hp; try done. cbn [base.mbind option_bind].
  destruct (set_sysctl p0) as [x0|] eqn:Hx; [|done]. cbn [base.mbind option_bind]. destruct (_ && sys_pending x0) eqn:Hc; [|done].
  intros [= <- <- <-]. use_checks. done.
Qed.

Lemma prepared_active r : status r = Prepared → isActive r = true.
Proof. unfold isActive. by intros ->. Qed.

Lemma noteSysctlAttempt_Inv i j w : Inv j → good j (noteSysctlAttempt path clock i j w).1.2.
Proof.
  intros Hinv. unfold noteSysctlAttempt. destruct (pending_record i j) as [[[r p] x]|] eqn:Hp; [|done]. destruct (sys_attempted x); [done|].
  apply pending_record_inv in Hp as (Hf & Hpay & Hx & Hs & Hb & _ & _). destruct (find_in _ _ _ Hf) as [Hin _].
  destruct (sysctl_known j r p x Hinv Hin Hpay Hx) as [[(? & ? & ? & ?) ?] _]. eapply persistRecordChange_Inv; [done|done|].
  apply change_same_status. apply (setting_change j r p); try done. intros ? [= <-]. split; [|done]. by refine (conj _ (conj _ (conj _ _))).
Qed.

Lemma abortSysctl_Inv i b j w : Inv j → good j (abortSysctlNoEffect path clock i b j w).1.2.
Proof.
  intros Hinv. unfold abortSysctlNoEffect. destruct (pending_record i j) as [[[r p] x]|] eqn:Hp; [|done]. destruct (_ && _); [done|].
  destruct (sys_hadApplied x); cbn [negb]; [|by apply discard_Inv].
  apply pending_record_inv in Hp as (Hf & Hpay & Hx & Hs & Hb & _ & _). destruct (find_in _ _ _ Hf) as [Hin _].
  destruct (sysctl_known j r p x Hinv Hin Hpay Hx) as [Hok _]. eapply persistRecordChange_Inv; [done|done|].
  apply change_error, (setting_change j r p); try done; [intros _; by apply prepared_active|]. intros y. by apply state_ok_resolved.
Qed.

Lemma finishSysctl_Inv i published j w : Inv j → identity_range (identity published) →
  good j (finishSysctl path clock i published j w).1.2.
Proof.
  intros Hinv Hid. unfold finishSysctl. destruct (pending_record i j) as [[[r p] x]|] eqn:Hp; [|done]. destruct (negb _); [done|].
  apply pending_record_inv in Hp as (Hf & Hpay & Hx & Hs & Hb & _ & _). destruct (find_in _ _ _ Hf) as [Hin _].
  destruct (sysctl_known j r p x Hinv Hin Hpay Hx) as [Hok _]. apply persistSysctlChange_Inv; [done|].
  eapply rebind_steps; try done; [intros n; apply Hclock|]. eapply changed_steps; [done|done|]. apply change_updated; [apply Hclock|].
  apply change_error, (setting_change j r p); try done; [intros _; by apply prepared_active|]. intros y. by apply state_ok_resolved.
Qed.

Lemma prepareSysctl_Inv p key target created origin container j w : Inv j → (nextId j + 1 < 2 ^ 64)%Z → u64 origin →
  snapshot_range container → good j (prepareSysctl path clock p key target created origin container j w).1.2.
Proof.
  intros Hinv Hnext Ho Hcont. unfold prepareSysctl. destruct (_ || _) eqn:Hg; [done|].
  destruct (sysctl_predecessor p key None (records j)) as [[r|]|] eqn:Hold; [| |done]; (destruct (negb (legacy_origin_ok _ _)); [done|]).
  - apply sysctl_predecessor_in in Hold as [?|(Hin & Ha & _ & _)]; [done|]. unfold setting_of.
    destruct (payload (undo r)) as [setting| | | | | | | | | | | | | | | | |] eqn:Hpay; try done. destruct (match set_sysctl setting with Some _ => _ | None => _ end); [done|].
    unfold active_sysctl in Ha. use_checks. destruct (Inv_records j r Hinv Hin) as ((Hid & _) & _ & _).
    set (r' := with_error _ _). unfold mbind. assert (good j (persistRecordChange path clock (mid r) r' j w).1.2) as Hres.
    { eapply persistRecordChange_Inv; [done|by apply find_unique|]. apply change_error, (setting_change j r setting); try done.
      intros ? [= <-]. split; [|done]. refine (conj _ (conj _ (conj _ _))); cbn [sys_version sys_legacyContainerOrigin sys_containerIdentity sys_release]; try done.
      - by destruct (set_sysctl setting).
      - intros i Hi. destruct (set_sysctl setting) as [x|] eqn:Hx; [|done].
        destruct (sysctl_known j r setting x Hinv Hin Hpay Hx) as [[(_ & _ & Hc & _) _] _]. by apply Hc. }
    destruct (persistRecordChange _ _ _ _ _ _) as [[[[]|] j'] w']; exact Hres.
  - apply prepareMutation_Inv; try done.
    + apply orb_false_iff in Hg as [[_ Hk]%orb_false_iff _]. unfold writer_ok. cbn [undo payload backend set_key set_appliedValue set_sysctl sys_release].
      rewrite Hk. by rewrite bool_decide_false.
    + intros x [= <-]. refine (conj _ (conj _ (conj _ _))); try done. cbn [sys_containerIdentity]. intros i Hi. destruct created; [|done].
      destruct container as [s|]; [|done]. injection Hi as <-. by apply (Hcont s).
Qed.

Lemma beginSysctlRelease_Inv i before target j w : Inv j → snapshot_range before → snapshot_range target →
  snapshot_loadable before = true → snapshot_loadable target = true → good j (beginSysctlRelease path clock i before target j w).1.2.
Proof.
  intros Hinv Hb Ht Hlb Hlt. unfold beginSysctlRelease. destruct (find_record i (records j)) as [r|] eqn:Hf; [|done]. unfold setting_of.
  destruct (payload (undo r)) as [p| | | | | | | | | | | | | | | | |] eqn:Hpay; try done. destruct (_ || _) eqn:Hg; [done|]. destruct (existsb _ _); [done|].
  destruct (find_in _ _ _ Hf) as [Hin Hid]. repeat (apply orb_false_iff in Hg as [Hg ?]).
  assert (active_sysctl r = true) as Ha by (by apply negb_false_iff). unfold active_sysctl in Ha. use_checks.
  destruct (Inv_records j r Hinv Hin) as ((Hrid & _) & _ & _).
  eapply persistRecordChange_Inv; [done|done|]. apply change_error, (setting_change j r p); try done.
  intros ? [= <-]. apply state_ok_release.
  - destruct (set_sysctl p) as [x|] eqn:Hx; [by eapply sysctl_known|]. split; [|done]. refine (conj _ (conj _ (conj _ _))); try done.
    cbn. by rewrite <-Hid.
  - intros ? [= <-]. cbn [rel_version rel_before rel_target rel_prepared]. rewrite Hlb, Hlt. by refine (conj _ (conj _ (conj _ (conj _ _)))).
Qed.

Lemma release_known x r : state_ok x → sys_release x = Some r →
  u32 (rel_version r) ∧ snapshot_range (rel_before r) ∧ snapshot_range (rel_target r) ∧ snapshot_range (rel_prepared r) ∧
  snapshot_loadable (rel_before r) && snapshot_loadable (rel_target r) && snapshot_loadable (rel_prepared r) = true.
Proof.
  intros [(_ & _ & _ & Hr) Hl] Hx. destruct (Hr r Hx) as (? & ? & ? & ?). unfold release_loadable in Hl. rewrite Hx in Hl. done.
Qed.

Lemma noteSysctlReleasePrepared_Inv i prepared j w : Inv j → snapshot_range (Some prepared) → snapshot_loadable (Some prepared) = true →
  good j (noteSysctlReleasePrepared path clock i prepared j w).1.2.
Proof.
  intros Hinv Hp Hl. unfold noteSysctlReleasePrepared. destruct (find_record i (records j)) as [r|] eqn:Hf; [|done]. cbn [base.mbind option_bind].
  unfold setting_of. destruct (payload (undo r)) as [p| | | | | | | | | | | | | | | | |] eqn:Hpay; try done. cbn [base.mbind option_bind].
  destruct (set_sysctl p) as [x|] eqn:Hx; [|done]. cbn [base.mbind option_bind]. destruct (sys_release x) as [rel|] eqn:Hrel; [|done].
  cbn [base.mbind option_bind]. destruct (usable j); [|done]. cbn [negb]. destruct (find_in _ _ _ Hf) as [Hin _].
  destruct (sysctl_known j r p x Hinv Hin Hpay Hx) as [Hok Hb]. eapply persistRecordChange_Inv; [done|done|].
  apply change_same_status, (setting_change j r p); try done. intros ? [= <-]. apply state_ok_release; [done|].
  destruct (release_known x rel Hok Hrel) as (? & ? & ? & _ & Hlo). intros ? [= <-]. cbn [rel_version rel_before rel_target rel_prepared].
  use_checks. rewrite_checks. by refine (conj _ (conj _ (conj _ (conj _ _)))).
Qed.

Lemma finishSysctlRelease_Inv i published j w : Inv j → snapshot_range published →
  good j (finishSysctlRelease path clock i published j w).1.2.
Proof.
  intros Hinv Hpub. unfold finishSysctlRelease. destruct (find_record i (records j)) as [r|] eqn:Hf; [|done].
  destruct (_ || _) eqn:Hg; [done|]. unfold setting_of. destruct (payload (undo r)) as [p| | | | | | | | | | | | | | | | |] eqn:Hpay; try done.
  cbn [base.mbind option_bind]. destruct (set_sysctl p) as [x|] eqn:Hx; [|done]. cbn [base.mbind option_bind].
  destruct (sys_release x) as [rel|] eqn:Hrel; [|done]. cbn [base.mbind option_bind]. destruct (_ || negb (exact_receipt _ _)); [done|].
  destruct (find_in _ _ _ Hf) as [Hin _]. destruct (sysctl_known j r p x Hinv Hin Hpay Hx) as [Hok Hb].
  set (r' := with_updated _ _). assert (sysctl_change r r') as Hch.
  { apply change_updated; [apply Hclock|]. apply change_error, (setting_change j r p); try done. cbn [set_sysctl with_sysctl].
    destruct (rel_previousLegacy rel); [done|]. intros ? [= <-]. by apply state_ok_release. }
  destruct published as [container|].
  - apply persistSysctlChange_Inv; [done|]. eapply rebind_steps; try done; [intros n; apply Hclock| |by eapply changed_steps].
    by apply (Hpub container).
  - destruct (existsb _ _); [done|]. apply persistSysctlChange_Inv; [done|]. by eapply changed_steps.
Qed.
End ops.

(** * Histories *)

(** The calls that change a journal, with what they are given. *)
Inductive call :=
  | CPrepare (record : MutationRecord)
  | CStatus (i : MutationId) (s : MutationStatus) (message : string)
  | CDiscard (i : MutationId)
  | CNormalizeUserCreation (i : MutationId) (proven : list UserCreationManagedAssignment)
  | CNormalizeLoginDefs (i : MutationId) (proven : string)
  | CNormalizeScoped (i : MutationId) (proven : list SudoScopedDefaultsWrapperProof)
  | CNormalizeAuthentication (i : MutationId) (proven : list AuthenticationProof)
  | CPrepareSysctl (p : PolicyRef) (key target : string) (created : bool) (origin : MutationId) (container : option AtomicTargetState)
  | CNoteSysctl (i : MutationId)
  | CFinishSysctl (i : MutationId) (published : AtomicTargetState)
  | CAbortSysctl (i : MutationId) (inlineNotInstalled : bool)
  | CBeginRelease (i : MutationId) (before target : option AtomicTargetState)
  | CNoteRelease (i : MutationId) (prepared : AtomicTargetState)
  | CFinishRelease (i : MutationId) (published : option AtomicTargetState).

Definition snapshot_fits (o : option AtomicTargetState) : Prop := snapshot_range o ∧ snapshot_loadable o = true.

(** What the callers guarantee, since the journal does not check it: the ids do
    not run out; a record to be prepared has no id yet, the backend of its
    payload, a named setting or firewall policy, and no sysctl release; no status
    call makes an inactive record active again or a resolved one prepared; and
    the numbers of files fit 64 bits. *)
Definition caller_ok (c : call) (j : Journal) : Prop :=
  (nextId j + 1 < 2 ^ 64)%Z ∧
  match c with
  | CPrepare record =>
      mid record = 0%Z ∧ status record = Prepared ∧ writer_ok (undo record) = true ∧ payload_range (payload (undo record))
  | CStatus i s _ => ∀ r, find_record i (records j) = Some r → no_revival s r
  | CPrepareSysctl _ _ _ _ origin container => u64 origin ∧ snapshot_range container
  | CFinishSysctl _ published => identity_range (identity published)
  | CBeginRelease _ before target => snapshot_fits before ∧ snapshot_fits target
  | CNoteRelease _ prepared => snapshot_fits (Some prepared)
  | CFinishRelease _ published => snapshot_range published
  | _ => True
  end.

Section history.
Context `{JsonText} `{JsonStrict} (path : string).

(** Whether a call succeeded, and what it leaves. *)
Definition answer {A} (ok : A → bool) (r : (flow A * Journal) * World) : flow bool * Journal * World :=
  (match r.1.1 with Returned a => Returned (ok a) | Thrown => Thrown end, r.1.2, r.2).

Definition run (clock : nat → Z) (c : call) (j : Journal) (w : World) : flow bool * Journal * World :=
  match c with
  | CPrepare record => answer is_some (prepareMutation path clock record j w)
  | CStatus i s message => answer id (setStatusWithMessage path clock i s message j w)
  | CDiscard i => answer id (discard path i j w)
  | CNormalizeUserCreation i proven => answer id (normalizeUserCreationPreparedToProvenState path clock i proven j w)
  | CNormalizeLoginDefs i proven => answer id (normalizeIdentityLoginDefsPreparedToProvenState path clock i proven j w)
  | CNormalizeScoped i proven => answer id (normalizeSudoScopedDefaultsPreparedToPrevious path clock i proven j w)
  | CNormalizeAuthentication i proven => answer id (normalizeSudoAuthenticationPreparedToPrevious path clock i proven j w)
  | CPrepareSysctl p key target created origin container =>
      answer is_some (prepareSysctl path clock p key target created origin container j w)
  | CNoteSysctl i => answer id (noteSysctlAttempt path clock i j w)
  | CFinishSysctl i published => answer id (finishSysctl path clock i published j w)
  | CAbortSysctl i inline => answer id (abortSysctlNoEffect path clock i inline j w)
  | CBeginRelease i before target => answer id (beginSysctlRelease path clock i before target j w)
  | CNoteRelease i prepared => answer id (noteSysctlReleasePrepared path clock i prepared j w)
  | CFinishRelease i published => answer id (finishSysctlRelease path clock i published j w)
  end.

Lemma run_good clock c j w : clocked clock → Inv j → caller_ok c j → good j (run clock c j w).1.2.
Proof.
  intros Hc Hinv [Hnext Hok]. destruct c; cbn [run answer fst snd caller_ok] in *.
  - destruct Hok as (? & ? & ? & ?). by apply prepareMutation_Inv.
  - by apply setStatus_Inv.
  - by apply discard_Inv.
  - by apply normalizeUserCreation_Inv.
  - by apply normalizeIdentityLoginDefs_Inv.
  - by apply normalizeSudoScoped_Inv.
  - by apply normalizeSudoAuthentication_Inv.
  - destruct Hok. by apply prepareSysctl_Inv.
  - by apply noteSysctlAttempt_Inv.
  - by apply finishSysctl_Inv.
  - by apply abortSysctl_Inv.
  - destruct Hok as [[] []]. by apply beginSysctlRelease_Inv.
  - destruct Hok. by apply noteSysctlReleasePrepared_Inv.
  - by apply finishSysctlRelease_Inv.
Qed.

(** Calls one after another; between them the files may change arbitrarily and
    the clock is whatever it is. *)
Inductive history (j : Journal) : Journal → Prop :=
  | history_start : history j j
  | history_call j' clock c w : history j j' → clocked clock → caller_ok c j' → history j (run clock c j' w).1.2.

Lemma history_good j j' : Inv j → history j j' → good j j'.
Proof.
  intros Hinv Hh. induction Hh as [|j' clock c w Hh [IH1 IH2] Hc Hok]; [done|].
  destruct (run_good clock c j' w Hc IH1 Hok) as [Hi He]. split; [done|]. by etrans.
Qed.

(** C24. However a journal the loader accepts is changed by its operations, in any
    order and with the files changing between them, the document it writes is one
    the loader accepts, and reads back as exactly the records and the next id in
    memory, provided its callers keep their part ([caller_ok]): ids do not run
    out, new records are named and carry their payload's backend and no sysctl
    release, no record is revived by a change of status, numbers fit 64 bits. The
    journal does not check the names and the revival itself; without them the
    document can be unreadable. *)
Theorem journal_history_loadable `{!JsonTextLaws} j j' text : Inv j → history j j' →
  dump_text (journal_document (nextId j') (records j')) = Some text →
  ∃ document, json_parse text = Some document ∧ parse_document document = Accepted (nextId j', records j').
Proof. intros Hinv [[Hn Hr Hl Hok] _]%history_good Hd; [|done]. by apply text_roundtrip. Qed.

(** A mutation id, once given out, never denotes another mutation: whatever
    happens in between, records of the same id have the same policy, resource
    and backend, and the ids given out later are larger. *)
Theorem mutation_ids_never_reused j j' r' : Inv j → history j j' → r' ∈ records j' →
  (nextId j ≤ mid r' < nextId j')%Z ∨ ∃ r, r ∈ records j ∧ same_mutation r r' ∧ ∀ r0, r0 ∈ records j → mid r0 = mid r' → same_mutation r0 r'.
Proof.
  intros Hinv [Hinv' Hev]%history_good Hin; [|done]. destruct (evolves_records _ _ Hev r' Hin) as [(r & Hr & Hm)|Hlt].
  - right. exists r. split; [done|]. split; [done|]. intros r0 Hr0 Hid. pose proof (find_unique j r Hinv Hr) as Hf.
    pose proof (find_unique j r0 Hinv Hr0) as Hf0. rewrite Hid, (proj1 Hm), Hf in Hf0. by injection Hf0 as <-.
  - left. split; [done|]. by apply (Inv_records j' r' Hinv').
Qed.

(** C26. Ownership is unambiguous at every point of every history whose callers
    keep their part ([caller_ok]; in particular no change of status makes an
    inactive record active again, which the journal does not check): two records
    at different places are never both active for the same policy, resource and
    backend, never active owners of the same PAM container, and never have
    authority over the same suppressed PAM line of a file. *)
Theorem active_ownership_is_unique j j' n n' r r' : Inv j → history j j' → n ≠ n' →
  records j' !! n = Some r → records j' !! n' = Some r' → isActive r = true → isActive r' = true →
  ~ (policy r = policy r' ∧ resource r = resource r' ∧ backend (undo r) = backend (undo r')) ∧
  (∀ c c', payload (undo r) = PContainer c → payload (undo r') = PContainer c' → ct_configPath c ≠ ct_configPath c') ∧
  (∀ f f', payload (undo r) = PFlag f → payload (undo r') = PFlag f' → pf_configPath f = pf_configPath f' →
     ∀ x, x ∈ activePamFlagSuppressionAuthority r f → x ∉ activePamFlagSuppressionAuthority r' f').
Proof.
  intros Hinv [[_ _ _ Hok] _]%history_good Hne Hr Hr' Ha Ha'; [|done]. unfold journal_ok in Hok. use_checks. split_and!.
  - intros (Hp & Hres & Hb). assert (active_twice r r' = false) as Hno by (eapply (no_clash_at _ _ n n'); eauto using active_twice_sym).
    unfold active_twice, same_identity in Hno. rewrite Ha, Ha', Hp, Hres, Hb, String.eqb_refl, !bool_decide_true in Hno; done.
  - intros c c' Hc Hc' Hp. assert (container_clash r r' = false) as Hno by (eapply (no_clash_at _ _ n n'); eauto using container_clash_sym).
    unfold container_clash in Hno. rewrite Ha, Ha', Hc, Hc', Hp, String.eqb_refl in Hno. done.
  - intros f f' Hf Hf' Hp x Hx Hx'. assert (flag_clash r r' = false) as Hno by (eapply (no_clash_at _ _ n n'); eauto using flag_clash_sym).
    unfold flag_clash in Hno. rewrite Ha, Ha', Hf, Hf', Hp, String.eqb_refl in Hno. simpl in Hno.
    apply not_true_iff_false in Hno. apply Hno, meets_spec. eauto.
Qed.

(** * Refusals *)

Lemma pending_unusable i j : usable j = false → pending_record i j = None.
Proof.
  unfold pending_record. intros Hu. destruct (find_record i (records j)) as [r|]; [|done]. cbn [base.mbind option_bind].
  destruct (setting_of r) as [p|]; [|done]. cbn [base.mbind option_bind]. destruct (set_sysctl p); [|done]. cbn [base.mbind option_bind]. by rewrite Hu.
Qed.

Lemma unusable_guard j : usable j = false → negb (loaded j) || bool_decide (health j = Indeterminate) = true.
Proof.
  unfold usable. destruct (loaded j); [|done]. destruct (health j); cbn [negb orb andb]; [by rewrite bool_decide_true|intros _; by rewrite bool_decide_true].
Qed.

(** C40. A journal that is not loaded, or whose disk state is unknown, refuses
    every operation and touches neither its memory nor the disk. *)
Theorem unusable_journal_refuses clock c j w : usable j = false → run clock c j w = (Returned false, j, w).
Proof.
  intros Hu. pose proof (unusable_guard j Hu) as Hg. pose proof (λ i, pending_unusable i j Hu) as Hp.
  destruct c; cbn [run]; unfold answer, setStatusWithMessage, discard, discardImpl, normalizeUserCreationPreparedToProvenState,
    normalizeIdentityLoginDefsPreparedToProvenState, normalizeSudoScopedDefaultsPreparedToPrevious, normalizeSudoAuthenticationPreparedToPrevious, normalize,
    prepareSysctl, noteSysctlAttempt, finishSysctl, abortSysctlNoEffect, beginSysctlRelease, noteSysctlReleasePrepared, finishSysctlRelease;
    rewrite ?Hg, ?Hp, ?Hu; try done; cbn [negb orb].
  - unfold prepareMutation, admitted. rewrite Hg. by destruct (negb (_ && validSysctlRecord record)).
  - by destruct (existsb _ _).
  - destruct (find_record _ _) as [r|]; [|done]. by destruct (setting_of r).
  - destruct (find_record _ _) as [r|]; [|done]. cbn [base.mbind option_bind]. destruct (setting_of r) as [p|]; [|done]. cbn [base.mbind option_bind].
    destruct (set_sysctl p) as [x|]; [|done]. cbn [base.mbind option_bind]. by destruct (sys_release x).
  - by destruct (find_record _ _).
Qed.
End history.
