(* ===== verification/JournalOwnership.v ===== *)
(** What a record of a transition says FIC may have left on the system, and that
    preparing the next change keeps all of it. Concrete journals at the end. *)

From S2P Require Import Prelude PolicyModel FileModel AtomicWriter AtomicFacts Json JsonRead TargetStore OwnershipGrammar MutationRecord MutationValid MutationCodec CodecFacts CodecText Journal JournalFacts JournalSteps.
Open Scope string_scope.
Open Scope nat_scope.
Open Scope file_scope.

(** * Ownership as states of the system *)

(** The states of a managed object a payload speaks of. *)
Inductive owned :=
  | OAssignments (l : list UserCreationManagedAssignment)
  | OLine (line : string)
  | OAuthentication (l : list AuthenticationProof)
  | OScoped (l : list SudoScopedDefaultsWrapperProof)
  | OFlag (enabled : option bool) (suppressed : list string).

(** The change a payload records: the state before it and the state after. The
    other kinds of payload hold one value or identity and no state before. *)
Definition transition (p : UndoPayload) : option (owned * owned) :=
  match p with
  | PUserCreation u => Some (OAssignments (uc_previousAppliedAssignments u), OAssignments (uc_appliedAssignments u))
  | PLoginDefs l => Some (OLine (ld_previousAppliedLine l), OLine (ld_appliedLine l))
  | PSudoGlobal g => Some (OLine (sg_previousLine g), OLine (sg_appliedLine g))
  | PSudoAuth a => Some (OAuthentication (sa_previousProofs a), OAuthentication (sa_targetProofs a))
  | PSudoScoped s => Some (OScoped (ss_previousProofs s), OScoped (ss_targetProofs s))
  | PEntry e => Some (OLine (pe_previousAppliedBody e), OLine (pe_appliedBody e))
  | PFlag f => Some (OFlag (pf_previousAppliedEnabled f) (pf_previousSuppressionIds f), OFlag (Some (pf_appliedEnabled f)) (pf_suppressionIds f))
  | _ => None
  end.

(** The states that may be on the system: an unresolved change is at either
    end, a resolved one at its target. *)
Definition records_transition (p : UndoPayload) : bool := is_some (transition p).
Definition possible (r : MutationRecord) : list owned :=
  match transition (payload (undo r)) with
  | Some (before, target) => if bool_decide (status r = Prepared) then [before; target] else [target]
  | None => []
  end.

Ltac read_eqs := repeat match goal with H : (_ =? _)%string = true |- _ => apply String.eqb_eq in H end.

(** A record of a PAM line has neither the resource of a capability nor the
    policy of a container. *)
Lemma pam_line r : record_loadable r = true → backend (undo r) = Pam →
  match payload (undo r) with PEntry _ | PFlag _ => true | _ => false end = true →
  submoduleName (policy r) = "PAM" ∧ is_absolute (resource r) = true.
Proof.
  unfold record_loadable, payload_loadable, identity_matches. intros H Hb Hp. use_checks. rewrite Hb in *.
  destruct (payload (undo r)); try done; use_checks;
    unfold validatePamProviderManagedEntryUndoPayload, validatePamProviderManagedFlagUndoPayload, valid_config_path, ref_is in *; use_checks; read_eqs;
    split; congruence.
Qed.

(** The same change again, or the next one from where the last ended. *)
Lemma continues {st : MutationStatus} {before target before' target' : owned} (s : owned) :
  (if bool_decide (st = Prepared) then before' = before ∧ target' = target else before' = target) →
  s ∈ (if bool_decide (st = Prepared) then [before; target] else [target]) → s ∈ [before'; target'].
Proof. case_bool_decide; [intros [-> ->]; done|intros ->]. intros ->%list_elem_of_singleton. by left. Qed.

(** A refresh keeps every possible state, kind by kind. *)
Lemma refresh_possible existing record now : record_loadable existing = true → refreshes record existing = true →
  payload_loadable (undo record) = true → identity_matches record = true →
  refresh_allowed existing record = Returned true →
  ∀ s, s ∈ possible existing → s ∈ possible (refreshed now (undo record) existing).
Proof.
  intros Hl0 (Hact & Hpol & Hres & Hback)%refreshes_spec Hpl Hid Hallow s. unfold refresh_allowed in Hallow.
  destruct (refresh_sysctl existing record) as [b|]; [|done]. injection Hallow as Hallow. use_checks.
  pose proof (pam_line existing Hl0) as Hline. rename Hl0 into Hl. unfold record_loadable in Hl. use_checks. apply loadable_home in Hpl. unfold identity_matches in *.
  match goal with Hp : payload_loadable (undo existing) = true |- _ => pose proof (loadable_home _ Hp) as Hhome end.
  rewrite Hback in *. unfold possible. cbn [refreshed with_updated with_error with_status with_undo undo payload status].
  rewrite (bool_decide_true (Prepared = Prepared)) by done.
  unfold refresh_user_creation, refresh_login_defs, refresh_sudo, refresh_sudo_global, refresh_sudo_auth, refresh_sudo_scoped, refresh_pam in *.
  destruct (payload (undo existing)) eqn:Hpe, (backend (undo record)) eqn:Hb; try done;
    destruct (payload (undo record)) eqn:Hpr; try done; use_checks; cbn [transition].
  - apply continues. case_bool_decide; use_checks; read_eqs; (split; congruence) || congruence.
  - apply continues. unfold sameSudoScopedDefaultsTransition, isActive in *. destruct (status existing); try done; case_bool_decide; try done; use_checks; (split; congruence) || congruence.
  - apply continues. case_bool_decide; use_checks; (split; congruence) || congruence.
  - apply continues. unfold isActive in *. destruct (status existing); try done; case_bool_decide; try done; use_checks; (split; congruence) || congruence.
  - destruct (Hline eq_refl eq_refl) as [_ Habs]. unfold ref_is in *. use_checks. read_eqs. rewrite Hres in Habs.
    match goal with Hc : resource record = _ |- _ => by rewrite Hc in Habs end.
  - apply continues. unfold samePamProviderPreparedTransition in *. case_bool_decide; use_checks; read_eqs; (split; congruence) || congruence.
  - destruct (Hline eq_refl eq_refl) as [Hsub _]. unfold ref_is in *. use_checks. read_eqs. congruence.
  - destruct (Hline eq_refl eq_refl) as [_ Habs]. unfold ref_is in *. use_checks. read_eqs. rewrite Hres in Habs.
    match goal with Hc : resource record = _ |- _ => by rewrite Hc in Habs end.
  - apply continues. unfold samePamProviderPreparedFlagTransition in *. case_bool_decide; use_checks; (split; congruence) || congruence.
  - destruct (Hline eq_refl eq_refl) as [Hsub _]. unfold ref_is in *. use_checks. read_eqs. congruence.
  - apply continues. unfold isActive in *. destruct (status existing); try done; case_bool_decide; try done; use_checks; read_eqs; (split; congruence) || congruence.
Qed.

Section prepared.
Context `{JsonText} `{JsonStrict} (path : string).

Lemma commit_success {A} (result failed a : A) old new w w' j' : commit path result failed old new w = ((Returned a, j'), w') →
  a ≠ failed → a = result ∧ j' = new.
Proof.
  unfold commit, mbind. destruct (persist path new w) as [outcome w1]. destruct outcome as [[]|]; intros [= <- <- <-] Hne; done.
Qed.

Lemma prepared_record clock record j i j' w w' : Inv j →
  mid record = 0%Z → status record = Prepared → writer_ok (undo record) = true →
  prepareMutation path clock record j w = ((Returned (Some i), j'), w') →
  ∃ r', r' ∈ records j' ∧ mid r' = i ∧ status r' = Prepared ∧ undo r' = undo record ∧ policy r' = policy record ∧ resource r' = resource record ∧
    (∀ r, r ∈ records j →
       if refreshes record r then
         mid r = i ∧ createdAtEpoch r' = createdAtEpoch r ∧
         (records_transition (payload (undo r)) = true → possible r ≠ [] ∧ ∀ s, s ∈ possible r → s ∈ possible r')
       else mid r ≠ i ∧ r ∈ records j') ∧
    (∀ r, r ∈ records j' → r = r' ∨ r ∈ records j) ∧
    ((∀ r, r ∈ records j → refreshes record r = false) → i = nextId j ∧ nextId j' = wrap64 (nextId j + 1)).
Proof.
  intros Hinv Hm Hs Hw. unfold prepareMutation. destruct (admitted j record) as [[]|] eqn:Hadm; [|done..].
  destruct (admitted_payload _ _ Hadm Hs Hm Hw) as [Hpl Hid].
  destruct (first_match (refreshes record) (records j)) as [existing|] eqn:Hf.
  - destruct (refresh_allowed existing record) as [[]|] eqn:Hallow; [|done..]. intros [[= ->] ->]%commit_success; [|done].
    destruct (first_match_Some _ _ _ Hf) as (k & Hk & Hex & Hch). pose proof Hex as (_ & Hpol & Hres & _)%refreshes_spec.
    assert (existing ∈ records j) as Hin by (apply list_elem_of_lookup; eauto). destruct (Inv_records j existing Hinv Hin) as (_ & Hl & _).
    exists (refreshed (clock 0) (undo record) existing). rewrite Hch. cbn [with_records records].
    split; [apply list_elem_of_insert; by eapply lookup_lt_Some|]. do 5 (split; [done|]).
    split_and!; [|intros r [n Hn]%list_elem_of_lookup; destruct (decide (n = k)) as [->|Hne];
      [left; rewrite list_lookup_insert_eq in Hn by (by eapply lookup_lt_Some); by injection Hn
      |right; rewrite list_lookup_insert_ne in Hn by done; by eapply list_elem_of_lookup_2]
      |intros Hall; by rewrite (Hall existing Hin) in Hex].
    intros r [n Hn]%list_elem_of_lookup. destruct (decide (n = k)) as [->|Hne].
    + assert (r = existing) as -> by congruence. rewrite Hex. split; [done|]. split; [done|]. intros Ht. split; [|by apply refresh_possible].
      unfold possible, records_transition in *. destruct (transition _) as [[]|]; [|done]. by destruct (bool_decide _).
    + rewrite (refreshes_unique j record k existing n r Hinv Hk Hex Hn Hne). split.
      * intros Heq. pose proof (inv_ok _ Hinv) as Hok. unfold journal_ok in Hok. use_checks.
        assert (same_id r existing = false) as Hno by (eapply (no_clash_at _ _ n k); eauto using same_id_sym). unfold same_id in Hno.
        by rewrite bool_decide_true in Hno.
      * apply list_elem_of_lookup. exists n. by rewrite list_lookup_insert_ne.
  - intros [[= ->] ->]%commit_success; [|done]. eexists. split; [apply elem_of_app; right; by apply list_elem_of_singleton|].
    do 5 (split; [done|]).
    split_and!; [|intros r [Hr|Hr%list_elem_of_singleton]%elem_of_app; [by right|by left]|done].
    intros r Hr. rewrite (first_match_None _ _ Hf r Hr). destruct (Inv_records j r Hinv Hr) as (_ & _ & Hlt).
    split; [lia|]. apply elem_of_app. by left.
Qed.

(** C25. A mutation that is prepared is recorded before it is made: as a new
    record under the next id, or in the record that is active for the same
    policy, resource and backend, which keeps its id and its time of creation; no
    other record changes. If the record that is taken over is of a kind that
    records a transition (user creation, login.defs, the three sudo kinds, PAM
    provider entries and flags), every state it said FIC may have left on the
    system is still one of those it says afterwards. The other kinds record no
    state before: their undo is replaced by the caller's. *)
Theorem preparation_keeps_transitions clock record j i j' w w' : Inv j →
  mid record = 0%Z → status record = Prepared → writer_ok (undo record) = true →
  prepareMutation path clock record j w = ((Returned (Some i), j'), w') →
  ∃ r', r' ∈ records j' ∧ mid r' = i ∧ status r' = Prepared ∧ undo r' = undo record ∧ policy r' = policy record ∧ resource r' = resource record ∧
    (∀ r, r ∈ records j →
       if refreshes record r then
         mid r = i ∧ createdAtEpoch r' = createdAtEpoch r ∧
         (records_transition (payload (undo r)) = true → possible r ≠ [] ∧ ∀ s, s ∈ possible r → s ∈ possible r')
       else mid r ≠ i ∧ r ∈ records j') ∧
    (∀ r, r ∈ records j' → r = r' ∨ r ∈ records j) ∧
    ((∀ r, r ∈ records j → refreshes record r = false) → i = nextId j ∧ nextId j' = wrap64 (nextId j + 1)).
Proof. apply prepared_record. Qed.
End prepared.

(** * Concrete journals *)

#[local] Instance all_strings_accepted : JsonStrict := {| accepts_string := λ _, true |}.

Definition journal_path : string := "mutation-journal.json".
Definition open_journal : Journal := mkJournal [] 1 true true Healthy.
Definition noon : nat → Z := λ _, 1700000000%Z.
Definition quiet : World := mkWorld empty_disk (failing []).

Definition shell_payload (line previous : list UserCreationManagedAssignment) : UndoPayload :=
  PUserCreation (mkUserCreation "user_default_shell" UseraddDefaults "/etc/default/useradd" line previous).
Definition bash_line : list UserCreationManagedAssignment := [mkAssignment "SHELL" "SHELL=/bin/bash"].
Definition sh_line : list UserCreationManagedAssignment := [mkAssignment "SHELL" "SHELL=/bin/sh"].
Definition shell_record (p : UndoPayload) : MutationRecord :=
  mkRecord 0%Z (mkRef "IDENTITY_ACCESS" "USER_CREATION" "user_default_shell") "/etc/default/useradd" (mkUndo UserCreation p) Prepared 0 0 "".

Lemma open_journal_Inv : Inv open_journal.
Proof. split; [by unfold u64; simpl|constructor|done|done]. Qed.
Lemma noon_clocked : clocked noon.
Proof. intros n. unfold i64, noon. lia. Qed.

(** The first change of the default shell, applied; then the next one. *)
Definition first_call : call := CPrepare (shell_record (shell_payload bash_line [])).
Definition after_first : Journal := (run journal_path noon first_call open_journal quiet).1.2.
Example first_call_recorded : (λ r, (mid r, status r, undo r)) <$> records after_first = [(1%Z, Prepared, mkUndo UserCreation (shell_payload bash_line []))].
Proof. vm_compute. reflexivity. Qed.

Definition settle_first : call := CStatus 1%Z Applied "".
Definition after_settled : Journal := (run journal_path noon settle_first after_first quiet).1.2.
Definition second_call : call := CPrepare (shell_record (shell_payload sh_line bash_line)).
Definition after_second : Journal := (run journal_path noon second_call after_settled quiet).1.2.
Definition home_record : MutationRecord :=
  mkRecord 0%Z (mkRef "IDENTITY_ACCESS" "USER_CREATION" "user_home_base_directory") "/etc/default/useradd"
    (mkUndo UserCreation (PUserCreation (mkUserCreation "user_home_base_directory" UseraddDefaults "/etc/default/useradd"
      [mkAssignment "HOME" "HOME=/home"] []))) Prepared 0 0 "".
Definition after_both : Journal := (run journal_path noon (CPrepare home_record) after_second quiet).1.2.

(** One record takes the next change, starting from the state applied; another
    policy gets its own. *)
Example two_records : (λ r, (mid r, status r, payload (undo r))) <$> records after_both =
  [(1%Z, Prepared, shell_payload sh_line bash_line); (2%Z, Prepared, payload (undo home_record))].
Proof. vm_compute. reflexivity. Qed.

Lemma prepare_ok p j : (nextId j + 1 <? 2 ^ 64)%Z = true → writer_ok (undo p) = true → payload_range (payload (undo p)) →
  mid p = 0%Z → status p = Prepared → caller_ok (CPrepare p) j.
Proof. intros ?%Z.ltb_lt ????. by repeat split. Qed.

Lemma after_first_history : history journal_path open_journal after_first.
Proof. eapply history_call; [apply history_start|exact noon_clocked|]. by apply prepare_ok; [vm_compute; reflexivity..|]. Qed.

Lemma after_settled_history : history journal_path open_journal after_settled.
Proof.
  eapply history_call; [exact after_first_history|exact noon_clocked|]. split; [apply Z.ltb_lt; vm_compute; reflexivity|].
  intros r Hr. vm_compute in Hr. injection Hr as <-. split; [by intros|done].
Qed.

Lemma after_both_history : history journal_path open_journal after_both.
Proof.
  eapply history_call; [eapply history_call; [exact after_settled_history|exact noon_clocked|]|exact noon_clocked|];
    by apply prepare_ok; [vm_compute; reflexivity..|].
Qed.

Lemma journal_history_loadable_witness :
  ∃ document, json_parse (json_dump (journal_document (nextId after_both) (records after_both))) = Some document ∧
    parse_document document = Accepted (3%Z, records after_both).
Proof.
  assert (nextId after_both = 3%Z) as <- by (vm_compute; reflexivity).
  apply (journal_history_loadable journal_path open_journal after_both _ open_journal_Inv after_both_history).
  unfold dump_text. assert (printable (journal_document (nextId after_both) (records after_both)) = true) as -> by (vm_compute; reflexivity).
  reflexivity.
Defined.

Lemma mutation_ids_never_reused_witness : ∃ r', records after_both !! 1 = Some r' ∧ (1 ≤ mid r' < 3)%Z.
Proof.
  destruct (records after_both !! 1) as [r'|] eqn:Hr; [|vm_compute in Hr; discriminate Hr]. exists r'. split; [reflexivity|].
  assert (r' ∈ records after_both) as Hin by (apply list_elem_of_lookup; by exists 1).
  destruct (mutation_ids_never_reused journal_path open_journal after_both r' open_journal_Inv after_both_history Hin) as [Hb|(r & Hr' & _)].
  - vm_compute in Hb |- *. exact Hb.
  - exact (False_ind _ (not_elem_of_nil r Hr')).
Defined.

Lemma active_ownership_is_unique_witness : ∃ r r', records after_both !! 0 = Some r ∧ records after_both !! 1 = Some r' ∧
  ~ (policy r = policy r' ∧ resource r = resource r' ∧ backend (undo r) = backend (undo r')).
Proof.
  destruct (records after_both !! 0) as [r|] eqn:Hr; [|vm_compute in Hr; discriminate Hr].
  destruct (records after_both !! 1) as [r'|] eqn:Hr'; [|vm_compute in Hr'; discriminate Hr']. exists r, r'. split; [reflexivity|]. split; [reflexivity|].
  refine (proj1 (active_ownership_is_unique journal_path open_journal after_both 0 1 r r' open_journal_Inv after_both_history _ Hr Hr' _ _)).
  - done.
  - vm_compute in Hr. injection Hr as <-. reflexivity.
  - vm_compute in Hr'. injection Hr' as <-. reflexivity.
Defined.

Lemma unusable_journal_refuses_witness :
  run journal_path noon first_call (poisoned open_journal) quiet = (Returned false, poisoned open_journal, quiet).
Proof. apply unusable_journal_refuses. vm_compute. reflexivity. Defined.

Lemma after_settled_Inv : Inv after_settled.
Proof. by apply (history_good journal_path open_journal); [exact open_journal_Inv|exact after_settled_history]. Qed.

Lemma preparation_keeps_transitions_witness : ∃ r', r' ∈ records after_second ∧ mid r' = 1%Z ∧ OAssignments bash_line ∈ possible r'.
Proof.
  destruct (prepareMutation journal_path noon (shell_record (shell_payload sh_line bash_line)) after_settled quiet) as [[result j'] w'] eqn:Hrun.
  assert (result = Returned (Some 1%Z)) as ->.
  { assert ((prepareMutation journal_path noon (shell_record (shell_payload sh_line bash_line)) after_settled quiet).1.1 = Returned (Some 1%Z))
      as Hres by (vm_compute; reflexivity). by rewrite Hrun in Hres. }
  assert (records after_second = records j') as -> by (unfold after_second, run, second_call, answer; by rewrite Hrun).
  destruct (preparation_keeps_transitions journal_path noon (shell_record (shell_payload sh_line bash_line)) after_settled 1%Z j' quiet w'
    after_settled_Inv eq_refl eq_refl eq_refl Hrun) as (r' & Hin & Hid & _ & _ & _ & _ & Hall & _).
  exists r'. split; [exact Hin|]. split; [exact Hid|]. destruct (records after_settled) as [|r l] eqn:Hl; [vm_compute in Hl; discriminate Hl|].
  specialize (Hall r (list_elem_of_here r l)). vm_compute in Hl. injection Hl as <- _. apply (proj2 (proj2 (proj2 Hall) eq_refl)). by left.
Defined.

(** * What the writer leaves to its callers *)

(** A firewall record without a policy name is recorded, and the document
    written for it cannot be loaded. *)
Definition unnamed_firewall : MutationRecord :=
  mkRecord 0%Z (mkRef "FIREWALL" "" "rule") "firewall/rule" (mkUndo Firewall (PFirewall (mkFirewall ""))) Prepared 0 0 "".

Example unnamed_firewall_record_is_unreadable :
  let '(result, j, _) := run journal_path noon (CPrepare unnamed_firewall) open_journal quiet in
  result = Returned true ∧ parse_document (journal_document (nextId j) (records j)) = Rejected.
Proof. vm_compute. split; reflexivity. Qed.

(** A GRUB setting that is prepared again before it is resolved: the record holds
    the new value only, although the first may be on the system. *)
Definition grub_record (value : string) : MutationRecord :=
  mkRecord 0%Z (mkRef "BOOT" "GRUB" "timeout") "GRUB_TIMEOUT" (mkUndo Grub (PGrub (mkGrub "GRUB_TIMEOUT" value))) Prepared 0 0 "".
Definition grub_prepared : Journal := (run journal_path noon (CPrepare (grub_record "5")) open_journal quiet).1.2.

Example unresolved_scalar_is_replaced :
  let '(result, j, _) := run journal_path noon (CPrepare (grub_record "0")) grub_prepared quiet in
  (λ r, payload (undo r)) <$> records grub_prepared = [PGrub (mkGrub "GRUB_TIMEOUT" "5")] ∧
  result = Returned true ∧ (λ r, (mid r, payload (undo r))) <$> records j = [(1%Z, PGrub (mkGrub "GRUB_TIMEOUT" "0"))].
Proof. vm_compute. split; [|split]; reflexivity. Qed.

(** A resolved record set back to an active status beside the one that took its
    place: both are active for one mutation, and the document cannot be loaded. *)
Definition rolled_back : Journal := (run journal_path noon (CStatus 1%Z RolledBack "") after_first quiet).1.2.
Definition superseded : Journal := (run journal_path noon first_call rolled_back quiet).1.2.

Example revived_record_is_unreadable :
  let '(result, j, _) := run journal_path noon (CStatus 1%Z Applied "") superseded quiet in
  result = Returned true ∧ (λ r, (mid r, isActive r, resource r)) <$> records j =
    [(1%Z, true, "/etc/default/useradd"); (2%Z, true, "/etc/default/useradd")] ∧
  parse_document (journal_document (nextId j) (records j)) = Rejected.
Proof. vm_compute. split; [|split]; reflexivity. Qed.
