(* ===== verification/JournalDisk.v ===== *)
(** The journal in memory and the document on disk: an answered call either
    made its change durable, or left both as they were, or poisoned the journal.
    What loading proves about the files. *)

From S2P Require Import Prelude PolicyModel FileModel AtomicWriter AtomicFacts Json JsonRead StateStore TargetStore OwnershipGrammar MutationRecord MutationValid MutationCodec CodecFacts CodecText Journal JournalLoad JournalFacts JournalSteps JournalOwnership.
Open Scope string_scope.
Open Scope nat_scope.
Open Scope file_scope.

(** * Files *)

(** The content of a file survives a crash once it is the one named. *)
Definition content_saved (d : Disk) (path : string) : Prop :=
  ∀ n i, lookup_path d path = Some (n, i) → i_saved i = Some (i_content i).

Lemma holds_aside d0 d path text : wf d0 → aside d0 d → visible path → holds d0 path text → holds d path text.
Proof.
  intros Hw Ha Hp (n & i & Hl & Hc & Hs & He). exists n, i. rewrite (aside_lookup d0 d) by done. split_and!; [done..|].
  intros e. unfold crash_entry. rewrite (as_names _ _ Ha), (as_stale _ _ Ha) by done. apply He.
Qed.

Lemma holds_synced d path n i : lookup_path d path = Some (n, i) → content_saved d path → holds (synced d) path (i_content i).
Proof.
  intros Hl Hs. exists n, i. split_and!; [done|done|by eapply Hs|]. intros e [->|Hin]; [by apply lookup_path_Some in Hl as [? _]|].
  simpl in Hin. rewrite lookup_empty in Hin. inversion Hin.
Qed.

Lemma holds_again d path text : holds d path text → holds (synced d) path text.
Proof.
  intros (n & i & Hl & Hc & Hs & He). rewrite <-Hc in *. apply (holds_synced d path n i Hl). intros n' i' Hl'. congruence.
Qed.

Lemma holds_saved d path text : holds d path text → content_saved d path.
Proof. intros (n & i & Hl & Hc & Hs & He) n' i' Hl'. congruence. Qed.

Lemma looks_capture path : looks (captureTargetState path) (λ d r, ∀ s, r = Some s → object_at d path s).
Proof.
  intros d. unfold captureTargetState. assert (∀ r : option AtomicTargetState, r = None →
    runs (let* _ := sys_close in mret r) d (λ r d', d' = d ∧ ∀ s, r = Some s → object_at d path s)) as Hnone.
  { intros r ->. eapply runs_bind_looks; [apply looks_close|]. intros. by apply runs_ret. }
  eapply runs_bind_looks; [apply looks_open|]. intros [e|fd] Hfd; [by apply runs_ret|]. destruct Hfd as (i & Hl & Hk).
  eapply runs_bind_looks; [apply looks_fstat|]. intros [e|st] Hst; [by apply Hnone|]. destruct Hst as (i' & Hi & ->).
  apply lookup_path_Some in Hl as Hl2. assert (i' = i) as -> by (destruct Hl2; congruence). case_bool_decide as Hreg; [by apply Hnone|].
  simpl in Hreg. eapply runs_bind; [by apply (read_all_spec d fd i Hi)|]. intros [text|] d' [-> Htext]; [|by apply Hnone].
  eapply runs_bind_looks; [apply looks_close|]. intros closed _. apply runs_ret. split; [done|]. intros s Hs. destruct (ok closed); [|done].
  injection Hs as <-. rewrite (Htext text eq_refl). exists fd, i. split_and!; [done| |done]. by destruct (decide (i_kind i = Regular)).
Qed.

Lemma resolve_step fuel d p : resolve (S fuel) d p =
  match lookup_path d p with
  | None => inl ENOENT
  | Some (_, i) => if decide (i_kind i = Symlink) then resolve fuel d (i_content i) else inr p
  end.
Proof. done. Qed.

(** What [status] says of a name. *)
Lemma looks_probe p : looks (probe p) (λ d r,
  match r with
  | ProbePresent => lookup_path d p ≠ None
  | ProbeMissing => ∀ n i, lookup_path d p = Some (n, i) → i_kind i = Symlink
  | ProbeError => True
  end).
Proof.
  unfold probe. eapply (looks_bind _ _ (λ d r, match r with
    | inr _ => lookup_path d p ≠ None
    | inl e => e = ENOENT → ∀ n i, lookup_path d p = Some (n, i) → i_kind i = Symlink end)).
  - apply looks_sys.
    + intros _ d. destruct (resolve 40 d p) as [e|name]; [done|]. by destruct (lookup_path d name) as [[n i]|].
    + intros d e He. by destruct (injected_not e).
    + intros _ d. rewrite (resolve_step 39). destruct (lookup_path d p) as [[n i]|] eqn:Hl; [|done]. destruct (decide (i_kind i = Symlink)) as [Hs|Hs].
      * destruct (resolve 39 d (i_content i)) as [e|name]; cbn [fst]; [by intros _ n' i' [= <- <-]|].
        destruct (lookup_path d name) as [[n' i']|]; cbn [fst]; [done|]. by intros _ n' i' [= <- <-].
      * by rewrite Hl.
  - intros [e|st] d Hr; apply runs_ret; (split; [done|]); [|done]. by case_bool_decide; [apply Hr|].
Qed.

(** What a step leaves of a file it does not write. *)
Definition keeps_file (p : string) (d d' : Disk) : Prop :=
  d_names d' !! p = d_names d !! p ∧ (∀ n i, lookup_path d p = Some (n, i) → ∃ i', lookup_path d' p = Some (n, i') ∧ same_file i i') ∧
  (lookup_path d p = None → lookup_path d' p = None) ∧ ((∀ e, crash_entry d p e → e = d_names d !! p) → ∀ e, crash_entry d' p e → e = d_names d !! p).

Lemma keeps_file_refl p d : keeps_file p d d.
Proof. split_and!; eauto using same_file_refl. Qed.

Lemma keeps_file_trans p d1 d2 d3 : keeps_file p d1 d2 → keeps_file p d2 d3 → keeps_file p d1 d3.
Proof.
  intros (Hn1 & Hf1 & Hz1 & He1) (Hn2 & Hf2 & Hz2 & He2). split_and!; [congruence| |auto|].
  - intros n i Hl. destruct (Hf1 n i Hl) as (i2 & Hl2 & Hs2). destruct (Hf2 n i2 Hl2) as (i3 & Hl3 & Hs3). eauto using same_file_trans.
  - intros Hall e Hc. rewrite <-Hn1. apply He2; [|done]. intros e' Hc'. rewrite Hn1. auto.
Qed.

Lemma keeps_file_aside p d d' : wf d → aside d d' → visible p → keeps_file p d d'.
Proof.
  intros Hw Ha Hp. unfold keeps_file. rewrite (aside_lookup d d') by done. rewrite (as_names _ _ Ha) by done. split_and!; eauto using same_file_refl.
  unfold crash_entry. by rewrite (as_names _ _ Ha), (as_stale _ _ Ha).
Qed.

Lemma keeps_file_synced p d : keeps_file p d (synced d).
Proof.
  split_and!; [done|eauto using same_file_refl|done|]. intros _ e [->|Hin]; [done|]. simpl in Hin. rewrite lookup_empty in Hin. inversion Hin.
Qed.

Lemma keeps_file_swapped p q d d' fd j : wf d → swapped d d' q fd j → visible p → p ≠ q → keeps_file p d d'.
Proof.
  intros Hw Hsw Hp Hne. pose proof (sw_others _ _ _ _ _ Hsw p Hp Hne) as Hn. unfold keeps_file, lookup_path. rewrite Hn. split_and!; [done| | |].
  - intros n i Hl. destruct (d_names d !! p) as [m|] eqn:Hm; [|done]. destruct (d_nodes d !! m) as [i0|] eqn:Hi; [|done]. injection Hl as <- <-.
    destruct (sw_nodes _ _ _ _ _ Hsw m i0 Hi) as (k & -> & Hs). eauto.
  - destruct (d_names d !! p) as [m|] eqn:Hm; [|done]. destruct (d_nodes d !! m) as [i0|] eqn:Hi; [done|].
    by rewrite (sw_none _ _ _ _ _ Hsw m (wf_lookup _ _ _ Hw Hm) Hi).
  - intros Hall e Hc. destruct (sw_crash _ _ _ _ _ Hsw p e Hp Hc) as [[? _]|?]; [done|auto].
Qed.

Lemma keeps_file_holds p d d' text : keeps_file p d d' → holds d p text → holds d' p text.
Proof.
  intros (Hn & Hf & _ & He) (n & i & Hl & Hc & Hs & Hall). destruct (Hf n i Hl) as (i' & Hl' & (_ & Hc' & Hs' & _)). exists n, i'.
  apply lookup_path_Some in Hl as [Hname _]. rewrite Hname in He. split_and!; [done|congruence|congruence|auto].
Qed.

Lemma keeps_file_saved p d d' : keeps_file p d d' → content_saved d p → content_saved d' p.
Proof.
  intros (Hn & Hf & Hz & _) Hs n i' Hl'. destruct (lookup_path d p) as [[m i]|] eqn:Hl; [|by rewrite Hz in Hl'].
  destruct (Hf m i eq_refl) as (k & Hk & (_ & Hc & Hsv & _)). rewrite Hk in Hl'. injection Hl' as <- <-. rewrite Hsv, Hc. by eapply Hs.
Qed.

Lemma object_unique d path s n i : object_at d path s → lookup_path d path = Some (n, i) → content s = i_content i.
Proof. intros (n' & i' & Hl & _ & ->) Hl'. simpl. congruence. Qed.

Section disk.
Context `{JsonText} `{JsonStrict} (path : string) (path_visible : visible path).

(** * Persisting *)

Definition text_of (j : Journal) : option string := dump_text (journal_document (nextId j) (records j)).

Definition shows (d : Disk) (text : string) : Prop := ∃ n i, lookup_path d path = Some (n, i) ∧ i_content i = text.

Definition persist_post (j : Journal) (d : Disk) (r : flow PersistOutcome) (d' : Disk) : Prop :=
  leaves_others path d d' ∧
  match r with
  | Returned Persisted => ∃ text, text_of j = Some text ∧ holds d' path text
  | Returned NotInstalled => aside d d'
  | Returned PIndeterminate => ∃ text, text_of j = Some text ∧ shows d' text
  | Thrown => d' = d ∧ text_of j = None
  end.

Lemma shows_new_file d0 d text options fd j : new_file d0 d path text options fd j → shows d text.
Proof.
  intros [Hsw (i & target & Hs & Hwant)]. unfold wanted, is_file in Hwant. destruct (wanted_metadata _ _ _ _) as [[u g] m].
  destruct Hwant as (_ & Hc & _), Hs as (_ & Sc & _). exists fd, j. split; [|congruence].
  apply lookup_path_Some. split; [apply (sw_name _ _ _ _ _ Hsw)|apply (sw_node _ _ _ _ _ Hsw)].
Qed.

Lemma others_synced d d' : leaves_others path d d' → leaves_others path d (synced d').
Proof.
  intros [Hw Hl]. split; [by apply synced_wf|]. intros p Hp Hne. destruct (Hl p Hp Hne) as [Hm Hs]. split.
  - intros s Hs'. by apply Hm, synced_may.
  - intros Hs'. by apply synced_settled, Hs.
Qed.

Lemma persist_runs j d : wf d → runs (persist path j) d (persist_post j d).
Proof.
  intros Hw. unfold persist, persist_post. fold (text_of j). destruct (text_of j) as [text|] eqn:Ht; [|by apply runs_ret].
  eapply runs_bind; [by apply write_runs|]. intros [written result] d' Hpost.
  pose proof (write_post_others path _ _ _ _ _ Hw Hpost) as Ho. unfold write_post in Hpost. cbn [fst snd] in Hpost.
  destruct (installed result) eqn:Hi; cbn [negb].
  - destruct Hpost as (-> & (fd & k & Hnew & _ & Hst) & Hdur & _). rewrite Hst. destruct (durabilityConfirmed result).
    + apply runs_ret. split; [done|]. exists text. split; [done|]. eapply holds_new_file; [done|auto].
    + eapply runs_bind; [apply durable_runs|]. intros [] d'' Hd''; apply runs_ret.
      * destruct Hd'' as [_ ->]. split; [by apply others_synced|]. exists text. split; [done|]. destruct Hnew as [Hsw Hrest].
        eapply (holds_new_file d); [|done]. split; [by apply swapped_synced|done].
      * subst d''. split; [done|]. exists text. split; [done|]. by eapply shows_new_file.
  - destruct Hpost as (-> & _ & _ & [Ha|(He & _)]); [|done]. apply runs_ret. by split.
Qed.

(** * The shape of a call *)

(** A call refuses, throws, or commits one new state. *)
Definition one_commit (j : Journal) (m : World → flow bool * Journal * World) : Prop := ∀ w,
  m w = (Returned false, j, w) ∨ m w = (Thrown, j, w) ∨
  ∃ new, m w = answer id (commit path true false j new w) ∧ loaded new = loaded j ∧ lifecycleInitialized new = lifecycleInitialized j ∧ health new = health j.

Lemma commit_answer {A} (ok : A → bool) result failed old new w : ok result = true → ok failed = false →
  answer ok (commit path result failed old new w) = answer id (commit path true false old new w).
Proof.
  intros Hr Hf. unfold answer, commit, mbind. destruct (persist path new w) as [[[]|] w']; simpl; by rewrite ?Hr, ?Hf.
Qed.

Lemma one_commit_refuse {A} (ok : A → bool) failed j : ok failed = false → one_commit j (λ w, answer ok (refuse failed j w)).
Proof. intros Hf w. left. unfold answer. simpl. by rewrite Hf. Qed.

Lemma one_commit_throw {A} (ok : A → bool) j : one_commit j (λ w, answer ok (throw j w)).
Proof. intros w. right. by left. Qed.

Lemma one_commit_commit {A} (ok : A → bool) result failed j new : ok result = true → ok failed = false →
  loaded new = loaded j → lifecycleInitialized new = lifecycleInitialized j → health new = health j →
  one_commit j (λ w, answer ok (commit path result failed j new w)).
Proof. intros Hr Hf ??? w. right. right. exists new. by rewrite commit_answer. Qed.

Ltac shape := repeat first
  [ by apply one_commit_refuse | apply one_commit_throw | by apply one_commit_commit
  | match goal with |- one_commit _ (λ w, answer _ ((match ?c with _ => _ end) w)) => destruct c end ].

Lemma prepare_shape clock record j : one_commit j (λ w, answer is_some (prepareMutation path clock record j w)).
Proof. unfold prepareMutation. shape. Qed.

Lemma change_shape clock i r j : one_commit j (λ w, answer id (persistRecordChange path clock i r j w)).
Proof. unfold persistRecordChange. shape. Qed.

Lemma sysctl_shape l j : one_commit j (λ w, answer id (persistSysctlChange path l j w)).
Proof. unfold persistSysctlChange. shape. Qed.

Lemma discard_shape i proven j : one_commit j (λ w, answer id (discardImpl path i proven j w)).
Proof. unfold discardImpl. shape. Qed.

Lemma normalize_shape i change j : one_commit j (λ w, answer id (normalize path i change j w)).
Proof. unfold normalize. shape. Qed.

Lemma prepare_sysctl_shape clock p key target created origin container j :
  one_commit j (λ w, answer is_some (prepareSysctl path clock p key target created origin container j w)).
Proof.
  unfold prepareSysctl. destruct (_ || _); [by apply one_commit_refuse|]. destruct (sysctl_predecessor _ _ _ _) as [old|]; [|by apply one_commit_refuse].
  destruct (negb _); [by apply one_commit_refuse|]. destruct old as [r|]; [|apply prepare_shape]. destruct (setting_of r) as [setting|]; [|apply one_commit_throw].
  destruct (match set_sysctl setting with Some _ => _ | None => _ end); [by apply one_commit_refuse|].
  intros w. set (r' := with_error _ _). destruct (change_shape clock (mid r) r' j w) as [Hs|[Hs|(new & Hs & Hf)]].
  - left. unfold answer, mbind in *. by destruct (persistRecordChange _ _ _ _ _ _) as [[[[]|] j'] w']; simpl in *; simplify_eq.
  - right. left. unfold answer, mbind in *. by destruct (persistRecordChange _ _ _ _ _ _) as [[[[]|] j'] w']; simpl in *; simplify_eq.
  - right. right. exists new. split; [|done]. rewrite <-Hs. unfold answer, mbind in *. by destruct (persistRecordChange _ _ _ _ _ _) as [[[[]|] j'] w'].
Qed.

Lemma run_shape clock c j : one_commit j (λ w, run path clock c j w).
Proof.
  destruct c; cbn [run].
  - apply prepare_shape.
  - unfold setStatusWithMessage. shape.
  - apply discard_shape.
  - apply normalize_shape.
  - apply normalize_shape.
  - apply normalize_shape.
  - apply normalize_shape.
  - apply prepare_sysctl_shape.
  - unfold noteSysctlAttempt. shape; apply change_shape.
  - unfold finishSysctl. shape; apply sysctl_shape.
  - unfold abortSysctlNoEffect. shape; [apply discard_shape|apply change_shape].
  - unfold beginSysctlRelease. shape; apply change_shape.
  - unfold noteSysctlReleasePrepared. shape; apply change_shape.
  - unfold finishSysctlRelease. shape; apply sysctl_shape.
Qed.

(** * Memory and disk *)

(** The disk durably holds a document that reads as the journal in memory. *)
Definition durable (d : Disk) (j : Journal) : Prop := ∃ text document, holds d path text ∧
  json_parse text = Some document ∧ parse_document document = Accepted (nextId j, records j).

Lemma durable_aside d d' j : wf d → aside d d' → durable d j → durable d' j.
Proof. intros Hw Ha (text & document & Hh & ?). exists text, document. split; [by eapply holds_aside|done]. Qed.

Lemma stored_durable `{!JsonTextLaws} d j text : Inv j → text_of j = Some text → holds d path text → durable d j.
Proof.
  intros [Hn Hr Hl Hok] Ht Hh. destruct (text_roundtrip _ _ _ Hn Hr Hl Hok Ht) as (document & ? & ?). by exists text, document.
Qed.

Lemma run_refines `{!JsonTextLaws} clock c j w b j' w' : alone w → wf (w_disk w) → clocked clock →
  Inv j → usable j = true → durable (w_disk w) j → caller_ok c j →
  run path clock c j w = (Returned b, j', w') →
  Inv j' ∧ leaves_others path (w_disk w) (w_disk w') ∧
  if b then usable j' = true ∧ durable (w_disk w') j'
  else j' = j ∧ durable (w_disk w') j ∨ usable j' = false ∧ ∃ text, text_of j' = Some text ∧ shows (w_disk w') text.
Proof.
  intros Ha Hw Hc Hinv Hu Hd Hok Hrun. pose proof (run_good path clock c j w Hc Hinv Hok) as [Hinv' _]. rewrite Hrun in Hinv'. simpl in Hinv'.
  split; [done|]. pose proof (run_shape clock c j w) as Hshape. cbv beta in Hshape. destruct Hshape as [Hs|[Hs|(new & Hs & Hl & Hi & Hh)]]; rewrite Hrun in Hs; [injection Hs as -> -> ->|done|].
  - split; [by split|]. by left.
  - destruct (persist_runs new (w_disk w) Hw w Ha eq_refl) as [_ [Ho Hpost]]. unfold answer, commit, mbind in Hs.
    destruct (persist path new w) as [[[]|] w1]; simpl in *; simplify_eq; (split; [done|]).
    + split; [unfold usable in *; by rewrite Hl, Hh|]. destruct Hpost as (text & ? & ?). by eapply stored_durable.
    + left. split; [done|]. by eapply durable_aside.
    + right. split; [|done]. unfold usable. by rewrite andb_false_r.
Qed.

(** C5. Memory and disk never disagree unnoticed. When a call on a usable journal
    is answered, whichever system calls fail: on success the journal is still
    usable and its document is durable on disk, so that a crash brings back
    exactly the records in memory; on failure either nothing has changed and
    the old document is still durable, or the journal is unusable from then on.
    No other file of the directory is touched. *)
Theorem journal_refines_durable_store `{!JsonTextLaws} clock c j w b j' w' : alone w → wf (w_disk w) → clocked clock →
  Inv j → usable j = true → durable (w_disk w) j → caller_ok c j →
  run path clock c j w = (Returned b, j', w') →
  Inv j' ∧ leaves_others path (w_disk w) (w_disk w') ∧
  if b then usable j' = true ∧ durable (w_disk w') j'
  else j' = j ∧ durable (w_disk w') j ∨ usable j' = false ∧ ∃ text, text_of j' = Some text ∧ shows (w_disk w') text.
Proof. apply run_refines. Qed.
End disk.
