(* ===== verification/JournalRecovery.v ===== *)
(** What the lifecycle of the journal guarantees: a load that succeeds, an
    initialization that succeeds, a journal that has vanished, and the record
    that is durable before the daemon changes the system. *)

From S2P Require Import Prelude PolicyModel FileModel AtomicWriter AtomicFacts Json JsonRead StateStore TargetStore OwnershipGrammar MutationRecord MutationValid MutationCodec CodecFacts CodecText Journal JournalLoad JournalFacts JournalSteps JournalOwnership JournalDisk.
Open Scope string_scope.
Open Scope nat_scope.
Open Scope file_scope.

(** A step that at most flushes the directory. *)
Definition flushed (d d' : Disk) : Prop := d' = d ∨ d' = synced d.

Lemma flushed_file p d d' : flushed d d' → keeps_file p d d'.
Proof. intros [-> | ->]; [apply keeps_file_refl|apply keeps_file_synced]. Qed.
Lemma flushed_wf d d' : wf d → flushed d d' → wf d'.
Proof. intros Hw [-> | ->]; [done|by apply synced_wf]. Qed.
Lemma flushed_trans d1 d2 d3 : flushed d1 d2 → flushed d2 d3 → flushed d1 d3.
Proof. intros [-> | ->] [-> | ->]; unfold flushed; auto. Qed.

(** The entry of a file survives a crash. *)
Definition entry_durable (d : Disk) (p : string) : Prop := ∃ n i, lookup_path d p = Some (n, i) ∧ ∀ e, crash_entry d p e → e = Some n.

Lemma entry_durable_synced d p n i : lookup_path d p = Some (n, i) → entry_durable (synced d) p.
Proof.
  intros Hl. exists n, i. split; [done|]. intros e [->|Hin]; [by apply lookup_path_Some in Hl as [? _]|].
  simpl in Hin. rewrite lookup_empty in Hin. inversion Hin.
Qed.

Lemma entry_durable_kept d d' p : keeps_file p d d' → entry_durable d p → entry_durable d' p.
Proof.
  intros (Hn & Hf & _ & He) (n & i & Hl & Hall). destruct (Hf n i Hl) as (i' & Hl' & _). exists n, i'. split; [done|].
  apply lookup_path_Some in Hl as [Hname _]. rewrite Hname in He. auto.
Qed.

Lemma holds_entry d p text : holds d p text → entry_durable d p.
Proof. intros (n & i & Hl & _ & _ & Hall). by exists n, i. Qed.

Section recovery.
Context `{JsonText} `{JsonStrict} `{!JsonParseLaws} (path : string) (path_visible : visible path).

(** * Loading *)

Definition load_post (j : Journal) (d : Disk) (r : flow bool * Journal) (d' : Disk) : Prop :=
  flushed d d' ∧
  match r with
  | (Returned true, j') =>
      usable j' = true ∧ lifecycleInitialized j' = lifecycleInitialized j ∧ Inv j' ∧ durable path d' j'
  | (Returned false, j') => j' = poisoned j
  | (Thrown, j') => j' = j
  end.

Lemma load_runs j d : content_saved d path → runs (loadExisting path j) d (load_post j d).
Proof.
  intros Hsaved. assert (runs (failLoad j) d (load_post j d)) as Hfail by (apply runs_ret; split; [by left|done]).
  unfold loadExisting, loadImpl. eapply runs_bind_looks; [apply looks_probe|]. intros [] _; [|done|done].
  eapply runs_bind_looks; [apply looks_capture|]. intros [snapshot|] Hcap; [|done]. specialize (Hcap snapshot eq_refl).
  unfold load_snapshot. destruct (is_empty _); [done|]. destruct (json_parse (content snapshot)) as [document|] eqn:Hp; [|done].
  destruct (parse_document document) as [[next parsed]| |] eqn:Hd; [|done|apply runs_ret; split; [by left|done]].
  eapply runs_bind; [apply durable_runs|]. intros [] d' Hd'; cbn [negb].
  - destruct Hd' as [_ ->]. apply runs_ret. split; [by right|]. split; [unfold usable; cbn; by rewrite bool_decide_true|]. split; [done|]. split.
    + apply json_parse_numbers in Hp. destruct (document_numbers _ _ _ Hp Hd), (journal_document_inv _ _ _ Hd). by split.
    + destruct Hcap as (n & i & Hl & _ & ->). exists (i_content i), document. split; [by eapply holds_synced|done].
  - subst d'. apply runs_ret. split; [by left|done].
Qed.

Lemma load_complete_runs j d : content_saved d path → runs (load_and_complete path j) d (λ r d', flushed d d' ∧
  match r with
  | (Returned true, j') => usable j' = true ∧ lifecycleInitialized j' = true ∧ Inv j' ∧ durable path d' j'
  | (Returned false, j') => j' = poisoned j
  | (Thrown, j') => j' = j
  end).
Proof.
  intros Hs. eapply runs_bind; [by apply load_runs|]. intros [[[]|] j'] d' [Hf Hpost]; apply runs_ret; (split; [done|]); [|done..].
  destruct Hpost as (Hu & Hl & Hi & Hd). split_and!; [done|done| |done]. by eapply Inv_eq; [..|exact Hi].
Qed.

(** * The witness *)

Hypothesis witness_visible : visible (witnessPath path).

Lemma witness_apart : path ≠ witnessPath path.
Proof.
  unfold witnessPath. intros He. apply (f_equal String.length) in He. rewrite string_length_app in He. simpl in He. lia.
Qed.

Definition witness_post (d : Disk) (b : bool) (d' : Disk) : Prop :=
  flushed d d' ∧ (b = true → entry_durable d' (witnessPath path) ∧
    ∃ s document, object_at d (witnessPath path) s ∧ json_parse (content s) = Some document ∧ witness_content_ok document = true).

Lemma witness_valid_runs d : runs (witnessIsValid path) d (witness_post d).
Proof.
  unfold witnessIsValid. eapply runs_bind_looks; [apply looks_capture|]. intros [s|] Hcap; [|apply runs_ret; split; [by left|done]].
  specialize (Hcap s eq_refl). destruct (json_parse (content s)) as [document|] eqn:Hp; [|apply runs_ret; split; [by left|done]].
  destruct (witness_content_ok document) eqn:Hw; cbn [negb]; [|apply runs_ret; split; [by left|done]].
  eapply runs_mono; [apply durable_runs|]. intros [] d' Hd'; [|subst; split; [by left|done]]. destruct Hd' as [_ ->]. split; [by right|].
  intros _. split; [|eauto 10]. destruct Hcap as (n & i & Hl & _). by eapply entry_durable_synced.
Qed.

(** The witness is created or found; the journal's file is left alone. *)
Definition created_post (d : Disk) (r : flow bool) (d' : Disk) : Prop :=
  wf d' ∧ keeps_file path d d' ∧ match r with Returned true => entry_durable d' (witnessPath path) | _ => True end.

Lemma write_post_kept d d' q text options r : wf d → visible path → path ≠ q → write_post d q text options r d' → wf d' ∧ keeps_file path d d'.
Proof.
  intros Hw Hp Hne Hpost. split; [by apply (write_post_others q _ _ _ _ _ Hw) in Hpost as [? _]|]. unfold write_post in Hpost.
  destruct (installed r.2).
  - destruct Hpost as (_ & (fd & k & [Hsw _] & _) & _). by eapply keeps_file_swapped.
  - destruct Hpost as (_ & _ & _ & [Ha|(_ & _ & fd & k & [Hsw _])]); [by apply keeps_file_aside|by eapply keeps_file_swapped].
Qed.

Lemma create_witness_runs d : wf d → runs (createWitness path) d (created_post d).
Proof.
  intros Hw. unfold createWitness. destruct (dump_text witness_document) as [text|]; [|apply runs_ret; split_and!; [done|apply keeps_file_refl|done]].
  eapply runs_bind; [by apply write_runs|]. intros [written result] d1 Hpost.
  destruct (write_post_kept d d1 _ _ _ _ Hw path_visible witness_apart Hpost) as [Hw1 Hk1]. unfold write_post in Hpost. cbn [fst snd] in Hpost.
  destruct (installed result) eqn:Hi; cbn [negb].
  - destruct Hpost as (-> & (fd & k & Hnew & _ & Hst) & Hdur & _). rewrite Hst. destruct (durabilityConfirmed result).
    + apply runs_ret. split_and!; [done|done|]. eapply holds_entry, holds_new_file; [done|auto].
    + eapply runs_bind; [apply durable_runs|]. intros [] d2 Hd2; apply runs_ret.
      * destruct Hd2 as [_ ->]. split_and!; [by apply synced_wf|eauto using keeps_file_trans, keeps_file_synced|].
        destruct Hnew as [Hsw _]. eapply (entry_durable_synced _ _ fd k), lookup_path_Some.
        split; [apply (sw_name _ _ _ _ _ Hsw)|apply (sw_node _ _ _ _ _ Hsw)].
      * by subst d2.
  - destruct Hpost as (-> & _). eapply runs_bind; [apply witness_valid_runs|]. intros b d2 [Hf Hb]. apply runs_ret.
    split_and!; [by eapply flushed_wf|eauto using keeps_file_trans, flushed_file|]. destruct b; [by apply Hb|done].
Qed.

(** * Initialization *)

(** A journal that is ready: usable, complete, read from a durable document,
    with a durable witness. *)
Definition ready (d : Disk) (j : Journal) : Prop :=
  usable j = true ∧ lifecycleInitialized j = true ∧ Inv j ∧ durable path d j ∧ entry_durable d (witnessPath path).

Definition init_post (r : flow bool * Journal) (d' : Disk) : Prop :=
  wf d' ∧ content_saved d' path ∧ match r with (Returned true, j') => ready d' j' | (_, _) => True end.

Lemma fail_init j d : wf d → content_saved d path → runs (failLoad j) d init_post.
Proof. intros Hw Hs. apply runs_ret. by split_and!. Qed.

Lemma complete_init j d : wf d → content_saved d path → entry_durable d (witnessPath path) → runs (load_and_complete path j) d init_post.
Proof.
  intros Hw Hs He. eapply runs_mono; [by apply load_complete_runs|]. intros [[[]|] j'] d' [Hf Hpost];
    (split_and!; [by eapply flushed_wf|by eapply keeps_file_saved, Hs; apply flushed_file|]); [|done..].
  destruct Hpost as (? & ? & ? & ?). unfold ready. split_and!; try done. by eapply entry_durable_kept; [apply flushed_file|].
Qed.

Lemma existing_runs missing j d : wf d → content_saved d path →
  runs (initializeExistingJournal path missing j) d (λ r d', init_post r d' ∧ keeps_file path d d').
Proof.
  intros Hw Hs. unfold initializeExistingJournal. destruct missing.
  - eapply runs_bind; [by apply load_runs|]. intros [[[]|] j'] d1 [Hf _];
      pose proof (flushed_wf _ _ Hw Hf) as Hw1; pose proof (keeps_file_saved _ _ _ (flushed_file path _ _ Hf) Hs) as Hs1;
      [|apply runs_ret; split; [by split_and!|by apply flushed_file]..].
    eapply runs_bind; [by apply create_witness_runs|]. intros r d2 (Hw2 & Hk2 & He).
    pose proof (keeps_file_saved _ _ _ Hk2 Hs1) as Hs2. assert (keeps_file path d d2) as Hk by eauto using keeps_file_trans, flushed_file.
    destruct r as [[]|].
    + eapply runs_mono; [eapply runs_and; [by apply (complete_init j')|by apply load_complete_runs]|].
      intros r d3 [Hpost [Hf3 _]]. split; [done|]. eauto using keeps_file_trans, flushed_file.
    + apply runs_ret. split; [by split_and!|done].
    + apply runs_ret. split; [by split_and!|done].
  - eapply runs_bind; [by apply witness_valid_runs|]. intros b d1 [Hf Hb].
    pose proof (flushed_wf _ _ Hw Hf) as Hw1. pose proof (keeps_file_saved _ _ _ (flushed_file path _ _ Hf) Hs) as Hs1.
    destruct b; cbn [negb]; [|apply runs_ret; split; [by split_and!|by apply flushed_file]].
    destruct (Hb eq_refl) as [He _].
    eapply runs_mono; [eapply runs_and; [by apply (complete_init j)|by apply load_complete_runs]|].
    intros r d3 [Hpost [Hf3 _]]. split; [done|]. eauto using keeps_file_trans, flushed_file.
Qed.

Definition boot_post (r : flow BootstrapOutcome * Journal) (d' : Disk) : Prop :=
  wf d' ∧ content_saved d' path ∧ match r with (Returned BInstalled, j') => ready d' j' | (_, _) => True end.

Lemma finish_runs j d : wf d → content_saved d path → runs (bootstrap_finish path j) d boot_post.
Proof.
  intros Hw Hs. unfold bootstrap_finish. eapply runs_bind; [by apply create_witness_runs|]. intros r d1 (Hw1 & Hk1 & He).
  pose proof (keeps_file_saved _ _ _ Hk1 Hs) as Hs1. destruct r as [[]|]; [|by apply runs_ret; split_and!..].
  eapply runs_bind; [by apply (complete_init j)|]. intros [[[]|] j'] d2 (Hw2 & Hs2 & Hr); apply runs_ret; by split_and!.
Qed.

Lemma new_file_saved d0 d text options fd k : new_file d0 d path text options fd k → content_saved d path.
Proof.
  intros [Hsw (i & target & Hs & Hwant)]. unfold wanted, is_file in Hwant. destruct (wanted_metadata _ _ _ _) as [[u g] m].
  destruct Hwant as (_ & Hc & Hsv & _), Hs as (_ & Sc & Ss & _). intros n i' [Hn Hi]%lookup_path_Some.
  rewrite (sw_name _ _ _ _ _ Hsw) in Hn. injection Hn as <-. rewrite (sw_node _ _ _ _ _ Hsw) in Hi. congruence.
Qed.

Lemma bootstrap_runs j d : wf d → content_saved d path → runs (bootstrapVirgin path j) d boot_post.
Proof.
  intros Hw Hs. unfold bootstrapVirgin. destruct (dump_text empty_document) as [text|]; [|by apply runs_ret; split_and!].
  eapply runs_bind; [by apply write_runs|]. intros [written result] d1 Hpost.
  pose proof (write_post_others path _ _ _ _ _ Hw Hpost) as [Hw1 _]. unfold write_post in Hpost. cbn [fst snd] in Hpost.
  destruct (installed result) eqn:Hi; cbn [negb].
  - destruct Hpost as (-> & (fd & k & Hnew & _ & Hst) & Hdur & _). rewrite Hst. pose proof (new_file_saved _ _ _ _ _ _ Hnew) as Hs1.
    destruct (durabilityConfirmed result); [by apply finish_runs|].
    eapply runs_bind; [apply durable_runs|]. intros [] d2 Hd2; cbn [negb].
    + destruct Hd2 as [_ ->]. apply finish_runs; [by apply synced_wf|by eapply keeps_file_saved, Hs1; apply keeps_file_synced].
    + subst d2. by apply runs_ret; split_and!.
  - destruct Hpost as (-> & _ & _ & Hor). assert (content_saved d1 path) as Hs1.
    { destruct Hor as [Ha|(_ & _ & fd & k & Hnew)]; [by eapply keeps_file_saved, Hs; apply keeps_file_aside|by eapply new_file_saved]. }
    eapply runs_bind_looks; [apply looks_probe|]. intros [] _; by apply runs_ret; split_and!.
Qed.

Lemma table_runs passes j d : wf d → content_saved d path → runs (state_table path passes j) d init_post.
Proof.
  revert j d. induction passes as [|passes IH]; intros j d Hw Hs; [by apply fail_init|]. cbn [state_table].
  eapply runs_bind_looks; [apply looks_probe|]. intros pj _. case_bool_decide; [by apply fail_init|].
  eapply runs_bind_looks; [apply looks_probe|]. intros pw _. case_bool_decide; [by apply fail_init|].
  assert (∀ missing, runs (initializeExistingJournal path missing j) d init_post) as Hex.
  { intros missing. eapply runs_mono; [by apply existing_runs|]. by intros r d' [? _]. }
  destruct pj; [destruct pw; apply Hex| |done]. destruct pw; [| |done].
  - eapply runs_bind; [apply witness_valid_runs|]. intros b d1 [Hf _].
    apply fail_init; [by eapply flushed_wf|by eapply keeps_file_saved, Hs; apply flushed_file].
  - eapply runs_bind; [by apply bootstrap_runs|]. intros [[[]|] j'] d1 (Hw1 & Hs1 & Hr); try (by apply runs_ret; split_and!).
    by apply IH.
Qed.

(** * What initialization promises *)

(** C32. When the journal is initialized or reloaded successfully, whatever state
    the object and the directory were in and whichever system calls failed on
    the way, the journal is usable, satisfies every rule of the records, and is
    exactly what the durable document on disk says; and a first initialization
    leaves the initialization witness durable beside it. *)
Theorem initialized_journal_is_ready j w j' w' : alone w → wf (w_disk w) → content_saved (w_disk w) path →
  initializeOrLoad path j w = ((Returned true, j'), w') →
  usable j' = true ∧ lifecycleInitialized j' = true ∧ Inv j' ∧ durable path (w_disk w') j' ∧
  (lifecycleInitialized j = false → entry_durable (w_disk w') (witnessPath path)).
Proof.
  intros Ha Hw Hs Hrun. unfold initializeOrLoad in Hrun. destruct (lifecycleInitialized j) eqn:Hl.
  - destruct (load_runs j (w_disk w) Hs w Ha eq_refl) as [_ [_ Hpost]]. rewrite Hrun in Hpost. destruct Hpost as (? & Hl' & ? & ?).
    split_and!; [done|congruence|done|done|done].
  - destruct (table_runs kMaxStateTablePasses j (w_disk w) Hw Hs w Ha eq_refl) as [_ (_ & _ & Hpost)]. unfold initializeFresh in Hrun.
    rewrite Hrun in Hpost. destruct Hpost as (? & ? & ? & ? & ?). by split_and!.
Qed.

Lemma vanished_runs j d n i : lookup_path d path = None → lookup_path d (witnessPath path) = Some (n, i) → i_kind i ≠ Symlink →
  runs (initializeOrLoad path j) d (λ r d', r = (Returned false, poisoned j) ∧ flushed d d').
Proof.
  intros Hp Hwit Hk. assert (∀ d', flushed d d' → runs (failLoad j) d' (λ r d', r = (Returned false, poisoned j) ∧ flushed d d')) as Hfail
    by (intros; by apply runs_ret).
  assert (flushed d d) as Hrefl by (by left). unfold initializeOrLoad. destruct (lifecycleInitialized j).
  - eapply runs_bind_looks; [apply looks_probe|]. intros [] Hpr; [done|cbn [andb bool_decide]|by apply Hfail].
    rewrite bool_decide_false by done. by apply Hfail.
  - eapply runs_bind_looks; [apply looks_probe|]. intros pj Hpj. case_bool_decide; [by apply Hfail|].
    eapply runs_bind_looks; [apply looks_probe|]. intros pw Hpw. case_bool_decide; [by apply Hfail|]. destruct pj; [done| |done].
    destruct pw; [|by destruct (Hk (Hpw n i Hwit))|done].
    eapply runs_bind; [apply witness_valid_runs|]. intros b d' [Hf _]. by apply Hfail.
Qed.

(** A journal that has vanished is never replaced by an empty one: when the
    witness says the journal was initialized and its file is gone,
    initialization refuses, poisons the journal, and creates nothing. *)
Theorem vanished_journal_is_not_recreated j w n i : alone w →
  lookup_path (w_disk w) path = None → lookup_path (w_disk w) (witnessPath path) = Some (n, i) → i_kind i ≠ Symlink →
  let r := initializeOrLoad path j w in r.1 = (Returned false, poisoned j) ∧ flushed (w_disk w) (w_disk r.2).
Proof. intros Ha Hp Hwit Hk r. by destruct (vanished_runs j (w_disk w) n i Hp Hwit Hk w Ha eq_refl) as [_ ?]. Qed.

(** The file of an existing journal is never rewritten by initialization:
    whatever it contains, valid or not, and whichever calls fail, the entry
    still names the same file with the same content. *)
Theorem existing_journal_is_not_rewritten j w n i : alone w → wf (w_disk w) → content_saved (w_disk w) path →
  lookup_path (w_disk w) path = Some (n, i) → i_kind i ≠ Symlink →
  ∃ i', lookup_path (w_disk (initializeOrLoad path j w).2) path = Some (n, i') ∧ same_file i i'.
Proof.
  intros Ha Hw Hs Hl Hk. assert (runs (initializeOrLoad path j) (w_disk w) (λ _ d', keeps_file path (w_disk w) d')) as Hruns.
  - assert (runs (failLoad j) (w_disk w) (λ _ d', keeps_file path (w_disk w) d')) as Hfail by (apply runs_ret, keeps_file_refl).
    unfold initializeOrLoad. destruct (lifecycleInitialized j).
    + eapply runs_mono; [by apply load_runs|]. intros r d' [Hf _]. by apply flushed_file.
    + eapply runs_bind_looks; [apply looks_probe|]. intros pj Hpj. case_bool_decide; [done|].
      eapply runs_bind_looks; [apply looks_probe|]. intros pw _. case_bool_decide; [done|]. destruct pj; [|by destruct (Hk (Hpj n i Hl))|done].
      destruct pw; (eapply runs_mono; [by apply existing_runs|]; by intros r d' [_ ?]).
  - destruct (Hruns w Ha eq_refl) as [_ (_ & Hf & _)]. by apply Hf.
Qed.

(** The read-only validation never creates, replaces or removes a file, and
    what it accepts is ready: journal and witness durable, the records those of
    the document. *)
Theorem readonly_validation_is_readonly j w : alone w → wf (w_disk w) → content_saved (w_disk w) path →
  let r := validatePersistentStateReadOnly path j w in
  flushed (w_disk w) (w_disk r.2) ∧ ∀ j', r.1 = (Returned true, j') → ready (w_disk r.2) j'.
Proof.
  intros Ha Hw Hs r. assert (runs (validatePersistentStateReadOnly path j) (w_disk w) (λ r d', flushed (w_disk w) d' ∧
    ∀ j', r = (Returned true, j') → ready d' j')) as Hruns; [|by destruct (Hruns w Ha eq_refl) as [_ ?]].
  set (d := w_disk w) in *. assert (∀ d', flushed d d' → runs (failLoad j) d' (λ r d', flushed d d' ∧ ∀ j', r = (Returned true, j') → ready d' j')) as Hfail
    by (intros; by apply runs_ret). assert (flushed d d) as Hrefl by (by left).
  unfold validatePersistentStateReadOnly. eapply runs_bind_looks; [apply looks_probe|]. intros pj _. case_bool_decide; [by apply Hfail|].
  eapply runs_bind_looks; [apply looks_probe|]. intros pw _. case_bool_decide; [by apply Hfail|].
  destruct pj; [|destruct pw; try (by apply Hfail); (eapply runs_bind; [apply witness_valid_runs|]; intros b d' [Hf _]; by apply Hfail)|done].
  destruct pw; [|by apply Hfail|done]. eapply runs_bind; [apply witness_valid_runs|]. intros [] d1 [Hf1 He]; cbn [negb]; [|by apply Hfail].
  pose proof (keeps_file_saved _ _ _ (flushed_file path _ _ Hf1) Hs) as Hs1. pose proof (flushed_wf _ _ Hw Hf1) as Hw1. destruct (He eq_refl) as [He1 _].
  eapply runs_mono; [eapply runs_and; [by apply (complete_init j)|by apply load_complete_runs]|].
  intros r' d2 [(_ & _ & Hpost) [Hf2 _]]. split; [by eapply flushed_trans|]. intros j' ->. exact Hpost.
Qed.

(** * The daemon *)

(** The daemon holds no journal, or one that was initialized and agrees with the
    disk while it is usable. *)
Definition daemon_ok (dm : Daemon) (d : Disk) : Prop :=
  wf d ∧ content_saved d path ∧
  match dm with
  | Some j => Inv j ∧ lifecycleInitialized j = true ∧ (usable j = true → durable path d j)
  | None => True
  end.

Definition got_post (r : flow (option Journal) * Daemon) (d : Disk) : Prop :=
  match r with
  | (Returned (Some j), dm) => dm = Some j ∧ wf d ∧ Inv j ∧ usable j = true ∧ lifecycleInitialized j = true ∧ durable path d j
  | (_, _) => True
  end.

Lemma init_runs j d : wf d → content_saved d path → runs (initializeOrLoad path j) d (λ r d', wf d' ∧
  match r with (Returned true, j') => Inv j' ∧ usable j' = true ∧ lifecycleInitialized j' = true ∧ durable path d' j' | (_, _) => True end).
Proof.
  intros Hw Hs. unfold initializeOrLoad. destruct (lifecycleInitialized j) eqn:Hl.
  - eapply runs_mono; [by apply load_runs|]. intros [[[]|] j'] d' [Hf Hpost]; (split; [by eapply flushed_wf|]); [|done..].
    destruct Hpost as (? & ? & ? & ?). split_and!; [done|done|congruence|done].
  - eapply runs_mono; [by apply table_runs|]. intros [[[]|] j'] d' (Hw' & _ & Hpost); (split; [done|]); [|done..].
    by destruct Hpost as (? & ? & ? & ? & _).
Qed.

Lemma init_elim j w j' w' : alone w → wf (w_disk w) → content_saved (w_disk w) path → initializeOrLoad path j w = ((Returned true, j'), w') →
  alone w' ∧ wf (w_disk w') ∧ Inv j' ∧ usable j' = true ∧ durable path (w_disk w') j'.
Proof.
  intros Ha Hw Hs Hrun. destruct (init_runs j (w_disk w) Hw Hs w Ha eq_refl) as [Ha' [Hw' Hpost]]. rewrite Hrun in Ha', Hw', Hpost.
  by destruct Hpost as (? & ? & _ & ?).
Qed.

Lemma tryGet_runs dm d : daemon_ok dm d → runs (tryGet path dm) d got_post.
Proof.
  intros (Hw & Hs & Hj). unfold tryGet. destruct dm as [j|].
  - destruct Hj as (Hi & Hl & Hd). destruct (usable j) eqn:Hu; [apply runs_ret; split_and!; auto|].
    eapply runs_bind; [by apply init_runs|]. intros [[b|] j'] d' [Hw' Hpost]; apply runs_ret; [|done]. destruct b; [|done]. cbn [andb].
    destruct Hpost as (? & Hu' & Hl' & ?). rewrite Hu', Hl'. by split_and!.
  - eapply runs_bind; [by apply init_runs|]. intros [[b|] j'] d' [Hw' Hpost]; apply runs_ret; [|done]. destruct b; [|done]. cbn [andb].
    destruct Hpost as (? & Hu' & Hl' & ?). rewrite Hu', Hl'. by split_and!.
Qed.

(** C4. Every change of the system is recorded before it is made: when the daemon
    reports a mutation as recorded, from any state of the directory and of the
    daemon, there is a record of exactly this policy, resource and undo action
    with the id it returns, still marked as unresolved, in the document that is
    durable on disk. *)
Theorem mutation_is_durable_before_it_is_made `{!JsonTextLaws} clock p res u dm i dm' w w' : alone w → clocked clock →
  daemon_ok dm (w_disk w) → writer_ok u = true → payload_range (payload u) →
  (∀ j, (tryGet path dm w).1.1 = Returned (Some j) → (nextId j + 1 < 2 ^ 64)%Z) →
  recordPreparedMutation path clock p res u dm w = ((Returned (Some i), dm'), w') →
  daemon_ok dm' (w_disk w') ∧ ∃ j r text document, dm' = Some j ∧ holds (w_disk w') path text ∧ json_parse text = Some document ∧
    parse_document document = Accepted (nextId j, records j) ∧ r ∈ records j ∧
    mid r = i ∧ policy r = p ∧ resource r = res ∧ undo r = u ∧ status r = Prepared.
Proof.
  intros Ha Hc Hdm Hwr Hrange Hnext Hrun. unfold recordPreparedMutation, with_journal, mbind in Hrun.
  destruct (tryGet_runs dm (w_disk w) Hdm w Ha eq_refl) as [Ha1 Hgot]. destruct (tryGet path dm w) as [[[[j|]|] dm1] w1] eqn:Hget; [|done..].
  destruct Hgot as (-> & Hw1 & Hinv & Hu & Hl & Hd). set (record := mkRecord _ _ _ _ _ _ _ _) in Hrun.
  destruct (prepareMutation path clock record j w1) as [[result j'] w2] eqn:Hprep. injection Hrun as -> <- <-.
  destruct (prepared_record path clock record j i j' w1 w2 Hinv eq_refl eq_refl Hwr Hprep) as (r & Hin & Hid & Hst & Hundo & Hpol & Hres & _).
  assert (caller_ok (CPrepare record) j) as Hok by (split; [by apply Hnext|by split_and!]).
  assert (run path clock (CPrepare record) j w1 = (Returned true, j', w2)) as Hr by (unfold run; cbn; unfold answer; by rewrite Hprep).
  destruct (run_refines path path_visible clock (CPrepare record) j w1 true j' w2 Ha1 Hw1 Hc Hinv Hu Hd Hok Hr) as (Hinv' & [Hw2 _] & Hu' & Hd').
  pose proof (run_good path clock (CPrepare record) j w1 Hc Hinv Hok) as [_ Hev]. rewrite Hr in Hev. simpl in Hev.
  pose proof Hd' as (text & document & Hh & Hparse & Hdoc). split.
  - split_and!; [done|by eapply holds_saved|done| |done]. by rewrite (evolves_lifecycle _ _ Hev).
  - exists j', r, text, document. by split_and!.
Qed.
End recovery.
