(* ===== verification/Progress.v ===== *)
(** The file operations when no system call fails and nobody interferes: they
    reach their ends. *)

From stdpp Require Import pretty.
From S2P Require Import Prelude FileModel AtomicWriter AtomicFacts.
Open Scope string_scope.
Open Scope nat_scope.
Open Scope file_scope.

(** In a quiet world the operation returns [a] and leaves [d']. *)
Definition goes {A} (m : M A) (d : Disk) (a : A) (d' : Disk) : Prop := m (mkWorld d []) = (a, mkWorld d' []).

Lemma goes_ret {A} (a : A) d : goes (mret a) d a d.
Proof. done. Qed.

Lemma goes_bind {A B} (m : M A) (k : A → M B) d a d1 b d2 : goes m d a d1 → goes (k a) d1 b d2 → goes (mbind m k) d b d2.
Proof. unfold goes, mbind. by intros ->. Qed.

Lemma goes_sys {A} (call : option nat → Disk → (Z + A) * Disk) d r d' : call None d = (r, d') → goes (sys call) d r d'.
Proof. unfold goes, sys. simpl. by intros ->. Qed.

Lemma goes_script d : goes script_length d 0 d.
Proof. done. Qed.

Lemma goes_close d : goes sys_close d (inr tt) d.
Proof. done. Qed.

Lemma goes_open d path n i : lookup_path d path = Some (n, i) → i_kind i = Regular → goes (sys_open path) d (inr n) d.
Proof. intros Hl Hk. apply goes_sys. rewrite Hl. by destruct (decide (i_kind i = Symlink)) as [Hs|]; [rewrite Hk in Hs|]. Qed.

Lemma goes_fstat d fd i : d_nodes d !! fd = Some i → goes (sys_fstat fd) d (inr (stat_of (d_dev d) fd i)) d.
Proof. intros Hi. apply goes_sys. unfold with_fd. by rewrite Hi. Qed.

Lemma goes_lstat d path n i : lookup_path d path = Some (n, i) → goes (sys_lstat path) d (inr (stat_of (d_dev d) n i)) d.
Proof. intros Hl. apply goes_sys. by rewrite Hl. Qed.

Lemma goes_lstat_none d path : lookup_path d path = None → goes (sys_lstat path) d (inl ENOENT) d.
Proof. intros Hl. apply goes_sys. by rewrite Hl. Qed.

Lemma resolve_regular fuel d path n i : lookup_path d path = Some (n, i) → i_kind i = Regular → resolve (S fuel) d path = inr path.
Proof. intros Hl Hk. simpl. rewrite Hl. by destruct (decide (i_kind i = Symlink)) as [Hs|]; [rewrite Hk in Hs|]. Qed.

Lemma goes_stat d path n i : lookup_path d path = Some (n, i) → i_kind i = Regular → goes (sys_stat path) d (inr (stat_of (d_dev d) n i)) d.
Proof. intros Hl Hk. apply goes_sys. rewrite (resolve_regular 39 d path n i Hl Hk). by rewrite Hl. Qed.

Lemma goes_stat_none d path : lookup_path d path = None → goes (sys_stat path) d (inl ENOENT) d.
Proof. intros Hl. apply goes_sys. assert (resolve 40 d path = inl ENOENT) as -> by (change 40 with (S 39); cbn [resolve]; by rewrite Hl). done. Qed.

Lemma goes_canonical d path n i : lookup_path d path = Some (n, i) → i_kind i = Regular → goes (sys_canonical path) d (inr path) d.
Proof. intros Hl Hk. apply goes_sys. by rewrite (resolve_regular 39 d path n i Hl Hk). Qed.

(** * Reading *)

Lemma substring_prefix_app s rest : String.substring 0 (String.length s) (s +:+ rest) = s.
Proof. induction s as [|c s IH]; [by destruct rest|]. change (String c s +:+ rest) with (String c (s +:+ rest)). simpl. by rewrite IH. Qed.

(** The bytes of one turn, after [a] was read and with [rest] left. *)
Definition turn_of (rest : string) : read_turn :=
  match String.substring 0 8192 rest with EmptyString => TurnEnd | s => TurnBytes s end.

Lemma goes_turn d fd i a rest : d_nodes d !! fd = Some i → i_content i = a +:+ rest →
  goes (read_once fd (String.length a)) d (turn_of rest) d.
Proof.
  intros Hi Hc. unfold read_once. eapply goes_bind; [apply goes_sys; unfold with_fd; rewrite Hi; reflexivity|].
  rewrite Hc, substring_skip. unfold turn_of. by destruct (String.substring 0 8192 rest).
Qed.

Lemma turn_cases rest : rest = "" ∧ turn_of rest = TurnEnd ∨
  ∃ s rest', rest = s +:+ rest' ∧ turn_of rest = TurnBytes s ∧ String.length rest' < String.length rest.
Proof.
  unfold turn_of. destruct (substring_front 8192 rest) as [rest' Hr].
  destruct (String.substring 0 8192 rest) as [|c s] eqn:Hs.
  - left. split; [|done]. by apply (substring_front_nil 8191).
  - right. exists (String c s), rest'. split_and!; [done|done|]. apply (f_equal String.length) in Hr. rewrite string_length_app in Hr.
    cbn [String.length] in Hr. lia.
Qed.

Lemma goes_read_rest d fd i turns a rest : d_nodes d !! fd = Some i → i_content i = a +:+ rest → String.length rest < turns →
  goes (read_rest turns fd a) d (Some (i_content i)) d.
Proof.
  intros Hi. revert a rest. induction turns as [|turns IH]; intros a rest Hc Hlt; [lia|]. cbn [read_rest].
  eapply goes_bind; [by apply (goes_turn d fd i)|]. destruct (turn_cases rest) as [[-> ->]|(s & rest' & -> & -> & Hlen)].
  - rewrite Hc, string_app_nil_r. apply goes_ret.
  - apply (IH _ rest'); [by rewrite Hc, string_app_assoc|lia].
Qed.

Lemma goes_read_all d fd i : d_nodes d !! fd = Some i → goes (read_all fd) d (Some (i_content i)) d.
Proof.
  intros Hi. unfold read_all. eapply goes_bind; [apply goes_script|]. cbn [read_scripted].
  eapply (goes_bind _ _ _ (String.length (i_content i)) d); [unfold goes, fd_length; simpl; by rewrite Hi|].
  by apply (goes_read_rest d fd i _ "" (i_content i)); [| |lia].
Qed.

Lemma goes_compare d fd i turns a rest : d_nodes d !! fd = Some i → i_content i = a +:+ rest → String.length rest < turns →
  goes (compare_loop turns fd (String.length a) (i_content i)) d (Some (String.length (i_content i))) d.
Proof.
  intros Hi. revert a rest. induction turns as [|turns IH]; intros a rest Hc Hlt; [lia|]. cbn [compare_loop].
  eapply goes_bind; [by apply (goes_turn d fd i)|]. destruct (turn_cases rest) as [[-> ->]|(s & rest' & -> & -> & Hlen)].
  - rewrite Hc, string_app_nil_r. apply goes_ret.
  - assert (String.substring (String.length a) (String.length s) (i_content i) = s) as Hsub.
    { rewrite Hc, substring_skip. by rewrite substring_prefix_app. }
    cbv zeta. rewrite Hsub, String.eqb_refl. cbn [negb]. rewrite orb_false_r.
    assert ((String.length (i_content i) <? String.length a + String.length s)%nat = false) as ->.
    { apply Nat.ltb_ge. rewrite Hc, !string_length_app. lia. }
    rewrite <-string_length_app. apply (IH _ rest'); [by rewrite Hc, string_app_assoc|lia].
Qed.

(** * Proofs of the current state *)

Definition current (d : Disk) (n : N) (i : Inode) : AtomicTargetState := target_of_stat (stat_of (d_dev d) n i) (i_content i).

Lemma goes_capture d path n i : lookup_path d path = Some (n, i) → i_kind i = Regular →
  goes (captureTargetState path) d (Some (current d n i)) d.
Proof.
  intros Hl Hk. apply lookup_path_Some in Hl as Hl2. destruct Hl2 as [_ Hi]. unfold captureTargetState.
  eapply goes_bind; [by eapply goes_open|]. eapply goes_bind; [by apply goes_fstat|]. cbn [stat_of st_kind].
  rewrite bool_decide_false by (intros Hn; by apply Hn). eapply goes_bind; [by apply goes_read_all|].
  eapply goes_bind; [apply goes_close|]. apply goes_ret.
Qed.

Lemma goes_matches d path n i : lookup_path d path = Some (n, i) → i_kind i = Regular →
  goes (targetStateMatches path (current d n i)) d true d.
Proof.
  intros Hl Hk. apply lookup_path_Some in Hl as Hl2. destruct Hl2 as [_ Hi]. unfold targetStateMatches, matchesExpectedTarget.
  eapply (goes_bind _ _ _ true d); [done|]. cbn [negb]. unfold matchesExpectedState. cbn [state_options expectedTargetState].
  eapply goes_bind; [by eapply goes_open|]. eapply goes_bind; [by apply goes_fstat|].
  cbv iota. assert (stat_matches (stat_of (d_dev d) n i) (current d n i) = true) as ->.
  { unfold stat_matches, current. simpl. by rewrite !bool_decide_true. }
  cbn [negb]. eapply goes_bind; [apply goes_script|]. cbn [current content target_of_stat].
  eapply goes_bind; [apply (goes_compare d n i _ "" (i_content i)); [done|done|lia]|].
  eapply goes_bind; [apply goes_close|]. rewrite Nat.eqb_refl. apply goes_ret.
Qed.

Lemma goes_fsync_parent d : i_kind (d_parent d) = Directory → goes fsyncParentDirectory d true (synced d).
Proof.
  intros Hp. unfold fsyncParentDirectory. eapply goes_bind.
  { apply goes_sys. by destruct (decide (i_kind (d_parent d) = Directory)). }
  eapply goes_bind; [by apply goes_sys|]. eapply goes_bind; [apply goes_close|]. apply goes_ret.
Qed.

Lemma goes_durable d path n i : lookup_path d path = Some (n, i) → i_kind i = Regular → i_kind (d_parent d) = Directory →
  goes (ensureTargetDurableIfCurrentState path (current d n i)) d true (synced d).
Proof.
  intros Hl Hk Hp. unfold ensureTargetDurableIfCurrentState, ensureTargetDurable. eapply goes_bind; [by apply goes_matches|]. cbn [negb].
  eapply goes_bind; [by eapply goes_lstat|]. cbn [stat_of st_kind]. rewrite bool_decide_false by (intros Hn; by apply Hn).
  eapply goes_bind; [by eapply goes_canonical|]. by apply goes_fsync_parent.
Qed.

(** * Writing *)

Lemma substring_end b : String.substring (String.length b) (String.length b - String.length b) b = "".
Proof.
  destruct (substring_cut (String.length b) b) as [_ Hl]; [done|]. destruct (String.substring _ _ _); [done|]. cbn [String.length] in Hl. lia.
Qed.

Lemma goes_write_all d fd i data : d_nodes d !! fd = Some i →
  ∃ d' i', goes (writeAll fd data) d true d' ∧ d' = set_nodes (<[fd := i']> (d_nodes d)) d ∧ i_kind i' = i_kind i ∧
    i_content i' = i_content i +:+ data.
Proof.
  intros Hi. unfold writeAll. destruct data as [|c data].
  - exists d, i. split_and!; [done| |done|by rewrite string_app_nil_r]. rewrite insert_id by done. by destruct d.
  - eexists _, (mkInode (i_kind i) (i_content i +:+ String c data) (i_saved i) (i_mode i) (i_uid i) (i_gid i) (i_nlink i) (d_clock d) (d_clock d)).
    split_and!; [|reflexivity|done|done]. eapply goes_bind; [apply goes_script|]. cbn [Nat.add String.length writeAll_loop].
    eapply goes_bind.
    { apply goes_sys. cbv beta zeta. unfold with_fd. rewrite Hi, substring_front_all by done. reflexivity. }
    pose proof (substring_end (String c data)) as Hs.
    cbn [String.length]. cbn [String.length] in Hs. rewrite Hs. destruct (String.length data); apply goes_ret.
Qed.

(** The journal's kind of write: no expectations, no admission. *)
Definition plain_write (options : AtomicWriteOptions) : Prop :=
  createIfMissing options = true ∧ rejectSymlink options = true ∧ exclusiveCreate options = false ∧
  expectedTargetIdentity options = None ∧ expectedTargetState options = None ∧ beforePublish options = None.

Lemma goes_no_expectation d path options : plain_write options → goes (matchesExpectedTarget path options) d true d.
Proof.
  intros (_ & _ & _ & Hi & Hs & _). unfold matchesExpectedTarget, matchesExpectedIdentity, matchesExpectedState. rewrite Hi, Hs.
  by eapply goes_bind; [apply goes_ret|].
Qed.

(** The target is absent or a regular file. *)
Definition writable (d : Disk) (path : string) : Prop :=
  match lookup_path d path with Some (_, i) => i_kind i = Regular | None => d_names d !! path = None end.

Lemma goes_checks d path options : plain_write options → writable d path →
  ∃ target, goes (write_checks path options) d (inr (path, target)) d.
Proof.
  intros Hplain Hw. pose proof Hplain as (Hc & Hr & He & _). unfold writable in Hw. unfold write_checks. rewrite Hr, He.
  destruct (lookup_path d path) as [[n i]|] eqn:Hl.
  - exists (Some (stat_of (d_dev d) n i)). eapply goes_bind; [by eapply goes_lstat|]. cbn [ok negb andb stat_of st_kind]. rewrite Hw, bool_decide_false by done.
    eapply goes_bind; [by apply goes_no_expectation|]. cbn [negb andb]. eapply goes_bind; [apply goes_ret|].
    eapply goes_bind; [by eapply goes_stat|]. cbn [stat_of st_kind]. rewrite Hw, bool_decide_false by (intros Hn; by apply Hn). apply goes_ret.
  - exists None. eapply goes_bind; [by apply goes_lstat_none|]. cbn [ok negb andb]. rewrite Hc, bool_decide_false by (intros Hn; by apply Hn). cbn [negb andb].
    eapply goes_bind; [by apply goes_no_expectation|]. cbn [negb andb]. eapply goes_bind; [apply goes_ret|].
    eapply goes_bind; [by apply goes_stat_none|]. cbv iota. rewrite bool_decide_false by (intros Hn; by apply Hn). cbn [negb]. apply goes_ret.
Qed.

Lemma set_nodes_set n m d : set_nodes n (set_nodes m d) = set_nodes n d.
Proof. done. Qed.

Lemma goes_update {A} d fd i (f : Disk → Inode → Inode) (k : Z + unit → M A) a d2 : d_nodes d !! fd = Some i →
  goes (k (inr tt)) (set_nodes (<[fd := f d i]> (d_nodes d)) d) a d2 →
  goes (let* r := sys (λ _ d, update_fd fd (f d) d) in k r) d a d2.
Proof. intros Hi Hk. eapply goes_bind; [|exact Hk]. apply goes_sys. unfold update_fd, with_fd. by rewrite Hi. Qed.

(** The directory with one more file under a temporary name. *)
Definition with_temp (d : Disk) (temp : string) (d' : Disk) : Prop :=
  d_names d' = <[temp := d_next d]> (d_names d) ∧ d_parent d' = d_parent d ∧
  (∀ n, n ≠ d_next d → d_nodes d' !! n = d_nodes d !! n) ∧ ∃ i, d_nodes d' !! d_next d = Some i.

Lemma with_temp_update d temp d' f : with_temp d temp d' → ∃ i, d_nodes d' !! d_next d = Some i ∧
  with_temp d temp (set_nodes (<[d_next d := f i]> (d_nodes d')) d').
Proof.
  intros (Hn & Hp & Ho & i & Hi). exists i. split; [done|]. split_and!; [done|done| |].
  - intros n Hne. simpl. rewrite lookup_insert_ne by done. by apply Ho.
  - exists (f i). simpl. by rewrite lookup_insert_eq.
Qed.

Definition temp_name (d : Disk) (path : string) : string := ("." +:+ path +:+ ".tmp.") +:+ pretty (d_next d).

(** One call on the open temporary file. *)
Lemma goes_temp {A} d temp d1 (f : Disk → Inode → Inode) (k : Z + unit → M A) (Q : A → Disk → Prop) : with_temp d temp d1 →
  (∀ d2, with_temp d temp d2 → ∃ a d3, goes (k (inr tt)) d2 a d3 ∧ Q a d3) →
  ∃ a d3, goes (let* r := sys (λ _ d0, update_fd (d_next d) (f d0) d0) in k r) d1 a d3 ∧ Q a d3.
Proof.
  intros Ht Hk. destruct (with_temp_update _ _ _ (f d1) Ht) as (i & Hi & Ht2). destruct (Hk _ Ht2) as (a & d3 & Hg & HQ). exists a, d3.
  split; [|done]. by eapply goes_update.
Qed.

Lemma goes_then {A B} (m : M A) (k : A → M B) d a d1 (Q : B → Disk → Prop) : goes m d a d1 →
  (∃ b d2, goes (k a) d1 b d2 ∧ Q b d2) → ∃ b d2, goes (mbind m k) d b d2 ∧ Q b d2.
Proof. intros Hm (b & d2 & Hk & HQ). exists b, d2. split; [by eapply goes_bind|done]. Qed.

Lemma goes_prepare d path text options target : plain_write options → d_names d !! temp_name d path = None →
  ∃ a d', goes (prepare_temp path text options target) d a d' ∧ (∃ st, a = Some (temp_name d path, st)) ∧ with_temp d (temp_name d path) d'.
Proof.
  intros (_ & _ & _ & _ & _ & Hadm) Hfree. unfold prepare_temp. eapply goes_then.
  { apply goes_sys. cbv zeta. change (("." +:+ path +:+ ".tmp.") +:+ pretty (d_next d)) with (temp_name d path). rewrite Hfree. reflexivity. }
  set (d1 := mkDisk _ _ _ _ _ _ _ _ _). assert (with_temp d (temp_name d path) d1) as Ht1.
  { split_and!; [done|done| |eexists; simpl; by rewrite lookup_insert_eq]. intros n Hne. simpl. by rewrite lookup_insert_ne. }
  cbv iota. eapply (goes_then process_ids _ d1 _ d1); [reflexivity|]. destruct (wanted_metadata _ _ _ _) as [[uid gid] md].
  assert (∀ d2, with_temp d (temp_name d path) d2 → ∃ i, d_nodes d2 !! d_next d = Some i) as Hnode by (by intros d2 (_ & _ & _ & ?)).
  destruct (Hnode d1 Ht1) as [i1 Hi1]. eapply goes_then; [by apply goes_fstat|]. cbv iota.
  set (st := stat_of _ _ _). set (Q := λ (a : option (string * Stat)) d', (∃ st, a = Some (temp_name d path, st)) ∧ with_temp d (temp_name d path) d').
  match goal with |- ∃ a d3, goes (mbind _ ?k) d1 a d3 ∧ _ => assert (∀ d2, with_temp d (temp_name d path) d2 → ∃ a d3, goes (k (inr tt)) d2 a d3 ∧ Q a d3) as Hrest end.
  - intros d2 Ht2. cbn [ok negb]. apply (goes_temp d (temp_name d path)); [done|]. intros d3 Ht3. cbn [ok negb].
    destruct (Hnode d3 Ht3) as [i3 Hi3]. destruct (goes_write_all d3 (d_next d) i3 text Hi3) as (d4 & i4 & Hw & -> & _).
    eapply goes_then; [exact Hw|]. cbn [negb].
    assert (with_temp d (temp_name d path) (set_nodes (<[d_next d:=i4]> (d_nodes d3)) d3)) as Ht4.
    { destruct (with_temp_update d (temp_name d path) d3 (λ _, i4) Ht3) as (? & _ & ?). done. }
    apply (goes_temp d (temp_name d path)); [done|]. intros d5 Ht5. cbn [ok negb]. destruct (Hnode d5 Ht5) as [i5 Hi5].
    eapply goes_then; [by apply goes_fstat|]. cbv iota. rewrite Hadm. eapply goes_then; [apply goes_ret|]. rewrite bool_decide_true by done. cbn [negb].
    eapply goes_then; [apply goes_close|]. cbn [ok negb]. eexists _, d5. split; [apply goes_ret|]. split; [by eexists|done].
  - destruct (_ || _); [by apply (goes_temp d (temp_name d path))|]. eapply goes_then; [apply goes_ret|]. by apply Hrest.
Qed.

(** Without faults a write arrives. *)
Lemma goes_write d path text options : wf d → visible path → plain_write options → writable d path → i_kind (d_parent d) = Directory →
  d_names d !! temp_name d path = None →
  ∃ r d', goes (writeWithResult path text options) d r d' ∧ r.1 = true.
Proof.
  intros Hw Hv Hplain Hpath Hp Hfree. unfold writeWithResult. destruct (goes_checks d path options Hplain Hpath) as [target Hc].
  eapply goes_then; [exact Hc|]. cbv iota. destruct (goes_prepare d path text options target Hplain Hfree) as (a & d1 & Hprep & (st & ->) & Ht).
  eapply goes_then; [exact Hprep|]. cbv iota. unfold publish. pose proof Hplain as (_ & _ & He & _).
  eapply goes_then; [by apply goes_no_expectation|]. cbn [negb]. eapply goes_then; [by apply goes_no_expectation|]. cbn [negb].
  unfold installTempFile. rewrite He. cbn [negb]. destruct Ht as (Hn & Hpar & Hno & i & Hi).
  assert (temp_name d path ≠ path) as Hne. { intros Heq. unfold visible in Hv. rewrite <-Heq in Hv. by apply Hv. }
  eapply goes_then.
  { apply goes_sys. unfold do_rename. rewrite Hn, lookup_insert_eq.
    assert (lookup_path d1 path = lookup_path d path) as ->.
    { unfold lookup_path. rewrite Hn, lookup_insert_ne by done. destruct (d_names d !! path) as [n|] eqn:Hpn; [|done]. rewrite Hno; [done|].
      pose proof (wf_lookup _ _ _ Hw Hpn). lia. }
    unfold writable in Hpath. destruct (lookup_path d path) as [[n k]|]; [rewrite Hpath, bool_decide_false by done|]; reflexivity. }
  cbv iota. eapply goes_then; [by apply goes_fsync_parent; simpl; rewrite Hpar|]. eexists _, _. split; [apply goes_ret|done].
Qed.
