(* ===== verification/JournalProgress.v ===== *)
(** The journal recovers: when the files are sound and no call fails, a poisoned
    journal becomes usable again and a mutation is recorded. *)

From S2P Require Import Prelude PolicyModel FileModel AtomicWriter AtomicFacts Json JsonRead StateStore TargetStore OwnershipGrammar MutationRecord MutationValid MutationCodec CodecFacts CodecText Journal JournalLoad JournalFacts JournalSteps JournalOwnership JournalDisk JournalRecovery Progress.
Open Scope string_scope.
Open Scope nat_scope.
Open Scope file_scope.

Section progress.
Context `{JsonText} `{JsonStrict} (path : string).

(** A regular file whose content the JSON library reads as [document]. *)
Definition json_file (d : Disk) (p : string) (document : json) : Prop :=
  ∃ n i, lookup_path d p = Some (n, i) ∧ i_kind i = Regular ∧ i_content i ≠ "" ∧ json_parse (i_content i) = Some document.

(** Sound files: a valid journal, a valid witness, a directory around them. *)
Record sound (d : Disk) (next : Z) (l : list MutationRecord) : Prop := {
  sound_parent : i_kind (d_parent d) = Directory;
  sound_journal : ∃ document, json_file d path document ∧ parse_document document = Accepted (next, l);
  sound_witness : ∃ document, json_file d (witnessPath path) document ∧ witness_content_ok document = true
}.

Lemma sound_synced d next l : sound d next l → sound (synced d) next l.
Proof. by intros [? ? ?]. Qed.

Lemma goes_probe d p document : json_file d p document → goes (probe p) d ProbePresent d.
Proof. intros (n & i & Hl & Hk & _). unfold probe. eapply goes_bind; [by eapply goes_stat|]. apply goes_ret. Qed.

Lemma goes_load d next l j : sound d next l →
  goes (loadExisting path j) d (Returned true, mkJournal l next true (lifecycleInitialized j) Healthy) (synced d).
Proof.
  intros [Hp (document & Hf & Hd) _]. unfold loadExisting, loadImpl. eapply goes_bind; [by eapply goes_probe|]. cbv iota.
  destruct Hf as (n & i & Hl & Hk & Hne & Hparse). eapply goes_bind; [by apply goes_capture|]. cbv iota. unfold load_snapshot.
  cbn [current content target_of_stat]. assert (is_empty (i_content i) = false) as -> by (unfold is_empty; by apply String.eqb_neq).
  rewrite Hparse, Hd. eapply goes_bind; [by apply goes_durable|]. cbn [negb]. apply goes_ret.
Qed.

Lemma goes_witness d next l : sound d next l → goes (witnessIsValid path) d true (synced d).
Proof.
  intros [Hp _ (document & (n & i & Hl & Hk & Hne & Hparse) & Hok)]. unfold witnessIsValid. eapply goes_bind; [by apply goes_capture|]. cbv iota.
  cbn [current content target_of_stat]. rewrite Hparse, Hok. cbn [negb]. by apply goes_durable.
Qed.

Lemma goes_init d next l j : sound d next l →
  goes (initializeOrLoad path j) d (Returned true, mkJournal l next true true Healthy) (synced d).
Proof.
  intros Hs. unfold initializeOrLoad. destruct (lifecycleInitialized j) eqn:Hl.
  - pose proof (goes_load d next l j Hs) as Hg. by rewrite Hl in Hg.
  - unfold initializeFresh, kMaxStateTablePasses. pose proof Hs as [_ (dj & Hfj & _) (dw & Hfw & _)]. cbn [state_table].
    eapply goes_bind; [by eapply goes_probe|]. rewrite bool_decide_false by done. eapply goes_bind; [by eapply goes_probe|].
    rewrite bool_decide_false by done. cbv iota. rewrite bool_decide_false by done. unfold initializeExistingJournal.
    eapply goes_bind; [by eapply goes_witness|]. cbn [negb]. unfold load_and_complete.
    eapply goes_bind; [by apply goes_load, sound_synced|]. apply goes_ret.
Qed.

Lemma goes_commit {A} d (result failed : A) old new text : wf d → visible path → writable d path → i_kind (d_parent d) = Directory →
  d_names d !! temp_name d path = None → text_of new = Some text →
  ∃ d', goes (commit path result failed old new) d (Returned result, new) d'.
Proof.
  intros Hw Hv Hwr Hp Hfree Ht. destruct (goes_write d path text (journal_options false) Hw Hv ltac:(done) Hwr Hp Hfree) as ([written r] & d' & Hg & Hr).
  simpl in Hr. subst written. exists d'. unfold commit. eapply (goes_bind _ _ _ (Returned Persisted)); [|apply goes_ret]. unfold persist. fold (text_of new). rewrite Ht.
  eapply goes_bind; [exact Hg|]. apply goes_ret.
Qed.

(** The journal after preparing [record], and the id it gets. *)
Definition prepared_state (clock : nat → Z) (record : MutationRecord) (j : Journal) : MutationId * Journal :=
  match first_match (refreshes record) (records j) with
  | Some existing =>
      (mid existing, with_records (change_first (refreshes record) (refreshed (clock 0) (undo record)) (records j)) j)
  | None =>
      (nextId j, mkJournal (records j ++ [mkRecord (nextId j) (policy record) (resource record) (undo record) Prepared (clock 0) (clock 0) ""])%list
        (wrap64 (nextId j + 1)) (loaded j) (lifecycleInitialized j) (health j))
  end.

Definition acceptable (record : MutationRecord) (j : Journal) : Prop :=
  admitted j record = Returned true ∧
  ∀ existing, first_match (refreshes record) (records j) = Some existing → refresh_allowed existing record = Returned true.

(** C36. The journal recovers and the mutation is recorded: whatever state the
    daemon's journal is in, poisoned or not yet opened, once journal and
    witness are sound files and no call fails, the next request reloads the
    journal from disk and records every mutation that is acceptable to the
    records found there. *)
Theorem sound_files_lead_to_a_record clock p res u dm d next l text : wf d → visible path → sound d next l →
  match dm with Some j => usable j = false | None => True end → d_names d !! temp_name d path = None →
  let record := mkRecord 0%Z p res u Prepared 0 0 "" in
  let j := mkJournal l next true true Healthy in
  acceptable record j → text_of (prepared_state clock record j).2 = Some text →
  ∃ d', recordPreparedMutation path clock p res u dm (mkWorld d []) =
    ((Returned (Some (prepared_state clock record j).1), Some (prepared_state clock record j).2), mkWorld d' []).
Proof.
  intros Hw Hv Hs Hdm Hfree record j [Hadm Href] Htext. unfold recordPreparedMutation, with_journal. fold record.
  assert (goes (tryGet path dm) d (Returned (Some j), Some j) (synced d)) as Hget.
  { unfold tryGet. destruct dm as [j0|]; [rewrite Hdm|]; (eapply goes_bind; [by apply (goes_init d next l)|]); apply goes_ret. }
  assert (∃ d', goes (prepareMutation path clock record j) (synced d) (Returned (Some (prepared_state clock record j).1), (prepared_state clock record j).2) d')
    as [d' Hprep].
  { assert (writable (synced d) path) as Hwr.
    { destruct (sound_journal _ _ _ Hs) as (document & (n & i & Hl & Hk & _) & _). unfold writable. change (lookup_path (synced d) path) with (lookup_path d path).
      by rewrite Hl. }
    pose proof (sound_parent _ _ _ Hs) as Hp. unfold prepareMutation. rewrite Hadm. unfold prepared_state in *.
    destruct (first_match (refreshes record) (records j)) as [existing|] eqn:Hf; [rewrite (Href existing eq_refl)|];
      (eapply goes_commit; [by apply synced_wf|done..|exact Htext]). }
  exists d'. change (goes (let* r := tryGet path dm in
    match r with
    | (Returned (Some j), _) => let* s := prepareMutation path clock record j in mret (s.1, Some s.2)
    | (Returned None, d') => mret (Returned None, d')
    | (Thrown, d') => mret (Thrown, d')
    end) d (Returned (Some (prepared_state clock record j).1), Some (prepared_state clock record j).2) d').
  eapply goes_bind; [exact Hget|]. cbv iota. eapply goes_bind; [exact Hprep|]. apply goes_ret.
Qed.
End progress.
