(* ===== verification/JournalExamples.v ===== *)
(** Concrete journals on disk: the hypotheses of the properties of the journal
    hold of them. The JSON library is instantiated with an encoding that reads
    numbers of 64 bits only. *)

From S2P Require Import Prelude PolicyModel FileModel AtomicWriter AtomicFacts Json JsonRead StateStore TargetStore OwnershipGrammar MutationRecord MutationValid MutationCodec CodecFacts CodecText Journal JournalLoad JournalFacts JournalSteps JournalOwnership JournalDisk JournalRecovery Progress JournalProgress.
Open Scope string_scope.
Open Scope nat_scope.
Open Scope file_scope.

(** * A JSON library *)

Fixpoint numbers_ok (j : json) : bool :=
  match j with
  | JUnsigned n => (0 <=? n)%Z && (n <? 2 ^ 64)%Z
  | JInteger z => (- 2 ^ 63 <=? z)%Z && (z <? 2 ^ 63)%Z
  | JArray items => forallb numbers_ok items
  | JObject members => forallb (λ m, numbers_ok m.2) members
  | _ => true
  end.

Lemma numbers_ok_sound : ∀ j, numbers_ok j = true → json_numbers j.
Proof.
  fix IH 1. intros [|b|n|z|t|s|items|members] Hok; simpl in *; try done.
  - unfold u64. lia.
  - unfold i64. lia.
  - induction items as [|i items IHi]; simpl in *; [done|]. apply andb_true_iff in Hok as [? ?]. split; [by apply IH|by apply IHi].
  - induction members as [|[k v] members IHm]; simpl in *; [done|]. apply andb_true_iff in Hok as [? ?]. split; [by apply IH|by apply IHm].
Qed.

Lemma plain_numbers : ∀ j, plain_json j → numbers_ok j = true.
Proof.
  fix IH 1. intros [|b|n|z|t|s|items|members] Hok; simpl in *; try done.
  - lia.
  - lia.
  - induction items as [|i items IHi]; simpl in *; [done|]. destruct Hok as [? ?]. apply andb_true_iff. split; [by apply IH|by apply IHi].
  - destruct Hok as [_ Hok]. induction members as [|[k v] members IHm]; simpl in *; [done|]. destruct Hok as [? ?]. apply andb_true_iff.
    split; [by apply IH|by apply IHm].
Qed.

#[local] Instance ranged_json : JsonText := {|
  json_dump := @json_dump bit_json;
  json_parse s := j ← @json_parse bit_json s; if numbers_ok j then Some j else None
|}.
#[local] Instance ranged_json_laws : JsonTextLaws.
Proof. split. intros j Hj. pose proof (@json_roundtrip bit_json _ j Hj) as Hr. simpl in *. rewrite Hr. simpl. by rewrite plain_numbers. Qed.
#[local] Instance ranged_json_numbers : JsonParseLaws.
Proof.
  split. intros s j Hj. unfold json_parse at 1, ranged_json in Hj. destruct (@json_parse bit_json s) as [j'|]; [|done]. simpl in Hj. destruct (numbers_ok j') eqn:Hn; [|done].
  injection Hj as <-. by apply numbers_ok_sound.
Qed.
#[local] Instance strings_accepted : JsonStrict := {| accepts_string := λ _, true |}.

(** * A fresh system *)

Lemma split2 {A B} (x : A * B) a : x.1 = a → x = (a, x.2).
Proof. by destruct x; simpl; intros ->. Qed.
Lemma split3 {A B C} (x : A * B * C) a : x.1.1 = a → x = (a, x.1.2, x.2).
Proof. by destruct x as [[? ?] ?]; simpl; intros ->. Qed.

Lemma journal_path_visible : visible journal_path.
Proof. by vm_compute. Qed.
Lemma witness_path_visible : visible (witnessPath journal_path).
Proof. by vm_compute. Qed.
Lemma empty_disk_wf : wf empty_disk.
Proof. intros n Hn. split_and!; [done|done|]. intros p l Hl. simpl in Hl. discriminate (eq_trans (eq_sym (lookup_empty p)) Hl). Qed.
Lemma quiet_alone d : alone (mkWorld d []).
Proof. apply (failing_alone d []). Qed.

(** The first start: both files are created. *)
Definition first_start : flow bool * Journal * World := initializeOrLoad journal_path new_journal quiet.
Definition started : World := first_start.2.
Definition started_journal : Journal := first_start.1.2.

Example first_start_succeeds : first_start.1.1 = Returned true ∧ elements (dom (d_names (w_disk started))) = ["mutation-journal.json.initialized"; "mutation-journal.json"].
Proof. vm_compute. split; reflexivity. Qed.

Lemma empty_saved : content_saved empty_disk journal_path.
Proof. intros n i Hl. vm_compute in Hl. discriminate Hl. Qed.

Lemma started_eq : initializeOrLoad journal_path new_journal quiet = ((Returned true, started_journal), started).
Proof. exact (split3 first_start (Returned true) (proj1 first_start_succeeds)). Qed.

Lemma started_facts : alone started ∧ wf (w_disk started) ∧ Inv started_journal ∧ usable started_journal = true ∧
  durable journal_path (w_disk started) started_journal.
Proof.
  exact (init_elim journal_path journal_path_visible witness_path_visible new_journal quiet started_journal started
    (quiet_alone _) empty_disk_wf empty_saved started_eq).
Qed.

Lemma initialized_journal_is_ready_witness :
  usable started_journal = true ∧ Inv started_journal ∧ durable journal_path (w_disk started) started_journal ∧
  entry_durable (w_disk started) (witnessPath journal_path).
Proof.
  destruct (initialized_journal_is_ready journal_path journal_path_visible witness_path_visible new_journal quiet started_journal started
    (quiet_alone _) empty_disk_wf empty_saved started_eq) as (Hu & _ & Hi & Hd & He).
  exact (conj Hu (conj Hi (conj Hd (He eq_refl)))).
Defined.

(** The first change, recorded durably. *)
Lemma journal_refines_durable_store_witness :
  let r := run journal_path noon first_call started_journal started in
  r.1.1 = Returned true ∧ usable r.1.2 = true ∧ durable journal_path (w_disk r.2) r.1.2.
Proof.
  intros r. assert (r.1.1 = Returned true) as Hr by (vm_compute; reflexivity). split; [exact Hr|].
  destruct started_facts as (Ha & Hw & Hi & Hu & Hd).
  refine (proj2 (proj2 (journal_refines_durable_store journal_path journal_path_visible noon first_call started_journal started true r.1.2 r.2
    Ha Hw noon_clocked Hi Hu Hd _ _))).
  - apply prepare_ok; [vm_compute; reflexivity..|done|done].
  - exact (split3 r (Returned true) Hr).
Defined.

(** The witness is there, the journal is gone. *)
Definition lost : World := mkWorld (one_file (witnessPath journal_path) "{}") [].

Lemma vanished_journal_is_not_recreated_witness :
  (initializeOrLoad journal_path new_journal lost).1 = (Returned false, poisoned new_journal) ∧
  flushed (w_disk lost) (w_disk (initializeOrLoad journal_path new_journal lost).2).
Proof.
  refine (vanished_journal_is_not_recreated journal_path new_journal lost 2 (file_inode "{}") (quiet_alone _) _ _ _); [reflexivity|reflexivity|done].
Defined.

(** A journal that cannot be parsed. *)
Definition damaged : World := mkWorld (one_file journal_path "junk") [].

Lemma existing_journal_is_not_rewritten_witness : ∃ i',
  lookup_path (w_disk (initializeOrLoad journal_path new_journal damaged).2) journal_path = Some (2%N, i') ∧ same_file (file_inode "junk") i'.
Proof.
  refine (existing_journal_is_not_rewritten journal_path journal_path_visible witness_path_visible new_journal damaged 2 (file_inode "junk")
    (quiet_alone _) (one_file_wf _ _) _ _ _); [|reflexivity|done].
  intros n i Hl. assert (Some (2%N, file_inode "junk") = Some (n, i)) as [= <- <-] by (rewrite <-Hl; reflexivity). reflexivity.
Defined.

Lemma started_saved : content_saved (w_disk started) journal_path.
Proof. destruct started_facts as (_ & _ & _ & _ & text & document & Hh & _). by eapply holds_saved. Qed.

Lemma readonly_validation_is_readonly_witness :
  let r := validatePersistentStateReadOnly journal_path new_journal started in
  r.1.1 = Returned true ∧ flushed (w_disk started) (w_disk r.2) ∧ ready journal_path (w_disk r.2) r.1.2.
Proof.
  intros r. assert (r.1.1 = Returned true) as Hr by (vm_compute; reflexivity). split; [exact Hr|]. destruct started_facts as (Ha & Hw & _).
  destruct (readonly_validation_is_readonly journal_path new_journal started Ha Hw started_saved) as [Hf Hready]. split; [exact Hf|].
  apply Hready. exact (split2 r.1 (Returned true) Hr).
Defined.

(** The daemon's first request on an empty directory. *)
Definition first_request : flow (option MutationId) * Daemon * World :=
  recordPreparedMutation journal_path noon (policy (shell_record (shell_payload bash_line []))) "/etc/default/useradd"
    (mkUndo UserCreation (shell_payload bash_line [])) None quiet.

Lemma mutation_is_durable_before_it_is_made_witness : first_request.1.1 = Returned (Some 1%Z) ∧
  ∃ j r text, first_request.1.2 = Some j ∧ holds (w_disk first_request.2) journal_path text ∧ r ∈ records j ∧ mid r = 1%Z ∧ status r = Prepared.
Proof.
  assert (first_request.1.1 = Returned (Some 1%Z)) as Hr by (vm_compute; reflexivity). split; [exact Hr|].
  destruct (mutation_is_durable_before_it_is_made journal_path journal_path_visible witness_path_visible noon
    (policy (shell_record (shell_payload bash_line []))) "/etc/default/useradd" (mkUndo UserCreation (shell_payload bash_line [])) None 1%Z
    first_request.1.2 quiet first_request.2 (quiet_alone _) noon_clocked) as [_ (j & r & text & document & Hj & Hh & _ & _ & Hin & Hid & _ & _ & _ & Hs)].
  - exact (conj empty_disk_wf (conj empty_saved I)).
  - vm_compute. reflexivity.
  - exact I.
  - intros j Hj. vm_compute in Hj. injection Hj as <-. vm_compute. reflexivity.
  - exact (split3 first_request (Returned (Some 1%Z)) Hr).
  - exists j, r, text. exact (conj Hj (conj Hh (conj Hin (conj Hid Hs)))).
Defined.

(** A poisoned journal over sound files records the next change. *)
Definition json_file_check (d : Disk) (p : string) (ok : json → bool) : bool :=
  match lookup_path d p with
  | Some (_, i) =>
      bool_decide (i_kind i = Regular) && negb (bool_decide (i_content i = "")) &&
      match json_parse (i_content i) with Some document => ok document | None => false end
  | None => false
  end.

Lemma json_file_checked d p ok : json_file_check d p ok = true → ∃ document, json_file d p document ∧ ok document = true.
Proof.
  unfold json_file_check. destruct (lookup_path d p) as [[n i]|] eqn:Hl; [|done]. intros Hc. use_checks.
  destruct (json_parse (i_content i)) as [document|] eqn:Hp; [|done]. exists document. split; [|done]. exists n, i. split_and!; try done.
  match goal with Hn : negb _ = true |- _ => by apply negb_true_iff, bool_decide_eq_false in Hn end.
Qed.

Definition reads_as (next : Z) (document : json) : bool :=
  match parse_document document with Accepted (n, []) => bool_decide (n = next) | _ => false end.

Lemma started_sound : sound journal_path (w_disk started) 1 [].
Proof.
  split; [vm_compute; reflexivity| |].
  - destruct (json_file_checked (w_disk started) journal_path (reads_as 1)) as (document & Hf & Hr); [vm_compute; reflexivity|].
    exists document. split; [done|]. unfold reads_as in Hr. destruct (parse_document document) as [[n [|]]| |]; try done. use_checks. by subst.
  - apply json_file_checked. vm_compute. reflexivity.
Qed.

Lemma sound_files_lead_to_a_record_witness : ∃ d',
  recordPreparedMutation journal_path noon (policy (shell_record (shell_payload bash_line []))) "/etc/default/useradd"
    (mkUndo UserCreation (shell_payload bash_line [])) (Some (poisoned started_journal)) (mkWorld (w_disk started) []) =
  ((Returned (Some 1%Z), Some (prepared_state noon (shell_record (shell_payload bash_line [])) (mkJournal [] 1 true true Healthy)).2), mkWorld d' []).
Proof.
  refine (sound_files_lead_to_a_record journal_path noon (policy (shell_record (shell_payload bash_line []))) "/etc/default/useradd"
    (mkUndo UserCreation (shell_payload bash_line [])) (Some (poisoned started_journal)) (w_disk started) 1 [] _ (proj1 (proj2 started_facts))
    journal_path_visible started_sound _ _ _ _).
  - vm_compute. reflexivity.
  - vm_compute. reflexivity.
  - split; [vm_compute; reflexivity|]. intros existing He. discriminate He.
  - reflexivity.
Defined.

(** * Exceptions of the JSON library *)

(** A library that refuses to print the byte 255, as one that prints UTF-8 does. *)
Definition strict_strings : JsonStrict := {| accepts_string s := negb (contains (Ascii.ascii_of_nat 255) s) |}.

(** The message of a failed rollback is not UTF-8: printing the document throws
    after the record was changed, nothing is written, and the journal in memory
    is ahead of the disk while it still counts as usable. *)
Example unprintable_message_leaves_memory_ahead :
  let before := (@run ranged_json strict_strings journal_path noon first_call started_journal started) in
  let after := @run ranged_json strict_strings journal_path noon (CStatus 1%Z RollbackFailed (String (Ascii.ascii_of_nat 255) "")) before.1.2 before.2 in
  before.1.1 = Returned true ∧ after.1.1 = Thrown ∧ usable after.1.2 = true ∧
  status <$> records before.1.2 = [Prepared] ∧ status <$> records after.1.2 = [RollbackFailed] ∧
  (lookup_path (w_disk after.2) journal_path = lookup_path (w_disk before.2) journal_path).
Proof. vm_compute. repeat split. Qed.

(** A record whose resource is a number: reading it throws out of the load, and
    a journal that was usable before the reload stays usable. *)
Definition mistyped_record : json :=
  obj [("id", JUnsigned 1); ("policy", obj [("module", JString "M"); ("policy", JString "p")]); ("resource", JUnsigned 7)].
Definition mistyped_document : json :=
  obj [("schema_version", JUnsigned kSchemaVersion); ("next_id", JUnsigned 2); ("records", JArray [mistyped_record])].
Definition mistyped : World := mkWorld (one_file journal_path (json_dump mistyped_document)) [].

Example mistyped_record_escapes_the_load :
  let r := loadExisting journal_path open_journal mistyped in r.1 = (Thrown, open_journal) ∧ usable r.1.2 = true.
Proof. vm_compute. split; reflexivity. Qed.
