(* ===== verification/TextLines.v ===== *)
(** Line-structured text: a content is cut into its lines, each with its
    terminator, and put together again. Shared by the editors of configuration
    files that keep foreign bytes. *)

From S2P Require Import Prelude OwnershipGrammar MutationValid.
Open Scope string_scope.
Open Scope nat_scope.

(** The lines of a content with their terminators; only the last one may have
    none. *)
Fixpoint chunks (s : string) : list string :=
  match s with
  | EmptyString => []
  | String c s' =>
      if Ascii.eqb c lf then String c "" :: chunks s'
      else match chunks s' with
           | [] => [String c ""]
           | chunk :: rest => String c chunk :: rest
           end
  end.

(** A chunk without its line feed and, before it, one carriage return. *)
Definition line_of (chunk : string) : string := drop_last_if cr (drop_last_if lf chunk).

Fixpoint joined (l : list string) : string :=
  match l with [] => "" | s :: l => s +:+ joined l end.

(** The line starts at [start] and the rest follows it. *)
Fixpoint with_offsets (start : nat) (l : list string) : list (string * nat) :=
  match l with
  | [] => []
  | chunk :: l => (line_of chunk, start) :: with_offsets (start + String.length chunk) l
  end.

Definition linesWithOffsets (content : string) : list (string * nat) := with_offsets 0 (chunks content).

(** [s.empty() || s.back() == '\n'] *)
Definition closed (s : string) : bool := match last_char s with None => true | Some c => Ascii.eqb c lf end.

(** * Strings *)

Lemma string_cons_app c (a b : string) : String c a +:+ b = String c (a +:+ b).
Proof. done. Qed.

Lemma joined_app l l' : joined (l ++ l')%list = joined l +:+ joined l'.
Proof. induction l as [|s l IH]; simpl; [done|]. by rewrite IH, string_app_assoc. Qed.

Lemma last_char_app a b : b ≠ "" → last_char (a +:+ b) = last_char b.
Proof.
  intros Hb. induction a as [|c a IH]; [done|]. rewrite string_cons_app. simpl. destruct (a +:+ b) eqn:E; [|done].
  destruct a; [by destruct b|done].
Qed.

Lemma last_char_none s : last_char s = None ↔ s = "".
Proof. induction s as [|c s IH]; simpl; [done|]. destruct s; [done|]. rewrite IH. done. Qed.

Lemma closed_app a b : closed a = true → closed b = true → closed (a +:+ b) = true.
Proof.
  intros Ha Hb. destruct (decide (b = "")) as [->|Hne]; [by rewrite string_app_nil_r|]. unfold closed in *. by rewrite last_char_app.
Qed.

Lemma closed_app_r a b : b ≠ "" → closed (a +:+ b) = closed b.
Proof. intros Hb. unfold closed. by rewrite last_char_app. Qed.

Lemma closed_cons c s : s ≠ "" → closed (String c s) = closed s.
Proof. by destruct s. Qed.

Lemma substring_mid a b c : String.substring (String.length a) (String.length b) (a +:+ (b +:+ c)) = b.
Proof.
  rewrite substring_skip. induction b as [|x b IH]; [by destruct c|]. rewrite string_cons_app. simpl. by rewrite IH.
Qed.

Lemma front_app a b : String.substring 0 (String.length a) (a +:+ b) = a.
Proof. induction a as [|c a IH]; [by destruct b|]. rewrite string_cons_app. simpl. by rewrite IH. Qed.

Lemma prefix_app p s : String.prefix p (p +:+ s) = true.
Proof. induction p as [|c p IH]; [by destruct s|]. rewrite string_cons_app. simpl. by destruct (Ascii.ascii_dec c c). Qed.

Lemma prefix_split p s : String.prefix p s = true ↔ ∃ r, s = p +:+ r.
Proof.
  split; [|by intros [r ->]; apply prefix_app]. revert s. induction p as [|c p IH]; intros s Hp; [by exists s|].
  destruct s as [|c' s]; [done|]. simpl in Hp. destruct (Ascii.ascii_dec c c') as [->|]; [|done]. destruct (IH s Hp) as [r ->]. by exists r.
Qed.

Lemma prefix_cut p a c b : String.prefix p (a +:+ String c b) = true → contains c p = false → String.prefix p a = true.
Proof.
  revert a. induction p as [|x p IH]; intros a Hp Hc; [by destruct a|]. cbn [contains] in Hc. apply orb_false_iff in Hc as [Hx Hc]. destruct a as [|y a].
  - change ("" +:+ String c b) with (String c b) in Hp. cbn in Hp. destruct (Ascii.ascii_dec x c) as [->|]; [|done]. by rewrite Ascii.eqb_refl in Hx.
  - rewrite string_cons_app in Hp. cbn in Hp |- *. destruct (Ascii.ascii_dec x y); [|done]. auto.
Qed.

Lemma drop_front_app a b : drop_front (String.length a) (a +:+ b) = b.
Proof.
  unfold drop_front. rewrite string_length_app. replace (_ + _ - _) with (String.length b) by lia.
  pose proof (substring_mid a b "") as H. by rewrite string_app_nil_r in H.
Qed.

Lemma all_chars_app P a b : all_chars P (a +:+ b) = all_chars P a && all_chars P b.
Proof. induction a as [|c a IH]; [done|]. rewrite string_cons_app. simpl. by rewrite IH, andb_assoc. Qed.

Lemma string_app_cancel a b c : a +:+ b = a +:+ c → b = c.
Proof. intros He. by apply (string_app_inj a a b c eq_refl) in He as [_ ?]. Qed.

(** * Cutting and joining *)

Lemma joined_chunks s : joined (chunks s) = s.
Proof.
  induction s as [|c s IH]; [done|]. simpl. destruct (Ascii.eqb c lf); simpl; [by rewrite IH|].
  destruct (chunks s) as [|chunk rest]; simpl in *; by subst s.
Qed.

(** A whole line: no line feed but the final one. *)
Fixpoint whole_line (s : string) : bool :=
  match s with
  | EmptyString => false
  | String c EmptyString => Ascii.eqb c lf
  | String c s' => negb (Ascii.eqb c lf) && whole_line s'
  end.

Lemma whole_line_cons c s : s ≠ "" → whole_line (String c s) = negb (Ascii.eqb c lf) && whole_line s.
Proof. by destruct s. Qed.

Lemma whole_line_more c s : Ascii.eqb c lf = false → whole_line s = true → whole_line (String c s) = true.
Proof. intros Hc Hs. rewrite whole_line_cons by by intros ->. by rewrite Hc, Hs. Qed.

Lemma chunks_line l s : whole_line l = true → chunks (l +:+ s) = l :: chunks s.
Proof.
  induction l as [|c l IH]; [done|]. destruct (decide (l = "")) as [->|Hne].
  - simpl. intros Hc. change (String c "" +:+ s) with (String c s). simpl. by rewrite Hc.
  - rewrite whole_line_cons by done. intros [Hc Hl]%andb_true_iff. rewrite string_cons_app. simpl. apply negb_true_iff in Hc. rewrite Hc. by rewrite IH.
Qed.

Lemma chunks_lines l s : forallb whole_line l = true → chunks (joined l +:+ s) = (l ++ chunks s)%list.
Proof.
  induction l as [|x l IH]; simpl; [done|]. intros [Hx Hl]%andb_true_iff. rewrite string_app_assoc, chunks_line by done. by rewrite IH.
Qed.

Lemma chunks_joined l : forallb whole_line l = true → chunks (joined l) = l.
Proof. intros Hl. rewrite <-(string_app_nil_r (joined l)), chunks_lines by done. by rewrite app_nil_r. Qed.

(** A content is whole lines and, at its end, at most one that is not closed. *)
Lemma chunks_closed s : closed s = true → forallb whole_line (chunks s) = true.
Proof.
  induction s as [|c s IH]; [done|]. intros Hcl. destruct (decide (s = "")) as [->|Hne].
  - unfold closed in Hcl. cbn in Hcl. cbn. rewrite Hcl. cbn. by rewrite Hcl.
  - rewrite closed_cons in Hcl by done. specialize (IH Hcl). simpl. destruct (Ascii.eqb c lf) eqn:Hc; simpl; [by rewrite Hc|].
    pose proof (joined_chunks s) as Hj. destruct (chunks s) as [|chunk rest]; [by destruct Hne|]. simpl in *.
    apply andb_true_iff in IH as [Hw ->]. rewrite andb_true_r. by apply whole_line_more.
Qed.

Lemma chunks_app a b : closed a = true → chunks (a +:+ b) = (chunks a ++ chunks b)%list.
Proof. intros Ha. rewrite <-(joined_chunks a) at 1. by rewrite chunks_lines by by apply chunks_closed. Qed.

Lemma whole_line_closed l : whole_line l = true → closed l = true ∧ l ≠ "".
Proof.
  induction l as [|c l IH]; [done|]. destruct (decide (l = "")) as [->|Hne]; [done|].
  rewrite whole_line_cons, closed_cons by done. intros [_ Hl]%andb_true_iff. split; [by apply IH|done].
Qed.

Lemma joined_closed l : forallb whole_line l = true → closed (joined l) = true.
Proof.
  induction l as [|x l IH]; simpl; [done|]. intros [Hx Hl]%andb_true_iff. apply closed_app; [by apply whole_line_closed|auto].
Qed.

(** Every line but the last is whole. *)
Fixpoint lines_ok (l : list string) : bool :=
  match l with [] => true | [x] => true | x :: l => whole_line x && lines_ok l end.

Lemma lines_ok_cons x l : l ≠ [] → lines_ok (x :: l) = whole_line x && lines_ok l.
Proof. by destruct l. Qed.

Lemma lines_ok_app l l' : l' ≠ [] → lines_ok (l ++ l')%list = forallb whole_line l && lines_ok l'.
Proof.
  intros Hne. induction l as [|x l IH]; [done|]. simpl app. rewrite lines_ok_cons by by destruct l. rewrite IH. cbn [forallb]. by rewrite andb_assoc.
Qed.

Lemma chunks_lines_ok s : lines_ok (chunks s) = true.
Proof.
  induction s as [|c s IH]; [done|]. cbn [chunks]. destruct (Ascii.eqb c lf) eqn:Hlf.
  - destruct (chunks s); [done|]. rewrite lines_ok_cons, IH by done. cbn. by rewrite Hlf.
  - destruct (chunks s) as [|chunk [|chunk' rest]]; [done|done|]. rewrite lines_ok_cons in * by done.
    apply andb_true_iff in IH as [Hw ->]. by rewrite whole_line_more.
Qed.

(** The lines from some line on are those of what they spell. *)
Lemma chunks_suffix s l l' : chunks s = (l ++ l')%list → chunks (joined l') = l'.
Proof.
  intros Hc. destruct l' as [|x l']; [done|]. pose proof (chunks_lines_ok s) as Hok. rewrite Hc, lines_ok_app in Hok by done.
  apply andb_true_iff in Hok as [Hl _]. pose proof (joined_chunks s) as Hj. rewrite Hc, joined_app in Hj.
  pose proof (chunks_lines l (joined (x :: l')) Hl) as Hall. rewrite Hj, Hc in Hall. by apply app_inv_head in Hall.
Qed.

(** * Lines *)

Definition eol : string := String lf "".

(** A line as it is written: the text, then the line feed. *)
Definition text_line (s : string) : bool := free_of [cr; lf] s.

Lemma drop_last_if_app c s x : drop_last_if c (s +:+ String x "") = if Ascii.eqb x c then s else s +:+ String x "".
Proof.
  induction s as [|a s IH]; [done|]. rewrite string_cons_app. simpl. rewrite IH. destruct (s +:+ String x "") eqn:E; [by destruct s|].
  by destruct (Ascii.eqb x c).
Qed.

Lemma drop_last_if_none c s : last_char s ≠ Some c → drop_last_if c s = s.
Proof.
  induction s as [|a s IH]; [done|]. simpl. destruct s as [|b s]; [|intros Hl; by rewrite IH].
  intros Hl. destruct (Ascii.eqb_spec a c); [congruence|done].
Qed.

Lemma all_chars_last P s c : all_chars P s = true → last_char s = Some c → P c = true.
Proof.
  induction s as [|a s IH]; [done|]. simpl. intros [Ha Hs]%andb_true_iff. destruct s as [|b s]; [by intros [= <-]|auto].
Qed.

Lemma line_of_text s : text_line s = true → line_of (s +:+ eol) = s.
Proof.
  intros Hs. unfold line_of, eol. rewrite drop_last_if_app. cbn. apply drop_last_if_none. intros Hl.
  by eapply all_chars_last in Hl; [|exact Hs].
Qed.

Lemma text_line_whole s : text_line s = true → whole_line (s +:+ eol) = true.
Proof.
  unfold text_line, free_of. induction s as [|c s IH]; [done|]. cbn [all_chars]. intros [Hc Hs]%andb_true_iff.
  change (String c s +:+ eol) with (String c (s +:+ eol)). apply whole_line_more; [|auto].
  unfold one_of in Hc. cbn [existsb] in Hc. destruct (Ascii.eqb c lf); [|done]. by rewrite orb_true_r in Hc.
Qed.
