(* ===== verification/LoginDefsConfig.v ===== *)
(** The FIC-owned container of /etc/login.defs
    (fic/src/modules/identity_access/shared/login_defs/IdentityLoginDefsManagedConfig):
    parser and editors of the container, the value the native consumer sees,
    and the relations between the values.

    Functions that fill an error text return an option; the texts are left out. *)

From S2P Require Import Prelude PolicyModel PolicyValue ConfigFile OwnershipGrammar MutationValid TextLines.
Open Scope string_scope.
Open Scope nat_scope.

Definition kBlockBegin : string := "#@FIC_IDENTITY_LOGIN_DEFS_BLOCK_BEGIN version=1@".
Definition kBlockEnd : string := "#@FIC_IDENTITY_LOGIN_DEFS_BLOCK_END@".
Definition kPolicyBegin : string := "#@FIC_POLICY_BEGIN ref=".
Definition kPolicyEnd : string := "#@FIC_POLICY_END ref=".
Definition kMarkerIntroducer : string := "#@FIC_".

Record ManagedPolicyBlock := mkBlock {
  b_policyRef : string;
  b_key : string;
  b_value : string;
  b_raw : string
}.

Record ManagedConfigModel := mkModel {
  blockPresent : bool;
  blockOffset : nat;
  blockLength : nat;
  policies : list ManagedPolicyBlock
}.

Record PolicyRoute := mkRoute {
  route_policyRef : string;
  route_key : string;
  route_path : string
}.

Record MissingKeySemantics := mkSemantics { minDays : Z; maxDays : Z }.

(** * Policies *)

Definition policySpec (policy : PolicyRef) : option SharedLoginDefsPolicySpec :=
  if negb (String.eqb (moduleName policy) "IDENTITY_ACCESS") then None
  else match findSharedLoginDefsPolicySpec (policyName policy) with
       | None => None
       | Some spec => if String.eqb (submoduleName policy) (spec_submodule spec) then Some spec else None
       end.

Definition ref_text (policy : PolicyRef) : string :=
  moduleName policy +:+ "/" +:+ submoduleName policy +:+ "/" +:+ policyName policy.

Definition policyRoute (loginDefsPath : string) (policy : PolicyRef) : option PolicyRoute :=
  spec ← policySpec policy;
  if is_empty loginDefsPath then None else Some (mkRoute (ref_text policy) (spec_key spec) loginDefsPath).

Definition policyRelation (policy : PolicyRef) : option Relation :=
  spec ← policySpec policy; Some (spec_relation spec).

Definition validatePolicyValue (policy : PolicyRef) (value : string) : bool :=
  match policySpec policy with
  | None => false
  | Some _ => validateSharedLoginDefsPolicyValue (policyName policy) value
  end.

(** * Parsing *)

Definition spaces : list Ascii.ascii := [" "%char; chr 9; cr; lf].

Definition parseMarkerRef (line prefix : string) : option string :=
  if negb (String.prefix prefix line) || (String.length line <=? String.length prefix + 1) ||
     negb (bool_decide (last_char line = Some "@"%char))
  then None
  else
    let ref := String.substring (String.length prefix) (String.length line - String.length prefix - 1) line in
    if negb (is_empty ref) && free_of (spaces ++ ["="%char; "@"%char]) ref then Some ref else None.

Definition parseCanonicalAssignment (line : string) : option (string * string) :=
  match cut " " line with
  | None => None
  | Some (key, value) =>
      if is_empty key || is_empty value || String.prefix "#" value || negb (free_of spaces value) then None
      else Some (key, value)
  end.

(** The variables of the loop of [parseManagedConfig]. *)
Record ParseState := mkParse {
  ps_model : ManagedConfigModel;
  ps_inContainer : bool;
  ps_inPolicy : bool;
  ps_current : ManagedPolicyBlock;
  ps_containerStart : nat;
  ps_policyStart : nat;
  ps_assignmentSeen : bool
}.

Definition no_block : ManagedPolicyBlock := mkBlock "" "" "" "".
Definition no_container : ManagedConfigModel := mkModel false 0 0 [].
Definition parse_start : ParseState := mkParse no_container false false no_block 0 0 false.

(** One line; [next] is the offset of the line after it. *)
Definition parse_line (text line : string) (offset next : nat) (st : ParseState) : option ParseState :=
  let '(mkParse model inContainer inPolicy current containerStart policyStart assignmentSeen) := st in
  if negb (String.prefix kMarkerIntroducer line) then
    if inPolicy then
      if is_empty line then Some st
      else if assignmentSeen then None
      else match parseCanonicalAssignment line with
           | None => None
           | Some (key, value) =>
               Some (mkParse model inContainer true (mkBlock (b_policyRef current) key value (b_raw current)) containerStart policyStart true)
           end
    else if inContainer && negb (is_empty line) then None
    else Some st
  else if String.eqb line kBlockBegin && negb inContainer && negb (blockPresent model) then
    Some (mkParse (mkModel (blockPresent model) offset (blockLength model) (policies model))
                  true inPolicy current offset policyStart assignmentSeen)
  else match (if inContainer && negb inPolicy then parseMarkerRef line kPolicyBegin else None) with
       | Some ref =>
           if existsb (λ p, String.eqb (b_policyRef p) ref) (policies model) then None
           else Some (mkParse model inContainer true (mkBlock ref "" "" "") containerStart offset false)
       | None =>
           if inPolicy && bool_decide (parseMarkerRef line kPolicyEnd = Some (b_policyRef current)) then
             if negb assignmentSeen then None
             else
               let raw := String.substring policyStart (next - policyStart) text in
               let raw := if bool_decide (last_char raw = Some lf) then raw else raw +:+ eol in
               let block := mkBlock (b_policyRef current) (b_key current) (b_value current) raw in
               Some (mkParse (mkModel (blockPresent model) (blockOffset model) (blockLength model) (policies model ++ [block])%list)
                             inContainer false current containerStart policyStart assignmentSeen)
           else if String.eqb line kBlockEnd && inContainer && negb inPolicy then
             Some (mkParse (mkModel true (blockOffset model) (next - containerStart) (policies model))
                           false inPolicy current containerStart policyStart assignmentSeen)
           else None
       end.

Fixpoint parse_lines (text : string) (lines : list (string * nat)) (st : ParseState) : option ParseState :=
  match lines with
  | [] => Some st
  | (line, offset) :: rest =>
      let next := match rest with (_, o) :: _ => o | [] => String.length text end in
      match parse_line text line offset next st with
      | None => None
      | Some st' => parse_lines text rest st'
      end
  end.

Definition parseManagedConfig (text : string) : option ManagedConfigModel :=
  match parse_lines text (linesWithOffsets text) parse_start with
  | None => None
  | Some st => if ps_inContainer st || ps_inPolicy st then None else Some (ps_model st)
  end.

(** * Editing *)

Definition canonicalPolicyBlock (policyRef key value : string) : string :=
  kPolicyBegin +:+ policyRef +:+ "@" +:+ eol +:+ (key +:+ " " +:+ value +:+ eol) +:+ kPolicyEnd +:+ policyRef +:+ "@" +:+ eol.

Definition serializeContainer (blocks : list ManagedPolicyBlock) : string :=
  kBlockBegin +:+ eol +:+ joined (b_raw <$> blocks) +:+ kBlockEnd +:+ eol.

Definition foreignWithoutBlock (text : string) (model : ManagedConfigModel) : string :=
  if negb (blockPresent model) then text
  else String.substring 0 (blockOffset model) text +:+ drop_front (blockOffset model + blockLength model) text.

Definition findPolicyBlock (model : ManagedConfigModel) (policyRef : string) : option ManagedPolicyBlock :=
  List.find (λ b, String.eqb (b_policyRef b) policyRef) (policies model).

(** The new content and whether it differs from the old one. *)
Definition upsertPolicyBlock (text policyRef key value : string) : option (string * bool) :=
  match parseManagedConfig text with
  | None => None
  | Some model =>
      let block := mkBlock policyRef key value (canonicalPolicyBlock policyRef key value) in
      let found := existsb (λ b, String.eqb (b_policyRef b) policyRef) (policies model) in
      let changed := (λ b, if String.eqb (b_policyRef b) policyRef then block else b) <$> policies model in
      let blocks := if found then changed else (changed ++ [block])%list in
      let foreign := foreignWithoutBlock text model in
      if negb (closed foreign) then None
      else
        let result := foreign +:+ serializeContainer blocks in
        Some (result, negb (String.eqb result text))
  end.

(** The new content and whether the policy had a sub-block. *)
Definition removePolicyBlock (text policyRef : string) : option (string * bool) :=
  match parseManagedConfig text with
  | None => None
  | Some model =>
      match findPolicyBlock model policyRef with
      | None => Some (text, false)
      | Some _ =>
          let peers := filter (λ b, negb (String.eqb (b_policyRef b) policyRef)) (policies model) in
          let foreign := foreignWithoutBlock text model in
          if negb (bool_decide (peers = [])) && negb (closed foreign) then None
          else Some (match peers with [] => foreign | _ => foreign +:+ serializeContainer peers end, true)
      end
  end.

(** * The native consumer *)

(** The characters up to the first blank, and the rest. *)
Fixpoint token (s : string) : string * string :=
  match s with
  | EmptyString => ("", "")
  | String c s' => if isspace c then ("", s) else let '(t, rest) := token s' in (String c t, rest)
  end.

(** The value after one line: [None] when the line is a malformed assignment. *)
Definition effective_line (key line : string) (value : option string) : option (option string) :=
  match ltrim line with
  | EmptyString => Some value
  | String first rest as s =>
      if Ascii.eqb first "#" then Some value
      else
        let '(candidateKey, afterKey) := token s in
        if is_empty candidateKey then Some value
        else match ltrim afterKey with
             | EmptyString => Some value
             | valueStart =>
                 let '(v, afterValue) := token valueStart in
                 let valid := is_empty (ltrim afterValue) && negb (is_empty v) && negb (String.prefix "#" valueStart) in
                 if negb (String.eqb candidateKey key) then Some value
                 else if negb valid then None
                 else Some (Some v)
             end
  end.

Fixpoint effective_lines (key : string) (lines : list (string * nat)) (value : option string) : option (option string) :=
  match lines with
  | [] => Some value
  | (line, _) :: rest => match effective_line key line value with None => None | Some v => effective_lines key rest v end
  end.

Definition effectiveValue (text key : string) : option (option string) := effective_lines key (linesWithOffsets text) None.

Definition parseLongStrict (value : string) (minimum maximum : Z) : option Z :=
  if is_empty value then None
  else match strtol value with
       | NumOk z "" => if (z <? minimum)%Z || (maximum <? z)%Z then None else Some z
       | _ => None
       end.

Definition parseUidRangeValue (value : string) : option Z :=
  if is_empty value || String.prefix "-" value then None
  else match strtoull value with
       | NumOk z "" => if (uid_max <? z)%Z then None else Some z
       | _ => None
       end.

Definition effectiveDays (candidateContent : string) (semantics : MissingKeySemantics) (key : string) (minimum maximum : Z) : option Z :=
  match effectiveValue candidateContent key with
  | None => None
  | Some None => Some (if String.eqb key "PASS_MIN_DAYS" then minDays semantics else maxDays semantics)
  | Some (Some v) => parseLongStrict v minimum maximum
  end.

Definition effectiveUid (candidateContent key : string) : option Z :=
  match effectiveValue candidateContent key with
  | Some (Some v) => parseUidRangeValue v
  | _ => None
  end.

(** The callers pass an empty error text. *)
Definition relationsValidInCandidate (candidateContent : string) (policy : PolicyRef) (semantics : MissingKeySemantics) : bool :=
  match policyRelation policy with
  | None => false
  | Some RNone => true
  | Some PasswordMinimum | Some PasswordMaximum =>
      match effectiveDays candidateContent semantics "PASS_MIN_DAYS" 0 INT_MAX,
            effectiveDays candidateContent semantics "PASS_MAX_DAYS" (-1) INT_MAX with
      | Some low, Some high => negb (negb (high =? -1)%Z && (high <? low)%Z)
      | _, _ => false
      end
  | Some UidMinimum | Some UidMaximum =>
      match effectiveUid candidateContent "UID_MIN", effectiveUid candidateContent "UID_MAX" with
      | Some low, Some high => negb (high <? low)%Z
      | _, _ => false
      end
  end.

(** * Checks *)

Definition nl (s : string) : string := s +:+ eol.
Definition sample : string := joined (nl <$> ["# login.defs"; "PASS_MAX_DAYS 99999"; "UID_MIN 1000"; "UID_MAX 60000"]).

Example sample_has_no_container : parseManagedConfig sample = Some no_container.
Proof. by vm_compute. Qed.

Example sample_edited :
  match upsertPolicyBlock sample "IDENTITY_ACCESS/PASSWORD_AGING/password_max_age_days" "PASS_MAX_DAYS" "90" with
  | Some (result, changed) =>
      changed = true ∧ effectiveValue result "PASS_MAX_DAYS" = Some (Some "90") ∧
      removePolicyBlock result "IDENTITY_ACCESS/PASSWORD_AGING/password_max_age_days" = Some (sample, true) ∧
      parseManagedConfig (result +:+ "#@FIC_X") = None ∧
      upsertPolicyBlock (result +:+ "UID_MIN 5") "r" "K" "v" = None
  | None => False
  end.
Proof. by vm_compute. Qed.
