(* ===== verification/LoginDefsFacts.v ===== *)
(** The parser of the login.defs container accepts exactly a grammar of lines,
    and the editors act on what the grammar says: the foreign bytes and the
    list of sub-blocks. *)

From S2P Require Import Prelude PolicyModel PolicyValue ConfigFile OwnershipGrammar MutationValid TextLines LoginDefsConfig.
Open Scope string_scope.
Open Scope nat_scope.

(** * Kinds of lines *)

Inductive kind := KBlank | KText | KOpen | KClose | KBegin (ref : string) | KEnd (ref : string) | KBad.

Definition kind_of (line : string) : kind :=
  if negb (String.prefix kMarkerIntroducer line) then if is_empty line then KBlank else KText
  else if String.eqb line kBlockBegin then KOpen
  else if String.eqb line kBlockEnd then KClose
  else match parseMarkerRef line kPolicyBegin with
       | Some ref => KBegin ref
       | None => match parseMarkerRef line kPolicyEnd with Some ref => KEnd ref | None => KBad end
       end.

Lemma marker_ref_prefix line prefix ref : parseMarkerRef line prefix = Some ref → ∃ r, line = prefix +:+ r.
Proof.
  unfold parseMarkerRef. destruct (String.prefix prefix line) eqn:Hp; [|done]. intros _. by apply prefix_split.
Qed.

(** A begin marker is no end marker. *)
Lemma marker_kinds_apart line ref : parseMarkerRef line kPolicyBegin = Some ref → parseMarkerRef line kPolicyEnd = None.
Proof.
  intros Hb. destruct (parseMarkerRef line kPolicyEnd) as [r|] eqn:He; [|done]. apply marker_ref_prefix in Hb as [x ->]. by apply marker_ref_prefix in He as [y He].
Qed.

Definition opened (offset : nat) (st : ParseState) : ParseState :=
  mkParse (mkModel (blockPresent (ps_model st)) offset (blockLength (ps_model st)) (policies (ps_model st))) true (ps_inPolicy st) (ps_current st) offset (ps_policyStart st) (ps_assignmentSeen st).
Definition begun (ref : string) (offset : nat) (st : ParseState) : ParseState :=
  mkParse (ps_model st) (ps_inContainer st) true (mkBlock ref "" "" "") (ps_containerStart st) offset false.
Definition assigned (key value : string) (st : ParseState) : ParseState :=
  mkParse (ps_model st) (ps_inContainer st) true (mkBlock (b_policyRef (ps_current st)) key value (b_raw (ps_current st))) (ps_containerStart st) (ps_policyStart st) true.
Definition ended (text : string) (next : nat) (st : ParseState) : ParseState :=
  let raw := String.substring (ps_policyStart st) (next - ps_policyStart st) text in
  let raw := if bool_decide (last_char raw = Some lf) then raw else raw +:+ eol in
  let c := ps_current st in let m := ps_model st in
  mkParse (mkModel (blockPresent m) (blockOffset m) (blockLength m) (policies m ++ [mkBlock (b_policyRef c) (b_key c) (b_value c) raw])%list)
    (ps_inContainer st) false c (ps_containerStart st) (ps_policyStart st) (ps_assignmentSeen st).
Definition shut (next : nat) (st : ParseState) : ParseState :=
  let m := ps_model st in
  mkParse (mkModel true (blockOffset m) (next - ps_containerStart st) (policies m)) false (ps_inPolicy st) (ps_current st) (ps_containerStart st) (ps_policyStart st) (ps_assignmentSeen st).

(** One line, by its kind. *)
Lemma parse_line_kind text line offset next st : parse_line text line offset next st =
  match kind_of line with
  | KBlank => Some st
  | KText =>
      if ps_inPolicy st then
        if ps_assignmentSeen st then None
        else match parseCanonicalAssignment line with None => None | Some (key, value) => Some (assigned key value st) end
      else if ps_inContainer st then None else Some st
  | KOpen => if ps_inContainer st || blockPresent (ps_model st) then None else Some (opened offset st)
  | KClose => if ps_inContainer st && negb (ps_inPolicy st) then Some (shut next st) else None
  | KBegin ref =>
      if ps_inContainer st && negb (ps_inPolicy st) && negb (existsb (λ p, String.eqb (b_policyRef p) ref) (policies (ps_model st)))
      then Some (begun ref offset st) else None
  | KEnd ref =>
      if ps_inPolicy st && String.eqb ref (b_policyRef (ps_current st)) && ps_assignmentSeen st then Some (ended text next st) else None
  | KBad => None
  end.
Proof.
  destruct st as [[present off len pols] inC inP cur cs ps seen]. unfold kind_of, parse_line. cbn [ps_inPolicy ps_inContainer ps_model ps_current ps_assignmentSeen blockPresent policies].
  destruct (String.prefix kMarkerIntroducer line) eqn:Hp; cbn [negb].
  2:{ destruct (is_empty line), inP, seen, inC; cbn [negb andb]; try done; by destruct (parseCanonicalAssignment line) as [[]|]. }
  destruct (String.eqb_spec line kBlockBegin) as [->|Hb]; cbn [andb].
  { change (parseMarkerRef kBlockBegin kPolicyBegin) with (@None string). change (parseMarkerRef kBlockBegin kPolicyEnd) with (@None string).
    change (String.eqb kBlockBegin kBlockEnd) with false. cbn [andb]. destruct inC, present, inP; cbn; repeat case_bool_decide; done. }
  destruct (String.eqb_spec line kBlockEnd) as [->|He]; cbn [andb].
  { change (parseMarkerRef kBlockEnd kPolicyBegin) with (@None string). change (parseMarkerRef kBlockEnd kPolicyEnd) with (@None string).
    destruct inC, inP; cbn; repeat case_bool_decide; done. }
  destruct (parseMarkerRef line kPolicyBegin) as [ref|] eqn:Hbegin.
  { rewrite (marker_kinds_apart _ _ Hbegin). destruct inC, inP; cbn; try done. by destruct (existsb _ _). }
  replace (if inC && negb inP then None else None) with (@None string) by by destruct (inC && negb inP).
  destruct (parseMarkerRef line kPolicyEnd) as [ref|]; [|by rewrite andb_false_r]. destruct inP; cbn [andb]; [|done].
  case_bool_decide as Hr; [injection Hr as ->; rewrite String.eqb_refl; by destruct seen|].
  destruct (String.eqb_spec ref (b_policyRef cur)); [congruence|done].
Qed.

(** * The loop over cut lines *)

Fixpoint run (text : string) (start : nat) (l : list string) (st : ParseState) : option ParseState :=
  match l with
  | [] => Some st
  | chunk :: l =>
      match parse_line text (line_of chunk) start (start + String.length chunk) st with
      | None => None
      | Some st' => run text (start + String.length chunk) l st'
      end
  end.

Lemma parse_lines_run text start l st : String.length text = start + String.length (joined l) →
  parse_lines text (with_offsets start l) st = run text start l st.
Proof.
  revert start st. induction l as [|c l IH]; intros start st Hlen; [done|]. simpl in *. rewrite string_length_app in Hlen.
  replace (match with_offsets (start + String.length c) l with [] => String.length text | (_, o) :: _ => o end) with (start + String.length c).
  2:{ destruct l; simpl in *; lia. }
  destruct (parse_line _ _ _ _ _); [|done]. apply IH. lia.
Qed.

Lemma parse_run text : parse_lines text (linesWithOffsets text) parse_start = run text 0 (chunks text) parse_start.
Proof. apply parse_lines_run. by rewrite joined_chunks. Qed.

Lemma run_app text start l l' st : run text start (l ++ l')%list st =
  match run text start l st with None => None | Some st' => run text (start + String.length (joined l)) l' st' end.
Proof.
  revert start st. induction l as [|c l IH]; intros start st; simpl; [by rewrite Nat.add_0_r|].
  destruct (parse_line _ _ _ _ _); [|done]. rewrite IH, string_length_app. by rewrite Nat.add_assoc.
Qed.

(** * The grammar *)

Definition foreign_line (c : string) : Prop := kind_of (line_of c) = KBlank ∨ kind_of (line_of c) = KText.
Definition blank_line (c : string) : Prop := kind_of (line_of c) = KBlank.

Definition is_body (cs : list string) (key value : string) : Prop := ∃ pre c post,
  cs = (pre ++ c :: post)%list ∧ Forall blank_line pre ∧ Forall blank_line post ∧
  kind_of (line_of c) = KText ∧ parseCanonicalAssignment (line_of c) = Some (key, value).

(** A sub-block: whole lines from a begin marker to the end marker with the
    same reference, and between them one assignment and blank lines. *)
Definition is_policy (cs : list string) (b : ManagedPolicyBlock) : Prop := ∃ c0 body c1,
  cs = (c0 :: body ++ [c1])%list ∧ forallb whole_line cs = true ∧ b_raw b = joined cs ∧
  kind_of (line_of c0) = KBegin (b_policyRef b) ∧ is_body body (b_key b) (b_value b) ∧ kind_of (line_of c1) = KEnd (b_policyRef b).

Inductive is_middle : list string → list ManagedPolicyBlock → Prop :=
| middle_nil : is_middle [] []
| middle_blank c cs bs : blank_line c → whole_line c = true → is_middle cs bs → is_middle (c :: cs) bs
| middle_policy p b cs bs : is_policy p b → is_middle cs bs → is_middle (p ++ cs)%list (b :: bs).

Definition refs (bs : list ManagedPolicyBlock) : list string := b_policyRef <$> bs.

(** What the parser accepts: no marker at all, or exactly one container. *)
Definition reads (l : list string) (m : ManagedConfigModel) : Prop :=
  (Forall foreign_line l ∧ m = no_container) ∨
  ∃ before o mid e after, l = (before ++ o :: mid ++ e :: after)%list ∧
    Forall foreign_line before ∧ Forall foreign_line after ∧ kind_of (line_of o) = KOpen ∧ whole_line o = true ∧ kind_of (line_of e) = KClose ∧
    is_middle mid (policies m) ∧ NoDup (refs (policies m)) ∧
    m = mkModel true (String.length (joined before)) (String.length (joined (o :: mid ++ [e])%list)) (policies m).

(** ** The grammar is accepted *)

Lemma run_foreign text start l st : Forall foreign_line l → ps_inPolicy st = false → ps_inContainer st = false →
  run text start l st = Some st.
Proof.
  intros Hl Hp Hc. revert start. induction Hl as [|c l Hk Hl IH]; intros start; [done|]. simpl. rewrite parse_line_kind.
  destruct Hk as [-> | ->]; [apply IH|]. rewrite Hp, Hc. apply IH.
Qed.

Lemma run_blank text start l st : Forall blank_line l → run text start l st = Some st.
Proof.
  intros Hl. revert start. induction Hl as [|c l Hk Hl IH]; intros start; [done|]. simpl. rewrite parse_line_kind.
  unfold blank_line in Hk. rewrite Hk. apply IH.
Qed.

(** Between the sub-blocks of a container that starts at [off]. *)
Definition within (off : nat) (bs : list ManagedPolicyBlock) (st : ParseState) : Prop :=
  ps_model st = mkModel false off 0 bs ∧ ps_inContainer st = true ∧ ps_inPolicy st = false ∧ ps_containerStart st = off.

Lemma existsb_ref ref bs : existsb (λ p, String.eqb (b_policyRef p) ref) bs = true ↔ ref ∈ refs bs.
Proof.
  unfold refs. rewrite existsb_exists, list_elem_of_fmap. setoid_rewrite String.eqb_eq. setoid_rewrite list_elem_of_In. naive_solver.
Qed.

Lemma existsb_ref_false ref bs : existsb (λ p, String.eqb (b_policyRef p) ref) bs = false ↔ ref ∉ refs bs.
Proof. rewrite <-existsb_ref. by destruct (existsb _ _). Qed.

Lemma run_policy text pre post cs b off bs st : text = pre +:+ (joined cs +:+ post) → is_policy cs b → within off bs st → b_policyRef b ∉ refs bs →
  ∃ st', run text (String.length pre) cs st = Some st' ∧ within off (bs ++ [b])%list st'.
Proof.
  intros Ht (c0 & body & c1 & -> & Hw & Hraw & H0 & (bpre & c & bpost & -> & Hpre & Hpost & Hc & Hassign) & H1) (Hm & Hin & Hp & Hs) Hfresh.
  cbn [run app]. rewrite parse_line_kind, H0, Hin, Hp, Hm. cbn [policies andb negb]. apply existsb_ref_false in Hfresh. rewrite Hfresh. cbn [negb].
  rewrite run_app, run_app, run_blank by done. cbn [run]. rewrite parse_line_kind, Hc, Hassign. cbn [begun ps_inPolicy ps_assignmentSeen].
  rewrite run_blank by done. rewrite parse_line_kind, H1. cbn [assigned begun ps_inPolicy ps_assignmentSeen ps_current b_policyRef andb]. rewrite String.eqb_refl.
  cbn [andb]. eexists. split; [reflexivity|]. unfold within, ended. cbn [ps_model ps_inContainer ps_inPolicy ps_containerStart assigned begun ps_policyStart ps_current b_policyRef b_key b_value].
  rewrite Hm, Hin, Hs. cbn [blockPresent blockOffset blockLength policies]. split_and!; [|done..]. f_equal. f_equal.
  match goal with |- [mkBlock _ _ _ (if bool_decide (last_char (String.substring ?p ?n text) = _) then _ else _)] = _ =>
    assert (String.substring p n text = b_raw b) as -> end.
  { rewrite Hraw, Ht. etrans; [|exact (substring_mid pre (joined (c0 :: (bpre ++ c :: bpost) ++ [c1])%list) post)]. f_equal.
    cbn [joined app]. rewrite !joined_app. cbn [joined]. rewrite !string_length_app. simpl. lia. }
  rewrite bool_decide_true; [by destruct b|]. rewrite Hraw. pose proof (joined_closed _ Hw) as Hcl. unfold closed in Hcl.
  destruct (last_char _) as [x|] eqn:Hx; [apply Ascii.eqb_eq in Hcl; congruence|]. apply last_char_none in Hx. simpl in Hw, Hx.
  apply andb_true_iff in Hw as [Hw _]. apply whole_line_closed in Hw as [_ Hw]. by destruct c0.
Qed.

Lemma run_middle text pre post mid bs' off bs st : text = pre +:+ (joined mid +:+ post) → is_middle mid bs' → within off bs st →
  NoDup (refs (bs ++ bs')%list) → ∃ st', run text (String.length pre) mid st = Some st' ∧ within off (bs ++ bs')%list st'.
Proof.
  intros Ht Hmid. revert pre bs st Ht. induction Hmid as [|c cs bs' Hk Hc Hmid IH|p b cs bs' Hp Hmid IH]; intros pre bs st Ht Hin Hnd.
  - exists st. by rewrite app_nil_r.
  - cbn [run]. rewrite parse_line_kind. unfold blank_line in Hk. rewrite Hk. rewrite <-string_length_app. apply IH; [|done..].
    rewrite Ht. simpl. by rewrite !string_app_assoc.
  - assert (b_policyRef b ∉ refs bs) as Hfresh.
    { unfold refs in Hnd. rewrite fmap_app in Hnd. apply NoDup_app in Hnd as (_ & Hd & _). intros Hb. apply (Hd _ Hb). left. }
    destruct (run_policy text pre (joined cs +:+ post) p b off bs st) as (st1 & Hr1 & Hin1); [|done..|].
    { rewrite Ht, joined_app. by rewrite !string_app_assoc. }
    rewrite run_app, Hr1, <-string_length_app. rewrite (cons_middle b bs bs') in Hnd |- *. rewrite app_assoc in Hnd |- *.
    apply IH; [|done..]. rewrite Ht, joined_app. by rewrite !string_app_assoc.
Qed.

Lemma parse_complete text m : reads (chunks text) m → parseManagedConfig text = Some m.
Proof.
  unfold parseManagedConfig. rewrite parse_run. intros [[Hf ->]|(before & o & mid & e & after & Hl & Hb & Ha & Ho & Hwo & He & Hmid & Hnd & Hm)].
  - by rewrite run_foreign.
  - pose proof (joined_chunks text) as Ht. rewrite Hl in Ht |- *. rewrite run_app, run_foreign by done. cbn [run].
    rewrite parse_line_kind, Ho. cbn [parse_start ps_inContainer ps_model blockPresent no_container orb]. rewrite run_app.
    set (pre := joined before +:+ o).
    destruct (run_middle text pre (joined (e :: after)) mid (policies m) (0 + String.length (joined before)) [] (opened (0 + String.length (joined before)) parse_start)) as (st & Hr & Hin).
    { rewrite <-Ht, joined_app. cbn [joined]. rewrite joined_app. unfold pre. by rewrite !string_app_assoc. }
    { done. } { done. } { done. }
    replace (0 + String.length (joined before) + String.length o) with (String.length pre) by (unfold pre; rewrite string_length_app; lia).
    change {| ps_model := no_container; ps_inContainer := false; ps_inPolicy := false; ps_current := no_block; ps_containerStart := 0; ps_policyStart := 0; ps_assignmentSeen := false |} with parse_start.
    rewrite Hr. cbn [run]. rewrite parse_line_kind, He. destruct Hin as (Hmod & Hc & Hp & Hs). rewrite Hc, Hp. cbn [andb negb].
    rewrite run_foreign; [|done|by rewrite <-Hp|done]. cbn [shut ps_inContainer ps_inPolicy ps_model]. rewrite Hp. cbn [orb]. rewrite Hmod, Hs.
    cbn [blockOffset policies app]. rewrite Hm. f_equal. f_equal. unfold pre. rewrite string_length_app. cbn [joined]. rewrite joined_app.
    cbn [joined]. rewrite !string_length_app. simpl. lia.
Qed.

(** ** Nothing else is accepted *)

Lemma run_after text start l st st' : ps_inPolicy st = false → ps_inContainer st = false → blockPresent (ps_model st) = true →
  run text start l st = Some st' → Forall foreign_line l ∧ st' = st.
Proof.
  intros Hp Hc Hb. revert start. induction l as [|c l IH]; intros start Hr; simpl in Hr; [by simplify_eq|]. rewrite parse_line_kind, Hp, Hc, Hb in Hr.
  destruct (kind_of (line_of c)) eqn:Hk; simpl in Hr; try done; destruct (IH _ Hr) as [Hl ->]; (split; [|done]); constructor; auto.
  - by left.
  - by right.
Qed.

Definition final (st : ParseState) : Prop := ps_inContainer st = false ∧ ps_inPolicy st = false.

(** The rest of a sub-block whose assignment has been seen. *)
Lemma run_seen text start l st st' : ps_inContainer st = true → ps_inPolicy st = true → ps_assignmentSeen st = true → run text start l st = Some st' → final st' →
  ∃ body c1 rest, l = (body ++ c1 :: rest)%list ∧ Forall blank_line body ∧ kind_of (line_of c1) = KEnd (b_policyRef (ps_current st)) ∧
    run text (start + String.length (joined body) + String.length c1) rest (ended text (start + String.length (joined body) + String.length c1) st) = Some st'.
Proof.
  intros Hi Hp Hs. revert start. induction l as [|c l IH]; intros start Hr Hf; simpl in Hr; [destruct Hf; simplify_eq; congruence|].
  rewrite parse_line_kind, Hi, Hp, Hs in Hr. destruct (kind_of (line_of c)) as [| | | |ref|ref|] eqn:Hk; cbn [andb negb] in Hr; try done.
  - destruct (IH _ Hr Hf) as (body & c1 & rest & -> & Hb & Hc1 & Hrest). exists (c :: body), c1, rest. split_and!; [done|by constructor|done|].
    cbn [joined]. rewrite string_length_app. by rewrite !Nat.add_assoc in *.
  - destruct (String.eqb_spec ref (b_policyRef (ps_current st))) as [->|]; [|done]. cbn [andb] in Hr. exists [], c, l. cbn [joined String.length].
    by rewrite Nat.add_0_r.
Qed.

Lemma run_unseen text start l st st' : ps_inContainer st = true → ps_inPolicy st = true → ps_assignmentSeen st = false → run text start l st = Some st' → final st' →
  ∃ body c1 rest key value, l = (body ++ c1 :: rest)%list ∧ is_body body key value ∧ kind_of (line_of c1) = KEnd (b_policyRef (ps_current st)) ∧
    run text (start + String.length (joined body) + String.length c1) rest
      (ended text (start + String.length (joined body) + String.length c1) (assigned key value st)) = Some st'.
Proof.
  intros Hi Hp Hs. revert start. induction l as [|c l IH]; intros start Hr Hf; simpl in Hr; [destruct Hf; simplify_eq; congruence|].
  rewrite parse_line_kind, Hi, Hp, Hs in Hr. destruct (kind_of (line_of c)) as [| | | |ref|ref|] eqn:Hk; cbn [andb orb negb] in Hr; rewrite ?andb_false_r in Hr; try done.
  - destruct (IH _ Hr Hf) as (body & c1 & rest & key & value & -> & (pre & a & post & -> & Hb) & Hc1 & Hrest). exists (c :: pre ++ a :: post)%list, c1, rest, key, value.
    split_and!; [done| |done|].
    + exists (c :: pre), a, post. destruct Hb as (? & ? & ? & ?). split_and!; [done|by constructor|done..].
    + cbn [joined]. rewrite string_length_app. by rewrite !Nat.add_assoc in *.
  - destruct (parseCanonicalAssignment (line_of c)) as [[key value]|] eqn:Ha; [|done].
    apply run_seen in Hr as (body & c1 & rest & -> & Hb & Hc1 & Hrest); [|done..]. exists (c :: body), c1, rest, key, value. split_and!; [done| |done|].
    + exists [], c, body. split_and!; [done|constructor|done..].
    + cbn [joined]. rewrite string_length_app. by rewrite !Nat.add_assoc in *.
Qed.

Lemma whole_app l x l' : lines_ok (l ++ x :: l')%list = true → l' ≠ [] → forallb whole_line (l ++ [x])%list = true.
Proof.
  intros Hok Hne. rewrite cons_middle, app_assoc, lines_ok_app in Hok by done. by apply andb_true_iff in Hok as [? _].
Qed.

Lemma lines_ok_suffix l l' : lines_ok (l ++ l')%list = true → lines_ok l' = true.
Proof. destruct l' as [|x l']; [done|]. rewrite lines_ok_app by done. by intros [_ ?]%andb_true_iff. Qed.

(** What is left of a container that is properly closed. *)
Lemma run_within n text pre l off bs st st' : length l ≤ n → text = pre +:+ joined l → lines_ok l = true → within off bs st → NoDup (refs bs) →
  run text (String.length pre) l st = Some st' → final st' →
  ∃ mid e after bs', l = (mid ++ e :: after)%list ∧ is_middle mid bs' ∧ kind_of (line_of e) = KClose ∧ Forall foreign_line after ∧
    NoDup (refs (bs ++ bs')%list) ∧ ps_model st' = mkModel true off (String.length pre + String.length (joined mid) + String.length e - off) (bs ++ bs')%list.
Proof.
  revert pre l bs st. induction n as [|n IH]; intros pre l bs st Hn Ht Hok Hin Hnd Hr Hf;
    (destruct l as [|c l]; [simpl in Hr; injection Hr as <-; destruct Hin as (_ & Hc & _), Hf; congruence|]); simpl in Hn; [lia|].
  destruct Hin as (Hm & Hc & Hp & Hs). cbn [run] in Hr. rewrite parse_line_kind, Hc, Hp, Hm in Hr. cbn [andb orb negb policies blockPresent] in Hr.
  destruct (kind_of (line_of c)) as [| | | |ref|ref|] eqn:Hk; try done.
  - rewrite <-string_length_app in Hr. destruct (IH (pre +:+ c) l bs st) as (mid & e & after & bs' & -> & Hmid & He & Ha & Hnd' & Hmod); [lia| | |done|done|done|done|].
    { rewrite Ht. simpl. by rewrite string_app_assoc. } { by apply (lines_ok_suffix [c]). }
    exists (c :: mid), e, after, bs'. split_and!; [done| |done..|].
    + constructor; [done| |done]. apply (whole_app [] c) in Hok; [|by destruct mid]. simpl in Hok. by rewrite andb_true_r in Hok.
    + rewrite Hmod. f_equal. simpl. rewrite !string_length_app. lia.
  - apply run_after in Hr as [Ha ->]; [|done..]. exists [], c, l, []. split_and!; [done|constructor|done|done|by rewrite app_nil_r|].
    cbn. rewrite Hm, Hs, app_nil_r. cbn. f_equal. lia.
  - destruct (existsb _ bs) eqn:Hex; [done|]. cbn [negb] in Hr. apply existsb_ref_false in Hex.
    apply run_unseen in Hr as (body & c1 & rest & key & value & -> & Hbody & Hc1 & Hr); [|done..].
    cbn [begun ps_current b_policyRef] in Hc1. set (p := (c :: body ++ [c1])%list). assert (rest ≠ []) as Hne.
    { intros ->. simpl in Hr. injection Hr as <-. destruct Hf as [Hf _]. unfold ended in Hf. cbn in Hf. congruence. }
    assert (c :: body ++ c1 :: rest = p ++ rest)%list as Heq by (unfold p; simpl; by rewrite <-app_assoc). rewrite Heq in Hok, Ht.
    assert (forallb whole_line p = true) as Hw. { rewrite lines_ok_app in Hok by done. by apply andb_true_iff in Hok as [? _]. }
    rewrite joined_app in Ht.
    assert (String.length pre + String.length c + String.length (joined body) + String.length c1 = String.length (pre +:+ joined p)) as Hlen.
    { unfold p. rewrite string_length_app. cbn [joined]. rewrite joined_app. cbn [joined]. rewrite !string_length_app. simpl. lia. }
    rewrite Hlen in Hr. set (b := mkBlock ref key value (joined p)).
    assert (is_policy p b) as Hpol by (exists c, body, c1; by split_and!).
    assert (within off (bs ++ [b])%list (ended text (String.length (pre +:+ joined p)) (assigned key value (begun ref (String.length pre) st)))) as Hwin.
    { unfold within, ended. cbn [ps_model ps_inContainer ps_inPolicy ps_containerStart assigned begun ps_policyStart ps_current b_policyRef b_key b_value b_raw].
      rewrite Hm, Hc, Hs. cbn [blockPresent blockOffset blockLength policies]. split_and!; [|done..]. do 3 f_equal.
      replace (String.length (pre +:+ joined p) - String.length pre) with (String.length (joined p)) by (rewrite string_length_app; lia).
      rewrite Ht, substring_mid. unfold b. f_equal. rewrite bool_decide_true; [done|]. pose proof (joined_closed _ Hw) as Hcl. unfold closed in Hcl.
      destruct (last_char (joined p)) as [x|] eqn:Hx; [apply Ascii.eqb_eq in Hcl; congruence|]. apply last_char_none in Hx. unfold p in Hx, Hw. simpl in Hw, Hx.
      apply andb_true_iff in Hw as [Hw _]. apply whole_line_closed in Hw as [_ Hw]. by destruct c. }
    assert (NoDup (refs (bs ++ [b])%list)) as Hnd1.
    { unfold refs in *. rewrite fmap_app. apply NoDup_app. split_and!; [done| |apply NoDup_singleton]. intros x Hx ->%list_elem_of_singleton. done. }
    rewrite <-string_app_assoc in Ht. rewrite length_app in Hn. simpl in Hn.
    destruct (IH (pre +:+ joined p) rest (bs ++ [b])%list _ ltac:(lia) Ht (lines_ok_suffix _ _ Hok) Hwin Hnd1 Hr Hf)
      as (mid & e & after & bs' & -> & Hmid & He & Ha & Hnd' & Hmod).
    exists (p ++ mid)%list, e, after, (b :: bs')%list. split_and!; [by rewrite Heq, <-app_assoc|by constructor|done|done|by rewrite cons_middle, app_assoc|].
    rewrite Hmod. rewrite joined_app, !string_length_app, <-app_assoc. cbn. f_equal. lia.
Qed.

Lemma run_outside text pre l st st' : text = pre +:+ joined l → lines_ok l = true → st = parse_start → run text (String.length pre) l st = Some st' → final st' →
  (Forall foreign_line l ∧ ps_model st' = no_container) ∨
  ∃ before o mid e after bs, l = (before ++ o :: mid ++ e :: after)%list ∧ Forall foreign_line before ∧ Forall foreign_line after ∧
    kind_of (line_of o) = KOpen ∧ whole_line o = true ∧ kind_of (line_of e) = KClose ∧ is_middle mid bs ∧ NoDup (refs bs) ∧
    ps_model st' = mkModel true (String.length pre + String.length (joined before)) (String.length (joined (o :: mid ++ [e])%list)) bs.
Proof.
  intros Ht Hok ->. revert pre Ht Hok. induction l as [|c l IH]; intros pre Ht Hok Hr Hf; [simpl in Hr; injection Hr as <-; left; by split|].
  cbn [run] in Hr. rewrite parse_line_kind in Hr. cbn [parse_start ps_inPolicy ps_inContainer ps_model no_container blockPresent andb orb negb] in Hr.
  assert (foreign_line c → run text (String.length (pre +:+ c)) l parse_start = Some st' →
    (Forall foreign_line (c :: l) ∧ ps_model st' = no_container) ∨
    ∃ before o mid e after bs, (c :: l = before ++ o :: mid ++ e :: after)%list ∧ Forall foreign_line before ∧ Forall foreign_line after ∧
    kind_of (line_of o) = KOpen ∧ whole_line o = true ∧ kind_of (line_of e) = KClose ∧ is_middle mid bs ∧ NoDup (refs bs) ∧
    ps_model st' = mkModel true (String.length pre + String.length (joined before)) (String.length (joined (o :: mid ++ [e])%list)) bs) as Hstep.
  { intros Hc Hr'. destruct (IH (pre +:+ c)) as [[Hl Hm]|(before & o & mid & e & after & bs & -> & Hb & Ha & Ho & Hwo & He & Hmid & Hnd & Hm)]; [| |done|done| |].
    - rewrite Ht. simpl. by rewrite string_app_assoc.
    - by apply (lines_ok_suffix [c]).
    - left. split; [by constructor|done].
    - right. exists (c :: before), o, mid, e, after, bs. split_and!; [done|by constructor|done..|]. rewrite Hm. f_equal. simpl. rewrite !string_length_app. lia. }
  destruct (kind_of (line_of c)) as [| | | |ref|ref|] eqn:Hk; try done.
  - rewrite <-string_length_app in Hr. apply Hstep; [by left|done].
  - rewrite <-string_length_app in Hr. apply Hstep; [by right|done].
  - right. rewrite <-string_length_app in Hr. destruct (run_within (length l) text (pre +:+ c) l (String.length pre) [] (opened (String.length pre) parse_start) st') as (mid & e & after & bs & -> & Hmid & He & Ha & Hnd & Hm);
      [done| |by apply (lines_ok_suffix [c])|done|constructor|done|done|].
    { rewrite Ht. simpl. by rewrite string_app_assoc. }
    exists [], c, mid, e, after, bs. split; [done|]. split; [apply Forall_nil_2|]. split; [done|]. split; [done|]. split; [|split; [done|split; [done|split; [done|]]]].
    + apply (whole_app [] c) in Hok; [|by destruct mid]. simpl in Hok. by rewrite andb_true_r in Hok.
    + rewrite Hm. simpl. rewrite joined_app. simpl. rewrite !string_length_app. simpl. f_equal; lia.
Qed.

(** The parser accepts exactly the grammar, with exactly its reading. *)
Lemma container_parse_exact text m : parseManagedConfig text = Some m ↔ reads (chunks text) m.
Proof.
  split; [|apply parse_complete]. unfold parseManagedConfig. rewrite parse_run. destruct (run _ _ _ _) as [st|] eqn:Hr; [|done].
  destruct (ps_inContainer st) eqn:Hc; [done|]. destruct (ps_inPolicy st) eqn:Hp; [done|]. intros [= <-].
  destruct (run_outside text "" (chunks text) parse_start st) as [[Hl Hm]|(before & o & mid & e & after & bs & Hl & Hb & Ha & Ho & Hwo & He & Hmid & Hnd & Hm)];
    [by rewrite joined_chunks|apply chunks_lines_ok|done|done|done|by left|]. right. exists before, o, mid, e, after. rewrite Hm. by split_and!.
Qed.

(** * The content as the editors see it *)

(** The bytes outside the container, and the sub-blocks in it. *)
Definition view (text : string) : option (string * list ManagedPolicyBlock) :=
  m ← parseManagedConfig text; Some (foreignWithoutBlock text m, policies m).

Definition block_text (b : ManagedPolicyBlock) : Prop := is_policy (chunks (b_raw b)) b.

Lemma middle_blocks mid bs : is_middle mid bs → Forall block_text bs ∧ forallb whole_line mid = true.
Proof.
  induction 1 as [|c cs bs Hk Hc Hmid [IH IHw]|p b cs bs Hp Hmid [IH IHw]]; [done|split; [done|]; simpl; by rewrite Hc|].
  destruct Hp as (c0 & body & c1 & -> & Hw & Hraw & Hp). rewrite forallb_app, Hw, IHw. split; [|done]. constructor; [|done].
  exists c0, body, c1. rewrite Hraw, chunks_joined by done. destruct Hp as (? & ? & ?). by split_and!.
Qed.

Lemma view_elim text foreign bs : view text = Some (foreign, bs) →
  Forall foreign_line (chunks foreign) ∧ Forall block_text bs ∧ NoDup (refs bs).
Proof.
  unfold view. destruct (parseManagedConfig text) as [m|] eqn:Hp; [|done]. cbn. intros [= <- <-]. apply container_parse_exact in Hp.
  destruct Hp as [[Hf ->]|(before & o & mid & e & after & Hl & Hb & Ha & Ho & Hwo & He & Hmid & Hnd & Hm)]; [by split_and!; [done|constructor|constructor]|].
  apply middle_blocks in Hmid as [Hbs Hw]. split_and!; [|done..]. rewrite Hm. unfold foreignWithoutBlock. cbn [blockPresent negb blockOffset blockLength].
  pose proof (joined_chunks text) as Ht. rewrite Hl in Ht. rewrite joined_app in Ht.
  replace (o :: mid ++ e :: after)%list with ((o :: mid ++ [e]) ++ after)%list in Ht by (simpl; by rewrite <-app_assoc). rewrite joined_app in Ht.
  rewrite <-Ht at 1 2. rewrite front_app, <-string_length_app, <-string_app_assoc, drop_front_app.
  pose proof (chunks_lines_ok text) as Hok. rewrite Hl, lines_ok_app in Hok by done. apply andb_true_iff in Hok as [Hwb _].
  rewrite chunks_lines by done. apply Forall_app. split; [done|]. rewrite (chunks_suffix text (before ++ o :: mid ++ [e])%list); [done|].
  rewrite Hl, <-!app_assoc. simpl. by rewrite <-app_assoc.
Qed.

Lemma blocks_middle bs : Forall block_text bs → is_middle (concat ((λ b, chunks (b_raw b)) <$> bs)) bs ∧
  forallb whole_line (concat ((λ b, chunks (b_raw b)) <$> bs)) = true ∧ joined (b_raw <$> bs) = joined (concat ((λ b, chunks (b_raw b)) <$> bs)).
Proof.
  induction 1 as [|b bs Hb Hbs (IH & IHw & IHj)]; csimpl; [split; [constructor|done]|]. split; [by constructor|]. rewrite forallb_app, IHw, joined_app, <-IHj, joined_chunks.
  by destruct Hb as (c0 & body & c1 & Hc & -> & _).
Qed.

Definition open_line : string := kBlockBegin +:+ eol.
Definition close_line : string := kBlockEnd +:+ eol.

Lemma serialize_lines bs : Forall block_text bs →
  serializeContainer bs = joined (open_line :: concat ((λ b, chunks (b_raw b)) <$> bs) ++ [close_line])%list ∧
  chunks (serializeContainer bs) = (open_line :: concat ((λ b, chunks (b_raw b)) <$> bs) ++ [close_line])%list.
Proof.
  intros Hbs. destruct (blocks_middle bs Hbs) as (_ & Hw & Hj).
  assert (serializeContainer bs = joined (open_line :: concat ((λ b, chunks (b_raw b)) <$> bs) ++ [close_line])%list) as Hs.
  { unfold serializeContainer. rewrite Hj. cbn [joined]. rewrite joined_app. cbn [joined]. unfold open_line, close_line. by rewrite !string_app_assoc, string_app_nil_r. }
  split; [done|]. rewrite Hs. apply chunks_joined. cbn [forallb]. by rewrite forallb_app, Hw.
Qed.

(** Foreign bytes followed by a container read as just these. *)
Lemma assembled foreign bs : Forall foreign_line (chunks foreign) → closed foreign = true → Forall block_text bs → NoDup (refs bs) →
  let text := foreign +:+ serializeContainer bs in
  parseManagedConfig text = Some (mkModel true (String.length foreign) (String.length (serializeContainer bs)) bs) ∧ view text = Some (foreign, bs).
Proof.
  intros Hf Hcl Hbs Hnd text. destruct (serialize_lines bs Hbs) as [Hs Hc]. destruct (blocks_middle bs Hbs) as (Hmid & Hw & _).
  assert (parseManagedConfig text = Some (mkModel true (String.length foreign) (String.length (serializeContainer bs)) bs)) as Hp.
  { apply container_parse_exact. right. exists (chunks foreign), open_line, (concat ((λ b, chunks (b_raw b)) <$> bs)), close_line, [].
    unfold text. rewrite chunks_app, Hc, joined_chunks by done. rewrite <-Hs. by split_and!. }
  split; [done|]. unfold view. rewrite Hp. cbn. unfold foreignWithoutBlock. cbn [blockPresent negb blockOffset blockLength].
  unfold text. rewrite front_app, <-string_length_app.
  pose proof (drop_front_app (foreign +:+ serializeContainer bs) "") as Hd. rewrite string_app_nil_r in Hd. by rewrite Hd, string_app_nil_r.
Qed.

(** * The editors *)

Definition put (b : ManagedPolicyBlock) (bs : list ManagedPolicyBlock) : list ManagedPolicyBlock :=
  if existsb (λ p, String.eqb (b_policyRef p) (b_policyRef b)) bs
  then (λ p, if String.eqb (b_policyRef p) (b_policyRef b) then b else p) <$> bs
  else (bs ++ [b])%list.

Definition drop (ref : string) (bs : list ManagedPolicyBlock) : list ManagedPolicyBlock :=
  filter (λ b, negb (String.eqb (b_policyRef b) ref)) bs.

(** The sub-block the editor writes for a policy. *)
Definition canonical (ref key value : string) : ManagedPolicyBlock := mkBlock ref key value (canonicalPolicyBlock ref key value).

(** References, keys and values the grammar can carry. *)
Definition writable_block (ref key value : string) : bool :=
  negb (is_empty ref) && free_of (spaces ++ ["="%char; "@"%char]) ref &&
  negb (is_empty key) && free_of spaces key && negb (String.prefix kMarkerIntroducer key) &&
  negb (is_empty value) && free_of spaces value && negb (String.prefix "#" value).

Lemma one_of_false l c x : one_of l c = false → x ∈ l → Ascii.eqb c x = false.
Proof.
  unfold one_of. intros Hn Hx. destruct (Ascii.eqb_spec c x) as [->|]; [|done]. apply not_true_iff_false in Hn. exfalso. apply Hn.
  rewrite existsb_exists. exists x. split; [by apply list_elem_of_In|by apply Ascii.eqb_refl].
Qed.

Lemma free_of_text l s : cr ∈ l → lf ∈ l → free_of l s = true → text_line s = true.
Proof.
  intros Hcr Hlf. unfold text_line, free_of. induction s as [|c s IH]; [done|]. cbn [all_chars]. intros [Hc Hs]%andb_true_iff. rewrite IH, andb_true_r by done.
  apply negb_true_iff in Hc. unfold one_of. cbn [existsb]. by rewrite (one_of_false l c cr), (one_of_false l c lf).
Qed.

Lemma text_line_app a b : text_line (a +:+ b) = text_line a && text_line b.
Proof. apply all_chars_app. Qed.

Lemma free_of_contains l s c : c ∈ l → free_of l s = true → contains c s = false.
Proof.
  intros Hc. unfold free_of. induction s as [|x s IH]; [done|]. cbn [all_chars contains]. intros [Hx Hs]%andb_true_iff. rewrite IH by done.
  apply negb_true_iff in Hx. by rewrite (one_of_false l x c).
Qed.

Lemma is_empty_false s : is_empty s = false ↔ s ≠ "".
Proof. unfold is_empty. destruct (String.eqb_spec s ""); naive_solver. Qed.

Lemma parse_marker_ref prefix ref : ref ≠ "" → free_of (spaces ++ ["="%char; "@"%char]) ref = true →
  parseMarkerRef (prefix +:+ (ref +:+ "@")) prefix = Some ref.
Proof.
  intros Hne Hf. unfold parseMarkerRef. rewrite prefix_app. cbn [negb orb]. rewrite !string_length_app. cbn [String.length].
  assert (0 < String.length ref) as Hlen by (destruct ref; [done|simpl; lia]).
  replace (_ <=? _) with false by (symmetry; apply Nat.leb_gt; lia). rewrite bool_decide_true.
  2:{ by rewrite !last_char_app by (destruct ref; discriminate). }
  cbn [negb orb]. replace (_ - _ - _) with (String.length ref) by lia. rewrite substring_mid, Hf. by destruct ref.
Qed.

Lemma canonical_block ref key value : writable_block ref key value = true → block_text (canonical ref key value).
Proof.
  unfold writable_block. rewrite !andb_true_iff, !negb_true_iff. intros [[[[[[[Hr Hrf] Hk] Hkf] Hkm] Hv] Hvf] Hvh].
  apply is_empty_false in Hr, Hk, Hv.
  assert (text_line ref = true) as Tr by (eapply free_of_text; [| |exact Hrf]; apply (bool_decide_unpack _); by vm_compute).
  assert (text_line key = true) as Tk by (eapply free_of_text; [| |exact Hkf]; apply (bool_decide_unpack _); by vm_compute).
  assert (text_line value = true) as Tv by (eapply free_of_text; [| |exact Hvf]; apply (bool_decide_unpack _); by vm_compute).
  set (l0 := kPolicyBegin +:+ (ref +:+ "@")). set (l1 := key +:+ (" " +:+ value)). set (l2 := kPolicyEnd +:+ (ref +:+ "@")).
  assert (text_line l0 = true) as T0 by (unfold l0; by rewrite !text_line_app, Tr).
  assert (text_line l1 = true) as T1 by (unfold l1; by rewrite !text_line_app, Tk, Tv).
  assert (text_line l2 = true) as T2 by (unfold l2; by rewrite !text_line_app, Tr).
  assert (b_raw (canonical ref key value) = joined [l0 +:+ eol; l1 +:+ eol; l2 +:+ eol]) as Hraw.
  { unfold canonical, canonicalPolicyBlock, l0, l1, l2. cbn [b_raw joined]. rewrite !string_app_assoc. by rewrite string_app_nil_r. }
  assert (forallb whole_line [l0 +:+ eol; l1 +:+ eol; l2 +:+ eol] = true) as Hw by (cbn [forallb]; by rewrite !text_line_whole by done).
  exists (l0 +:+ eol), [l1 +:+ eol], (l2 +:+ eol). rewrite Hraw, chunks_joined by done. rewrite !line_of_text by done.
  assert (parseMarkerRef l0 kPolicyBegin = Some ref) as P0 by by apply parse_marker_ref.
  assert (parseMarkerRef l2 kPolicyEnd = Some ref) as P2 by by apply parse_marker_ref.
  split_and!; [done|done|done| | |].
  - unfold kind_of. change (String.prefix kMarkerIntroducer l0) with true. cbn [negb].
    change (String.eqb l0 kBlockBegin) with false. change (String.eqb l0 kBlockEnd) with false. by rewrite P0.
  - exists [], (l1 +:+ eol), []. split_and!; [done|apply Forall_nil_2|apply Forall_nil_2| |]; rewrite line_of_text by done.
    + unfold kind_of. replace (String.prefix kMarkerIntroducer l1) with false; [cbn [negb]; unfold l1; by destruct key|].
      symmetry. apply not_true_iff_false. intros Hp. apply not_true_iff_false in Hkm. apply Hkm. by eapply prefix_cut.
    + unfold parseCanonicalAssignment, l1. change (" " +:+ value) with (String " " value). rewrite cut_join by (eapply free_of_contains; [|exact Hkf]; apply (bool_decide_unpack _); by vm_compute).
      apply is_empty_false in Hk, Hv. by rewrite Hk, Hv, Hvh, Hvf.
  - unfold kind_of. change (String.prefix kMarkerIntroducer l2) with true. cbn [negb].
    change (String.eqb l2 kBlockBegin) with false. change (String.eqb l2 kBlockEnd) with false.
    replace (parseMarkerRef l2 kPolicyBegin) with (@None string) by done. by rewrite P2.
Qed.

Lemma refs_put b bs : refs (put b bs) = if bool_decide (b_policyRef b ∈ refs bs) then refs bs else (refs bs ++ [b_policyRef b])%list.
Proof.
  unfold put. destruct (existsb _ _) eqn:Hex.
  - rewrite bool_decide_true by by apply existsb_ref. clear Hex. unfold refs. rewrite <-list_fmap_compose. apply list_fmap_ext. intros i p _. simpl.
    by destruct (String.eqb_spec (b_policyRef p) (b_policyRef b)).
  - rewrite bool_decide_false by by apply existsb_ref_false. unfold refs. by rewrite fmap_app.
Qed.

Lemma put_ok b bs : block_text b → Forall block_text bs → NoDup (refs bs) → Forall block_text (put b bs) ∧ NoDup (refs (put b bs)).
Proof.
  intros Hb Hbs Hnd. split.
  - unfold put. destruct (existsb _ _); [|apply Forall_app; split; [done|by constructor]]. apply Forall_fmap. eapply Forall_impl; [exact Hbs|].
    intros p Hp. simpl. by destruct (String.eqb _ _).
  - rewrite refs_put. case_bool_decide as Hin; [done|]. apply NoDup_app. split_and!; [done| |apply NoDup_singleton]. by intros x Hx ->%list_elem_of_singleton.
Qed.

Lemma drop_elem ref bs b : b ∈ drop ref bs ↔ b ∈ bs ∧ b_policyRef b ≠ ref.
Proof.
  unfold drop. rewrite list_elem_of_filter. destruct (String.eqb_spec (b_policyRef b) ref); naive_solver.
Qed.

Lemma drop_ok ref bs : Forall block_text bs → NoDup (refs bs) → Forall block_text (drop ref bs) ∧ NoDup (refs (drop ref bs)).
Proof.
  intros Hbs Hnd. split; [apply Forall_forall; intros b [Hb _]%drop_elem; by eapply Forall_forall|]. eapply sublist_NoDup; [exact Hnd|].
  apply fmap_sublist, sublist_filter.
Qed.

Lemma foreign_alone foreign : Forall foreign_line (chunks foreign) → parseManagedConfig foreign = Some no_container ∧ view foreign = Some (foreign, []).
Proof.
  intros Hf. assert (parseManagedConfig foreign = Some no_container) as Hp by (apply container_parse_exact; by left). split; [done|]. unfold view. by rewrite Hp.
Qed.

(** The content of given foreign bytes and sub-blocks. *)
Definition compose (foreign : string) (bs : list ManagedPolicyBlock) : string :=
  match bs with [] => foreign | _ => foreign +:+ serializeContainer bs end.

Lemma compose_view foreign bs : Forall foreign_line (chunks foreign) → closed foreign = true ∨ bs = [] → Forall block_text bs → NoDup (refs bs) →
  view (compose foreign bs) = Some (foreign, bs).
Proof.
  intros Hf Hcl Hbs Hnd. destruct bs as [|b bs]; [by apply foreign_alone|]. destruct Hcl as [Hcl|]; [|done]. by apply assembled.
Qed.

Lemma upsert_exact text foreign bs ref key value : view text = Some (foreign, bs) →
  let result := foreign +:+ serializeContainer (put (canonical ref key value) bs) in
  upsertPolicyBlock text ref key value = if closed foreign then Some (result, negb (String.eqb result text)) else None.
Proof.
  unfold view, upsertPolicyBlock. destruct (parseManagedConfig text) as [m|]; [|done]. cbn. intros [= <- <-]. destruct (closed _); [|done]. cbn [negb].
  unfold put. cbn [b_policyRef canonical]. destruct (existsb _ _) eqn:Hex; [done|]. assert (((λ p, if String.eqb (b_policyRef p) ref then canonical ref key value else p) <$> policies m) = policies m) as Hid.
  { apply existsb_ref_false in Hex. revert Hex. unfold refs. generalize (policies m). intros l. induction l as [|b l IH]; [done|]. csimpl. intros [Hb Hl]%not_elem_of_cons.
    rewrite IH by done. destruct (String.eqb_spec (b_policyRef b) ref); [congruence|done]. }
  fold (canonical ref key value). by rewrite Hid.
Qed.

Lemma find_ref ref bs : List.find (λ b, String.eqb (b_policyRef b) ref) bs = None ↔ ref ∉ refs bs.
Proof.
  unfold refs. induction bs as [|b bs IH]; [split; [intros _; apply not_elem_of_nil|done]|]. csimpl. rewrite not_elem_of_cons, <-IH.
  destruct (String.eqb_spec (b_policyRef b) ref); naive_solver.
Qed.

Lemma remove_exact text foreign bs ref : view text = Some (foreign, bs) →
  removePolicyBlock text ref =
    if bool_decide (ref ∈ refs bs)
    then if bool_decide (drop ref bs = []) || closed foreign then Some (compose foreign (drop ref bs), true) else None
    else Some (text, false).
Proof.
  unfold view, removePolicyBlock. destruct (parseManagedConfig text) as [m|]; [|done]. cbn. intros [= <- <-]. unfold findPolicyBlock.
  destruct (List.find _ _) as [b|] eqn:Hfind.
  - rewrite (bool_decide_true (ref ∈ refs (policies m))) by (apply dec_stable; intros Hn%find_ref; congruence). fold (drop ref (policies m)).
    destruct (drop ref (policies m)) as [|b' peers]; [by rewrite bool_decide_true|]. rewrite bool_decide_false by done. cbn [negb andb orb]. by destruct (closed _).
  - by rewrite bool_decide_false by by apply find_ref.
Qed.
