(* ===== verification/Contents.v ===== *)
(** Everything a file can be, now or after a crash: what a write, a barrier and
    a failed attempt do to it. *)

From S2P Require Import Prelude FileModel AtomicWriter AtomicFacts StateStore TargetStore JournalDisk.
Open Scope string_scope.
Open Scope nat_scope.

(** Every entry the path has or may come back with is a file whose content is
    synced and satisfies [S]. *)
Definition contents (d : Disk) (path : string) (S : string → Prop) : Prop := ∀ e, crash_entry d path e →
  ∃ n i, e = Some n ∧ d_nodes d !! n = Some i ∧ i_saved i = Some (i_content i) ∧ S (i_content i).

Lemma contents_mono d path (S S' : string → Prop) : contents d path S → (∀ s, S s → S' s) → contents d path S'.
Proof. intros Hc HS e He. destruct (Hc e He) as (n & i & ? & ? & ? & ?). exists n, i. auto. Qed.

Lemma contents_now d path S : contents d path S → ∃ n i, lookup_path d path = Some (n, i) ∧ i_saved i = Some (i_content i) ∧ S (i_content i).
Proof.
  intros Hc. destruct (Hc (d_names d !! path)) as (n & i & Hn & Hi & Hs & HS); [by left|]. exists n, i. split; [by apply lookup_path_Some|done].
Qed.

Lemma contents_saved d path S : contents d path S → content_saved d path.
Proof. intros Hc n i Hl. destruct (contents_now _ _ _ Hc) as (n' & i' & Hl' & Hs & _). congruence. Qed.

Lemma contents_object d path S s : contents d path S → object_at d path s → S (content s).
Proof. intros Hc Ho. destruct (contents_now _ _ _ Hc) as (n & i & Hl & _ & HS). by rewrite (object_unique _ _ _ _ _ Ho Hl). Qed.

Lemma contents_aside d d' path S : wf d → aside d d' → visible path → contents d path S → contents d' path S.
Proof.
  intros Hw Ha Hp Hc e He. unfold crash_entry in He. rewrite (as_names _ _ Ha), (as_stale _ _ Ha) in He by done.
  destruct (Hc e He) as (n & i & -> & Hi & Hs & HS). exists n, i. split; [done|]. rewrite (as_nodes _ _ Ha); [done|]. by eapply crash_entry_lt.
Qed.

Lemma contents_new_file d d' path text options fd j S : new_file d d' path text options fd j → visible path → contents d path S →
  contents d' path (λ s, S s ∨ s = text).
Proof.
  intros [Hsw (i & target & Hs & Hwant)] Hp Hc e He. destruct (sw_crash _ _ _ _ _ Hsw path e Hp He) as [[_ ->]|Hc0].
  - unfold wanted, is_file in Hwant. destruct (wanted_metadata _ _ _ _) as [[u g] m]. destruct Hwant as (_ & Hic & His & _), Hs as (_ & Sc & Ss & _).
    exists fd, j. split_and!; [done|apply (sw_node _ _ _ _ _ Hsw)|congruence|right; congruence].
  - destruct (Hc e Hc0) as (n & k & -> & Hk & Hsk & HS). destruct (sw_nodes _ _ _ _ _ Hsw n k Hk) as (k' & Hk' & _ & Hc' & Hs' & _).
    exists n, k'. split_and!; [done|done|congruence|left; by rewrite Hc'].
Qed.

Lemma holds_contents d path text : holds d path text → contents d path (λ s, s = text).
Proof.
  intros (n & i & Hl & Hc & Hs & He) e Hce. exists n, i. apply lookup_path_Some in Hl as [_ Hi]. split_and!; [by apply He|done|congruence|done].
Qed.

Lemma contents_holds d path text : contents d path (λ s, s = text) → (∀ e, crash_entry d path e → e = d_names d !! path) → holds d path text.
Proof.
  intros Hc Hone. destruct (contents_now _ _ _ Hc) as (n & i & Hl & Hs & Hi). exists n, i. split_and!; [done|done|congruence|].
  intros e He. rewrite (Hone e He). by apply lookup_path_Some in Hl as [? _].
Qed.

Lemma contents_synced d path S n i : contents d path S → lookup_path d path = Some (n, i) → contents (synced d) path (λ s, s = i_content i).
Proof. intros Hc Hl. apply holds_contents. apply (holds_synced d path n i Hl). by eapply contents_saved. Qed.

(** After a conditional replacement. *)
Lemma write_contents d d' path text options r S : wf d → visible path → exclusiveCreate options = false → contents d path S →
  write_post d path text options r d' →
  wf d' ∧ contents d' path (λ s, durabilityConfirmed r.2 = false ∧ S s ∨ installed r.2 = true ∧ s = text) ∧
  (durabilityConfirmed r.2 = true → holds d' path text).
Proof.
  intros Hw Hp He Hc Hpost. split; [by apply (write_post_others path _ _ _ _ _ Hw) in Hpost as [? _]|]. unfold write_post in Hpost.
  destruct (installed r.2) eqn:Hi.
  - destruct Hpost as (_ & (fd & j & Hnew & _) & Hdur & _). destruct (durabilityConfirmed r.2).
    + split; [|intros _; eapply holds_new_file; eauto]. eapply contents_mono; [eapply holds_contents, holds_new_file; eauto|]. auto.
    + split; [|done]. eapply contents_mono; [by eapply contents_new_file|]. naive_solver.
  - destruct Hpost as (_ & Hd & _ & [Ha|(Hx & _)]); [|congruence]. rewrite Hd. split; [|done]. eapply contents_mono; [by eapply contents_aside|]. auto.
Qed.

(** After the barrier for a captured state. *)
Lemma barrier_contents d d' path s S b : wf d → contents d path S → (if b : bool then object_at d path s ∧ d' = synced d else d' = d) →
  wf d' ∧ contents d' path (λ x, S x ∧ (b = true → x = content s)).
Proof.
  intros Hw Hc. destruct b; [|intros ->; split; [done|]; by eapply contents_mono; [exact Hc|]; intros x Hx]. intros [Ho ->]. split; [by apply synced_wf|].
  pose proof Ho as (n & i & Hl & _). rewrite (object_unique _ _ _ _ _ Ho Hl). destruct (contents_now _ _ _ Hc) as (n' & i' & Hl' & _ & HS).
  eapply contents_mono; [by eapply contents_synced|]. intros x ->. split; [done|]. intros _. congruence.
Qed.
