(* ===== verification/Machine.v ===== *)
(** Programs over the mutation journal and one configuration directory.

    The journal lives in the daemon's state directory and the file a policy
    edits in another one: each has its own disk, its own script of faults and
    its own directory barrier. The clock is read once per journal call.

    Then what the calls of a transaction do to the two disks: the contents the
    journal and the configuration file can have, now or after a crash. *)

From S2P Require Import Prelude PolicyModel FileModel AtomicWriter AtomicFacts Json JsonRead StateStore TargetStore OwnershipGrammar MutationRecord MutationValid MutationCodec CodecFacts CodecText Journal JournalFacts JournalSteps JournalOwnership JournalDisk Contents.
Open Scope string_scope.
Open Scope nat_scope.

Record Machine := mkMachine {
  m_journal : Journal;
  m_state : World;
  m_etc : World;
  m_time : nat
}.

(** A call returns a value, or an exception leaves it. *)
Definition T (A : Type) : Type := Machine → flow A * Machine.

Definition tret {A} (a : A) : T A := λ m, (Returned a, m).
Definition tthrow {A} : T A := λ m, (Thrown, m).
Definition tbind {A B} (p : T A) (k : A → T B) : T B := λ m,
  match p m with
  | (Returned a, m') => k a m'
  | (Thrown, m') => (Thrown, m')
  end.

Declare Scope machine_scope.
Notation "'let+' x ':=' p 'in' k" := (tbind p (λ x, k))
  (at level 100, x pattern, p at next level, right associativity) : machine_scope.
Open Scope machine_scope.

Definition on_etc {A} (op : M A) : T A := λ m,
  let '(a, w) := op (m_etc m) in (Returned a, mkMachine (m_journal m) (m_state m) w (m_time m)).

Definition on_journal (clock : nat → nat → Z) {A} (op : (nat → Z) → Journal → M (flow A * Journal)) : T A := λ m,
  let '(r, j, w) := op (clock (m_time m)) (m_journal m) (m_state m) in (r, mkMachine j w (m_etc m) (S (m_time m))).

Definition the_journal : T Journal := λ m, (Returned (m_journal m), m).

(** * What the calls do *)

(** Nobody else acts on the two directories. *)
Record calm (M : Machine) : Prop := {
  calm_state : alone (m_state M);
  calm_state_wf : wf (w_disk (m_state M));
  calm_etc : alone (m_etc M);
  calm_etc_wf : wf (w_disk (m_etc M))
}.

Section machine.
Context `{JsonText} `{JsonStrict} `{!JsonTextLaws} (journal_path path : string).
Hypothesis journal_visible : visible journal_path.
Hypothesis path_visible : visible path.

(** The document is a journal with these records. *)
Definition journal_reads (text : string) (l : list MutationRecord) : Prop :=
  ∃ document next, json_parse text = Some document ∧ parse_document document = Accepted (next, l).

(** The journal on disk has records in [R], and the configuration file a
    content in [S], whatever crash follows. *)
Record stands (M : Machine) (j : Journal) (R : list MutationRecord → Prop) (S : string → Prop) : Prop := {
  st_calm : calm M;
  st_journal : m_journal M = j;
  st_records : contents (w_disk (m_state M)) journal_path (λ t, ∃ l, journal_reads t l ∧ R l);
  st_contents : contents (w_disk (m_etc M)) path S
}.

Lemma stands_mono M j (R R' : list MutationRecord → Prop) (S S' : string → Prop) : stands M j R S → (∀ l, R l → R' l) → (∀ s, S s → S' s) → stands M j R' S'.
Proof. intros [Hc Hj Hr Hs] HR HS. split; [done|done| |by eapply contents_mono]. eapply contents_mono; [exact Hr|]. naive_solver. Qed.

(** * The configuration file *)

Lemma etc_step {A} (op : M A) M j R S (Q : A → Disk → Prop) (S' : A → string → Prop) : stands M j R S → runs op (w_disk (m_etc M)) Q →
  (∀ a d', Q a d' → wf d' ∧ contents d' path (S' a)) →
  ∃ a M', on_etc op M = (Returned a, M') ∧ Q a (w_disk (m_etc M')) ∧ stands M' j R (S' a) ∧ m_state M' = m_state M ∧ m_time M' = m_time M.
Proof.
  intros [[Ha Hw Ha' Hw'] Hj Hr Hs] Hruns HQ. destruct (Hruns (m_etc M) Ha' eq_refl) as [Ho HQ']. unfold on_etc. destruct (op (m_etc M)) as [a w]. simpl in *.
  exists a, (mkMachine (m_journal M) (m_state M) w (m_time M)). destruct (HQ a _ HQ') as [Hwf Hc]. split; [done|]. split; [done|]. split; [|done]. by split.
Qed.

(** A program that only looks. *)
Lemma etc_look {A} (op : M A) M j R S (φ : Disk → A → Prop) : stands M j R S → looks op φ →
  ∃ a M', on_etc op M = (Returned a, M') ∧ φ (w_disk (m_etc M)) a ∧ w_disk (m_etc M') = w_disk (m_etc M) ∧ stands M' j R S ∧ m_state M' = m_state M ∧ m_time M' = m_time M.
Proof.
  intros Hst Hl. destruct (etc_step op M j R S (λ a d', d' = w_disk (m_etc M) ∧ φ (w_disk (m_etc M)) a) (λ _, S) Hst (Hl _)) as (a & M' & ? & [? ?] & ? & ? & ?).
  - intros a d' [-> _]. destruct Hst as [[? ? ? ?] ? ? ?]. done.
  - exists a, M'. by split_and!.
Qed.

(** * The journal *)

Lemma persist_contents new d S : wf d → contents d journal_path S → runs (persist journal_path new) d (λ r d', wf d' ∧
  match r with
  | Returned Persisted => ∃ text, text_of new = Some text ∧ contents d' journal_path (λ t, t = text)
  | Returned NotInstalled => contents d' journal_path S
  | Returned PIndeterminate => ∃ text, text_of new = Some text ∧ contents d' journal_path (λ t, S t ∨ t = text)
  | Thrown => contents d' journal_path S
  end).
Proof.
  intros Hw Hc. unfold persist. fold (text_of new). destruct (text_of new) as [text|]; [|by apply runs_ret].
  eapply runs_bind; [by apply write_runs|]. intros [written result] d1 Hpost.
  destruct (write_contents d d1 journal_path text (journal_options false) (written, result) S Hw journal_visible eq_refl Hc Hpost) as (Hw1 & Hc1 & _). cbn [fst snd] in Hc1.
  unfold write_post in Hpost. cbn [fst snd] in Hpost. destruct (installed result) eqn:Hi; cbn [negb].
  - destruct Hpost as (-> & (fd & k & _ & _ & Hst) & _ & _). rewrite Hst. destruct (durabilityConfirmed result).
    + apply runs_ret. split; [done|]. exists text. split; [done|]. eapply contents_mono; [exact Hc1|]. naive_solver.
    + eapply runs_bind; [apply durable_runs|]. intros b d2 Hd2. apply runs_ret. destruct (barrier_contents _ _ _ _ _ b Hw1 Hc1 Hd2) as [Hw2 Hc2]. split; [done|].
      destruct b; exists text; (split; [done|]); (eapply contents_mono; [exact Hc2|]); cbn; naive_solver.
  - destruct Hpost as (-> & Hd & _ & _). apply runs_ret. split; [done|]. eapply contents_mono; [exact Hc1|]. naive_solver.
Qed.

Lemma journal_reads_text new text : Inv new → text_of new = Some text → journal_reads text (records new).
Proof.
  intros [Hn Hr Hl Hok] Ht. destruct (text_roundtrip _ _ _ Hn Hr Hl Hok Ht) as (document & ? & ?). by exists document, (nextId new).
Qed.

(** How a call that refuses or commits one change ends; [P a new]: the change
    [new] that is reported as [a]. *)
Inductive ends {A} (ok : A → bool) (j : Journal) (P : A → Journal → Prop) (S : string → Prop) : flow A → Machine → Prop :=
| ends_done a new M' : ok a = true → P a new → Inv new → stands M' new (λ l, l = records new) S → ends ok j P S (Returned a) M'
| ends_refused a M' : ok a = false → stands M' j (λ l, l = records j) S → ends ok j P S (Returned a) M'
| ends_unknown a a' new M' : ok a = false → P a' new → stands M' (poisoned new) (λ l, l = records j ∨ l = records new) S → ends ok j P S (Returned a) M'
| ends_thrown j' M' : stands M' j' (λ l, l = records j) S → ends ok j P S Thrown M'.

(** A call refuses, throws, or commits one change. *)
Definition commits {A} (a0 : A) (j : Journal) (P : A → Journal → Prop) (w : World) (r : (flow A * Journal) * World) : Prop :=
  r = refuse a0 j w ∨ r = throw j w ∨ ∃ a new, r = commit journal_path a a0 j new w ∧ P a new.

Lemma journal_call {A} (ok : A → bool) (a0 : A) clock op j P M S :
  commits a0 j P (m_state M) (op (clock (m_time M)) j (m_state M)) → Inv (op (clock (m_time M)) j (m_state M)).1.2 →
  ok a0 = false → (∀ a new, P a new → ok a = true) → stands M j (λ l, l = records j) S →
  ∃ r M', on_journal clock op M = (r, M') ∧ ends ok j P S r M' ∧ m_etc M' = m_etc M.
Proof.
  intros Hop Hinv Hf Hok [[Hal Hw Hae Hwe] Hj Hr Hs]. unfold on_journal. rewrite Hj. destruct Hop as [->|[->|(a & new & Hop & HP)]].
  - eexists _, _. split; [reflexivity|]. split; [|done]. apply ends_refused; [done|]. by split; [split|..].
  - eexists _, _. split; [reflexivity|]. split; [|done]. apply (ends_thrown _ _ _ _ j). by split; [split|..].
  - rewrite Hop in Hinv |- *. unfold commit, mbind in *.
    destruct (persist_contents new (w_disk (m_state M)) _ Hw Hr (m_state M) Hal eq_refl) as [Ho Hpost]. destruct (persist journal_path new (m_state M)) as [out w'].
    simpl in *. destruct Hpost as [Hw' Hpost].
    assert (out ≠ Returned NotInstalled → Inv new) as Hnew. { destruct out as [[]|]; simpl in Hinv; intros Hne; try done. by eapply Inv_eq; [..|exact Hinv]. }
    destruct out as [[]|]; simpl; eexists _, _; (split; [reflexivity|]); (split; [|done]).
    + destruct Hpost as (text & Ht & Hc). eapply ends_done; [by eapply Hok|done|by apply Hnew|]. split; [by split|done| |done]. eapply contents_mono; [exact Hc|]. simpl. intros t ->.
      exists (records new). split; [apply journal_reads_text; [by apply Hnew|done]|done].
    + apply ends_refused; [done|]. by split; [split|..].
    + destruct Hpost as (text & Ht & Hc). eapply ends_unknown; [done|done|]. split; [by split|done| |done]. eapply contents_mono; [exact Hc|]. simpl. intros t [(l & Hl & ->)| -> ].
      * exists (records j). auto.
      * exists (records new). split; [apply journal_reads_text; [by apply Hnew|done]|by right].
    + apply (ends_thrown _ _ _ _ new). by split; [split|..].
Qed.
End machine.
