(* ===== verification/LoginDefsTransaction.v ===== *)
(** The managed transaction on /etc/login.defs
    (fic/src/modules/identity_access/shared/login_defs/IdentityLoginDefsManagedTransaction):
    apply, release and the inspection without a record, over the mutation
    journal and the configuration directory. Test hooks and texts are left out. *)

From S2P Require Import Prelude PolicyModel ConfigFile FileModel AtomicWriter Json JsonRead TargetStore OwnershipGrammar MutationRecord MutationValid MutationCodec CodecText Journal TextLines LoginDefsConfig Machine.
Open Scope string_scope.
Open Scope nat_scope.
Open Scope file_scope.
Open Scope machine_scope.

Inductive ReleaseStatus := RelSuccess | RelNothingToDo | RelConflict | RelFailed.
Inductive InspectStatus := InsNothingToDo | InsConflict | InsFailed.

(** * Ownership *)

Definition login_defs_payload (r : MutationRecord) : option UndoRemoveIdentityLoginDefsManagedPolicy :=
  match payload (undo r) with PLoginDefs p => Some p | _ => None end.

(** The body of a sub-block as the journal spells it. *)
Definition body (b : ManagedPolicyBlock) : string := b_key b +:+ " " +:+ b_value b.

Definition owns_route (p : PolicyRef) (path key : string) (r : MutationRecord) : bool :=
  match login_defs_payload r with
  | None => false
  | Some u => String.eqb (resource r) path && String.eqb (ld_configPath u) path && String.eqb (ld_key u) key &&
              String.eqb (ld_policyName u) (policyName p)
  end.

(** [None]: a conflicting identity or more than one record. *)
Fixpoint find_active (p : PolicyRef) (path key : string) (l : list MutationRecord) (found : option MutationRecord)
    : option (option MutationRecord) :=
  match l with
  | [] => Some found
  | r :: l =>
      if negb (bool_decide (backend (undo r) = IdentityLoginDefs)) then find_active p path key l found
      else if negb (owns_route p path key r) then None
      else match found with Some _ => None | None => find_active p path key l (Some r) end
  end.

Definition findActive (j : Journal) (p : PolicyRef) (path key : string) : option (option MutationRecord) :=
  find_active p path key (activeRecords p j) None.

Definition ref_of_text (text : string) : option PolicyRef :=
  match cut "/" text with
  | None => None
  | Some (m, rest) => match cut "/" rest with None => None | Some (s, n) => Some (mkRef m s n) end
  end.

Definition proven_body (r : MutationRecord) (text : string) : bool :=
  match login_defs_payload r with
  | None => false
  | Some u =>
      String.eqb text (ld_appliedLine u) ||
      (bool_decide (status r = Prepared) && negb (is_empty (ld_previousAppliedLine u)) && String.eqb text (ld_previousAppliedLine u))
  end.

Definition proven_block (j : Journal) (path : string) (b : ManagedPolicyBlock) : bool :=
  match ref_of_text (b_policyRef b) with
  | None => false
  | Some p =>
      match policyRoute path p with
      | None => false
      | Some route =>
          match findActive j p path (route_key route) with
          | Some (Some r) => proven_body r (body b)
          | _ => false
          end
      end
  end.

Definition proveCoherence (j : Journal) (path : string) (model : ManagedConfigModel) : bool :=
  forallb (proven_block j path) (policies model).

(** * The file *)

Definition login_defs_options (expected : AtomicTargetState) : AtomicWriteOptions :=
  mkOptions false true false PreserveExisting None None None None (Some expected) None.

(** The result of the write, and whether it is installed and durable. *)
Definition install (path : string) (before : AtomicTargetState) (text : string) : M (bool * AtomicWriteResult) :=
  let* r := writeWithResult path text (login_defs_options before) in
  mret (r.1 && durabilityConfirmed r.2, r.2).

Definition compensate (path : string) (written : AtomicWriteResult) (before : AtomicTargetState) : M bool :=
  match (if installed written then installedTargetState written else None) with
  | None => mret true
  | Some state =>
      let* r := writeWithResult path (content before) (login_defs_options state) in
      mret (r.1 && durabilityConfirmed r.2)
  end.

(** The content proves the managed line: owned, at the end, effective. *)
Definition verified (text : string) (p : PolicyRef) (key desiredLine desiredValue : string) (semantics : MissingKeySemantics) : bool :=
  match parseManagedConfig text with
  | None => false
  | Some model =>
      match findPolicyBlock model (ref_text p) with
      | None => false
      | Some b =>
          String.eqb (body b) desiredLine && (blockOffset model + blockLength model =? String.length text) &&
          bool_decide (effectiveValue text key = Some (Some desiredValue)) && relationsValidInCandidate text p semantics
      end
  end.

Definition verify (path : string) (p : PolicyRef) (key desiredLine desiredValue : string) (semantics : MissingKeySemantics)
    (expected : AtomicTargetState) : M bool :=
  let* same := targetStateMatches path expected in
  if negb same then mret false
  else
    let* captured := captureTargetState path in
    match captured with
    | None => mret false
    | Some current => mret (verified (content current) p key desiredLine desiredValue semantics)
    end.

Definition makeRecord (path : string) (p : PolicyRef) (key target previous : string) : MutationRecord :=
  mkRecord 0%Z p path (mkUndo IdentityLoginDefs (PLoginDefs (mkLoginDefs (policyName p) path key target previous))) Prepared 0 0 "".

(** [s.substr(n)]: throws past the end. *)
Definition substr_from (n : nat) (s : string) : option string :=
  if String.length s <? n then None else Some (drop_front n s).

Section transaction.
Context `{JsonText} `{JsonStrict} (journal_path : string) (clock : nat → nat → Z).

Definition t_prepare (record : MutationRecord) : T (option MutationId) := on_journal clock (λ c, prepareMutation journal_path c record).
Definition t_status (i : MutationId) (s : MutationStatus) : T bool := on_journal clock (λ c, setStatus journal_path c i s).
Definition t_discard (i : MutationId) : T bool := on_journal clock (λ _, discard journal_path i).
Definition t_normalize (i : MutationId) (proven : string) : T bool :=
  on_journal clock (λ c, normalizeIdentityLoginDefsPreparedToProvenState journal_path c i proven).

Context (semantics : MissingKeySemantics).

(** * Applying *)

Definition recanonicalizePreparedTarget (route : PolicyRoute) (p : PolicyRef) (before : AtomicTargetState) (targetLine : string)
    (i : MutationId) : T bool :=
  match substr_from (String.length (route_key route) + 1) targetLine with
  | None => tthrow
  | Some targetValue =>
      match upsertPolicyBlock (content before) (route_policyRef route) (route_key route) targetValue with
      | None => tret false
      | Some (candidate, changed) =>
          if negb changed then tret false
          else if negb (relationsValidInCandidate candidate p semantics) then tret false
          else
            let+ written := on_etc (install (route_path route) before candidate) in
            if negb written.1 then
              let+ _ := (if installed written.2 then on_etc (compensate (route_path route) written.2 before) else tret true) in
              tret false
            else
              let+ good := (match installedTargetState written.2 with
                            | None => tret false
                            | Some state => on_etc (verify (route_path route) p (route_key route) targetLine targetValue semantics state)
                            end) in
              if negb good then
                let+ _ := on_etc (compensate (route_path route) written.2 before) in tret false
              else t_status i Applied
      end
  end.

(** How the search for the active record ends: an answer, a fresh start, or the
    previous line and the record to go on with. *)
Inductive recovery := Done (b : bool) | Again | Next (previous : string) (active : option MutationRecord).

Definition recover_prepared (route : PolicyRoute) (p : PolicyRef) (before : AtomicTargetState) (block : option ManagedPolicyBlock)
    (r : MutationRecord) (u : UndoRemoveIdentityLoginDefsManagedPolicy) : T recovery :=
  let target := ld_appliedLine u in
  let previousDurable := ld_previousAppliedLine u in
  match block with
  | Some b =>
      if String.eqb (body b) target then
        let+ durable := on_etc (ensureTargetDurableIfCurrentState (route_path route) before) in
        let+ direct :=
          (if negb durable then tret false
           else match substr_from (String.length (route_key route) + 1) target with
                | None => tthrow
                | Some v => on_etc (verify (route_path route) p (route_key route) target v semantics before)
                end) in
        if direct then
          let+ done := t_status (mid r) Applied in
          tret (if done then Next "" (Some (with_status Applied r)) else Done false)
        else
          let+ moved := recanonicalizePreparedTarget route p before target (mid r) in
          tret (if moved then Again else Done false)
      else if negb (is_empty previousDurable) && String.eqb (body b) previousDurable then tret (Next previousDurable (Some r))
      else tret (Done false)
  | None =>
      let+ done := t_discard (mid r) in
      tret (if done then Next "" None else Done false)
  end.

Definition resolve_applied (route : PolicyRoute) (p : PolicyRef) (value desiredLine : string) (before : AtomicTargetState)
    (model : ManagedConfigModel) (currentEffective : option string) (r : MutationRecord) (u : UndoRemoveIdentityLoginDefsManagedPolicy) : T recovery :=
  match findPolicyBlock model (route_policyRef route) with
  | None =>
      let+ done := t_status (mid r) RolledBack in
      tret (if done then Next "" None else Done false)
  | Some owned =>
      if negb (String.eqb (body owned) (ld_appliedLine u)) then tret (Done false)
      else if String.eqb (ld_appliedLine u) desiredLine && (blockOffset model + blockLength model =? String.length (content before)) &&
              bool_decide (currentEffective = Some value) && relationsValidInCandidate (content before) p semantics
      then tret (Done true)
      else tret (Next (ld_appliedLine u) (Some r))
  end.

(** What becomes of the record that is active when apply starts. *)
Definition resolve_active (route : PolicyRoute) (p : PolicyRef) (value desiredLine : string) (before : AtomicTargetState)
    (model : ManagedConfigModel) (currentEffective : option string) (active : option MutationRecord) : T recovery :=
  match active with
  | None => tret (Next "" None)
  | Some r =>
      match login_defs_payload r with
      | None => tthrow
      | Some u =>
          let+ prepared :=
            (if bool_decide (status r = Prepared)
             then recover_prepared route p before (findPolicyBlock model (route_policyRef route)) r u
             else tret (Next "" (Some r))) in
          match prepared with
          | Next previous (Some r') =>
              if bool_decide (status r' = Applied) then resolve_applied route p value desiredLine before model currentEffective r' u
              else tret (Next previous (Some r'))
          | other => tret other
          end
      end
  end.

(** After a write that failed: the journal says what is on disk again. *)
Definition forget_attempt (i : MutationId) (previous : string) : T unit :=
  if is_empty previous then let+ _ := t_discard i in tret tt
  else
    let+ normalized := t_normalize i previous in
    if normalized then let+ _ := t_status i Applied in tret tt else tret tt.

Definition write_candidate (route : PolicyRoute) (p : PolicyRef) (value desiredLine : string) (before : AtomicTargetState)
    (candidate previous : string) : T bool :=
  let+ prepared := t_prepare (makeRecord (route_path route) p (route_key route) desiredLine previous) in
  match prepared with
  | None => tret false
  | Some i =>
      let+ written := on_etc (install (route_path route) before candidate) in
      if negb written.1 then
        let+ restored := (if installed written.2 then on_etc (compensate (route_path route) written.2 before) else tret true) in
        let+ _ := (if restored then forget_attempt i previous else tret tt) in
        tret false
      else
        let+ good := (match installedTargetState written.2 with
                      | None => tret false
                      | Some state => on_etc (verify (route_path route) p (route_key route) desiredLine value semantics state)
                      end) in
        if negb good then
          let+ restored := on_etc (compensate (route_path route) written.2 before) in
          let+ _ := (if restored then forget_attempt i previous else tret tt) in
          tret false
        else t_status i Applied
  end.

(** One pass of the function; [inr tt] is the recursive call at the end of a
    recovery. *)
Definition apply_once (loginDefsPath : string) (p : PolicyRef) (value : string) : T (bool + unit) :=
  match policyRoute loginDefsPath p with
  | None => tret (inl false)
  | Some route =>
      if negb (validatePolicyValue p value) then tret (inl false)
      else
        let desiredLine := route_key route +:+ " " +:+ value in
        let+ captured := on_etc (captureTargetState (route_path route)) in
        match captured with
        | None => tret (inl false)
        | Some before =>
            let+ j := the_journal in
            match parseManagedConfig (content before) with
            | None => tret (inl false)
            | Some model =>
                if negb (proveCoherence j (route_path route) model) then tret (inl false)
                else match effectiveValue (content before) (route_key route) with
                     | None => tret (inl false)
                     | Some currentEffective =>
                         match findActive j p (route_path route) (route_key route) with
                         | None => tret (inl false)
                         | Some active =>
                             let+ resolved := resolve_active route p value desiredLine before model currentEffective active in
                             match resolved with
                             | Done b => tret (inl b)
                             | Again => tret (inr tt)
                             | Next previous active' =>
                                 if bool_decide (active' = None) && negb (bool_decide (findPolicyBlock model (route_policyRef route) = None))
                                 then tret (inl false)
                                 else match upsertPolicyBlock (content before) (route_policyRef route) (route_key route) value with
                                      | None => tret (inl false)
                                      | Some (candidate, changed) =>
                                          if negb changed then tret (inl false)
                                          else if negb (relationsValidInCandidate candidate p semantics) then tret (inl false)
                                          else
                                            let+ b := write_candidate route p value desiredLine before candidate previous in
                                            tret (inl b)
                                      end
                             end
                         end
                     end
            end
        end
  end.

(** [None]: out of passes. *)
Fixpoint applyManagedPolicy (passes : nat) (loginDefsPath : string) (p : PolicyRef) (value : string) : T (option bool) :=
  match passes with
  | 0 => tret None
  | S passes =>
      let+ r := apply_once loginDefsPath p value in
      match r with
      | inl b => tret (Some b)
      | inr _ => applyManagedPolicy passes loginDefsPath p value
      end
  end.

(** * Releasing *)

Definition release_write (route : PolicyRoute) (before : AtomicTargetState) (candidate : string) : T ReleaseStatus :=
  let+ written := on_etc (install (route_path route) before candidate) in
  if negb written.1 then
    let+ _ := (if installed written.2 then on_etc (compensate (route_path route) written.2 before) else tret true) in
    tret (if preconditionFailed written.2 then RelConflict else RelFailed)
  else
    let+ good := (match installedTargetState written.2 with
                  | None => tret false
                  | Some state =>
                      let+ same := on_etc (targetStateMatches (route_path route) state) in
                      if negb same then tret false
                      else
                        let+ captured := on_etc (captureTargetState (route_path route)) in
                        tret (match captured with
                              | None => false
                              | Some after =>
                                  match parseManagedConfig (content after) with
                                  | None => false
                                  | Some model => bool_decide (findPolicyBlock model (route_policyRef route) = None)
                                  end
                              end)
                  end) in
    if negb good then
      let+ _ := on_etc (compensate (route_path route) written.2 before) in tret RelFailed
    else tret RelSuccess.

Definition releaseManagedPolicy (loginDefsPath : string) (record : MutationRecord) : T ReleaseStatus :=
  match login_defs_payload record with
  | None => tret RelFailed
  | Some u =>
      match policyRoute loginDefsPath (policy record) with
      | None => tret RelConflict
      | Some route =>
          if negb (String.eqb (route_key route) (ld_key u) && String.eqb (route_path route) (ld_configPath u) &&
                   String.eqb (route_path route) (resource record)) then tret RelConflict
          else
            let+ captured := on_etc (captureTargetState (route_path route)) in
            match captured with
            | None => tret RelFailed
            | Some before =>
                let+ j := the_journal in
                match parseManagedConfig (content before) with
                | None => tret RelConflict
                | Some model =>
                    if negb (proveCoherence j (route_path route) model) then tret RelConflict
                    else match findPolicyBlock model (route_policyRef route) with
                         | None => tret RelNothingToDo
                         | Some b =>
                             let ownsTarget := String.eqb (body b) (ld_appliedLine u) in
                             let ownsPrevious := bool_decide (status record = Prepared) && negb (is_empty (ld_previousAppliedLine u)) &&
                                                 String.eqb (body b) (ld_previousAppliedLine u) in
                             if negb ownsTarget && negb ownsPrevious then tret RelConflict
                             else
                               let+ normalized := (if ownsPrevious then t_normalize (mid record) (ld_previousAppliedLine u) else tret true) in
                               if negb normalized then tret RelFailed
                               else match removePolicyBlock (content before) (route_policyRef route) with
                                    | None => tret RelConflict
                                    | Some (candidate, removed) =>
                                        if negb removed then tret RelConflict
                                        else if negb (relationsValidInCandidate candidate (policy record) semantics) then tret RelConflict
                                        else release_write route before candidate
                                    end
                         end
                end
            end
      end
  end.

Definition inspectUnrecordedState (loginDefsPath : string) (p : PolicyRef) : T InspectStatus :=
  match policyRoute loginDefsPath p with
  | None => tret InsFailed
  | Some route =>
      let+ captured := on_etc (captureTargetState (route_path route)) in
      match captured with
      | None => tret InsFailed
      | Some snapshot =>
          let+ j := the_journal in
          match parseManagedConfig (content snapshot) with
          | None => tret InsConflict
          | Some model =>
              if negb (proveCoherence j (route_path route) model) then tret InsConflict
              else if negb (bool_decide (findPolicyBlock model (route_policyRef route) = None)) then tret InsConflict
              else tret InsNothingToDo
          end
      end
  end.
End transaction.
