(* ===== verification/LoginDefsOwnership.v ===== *)
(** Which records own a sub-block of login.defs, and how the calls of the
    transaction change them. *)

From S2P Require Import Prelude PolicyModel PolicyValue ConfigFile FileModel AtomicWriter AtomicFacts Json JsonRead StateStore TargetStore OwnershipGrammar MutationRecord MutationValid MutationCodec CodecFacts CodecText Journal JournalFacts JournalSteps JournalOwnership TextLines LoginDefsConfig LoginDefsFacts Machine LoginDefsTransaction.
Open Scope string_scope.
Open Scope nat_scope.

(** * Policies and their references *)

Lemma policySpec_inv p spec : policySpec p = Some spec →
  p = mkRef "IDENTITY_ACCESS" (spec_submodule spec) (spec_policyName spec) ∧ spec ∈ kSpecs.
Proof.
  unfold policySpec. destruct p as [m s n]. cbn [moduleName submoduleName policyName]. destruct (String.eqb_spec m "IDENTITY_ACCESS") as [->|]; [|done]. cbn [negb].
  unfold findSharedLoginDefsPolicySpec. destruct (List.find _ _) as [x|] eqn:Hf; [|done]. destruct (String.eqb_spec s (spec_submodule x)) as [->|]; [|done].
  intros [= <-]. apply find_some in Hf as [Hin Hn]. apply String.eqb_eq in Hn as ->. split; [done|by apply list_elem_of_In].
Qed.

Lemma ref_of_text_spec text p : ref_of_text text = Some p → text = ref_text p.
Proof.
  unfold ref_of_text. destruct (cut "/" text) as [[m rest]|] eqn:Hc; [|done]. destruct (cut "/" rest) as [[s n]|] eqn:Hc'; [|done]. intros [= <-].
  apply cut_spec in Hc as [-> _]. apply cut_spec in Hc' as [-> _]. done.
Qed.

Lemma ref_of_enrolled p spec : policySpec p = Some spec → ref_of_text (ref_text p) = Some p.
Proof.
  intros [-> Hin]%policySpec_inv. unfold kSpecs in Hin. rewrite !elem_of_cons in Hin. decompose [or] Hin; subst; try done. by apply not_elem_of_nil in H.
Qed.

Lemma route_inv path p route : policyRoute path p = Some route → ∃ spec, policySpec p = Some spec ∧ path ≠ "" ∧
  route = mkRoute (ref_text p) (spec_key spec) path.
Proof.
  unfold policyRoute. destruct (policySpec p) as [spec|]; [|done]. cbn. destruct (is_empty path) eqn:He; [done|]. intros [= <-]. apply is_empty_false in He. eauto.
Qed.

(** * Claims *)

Definition is_claim (p : PolicyRef) (r : MutationRecord) : bool :=
  isActive r && bool_decide (policy r = p) && bool_decide (backend (undo r) = IdentityLoginDefs).

Definition claims (l : list MutationRecord) (p : PolicyRef) : list MutationRecord := List.filter (is_claim p) l.

Lemma find_active_claims p path key l found :
  find_active p path key (List.filter (λ r, isActive r && bool_decide (policy r = p)) l) found =
  match found, claims l p with
  | found, [] => Some found
  | None, [r] => if owns_route p path key r then Some (Some r) else None
  | _, _ => None
  end.
Proof.
  revert found. induction l as [|r l IH]; intros found; [by destruct found|]. cbn [List.filter]. unfold claims in *. cbn [List.filter].
  assert (is_claim p r = isActive r && bool_decide (policy r = p) && bool_decide (backend (undo r) = IdentityLoginDefs)) as Hi by done. rewrite Hi.
  destruct (isActive r && bool_decide (policy r = p)); cbn [andb]; [|apply IH]. cbn [find_active]. destruct (bool_decide (backend (undo r) = IdentityLoginDefs)); cbn [negb]; [|apply IH].
  destruct (owns_route p path key r) eqn:Ho; cbn [negb].
  - destruct found; [done|]. rewrite IH. destruct (List.filter (is_claim p) l); [by cbn; rewrite ?Ho|done].
  - destruct found; [done|]. destruct (List.filter (is_claim p) l); [by cbn; rewrite ?Ho|done].
Qed.

(** The record that owns the route of a policy. *)
Definition owner (l : list MutationRecord) (p : PolicyRef) (path key : string) : option (option MutationRecord) :=
  match claims l p with
  | [] => Some None
  | [r] => if owns_route p path key r then Some (Some r) else None
  | _ => None
  end.

Lemma findActive_owner j p path key : findActive j p path key = owner (records j) p path key.
Proof. unfold findActive, activeRecords, owner. by rewrite find_active_claims. Qed.

Lemma owner_Some l p path key r : owner l p path key = Some (Some r) → claims l p = [r] ∧ owns_route p path key r = true.
Proof. unfold owner. destruct (claims l p) as [|x [|y c]]; [done| |done]. destruct (owns_route p path key x) eqn:Ho; [|done]. by intros [= <-]. Qed.

Lemma owner_None l p path key : owner l p path key = Some None → claims l p = [].
Proof. unfold owner. destruct (claims l p) as [|x [|y c]]; [done| |done]. by destruct (owns_route p path key x). Qed.

Lemma claim_inv l p r : claims l p = [r] → r ∈ l ∧ isActive r = true ∧ policy r = p ∧ backend (undo r) = IdentityLoginDefs.
Proof.
  intros Hc. assert (In r (claims l p)) as [Hin Hr]%filter_In by (rewrite Hc; by left). unfold is_claim in Hr. rewrite !andb_true_iff, !bool_decide_eq_true in Hr.
  destruct Hr as [[? ?] ?]. split; [by apply list_elem_of_In|done].
Qed.

Lemma owns_route_inv p path key r : owns_route p path key r = true → ∃ u, login_defs_payload r = Some u ∧ payload (undo r) = PLoginDefs u ∧
  resource r = path ∧ ld_configPath u = path ∧ ld_key u = key ∧ ld_policyName u = policyName p.
Proof.
  unfold owns_route, login_defs_payload. destruct (payload (undo r)) as [| | | | | | | | | | | | |u| | | |]; try done. rewrite !andb_true_iff, !String.eqb_eq.
  intros [[[? ?] ?] ?]. by exists u.
Qed.

(** * Proven sub-blocks *)

Definition proves (l : list MutationRecord) (path : string) (b : ManagedPolicyBlock) : bool :=
  match ref_of_text (b_policyRef b) with
  | None => false
  | Some p =>
      match policyRoute path p with
      | None => false
      | Some route => match owner l p path (route_key route) with Some (Some r) => proven_body r (body b) | _ => false end
      end
  end.

Lemma coherence_proves j path model : proveCoherence j path model = forallb (proves (records j) path) (policies model).
Proof.
  unfold proveCoherence. induction (policies model) as [|b bs IH]; [done|]. cbn [forallb]. rewrite IH. f_equal. unfold proven_block, proves.
  destruct (ref_of_text _); [|done]. destruct (policyRoute _ _); [|done]. by rewrite findActive_owner.
Qed.

(** Every sub-block of the content is proven by the records. *)
Definition coherent (l : list MutationRecord) (path text : string) : Prop :=
  ∃ m, parseManagedConfig text = Some m ∧ forallb (proves l path) (policies m) = true.

(** The records of every other policy are the same. *)
Definition only_of (p : PolicyRef) (l l' : list MutationRecord) : Prop := ∀ q, q ≠ p → claims l' q = claims l q.

Lemma proves_other p l l' path b : only_of p l l' → b_policyRef b ≠ ref_text p → proves l' path b = proves l path b.
Proof.
  intros Ho Hne. unfold proves. destruct (ref_of_text (b_policyRef b)) as [q|] eqn:Hq; [|done]. destruct (policyRoute path q); [|done].
  apply ref_of_text_spec in Hq. unfold owner. rewrite Ho; [done|]. intros ->. done.
Qed.

Lemma proves_own l path b p route : policyRoute path p = Some route → b_policyRef b = ref_text p →
  proves l path b = match owner l p path (route_key route) with Some (Some r) => proven_body r (body b) | _ => false end.
Proof.
  intros Hr Hb. destruct (route_inv _ _ _ Hr) as (spec & Hs & _). unfold proves. by rewrite Hb, (ref_of_enrolled _ _ Hs), Hr.
Qed.

(** Changing the records of one policy keeps the proofs of the others; its own
    sub-block has to be looked at. *)
Lemma blocks_step p l l' path bs : only_of p l l' → forallb (proves l path) bs = true →
  (∀ b, b ∈ bs → b_policyRef b = ref_text p → proves l' path b = true) → forallb (proves l' path) bs = true.
Proof.
  intros Ho Hl Hown. apply forallb_forall. intros b Hb. rewrite forallb_forall in Hl. destruct (String.eqb_spec (b_policyRef b) (ref_text p)) as [He|Hne].
  - apply Hown; [by apply list_elem_of_In|done].
  - rewrite (proves_other p l l') by done. by apply Hl.
Qed.

(** * Changes of the records *)

Lemma first_match_split P l r : first_match P l = Some r → ∃ l1 l2, l = (l1 ++ r :: l2)%list ∧
  (∀ f, change_first P f l = (l1 ++ f r :: l2)%list) ∧ remove_first P l = (l1 ++ l2)%list.
Proof.
  induction l as [|a l IH]; [done|]. cbn [first_match change_first remove_first]. destruct (P a) eqn:Ha.
  - intros [= ->]. by exists [], l.
  - intros (l1 & l2 & -> & Hc & Hr)%IH. exists (a :: l1), l2. split; [done|]. split; [intros f; by rewrite Hc|by rewrite Hr].
Qed.

Lemma claims_app l l' p : claims (l ++ l')%list p = (claims l p ++ claims l' p)%list.
Proof. apply List.filter_app. Qed.

Lemma claims_cons r l p : claims (r :: l) p = ((if is_claim p r then [r] else []) ++ claims l p)%list.
Proof. unfold claims. cbn. by destruct (is_claim p r). Qed.

Lemma not_claim p r : policy r ≠ p → is_claim p r = false.
Proof. intros Hne. unfold is_claim. rewrite bool_decide_false by done. by rewrite andb_false_r. Qed.

(** The one claim of a policy is replaced by [new]. *)
Lemma claims_replaced l1 l2 r (new : list MutationRecord) : let p := policy r in claims (l1 ++ r :: l2)%list p = [r] → is_claim p r = true →
  Forall (λ r', policy r' = p) new → claims (l1 ++ new ++ l2)%list p = claims new p ∧ only_of p (l1 ++ r :: l2)%list (l1 ++ new ++ l2)%list.
Proof.
  intros p Hone Hr Hnew. split.
  - rewrite claims_app, claims_cons, Hr in Hone. assert (claims l1 p = [] ∧ claims l2 p = []) as [H1 H2].
    { apply (f_equal length) in Hone. rewrite !length_app in Hone. simpl in Hone. destruct (claims l1 p), (claims l2 p); simpl in Hone; try done; lia. }
    by rewrite !claims_app, H1, H2, app_nil_r.
  - intros q Hq. rewrite !claims_app, claims_cons, (not_claim q r) by done. f_equal. replace (claims new q) with (@nil MutationRecord); [done|].
    clear -Hnew Hq. induction Hnew as [|x new Hx _ IH]; [done|]. rewrite claims_cons, (not_claim q x) by congruence. by rewrite <-IH.
Qed.

Lemma claims_appended l r : let p := policy r in claims l p = [] → is_claim p r = true → claims (l ++ [r])%list p = [r] ∧ only_of p l (l ++ [r])%list.
Proof.
  intros p Hl Hr. split; [by rewrite claims_app, Hl, claims_cons, Hr|]. intros q Hq. by rewrite claims_app, claims_cons, (not_claim q r), !app_nil_r by done.
Qed.

(** * The calls of the transaction *)

(** A change of the one record [r] of a policy into [r'] (or nothing). *)
Record moved (j : Journal) (r r' : MutationRecord) (new : Journal) : Prop := {
  mv_next : nextId new = nextId j;
  mv_only : only_of (policy r) (records j) (records new);
  mv_claims : claims (records new) (policy r) = if isActive r' then [r'] else [];
  mv_id : mid r' = mid r;
  mv_policy : policy r' = policy r;
  mv_resource : resource r' = resource r
}.

Lemma claim_kept p r r' : is_claim p r = true → policy r' = policy r → backend (undo r') = backend (undo r) → is_claim p r' = isActive r'.
Proof.
  unfold is_claim. rewrite !andb_true_iff, !bool_decide_eq_true. intros [[_ ->] Hb] -> ->. rewrite Hb, !bool_decide_true by done. by rewrite !andb_true_r.
Qed.

Section calls.
Context `{JsonText} `{JsonStrict} (journal_path : string).

Lemma moved_change j r r' p : Inv j → claims (records j) p = [r] → mid r' = mid r → policy r' = policy r → resource r' = resource r →
  backend (undo r') = backend (undo r) → moved j r r' (change_record (mid r) (λ _, r') j).
Proof.
  intros Hinv Hc Hm Hp Hr Hb. pose proof (claim_inv _ _ _ Hc) as (Hin & Ha & Hpol & Hbk). subst p.
  destruct (first_match_split (has_id (mid r)) (records j) r) as (l1 & l2 & Hl & Hch & _); [rewrite <-find_first; by apply find_unique|].
  assert (is_claim (policy r) r = true) as Hcl by (unfold is_claim; by rewrite Ha, !bool_decide_true by done). rewrite Hl in Hc.
  destruct (claims_replaced l1 l2 r [r'] Hc Hcl) as [H1 H2]; [by constructor|].
  split; try done; cbn [change_record with_records records]; rewrite Hch, ?Hl; [done|]. cbn [app] in H1. rewrite H1, claims_cons, (claim_kept _ r r') by done. cbn. by rewrite app_nil_r.
Qed.

Lemma status_commits clock s j r u p w : Inv j → claims (records j) p = [r] → payload (undo r) = PLoginDefs u →
  commits journal_path false j (λ a new, a = true ∧ ∃ r', moved j r r' new ∧ undo r' = undo r ∧ status r' = s) w (setStatus journal_path clock (mid r) s j w).
Proof.
  intros Hinv Hc Hu. pose proof (claim_inv _ _ _ Hc) as (Hin & _). unfold setStatus, setStatusWithMessage, commits. rewrite (find_unique j r Hinv Hin).
  destruct (_ || _); [by left|]. set (r1 := with_payload _ _). destruct (negb (desktop_ok r1)); [by left|]. destruct (_ && _); [by left|]. destruct (negb (dm_ok r1)); [by left|].
  destruct (negb _); [by left|]. destruct (_ && _); [by left|]. right. right. do 2 eexists. split; [reflexivity|]. split; [done|].
  exists (with_updated (clock 0) (with_error "" r1)). split; [|split; [|done]].
  - by eapply moved_change.
  - unfold r1. cbn. rewrite Hu. rewrite settled_same by (left; done). rewrite <-Hu. by destruct (undo r).
Qed.

Lemma discard_commits j r p w : Inv j → claims (records j) p = [r] →
  commits journal_path false j (λ a new, a = true ∧ nextId new = nextId j ∧ only_of p (records j) (records new) ∧ claims (records new) p = []) w (discard journal_path (mid r) j w).
Proof.
  intros Hinv Hc. pose proof (claim_inv _ _ _ Hc) as (Hin & Ha & Hpol & Hbk). unfold discard, discardImpl, commits. rewrite (find_unique j r Hinv Hin).
  destruct (existsb _ _); [by left|]. destruct (_ || _); [by left|]. destruct (_ && _); [by left|]. right. right. do 2 eexists. split; [reflexivity|]. split; [done|]. split; [done|].
  destruct (first_match_split (has_id (mid r)) (records j) r) as (l1 & l2 & Hl & _ & Hrm); [rewrite <-find_first; by apply find_unique|].
  assert (is_claim (policy r) r = true) as Hcl by (unfold is_claim; by rewrite Ha, !bool_decide_true by done). subst p. rewrite Hl in Hc.
  destruct (claims_replaced l1 l2 r [] Hc Hcl) as [H1 H2]; [by constructor|]. cbn [with_records records]. rewrite Hrm, Hl. by cbn [app] in *.
Qed.

Lemma normalize_commits clock proven j r p w : Inv j → claims (records j) p = [r] →
  commits journal_path false j (λ a new, a = true ∧ ∃ r' u, moved j r r' new ∧ status r' = Prepared ∧ payload (undo r) = PLoginDefs u ∧
      payload (undo r') = PLoginDefs (mkLoginDefs (ld_policyName u) (ld_configPath u) (ld_key u) proven "")) w
    (normalizeIdentityLoginDefsPreparedToProvenState journal_path clock (mid r) proven j w).
Proof.
  intros Hinv Hc. pose proof (claim_inv _ _ _ Hc) as (Hin & _). unfold normalizeIdentityLoginDefsPreparedToProvenState, normalize, commits.
  destruct (_ || _); [by left|]. rewrite (find_unique j r Hinv Hin). cbn [base.mbind option_bind].
  destruct (status r) eqn:Hs; try (by left). destruct (backend (undo r)) eqn:Hb; try (by left).
  destruct (payload (undo r)) as [| | | | | | | | | | | | |u| | | |] eqn:Hu; try (by left). destruct (_ || _); [by left|]. cbv zeta.
  destruct (validateIdentityLoginDefsUndoPayload _); [|by left]. right. right. do 2 eexists. split; [reflexivity|]. split; [done|]. eexists _, u. split; [eapply moved_change; try done|done].
Qed.

(** A new record of the policy, or its record with a new transition. *)
Definition prepares (j : Journal) (record : MutationRecord) (a : option MutationId) (new : Journal) : Prop :=
  ∃ r', a = Some (mid r') ∧ (nextId new = nextId j ∨ nextId new = (nextId j + 1)%Z) ∧ only_of (policy record) (records j) (records new) ∧
    claims (records new) (policy record) = [r'] ∧ status r' = Prepared ∧ undo r' = undo record ∧ policy r' = policy record ∧ resource r' = resource record.

Lemma prepare_commits clock record j w active path key : Inv j → (nextId j + 1 < 2 ^ 64)%Z → backend (undo record) = IdentityLoginDefs →
  owner (records j) (policy record) path key = Some active → resource record = path →
  commits journal_path None j (λ a new, prepares j record a new ∧ ∀ r, active = Some r → refresh_login_defs r record = true) w (prepareMutation journal_path clock record j w).
Proof.
  intros Hinv Hnext Hb Hown Hres. unfold prepareMutation, commits. destruct (admitted j record) as [[]|]; [|by left|by right; left].
  destruct (first_match (refreshes record) (records j)) as [existing|] eqn:Hf.
  - destruct (refresh_allowed existing record) as [[]|] eqn:Hallow; [|by left|by right; left]. right. right. do 2 eexists. split; [reflexivity|].
    destruct (first_match_split _ _ _ Hf) as (l1 & l2 & Hl & Hch & _). destruct (first_match_Some _ _ _ Hf) as (k & Hk & Hex & _).
    apply refreshes_spec in Hex as (Ha & Hp & Hr & Hbk).
    assert (is_claim (policy record) existing = true) as Hcl by (unfold is_claim; rewrite Ha, Hp, Hbk, Hb; by rewrite !bool_decide_true by done).
    assert (claims (records j) (policy record) = [existing] ∧ active = Some existing) as [Hone ->].
    { assert (existing ∈ claims (records j) (policy record)) as Hin.
      { apply list_elem_of_In. unfold claims. apply filter_In. split; [|done]. apply list_elem_of_In. apply list_elem_of_lookup. eauto. }
      unfold owner in Hown. destruct (claims (records j) (policy record)) as [|x [|y c]]; [by apply not_elem_of_nil in Hin| |done].
      apply list_elem_of_singleton in Hin as ->. destruct (owns_route _ _ _ _); [|done]. by injection Hown as <-. }
    rewrite Hl, <-Hp in Hone. rewrite <-Hp in Hcl. set (r' := refreshed (clock 0) (undo record) existing). destruct (claims_replaced l1 l2 existing [r'] Hone Hcl) as [H1 H2]; [by constructor|].
    split.
    + exists r'. split; [done|]. split; [by left|]. cbn [with_records records]. rewrite Hch, Hl, <-Hp. cbn [app] in *. split; [done|]. split; [|done].
      fold r'. rewrite H1, claims_cons. replace (is_claim (policy existing) r') with true; [done|]. unfold is_claim, r'. cbn. rewrite Hb. by rewrite !bool_decide_true by done.
    + intros r [= <-]. unfold refresh_allowed in Hallow. destruct (refresh_sysctl _ _) as [b|]; [|done]. injection Hallow as Hall. rewrite !andb_true_iff in Hall. by destruct Hall as [[[[? ?] ?] ?] ?].
  - right. right. do 2 eexists. split; [reflexivity|]. set (fresh := mkRecord _ _ _ _ _ _ _ _).
    assert (claims (records j) (policy record) = []) as Hnone.
    { destruct (claims (records j) (policy record)) as [|x c] eqn:Hcl; [done|]. unfold owner in Hown. rewrite Hcl in Hown. destruct c; [|done].
      destruct (owns_route (policy record) path key x) eqn:Ho; [|done]. apply owns_route_inv in Ho as (u & _ & _ & Hrx & _).
      pose proof (claim_inv _ _ _ Hcl) as (Hin & Ha & Hp & Hbx). pose proof (first_match_None _ _ Hf x Hin) as Hno.
      assert (refreshes record x = true) as Hyes by (apply refreshes_spec; by rewrite Hbx, Hb, Hrx). congruence. }
    assert (active = None) as ->. { unfold owner in Hown. rewrite Hnone in Hown. by injection Hown as <-. }
    destruct (claims_appended (records j) fresh) as [H1 H2]; [done|unfold is_claim; cbn; rewrite Hb; by rewrite !bool_decide_true by done|].
    split; [|done]. exists fresh. split; [done|]. split; [|by split_and!]. right. cbn. unfold wrap64. rewrite Z.mod_small; [done|]. destruct (inv_next _ Hinv). lia.
Qed.
End calls.
