(* ===== verification/LoginDefsEffective.v ===== *)
(** What the native consumer of login.defs sees in a content with a container,
    and that the values of the enrolled policies can be written. *)

From S2P Require Import Prelude PolicyModel PolicyValue ConfigFile OwnershipGrammar MutationRecord MutationValid TextLines LoginDefsConfig LoginDefsFacts Json JsonRead Journal Machine LoginDefsTransaction LoginDefsOwnership.
Open Scope string_scope.
Open Scope nat_scope.

(** * Words *)

(** A text the consumer reads as one token. *)
Definition word (s : string) : bool :=
  negb (is_empty s) && all_chars (λ c, negb (isspace c)) s && negb (String.prefix "#" s).

Lemma word_inv s : word s = true → s ≠ "" ∧ all_chars (λ c, negb (isspace c)) s = true ∧ String.prefix "#" s = false.
Proof. unfold word. rewrite !andb_true_iff, !negb_true_iff. intros [[H%is_empty_false ?] ?]. done. Qed.

Lemma all_chars_impl (P Q : Ascii.ascii → bool) s : (∀ c, P c = true → Q c = true) → all_chars P s = true → all_chars Q s = true.
Proof. intros HPQ. induction s as [|c s IH]; [done|]. cbn. intros [Hc Hs]%andb_true_iff. rewrite IH, HPQ by done. done. Qed.

Lemma word_free s : word s = true → free_of spaces s = true.
Proof.
  intros (_ & Hs & _)%word_inv. eapply all_chars_impl; [|exact Hs]. intros c Hc. destruct (one_of spaces c) eqn:Ho; [|done].
  unfold one_of in Ho. apply existsb_exists in Ho as (x & Hx & ->%Ascii.eqb_eq). cbn in Hx. by destruct Hx as [<-|[<-|[<-|[<-|[]]]]].
Qed.

Lemma trim_space c : negb (isspace c) = true → trim_char c = false.
Proof. intros Hc. apply not_true_iff_false. intros Ht%trim_char_isspace. by rewrite Ht in Hc. Qed.

Lemma ltrim_word s rest : word s = true → ltrim (s +:+ rest) = s +:+ rest.
Proof.
  intros (Hne & Hs & _)%word_inv. destruct s as [|c s]; [done|]. cbn in Hs. apply andb_true_iff in Hs as [Hc _]. rewrite string_cons_app. cbn. by rewrite trim_space.
Qed.

Lemma token_word s rest : all_chars (λ c, negb (isspace c)) s = true → (rest = "" ∨ ∃ c r, rest = String c r ∧ isspace c = true) →
  token (s +:+ rest) = (s, rest).
Proof.
  intros Hs Hr. induction s as [|c s IH].
  - change ("" +:+ rest) with rest. destruct Hr as [->|(c & r & -> & Hc)]; [done|]. cbn. by rewrite Hc.
  - cbn in Hs. apply andb_true_iff in Hs as [Hc Hs]. rewrite string_cons_app. cbn. apply negb_true_iff in Hc. by rewrite Hc, IH.
Qed.

(** An assignment of two words, as the consumer reads it. *)
Lemma effective_assignment key k v value : word k = true → word v = true →
  effective_line key (k +:+ String " " v) value = Some (if String.eqb k key then Some v else value).
Proof.
  intros Hk Hv. pose proof (word_inv _ Hk) as (Hkne & Hks & Hkh). pose proof (word_inv _ Hv) as (Hvne & Hvs & Hvh). unfold effective_line.
  rewrite (ltrim_word k) by done. destruct k as [|c k]; [done|]. rewrite string_cons_app.
  replace (Ascii.eqb c "#") with false. 2:{ symmetry. cbn in Hkh. destruct (Ascii.eqb_spec c "#") as [->|]; [by destruct k|done]. }
  rewrite <-string_cons_app, (token_word (String c k)); [|done|right; by exists " "%char, v]. cbn [is_empty].
  replace (is_empty (String c k)) with false by done.
  change (ltrim (String " " v)) with (ltrim v). pose proof (ltrim_word v "" Hv) as Hl. rewrite string_app_nil_r in Hl. rewrite Hl.
  pose proof (token_word v "" Hvs (or_introl eq_refl)) as Ht. rewrite string_app_nil_r in Ht. destruct v as [|x v]; [done|]. rewrite Ht. cbn [is_empty ltrim].
  rewrite Hvh. destruct (String.eqb (String c k) key); done.
Qed.

(** * Lines *)

Fixpoint seen (key : string) (l : list string) (value : option string) : option (option string) :=
  match l with [] => Some value | c :: l => match effective_line key (line_of c) value with None => None | Some v => seen key l v end end.

Lemma effective_seen text key : effectiveValue text key = seen key (chunks text) None.
Proof.
  unfold effectiveValue, linesWithOffsets. generalize 0 (@None string). induction (chunks text) as [|c l IH]; intros n v; [done|]. cbn. destruct (effective_line _ _ _); [apply IH|done].
Qed.

Lemma seen_app key l l' value : seen key (l ++ l')%list value = match seen key l value with None => None | Some v => seen key l' v end.
Proof. revert value. induction l as [|c l IH]; intros value; [done|]. cbn. destruct (effective_line _ _ _); [apply IH|done]. Qed.

(** Markers and blank lines say nothing. *)
Lemma effective_hash key s value : effective_line key (String "#" s) value = Some value.
Proof. done. Qed.

Lemma effective_silent key line value : kind_of line ≠ KText → effective_line key line value = Some value.
Proof.
  unfold kind_of. destruct (String.prefix kMarkerIntroducer line) eqn:Hp; cbn [negb].
  - intros _. apply prefix_split in Hp as [r ->]. apply effective_hash.
  - destruct (is_empty line) eqn:He; [|done]. apply String.eqb_eq in He as ->. done.
Qed.

Lemma seen_blank key l value : Forall blank_line l → seen key l value = Some value.
Proof.
  intros Hl. induction Hl as [|c l Hc Hl IH]; [done|]. cbn. unfold blank_line in Hc. rewrite effective_silent by by rewrite Hc. done.
Qed.

Definition plain_block (b : ManagedPolicyBlock) : bool := word (b_key b) && word (b_value b).

Lemma seen_policy key cs b value : is_policy cs b → plain_block b = true → seen key cs value = Some (if String.eqb (b_key b) key then Some (b_value b) else value).
Proof.
  intros (c0 & bd & c1 & -> & _ & _ & H0 & (pre & c & post & -> & Hpre & Hpost & Hk & Ha) & H1) [Hkw Hvw]%andb_true_iff. cbn [seen].
  rewrite effective_silent by by rewrite H0. rewrite seen_app, seen_app, seen_blank by done. cbn [seen].
  unfold parseCanonicalAssignment in Ha. destruct (cut " " (line_of c)) as [[k v]|] eqn:Hc; [|done]. destruct (_ || _); [done|]. injection Ha as Hk1 Hv1.
  apply cut_spec in Hc as [-> _]. rewrite Hk1, Hv1. rewrite effective_assignment by done. rewrite seen_blank by done. by rewrite effective_silent by by rewrite H1.
Qed.

(** The last sub-block of the key wins. *)
Fixpoint last_of (key : string) (bs : list ManagedPolicyBlock) (value : option string) : option string :=
  match bs with [] => value | b :: bs => last_of key bs (if String.eqb (b_key b) key then Some (b_value b) else value) end.

Lemma seen_blocks key bs value : Forall block_text bs → forallb plain_block bs = true →
  seen key (concat ((λ b, chunks (b_raw b)) <$> bs)) value = Some (last_of key bs value).
Proof.
  intros Hbs. revert value. induction Hbs as [|b bs Hb Hbs IH]; intros value Hp; [done|]. csimpl. cbn in Hp. apply andb_true_iff in Hp as [Hpb Hp].
  rewrite seen_app, (seen_policy key _ b) by done. by apply IH.
Qed.

Lemma effective_compose key foreign bs : closed foreign = true → Forall block_text bs → forallb plain_block bs = true →
  effectiveValue (foreign +:+ serializeContainer bs) key =
    match effectiveValue foreign key with None => None | Some v => Some (last_of key bs v) end.
Proof.
  intros Hc Hbs Hp. rewrite !effective_seen, chunks_app by done. destruct (serialize_lines bs Hbs) as [_ ->]. rewrite seen_app. destruct (seen key (chunks foreign) None) as [v|]; [|done].
  cbn [seen]. rewrite effective_silent by done. rewrite seen_app, seen_blocks by done. cbn [seen]. by rewrite effective_silent by done.
Qed.

Lemma last_of_absent key bs value : key ∉ b_key <$> bs → last_of key bs value = value.
Proof.
  revert value. induction bs as [|b bs IH]; intros value; [done|]. csimpl. intros [Hb Hbs]%not_elem_of_cons. destruct (String.eqb_spec (b_key b) key); [congruence|]. by apply IH.
Qed.

Lemma last_of_present b bs value : b ∈ bs → NoDup (b_key <$> bs) → last_of (b_key b) bs value = Some (b_value b).
Proof.
  revert value. induction bs as [|x bs IH]; intros value Hin; [by apply not_elem_of_nil in Hin|]. csimpl. intros [Hx Hnd]%NoDup_cons. apply elem_of_cons in Hin as [->|Hin].
  - rewrite String.eqb_refl. by apply last_of_absent.
  - by apply IH.
Qed.

(** * Values of enrolled policies *)

Definition numeral (c : Ascii.ascii) : bool := isdigit c || Ascii.eqb c "-".

Lemma digit_char_digit z : isdigit (digit_char (z mod 10)) = true.
Proof.
  pose proof (Z.mod_pos_bound z 10 ltac:(lia)) as Hb. generalize dependent (z mod 10)%Z. intros d Hd.
  assert (d = 0 ∨ d = 1 ∨ d = 2 ∨ d = 3 ∨ d = 4 ∨ d = 5 ∨ d = 6 ∨ d = 7 ∨ d = 8 ∨ d = 9)%Z as Hall by lia.
  by decompose [or] Hall; subst.
Qed.

Lemma print_digits_numeral fuel z acc : all_chars isdigit acc = true → all_chars isdigit (print_digits fuel z acc) = true.
Proof.
  revert z acc. induction fuel as [|fuel IH]; intros z acc Hacc; [done|]. cbn [print_digits].
  assert (all_chars isdigit (String (digit_char (z mod 10)) acc) = true) as Hstep by (cbn [all_chars]; by rewrite digit_char_digit).
  destruct (z <? 10)%Z; [done|]. by apply IH.
Qed.

Lemma to_string_numeral z : all_chars numeral (to_string z) = true.
Proof.
  assert (∀ s, all_chars isdigit s = true → all_chars numeral s = true) as Hd.
  { intros s. apply all_chars_impl. intros c Hc. unfold numeral. by rewrite Hc. }
  unfold to_string. destruct (z <? 0)%Z; cbn [all_chars]; rewrite Hd; try done; by apply print_digits_numeral.
Qed.

Lemma numeral_word s : s ≠ "" → all_chars numeral s = true → word s = true.
Proof.
  intros Hne Hs. unfold word. apply is_empty_false in Hne as Hne'. rewrite Hne'. cbn [negb andb].
  assert (∀ c, numeral c = true → negb (isspace c) = true ∧ Ascii.eqb c "#" = false) as Hc.
  { intros c. unfold numeral, isdigit, char_in, isspace. rewrite orb_true_iff, andb_true_iff, !N.leb_le. destruct (Ascii.eqb_spec c "#") as [->|Hh].
    { intros [[Hx _]|Hx]; [by vm_compute in Hx|done]. }
    intros [[Hx Hy]|Hx%Ascii.eqb_eq]; [|by subst]. change (Ascii.N_of_ascii "0") with 48%N in Hx. change (Ascii.N_of_ascii "9") with 57%N in Hy. split; [|done].
    apply negb_true_iff. rewrite orb_false_iff, andb_false_iff, N.eqb_neq, !N.leb_gt. lia. }
  rewrite (all_chars_impl numeral) by (try done; intros c Hn; by destruct (Hc c Hn)). cbn [andb].
  destruct s as [|c s]; [done|]. cbn in Hs. apply andb_true_iff in Hs as [Hn _]. destruct (Hc c Hn) as [_ Hh]. unfold String.prefix. destruct (Ascii.ascii_dec "#" c) as [He|]; [subst c; by vm_compute in Hh|done].
Qed.

Lemma valid_value_word p value : validatePolicyValue p value = true → word value = true.
Proof.
  unfold validatePolicyValue. destruct (policySpec p) as [x|]; [|done]. unfold validateSharedLoginDefsPolicyValue. destruct (findSharedLoginDefsPolicySpec _) as [spec|]; [|done].
  assert (∀ z, String.eqb value (to_string z) = true → is_empty value = false → word value = true) as Hnum.
  { intros z ->%String.eqb_eq He%is_empty_false. apply numeral_word; [done|apply to_string_numeral]. }
  destruct (spec_domain spec).
  - rewrite orb_true_iff, !String.eqb_eq. by intros [->| ->].
  - unfold parseCanonicalSignedLong. destruct (is_empty value) eqn:He; [done|]. destruct (strtol value) as [z []| |]; try done. rewrite !andb_true_iff. intros [_ ?]. eauto.
  - unfold parseCanonicalSignedLong. destruct (is_empty value) eqn:He; [done|]. destruct (strtol value) as [z []| |]; try done. rewrite !andb_true_iff. intros [_ ?]. eauto.
  - unfold parseCanonicalUid. destruct value as [|c v]; [done|]. destruct (_ || _); [done|]. destruct (strtoull _) as [z []| |]; try done. rewrite andb_true_iff. intros [_ ?]. by eapply Hnum.
Qed.

Definition spec_ref (spec : SharedLoginDefsPolicySpec) : string := ref_text (mkRef "IDENTITY_ACCESS" (spec_submodule spec) (spec_policyName spec)).

Lemma kSpecs_writable : forallb (λ spec, word (spec_key spec) && negb (is_empty (spec_ref spec)) && free_of (spaces ++ ["="%char; "@"%char]) (spec_ref spec) &&
  negb (String.prefix kMarkerIntroducer (spec_key spec))) kSpecs = true.
Proof. by vm_compute. Qed.

Lemma enrolled_writable p spec value : policySpec p = Some spec → word value = true →
  writable_block (ref_text p) (spec_key spec) value = true ∧ word (spec_key spec) = true.
Proof.
  intros [-> Hin]%policySpec_inv Hv. pose proof kSpecs_writable as Hall. rewrite forallb_forall in Hall. apply list_elem_of_In in Hin. specialize (Hall spec Hin).
  rewrite !andb_true_iff in Hall. destruct Hall as [[[Hk Hr] Hf] Hm]. fold (spec_ref spec). unfold writable_block. rewrite Hr, Hf, Hm, (word_free _ Hk), (word_free _ Hv). cbn [andb].
  apply word_inv in Hv as (Hv & _ & Hvh). rewrite Hvh. apply is_empty_false in Hv. rewrite Hv. split; [|done]. apply word_inv in Hk as (Hk & _). apply is_empty_false in Hk. by rewrite Hk.
Qed.

(** The key names the policy. *)
Lemma kSpecs_keys : NoDup (spec_key <$> kSpecs).
Proof. apply (bool_decide_unpack _). by vm_compute. Qed.
