(* ===== verification/LoginDefsSafety.v ===== *)
(** The transaction on login.defs keeps every sub-block proven: whichever calls
    fail, and whatever crash follows, the journal on disk accounts for the
    sub-blocks on disk. *)

From S2P Require Import Prelude PolicyModel PolicyValue ConfigFile FileModel AtomicWriter AtomicFacts Json JsonRead StateStore TargetStore OwnershipGrammar MutationRecord MutationValid MutationCodec CodecFacts CodecText Journal JournalFacts JournalSteps JournalOwnership JournalDisk Contents TextLines LoginDefsConfig LoginDefsFacts Machine LoginDefsTransaction LoginDefsOwnership LoginDefsEffective.
Open Scope string_scope.
Open Scope nat_scope.
Open Scope machine_scope.

Lemma coherent_view l path text foreign bs : view text = Some (foreign, bs) → coherent l path text ↔ forallb (proves l path) bs = true.
Proof. unfold view, coherent. destruct (parseManagedConfig text) as [m|]; [|done]. cbn. intros [= _ <-]. naive_solver. Qed.

Lemma find_block ref bs b : NoDup (refs bs) → b ∈ bs → b_policyRef b = ref → List.find (λ b, String.eqb (b_policyRef b) ref) bs = Some b.
Proof.
  unfold refs. induction bs as [|x bs IH]; [by intros _ ?%not_elem_of_nil|]. csimpl. intros [Hx Hnd]%NoDup_cons Hin Hb. destruct (String.eqb_spec (b_policyRef x) ref) as [He|Hne].
  - apply elem_of_cons in Hin as [->|Hin]; [done|]. exfalso. apply Hx. rewrite He, <-Hb. by apply list_elem_of_fmap_2.
  - apply elem_of_cons in Hin as [->|Hin]; [done|]. by apply IH.
Qed.

Lemma find_block_inv ref bs b : List.find (λ b, String.eqb (b_policyRef b) ref) bs = Some b → b ∈ bs ∧ b_policyRef b = ref.
Proof. intros [Hin He%String.eqb_eq]%find_some. split; [by apply list_elem_of_In|done]. Qed.

(** What the editor leaves in the container. *)
Lemma put_inv b b' bs : b' ∈ put b bs → b' = b ∨ b' ∈ bs ∧ b_policyRef b' ≠ b_policyRef b.
Proof.
  unfold put. destruct (existsb _ _) eqn:Hex.
  - intros (x & -> & Hx)%list_elem_of_fmap. destruct (String.eqb_spec (b_policyRef x) (b_policyRef b)); [by left|by right].
  - apply existsb_ref_false in Hex. intros [Hin|Hin%list_elem_of_singleton]%elem_of_app; [|by left]. right. split; [done|]. intros He. apply Hex. rewrite <-He. by apply list_elem_of_fmap_2.
Qed.

Lemma drop_put b bs : drop (b_policyRef b) (put b bs) = drop (b_policyRef b) bs.
Proof.
  unfold put, drop. destruct (existsb _ _) eqn:Hex.
  - clear Hex. induction bs as [|x bs IH]; [done|]. csimpl. destruct (String.eqb_spec (b_policyRef x) (b_policyRef b)) as [He|Hne].
    + rewrite !filter_cons, He, String.eqb_refl. done.
    + apply String.eqb_neq in Hne. rewrite !filter_cons, Hne. cbn. by rewrite IH.
  - rewrite filter_app, filter_cons, filter_nil, String.eqb_refl. apply app_nil_r.
Qed.

Lemma drop_twice ref bs : drop ref (drop ref bs) = drop ref bs.
Proof. by apply list_filter_filter_l. Qed.

Section safety.
Context `{JsonText} `{JsonStrict} `{!JsonTextLaws} (journal_path path : string).
Hypothesis journal_visible : visible journal_path.
Hypothesis path_visible : visible path.
Context (clock : nat → nat → Z) (semantics : MissingKeySemantics).
Hypothesis clock_ok : ∀ t, clocked (clock t).

Notation stands := (stands journal_path path).

Section policy.
Context (p : PolicyRef) (spec : SharedLoginDefsPolicySpec).
Hypothesis enrolled : policySpec p = Some spec.
Hypothesis path_given : path ≠ "".
Notation key := (spec_key spec).
Notation ref := (ref_text p).
Notation route := (mkRoute (ref_text p) (spec_key spec) path).

Lemma the_route : policyRoute path p = Some route.
Proof. unfold policyRoute. rewrite enrolled. cbn. apply is_empty_false in path_given. by rewrite path_given. Qed.

(** A record of the policy with its two lines. *)
Record line_record (r : MutationRecord) (applied previous : string) (s : MutationStatus) : Prop := {
  lr_policy : policy r = p;
  lr_resource : resource r = path;
  lr_payload : payload (undo r) = PLoginDefs (mkLoginDefs (policyName p) path key applied previous);
  lr_status : status r = s
}.

Lemma line_record_owns r a b s : line_record r a b s → owns_route p path key r = true.
Proof. intros [_ Hr Hp _]. unfold owns_route, login_defs_payload. rewrite Hr, Hp. cbn. by rewrite !String.eqb_refl. Qed.

Lemma line_record_owner l r a b s : claims l p = [r] → line_record r a b s → owner l p path key = Some (Some r).
Proof. intros Hc Hr. unfold owner. by rewrite Hc, (line_record_owns r a b s). Qed.

Lemma owner_line_record l r : owner l p path key = Some (Some r) → claims l p = [r] ∧ ∃ u, payload (undo r) = PLoginDefs u ∧ login_defs_payload r = Some u ∧
  line_record r (ld_appliedLine u) (ld_previousAppliedLine u) (status r).
Proof.
  intros [Hc Ho]%owner_Some. split; [done|]. apply owns_route_inv in Ho as (u & Hl & Hp & Hr & Hcp & Hk & Hn). exists u. split; [done|]. split; [done|].
  pose proof (claim_inv _ _ _ Hc) as (_ & _ & Hpol & _). split; [done|done| |done]. rewrite Hp. destruct u. simpl in *. by subst.
Qed.

Lemma proves_line l r a b s blk : claims l p = [r] → line_record r a b s → b_policyRef blk = ref →
  proves l path blk = String.eqb (body blk) a || (bool_decide (s = Prepared) && negb (is_empty b) && String.eqb (body blk) b).
Proof.
  intros Hc Hr Hb. rewrite (proves_own l path blk p route the_route Hb). cbn [route_key]. rewrite (line_record_owner l r a b s Hc Hr).
  destruct Hr as [_ _ Hp Hs]. unfold proven_body, login_defs_payload. by rewrite Hp, Hs.
Qed.

(** * The contents of one run *)

(** The foreign text and the sub-blocks of the other policies are these. *)
Definition kept (foreign : string) (peers : list ManagedPolicyBlock) (s : string) : Prop :=
  ∃ bs', view s = Some (foreign, bs') ∧ drop ref bs' = peers.

(** Whatever a crash leaves: every sub-block is proven by the journal, and only
    the sub-block of the policy differs. *)
Definition sound_for (foreign : string) (peers : list ManagedPolicyBlock) (l : list MutationRecord) (s : string) : Prop :=
  coherent l path s ∧ kept foreign peers s.
Definition safe_for (foreign : string) (peers : list ManagedPolicyBlock) (M : Machine) : Prop :=
  ∃ j R S, stands M j R S ∧ ∀ l s, R l → S s → sound_for foreign peers l s.

(** The line is on disk and recorded as applied, with nothing left to settle. *)
Definition settled_for (foreign : string) (peers : list ManagedPolicyBlock) (v text : string) (n : Z) (M : Machine) : Prop := ∃ j r b,
  stands M j (λ l, l = records j) (λ s, s = text) ∧ Inv j ∧ nextId j = n ∧ claims (records j) p = [r] ∧ line_record r (key +:+ " " +:+ v) b Applied ∧
  sound_for foreign peers (records j) text.

(** And the consumer sees the value. *)
Definition achieved_for (foreign : string) (peers : list ManagedPolicyBlock) (v text : string) (M : Machine) : Prop :=
  verified text p key (key +:+ " " +:+ v) v semantics = true ∧ ∃ n, settled_for foreign peers v text n M.

Section run.
Context (text0 foreign : string) (bs : list ManagedPolicyBlock).
Hypothesis seen0 : view text0 = Some (foreign, bs).
Notation sound := (sound_for foreign (drop (ref_text p) bs)).
Notation safe := (safe_for foreign (drop (ref_text p) bs)).
Notation settled := (settled_for foreign (drop (ref_text p) bs)).
Notation achieved := (achieved_for foreign (drop (ref_text p) bs)).
Notation blk := (List.find (λ b, String.eqb (b_policyRef b) (ref_text p)) bs).
Notation candidate v := (foreign +:+ serializeContainer (put (canonical (ref_text p) (spec_key spec) v) bs)).

Definition others (l : list MutationRecord) : Prop := ∀ b, b ∈ bs → b_policyRef b ≠ ref → proves l path b = true.

Lemma others_step l l' : only_of p l l' → others l → others l'.
Proof. intros Ho Hl b Hb Hne. rewrite (proves_other p l l') by done. by apply Hl. Qed.

Lemma sound0 l : others l → (∀ b, blk = Some b → proves l path b = true) → sound l text0.
Proof.
  intros Ho Hb. split; [|by exists bs]. apply (coherent_view _ _ _ _ _ seen0). apply forallb_forall. intros b Hin%list_elem_of_In. destruct (view_elim _ _ _ seen0) as (_ & _ & Hnd).
  destruct (String.eqb_spec (b_policyRef b) ref) as [He|]; [|by apply Ho]. apply Hb. by apply find_block.
Qed.

Lemma sound0_inv l : forallb (proves l path) bs = true → others l ∧ ∀ b, blk = Some b → proves l path b = true.
Proof. rewrite forallb_forall. intros Hl. split; [intros b Hb _; by apply Hl, list_elem_of_In|]. intros b [Hb _]%find_block_inv. by apply Hl, list_elem_of_In. Qed.

Lemma candidate_view v : word v = true → closed foreign = true → view (candidate v) = Some (foreign, put (canonical ref key v) bs).
Proof.
  intros Hv Hc. destruct (view_elim _ _ _ seen0) as (Hf & Hbs & Hnd). destruct (enrolled_writable _ _ _ enrolled Hv) as [Hw _].
  destruct (put_ok (canonical ref key v) bs) as [Hp1 Hp2]; [by apply canonical_block|done|done|]. by apply assembled.
Qed.

Lemma sound_candidate l v : word v = true → closed foreign = true → others l → proves l path (canonical ref key v) = true → sound l (candidate v).
Proof.
  intros Hv Hc Ho Hp. split; [|exists (put (canonical ref key v) bs); split; [by apply candidate_view|by apply (drop_put (canonical ref key v))]]. apply (coherent_view _ _ _ _ _ (candidate_view v Hv Hc)). apply forallb_forall. intros b Hin%list_elem_of_In.
  apply put_inv in Hin as [->|[Hin Hne]]; [done|]. by apply Ho.
Qed.

(** * Calls on the journal *)

Lemma moved_line j r r' new a b s a' b' s' : line_record r a b s → moved j r r' new → payload (undo r') = PLoginDefs (mkLoginDefs (policyName p) path key a' b') → status r' = s' →
  line_record r' a' b' s'.
Proof. intros [Hp Hr _ _] [_ _ _ _ Hp' Hr'] Hpl Hs. split; [congruence|congruence|done|done]. Qed.

Lemma status_call M j r a b s s' S : stands M j (λ l, l = records j) S → Inv j → claims (records j) p = [r] → line_record r a b s → s' = Applied ∨ s' = RolledBack →
  ∃ res M', t_status journal_path clock (mid r) s' M = (res, M') ∧ m_etc M' = m_etc M ∧
    ends journal_path path id j (λ x new, x = true ∧ ∃ r', moved j r r' new ∧ line_record r' a b s') S res M'.
Proof.
  intros Hst Hinv Hc Hr Hs. pose proof (claim_inv _ _ _ Hc) as (Hin & Ha & Hpol & _). destruct (journal_call journal_path path journal_visible id false clock (λ c, setStatus journal_path c (mid r) s') j
    (λ x new, x = true ∧ ∃ r', moved j r r' new ∧ line_record r' a b s') M S) as (res & M' & ? & ? & ?).
  - pose proof (status_commits journal_path (clock (m_time M)) s' j r _ p (m_state M) Hinv Hc (lr_payload _ _ _ _ Hr)) as Hcm.
    destruct Hcm as [?|[?|(x & new & ? & -> & r' & Hm & Hu & Hss)]]; [by left|by right; left|]. right. right. exists true, new. split; [done|]. split; [done|]. exists r'. split; [done|].
    eapply moved_line; [done|done| |done]. rewrite Hu. apply Hr.
  - destruct (setStatus_Inv journal_path (clock (m_time M)) (clock_ok _) (mid r) s' "" j (m_state M) Hinv) as [? _]; [|done]. intros x Hx. rewrite (find_unique j r Hinv Hin) in Hx. injection Hx as <-.
    split; [by rewrite Ha|]. by destruct Hs as [-> | ->].
  - done.
  - by intros x new [-> _].
  - done.
  - exists res, M'. auto.
Qed.

Lemma discard_call M j r S : stands M j (λ l, l = records j) S → Inv j → claims (records j) p = [r] →
  ∃ res M', t_discard journal_path clock (mid r) M = (res, M') ∧ m_etc M' = m_etc M ∧
    ends journal_path path id j (λ x new, x = true ∧ nextId new = nextId j ∧ only_of p (records j) (records new) ∧ claims (records new) p = []) S res M'.
Proof.
  intros Hst Hinv Hc. destruct (journal_call journal_path path journal_visible id false clock (λ _, discard journal_path (mid r)) j
    (λ x new, x = true ∧ nextId new = nextId j ∧ only_of p (records j) (records new) ∧ claims (records new) p = []) M S) as (res & M' & ? & ? & ?).
  - by apply discard_commits.
  - by destruct (discard_Inv journal_path (mid r) false j (m_state M) Hinv).
  - done.
  - by intros x new [-> _].
  - done.
  - exists res, M'. auto.
Qed.

Lemma normalize_call M j r a b s proven S : stands M j (λ l, l = records j) S → Inv j → claims (records j) p = [r] → line_record r a b s →
  ∃ res M', t_normalize journal_path clock (mid r) proven M = (res, M') ∧ m_etc M' = m_etc M ∧
    ends journal_path path id j (λ x new, x = true ∧ ∃ r', moved j r r' new ∧ line_record r' proven "" Prepared) S res M'.
Proof.
  intros Hst Hinv Hc Hr. destruct (journal_call journal_path path journal_visible id false clock (λ c, normalizeIdentityLoginDefsPreparedToProvenState journal_path c (mid r) proven) j
    (λ x new, x = true ∧ ∃ r', moved j r r' new ∧ line_record r' proven "" Prepared) M S) as (res & M' & ? & ? & ?).
  - pose proof (normalize_commits journal_path (clock (m_time M)) proven j r p (m_state M) Hinv Hc) as Hcm.
    destruct Hcm as [?|[?|(x & new & ? & -> & r' & u & Hm & Hss & Hu & Hu')]]; [by left|by right; left|]. right. right. exists true, new. split; [done|]. split; [done|]. exists r'. split; [done|].
    eapply moved_line; [done|done| |done]. rewrite Hu'. pose proof (lr_payload _ _ _ _ Hr) as Hp. rewrite Hu in Hp. by injection Hp as ->.
  - by destruct (normalizeIdentityLoginDefs_Inv journal_path (clock (m_time M)) (clock_ok _) (mid r) proven j (m_state M) Hinv).
  - done.
  - by intros x new [-> _].
  - done.
  - exists res, M'. auto.
Qed.

Lemma prepare_call M j target previous active S : stands M j (λ l, l = records j) S → Inv j → (nextId j + 1 < 2 ^ 64)%Z → owner (records j) p path key = Some active →
  let record := makeRecord path p key target previous in
  ∃ res M', t_prepare journal_path clock record M = (res, M') ∧ m_etc M' = m_etc M ∧
    ends journal_path path is_some j (λ x new, (∃ r', x = Some (mid r') ∧ (nextId new = nextId j ∨ nextId new = (nextId j + 1)%Z) ∧ only_of p (records j) (records new) ∧
      claims (records new) p = [r'] ∧ line_record r' target previous Prepared) ∧ ∀ r, active = Some r → refresh_login_defs r record = true) S res M'.
Proof.
  intros Hst Hinv Hn Ho record. eapply (journal_call journal_path path journal_visible is_some None clock (λ c, prepareMutation journal_path c record) j) in Hst as (res & M' & ? & ? & ?).
  - exists res, M'. split; [done|]. split; [done|eassumption].
  - pose proof (prepare_commits journal_path (clock (m_time M)) record j (m_state M) active path key Hinv Hn eq_refl Ho eq_refl) as Hcm.
    destruct Hcm as [?|[?|(x & new & ? & (r' & -> & Hnx & Hon & Hcl & Hs & Hu & Hp & Hr) & Hf)]]; [by left|by right; left|]. right. right. eexists _, new. split; [done|]. split; [|done].
    exists r'. split_and!; try done. split; [done|done| |done]. by rewrite Hu.
  - by destruct (prepareMutation_Inv journal_path (clock (m_time M)) record j (m_state M) (clock_ok _) Hinv Hn) as [? _].
  - done.
  - by intros x new [(r' & -> & _) _].
Qed.

(** * Calls on the file *)

Lemma install_call M j R S before text : stands M j R S →
  ∃ ok w M', on_etc (install path before text) M = (Returned (ok, w), M') ∧ stands M' j R (λ s, ok = false ∧ S s ∨ installed w = true ∧ s = text) ∧
    (installed w = true → ∃ st, installedTargetState w = Some st) ∧ (ok = true → installed w = true ∧ holds (w_disk (m_etc M')) path text).
Proof.
  intros Hst. destruct (etc_step journal_path path (install path before text) M j R S
    (λ r d', wf d' ∧ contents d' path (λ s, r.1 = false ∧ S s ∨ installed r.2 = true ∧ s = text) ∧ (installed r.2 = true → ∃ st, installedTargetState r.2 = Some st) ∧
             (r.1 = true → installed r.2 = true ∧ holds d' path text))
    (λ r s, r.1 = false ∧ S s ∨ installed r.2 = true ∧ s = text) Hst) as ([ok w] & M' & He & (_ & _ & Hs & Hd) & Hst' & _).
  - destruct Hst as [[_ _ _ Hw] _ _ Hc]. unfold install. eapply runs_bind; [by apply write_runs|]. intros r d' Hpost.
    destruct (write_contents _ _ _ _ (login_defs_options before) _ _ Hw path_visible eq_refl Hc Hpost) as (Hw' & Hc' & Hh). apply runs_ret. cbn [fst snd]. unfold write_post in Hpost. split; [done|].
    destruct (installed r.2) eqn:Hi.
    + destruct Hpost as (-> & (fd & k & _ & _ & Hst') & _). rewrite andb_diag. split; [exact Hc'|]. split; [eauto|]. intros Hd. auto.
    + destruct Hpost as (-> & Hd & _). split; [|done]. eapply contents_mono; [exact Hc'|]. naive_solver.
  - intros [ok w] d'. naive_solver.
  - exists ok, w, M'. auto.
Qed.

Lemma compensate_call M j R S w before : stands M j R S →
  ∃ b M', on_etc (compensate path w before) M = (Returned b, M') ∧
    stands M' j R (λ s, (b = false ∨ installed w = false ∨ installedTargetState w = None) ∧ S s ∨ s = content before).
Proof.
  intros Hst. destruct (etc_step journal_path path (compensate path w before) M j R S
    (λ b d', wf d' ∧ contents d' path (λ s, (b = false ∨ installed w = false ∨ installedTargetState w = None) ∧ S s ∨ s = content before))
    (λ b s, (b = false ∨ installed w = false ∨ installedTargetState w = None) ∧ S s ∨ s = content before) Hst) as (b & M' & He & _ & Hst' & _); [|auto|eauto].
  destruct Hst as [[_ _ _ Hw] _ _ Hc]. unfold compensate. assert (∀ x : bool, (installed w = false ∨ installedTargetState w = None) →
    runs (mret x) (w_disk (m_etc M)) (λ b d', wf d' ∧ contents d' path (λ s, (b = false ∨ installed w = false ∨ installedTargetState w = None) ∧ S s ∨ s = content before))) as Hnone.
  { intros x Hn. apply runs_ret. split; [done|]. eapply contents_mono; [exact Hc|]. auto. }
  destruct (installed w) eqn:Hi; [|by apply Hnone; left]. destruct (installedTargetState w) as [state|]; [|by apply Hnone; right].
  eapply runs_bind; [by apply write_runs|]. intros r d' Hpost. destruct (write_contents _ _ _ _ (login_defs_options state) _ _ Hw path_visible eq_refl Hc Hpost) as (Hw' & Hc' & _). apply runs_ret. split; [done|].
  unfold write_post in Hpost. eapply contents_mono; [exact Hc'|]. intros s [[Hd HS]|[_ ->]]; [|by right]. left. split; [|done]. left. by rewrite Hd, andb_false_r.
Qed.

Lemma looks_verify line value expected : looks (verify path p key line value semantics expected) (λ d b, b = true → ∃ s, object_at d path s ∧ verified (content s) p key line value semantics = true).
Proof.
  intros d. unfold verify, targetStateMatches. eapply runs_bind_looks; [apply looks_matches_target|]. intros [] _; cbn [negb]; [|by apply runs_ret].
  eapply runs_bind_looks; [apply looks_capture|]. intros [current|] Hc; [|by apply runs_ret]. apply runs_ret. split; [done|]. eauto.
Qed.

Lemma verify_call M j R S line value expected : stands M j R S →
  ∃ b M', on_etc (verify path p key line value semantics expected) M = (Returned b, M') ∧ stands M' j R S ∧ (b = true → ∃ s, S s ∧ verified s p key line value semantics = true).
Proof.
  intros Hst. destruct (etc_look journal_path path _ M j R S _ Hst (looks_verify line value expected)) as (b & M' & He & Hb & _ & Hst' & _). exists b, M'. split; [done|]. split; [done|].
  intros Ht. destruct (Hb Ht) as (s & Ho & Hv). exists (content s). split; [|done]. destruct Hst as [_ _ _ Hc]. by eapply contents_object.
Qed.

(** * After a failed write *)

Lemma safe_intro M j R S : stands M j R S → (∀ l s, R l → S s → sound l s) → safe M.
Proof. intros ??. by exists j, R, S. Qed.

(** However the call ended: the records before and after it are all that the
    journal can hold. *)
Lemma ends_safe {A} (ok : A → bool) j (P : A → Journal → Prop) (S : string → Prop) res M : ends journal_path path ok j P S res M →
  (∀ s, S s → sound (records j) s) → (∀ a new s, P a new → S s → sound (records new) s) → safe M.
Proof.
  intros [a new M' _ HP _ Hst|a M' _ Hst|a a' new M' _ HP Hst|j' M' Hst] Hj Hn; (eapply safe_intro; [exact Hst|]); cbn; intros l s Hl Hs; [| |destruct Hl|]; subst; eauto.
Qed.

(** What the previous line stands for: no sub-block, or the body of the one there. *)
Definition previous_ok (previous : string) : Prop := (previous = "" ∧ blk = None) ∨ (previous ≠ "" ∧ ∃ b, blk = Some b ∧ body b = previous).

Lemma previous_proven l r a previous : claims l p = [r] → line_record r a previous Prepared → previous_ok previous → ∀ b, blk = Some b → proves l path b = true.
Proof.
  intros Hc Hr [[_ Hb]|(Hne & b' & Hb & Hbody)] b Hb'; [congruence|]. assert (b' = b) as -> by congruence. apply find_block_inv in Hb as [_ Hb].
  rewrite (proves_line l r a previous Prepared b Hc Hr Hb), Hbody, String.eqb_refl. apply is_empty_false in Hne. rewrite Hne, bool_decide_true by done. by rewrite orb_true_r.
Qed.

Lemma applied_proven l r a b' s : claims l p = [r] → line_record r a b' s → ∀ b, blk = Some b → body b = a → proves l path b = true.
Proof. intros Hc Hr b Hb Hbody. apply find_block_inv in Hb as [_ Hb]. rewrite (proves_line l r a b' s b Hc Hr Hb), Hbody, String.eqb_refl. done. Qed.

Lemma forget_safe M j r target previous : stands M j (λ l, l = records j) (λ s, s = text0) → Inv j → claims (records j) p = [r] → line_record r target previous Prepared →
  previous_ok previous → others (records j) → ∃ res M', forget_attempt journal_path clock (mid r) previous M = (res, M') ∧ safe M'.
Proof.
  intros Hst Hinv Hc Hr Hprev Hoth. assert (sound (records j) text0) as Hj by (apply sound0; [done|by eapply previous_proven]).
  unfold forget_attempt, tbind. destruct Hprev as [[-> Hnone]|(Hne & b & Hb & Hbody)].
  - cbn [is_empty String.eqb]. destruct (discard_call M j r _ Hst Hinv Hc) as (res & M' & He & _ & Hend). rewrite He.
    assert (safe M') as Hsafe. { eapply ends_safe; [exact Hend|by intros s ->|]. intros a new s (_ & _ & Hon & _) ->. apply sound0; [by eapply others_step|]. intros b Hb. congruence. }
    destruct res; eauto.
  - assert (∀ b', blk = Some b' → body b' = previous) as Hline by congruence. clear b Hb Hbody. apply is_empty_false in Hne. rewrite Hne. destruct (normalize_call M j r target previous Prepared previous _ Hst Hinv Hc Hr) as (res & M' & He & _ & Hend). rewrite He.
    assert (∀ new r', moved j r r' new → line_record r' previous "" Prepared → others (records new) ∧ claims (records new) p = [r']) as Hnew.
    { intros new r' Hm Hr'. pose proof (lr_policy _ _ _ _ Hr) as Hp. destruct Hm as [_ Hon Hcl _ _ _]. rewrite Hp in Hon, Hcl. split; [by eapply others_step|].
      rewrite Hcl. destruct Hr' as [_ _ _ Hs]. unfold isActive. by rewrite Hs. }
    inversion Hend as [a new M'' Hok (-> & r' & Hm & Hr') Hinv' Hst'|a M'' Hok Hst'|a a' new M'' Hok (_ & r' & Hm & Hr') Hst'|j' M'' Hst']; subst.
    + destruct (Hnew _ _ Hm Hr') as [Hoth' Hcl']. rewrite <-(mv_id _ _ _ _ Hm). destruct (status_call M' new r' previous "" Prepared Applied _ Hst' Hinv' Hcl' Hr') as (res2 & M2 & He2 & _ & Hend2); [by left|].
      rewrite He2. assert (safe M2) as Hsafe; [|destruct res2; eauto]. eapply ends_safe; [exact Hend2| |].
      * intros s ->. apply sound0; [done|]. intros b' Hb'. eapply applied_proven; [done|done|done|by apply Hline].
      * intros a2 new2 s (_ & r2 & Hm2 & Hr2) ->. pose proof (lr_policy _ _ _ _ Hr') as Hp. destruct Hm2 as [_ Hon2 Hcl2 _ _ _]. rewrite Hp in Hon2, Hcl2.
        apply sound0; [by eapply others_step|]. intros b' Hb'. eapply applied_proven; [|done|done|by apply Hline]. rewrite Hcl2. destruct Hr2 as [_ _ _ Hs2]. unfold isActive. by rewrite Hs2.
    + unfold id in Hok. subst a. eexists _, _. split; [reflexivity|]. eapply safe_intro; [exact Hst'|]. by intros l s -> ->.
    + unfold id in Hok. subst a. eexists _, _. split; [reflexivity|]. eapply safe_intro; [exact Hst'|]. intros l s [-> | ->] ->; [done|].
      destruct (Hnew _ _ Hm Hr') as [Hoth' Hcl']. apply sound0; [done|]. intros b' Hb'. eapply applied_proven; [done|done|done|by apply Hline].
    + eexists _, _. split; [reflexivity|]. eapply safe_intro; [exact Hst'|]. by intros l s -> ->.
Qed.

(** * Writing the candidate *)

Lemma canonical_proven l r v b s : claims l p = [r] → line_record r (key +:+ " " +:+ v) b s → proves l path (canonical ref key v) = true.
Proof. intros Hc Hr. rewrite (proves_line l r _ b s (canonical ref key v) Hc Hr eq_refl). unfold body. cbn. by rewrite String.eqb_refl. Qed.

Section write.
Context (before : AtomicTargetState).
Hypothesis before_text : content before = text0.

(** The file is put back, or it stays unclear which of the two contents it has. *)
Lemma undo_write M j w (S : string → Prop) : stands M j (λ l, l = records j) S → (∀ s, S s → s = text0 ∨ installed w = true) →
  (installed w = true → ∃ st, installedTargetState w = Some st) →
  ∃ b M', (if installed w then on_etc (compensate path w before) else tret true) M = (Returned b, M') ∧
    stands M' j (λ l, l = records j) (λ s, b = false ∧ S s ∨ s = text0).
Proof.
  intros Hst HS Hw. destruct (installed w) eqn:Hi.
  - destruct (compensate_call M j _ S w before Hst) as (b & M' & He & Hst'). exists b, M'. split; [done|]. eapply stands_mono; [exact Hst'|done|]. cbv beta. rewrite before_text.
    destruct (Hw eq_refl) as [st Hsome]. intros s [[[?|[?|?]] ?]|?]; try (by left); try (by right); congruence.
  - exists true, M. split; [done|]. eapply stands_mono; [exact Hst|done|]. cbv beta. intros s Hs. right. destruct (HS s Hs); [done|congruence].
Qed.

(** After an attempt that was not verified. *)
Lemma abandon_write M j r w previous value (S : string → Prop) : stands M j (λ l, l = records j) S → Inv j → claims (records j) p = [r] →
  line_record r (key +:+ " " +:+ value) previous Prepared → previous_ok previous → others (records j) → word value = true → closed foreign = true →
  (∀ s, S s → s = text0 ∨ installed w = true ∧ s = candidate value) → (installed w = true → ∃ st, installedTargetState w = Some st) →
  ∃ res M', (let+ restored := (if installed w then on_etc (compensate path w before) else tret true) in
             let+ _ := (if restored then forget_attempt journal_path clock (mid r) previous else tret tt) in tret false) M = (res, M') ∧ safe M' ∧ res ≠ Returned true.
Proof.
  intros Hst Hinv Hc Hr Hprev Hoth Hv Hcl HS Hw.
  destruct (undo_write M j w S Hst ltac:(intros s Hs; destruct (HS s Hs) as [?|[? _]]; auto) Hw) as (b & M' & He & Hst'). unfold tbind at 1. rewrite He. destruct b.
  - destruct (forget_safe M' j r (key +:+ " " +:+ value) previous) as (res & M2 & He2 & Hsafe); [|done..|].
    { eapply stands_mono; [exact Hst'|done|]. naive_solver. }
    unfold tbind. rewrite He2. destruct res; eexists _, _; (split; [reflexivity|done]).
  - eexists _, _. split; [reflexivity|]. split; [|done]. eapply safe_intro; [exact Hst'|]. cbv beta. intros l s -> [[_ Hs]| -> ].
    + destruct (HS s Hs) as [-> |[_ -> ]]; [apply sound0; [done|by eapply previous_proven]|]. apply sound_candidate; [done..|]. by eapply canonical_proven.
    + apply sound0; [done|by eapply previous_proven].
Qed.

Lemma commit_write M j r a b value (S : string → Prop) : stands M j (λ l, l = records j) S → Inv j → claims (records j) p = [r] →
  line_record r (key +:+ " " +:+ value) a b → (∀ s, S s → s = candidate value) → others (records j) → word value = true → closed foreign = true →
  ∃ res M', t_status journal_path clock (mid r) Applied M = (res, M') ∧ safe M' ∧ (res = Returned true → settled value (candidate value) (nextId j) M').
Proof.
  intros Hst Hinv Hc Hr HS Hoth Hv Hcl. destruct (status_call M j r _ a b Applied S Hst Hinv Hc Hr) as (res & M' & He & _ & Hend); [by left|]. exists res, M'. split; [done|].
  assert (∀ new r', moved j r r' new → line_record r' (key +:+ " " +:+ value) a Applied → sound (records new) (candidate value) ∧ claims (records new) p = [r']) as Hnew.
  { intros new r' Hm Hr'. pose proof (lr_policy _ _ _ _ Hr) as Hp. destruct Hm as [_ Hon Hcn _ _ _]. rewrite Hp in Hon, Hcn.
    assert (claims (records new) p = [r']) as Hcr. { rewrite Hcn. destruct Hr' as [_ _ _ Hs]. unfold isActive. by rewrite Hs. }
    split; [|done]. apply sound_candidate; [done|done|by eapply others_step|]. by eapply canonical_proven. }
  split.
  - eapply ends_safe; [exact Hend| |]. { intros s ->%HS. apply sound_candidate; [done..|]. by eapply canonical_proven. }
    intros x new s (_ & r' & Hm & Hr') ->%HS. by destruct (Hnew _ _ Hm Hr').
  - intros ->. inversion Hend as [x new M'' Hok (_ & r' & Hm & Hr') Hinv' Hst'|x M'' Hok Hst'|x x' new M'' Hok ? Hst'|]; subst; [|by unfold id in Hok..].
    destruct (Hnew _ _ Hm Hr'). exists new, r', a. split; [|split_and!; try done; apply Hm]. by eapply stands_mono; [exact Hst'|..].
Qed.

Lemma write_candidate_safe M j value previous active : stands M j (λ l, l = records j) (λ s, s = text0) → Inv j → (nextId j + 1 < 2 ^ 64)%Z → others (records j) →
  sound (records j) text0 → owner (records j) p path key = Some active → word value = true → closed foreign = true →
  previous_ok previous ∨ (∃ r, active = Some r ∧ status r = RollbackFailed) →
  ∃ res M', write_candidate journal_path clock semantics route p value (key +:+ " " +:+ value) before (candidate value) previous M = (res, M') ∧ safe M' ∧
    (res = Returned true → achieved value (candidate value) M').
Proof.
  intros Hst Hinv Hn Hoth Hcoh Hown Hv Hcl Hprev. unfold write_candidate. cbn [route_path route_key]. unfold tbind at 1.
  destruct (prepare_call M j (key +:+ " " +:+ value) previous active _ Hst Hinv Hn Hown) as (res & M1 & He & _ & Hend). rewrite He.
  assert (∀ x new, ((∃ r', x = Some (mid r') ∧ (nextId new = nextId j ∨ nextId new = (nextId j + 1)%Z) ∧ only_of p (records j) (records new) ∧
      claims (records new) p = [r'] ∧ line_record r' (key +:+ " " +:+ value) previous Prepared) ∧
      ∀ r, active = Some r → refresh_login_defs r (makeRecord path p key (key +:+ " " +:+ value) previous) = true) →
      ∃ r', x = Some (mid r') ∧ previous_ok previous ∧ others (records new) ∧ claims (records new) p = [r'] ∧ line_record r' (key +:+ " " +:+ value) previous Prepared) as Hnew.
  { intros x new [(r' & -> & _ & Hon & Hc & Hr) Hf]. exists r'. split; [done|]. split; [|split; [by eapply others_step|done]]. destruct Hprev as [?|(r & -> & Hs)]; [done|]. specialize (Hf r eq_refl).
    unfold refresh_login_defs in Hf. cbn in Hf. rewrite Hs in Hf. destruct (payload (undo r)); try done. by rewrite andb_false_r in Hf. }
  destruct res as [[i|]|].
  - assert (∃ new r', i = mid r' ∧ Inv new ∧ stands M1 new (λ l, l = records new) (λ s, s = text0) ∧ previous_ok previous ∧ others (records new) ∧ claims (records new) p = [r'] ∧
      line_record r' (key +:+ " " +:+ value) previous Prepared) as (new & r & -> & Hinv1 & Hst1 & Hprev1 & Hoth1 & Hc1 & Hr1).
    { inversion Hend as [x new M'' Hok HP Hinv' Hst'|x M'' Hok Hst'|x x' new M'' Hok HP Hst'|]; subst; [|done..]. destruct (Hnew _ _ HP) as (r' & [= ->] & ?). exists new, r'. naive_solver. }
    clear Hend Hnew He. unfold tbind at 1. destruct (install_call M1 new _ _ before (candidate value) Hst1) as (ok & w & M2 & He & Hst2 & Hsome & Hdone). rewrite He. cbn [fst snd].
    destruct ok; cbn [negb].
    + destruct (Hdone eq_refl) as [Hi _]. destruct (Hsome Hi) as [state Hstate]. rewrite Hstate. unfold tbind at 1.
      destruct (verify_call M2 new _ _ (key +:+ " " +:+ value) value state Hst2) as (good & M3 & He3 & Hst3 & Hver). rewrite He3. destruct good; cbn [negb].
      * destruct (commit_write M3 new r previous Prepared value _ Hst3 Hinv1 Hc1 Hr1) as (res & M4 & He4 & Hsafe & Hset); [naive_solver|done..|]. exists res, M4. split; [done|]. split; [done|].
        intros Hres. split; [|eauto]. destruct (Hver eq_refl) as (s & [[? _]|[_ ->]] & ?); done.
      * pose proof (abandon_write M3 new r w previous value _ Hst3 Hinv1 Hc1 Hr1 Hprev1 Hoth1 Hv Hcl ltac:(cbv beta; naive_solver) Hsome) as (res & M4 & He4 & Hsafe & Hne).
        rewrite Hi in He4. exists res, M4. done.
    + pose proof (abandon_write M2 new r w previous value _ Hst2 Hinv1 Hc1 Hr1 Hprev1 Hoth1 Hv Hcl ltac:(cbv beta; naive_solver) Hsome) as (res & M4 & He4 & Hsafe & Hne). exists res, M4. done.
  - eexists _, _. split; [reflexivity|]. split; [|done]. eapply ends_safe; [exact Hend|by intros s ->|]. intros x new s HP ->. destruct (Hnew _ _ HP) as (r' & _ & Hp' & Ho' & Hc' & Hr').
    apply sound0; [done|by eapply previous_proven].
  - eexists _, _. split; [reflexivity|]. split; [|done]. eapply ends_safe; [exact Hend|by intros s ->|]. intros x new s HP ->. destruct (Hnew _ _ HP) as (r' & _ & Hp' & Ho' & Hc' & Hr').
    apply sound0; [done|by eapply previous_proven].
Qed.

(** * The record that is active already *)

(** A line of a record spells the key and a value. *)
Lemma recorded_line j r a b s : Inv j → claims (records j) p = [r] → line_record r a b s →
  ∃ v, a = key +:+ " " +:+ v ∧ word v = true ∧ substr_from (String.length key + 1) a = Some v.
Proof.
  intros [_ _ Hl _] Hc Hr. pose proof (claim_inv _ _ _ Hc) as (Hin & _ & _ & _). rewrite forallb_forall in Hl. specialize (Hl r). rewrite <-list_elem_of_In in Hl. specialize (Hl Hin).
  unfold record_loadable in Hl. rewrite !andb_true_iff in Hl. destruct Hl as [[[[[[[[_ Hpl] _] _] _] _] _] _] _]. unfold payload_loadable in Hpl. rewrite (lr_payload _ _ _ _ Hr) in Hpl.
  apply andb_true_iff in Hpl as [_ Hv]. unfold validateIdentityLoginDefsUndoPayload in Hv. cbn [ld_policyName ld_configPath ld_key ld_appliedLine ld_previousAppliedLine] in Hv.
  destruct (findSharedLoginDefsPolicySpec _) as [sp|] eqn:Hsp; [|done]. rewrite !andb_true_iff in Hv. destruct Hv as [[_ Hv] _]. unfold valid_login_defs_line in Hv.
  apply andb_true_iff in Hv as [Hpre Hval]. apply prefix_split in Hpre as [v Hv]. rewrite Hv, drop_front_app in Hval. exists v.
  assert (a = key +:+ " " +:+ v) as -> by by rewrite Hv, string_app_assoc. split; [done|]. split.
  - apply (valid_value_word p). unfold validatePolicyValue. by rewrite enrolled.
  - unfold substr_from. rewrite !string_length_app. cbn [String.length]. replace (_ <? _) with false by (symmetry; apply Nat.ltb_ge; lia).
    replace (String.length key + 1) with (String.length (key +:+ " ")) by (rewrite string_length_app; cbn; lia). rewrite <-string_app_assoc. by rewrite drop_front_app.
Qed.

(** The line of the unfinished record is there but not proven: written anew. *)
Lemma recanonicalize_safe M j r target previous b : stands M j (λ l, l = records j) (λ s, s = text0) → Inv j → claims (records j) p = [r] →
  line_record r target previous Prepared → others (records j) → blk = Some b → body b = target →
  ∃ res M', recanonicalizePreparedTarget journal_path clock semantics route p before target (mid r) M = (res, M') ∧ safe M' ∧
    (res = Returned true → ∃ v, closed foreign = true ∧ word v = true ∧ settled v (candidate v) (nextId j) M').
Proof.
  intros Hst Hinv Hc Hr Hoth Hb Hbody. destruct (recorded_line _ _ _ _ _ Hinv Hc Hr) as (v & Ht & Hv & Hsub). unfold recanonicalizePreparedTarget. cbn [route_key route_path route_policyRef].
  assert (sound (records j) text0) as Hs0. { apply sound0; [done|]. intros b' Hb'. assert (b' = b) as -> by congruence. by eapply applied_proven. }
  rewrite Hsub, before_text, (upsert_exact _ _ _ _ _ _ seen0). assert (∀ x : bool, x = false → safe M ∧ (Returned x = Returned true → ∃ v, closed foreign = true ∧ word v = true ∧ settled v (candidate v) (nextId j) M)) as Hstay.
  { intros x ->. split; [|done]. eapply safe_intro; [exact Hst|]. by intros l s -> ->. }
  destruct (closed foreign) eqn:Hcl; [|by eexists _, _; split; [reflexivity|apply Hstay]].
  destruct (String.eqb _ text0); cbn [negb]; [by eexists _, _; split; [reflexivity|apply Hstay]|].  destruct (relationsValidInCandidate _ _ _); cbn [negb]; [|by eexists _, _; split; [reflexivity|apply Hstay]].
  clear Hstay. assert (sound (records j) (candidate v)) as Hs1. { apply sound_candidate; [done..|]. rewrite Ht in Hr. by eapply canonical_proven. }
  unfold tbind at 1. destruct (install_call M j _ _ before (candidate v) Hst) as (ok & w & M2 & He & Hst2 & Hsome & Hdone). rewrite He. cbn [fst snd].
  assert (∀ M3, stands M3 j (λ l, l = records j) (λ s, ok = false ∧ s = text0 ∨ installed w = true ∧ s = candidate v) → safe M3 ∧
    ∃ b' M4, (if installed w then on_etc (compensate path w before) else tret true) M3 = (Returned b', M4) ∧ safe M4) as Hundo.
  { intros M3 Hst3. split; [eapply safe_intro; [exact Hst3|]; cbv beta; naive_solver|]. destruct (undo_write M3 j w _ Hst3) as (b' & M4 & He4 & Hst4); [naive_solver|done|].
    exists b', M4. split; [done|]. eapply safe_intro; [exact Hst4|]. cbv beta. naive_solver. }
  destruct ok; cbn [negb].
  - destruct (Hdone eq_refl) as [Hi _]. destruct (Hsome Hi) as [state Hstate]. rewrite Hstate. unfold tbind at 1.
    destruct (verify_call M2 j _ _ target v state Hst2) as (good & M3 & He3 & Hst3 & Hver). rewrite He3. destruct good; cbn [negb].
    + rewrite Ht in Hr. destruct (commit_write M3 j r previous Prepared v _ Hst3 Hinv Hc Hr) as (res & M4 & He4 & Hsafe & Hset); [naive_solver|done..|]. exists res, M4. split; [done|]. split; [done|]. intros Hres. exists v. auto.
    + destruct (Hundo M3 Hst3) as (_ & b' & M4 & He4 & Hsafe). rewrite Hi in He4. unfold tbind. rewrite He4. by eexists _, _.
  - destruct (Hundo M2 Hst2) as (_ & b' & M4 & He4 & Hsafe). unfold tbind. rewrite He4. by eexists _, _.
Qed.

(** How the run goes on after the active record. *)
Definition resolved (n : Z) (value : string) (res : flow recovery) (M : Machine) : Prop :=
  match res with
  | Thrown => safe M
  | Returned (Done b) => safe M ∧ (b = true → achieved value text0 M)
  | Returned Again => ∃ v, closed foreign = true ∧ word v = true ∧ settled v (candidate v) n M
  | Returned (Next previous _) => ∃ j active, stands M j (λ l, l = records j) (λ s, s = text0) ∧ Inv j ∧ nextId j = n ∧ others (records j) ∧ sound (records j) text0 ∧
      owner (records j) p path key = Some active ∧ (previous_ok previous ∨ ∃ r, active = Some r ∧ status r = RollbackFailed)
  end.

Context (model : ManagedConfigModel) (effective : option string).
Hypothesis parsed : parseManagedConfig text0 = Some model.
Hypothesis seen_value : effectiveValue text0 key = Some effective.

Lemma the_policies : policies model = bs.
Proof. pose proof seen0 as Hs. unfold view in Hs. rewrite parsed in Hs. by injection Hs. Qed.

Lemma resolve_applied_ok M j r r0 u b value : stands M j (λ l, l = records j) (λ s, s = text0) → Inv j → claims (records j) p = [r] → mid r0 = mid r →
  line_record r (ld_appliedLine u) b Applied → others (records j) → (∀ b, blk = Some b → proves (records j) path b = true) →
  ∃ res M', resolve_applied journal_path clock semantics route p value (key +:+ " " +:+ value) before model effective r0 u M = (res, M') ∧ resolved (nextId j) value res M'.
Proof.
  intros Hst Hinv Hc Hid Hr Hoth Hown. assert (sound (records j) text0) as Hs0 by by apply sound0. unfold resolve_applied. cbn [route_policyRef]. unfold findPolicyBlock. rewrite the_policies.
  destruct blk as [o|] eqn:Hb.
  - assert (safe M) as Hsafe by (eapply safe_intro; [exact Hst|]; by intros l s -> ->). destruct (String.eqb_spec (body o) (ld_appliedLine u)) as [Hbody|]; cbn [negb]; [|by eexists _, _].
    destruct (_ && _) eqn:Hgood.
    + eexists _, _. split; [reflexivity|]. split; [done|]. intros _. rewrite !andb_true_iff, bool_decide_eq_true, String.eqb_eq, before_text in Hgood. destruct Hgood as [[[Hl Hend] ->] Hrel].
      split; [|exists (nextId j), j, r, b; rewrite <-Hl; by split_and!]. unfold verified. rewrite parsed. unfold findPolicyBlock. rewrite the_policies, Hb, Hbody, Hl, String.eqb_refl, Hend, seen_value, Hrel.
      by rewrite bool_decide_true.
    + eexists _, _. split; [reflexivity|]. exists j, (Some r). split_and!; try done; [by eapply line_record_owner|]. left. right. split; [|by exists o]. destruct (recorded_line _ _ _ _ _ Hinv Hc Hr) as (v & -> & _).
      by destruct key.
  - unfold tbind. rewrite Hid. destruct (status_call M j r _ b Applied RolledBack _ Hst Hinv Hc Hr) as (res & M' & He & _ & Hend); [by right|]. rewrite He.
    assert (∀ new r', moved j r r' new → line_record r' (ld_appliedLine u) b RolledBack → claims (records new) p = [] ∧ others (records new) ∧ sound (records new) text0) as Hnew.
    { intros new r' Hm Hr'. pose proof (lr_policy _ _ _ _ Hr) as Hp. destruct Hm as [_ Hon Hcn _ _ _]. rewrite Hp in Hon, Hcn. assert (others (records new)) as Ho' by by eapply others_step. split_and!; [|done|].
      - rewrite Hcn. destruct Hr' as [_ _ _ Hs]. unfold isActive. by rewrite Hs.
      - apply sound0; [done|]. congruence. }
    assert (safe M') as Hsafe. { eapply ends_safe; [exact Hend|by intros s ->|]. intros a new s (_ & r' & Hm & Hr') ->. by destruct (Hnew _ _ Hm Hr') as (_ & _ & ?). }
    destruct res as [[]|]; [|by eexists _, _..]. eexists _, _. split; [reflexivity|].
    inversion Hend as [x new M'' Hok (_ & r' & Hm & Hr') Hinv' Hst'|x M'' Hok Hst'|x x' new M'' Hok ? Hst'|]; subst; [|by unfold id in Hok..]. destruct (Hnew _ _ Hm Hr') as (Hc' & Ho' & Hs').
    exists new, None. split_and!; try done; [apply Hm|unfold owner; by rewrite Hc'|]. left. by left.
Qed.

Lemma durable_call M j R S expected : stands M j R S →
  ∃ b M', on_etc (ensureTargetDurableIfCurrentState path expected) M = (Returned b, M') ∧ stands M' j R S.
Proof.
  intros Hst. destruct (etc_step journal_path path (ensureTargetDurableIfCurrentState path expected) M j R S (λ _ d', wf d' ∧ contents d' path S) (λ _, S) Hst) as (b & M' & He & _ & Hst' & _); [|auto|eauto].
  destruct Hst as [[_ _ _ Hw] _ _ Hc]. eapply runs_mono; [apply durable_runs|]. intros b d' Hd. destruct (barrier_contents _ _ _ _ _ b Hw Hc Hd) as [Hw' Hc']. split; [done|].
  eapply contents_mono; [exact Hc'|]. naive_solver.
Qed.

(** The unfinished record whose line is in the file. *)
Lemma recover_target M j r u value b : stands M j (λ l, l = records j) (λ s, s = text0) → Inv j → claims (records j) p = [r] →
  line_record r (ld_appliedLine u) (ld_previousAppliedLine u) Prepared → others (records j) → blk = Some b → body b = ld_appliedLine u →
  ∃ res M', (let+ prepared := recover_prepared journal_path clock semantics route p before (Some b) r u in
      match prepared with
      | Next previous (Some r') => if bool_decide (status r' = Applied)
                                   then resolve_applied journal_path clock semantics route p value (key +:+ " " +:+ value) before model effective r' u
                                   else tret (Next previous (Some r'))
      | other => tret other
      end) M = (res, M') ∧ resolved (nextId j) value res M'.
Proof.
  intros Hst Hinv Hc Hr Hoth Hb Hbody. destruct (recorded_line _ _ _ _ _ Hinv Hc Hr) as (v & Ht & Hv & Hsub). unfold recover_prepared. rewrite Hbody, String.eqb_refl. cbn [route_key route_path]. rewrite Hsub.
  unfold tbind. destruct (durable_call M j _ _ before Hst) as (d & M1 & He1 & Hst1). rewrite He1.
  assert (∃ g M2, (if negb d then tret false else on_etc (verify path p key (ld_appliedLine u) v semantics before)) M1 = (Returned g, M2) ∧ stands M2 j (λ l, l = records j) (λ s, s = text0)) as (g & M2 & He2 & Hst2).
  { destruct d; cbn [negb]; [|by exists false, M1]. destruct (verify_call M1 j _ _ (ld_appliedLine u) v before Hst1) as (g & M2 & ? & ? & _). by exists g, M2. }
  rewrite He2. destruct g.
  - destruct (status_call M2 j r _ _ Prepared Applied _ Hst2 Hinv Hc Hr) as (res & M3 & He3 & _ & Hend); [by left|]. rewrite He3. pose proof (lr_policy _ _ _ _ Hr) as Hp.
    assert (∀ new r', moved j r r' new → line_record r' (ld_appliedLine u) (ld_previousAppliedLine u) Applied → others (records new) ∧ claims (records new) p = [r'] ∧
      ∀ b', blk = Some b' → proves (records new) path b' = true) as Hnew.
    { intros new r' Hm Hr'. destruct Hm as [_ Hon Hcn _ _ _]. rewrite Hp in Hon, Hcn. assert (claims (records new) p = [r']) as Hcr. { rewrite Hcn. destruct Hr' as [_ _ _ Hs]. unfold isActive. by rewrite Hs. }
      split; [by eapply others_step|]. split; [done|]. intros b' Hb'. eapply applied_proven; [done|done|done|congruence]. }
    assert (safe M3) as Hsafe. { eapply ends_safe; [exact Hend| |].
      - intros s ->. apply sound0; [done|]. intros b' Hb'. eapply applied_proven; [done|done|done|congruence].
      - intros a new s (_ & r' & Hm & Hr') ->. destruct (Hnew _ _ Hm Hr') as (? & _ & ?). by apply sound0. }
    destruct res as [[]|]; [|by eexists _, _..]. unfold tret at 1. cbn [status with_status]. rewrite bool_decide_true by done.
    inversion Hend as [x new M'' Hok (_ & r' & Hm & Hr') Hinv' Hst'|x M'' Hok Hst'|x x' new M'' Hok ? Hst'|]; subst; [|by unfold id in Hok..]. destruct (Hnew _ _ Hm Hr') as (Ho' & Hc' & Hb').
    rewrite <-(mv_next _ _ _ _ Hm). eapply resolve_applied_ok; [done|done|done| |done|done|done]. cbn. by rewrite (mv_id _ _ _ _ Hm).
  - destruct (recanonicalize_safe M2 j r _ _ b Hst2 Hinv Hc Hr Hoth Hb Hbody) as (res & M3 & He3 & Hsafe & Hset). rewrite He3. destruct res as [[]|]; eexists _, _; (split; [reflexivity|]); [|done..].
    by apply Hset.
Qed.

Lemma resolve_active_ok M j active value : stands M j (λ l, l = records j) (λ s, s = text0) → Inv j → owner (records j) p path key = Some active →
  others (records j) → (∀ b, blk = Some b → proves (records j) path b = true) →
  ∃ res M', resolve_active journal_path clock semantics route p value (key +:+ " " +:+ value) before model effective active M = (res, M') ∧ resolved (nextId j) value res M' ∧
    (res = Returned Again → ∃ r, active = Some r ∧ status r = Prepared).
Proof.
  intros Hst Hinv Hown Hoth Hproven. assert (sound (records j) text0) as Hs0 by by apply sound0. unfold resolve_active. destruct active as [r|].
  - destruct (owner_line_record _ _ Hown) as (Hc & u & Hu & Hlu & Hr). rewrite Hlu. pose proof (claim_inv _ _ _ Hc) as (_ & Ha & _ & _).
    destruct (decide (status r = Prepared)) as [Hs|Hs].
    + rewrite bool_decide_true by done. rewrite Hs in Hr. enough (∃ res M', _ M = (res, M') ∧ resolved (nextId j) value res M') as (res & M' & ? & ?) by (exists res, M'; eauto 6).
      cbn [route_policyRef]. unfold findPolicyBlock at 1. rewrite the_policies. destruct blk as [b|] eqn:Hb.
      * destruct (String.eqb_spec (body b) (ld_appliedLine u)) as [Hbody|Hne]; [by eapply recover_target|]. pose proof (find_block_inv _ _ _ Hb) as [_ Hbr].
        pose proof (Hproven b eq_refl) as Hpb. rewrite (proves_line _ _ _ _ _ b Hc Hr Hbr) in Hpb. apply String.eqb_neq in Hne. rewrite Hne, bool_decide_true in Hpb by done.
        cbn [orb andb] in Hpb. unfold recover_prepared. rewrite Hne, Hpb. unfold tbind. cbn. rewrite Hs, bool_decide_false by done. eexists _, _. split; [reflexivity|].
        exists j, (Some r). split_and!; try done. left. right. apply andb_true_iff in Hpb as [Hn He%String.eqb_eq]. apply negb_true_iff in Hn. apply is_empty_false in Hn. eauto.
      * unfold recover_prepared, tbind. destruct (discard_call M j r _ Hst Hinv Hc) as (res & M' & He & _ & Hend). rewrite He.
        assert (∀ new, only_of p (records j) (records new) → others (records new) ∧ sound (records new) text0) as Hnew.
        { intros new Hon. assert (others (records new)) by by eapply others_step. split; [done|]. apply sound0; [done|]. congruence. }
        assert (safe M') as Hsafe. { eapply ends_safe; [exact Hend|by intros s ->|]. intros a new s (_ & _ & Hon & _) ->. by apply Hnew. }
        destruct res as [[]|]; [|by eexists _, _..]. eexists _, _. split; [reflexivity|].
        inversion Hend as [x new M'' Hok (_ & Hnx & Hon & Hcl) Hinv' Hst'|x M'' Hok Hst'|x x' new M'' Hok ? Hst'|]; subst; [|by unfold id in Hok..]. destruct (Hnew new Hon).
        exists new, None. split_and!; try done; [unfold owner; by rewrite Hcl|]. left. by left.
    + rewrite bool_decide_false by done. enough (∃ res M', _ M = (res, M') ∧ resolved (nextId j) value res M' ∧ res ≠ Returned Again) as (res & M' & ? & ? & ?) by (exists res, M'; by split_and!).
      unfold tbind, tret at 1. destruct (decide (status r = Applied)) as [Hs'|Hs'].
      * rewrite bool_decide_true by done. rewrite Hs' in Hr. destruct (resolve_applied_ok M j r r u _ value Hst Hinv Hc eq_refl Hr Hoth Hproven) as (res & M' & He & Hres). exists res, M'. split_and!; [done|done|].
        intros ->. revert He. unfold resolve_applied, tbind. destruct (findPolicyBlock _ _) as [o|]; [|destruct (t_status _ _ _ _ _) as [[[]|] ?]; by intros [=]]. repeat case_match; by intros [=].
      * rewrite bool_decide_false by done. eexists _, _. split; [reflexivity|]. split; [|done]. exists j, (Some r). split_and!; try done. right. exists r. split; [done|].
        unfold isActive in Ha. by destruct (status r).
  - eexists _, _. split; [reflexivity|]. split; [|done]. exists j, None. split_and!; try done. left. left. split; [done|]. destruct blk as [b|] eqn:Hb; [|done]. exfalso.
    pose proof (Hproven b eq_refl) as Hpb. pose proof (find_block_inv _ _ _ Hb) as [_ Hbr]. rewrite (proves_own _ path b p route the_route Hbr) in Hpb. cbn [route_key] in Hpb. by rewrite Hown in Hpb.
Qed.
End write.

(** * One pass *)

Lemma capture_call M j R : stands M j R (λ s, s = text0) → ∃ o M', on_etc (captureTargetState path) M = (Returned o, M') ∧ stands M' j R (λ s, s = text0) ∧
  (∀ s, o = Some s → content s = text0).
Proof.
  intros Hst. destruct (etc_look journal_path path _ M j R _ _ Hst (looks_capture path)) as (o & M' & He & Ho & _ & Hst' & _). exists o, M'. split; [done|]. split; [done|].
  intros s ->. destruct Hst as [_ _ _ Hc]. by apply (contents_object _ _ _ _ Hc (Ho s eq_refl)).
Qed.

Lemma apply_once_ok M j value : stands M j (λ l, l = records j) (λ s, s = text0) → Inv j → (nextId j + 1 < 2 ^ 64)%Z → coherent (records j) path text0 →
  ∃ res M', apply_once journal_path clock semantics path p value M = (res, M') ∧
    match res with
    | Thrown => safe M'
    | Returned (inl b) => safe M' ∧ (b = true → ∃ text, achieved value text M')
    | Returned (inr _) => (∃ v, closed foreign = true ∧ word v = true ∧ settled v (candidate v) (nextId j) M') ∧ ∃ r, claims (records j) p = [r] ∧ status r = Prepared
    end.
Proof.
  intros Hst Hinv Hn Hcoh. assert (sound (records j) text0) as Hs0 by (split; [done|by exists bs]). assert (∀ M, stands M j (λ l, l = records j) (λ s, s = text0) → safe M) as Hstay.
  { intros M1 Hst1. eapply safe_intro; [exact Hst1|]. by intros l s -> ->. }
  unfold apply_once. rewrite the_route. destruct (validatePolicyValue p value) eqn:Hval; cbn [negb]; [|by eexists _, _; split; [reflexivity|]; split; [apply Hstay|]]. apply valid_value_word in Hval as Hv. cbn [route_key route_path route_policyRef].
  unfold tbind at 1. destruct (capture_call M j _ Hst) as (o & M1 & He1 & Hst1 & Hbefore). rewrite He1. destruct o as [before|]; [|by eexists _, _; split; [reflexivity|]; split; [apply Hstay|]].
  specialize (Hbefore before eq_refl). unfold tbind at 1, the_journal. rewrite (st_journal _ _ _ _ _ _ Hst1), Hbefore.
  destruct (parseManagedConfig text0) as [model|] eqn:Hparse; [|by eexists _, _; split; [reflexivity|]; split; [apply Hstay|]].
  pose proof (the_policies model Hparse) as Hpol. rewrite coherence_proves, Hpol. pose proof Hcoh as Hall. apply (coherent_view _ _ _ _ _ seen0) in Hall. rewrite Hall. cbn [negb].
  destruct (sound0_inv _ Hall) as [Hoth Hown]. destruct (effectiveValue text0 key) as [effective|] eqn:Heff; [|by eexists _, _; split; [reflexivity|]; split; [apply Hstay|]].
  rewrite findActive_owner. destruct (owner (records j) p path key) as [active|] eqn:Howner; [|by eexists _, _; split; [reflexivity|]; split; [apply Hstay|]].
  unfold tbind at 1. destruct (resolve_active_ok before Hbefore model effective Hparse Heff M1 j active value Hst1 Hinv Howner Hoth Hown) as (res & M2 & He2 & Hres & Hagain). rewrite He2.
  destruct res as [[b| |previous active']|]; cbn in Hres.
  - eexists _, _. split; [reflexivity|]. cbn. destruct Hres as [? Hach]. split; [done|]. intros Hb. eauto.
  - eexists _, _. split; [reflexivity|]. cbn. split; [done|]. destruct (Hagain eq_refl) as (r & -> & Hs). exists r. by apply owner_Some in Howner as [? _].
  - destruct Hres as (j2 & active2 & Hst2 & Hinv2 & Hn2 & Hoth2 & Hs2 & Hown2 & Hprev). assert (safe M2) as Hsafe2 by (eapply safe_intro; [exact Hst2|]; by intros l s -> ->).
    destruct (_ && negb _); [by eexists _, _; split; [reflexivity|]|]. rewrite (upsert_exact _ _ _ _ _ _ seen0). destruct (closed foreign) eqn:Hcl; [|by eexists _, _; split; [reflexivity|]].
    destruct (String.eqb _ text0); cbn [negb]; [by eexists _, _; split; [reflexivity|]|]. destruct (relationsValidInCandidate _ _ _); cbn [negb]; [|by eexists _, _; split; [reflexivity|]].
    unfold tbind. destruct (write_candidate_safe before Hbefore M2 j2 value previous active2 Hst2 Hinv2 ltac:(by rewrite Hn2) Hoth2 Hs2 Hown2 Hv Hcl Hprev) as (res & M3 & He3 & Hsafe3 & Hach).
    rewrite He3. destruct res as [b|]; (eexists _, _; split; [reflexivity|]); [|done]. split; [done|]. intros ->. eauto.
  - eexists _, _. split; [reflexivity|done].
Qed.
(** * Release *)

Notation without := (compose foreign (drop (ref_text p) bs)).

Lemma sound_without l : others l → closed foreign = true ∨ drop ref bs = [] → sound l without.
Proof.
  intros Ho Hcl. destruct (view_elim _ _ _ seen0) as (Hf & Hbs & Hnd). destruct (drop_ok ref bs Hbs Hnd) as [Hd1 Hd2]. pose proof (compose_view foreign (drop ref bs) Hf Hcl Hd1 Hd2) as Hv. split.
  - apply (coherent_view _ _ _ _ _ Hv). apply forallb_forall. intros b [Hin Hne]%list_elem_of_In%drop_elem. by apply Ho.
  - exists (drop ref bs). split; [done|]. apply drop_twice.
Qed.

(** The sub-block is gone: on disk, and the journal still has the record. *)
Definition released (i : MutationId) (M : Machine) : Prop := ∃ j r, stands M j (λ l, l = records j) (λ s, s = without) ∧ Inv j ∧ claims (records j) p = [r] ∧ mid r = i.

Lemma release_write_ok M j r before : content before = text0 → stands M j (λ l, l = records j) (λ s, s = text0) → Inv j → claims (records j) p = [r] →
  sound (records j) text0 → sound (records j) without →
  ∃ res M', release_write route before without M = (res, M') ∧ safe M' ∧ (res = Returned RelSuccess → released (mid r) M') ∧ res ≠ Returned RelNothingToDo.
Proof.
  intros Hbefore Hst Hinv Hc Hs0 Hs1. unfold release_write. cbn [route_path route_policyRef]. unfold tbind at 1. destruct (install_call M j _ _ before without Hst) as (ok & w & M2 & He & Hst2 & Hsome & Hdone).
  rewrite He. cbn [fst snd]. assert (∀ M3, stands M3 j (λ l, l = records j) (λ s, ok = false ∧ s = text0 ∨ installed w = true ∧ s = without) → safe M3 ∧
    ∃ b' M4, (if installed w then on_etc (compensate path w before) else tret true) M3 = (Returned b', M4) ∧ safe M4) as Hundo.
  { intros M3 Hst3. split; [eapply safe_intro; [exact Hst3|]; cbv beta; naive_solver|]. destruct (undo_write before Hbefore M3 j w _ Hst3) as (b' & M4 & He4 & Hst4); [naive_solver|done|].
    exists b', M4. split; [done|]. eapply safe_intro; [exact Hst4|]. cbv beta. naive_solver. }
  destruct ok; cbn [negb].
  - destruct (Hdone eq_refl) as [Hi _]. destruct (Hsome Hi) as [state Hstate]. rewrite Hstate.
    set (look := let+ same := on_etc (targetStateMatches path state) in _). assert (∃ g M3, look M2 = (Returned g, M3) ∧ stands M3 j (λ l, l = records j) (λ s, true = false ∧ s = text0 ∨ installed w = true ∧ s = without)) as (g & M3 & He3 & Hst3).
    { subst look. unfold tbind. destruct (etc_look journal_path path (targetStateMatches path state) M2 j _ _ _ Hst2 (looks_matches_target path _)) as (same & M3 & He3 & _ & _ & Hst3 & _). rewrite He3. destruct same; cbn [negb]; [|eexists _, _; split; [reflexivity|exact Hst3]].
      destruct (etc_look journal_path path _ M3 j _ _ _ Hst3 (looks_capture path)) as (o & M4 & He4 & _ & _ & Hst4 & _). rewrite He4. eexists _, _. split; [reflexivity|exact Hst4]. }
    unfold tbind. rewrite He3. destruct g; cbn [negb].
    + eexists _, _. split; [reflexivity|]. split; [by apply Hundo|]. split; [|done]. intros _. exists j, r. split_and!; try done. eapply stands_mono; [exact Hst3|done|]. naive_solver.
    + destruct (Hundo M3 Hst3) as (_ & b' & M4 & He4 & Hsafe). rewrite Hi in He4. rewrite He4. by eexists _, _.
  - destruct (Hundo M2 Hst2) as (_ & b' & M4 & He4 & Hsafe). unfold tbind. rewrite He4. eexists _, _. split; [reflexivity|]. split; [done|]. by destruct (preconditionFailed w).
Qed.

Lemma release_once_ok M j record : stands M j (λ l, l = records j) (λ s, s = text0) → Inv j → coherent (records j) path text0 → owner (records j) p path key = Some (Some record) →
  ∃ res M', releaseManagedPolicy journal_path clock semantics path record M = (res, M') ∧ safe M' ∧ (res = Returned RelSuccess → released (mid record) M') ∧
    (res = Returned RelNothingToDo → blk = None ∧ stands M' j (λ l, l = records j) (λ s, s = text0)).
Proof.
  intros Hst Hinv Hcoh Hown. destruct (owner_line_record _ _ Hown) as (Hc & u & Hu & Hlu & Hr). assert (sound (records j) text0) as Hs0 by (split; [done|by exists bs]).
  assert (∀ M, stands M j (λ l, l = records j) (λ s, s = text0) → safe M) as Hstay. { intros M1 Hst1. eapply safe_intro; [exact Hst1|]. by intros l s -> ->. }
  unfold releaseManagedPolicy. rewrite Hlu, (lr_policy _ _ _ _ Hr), the_route. cbn [route_key route_path route_policyRef]. pose proof (lr_payload _ _ _ _ Hr) as Hpl. rewrite Hu in Hpl. injection Hpl as Hpl.
  assert (ld_key u = key) as -> by by rewrite Hpl. assert (ld_configPath u = path) as -> by by rewrite Hpl. rewrite (lr_resource _ _ _ _ Hr), !String.eqb_refl. cbn [andb negb].
  unfold tbind at 1. destruct (capture_call M j _ Hst) as (o & M1 & He1 & Hst1 & Hbefore). rewrite He1. destruct o as [before|]; [|by eexists _, _; split; [reflexivity|]; split; [apply Hstay|]].
  specialize (Hbefore before eq_refl). unfold tbind at 1, the_journal. rewrite (st_journal _ _ _ _ _ _ Hst1), Hbefore.
  destruct (parseManagedConfig text0) as [model|] eqn:Hparse; [|by eexists _, _; split; [reflexivity|]; split; [apply Hstay|]].
  pose proof (the_policies model Hparse) as Hpol. rewrite coherence_proves, Hpol. pose proof Hcoh as Hall. apply (coherent_view _ _ _ _ _ seen0) in Hall. rewrite Hall. cbn [negb].
  destruct (sound0_inv _ Hall) as [Hoth _]. unfold findPolicyBlock. rewrite Hpol. destruct blk as [b|] eqn:Hb; [|by eexists _, _; split; [reflexivity|]; split; [apply Hstay|]].
  destruct (_ && negb _) eqn:Howns; [by eexists _, _; split; [reflexivity|]; split; [apply Hstay|]|].
  set (owns := bool_decide _ && _ && _) in *. unfold tbind at 1.
  assert (∃ res M2, (if owns then t_normalize journal_path clock (mid record) (ld_previousAppliedLine u) else tret true) M1 = (res, M2) ∧ safe M2 ∧
    (res = Returned true → ∃ j2 r2, stands M2 j2 (λ l, l = records j2) (λ s, s = text0) ∧ Inv j2 ∧ claims (records j2) p = [r2] ∧ mid r2 = mid record ∧ others (records j2) ∧ sound (records j2) text0))
    as (res & M2 & He2 & Hsafe2 & Hgo).
  { destruct owns eqn:Ho; [|exists (Returned true), M1; split; [done|]; split; [by apply Hstay|]; intros _; exists j, record; by split_and!].
    subst owns. rewrite !andb_true_iff, String.eqb_eq in Ho. destruct Ho as [_ Hbody].
    destruct (normalize_call M1 j record _ _ _ (ld_previousAppliedLine u) _ Hst1 Hinv Hc Hr) as (res & M2 & He & _ & Hend). exists res, M2. split; [done|].
    assert (∀ new r', moved j record r' new → line_record r' (ld_previousAppliedLine u) "" Prepared → claims (records new) p = [r'] ∧ others (records new) ∧ sound (records new) text0) as Hnew.
    { intros new r' Hm Hr'. pose proof (lr_policy _ _ _ _ Hr) as Hp. destruct Hm as [_ Hon Hcn _ _ _]. rewrite Hp in Hon, Hcn. assert (others (records new)) as Ho' by by eapply others_step.
      assert (claims (records new) p = [r']) as Hcr. { rewrite Hcn. destruct Hr' as [_ _ _ Hs]. unfold isActive. by rewrite Hs. }
      split_and!; [done|done|]. apply sound0; [done|]. intros b' Hb'. eapply applied_proven; [done|done|done|congruence]. }
    split; [eapply ends_safe; [exact Hend|by intros s ->|]; intros a new s (_ & r' & Hm & Hr') ->; by destruct (Hnew _ _ Hm Hr') as (_ & _ & ?)|].
    intros ->. inversion Hend as [x new M'' Hok (_ & r' & Hm & Hr') Hinv' Hst'|x M'' Hok Hst'|x x' new M'' Hok ? Hst'|]; subst; [|by unfold id in Hok..]. destruct (Hnew _ _ Hm Hr') as (? & ? & ?).
    exists new, r'. split_and!; try done. apply Hm. }
  rewrite He2. destruct res as [[]|]; cbn [negb]; [|by eexists _, _..]. destruct (Hgo eq_refl) as (j2 & r2 & Hst2 & Hinv2 & Hc2 & Hid2 & Hoth2 & Hs2).
  rewrite (remove_exact _ _ _ _ seen0), bool_decide_true by (apply dec_stable; intros Hn%find_ref; congruence).
  destruct (bool_decide (drop ref bs = []) || closed foreign) eqn:Hcl; [|by eexists _, _]. cbn [negb]. destruct (relationsValidInCandidate _ _ _); cbn [negb]; [|by eexists _, _].
  destruct (release_write_ok M2 j2 r2 before Hbefore Hst2 Hinv2 Hc2 Hs2) as (res & M3 & He3 & Hsafe3 & Hrel & Hne).
  { apply sound_without; [done|]. apply orb_true_iff in Hcl as [Hd|?]; [right; by apply bool_decide_eq_true in Hd|by left]. }
  rewrite He3, <-Hid2. eexists _, _. split; [reflexivity|]. by split_and!.
Qed.
End run.

(** * Apply *)

Lemma apply_ok M j value text0 foreign bs passes : view text0 = Some (foreign, bs) → stands M j (λ l, l = records j) (λ s, s = text0) → Inv j → (nextId j + 1 < 2 ^ 64)%Z →
  coherent (records j) path text0 → 2 ≤ passes →
  ∃ res M', applyManagedPolicy journal_path clock semantics passes path p value M = (res, M') ∧ safe_for foreign (drop ref bs) M' ∧
    res ≠ Returned None ∧ (res = Returned (Some true) → ∃ text, achieved_for foreign (drop ref bs) value text M').
Proof.
  intros Hview Hst Hinv Hn Hcoh Hp. destruct passes as [|[|passes]]; [lia|lia|]. cbn [applyManagedPolicy]. unfold tbind at 1.
  destruct (apply_once_ok text0 foreign bs Hview M j value Hst Hinv Hn Hcoh) as (res & M1 & He & Hres). rewrite He. destruct res as [[b|[]]|].
  - destruct Hres as [Hsafe Hach]. eexists _, _. split; [reflexivity|]. split; [done|]. split; [done|]. intros [= ->]. by apply Hach.
  - destruct Hres as [(v & Hcl & Hv & j1 & r & b & Hst1 & Hinv1 & Hn1 & Hc1 & Hr1 & Hcoh1 & _) _]. pose proof (candidate_view text0 foreign bs Hview v Hv Hcl) as Hview1.
    unfold tbind at 1. destruct (apply_once_ok _ _ _ Hview1 M1 j1 value Hst1 Hinv1 ltac:(by rewrite Hn1) Hcoh1) as (res & M2 & He2 & Hres). rewrite He2.
    rewrite (drop_put (canonical ref key v)) in Hres. destruct res as [[b'|[]]|].
    + destruct Hres as [Hsafe Hach]. eexists _, _. split; [reflexivity|]. split; [done|]. split; [done|]. intros [= ->]. by apply Hach.
    + destruct Hres as [_ (r' & Hc' & Hs')]. destruct Hr1 as [_ _ _ Hs1]. congruence.
    + eexists _, _. by split.
  - eexists _, _. by split.
Qed.
End policy.
End safety.
