(* ===== verification/LoginDefsTheorems.v ===== *)
(** What the transaction on login.defs guarantees. *)

From S2P Require Import Prelude PolicyModel PolicyValue ConfigFile FileModel AtomicWriter AtomicFacts Json JsonRead StateStore TargetStore OwnershipGrammar MutationRecord MutationValid MutationCodec CodecFacts CodecText Journal JournalFacts JournalSteps JournalOwnership JournalDisk Contents TextLines LoginDefsConfig LoginDefsFacts Machine LoginDefsTransaction LoginDefsOwnership LoginDefsEffective LoginDefsSafety.
Open Scope string_scope.
Open Scope nat_scope.
Open Scope machine_scope.

(** * The container *)

Lemma put_elem b bs : b ∈ put b bs.
Proof.
  unfold put. destruct (existsb _ _) eqn:Hex; [|by apply elem_of_app; right; apply list_elem_of_singleton]. apply existsb_exists in Hex as (x & Hx & He). apply list_elem_of_In in Hx.
  apply list_elem_of_fmap. exists x. by rewrite He.
Qed.

(** C20. The parser accepts exactly the texts of the container grammar. *)
Theorem container_grammar text m : parseManagedConfig text = Some m ↔ reads (chunks text) m.
Proof. apply container_parse_exact. Qed.

(** C21. Writing a policy's sub-block replaces or appends that one, byte for byte:
    the foreign text and the other sub-blocks, as they were spelled, are parsed
    back in the same order; the consumer sees the value when the keys of the
    sub-blocks are distinct; and removing it again restores a file that had no
    container. *)
Theorem upsert_changes_one_block text foreign bs p spec value : view text = Some (foreign, bs) → policySpec p = Some spec → validatePolicyValue p value = true →
  closed foreign = true →
  ∃ result, upsertPolicyBlock text (ref_text p) (spec_key spec) value = Some (result, negb (String.eqb result text)) ∧
    view result = Some (foreign, put (canonical (ref_text p) (spec_key spec) value) bs) ∧
    (forallb plain_block bs = true → NoDup (b_key <$> put (canonical (ref_text p) (spec_key spec) value) bs) → effectiveValue foreign (spec_key spec) ≠ None →
      effectiveValue result (spec_key spec) = Some (Some value)) ∧
    removePolicyBlock result (ref_text p) = Some (compose foreign (drop (ref_text p) bs), true) ∧
    (parseManagedConfig text = Some no_container → removePolicyBlock result (ref_text p) = Some (text, true)).
Proof.
  intros Hview Hspec Hval Hcl. apply valid_value_word in Hval as Hv. destruct (enrolled_writable _ _ _ Hspec Hv) as [Hw Hk]. set (b := canonical (ref_text p) (spec_key spec) value).
  destruct (view_elim _ _ _ Hview) as (Hf & Hbs & Hnd). destruct (put_ok b bs) as [Hp1 Hp2]; [by apply canonical_block|done|done|].
  assert (view (foreign +:+ serializeContainer (put b bs)) = Some (foreign, put b bs)) as Hnew by by apply assembled.
  assert (b ∈ put b bs) as Hin. { apply put_elem. }
  exists (foreign +:+ serializeContainer (put b bs)). split; [rewrite (upsert_exact _ _ _ _ _ _ Hview); by rewrite Hcl|]. split; [done|]. split.
  - intros Hplain Hkeys Heff. rewrite (effective_compose (spec_key spec) foreign (put b bs) Hcl Hp1).
    + destruct (effectiveValue foreign (spec_key spec)) as [v|]; [|done]. f_equal. by apply (last_of_present b).
    + apply forallb_forall. rewrite forallb_forall in Hplain. intros x [->|[Hx _]]%list_elem_of_In%put_inv; [|by apply Hplain, list_elem_of_In]. unfold plain_block. cbn. by rewrite Hk, Hv.
  - assert (removePolicyBlock (foreign +:+ serializeContainer (put b bs)) (ref_text p) = Some (compose foreign (drop (ref_text p) bs), true)) as Hrm.
    { rewrite (remove_exact _ _ _ _ Hnew), bool_decide_true, Hcl, orb_true_r; [by rewrite (drop_put b)|]. change (ref_text p) with (b_policyRef b). by apply list_elem_of_fmap_2. }
    split; [done|]. intros Hno. rewrite Hrm. unfold view in Hview. rewrite Hno in Hview. cbn in Hview. by injection Hview as <- <-.
Qed.

(** * The transaction *)

(** A text a path can have after a crash; [None]: the path is gone. *)
Definition crash_text (d : Disk) (path : string) (o : option string) : Prop := ∃ e, crash_entry d path e ∧
  match e with None => o = None | Some n => ∃ i s, d_nodes d !! n = Some i ∧ crash_content i s ∧ o = Some s end.

Lemma contents_crash d path S o : contents d path S → crash_text d path o → ∃ s, o = Some s ∧ S s.
Proof.
  intros Hc (e & He & Ho). destruct (Hc e He) as (n & i & -> & Hi & Hs & HS). destruct Ho as (i' & s & Hi' & Hcc & ->). assert (i' = i) as -> by congruence.
  unfold crash_content in Hcc. rewrite Hs in Hcc. exists s. by subst.
Qed.

Section theorems.
Context `{JsonText} `{JsonStrict} `{!JsonTextLaws} (journal_path path : string) (clock : nat → nat → Z) (semantics : MissingKeySemantics).
Hypothesis journal_visible : visible journal_path.
Hypothesis path_visible : visible path.
Hypothesis path_given : path ≠ "".
Hypothesis clock_ok : ∀ t, clocked (clock t).

(** At rest: both files are on disk for good, the journal there is the one in
    memory, and nobody else acts on the directories. *)
Definition at_rest (M : Machine) (j : Journal) (text : string) : Prop :=
  stands journal_path path M j (λ l, l = records j) (λ s, s = text) ∧ Inv j.

(** Whatever the two disks come back with after a crash, the journal has a
    record for every sub-block, and outside the policy's own sub-block the file
    is what it was. *)
Definition accounted (p : PolicyRef) (foreign : string) (peers : list ManagedPolicyBlock) (M : Machine) : Prop := ∀ o o',
  crash_text (w_disk (m_state M)) journal_path o → crash_text (w_disk (m_etc M)) path o' →
  ∃ t l s, o = Some t ∧ o' = Some s ∧ journal_reads t l ∧ coherent l path s ∧ kept p foreign peers s.

Lemma safe_accounted p foreign peers M : safe_for journal_path path p foreign peers M → accounted p foreign peers M.
Proof.
  intros (j & R & S & [_ _ Hr Hs] & Hall) o o' Ho Ho'. destruct (contents_crash _ _ _ _ Hr Ho) as (t & -> & l & Hl & HR). destruct (contents_crash _ _ _ _ Hs Ho') as (s & -> & HS).
  destruct (Hall l s HR HS). by exists t, l, s.
Qed.

Section policy.
Context (p : PolicyRef) (spec : SharedLoginDefsPolicySpec) (M : Machine) (j : Journal) (text foreign : string) (bs : list ManagedPolicyBlock).
Hypothesis enrolled : policySpec p = Some spec.
Hypothesis seen : view text = Some (foreign, bs).
Hypothesis rest : at_rest M j text.
Hypothesis proven : coherent (records j) path text.
Notation apply := (applyManagedPolicy journal_path clock semantics).
Notation peers := (drop (ref_text p) bs).

Lemma apply_run value passes : (nextId j + 1 < 2 ^ 64)%Z → 2 ≤ passes →
  ∃ res M', apply passes path p value M = (res, M') ∧ safe_for journal_path path p foreign peers M' ∧ res ≠ Returned None ∧
    (res = Returned (Some true) → ∃ text', achieved_for journal_path path semantics p spec foreign peers value text' M').
Proof. intros Hn Hp. destruct rest as [Hst Hinv]. by eapply apply_ok. Qed.

(** C8. Crash consistency of apply. From rest, with every sub-block accounted for,
    whichever system calls fail and wherever the run stops: the journal a crash
    leaves has a record for every sub-block the file then has, and the foreign
    text and the other policies' sub-blocks are untouched. *)
Theorem apply_is_crash_consistent value passes : (nextId j + 1 < 2 ^ 64)%Z → 2 ≤ passes → accounted p foreign peers (apply passes path p value M).2.
Proof.
  intros Hn Hp. destruct (apply_run value passes Hn Hp) as (res & M' & -> & Hsafe & _). by apply safe_accounted.
Qed.


(** Apply restarts itself at most once: two passes always give an answer, and
    more give the same one. *)
Theorem apply_takes_two_passes value passes : (nextId j + 1 < 2 ^ 64)%Z → 2 ≤ passes → apply passes path p value M = apply 2 path p value M ∧ (apply 2 path p value M).1 ≠ Returned None.
Proof.
  intros Hn Hp. destruct rest as [Hst Hinv]. split; [|by destruct (apply_run value 2 Hn ltac:(lia)) as (res & M' & -> & _ & ? & _)]. destruct passes as [|[|passes]]; [lia|lia|]. cbn [applyManagedPolicy]. unfold tbind.
  destruct (apply_once_ok journal_path path journal_visible path_visible clock semantics clock_ok p spec enrolled path_given text foreign bs seen M j value Hst Hinv Hn proven) as (res & M1 & -> & Hres).
  destruct res as [[b|[]]|]; [done| |done]. destruct Hres as [(v & Hcl & Hv & j1 & r & b & Hst1 & Hinv1 & Hn1 & Hc1 & Hr1 & Hcoh1 & _) _].
  pose proof (candidate_view p spec enrolled text foreign bs seen v Hv Hcl) as Hview1.
  destruct (apply_once_ok journal_path path journal_visible path_visible clock semantics clock_ok p spec enrolled path_given _ _ _ Hview1 M1 j1 value Hst1 Hinv1 ltac:(by rewrite Hn1) Hcoh1) as (res & M2 & -> & Hres).
  destruct res as [[b'|[]]|]; [done| |done]. destruct Hres as [_ (r' & Hc' & Hs')]. destruct Hr1 as [_ _ _ Hs1]. congruence.
Qed.

End policy.
End theorems.
