(* ===== verification/LoginDefsExamples.v ===== *)
(** A concrete run on login.defs: the hypotheses of the properties of the
    transaction hold of it, and a recovery that loses track of a sub-block. *)

From S2P Require Import Prelude PolicyModel PolicyValue ConfigFile FileModel AtomicWriter AtomicFacts Json JsonRead StateStore TargetStore OwnershipGrammar MutationRecord MutationValid MutationCodec CodecFacts CodecText Journal JournalLoad JournalFacts JournalSteps JournalOwnership JournalDisk JournalExamples Contents TextLines LoginDefsConfig LoginDefsFacts Machine LoginDefsTransaction LoginDefsOwnership LoginDefsEffective LoginDefsSafety LoginDefsTheorems.
Open Scope string_scope.
Open Scope nat_scope.
Open Scope machine_scope.

#[local] Existing Instance ranged_json.
#[local] Existing Instance ranged_json_laws.
#[local] Existing Instance strings_accepted.

Definition login_defs : string := "/etc/login.defs".
Definition max_age : PolicyRef := mkRef "IDENTITY_ACCESS" "PASSWORD_AGING" "password_max_age_days".
Definition max_age_spec : SharedLoginDefsPolicySpec := mkLoginDefsSpec "password_max_age_days" "PASSWORD_AGING" "PASS_MAX_DAYS" DaysWithUnlimited PasswordMaximum.
Definition usual : MissingKeySemantics := mkSemantics 0 (-1).
Definition noons : nat → nat → Z := λ _, noon.

Definition machine (text : string) : Machine := mkMachine started_journal started (mkWorld (one_file login_defs text) []) 0.

Lemma one_file_contents name text : contents (one_file name text) name (λ s, s = text).
Proof.
  intros e [->|He].
  - exists 2%N, (file_inode text). split_and!; [apply lookup_singleton_eq|apply lookup_singleton_eq|done|done].
  - cbn in He. rewrite lookup_empty in He. by apply not_elem_of_nil in He.
Qed.

Lemma durable_contents d j : durable journal_path d j → contents d journal_path (λ t, ∃ l, journal_reads t l ∧ l = records j).
Proof.
  intros (text & document & Hh & Hp & Hd). eapply contents_mono; [by apply holds_contents|]. cbv beta. intros s ->. exists (records j). split; [|done]. by exists document, (nextId j).
Qed.

Lemma machine_at_rest text : at_rest journal_path login_defs (machine text) started_journal text.
Proof.
  destruct started_facts as (Ha & Hw & Hi & _ & Hd). split; [|done]. split; [|done|by apply durable_contents|apply one_file_contents]. split; [done|done|apply quiet_alone|apply one_file_wf].
Qed.

Definition applied_run := applyManagedPolicy journal_path noons usual 2 login_defs max_age "90" (machine sample).

Example applied_run_succeeds : applied_run.1 = Returned (Some true).
Proof. by vm_compute. Qed.

Definition edited : string := compose sample [canonical (ref_text max_age) "PASS_MAX_DAYS" "90"].

Lemma upsert_changes_one_block_witness : ∃ result, upsertPolicyBlock sample (ref_text max_age) "PASS_MAX_DAYS" "90" = Some (result, true) ∧ result = edited ∧
  effectiveValue result "PASS_MAX_DAYS" = Some (Some "90") ∧ removePolicyBlock result (ref_text max_age) = Some (sample, true).
Proof.
  destruct (upsert_changes_one_block sample sample [] max_age max_age_spec "90") as (result & Hup & _ & Heff & _ & Hrm); [vm_compute; reflexivity..|].
  exists result. assert (upsertPolicyBlock sample (ref_text max_age) "PASS_MAX_DAYS" "90" = Some (edited, true)) as He by (vm_compute; reflexivity).
  assert (result = edited) as -> by (change (spec_key max_age_spec) with "PASS_MAX_DAYS" in Hup; congruence). split; [exact He|]. split; [reflexivity|]. split.
  - apply Heff; [vm_compute; reflexivity|apply NoDup_singleton|vm_compute; discriminate].
  - apply Hrm. vm_compute. reflexivity.
Defined.

Lemma journal_path_ok : visible journal_path.
Proof. apply journal_path_visible. Qed.
Lemma login_defs_visible : visible login_defs.
Proof. by vm_compute. Qed.
Lemma noons_clocked t : clocked (noons t).
Proof. apply noon_clocked. Qed.
Lemma sample_coherent : coherent (records started_journal) login_defs sample.
Proof. unfold coherent. exists no_container. by vm_compute. Qed.

Lemma apply_is_crash_consistent_witness : accounted journal_path login_defs max_age sample [] applied_run.2.
Proof.
  refine (apply_is_crash_consistent journal_path login_defs noons usual journal_path_visible login_defs_visible _ noons_clocked max_age max_age_spec (machine sample) started_journal sample sample []
    _ _ (machine_at_rest sample) sample_coherent "90" 2 _ _); [done|reflexivity|vm_compute; reflexivity|vm_compute; reflexivity|lia].
Defined.


Lemma apply_takes_two_passes_witness : applyManagedPolicy journal_path noons usual 7 login_defs max_age "90" (machine sample) = applied_run.
Proof.
  refine (proj1 (apply_takes_two_passes journal_path login_defs noons usual journal_path_visible login_defs_visible _ noons_clocked max_age max_age_spec (machine sample) started_journal sample sample []
    _ _ (machine_at_rest sample) sample_coherent "90" 7 _ _)); [done|reflexivity|vm_compute; reflexivity|vm_compute; reflexivity|lia].
Defined.

(** * Releasing what was applied *)

Definition the_record : MutationRecord := default (makeRecord "" max_age "" "" "") (head (records (m_journal applied_run.2))).

Lemma applied_at_rest : at_rest journal_path login_defs applied_run.2 (m_journal applied_run.2) edited ∧ coherent (records (m_journal applied_run.2)) login_defs edited.
Proof.
  destruct (apply_run journal_path login_defs noons usual journal_path_visible login_defs_visible ltac:(done) noons_clocked max_age max_age_spec (machine sample) started_journal sample sample []
    eq_refl ltac:(vm_compute; reflexivity) (machine_at_rest sample) sample_coherent "90" 2 ltac:(vm_compute; reflexivity) ltac:(lia)) as (res & M' & He & _ & _ & Hach).
  pose proof applied_run_succeeds as Hs. unfold applied_run in *. rewrite He in Hs |- *. cbn [fst snd] in *. destruct (Hach Hs) as (text & _ & n & j & r & b & Hst & Hinv & _ & _ & _ & Hcoh & _).
  destruct (contents_now _ _ _ (st_contents _ _ _ _ _ _ Hst)) as (m & i & Hl & _ & Hi). assert (text = edited) as ->.
  { rewrite <-Hi. assert (lookup_path (w_disk (m_etc M')) login_defs = lookup_path (w_disk (m_etc applied_run.2)) login_defs) as Hq by (unfold applied_run; by rewrite He).
    rewrite Hl in Hq. apply (f_equal (fmap (λ x, i_content x.2))) in Hq. cbn in Hq. assert (Some (i_content i) = Some edited) as [=]; [|done]. rewrite Hq. by vm_compute. }
  rewrite (st_journal _ _ _ _ _ _ Hst). exact (conj (conj Hst Hinv) Hcoh).
Qed.


(** * A record discarded too early *)

Lemma stale_crash d path text :
  existsb (λ e, bool_decide ((n ← e; i ← d_nodes d !! n; i_saved i) = Some text)) (default [] (d_stale d !! path)) = true → crash_text d path (Some text).
Proof.
  intros (e & He & Hs%bool_decide_eq_true)%existsb_exists. exists e. split; [by right; apply list_elem_of_In|]. destruct e as [n|]; [|done].
  apply bind_Some in Hs as (n' & [= <-] & (i & Hi & Hsaved)%bind_Some). exists i, text. unfold crash_content. by rewrite Hsaved.
Qed.

(** The first run writes the sub-block, cannot make it durable, puts the old
    text back and cannot make that durable either: its record stays. The next
    run finds no sub-block in the file, discards the record without a barrier
    for the file, and refuses the new value. A crash can still bring the
    sub-block back, and no record accounts for it. *)
Definition ten_days : MissingKeySemantics := mkSemantics 10 (-1).
Definition unsynced : list Tick := failing (replicate 30 None ++ [Some EIO] ++ replicate 25 None ++ [Some EIO]).
Definition first_run := applyManagedPolicy journal_path noons ten_days 2 login_defs max_age "90"
  (mkMachine started_journal started (mkWorld (one_file login_defs sample) unsynced) 0).
Definition second_run := applyManagedPolicy journal_path noons ten_days 2 login_defs max_age "5" first_run.2.

Example discarded_record_orphans_a_block :
  first_run.1 = Returned (Some false) ∧ status <$> records (m_journal first_run.2) = [Prepared] ∧
  second_run.1 = Returned (Some false) ∧ records (m_journal second_run.2) = [] ∧
  crash_text (w_disk (m_etc second_run.2)) login_defs (Some edited) ∧
  match parseManagedConfig edited with Some model => proveCoherence (m_journal second_run.2) login_defs model = false | None => False end.
Proof. split_and!; [by vm_compute..|apply stale_crash; by vm_compute|by vm_compute]. Qed.
