(* ===== verification/PamStack.v ===== *)
(** PAM services as FIC reads them
    (fic/src/modules/identity_access/pam/PamConfiguration): the rules of a
    service file and the effective stack of a management group with its includes
    expanded.

    Finding and reading the file of a service is a parameter ([read_service]):
    its path and content, or nothing when it is missing or not trusted. A service
    is read once and cached, so one function stands for all readings. Error
    texts are left out. *)

From S2P Require Import Prelude ConfigFile OwnershipGrammar MutationValid TextLines.
Open Scope string_scope.
Open Scope nat_scope.

Inductive PamManagementGroup := GAuth | GAccount | GPassword | GSession.
Inductive PamIncludeKind := KNone | KInclude | KSubstack | KIncludeAll.

#[export] Instance PamManagementGroup_eq_dec : EqDecision PamManagementGroup.
Proof. solve_decision. Defined.
#[export] Instance PamIncludeKind_eq_dec : EqDecision PamIncludeKind.
Proof. solve_decision. Defined.

Record PamRule := mkRule {
  r_source : string;
  r_line : nat;
  r_group : PamManagementGroup;
  r_control : string;
  r_module : string;
  r_arguments : list string;
  r_includeKind : PamIncludeKind;
  r_includeTarget : string
}.

#[export] Instance PamRule_eq_dec : EqDecision PamRule.
Proof. solve_decision. Defined.

(** A rule, or the rule of a substack with its expanded stack. *)
Inductive PamStackEntry := mkEntry (rule : PamRule) (substack : list PamStackEntry).

Definition e_rule (e : PamStackEntry) : PamRule := let 'mkEntry r _ := e in r.
Definition e_substack (e : PamStackEntry) : list PamStackEntry := let 'mkEntry _ s := e in s.
Definition isSubstack (e : PamStackEntry) : bool := bool_decide (r_includeKind (e_rule e) = KSubstack).

Record PamEffectiveStack := mkStack {
  s_service : string;
  s_group : PamManagementGroup;
  s_entries : list PamStackEntry;
  s_sourceFiles : gset string
}.

Definition kMaximumIncludeDepth : nat := 32.
Definition kMaximumCollectedRules : N := 4096.

(** * One line *)

Definition validServiceName (service : string) : bool :=
  negb (is_empty service) && (String.length service <=? 255) &&
  all_chars (λ c, isalnum c || Ascii.eqb c "_" || Ascii.eqb c "-" || Ascii.eqb c ".") service.

Fixpoint skip_spaces (s : string) : string :=
  match s with String c s' => if isspace c then skip_spaces s' else s | EmptyString => "" end.

Fixpoint drop_trailing_spaces (s : string) : string :=
  match s with
  | EmptyString => ""
  | String c s' =>
      match drop_trailing_spaces s' with
      | EmptyString => if isspace c then "" else String c ""
      | r => String c r
      end
  end.

Definition trimCopy (s : string) : string := drop_trailing_spaces (skip_spaces s).

Definition backslash : Ascii.ascii := chr 92.
Definition dquote : Ascii.ascii := chr 34.

(** The parity of the backslashes at the end. *)
Fixpoint odd_tail (odd : bool) (s : string) : bool :=
  match s with
  | EmptyString => odd
  | String c s' => odd_tail (if Ascii.eqb c backslash then negb odd else false) s'
  end.

Definition hasUnescapedContinuation (line : string) : bool := odd_tail false line.

(** The variables of the two scanners. *)
Record Scan := mkScan { sc_quoted : bool; sc_escaped : bool; sc_depth : nat }.
Definition scan_start : Scan := mkScan false false 0.

Fixpoint strip_from (st : Scan) (s : string) : string :=
  match s with
  | EmptyString => ""
  | String c s' =>
      if sc_escaped st then String c (strip_from (mkScan (sc_quoted st) false (sc_depth st)) s')
      else if Ascii.eqb c backslash then String c (strip_from (mkScan (sc_quoted st) true (sc_depth st)) s')
      else if Ascii.eqb c dquote then String c (strip_from (mkScan (negb (sc_quoted st)) false (sc_depth st)) s')
      else if sc_quoted st then String c (strip_from st s')
      else if Ascii.eqb c "[" then String c (strip_from (mkScan false false (S (sc_depth st))) s')
      else if Ascii.eqb c "]" && (0 <? sc_depth st) then String c (strip_from (mkScan false false (pred (sc_depth st))) s')
      else if Ascii.eqb c "#" && (sc_depth st =? 0) then ""
      else String c (strip_from st s')
  end.

Definition stripComment (line : string) : string := strip_from scan_start line.

(** [current] is the token under construction. *)
Fixpoint tokenize_from (st : Scan) (current : string) (tokens : list string) (s : string) : option (list string) :=
  match s with
  | EmptyString =>
      if sc_escaped st || sc_quoted st || negb (sc_depth st =? 0) then None
      else Some (if is_empty current then tokens else (tokens ++ [current])%list)
  | String c s' =>
      let push := current +:+ String c "" in
      if sc_escaped st then tokenize_from (mkScan (sc_quoted st) false (sc_depth st)) push tokens s'
      else if Ascii.eqb c backslash then tokenize_from (mkScan (sc_quoted st) true (sc_depth st)) push tokens s'
      else if Ascii.eqb c dquote then tokenize_from (mkScan (negb (sc_quoted st)) false (sc_depth st)) push tokens s'
      else
        match (if sc_quoted st then Some (sc_depth st)
               else if Ascii.eqb c "[" then Some (S (sc_depth st))
               else if Ascii.eqb c "]" then match sc_depth st with 0 => None | S d => Some d end
               else Some (sc_depth st)) with
        | None => None
        | Some depth =>
            let st' := mkScan (sc_quoted st) false depth in
            if isspace c && negb (sc_quoted st) && (depth =? 0)
            then if is_empty current then tokenize_from st' "" tokens s' else tokenize_from st' "" (tokens ++ [current])%list s'
            else tokenize_from st' push tokens s'
        end
  end.

Definition tokenize (line : string) : option (list string) := tokenize_from scan_start "" [] line.

Definition parseManagementGroup (token : string) : option PamManagementGroup :=
  let token := match token with String "-" rest => rest | _ => token end in
  if String.eqb token "auth" then Some GAuth
  else if String.eqb token "account" then Some GAccount
  else if String.eqb token "password" then Some GPassword
  else if String.eqb token "session" then Some GSession
  else None.

(** [None]: malformed; [Some None]: nothing on the line. *)
Definition parseLogicalLine (source raw : string) (lineNumber : nat) : option (option PamRule) :=
  let line := trimCopy (stripComment raw) in
  if is_empty line then Some None
  else match tokenize line with
       | None => None
       | Some [] => Some None
       | Some (first :: rest) =>
           if String.eqb first "@include" then
             match rest with
             | [target] => if validServiceName target then Some (Some (mkRule source lineNumber GAuth "" "" [] KIncludeAll target)) else None
             | _ => None
             end
           else match parseManagementGroup first, rest with
                | Some group, control :: module :: arguments =>
                    if String.eqb control "include" || String.eqb control "substack" then
                      if validServiceName module
                      then Some (Some (mkRule source lineNumber group control "" [] (if String.eqb control "include" then KInclude else KSubstack) module))
                      else None
                    else Some (Some (mkRule source lineNumber group control module arguments KNone ""))
                | _, _ => None
                end
       end.

(** The lines [std::getline] gives. *)
Definition getlines (content : string) : list string := drop_last_if lf <$> chunks content.

Fixpoint drop_last (s : string) : string :=
  match s with EmptyString => "" | String c EmptyString => "" | String c s' => String c (drop_last s') end.

Definition add_rule (rules : list PamRule) (o : option PamRule) : list PamRule :=
  match o with None => rules | Some r => (rules ++ [r])%list end.

Fixpoint parse_rules (source : string) (lines : list string) (physical : nat) (logicalLine : string) (logicalNumber : nat)
    (rules : list PamRule) : option (list PamRule) :=
  match lines with
  | [] =>
      if is_empty logicalLine then Some rules
      else match parseLogicalLine source logicalLine logicalNumber with None => None | Some o => Some (add_rule rules o) end
  | line :: lines =>
      let physical := S physical in
      let number := if is_empty logicalLine then physical else logicalNumber in
      let logical := logicalLine +:+ line in
      if hasUnescapedContinuation logical then parse_rules source lines physical (drop_last logical +:+ " ") number rules
      else match parseLogicalLine source logical number with
           | None => None
           | Some o => parse_rules source lines physical "" number (add_rule rules o)
           end
  end.

Definition parseRulesContent (source content : string) : option (list PamRule) :=
  parse_rules source (getlines content) 0 "" 0 [].

(** * The effective stack *)

Definition pamManagementGroupName (group : PamManagementGroup) : string :=
  match group with GAuth => "auth" | GAccount => "account" | GPassword => "password" | GSession => "session" end.

Fixpoint flattenStack (e : PamStackEntry) : list PamRule :=
  let 'mkEntry rule substack := e in
  if bool_decide (r_includeKind rule = KSubstack) then concat (flattenStack <$> substack) else [rule].

Section configuration.
Context (read_service : string → option (string * string)).

Definition parseService (service : string) : option (string * list PamRule) :=
  match read_service service with
  | None => None
  | Some (path, content) => match parseRulesContent path content with None => None | Some rules => Some (path, rules) end
  end.

(** The number of entries so far and the files seen so far. *)
Definition Built : Type := list PamStackEntry * (N * gset string).

(** One rule of a service; [include] expands another service onto entries. *)
Definition build_rule (include : string → list PamStackEntry → N * gset string → option Built)
    (group : PamManagementGroup) (rule : PamRule) (built : Built) : option Built :=
  let '(entries, (count, files)) := built in
  match r_includeKind rule with
  | KIncludeAll => include (r_includeTarget rule) entries (count, files)
  | KInclude => if bool_decide (r_group rule = group) then include (r_includeTarget rule) entries (count, files) else Some built
  | KSubstack =>
      if negb (bool_decide (r_group rule = group)) then Some built
      else if (kMaximumCollectedRules <? count + 1)%N then None
      else match include (r_includeTarget rule) [] (count + 1, files)%N with
           | None => None
           | Some (substack, counts) => Some ((entries ++ [mkEntry rule substack])%list, counts)
           end
  | KNone =>
      if negb (bool_decide (r_group rule = group)) then Some built
      else if (kMaximumCollectedRules <? count + 1)%N then None
      else Some ((entries ++ [mkEntry rule []])%list, (count + 1, files)%N)
  end.

Fixpoint build_rules (include : string → list PamStackEntry → N * gset string → option Built) (group : PamManagementGroup)
    (rules : list PamRule) (built : Built) : option Built :=
  match rules with
  | [] => Some built
  | rule :: rules => match build_rule include group rule built with None => None | Some built => build_rules include group rules built end
  end.

(** [budget] is how deep the includes may still go: 33 at the top, where the
    source's [depth] is 0; with none left the source's depth is above its limit. *)
Fixpoint buildEffectiveStackRecursive (budget : nat) (group : PamManagementGroup) (recursion : gset string) (service : string)
    (entries : list PamStackEntry) (counts : N * gset string) : option Built :=
  match budget with
  | 0 => None
  | S budget =>
      let key := service +:+ ":" +:+ pamManagementGroupName group in
      if decide (key ∈ recursion) then None
      else match parseService service with
           | None => None
           | Some (path, rules) =>
               build_rules (buildEffectiveStackRecursive budget group ({[key]} ∪ recursion)) group rules
                 (entries, (counts.1, {[path]} ∪ counts.2))
           end
  end.

Definition buildEffectiveStack (service : string) (group : PamManagementGroup) : option PamEffectiveStack :=
  match buildEffectiveStackRecursive (S kMaximumIncludeDepth) group ∅ service [] (0%N, ∅) with
  | None => None
  | Some (entries, (_, files)) => Some (mkStack service group entries files)
  end.

Definition collectRules (service : string) (group : PamManagementGroup) : option (list PamRule * gset string) :=
  match buildEffectiveStack service group with
  | None => None
  | Some stack => Some (concat (flattenStack <$> s_entries stack), s_sourceFiles stack)
  end.
End configuration.

(** * Checks *)

Definition common_password : string := joined ((λ s, s +:+ eol)
  <$> ["# quality first";
       "password requisite pam_pwquality.so retry=3";
       "password [success=1 \";
       "default=ignore] pam_unix.so use_authtok # yescrypt";
       "password substack other"]).
Definition etc_pam (service : string) : option (string * string) :=
  if String.eqb service "passwd" then Some ("/etc/pam.d/passwd", "@include common-password" +:+ eol)
  else if String.eqb service "common-password" then Some ("/etc/pam.d/common-password", common_password)
  else if String.eqb service "other" then Some ("/etc/pam.d/other", "password required pam_deny.so" +:+ eol +:+ "auth required pam_deny.so")
  else None.

Example passwd_stack :
  match buildEffectiveStack etc_pam "passwd" GPassword with
  | Some stack =>
      (λ e, (r_line (e_rule e), r_control (e_rule e), r_module (e_rule e), r_arguments (e_rule e), length (e_substack e))) <$> s_entries stack =
        [(2, "requisite", "pam_pwquality.so", ["retry=3"], 0); (3, "[success=1  default=ignore]", "pam_unix.so", ["use_authtok"], 0); (5, "substack", "", [], 1)] ∧
      bool_decide (s_sourceFiles stack = {["/etc/pam.d/passwd"; "/etc/pam.d/common-password"; "/etc/pam.d/other"]}) = true
  | None => False
  end.
Proof. vm_compute. split; reflexivity. Qed.

(** An include of itself is refused. *)
Example cyclic_include : buildEffectiveStack (λ s, Some (s, "@include a" +:+ eol)) "a" GAuth = None.
Proof. by vm_compute. Qed.
