(* ===== verification/PamFlow.v ===== *)
(** The control flow of a PAM stack
    (fic/src/modules/identity_access/pam/PamControlFlowAnalyzer.cpp): a symbolic
    execution of all the ways a stack can go, and what FIC concludes from it
    about password enforcement and account lockout.

    Return codes are texts, as in the source. Error texts and the messages of
    violations are left out: a call that returns false is [None]. The incident
    gate, which has no provider descriptor, is not a provider here: asking for
    its module throws. *)

From S2P Require Import Prelude PolicyValue ConfigFile OwnershipGrammar MutationValid TextLines PamStack.
Open Scope string_scope.
Open Scope nat_scope.

(** * Platform *)

Inductive PamTrustedAuthenticationBypassReason := AlreadyPrivilegedCaller | ExplicitPasswordlessLogin.
Inductive PamTrustedAuthenticationExclusionReason := ExplicitSubjectExclusion.
Inductive PamCapability := AuthenticationLockout | PasswordQuality | PasswordHistory | IncidentAccessGate.
Inductive PamProviderKind := PamFaillock | PamTally2 | PamTally | PamPwquality | PamPasswdqc | PamCracklib | PamPwhistory | PamUnixHistory.
Inductive PamIdentitySubjectScope := AllPamSubjects | LocalUsersOnly.

#[export] Instance PamTrustedAuthenticationBypassReason_eq_dec : EqDecision PamTrustedAuthenticationBypassReason.
Proof. solve_decision. Defined.
#[export] Instance PamTrustedAuthenticationExclusionReason_eq_dec : EqDecision PamTrustedAuthenticationExclusionReason.
Proof. solve_decision. Defined.
#[export] Instance PamCapability_eq_dec : EqDecision PamCapability.
Proof. solve_decision. Defined.
#[export] Instance PamProviderKind_eq_dec : EqDecision PamProviderKind.
Proof. solve_decision. Defined.
#[export] Instance PamIdentitySubjectScope_eq_dec : EqDecision PamIdentitySubjectScope.
Proof. solve_decision. Defined.

Record PamTrustedAuthenticationBypassRule := mkBypassRule {
  by_service : string; by_module : string; by_reason : PamTrustedAuthenticationBypassReason;
  by_control : string; by_arguments : list string; by_source : option string
}.
Record PamTrustedAuthenticationExclusionRule := mkExclusionRule {
  ex_service : string; ex_module : string; ex_reason : PamTrustedAuthenticationExclusionReason; ex_excludedUser : string;
  ex_control : string; ex_arguments : list string; ex_source : option string; ex_enforcedControl : string
}.
Record PamCapabilityConfig := mkCapability {
  cap_capability : PamCapability; cap_provider : PamProviderKind; cap_configPath : string; cap_subjectScope : PamIdentitySubjectScope
}.
Record PamPlatformConfig := mkPlatform {
  capabilities : list PamCapabilityConfig;
  trustedAuthenticationBypasses : list PamTrustedAuthenticationBypassRule;
  trustedAuthenticationExclusions : list PamTrustedAuthenticationExclusionRule
}.

Definition pamProviderModuleName (provider : PamProviderKind) : string :=
  match provider with
  | PamFaillock => "pam_faillock.so"
  | PamTally2 => "pam_tally2.so"
  | PamTally => "pam_tally.so"
  | PamPwquality => "pam_pwquality.so"
  | PamPasswdqc => "pam_passwdqc.so"
  | PamCracklib => "pam_cracklib.so"
  | PamPwhistory => "pam_pwhistory.so"
  | PamUnixHistory => "pam_unix.so"
  end.

(** * Paths (std::filesystem) *)

Fixpoint split_slash (s : string) : list string :=
  match s with
  | EmptyString => [""]
  | String c s' =>
      if Ascii.eqb c "/" then "" :: split_slash s'
      else match split_slash s' with [] => [String c ""] | p :: l => String c p :: l end
  end.

(** [filename]: what follows the last slash. *)
Definition filename (path : string) : string := List.last (split_slash path) "".

(** The elements of a path after dots and double dots are gone, last first;
    [trailing]: the path ends in a separator. *)
Fixpoint normal_elements (absolute : bool) (acc : list string) (trailing : bool) (l : list string) : list string * bool :=
  match l with
  | [] => (acc, trailing)
  | e :: l =>
      if is_empty e then normal_elements absolute acc (if bool_decide (l = []) then true else trailing) l
      else if String.eqb e "." then normal_elements absolute acc true l
      else if String.eqb e ".." then
        match acc with
        | [] => if absolute then normal_elements absolute [] true l else normal_elements absolute [".."] false l
        | last :: acc' => if String.eqb last ".." then normal_elements absolute (".." :: acc) false l else normal_elements absolute acc' true l
        end
      else normal_elements absolute (e :: acc) false l
  end.

(** [lexically_normal] of the source paths that are compared. *)
Definition lexically_normal (path : string) : bool * list string * bool :=
  if is_empty path then (false, [], true)
  else
    let absolute := String.prefix "/" path in
    let '(acc, trailing) := normal_elements absolute [] false (split_slash path) in
    (absolute, reverse acc, trailing && match acc with [] => false | last :: _ => negb (String.eqb last "..") end).

Definition same_source (candidate : option string) (source : string) : bool :=
  match candidate with None => true | Some c => bool_decide (lexically_normal c = lexically_normal source) end.

(** * States *)

Definition kMaximumSymbolicStates : N := 8192.
Definition kMaximumSymbolicTransitions : N := 250000.
Definition kMaximumTraceSteps : N := 256.
Definition kMaximumSubstackDepth : nat := 32.

Inductive Impression := IUndefined | IPositive | INegative.
Inductive IdentitySubject := SubUnknown | SubLocal | SubNonLocal.
Inductive ActionKind := AIgnore | ABad | ADie | AOk | ADone | AReset | AJump.
Inductive PamModuleRole := CredentialAuthenticator | CredentialCollector | Auxiliary | Gate | Enforcement | TrustedAuthenticator | UnknownRole.

#[export] Instance Impression_eq_dec : EqDecision Impression.
Proof. solve_decision. Defined.
#[export] Instance IdentitySubject_eq_dec : EqDecision IdentitySubject.
Proof. solve_decision. Defined.
#[export] Instance ActionKind_eq_dec : EqDecision ActionKind.
Proof. solve_decision. Defined.
#[export] Instance PamModuleRole_eq_dec : EqDecision PamModuleRole.
Proof. solve_decision. Defined.

Record ControlAction := mkAction { a_kind : ActionKind; a_jump : nat }.
Record ParsedControl := mkControl { c_actions : gmap string ControlAction; c_default : ControlAction }.

Record TrustedAuthenticationBypassEvidence := mkBypass {
  tb_service : string; tb_module : string; tb_reason : PamTrustedAuthenticationBypassReason; tb_source : string; tb_line : nat
}.
Record TrustedAuthenticationExclusionEvidence := mkExclusion {
  te_service : string; te_module : string; te_reason : PamTrustedAuthenticationExclusionReason; te_excludedUser : string;
  te_source : string; te_line : nat
}.

Record Evidence := mkEvidence {
  providerReached : bool;
  providerSucceeded : bool;
  preauthSucceeded : bool;
  preauthDenied : bool;
  preauthFailedClosed : bool;
  authfailReached : bool;
  authsuccSucceeded : bool;
  authsuccDenied : bool;
  accountSucceeded : bool;
  authenticationSuccessObserved : bool;
  authenticationFailureObserved : bool;
  passwordQualitySucceeded : bool;
  passwordHistoryReached : bool;
  passwordHistorySucceeded : bool;
  passwordTokenProduced : bool;
  passwordHistoryTokenAvailable : bool;
  trustedAuthenticationBypass : option TrustedAuthenticationBypassEvidence;
  trustedAuthenticationExclusion : option TrustedAuthenticationExclusionEvidence
}.

Definition no_evidence : Evidence :=
  mkEvidence false false false false false false false false false false false false false false false false None None.

Record PamFlowStep := mkStep {
  p_source : string; p_line : nat; p_module : string; p_result : string; p_control : string; p_action : string
}.

Record ExecutionState := mkState {
  x_impression : Impression;
  x_status : string;
  x_subject : IdentitySubject;
  x_evidence : Evidence;
  x_trace : list PamFlowStep;
  x_traceTruncated : bool
}.

Definition initial_state : ExecutionState := mkState IUndefined "perm_denied" SubUnknown no_evidence [] false.

#[export] Instance TrustedAuthenticationBypassEvidence_eq_dec : EqDecision TrustedAuthenticationBypassEvidence.
Proof. solve_decision. Defined.
#[export] Instance TrustedAuthenticationExclusionEvidence_eq_dec : EqDecision TrustedAuthenticationExclusionEvidence.
Proof. solve_decision. Defined.
#[export] Instance Evidence_eq_dec : EqDecision Evidence.
Proof. solve_decision. Defined.

Definition set_evidence (e : Evidence) (s : ExecutionState) : ExecutionState :=
  mkState (x_impression s) (x_status s) (x_subject s) e (x_trace s) (x_traceTruncated s).
Definition set_subject (sub : IdentitySubject) (s : ExecutionState) : ExecutionState :=
  mkState (x_impression s) (x_status s) sub (x_evidence s) (x_trace s) (x_traceTruncated s).
Definition set_decision (i : Impression) (status : string) (s : ExecutionState) : ExecutionState :=
  mkState i status (x_subject s) (x_evidence s) (x_trace s) (x_traceTruncated s).

Definition push_step (step : PamFlowStep) (s : ExecutionState) : ExecutionState :=
  if (N.of_nat (length (x_trace s)) <? kMaximumTraceSteps)%N
  then mkState (x_impression s) (x_status s) (x_subject s) (x_evidence s) (x_trace s ++ [step])%list (x_traceTruncated s)
  else mkState (x_impression s) (x_status s) (x_subject s) (x_evidence s) (x_trace s) true.

(** * Controls *)

Definition lower (c : Ascii.ascii) : Ascii.ascii :=
  if char_in "A" "Z" c then Ascii.ascii_of_N (Ascii.N_of_ascii c + 32) else c.
Fixpoint lowerCopy (s : string) : string :=
  match s with EmptyString => "" | String c s' => String (lower c) (lowerCopy s') end.

Definition moduleBaseName (rule : PamRule) : string := filename (r_module rule).
Definition hasArgument (rule : PamRule) (argument : string) : bool := bool_decide (argument ∈ r_arguments rule).

Definition matchingTrustedAuthenticationExclusion (rule : PamRule) (service : string) (platform : PamPlatformConfig)
    : option PamTrustedAuthenticationExclusionRule :=
  List.find (λ c,
    String.eqb (ex_service c) service && String.eqb (ex_module c) (moduleBaseName rule) &&
    (String.eqb (ex_control c) (r_control rule) || negb (is_empty (ex_enforcedControl c)) && String.eqb (ex_enforcedControl c) (r_control rule)) &&
    bool_decide (ex_arguments c = r_arguments rule) && same_source (ex_source c) (r_source rule))
    (trustedAuthenticationExclusions platform).

Definition allReturnCodes : list string :=
  ["success"; "open_err"; "symbol_err"; "service_err"; "system_err"; "buf_err"; "perm_denied"; "auth_err";
   "cred_insufficient"; "authinfo_unavail"; "user_unknown"; "maxtries"; "new_authtok_reqd"; "acct_expired"; "session_err";
   "cred_unavail"; "cred_expired"; "cred_err"; "no_module_data"; "conv_err"; "authtok_err"; "authtok_recover_err";
   "authtok_lock_busy"; "authtok_disable_aging"; "try_again"; "ignore"; "abort"; "authtok_expired"; "module_unknown";
   "bad_item"; "conv_again"; "incomplete"].

Definition knownReturnCode (value : string) : bool := bool_decide (value ∈ allReturnCodes).

Fixpoint decimal (acc : N) (s : string) : N :=
  match s with EmptyString => acc | String c s' => decimal (acc * 10 + (Ascii.N_of_ascii c - 48))%N s' end.

(** A number above the limit is refused, one [stoul] cannot represent too. *)
Definition parseAction (token : string) : option ControlAction :=
  let action := lowerCopy token in
  if String.eqb action "ignore" then Some (mkAction AIgnore 0)
  else if String.eqb action "bad" then Some (mkAction ABad 0)
  else if String.eqb action "die" then Some (mkAction ADie 0)
  else if String.eqb action "ok" then Some (mkAction AOk 0)
  else if String.eqb action "done" then Some (mkAction ADone 0)
  else if String.eqb action "reset" then Some (mkAction AReset 0)
  else if is_empty action || negb (all_chars isdigit action) then None
  else
    let n := decimal 0 action in
    if (n =? 0)%N then Some (mkAction AIgnore 0)
    else if (kMaximumSymbolicStates <? n)%N then None
    else Some (mkAction AJump (N.to_nat n)).

(** The words of [std::istream >>]. *)
Fixpoint words_from (current : string) (s : string) : list string :=
  match s with
  | EmptyString => if is_empty current then [] else [current]
  | String c s' =>
      if isspace c then if is_empty current then words_from "" s' else current :: words_from "" s'
      else words_from (current +:+ String c "") s'
  end.
Definition words (s : string) : list string := words_from "" s.

Definition setSimple (success failure : ActionKind) : ParsedControl :=
  mkControl (<["new_authtok_reqd" := mkAction success 0]> {["success" := mkAction success 0]}) (mkAction failure 0).

Definition assign (parsed : ParsedControl) (result : string) (action : ControlAction) : ParsedControl :=
  if String.eqb result "default" then mkControl (c_actions parsed) action
  else mkControl (<[result := action]> (c_actions parsed)) (c_default parsed).

Fixpoint parse_assignments (assignments : list string) (assigned : gset string) (parsed : ParsedControl) : option (gset string * ParsedControl) :=
  match assignments with
  | [] => Some (assigned, parsed)
  | assignment :: rest =>
      match cut "=" assignment with
      | None => None
      | Some (result, actionText) =>
          if is_empty result || is_empty actionText then None
          else if negb (String.eqb result "default") && negb (knownReturnCode result) then None
          else if decide (result ∈ assigned) then None
          else match parseAction actionText with
               | None => None
               | Some action => parse_assignments rest ({[result]} ∪ assigned) (assign parsed result action)
               end
      end
  end.

Definition bracketed (control : string) : option string :=
  match control with
  | String "[" rest => if bool_decide (last_char rest = Some "]"%char) then Some (drop_last rest) else None
  | _ => None
  end.

Definition parseControl (rule : PamRule) : option ParsedControl :=
  let control := lowerCopy (r_control rule) in
  if String.eqb control "required" then Some (setSimple AOk ABad)
  else if String.eqb control "requisite" then Some (setSimple AOk ADie)
  else if String.eqb control "sufficient" then Some (setSimple ADone AIgnore)
  else if String.eqb control "optional" then Some (setSimple AOk AIgnore)
  else match bracketed control with
       | None => None
       | Some inside =>
           match parse_assignments (words inside) ∅ (mkControl ∅ (mkAction ABad 0)) with
           | None => None
           | Some (assigned, parsed) => if decide (assigned = ∅) then None else Some parsed
           end
       end.

Definition action_of (control : ParsedControl) (result : string) : ControlAction :=
  default (c_default control) (c_actions control !! result).

(** * What a module may answer *)

Definition moduleOutcomes (rule : PamRule) (service : string) (platform : PamPlatformConfig) : list string :=
  let module := moduleBaseName rule in
  if String.eqb module "pam_permit.so" then ["success"]
  else if String.eqb module "pam_deny.so" then (if bool_decide (r_group rule = GPassword) then ["authtok_err"] else ["auth_err"])
  else if String.eqb module "pam_rootok.so" then ["success"; "auth_err"]
  else if String.eqb module "pam_succeed_if.so" then
    match matchingTrustedAuthenticationExclusion rule service platform with
    | Some _ => ["success"; "auth_err"]
    | None => ["success"; "auth_err"; "service_err"]
    end
  else if String.eqb module "pam_localuser.so" then ["success"; "perm_denied"; "user_unknown"; "service_err"; "system_err"]
  else if String.eqb module "pam_faillock.so" then ["success"; "auth_err"; "buf_err"; "conv_err"; "incomplete"; "ignore"]
  else if String.eqb module "pam_pwquality.so" then
    ["success"; "authtok_err"; "authtok_recover_err"; "authtok_lock_busy"; "user_unknown"; "maxtries"; "try_again"; "incomplete"]
  else if String.eqb module "pam_passwdqc.so" then
    ["success"; "authtok_err"; "authtok_recover_err"; "authtok_lock_busy"; "user_unknown"; "maxtries"]
  else if String.eqb module "pam_pwhistory.so" then
    ["success"; "system_err"; "authtok_err"; "authtok_recover_err"; "authtok_lock_busy"; "user_unknown"; "maxtries"; "try_again"; "incomplete"; "ignore"]
  else if String.eqb module "pam_tcb.so" && bool_decide (r_group rule = GAuth) then
    ["success"; "abort"; "system_err"; "buf_err"; "conv_err"; "incomplete"; "user_unknown"; "auth_err"; "authtok_err"; "authinfo_unavail"]
  else if String.eqb module "pam_tcb.so" && bool_decide (r_group rule = GAccount) then
    ["success"; "abort"; "user_unknown"; "authinfo_unavail"; "cred_insufficient"; "acct_expired"; "new_authtok_reqd"]
  else if String.eqb module "pam_gnome_keyring.so" && bool_decide (r_group rule = GAuth) then
    ["success"; "service_err"; "authtok_recover_err"; "system_err"; "buf_err"; "bad_item"]
  else if String.eqb module "pam_unix.so" then
    if bool_decide (r_group rule = GPassword)
    then ["success"; "authtok_err"; "authtok_recover_err"; "authtok_lock_busy"; "authtok_disable_aging"; "user_unknown"; "maxtries"; "try_again"; "incomplete"]
    else ["success"; "auth_err"; "user_unknown"; "maxtries"; "authinfo_unavail"; "cred_insufficient"; "incomplete"]
  else allReturnCodes.

Definition authenticationFailureResult (result : string) : bool :=
  bool_decide (result ∈ ["auth_err"; "cred_insufficient"; "authinfo_unavail"; "user_unknown"; "maxtries"]).

Definition moduleRole (module : string) : PamModuleRole :=
  if bool_decide (module ∈ ["pam_ccreds.so"; "pam_krb5.so"; "pam_ldap.so"; "pam_pkcs11.so"; "pam_sss.so"; "pam_tcb.so"; "pam_unix.so"; "pam_winbind.so"])
  then CredentialAuthenticator
  else if bool_decide (module ∈ ["pam_userpass.so"]) then CredentialCollector
  else if bool_decide (module ∈ ["pam_access.so"; "pam_deny.so"; "pam_env.so"; "pam_faildelay.so"; "pam_localuser.so"; "pam_nologin.so"; "pam_securetty.so";
                                 "pam_sepermit.so"; "pam_shells.so"; "pam_succeed_if.so"; "pam_time.so"; "pam_wheel.so"])
  then Gate
  else if bool_decide (module ∈ ["pam_gnome_keyring.so"]) then Auxiliary
  else if String.eqb module "pam_faillock.so" then Enforcement
  else if String.eqb module "pam_rootok.so" then TrustedAuthenticator
  else UnknownRole.

(** * Evidence of one answer *)

Definition record_provider (provider : PamProviderKind) (rule : PamRule) (result : string) (e : Evidence) : Evidence :=
  if String.eqb (moduleBaseName rule) (pamProviderModuleName provider) then
    mkEvidence true (providerSucceeded e || String.eqb result "success") (preauthSucceeded e) (preauthDenied e) (preauthFailedClosed e)
      (authfailReached e) (authsuccSucceeded e) (authsuccDenied e) (accountSucceeded e) (authenticationSuccessObserved e)
      (authenticationFailureObserved e) (passwordQualitySucceeded e) (passwordHistoryReached e) (passwordHistorySucceeded e)
      (passwordTokenProduced e) (passwordHistoryTokenAvailable e) (trustedAuthenticationBypass e) (trustedAuthenticationExclusion e)
  else e.

Definition record_quality (rule : PamRule) (result : string) (e : Evidence) : Evidence :=
  if bool_decide (r_group rule = GPassword) && String.eqb (moduleBaseName rule) "pam_pwquality.so" then
    mkEvidence (providerReached e) (providerSucceeded e) (preauthSucceeded e) (preauthDenied e) (preauthFailedClosed e)
      (authfailReached e) (authsuccSucceeded e) (authsuccDenied e) (accountSucceeded e) (authenticationSuccessObserved e)
      (authenticationFailureObserved e) (passwordQualitySucceeded e || String.eqb result "success") (passwordHistoryReached e)
      (passwordHistorySucceeded e) (passwordTokenProduced e || String.eqb result "success") (passwordHistoryTokenAvailable e)
      (trustedAuthenticationBypass e) (trustedAuthenticationExclusion e)
  else e.

Definition record_history (rule : PamRule) (result : string) (e : Evidence) : Evidence :=
  if bool_decide (r_group rule = GPassword) && String.eqb (moduleBaseName rule) "pam_pwhistory.so" && hasArgument rule "use_authtok" then
    mkEvidence (providerReached e) (providerSucceeded e) (preauthSucceeded e) (preauthDenied e) (preauthFailedClosed e)
      (authfailReached e) (authsuccSucceeded e) (authsuccDenied e) (accountSucceeded e) (authenticationSuccessObserved e)
      (authenticationFailureObserved e) (passwordQualitySucceeded e) true (passwordHistorySucceeded e || String.eqb result "success")
      (passwordTokenProduced e) (if passwordHistoryReached e then passwordHistoryTokenAvailable e else passwordTokenProduced e)
      (trustedAuthenticationBypass e) (trustedAuthenticationExclusion e)
  else e.

Definition record_faillock (rule : PamRule) (result : string) (e : Evidence) : Evidence :=
  let good := String.eqb result "success" in
  let with_flags preS preD failR succS succD account :=
    mkEvidence (providerReached e) (providerSucceeded e) preS preD (preauthFailedClosed e) failR succS succD account
      (authenticationSuccessObserved e) (authenticationFailureObserved e) (passwordQualitySucceeded e) (passwordHistoryReached e)
      (passwordHistorySucceeded e) (passwordTokenProduced e) (passwordHistoryTokenAvailable e) (trustedAuthenticationBypass e)
      (trustedAuthenticationExclusion e) in
  if bool_decide (r_group rule = GAccount) && good then
    with_flags (preauthSucceeded e) (preauthDenied e) (authfailReached e) (authsuccSucceeded e) (authsuccDenied e) true
  else if hasArgument rule "preauth" then
    with_flags (preauthSucceeded e || good) (preauthDenied e || String.eqb result "auth_err") (authfailReached e) (authsuccSucceeded e)
      (authsuccDenied e) (accountSucceeded e)
  else if hasArgument rule "authfail" then
    with_flags (preauthSucceeded e) (preauthDenied e) true (authsuccSucceeded e) (authsuccDenied e) (accountSucceeded e)
  else if hasArgument rule "authsucc" then
    with_flags (preauthSucceeded e) (preauthDenied e) (authfailReached e) (authsuccSucceeded e || good)
      (authsuccDenied e || negb good && negb (String.eqb result "ignore")) (accountSucceeded e)
  else e.

Definition record_authentication (provider : PamProviderKind) (rule : PamRule) (result : string) (e : Evidence) : Evidence :=
  let module := moduleBaseName rule in
  let expectedProvider := String.eqb module (pamProviderModuleName provider) in
  let role := moduleRole module in
  let observe success failure :=
    mkEvidence (providerReached e) (providerSucceeded e) (preauthSucceeded e) (preauthDenied e) (preauthFailedClosed e)
      (authfailReached e) (authsuccSucceeded e) (authsuccDenied e) (accountSucceeded e) (authenticationSuccessObserved e || success)
      (authenticationFailureObserved e || failure) (passwordQualitySucceeded e) (passwordHistoryReached e) (passwordHistorySucceeded e)
      (passwordTokenProduced e) (passwordHistoryTokenAvailable e) (trustedAuthenticationBypass e) (trustedAuthenticationExclusion e) in
  if bool_decide (r_group rule = GAuth) && negb expectedProvider && bool_decide (role = CredentialAuthenticator ∨ role = UnknownRole) then
    observe (String.eqb result "success") (authenticationFailureResult result)
  else if bool_decide (r_group rule = GAuth) && bool_decide (role = TrustedAuthenticator) then observe (String.eqb result "success") false
  else e.

Definition recordEvidence (provider : PamProviderKind) (rule : PamRule) (result : string) (e : Evidence) : Evidence :=
  let e := record_history rule result (record_quality rule result (record_provider provider rule result e)) in
  if bool_decide (provider = PamFaillock) && String.eqb (moduleBaseName rule) (pamProviderModuleName provider)
  then record_faillock rule result e
  else record_authentication provider rule result e.

(** [None]: the answer contradicts an earlier one. *)
Definition refineIdentitySubject (subject : IdentitySubject) (rule : PamRule) (result : string) : option IdentitySubject :=
  if negb (String.eqb (moduleBaseName rule) "pam_localuser.so") then Some subject
  else
    let observed := if String.eqb result "success" then SubLocal
                    else if String.eqb result "perm_denied" || String.eqb result "user_unknown" then SubNonLocal else SubUnknown in
    if bool_decide (observed = SubUnknown) then Some subject
    else if negb (bool_decide (subject = SubUnknown)) && negb (bool_decide (subject = observed)) then None
    else Some observed.

Definition recordProviderFailClosedEvidence (provider : PamProviderKind) (rule : PamRule) (result : string) (action : ControlAction) (e : Evidence) : Evidence :=
  if negb (bool_decide (provider = PamFaillock)) || negb (String.eqb (moduleBaseName rule) "pam_faillock.so") || negb (hasArgument rule "preauth") ||
     String.eqb result "success" || String.eqb result "new_authtok_reqd" || String.eqb result "auth_err"
  then e
  else mkEvidence (providerReached e) (providerSucceeded e) (preauthSucceeded e) (preauthDenied e)
         (preauthFailedClosed e || bool_decide (a_kind action = ABad ∨ a_kind action = ADie)) (authfailReached e) (authsuccSucceeded e)
         (authsuccDenied e) (accountSucceeded e) (authenticationSuccessObserved e) (authenticationFailureObserved e)
         (passwordQualitySucceeded e) (passwordHistoryReached e) (passwordHistorySucceeded e) (passwordTokenProduced e)
         (passwordHistoryTokenAvailable e) (trustedAuthenticationBypass e) (trustedAuthenticationExclusion e).

Definition matchingTrustedAuthenticationBypass (rule : PamRule) (service : string) (platform : PamPlatformConfig)
    : option PamTrustedAuthenticationBypassRule :=
  List.find (λ c,
    String.eqb (by_service c) service && String.eqb (by_module c) (moduleBaseName rule) &&
    (is_empty (by_control c) || String.eqb (by_control c) (r_control rule)) &&
    (bool_decide (by_arguments c = []) || bool_decide (by_arguments c = r_arguments rule)) && same_source (by_source c) (r_source rule))
    (trustedAuthenticationBypasses platform).

Definition recordTrustedAuthenticationBypass (rule : PamRule) (result : string) (action : ControlAction) (service : string)
    (platform : PamPlatformConfig) (e : Evidence) : Evidence :=
  if negb (bool_decide (r_group rule = GAuth)) || negb (String.eqb result "success") || negb (bool_decide (a_kind action = ADone)) then e
  else match matchingTrustedAuthenticationBypass rule service platform with
       | None => e
       | Some matched =>
           mkEvidence (providerReached e) (providerSucceeded e) (preauthSucceeded e) (preauthDenied e) (preauthFailedClosed e)
             (authfailReached e) (authsuccSucceeded e) (authsuccDenied e) (accountSucceeded e) (authenticationSuccessObserved e)
             (authenticationFailureObserved e) (passwordQualitySucceeded e) (passwordHistoryReached e) (passwordHistorySucceeded e)
             (passwordTokenProduced e) (passwordHistoryTokenAvailable e)
             (Some (mkBypass service (moduleBaseName rule) (by_reason matched) (r_source rule) (r_line rule))) (trustedAuthenticationExclusion e)
       end.

Definition recordTrustedAuthenticationExclusion (rule : PamRule) (result : string) (action : ControlAction) (service : string)
    (platform : PamPlatformConfig) (e : Evidence) : Evidence :=
  if negb (bool_decide (r_group rule = GAuth)) || negb (String.eqb result "auth_err") ||
     negb (bool_decide (a_kind action = ABad ∨ a_kind action = ADie)) then e
  else match matchingTrustedAuthenticationExclusion rule service platform with
       | None => e
       | Some matched =>
           if is_empty (ex_excludedUser matched) then e
           else mkEvidence (providerReached e) (providerSucceeded e) (preauthSucceeded e) (preauthDenied e) (preauthFailedClosed e)
                  (authfailReached e) (authsuccSucceeded e) (authsuccDenied e) (accountSucceeded e) (authenticationSuccessObserved e)
                  (authenticationFailureObserved e) (passwordQualitySucceeded e) (passwordHistoryReached e) (passwordHistorySucceeded e)
                  (passwordTokenProduced e) (passwordHistoryTokenAvailable e) (trustedAuthenticationBypass e)
                  (Some (mkExclusion service (moduleBaseName rule) (ex_reason matched) (ex_excludedUser matched) (r_source rule) (r_line rule)))
       end.

Definition actionName (action : ControlAction) : string :=
  match a_kind action with
  | AIgnore => "ignore" | ABad => "bad" | ADie => "die" | AOk => "ok" | ADone => "done" | AReset => "reset"
  | AJump => "jump " +:+ to_string (Z.of_nat (a_jump action))
  end.

(** * The symbolic execution *)

(** Everything but the trace. *)
Definition sameState (left right : ExecutionState) : bool :=
  bool_decide (x_impression left = x_impression right) && String.eqb (x_status left) (x_status right) &&
  bool_decide (x_subject left = x_subject right) && bool_decide (x_evidence left = x_evidence right).

Definition addUnique (states : list ExecutionState) (state : ExecutionState) : option (list ExecutionState) :=
  if existsb (λ existing, sameState existing state) states then Some states
  else if (kMaximumSymbolicStates <=? N.of_nat (length states))%N then None
  else Some (states ++ [state])%list.

Definition stackSucceeded (s : ExecutionState) : bool :=
  bool_decide (x_impression s = IPositive) && String.eqb (x_status s) "success".

Definition subjectIsRelevant (s : ExecutionState) (platform : PamPlatformConfig) (capability : PamCapability) : bool :=
  match List.find (λ c, bool_decide (cap_capability c = capability)) (capabilities platform) with
  | None => true
  | Some configured => negb (bool_decide (cap_subjectScope configured = LocalUsersOnly)) || negb (bool_decide (x_subject s = SubNonLocal))
  end.

(** Where a path goes after a rule: on, past that many further entries, or to
    the end of this stack. *)
Inductive Outcome := Onward (skip : nat) | Finished.

(** The decision an action makes; [ahead] is how many entries follow. *)
Definition dispatch (initial : ExecutionState) (ahead : nat) (result : string) (action : ControlAction) (s : ExecutionState)
    : ExecutionState * Outcome :=
  match a_kind action with
  | AReset => (set_decision (x_impression initial) (x_status initial) s, Onward 0)
  | AOk | ADone =>
      let s' := if bool_decide (x_impression s = IUndefined) || bool_decide (x_impression s = IPositive) && String.eqb (x_status s) "success"
                then if String.eqb result "ignore" then s else set_decision IPositive result s
                else s in
      (s', if bool_decide (a_kind action = ADone) && bool_decide (x_impression s' = IPositive) then Finished else Onward 0)
  | ABad | ADie =>
      let s' := if bool_decide (x_impression s = INegative) then s
                else set_decision INegative (if String.eqb result "ignore" then "perm_denied" else result) s in
      (s', if bool_decide (a_kind action = ADie) then Finished else Onward 0)
  | AIgnore => (s, Onward 0)
  | AJump => if ahead <? a_jump action then (set_decision INegative "perm_denied" s, Finished) else (s, Onward (a_jump action))
  end.

Section execution.
Context (provider : PamProviderKind) (service : string) (platform : PamPlatformConfig).

(** One answer of the module of a rule on one path. [None]: the answer cannot be. *)
Definition answer (initial : ExecutionState) (ahead : nat) (rule : PamRule) (control : ParsedControl) (incoming : ExecutionState) (result : string)
    : option (ExecutionState * Outcome) :=
  match refineIdentitySubject (x_subject incoming) rule result with
  | None => None
  | Some subject =>
      let action := action_of control result in
      let e := recordTrustedAuthenticationExclusion rule result action service platform
                 (recordProviderFailClosedEvidence provider rule result action (recordEvidence provider rule result (x_evidence incoming))) in
      let s := push_step (mkStep (r_source rule) (r_line rule) (r_module rule) result (r_control rule) (actionName action))
                 (set_evidence e (set_subject subject incoming)) in
      let '(s, outcome) := dispatch initial ahead result action s in
      match outcome with
      | Finished =>
          if bool_decide (x_impression s = IPositive) && (String.eqb (x_status s) "success" || String.eqb (x_status s) "new_authtok_reqd")
          then Some (set_evidence (recordTrustedAuthenticationBypass rule result action service platform (x_evidence s)) s, Finished)
          else Some (s, Finished)
      | _ => Some (s, outcome)
      end
  end.

(** [pending[index + 1]] and later, the paths that are over, the transitions. *)
Record Loop := mkLoop { l_pending : list (list ExecutionState); l_completed : list ExecutionState; l_transitions : N }.

Definition add_pending (k : nat) (s : ExecutionState) (loop : Loop) : option Loop :=
  match l_pending loop !! k with
  | None => None
  | Some states => states' ← addUnique states s; Some (mkLoop (<[k := states']> (l_pending loop)) (l_completed loop) (l_transitions loop))
  end.
Definition add_completed (s : ExecutionState) (loop : Loop) : option Loop :=
  completed ← addUnique (l_completed loop) s; Some (mkLoop (l_pending loop) completed (l_transitions loop)).

Fixpoint fold_option {A B} (f : A → B → option B) (l : list A) (b : B) : option B :=
  match l with [] => Some b | a :: l => match f a b with None => None | Some b => fold_option f l b end end.

Definition take_answer (initial : ExecutionState) (rule : PamRule) (control : ParsedControl) (incoming : ExecutionState) (result : string) (loop : Loop) : option Loop :=
  if (kMaximumSymbolicTransitions <? l_transitions loop + 1)%N then None
  else
    let loop := mkLoop (l_pending loop) (l_completed loop) (l_transitions loop + 1)%N in
    match answer initial (pred (length (l_pending loop))) rule control incoming result with
    | None => Some loop
    | Some (s, Finished) => add_completed s loop
    | Some (s, Onward skip) => add_pending skip s loop
    end.

Definition boundary (rule : PamRule) : PamFlowStep :=
  mkStep (r_source rule) (r_line rule) ("substack " +:+ r_includeTarget rule) "" "substack" "enter".

(** The entries of a stack, with what one entry does to one path. *)
Fixpoint run_entries (entry : PamStackEntry → ExecutionState → Loop → option Loop) (entries : list PamStackEntry) (here : list ExecutionState) (loop : Loop)
    : option Loop :=
  match entries with
  | [] => fold_option add_completed here loop
  | e :: entries =>
      match fold_option (entry e) here loop with
      | None => None
      | Some (mkLoop (next :: pending) completed transitions) => run_entries entry entries next (mkLoop pending completed transitions)
      | Some (mkLoop [] _ _) => None
      end
  end.

(** One entry on one path; [initial] is the state its stack began with. *)
Fixpoint execute_entry (depth : nat) (initial : ExecutionState) (e : PamStackEntry) (incoming : ExecutionState) (loop : Loop) {struct e} : option Loop :=
  let 'mkEntry rule substack := e in
  if bool_decide (r_includeKind rule = KSubstack) then
    if kMaximumSubstackDepth <? S depth then None
    else
      let nested := push_step (boundary rule) incoming in
      match run_entries (execute_entry (S depth) nested) substack [nested] (mkLoop (replicate (length substack) []) [] (l_transitions loop)) with
      | None => None
      | Some inner => fold_option (add_pending 0) (l_completed inner) (mkLoop (l_pending loop) (l_completed loop) (l_transitions inner))
      end
  else match parseControl rule with
       | None => None
       | Some control => fold_option (take_answer initial rule control incoming) (moduleOutcomes rule service platform) loop
       end.

(** The states in which the stack may end. *)
Definition executeStack (entries : list PamStackEntry) (initial : ExecutionState) : option (list ExecutionState) :=
  match run_entries (execute_entry 0 initial) entries [initial] (mkLoop (replicate (length entries) []) [] 0) with
  | None => None
  | Some loop => Some (l_completed loop)
  end.
End execution.

(** * Violations *)

Inductive PamFlowViolationKind :=
| ProviderUnreachable | AuthenticationBypass | PasswordEnforcementBypass | FailureAccountingBypass | RecoverableFailureAccounting
| SuccessAccountingBypass | PrematureSuccessAccounting | UnsupportedControlFlow.

#[export] Instance PamFlowViolationKind_eq_dec : EqDecision PamFlowViolationKind.
Proof. solve_decision. Defined.

Record PamFlowViolation := mkViolation {
  v_kind : PamFlowViolationKind; v_service : string; v_group : PamManagementGroup; v_path : list PamFlowStep; v_pathTruncated : bool
}.
Record PamTrustedAuthenticationBypassAcceptance := mkBypassAcceptance {
  ab_evidence : TrustedAuthenticationBypassEvidence; ab_path : list PamFlowStep; ab_pathTruncated : bool
}.
Record PamTrustedAuthenticationExclusionAcceptance := mkExclusionAcceptance {
  ae_evidence : TrustedAuthenticationExclusionEvidence; ae_path : list PamFlowStep; ae_pathTruncated : bool
}.
Record PamControlFlowAnalysis := mkAnalysis {
  effective : bool;
  violations : list PamFlowViolation;
  acceptedBypasses : list PamTrustedAuthenticationBypassAcceptance;
  acceptedExclusions : list PamTrustedAuthenticationExclusionAcceptance
}.
Definition no_analysis : PamControlFlowAnalysis := mkAnalysis false [] [] [].

Definition pamFlowViolationKindName (kind : PamFlowViolationKind) : string :=
  match kind with
  | ProviderUnreachable => "provider_unreachable"
  | AuthenticationBypass => "authentication_bypass"
  | PasswordEnforcementBypass => "password_enforcement_bypass"
  | FailureAccountingBypass => "failure_accounting_bypass"
  | RecoverableFailureAccounting => "recoverable_failure_accounting"
  | SuccessAccountingBypass => "success_accounting_bypass"
  | PrematureSuccessAccounting => "premature_success_accounting"
  | UnsupportedControlFlow => "unsupported_control_flow"
  end.

Definition violationForState (kind : PamFlowViolationKind) (stack : PamEffectiveStack) (s : ExecutionState) : PamFlowViolation :=
  mkViolation kind (s_service stack) (s_group stack) (x_trace s) (x_traceTruncated s).

Definition addFirstViolation (v : PamFlowViolation) (a : PamControlFlowAnalysis) : PamControlFlowAnalysis :=
  if existsb (λ x, bool_decide (v_kind x = v_kind v) && String.eqb (v_service x) (v_service v) && bool_decide (v_group x = v_group v)) (violations a) then a
  else mkAnalysis (effective a) (violations a ++ [v])%list (acceptedBypasses a) (acceptedExclusions a).

Definition addAcceptedTrustedAuthenticationBypass (s : ExecutionState) (a : PamControlFlowAnalysis) : PamControlFlowAnalysis :=
  match trustedAuthenticationBypass (x_evidence s) with
  | None => a
  | Some e =>
      if existsb (λ x, bool_decide (ab_evidence x = e)) (acceptedBypasses a) then a
      else mkAnalysis (effective a) (violations a) (acceptedBypasses a ++ [mkBypassAcceptance e (x_trace s) (x_traceTruncated s)])%list (acceptedExclusions a)
  end.

Definition addAcceptedTrustedAuthenticationExclusion (s : ExecutionState) (a : PamControlFlowAnalysis) : PamControlFlowAnalysis :=
  match trustedAuthenticationExclusion (x_evidence s) with
  | None => a
  | Some e =>
      if existsb (λ x, bool_decide (ae_evidence x = e)) (acceptedExclusions a) then a
      else mkAnalysis (effective a) (violations a) (acceptedBypasses a) (acceptedExclusions a ++ [mkExclusionAcceptance e (x_trace s) (x_traceTruncated s)])%list
  end.

(** * The password stack *)

Definition analyzePasswordStack (stack : PamEffectiveStack) (capability : PamCapability) (provider : PamProviderKind) (platform : PamPlatformConfig)
    (a : PamControlFlowAnalysis) : option PamControlFlowAnalysis :=
  match executeStack provider (s_service stack) platform (s_entries stack) initial_state with
  | None => None
  | Some states =>
      let relevant s := subjectIsRelevant s platform capability in
      if negb (existsb (λ s, relevant s && stackSucceeded s) states) then
        Some (addFirstViolation (violationForState UnsupportedControlFlow stack (default initial_state (head states))) a)
      else Some (foldl (λ a s, if relevant s && stackSucceeded s && negb (providerSucceeded (x_evidence s))
                               then addFirstViolation (violationForState PasswordEnforcementBypass stack s) a else a) a states)
  end.

Record PamPasswordFlowRequirements := mkRequirements { requireQuality : bool; requireHistory : bool }.
Record PamPasswordFlowAnalysis := mkPasswordFlow {
  qualityNonBypassable : bool;
  historyNonBypassable : bool;
  historyAlwaysHasTokenProducer : bool;
  pf_violations : list PamFlowViolation
}.

(** One successful state. *)
Definition password_state (stack : PamEffectiveStack) (requirements : PamPasswordFlowRequirements) (a : PamPasswordFlowAnalysis) (s : ExecutionState)
    : PamPasswordFlowAnalysis :=
  if negb (stackSucceeded s) then a
  else
    let e := x_evidence s in
    let qualityOnPath := passwordQualitySucceeded e in
    let historyOnPath := passwordHistoryReached e && passwordHistorySucceeded e in
    let producerBeforeHistory := if passwordHistoryReached e then passwordHistoryTokenAvailable e else qualityOnPath in
    mkPasswordFlow
      (qualityNonBypassable a && qualityOnPath)
      (historyNonBypassable a && historyOnPath)
      (historyAlwaysHasTokenProducer a && negb (passwordHistoryReached e && negb producerBeforeHistory))
      (if bool_decide (pf_violations a = []) &&
          (requireQuality requirements && negb qualityOnPath || requireHistory requirements && (negb historyOnPath || negb producerBeforeHistory))
       then [mkViolation PasswordEnforcementBypass (s_service stack) GPassword (x_trace s) (x_traceTruncated s)]
       else pf_violations a).

Definition analyzePasswordFlow (stack : PamEffectiveStack) (platform : PamPlatformConfig) (requirements : PamPasswordFlowRequirements)
    : option PamPasswordFlowAnalysis :=
  match executeStack PamPwquality (s_service stack) platform (s_entries stack) initial_state with
  | None => None
  | Some states =>
      if negb (existsb stackSucceeded states) then
        Some (mkPasswordFlow false false false [mkViolation UnsupportedControlFlow (s_service stack) GPassword [] false])
      else Some (foldl (password_state stack requirements) (mkPasswordFlow true true true []) states)
  end.

(** * The lockout stacks *)

Fixpoint entryHasFaillockRole (role : string) (group : PamManagementGroup) (e : PamStackEntry) : bool :=
  let 'mkEntry rule substack := e in
  if bool_decide (r_includeKind rule = KSubstack) then existsb (entryHasFaillockRole role group) substack
  else bool_decide (r_group rule = group) && String.eqb (moduleBaseName rule) "pam_faillock.so" &&
       (bool_decide (group = GAccount) || hasArgument rule role).
Definition stackHasFaillockRole (entries : list PamStackEntry) (role : string) (group : PamManagementGroup) : bool :=
  existsb (entryHasFaillockRole role group) entries.

Fixpoint after_first {A} (f : A → bool) (l : list A) : option (list A) :=
  match l with [] => None | x :: l => if f x then Some l else after_first f l end.

(** The first authenticator that follows the authfail rule, at the top level. *)
Definition lateProvider (entries : list PamStackEntry) : option PamStackEntry :=
  rest ← after_first (λ e, bool_decide (r_group (e_rule e) = GAuth) && String.eqb (moduleBaseName (e_rule e)) "pam_faillock.so" &&
                           hasArgument (e_rule e) "authfail") entries;
  List.find (λ e, bool_decide (r_group (e_rule e) = GAuth) && bool_decide (moduleRole (moduleBaseName (e_rule e)) = CredentialAuthenticator)) rest.

Definition terminatedPositively (s : ExecutionState) : bool :=
  bool_decide (x_impression s = IPositive) && (String.eqb (x_status s) "success" || String.eqb (x_status s) "new_authtok_reqd").

Section faillock.
(** [root_lockout]: whether the lockout covers root, as the configuration of
    pam_faillock says; [None]: it cannot be determined. *)
Context (platform : PamPlatformConfig) (root_lockout : option bool).

(** What one state of the authentication stack means; [false]: it cannot be
    decided. *)
Definition auth_state (stack : PamEffectiveStack) (authsuccTopology : bool) (a : PamControlFlowAnalysis) (s : ExecutionState) : bool * PamControlFlowAnalysis :=
  let e := x_evidence s in
  let accountTopology := negb authsuccTopology in
  let violated kind := (true, addFirstViolation (violationForState kind stack s) a) in
  if negb (subjectIsRelevant s platform AuthenticationLockout) then (true, a)
  else if terminatedPositively s then
    match trustedAuthenticationBypass e with
    | Some _ => (true, addAcceptedTrustedAuthenticationBypass s a)
    | None =>
        if authsuccTopology && authenticationFailureObserved e && authfailReached e then violated RecoverableFailureAccounting
        else if authsuccTopology && authsuccDenied e then violated AuthenticationBypass
        else if authenticationFailureObserved e && negb (authenticationSuccessObserved e) || negb (providerReached e) ||
                accountTopology && negb (preauthSucceeded e) && negb (preauthDenied e)
             then violated AuthenticationBypass
        else if authsuccTopology && negb (authsuccSucceeded e) then violated SuccessAccountingBypass
        else (true, a)
    end
  else if authsuccTopology && authsuccSucceeded e && bool_decide (x_impression s = INegative) then
    match trustedAuthenticationExclusion e with
    | Some exclusion =>
        if String.eqb (te_excludedUser exclusion) "root" then
          match root_lockout with
          | None => (false, a)
          | Some false => (true, addAcceptedTrustedAuthenticationExclusion s a)
          | Some true => violated PrematureSuccessAccounting
          end
        else violated PrematureSuccessAccounting
    | None => violated PrematureSuccessAccounting
    end
  else if authenticationFailureObserved e && negb (authenticationSuccessObserved e) && negb (authfailReached e) && negb (preauthDenied e) &&
          negb (preauthFailedClosed e)
  then violated FailureAccountingBypass
  else (true, a).

Fixpoint auth_states (stack : PamEffectiveStack) (authsuccTopology : bool) (states : list ExecutionState) (a : PamControlFlowAnalysis) : bool * PamControlFlowAnalysis :=
  match states with
  | [] => (true, a)
  | s :: states =>
      match auth_state stack authsuccTopology a s with
      | (false, a) => (false, a)
      | (true, a) => auth_states stack authsuccTopology states a
      end
  end.

Definition account_states (stack : PamEffectiveStack) (states : list ExecutionState) (a : PamControlFlowAnalysis) : PamControlFlowAnalysis :=
  let relevant s := subjectIsRelevant s platform AuthenticationLockout in
  if negb (existsb (λ s, relevant s && stackSucceeded s) states) then
    addFirstViolation (violationForState UnsupportedControlFlow stack (default initial_state (head states))) a
  else foldl (λ a s, if relevant s && stackSucceeded s && negb (accountSucceeded (x_evidence s))
                     then addFirstViolation (violationForState SuccessAccountingBypass stack s) a else a) a states.

(** [build group]: the effective stack of the service. The result says whether
    the analysis was carried out. *)
Definition analyzeFaillockStack (build : PamManagementGroup → option PamEffectiveStack) (service : string) (a : PamControlFlowAnalysis)
    : bool * PamControlFlowAnalysis :=
  match build GAuth with
  | None => (false, a)
  | Some authStack =>
      match executeStack PamFaillock service platform (s_entries authStack) initial_state with
      | None => (false, a)
      | Some authStates =>
          let authsuccTopology := stackHasFaillockRole (s_entries authStack) "authsucc" GAuth in
          let a := match lateProvider (s_entries authStack) with
                   | None => a
                   | Some late =>
                       let r := e_rule late in
                       addFirstViolation (mkViolation ProviderUnreachable service GAuth
                         [mkStep (r_source r) (r_line r) (r_module r) "unreachable" (r_control r) "unreachable"] false) a
                   end in
          let a := if existsb (λ s, subjectIsRelevant s platform AuthenticationLockout && terminatedPositively s) authStates then a
                   else addFirstViolation (violationForState UnsupportedControlFlow authStack (default initial_state (head authStates))) a in
          match auth_states authStack authsuccTopology authStates a with
          | (false, a) => (false, a)
          | (true, a) =>
              if authsuccTopology then (true, a)
              else match build GAccount with
                   | None => (false, a)
                   | Some accountStack =>
                       match executeStack PamFaillock service platform (s_entries accountStack) initial_state with
                       | None => (false, a)
                       | Some accountStates => (true, account_states accountStack accountStates a)
                       end
                   end
          end
      end
  end.

(** [None]: the stack of the password group could not be built. *)
Definition analyze (build : PamManagementGroup → option PamEffectiveStack) (service : string) (capability : PamCapability) (provider : PamProviderKind)
    : option PamControlFlowAnalysis :=
  let finish (analyzed : bool * PamControlFlowAnalysis) (group : PamManagementGroup) :=
    match analyzed with
    | (false, a) => mkAnalysis false (violations a ++ [mkViolation UnsupportedControlFlow service group [] false])%list (acceptedBypasses a) (acceptedExclusions a)
    | (true, a) => mkAnalysis (bool_decide (violations a = [])) (violations a) (acceptedBypasses a) (acceptedExclusions a)
    end in
  if bool_decide (capability = AuthenticationLockout) then Some (finish (analyzeFaillockStack build service no_analysis) GAuth)
  else match build GPassword with
       | None => None
       | Some stack =>
           Some (finish (match analyzePasswordStack stack capability provider platform no_analysis with
                         | None => (false, no_analysis)
                         | Some a => (true, a)
                         end) GPassword)
       end.
End faillock.

(** * The strategy of a lockout topology *)

Inductive PamFaillockStrategy := PreauthRequisite | PreauthRequired | Authsucc.

(** The rules of pam_faillock in the order the source's stack of entries gives:
    the last entry first, and the entries of a substack from its last one. *)
Fixpoint faillock_rules (e : PamStackEntry) : list PamRule :=
  let 'mkEntry rule substack := e in
  if bool_decide (r_includeKind rule = KSubstack) then concat (reverse (faillock_rules <$> substack))
  else if bool_decide (r_includeKind rule = KNone) && String.eqb (moduleBaseName rule) "pam_faillock.so" && bool_decide (r_group rule = GAuth)
  then [rule] else [].

Definition rule_role (r : PamRule) : option string :=
  if hasArgument r "preauth" then Some "preauth"
  else if hasArgument r "authfail" then Some "authfail"
  else if hasArgument r "authsucc" then Some "authsucc" else None.

Definition detectPamFaillockStrategy (stack : PamEffectiveStack) : option PamFaillockStrategy :=
  let rules := concat (reverse (faillock_rules <$> s_entries stack)) in
  let with_role role := List.filter (λ r, bool_decide (rule_role r = Some role)) rules in
  if existsb (λ r, bool_decide (rule_role r = None)) rules then None
  else if bool_decide (with_role "authfail" = []) then None
  else match with_role "preauth", with_role "authsucc" with
       | _ :: _ :: _, _ | _, _ :: _ :: _ => None
       | [_], [_] => None
       | [preauth], [] =>
           if String.eqb (r_control preauth) "requisite" then Some PreauthRequisite
           else if String.eqb (r_control preauth) "required" then Some PreauthRequired else None
       | [], [_] => Some Authsucc
       | [], [] => None
       end.

(** * Checks *)

Definition plain_rule (line : nat) (group : PamManagementGroup) (control module : string) (arguments : list string) : PamStackEntry :=
  mkEntry (mkRule "/etc/pam.d/x" line group control module arguments KNone "") [].
Definition bare_platform : PamPlatformConfig := mkPlatform [] [] [].

Definition debian_password : PamEffectiveStack := mkStack "passwd" GPassword
  [plain_rule 1 GPassword "requisite" "pam_pwquality.so" ["retry=3"];
   plain_rule 2 GPassword "requisite" "pam_pwhistory.so" ["use_authtok"];
   plain_rule 3 GPassword "[success=1 default=ignore]" "pam_unix.so" ["use_authtok"];
   plain_rule 4 GPassword "requisite" "pam_deny.so" [];
   plain_rule 5 GPassword "required" "pam_permit.so" []] ∅.

Example debian_password_is_enforced :
  analyzePasswordFlow debian_password bare_platform (mkRequirements true true) = Some (mkPasswordFlow true true true []).
Proof. by vm_compute. Qed.

(** A sufficient module in front lets a password through unchecked. *)
Example early_sufficient_is_reported :
  match analyzePasswordFlow (mkStack "passwd" GPassword (plain_rule 0 GPassword "sufficient" "pam_x.so" [] :: s_entries debian_password) ∅)
          bare_platform (mkRequirements true true) with
  | Some a => qualityNonBypassable a = false ∧ v_kind <$> pf_violations a = [PasswordEnforcementBypass]
  | None => False
  end.
Proof. vm_compute. split; reflexivity. Qed.
