(* ===== verification/PamPaths.v ===== *)
(** The ways a PAM stack can go, one at a time, and that the symbolic execution
    of the analyzer finds exactly the states in which they end. *)

From S2P Require Import Prelude PolicyValue ConfigFile OwnershipGrammar MutationValid TextLines PamStack PamFlow.
Open Scope string_scope.
Open Scope nat_scope.

(** * What a control means *)

(** The four words, with what they do for success and new_authtok_reqd, and for
    other answers. *)
Definition simple_controls : list (string * ActionKind * ActionKind) :=
  [("required", AOk, ABad); ("requisite", AOk, ADie); ("sufficient", ADone, AIgnore); ("optional", AOk, AIgnore)].

(** [value=action], the value one of the known answers or the word default. *)
Definition assigns (word : string) (a : string * ControlAction) : Prop :=
  ∃ text, word = a.1 +:+ String "=" text ∧ contains "="%char a.1 = false ∧ a.1 ≠ "" ∧ text ≠ "" ∧
    (a.1 = "default" ∨ a.1 ∈ allReturnCodes) ∧ parseAction text = Some a.2.

(** The action of an answer: its own, else that of default, else bad. *)
Definition assigned_action (assignments : list (string * ControlAction)) (result : string) : ControlAction :=
  let actions : gmap string ControlAction := list_to_map assignments in
  default (default (mkAction ABad 0) (actions !! "default")) (actions !! result).

(** [reading manual control result action]: under this control the answer
    [result] has this action. With [manual] it is the meaning pam.conf(5) gives
    to the control; without, the answer ignore is under required and requisite
    an answer like any other that is not success. *)
Inductive reading (manual : bool) (control result : string) : ControlAction → Prop :=
| reading_word success failure :
    (control, success, failure) ∈ simple_controls →
    reading manual control result
      (mkAction (if String.eqb result "success" || String.eqb result "new_authtok_reqd" then success
                 else if manual && String.eqb result "ignore" then AIgnore else failure) 0)
| reading_list inside assignments :
    control = String "[" (inside +:+ "]") → Forall2 assigns (words inside) assignments →
    assignments ≠ [] → NoDup assignments.*1 →
    reading manual control result (assigned_action assignments result).

Definition rule_reading (manual : bool) (rule : PamRule) : string → ControlAction → Prop :=
  reading manual (lowerCopy (r_control rule)).

(** [parseControl] reads controls that way. *)
Lemma bracketed_exact control inside : bracketed control = Some inside ↔ control = String "[" (inside +:+ "]").
Proof.
  assert (∀ s, drop_last (s +:+ "]") = s) as Hdrop.
  { intros s. induction s as [|c s IH]; [done|]. change (String c s +:+ "]") with (String c (s +:+ "]")). cbn [drop_last].
    destruct (s +:+ "]") eqn:Hs; [by destruct s|]. by rewrite IH. }
  assert (∀ s, last_char s = Some "]"%char → s = drop_last s +:+ "]") as Hback.
  { intros s. induction s as [|c s IH]; [done|]. cbn [last_char drop_last]. destruct s as [|c' s]; [by intros [= ->]|].
    intros Hl. change (String c (drop_last (String c' s)) +:+ "]") with (String c (drop_last (String c' s) +:+ "]")). by rewrite <-IH. }
  unfold bracketed. split.
  - destruct control as [|c rest]; [done|]. destruct c as [[] [] [] [] [] [] [] []]; try done. case_bool_decide as Hl; [|done].
    intros [= <-]. by rewrite <-Hback.
  - intros ->. rewrite last_char_app by done. rewrite bool_decide_eq_true_2 by done. by rewrite Hdrop.
Qed.

(** What the loop over the assignments makes of a control. *)
Lemma parse_assignments_exact l assigned parsed assigned' parsed' :
  parse_assignments l assigned parsed = Some (assigned', parsed') ↔
  ∃ pairs, Forall2 assigns l pairs ∧ NoDup pairs.*1 ∧ (∀ k, k ∈ pairs.*1 → k ∉ assigned) ∧
    assigned' = list_to_set pairs.*1 ∪ assigned ∧ parsed' = foldl (λ c a, assign c a.1 a.2) parsed pairs.
Proof.
  revert assigned parsed. induction l as [|word l IH]; intros assigned parsed; cbn [parse_assignments].
  { split.
    - intros [= <- <-]. exists []. split_and!; [constructor|constructor|set_solver|set_solver|done].
    - intros (pairs & Hf & _ & _ & -> & ->). apply Forall2_nil_inv_l in Hf as ->. cbn. f_equal. f_equal. set_solver. }
  split.
  - destruct (cut "=" word) as [[result text]|] eqn:Hcut; [|done]. apply cut_spec in Hcut as [Hword Hnone].
    destruct (is_empty result) eqn:Hr; [done|]. destruct (is_empty text) eqn:Ht; [done|]. cbn [orb].
    destruct (negb _ && negb _) eqn:Hk; [done|]. destruct (decide (result ∈ assigned)) as [|Hnew]; [done|].
    destruct (parseAction text) as [action|] eqn:Ha; [|done]. rewrite IH. intros (pairs & Hf & Hnd & Hfresh & -> & ->).
    exists ((result, action) :: pairs). split_and!.
    + constructor; [|done]. exists text. cbn. split_and!; [done|done|by intros ->|by intros ->| |done].
      destruct (String.eqb_spec result "default"); [by left|right]. cbn in Hk. by apply negb_false_iff, bool_decide_eq_true in Hk.
    + cbn. constructor; [|done]. intros Hin. by apply (Hfresh _ Hin), elem_of_union_l, elem_of_singleton.
    + cbn. intros k [->|Hin]%elem_of_cons; [done|]. intros ?. apply (Hfresh _ Hin). by apply elem_of_union_r.
    + cbn. set_solver.
    + done.
  - intros (pairs & Hf & Hnd & Hfresh & -> & ->). apply Forall2_cons_inv_l in Hf as ([result action] & pairs' & Hw & Hf & ->).
    destruct Hw as (text & -> & Hnone & Hr & Ht & Hk & Ha). cbn [fst snd] in *. cbn [fmap list_fmap fst] in Hnd, Hfresh. rewrite cut_join by done.
    destruct result as [|c result]; [done|]. destruct text as [|c' text]; [done|]. cbn [is_empty orb].
    assert (negb (String.eqb (String c result) "default") && negb (knownReturnCode (String c result)) = false) as ->.
    { destruct Hk as [->|Hk]; [done|]. unfold knownReturnCode. by rewrite bool_decide_eq_true_2, andb_false_r. }
    destruct (decide _) as [Hin|_]; [exfalso; eapply Hfresh; [by left|done]|]. rewrite Ha. cbv beta iota. apply NoDup_cons in Hnd as [Hnin Hnd]. apply IH.
    exists pairs'. split_and!; [done|done| |cbn; set_solver|done].
    intros k Hin [->%elem_of_singleton|Hold]%elem_of_union; [done|]. eapply Hfresh; [by right|done].
Qed.

Lemma assign_all pairs parsed : NoDup pairs.*1 → c_actions parsed = ∅ → c_default parsed = mkAction ABad 0 →
  ∀ result, action_of (foldl (λ c a, assign c a.1 a.2) parsed pairs) result = assigned_action pairs result.
Proof.
  intros Hnd He Hd result. unfold action_of, assigned_action.
  assert (∀ c, NoDup pairs.*1 → (∀ k, k ∈ pairs.*1 → c_actions c !! k = None) →
    c_default (foldl (λ c a, assign c a.1 a.2) c pairs) = default (c_default c) ((list_to_map pairs : gmap string ControlAction) !! "default") ∧
    ∀ k, c_actions (foldl (λ c a, assign c a.1 a.2) c pairs) !! k =
      if decide (k = "default") then c_actions c !! k else match (list_to_map pairs : gmap string ControlAction) !! k with Some a => Some a | None => c_actions c !! k end) as Hgen.
  { clear. induction pairs as [|[k a] pairs IH]; intros c Hnd Hfresh; [split; [done|intros k; by destruct (decide _)]|].
    cbn [foldl fst snd]. cbn [fmap list_fmap fst] in Hnd, Hfresh. apply NoDup_cons in Hnd as [Hnin Hnd].
    assert (∀ k', k' ∈ pairs.*1 → c_actions (assign c k a) !! k' = None) as Hf'.
    { intros k' Hin. unfold assign. destruct (String.eqb k "default"); cbn; [apply Hfresh; by right|].
      rewrite lookup_insert_ne by (by intros ->). apply Hfresh. by right. }
    destruct (IH (assign c k a) Hnd Hf') as [Hdef Hact]. rewrite list_to_map_cons. cbn [fst snd]. split.
    - rewrite Hdef. unfold assign. destruct (String.eqb_spec k "default") as [->|Hne]; cbn.
      + rewrite lookup_insert_eq. rewrite not_elem_of_list_to_map_1 by done. done.
      + by rewrite lookup_insert_ne by done.
    - intros k'. rewrite Hact. unfold assign. destruct (decide (k' = "default")) as [->|Hne'].
      + destruct (String.eqb_spec k "default"); cbn; [done|]. by rewrite lookup_insert_ne by done.
      + destruct (decide (k' = k)) as [->|Hkk].
        * rewrite lookup_insert_eq. rewrite not_elem_of_list_to_map_1 by done. destruct (String.eqb_spec k "default"); [done|]. cbn. by rewrite lookup_insert_eq.
        * rewrite lookup_insert_ne by done. destruct (_ !! k'); [done|]. destruct (String.eqb k "default"); cbn; [done|]. by rewrite lookup_insert_ne. }
  destruct (Hgen parsed Hnd) as [-> Hact]; [by rewrite He|]. rewrite Hact, He, Hd, lookup_empty. destruct (decide (result = "default")) as [->|]; cbn.
  - by destruct (_ !! "default").
  - by destruct (_ !! result).
Qed.

Lemma parseControl_exact rule control result action : parseControl rule = Some control →
  rule_reading false rule result action ↔ action = action_of control result.
Proof.
  unfold parseControl, rule_reading. set (text := lowerCopy (r_control rule)). clearbody text. intros Hp.
  assert (∀ name s f, (name, s, f) ∈ simple_controls → text = name → control = setSimple s f → reading false text result action ↔ action = action_of control result) as Hsimple.
  { intros name s f Hin -> ->. assert (action_of (setSimple s f) result = mkAction (if String.eqb result "success" || String.eqb result "new_authtok_reqd" then s
      else if false && String.eqb result "ignore" then AIgnore else f) 0) as ->.
    { unfold action_of, setSimple. cbn [c_actions c_default andb]. destruct (String.eqb_spec result "new_authtok_reqd") as [->|Hn]; [by rewrite lookup_insert_eq|].
      rewrite lookup_insert_ne by done. destruct (String.eqb_spec result "success") as [->|Hs]; [by rewrite lookup_singleton_eq|].
      by rewrite lookup_singleton_ne by done. }
    split; [|intros ->; by constructor]. intros [s' f' Hin'|inside pairs Hname]; [|exfalso; subst name; unfold simple_controls in Hin; set_solver].
    assert (s' = s ∧ f' = f) as [-> ->]; [|done]. unfold simple_controls in Hin, Hin'.
    repeat (apply elem_of_cons in Hin as [Hin|Hin]; [simplify_eq; repeat (apply elem_of_cons in Hin' as [Hin'|Hin']; [by simplify_eq|]); by apply not_elem_of_nil in Hin'|]).
    by apply not_elem_of_nil in Hin. }
  destruct (String.eqb_spec text "required"); [injection Hp as <-; eapply (Hsimple "required"); [by repeat constructor|done|done]|].
  destruct (String.eqb_spec text "requisite"); [injection Hp as <-; eapply (Hsimple "requisite"); [by repeat constructor|done|done]|].
  destruct (String.eqb_spec text "sufficient"); [injection Hp as <-; eapply (Hsimple "sufficient"); [by repeat constructor|done|done]|].
  destruct (String.eqb_spec text "optional"); [injection Hp as <-; eapply (Hsimple "optional"); [by repeat constructor|done|done]|].
  clear Hsimple. destruct (bracketed text) as [inside|] eqn:Hb; [|done]. apply bracketed_exact in Hb as ->.
  destruct (parse_assignments _ _ _) as [[assigned parsed]|] eqn:Ha; [|done]. destruct (decide (assigned = ∅)) as [|Hne]; [done|]. injection Hp as <-.
  apply parse_assignments_exact in Ha as (pairs & Hf & Hnd & _ & -> & ->). rewrite assign_all by done. split.
  - intros [s f Hin|inside' pairs' Heq Hf' _ Hnd']; [exfalso; unfold simple_controls in Hin; set_solver|].
    injection Heq as Heq. assert (inside' = inside) as ->.
    { apply (f_equal (λ s, bracketed (String "[" s))) in Heq. rewrite !(proj2 (bracketed_exact _ _) eq_refl) in Heq. by injection Heq. }
    f_equal. clear -Hf Hf'. revert pairs' Hf'. induction Hf as [|w [k a] l pairs (t & -> & Hn & _ & _ & _ & Ha) _ IH]; intros pairs' Hf'; [by apply Forall2_nil_inv_l in Hf' as ->|].
    apply Forall2_cons_inv_l in Hf' as ([k' a'] & l' & (t' & Heq & Hn' & _ & _ & _ & Ha') & Hf' & ->). cbn [fst snd] in *.
    assert (cut "="%char (k +:+ String "=" t) = Some (k', t')) as Hc by (rewrite Heq; by apply cut_join). rewrite cut_join in Hc by done. simplify_eq. f_equal. by apply IH.
  - intros ->. eapply reading_list; [done|done| |done]. intros ->. apply Hne. set_solver.
Qed.

(** * One path *)

(** Induction over an entry and the entries of its substack. *)
Fixpoint stack_entry_ind (P : PamStackEntry → Prop) (H : ∀ rule substack, (∀ x, x ∈ substack → P x) → P (mkEntry rule substack)) (e : PamStackEntry) : P e :=
  let 'mkEntry rule substack := e in
  H rule substack
    ((fix members (l : list PamStackEntry) : ∀ x, x ∈ l → P x :=
        match l with
        | [] => λ x Hx, False_ind _ (not_elem_of_nil x Hx)
        | y :: l => λ x Hx, match proj1 (elem_of_cons l x y) Hx with
                            | or_introl Heq => eq_ind_r P (stack_entry_ind P H y) Heq
                            | or_intror Hin => members l x Hin
                            end
        end) substack).

(** What a PAM application sees of a stack in progress. *)
Record PamState := mkPam { pam_impression : Impression; pam_status : string; pam_subject : IdentitySubject }.

(** A module was asked and answered; [ev_granted]: this ended the stack in its
    favour. *)
Record Event := mkEvent { ev_rule : PamRule; ev_result : string; ev_action : ControlAction; ev_granted : bool }.

Definition granting (p : PamState) : bool :=
  bool_decide (pam_impression p = IPositive) && (String.eqb (pam_status p) "success" || String.eqb (pam_status p) "new_authtok_reqd").

(** The effect of an action on the verdict so far, as pam.conf(5) describes it:
    ignore does nothing; bad fails the stack unless it failed already, die ends
    it too; ok gives the verdict to this answer unless the stack has failed or
    holds another code than success, done also ends it when the verdict is
    positive; reset forgets the stack so far; a number skips that many entries. *)
Definition verdict (initial : PamState) (ahead : nat) (result : string) (action : ControlAction) (p : PamState) : PamState * Outcome :=
  let '(mkPam i st sub) := p in
  let failed := if bool_decide (i = INegative) then p else mkPam INegative (if String.eqb result "ignore" then "perm_denied" else result) sub in
  let taken := if (bool_decide (i = IUndefined) || bool_decide (i = IPositive) && String.eqb st "success") && negb (String.eqb result "ignore")
               then mkPam IPositive result sub else p in
  match a_kind action with
  | AIgnore => (p, Onward 0)
  | ABad => (failed, Onward 0)
  | ADie => (failed, Finished)
  | AOk => (taken, Onward 0)
  | ADone => (taken, if bool_decide (pam_impression taken = IPositive) then Finished else Onward 0)
  | AReset => (mkPam (pam_impression initial) (pam_status initial) sub, Onward 0)
  | AJump => if ahead <? a_jump action then (mkPam INegative "perm_denied" sub, Finished) else (p, Onward (a_jump action))
  end.

(** The answer [result] of a module; [None]: it contradicts an earlier one. *)
Definition pam_answer (initial : PamState) (ahead : nat) (rule : PamRule) (action : ControlAction) (p : PamState) (result : string)
    : option (PamState * Outcome * Event) :=
  match refineIdentitySubject (pam_subject p) rule result with
  | None => None
  | Some subject =>
      let '(p', outcome) := verdict initial ahead result action (mkPam (pam_impression p) (pam_status p) subject) in
      Some (p', outcome, mkEvent rule result action (match outcome with Finished => granting p' | _ => false end))
  end.

Section paths.
Context (service : string) (platform : PamPlatformConfig) (reads : PamRule → string → ControlAction → Prop).

(** [walk initial entries p events p']: from [p] the entries can lead to [p'] by
    these answers, under this reading of the controls; [initial] is the state the
    stack began with. *)
Inductive walk (initial : PamState) : list PamStackEntry → PamState → list Event → PamState → Prop :=
| walk_end p : walk initial [] p [] p
| walk_onward rule substack rest action p result p' skip ev events out :
    r_includeKind rule ≠ KSubstack → result ∈ moduleOutcomes rule service platform → reads rule result action →
    pam_answer initial (length rest) rule action p result = Some (p', Onward skip, ev) →
    walk initial (List.skipn skip rest) p' events out → walk initial (mkEntry rule substack :: rest) p (ev :: events) out
| walk_finished rule substack rest action p result p' ev :
    r_includeKind rule ≠ KSubstack → result ∈ moduleOutcomes rule service platform → reads rule result action →
    pam_answer initial (length rest) rule action p result = Some (p', Finished, ev) →
    walk initial (mkEntry rule substack :: rest) p [ev] p'
| walk_substack rule substack rest p events mid events' out :
    r_includeKind rule = KSubstack → walk p substack p events mid → walk initial rest mid events' out →
    walk initial (mkEntry rule substack :: rest) p (events ++ events') out.

(** * Evidence of a path *)

Context (provider : PamProviderKind).
Hypothesis reads_exact : ∀ rule control result action, parseControl rule = Some control → reads rule result action ↔ action = action_of control result.

Definition event_evidence (e : Evidence) (ev : Event) : Evidence :=
  let e := recordTrustedAuthenticationExclusion (ev_rule ev) (ev_result ev) (ev_action ev) service platform
             (recordProviderFailClosedEvidence provider (ev_rule ev) (ev_result ev) (ev_action ev) (recordEvidence provider (ev_rule ev) (ev_result ev) e)) in
  if ev_granted ev then recordTrustedAuthenticationBypass (ev_rule ev) (ev_result ev) (ev_action ev) service platform e else e.

Definition path_evidence (events : list Event) (e : Evidence) : Evidence := foldl event_evidence e events.

Definition pam_of (s : ExecutionState) : PamState := mkPam (x_impression s) (x_status s) (x_subject s).

Lemma push_step_pam step s : pam_of (push_step step s) = pam_of s ∧ x_evidence (push_step step s) = x_evidence s.
Proof. unfold push_step. by destruct (_ <? _)%N. Qed.

Lemma dispatch_verdict initial ahead result action s : let d := dispatch initial ahead result action s in
  verdict (pam_of initial) ahead result action (pam_of s) = (pam_of d.1, d.2) ∧ x_evidence d.1 = x_evidence s.
Proof.
  destruct s as [i st sub e tr t]. unfold dispatch, verdict, pam_of. cbn [x_impression x_status x_subject]. destruct (a_kind action); try (split; reflexivity).
  - by destruct (bool_decide (i = INegative)).
  - by destruct (bool_decide (i = INegative)).
  - destruct (_ || _); [|done]. by destruct (String.eqb result "ignore").
  - destruct (_ || _); [|split; [|done]]; [destruct (String.eqb result "ignore")|]; cbn; split; try done; by destruct (bool_decide (i = IPositive)).
  - by destruct (ahead <? a_jump action).
Qed.

(** The analyzer's step is the step of the path, with its evidence. *)
Lemma answer_exact initial ahead rule control s result :
  match answer provider service platform initial ahead rule control s result with
  | None => pam_answer (pam_of initial) ahead rule (action_of control result) (pam_of s) result = None
  | Some (s', o) => ∃ ev, pam_answer (pam_of initial) ahead rule (action_of control result) (pam_of s) result = Some (pam_of s', o, ev) ∧ x_evidence s' = event_evidence (x_evidence s) ev
  end.
Proof.
  unfold answer, pam_answer. cbn [pam_of pam_subject pam_impression pam_status]. destruct (refineIdentitySubject _ _ _) as [sub|]; [|done].
  set (action := action_of control result). set (e := recordTrustedAuthenticationExclusion _ _ _ _ _ _). set (s1 := push_step _ _).
  assert (pam_of s1 = mkPam (x_impression s) (x_status s) sub ∧ x_evidence s1 = e) as [Hp He]. { subst s1. destruct (push_step_pam (mkStep (r_source rule) (r_line rule) (r_module rule) result (r_control rule) (actionName action)) (set_evidence e (set_subject sub s))) as [-> ->]. done. }
  destruct (dispatch_verdict initial ahead result action s1) as [Hv Hev]. rewrite Hp in Hv. rewrite Hv. destruct (dispatch initial ahead result action s1) as [s2 o]. cbn [fst snd] in *.
  assert (x_evidence s2 = e) as He2 by congruence. destruct o as [skip|].
  - exists (mkEvent rule result action false). split; [done|]. by rewrite He2.
  - change (bool_decide (x_impression s2 = IPositive) && _) with (granting (pam_of s2)). destruct (granting (pam_of s2)) eqn:Hg; exists (mkEvent rule result action (granting (pam_of s2))); rewrite Hg; (split; [done|]); unfold event_evidence; cbn; by rewrite He2.
Qed.

(** * All paths at once *)

(** Some state of the list stands for this state of the stack and evidence. *)
Definition has (l : list ExecutionState) (p : PamState) (e : Evidence) : Prop := ∃ s, s ∈ l ∧ pam_of s = p ∧ x_evidence s = e.

Lemma has_nil p e : ¬ has [] p e.
Proof. intros (s & Hs & _). by apply not_elem_of_nil in Hs. Qed.

Lemma has_snoc l s p e : has (l ++ [s])%list p e ↔ has l p e ∨ (pam_of s = p ∧ x_evidence s = e).
Proof. unfold has. setoid_rewrite elem_of_app. setoid_rewrite list_elem_of_singleton. naive_solver. Qed.

Lemma sameState_exact s t : sameState s t = true ↔ pam_of s = pam_of t ∧ x_evidence s = x_evidence t.
Proof.
  unfold sameState, pam_of. rewrite !andb_true_iff, !bool_decide_eq_true, String.eqb_eq. split; [by intros [[[-> ->] ->] ->]|]. by intros [[= -> -> ->] ->].
Qed.

Lemma addUnique_has l s l' p e : addUnique l s = Some l' → has l' p e ↔ has l p e ∨ (pam_of s = p ∧ x_evidence s = e).
Proof.
  unfold addUnique. destruct (existsb _ _) eqn:Hex.
  - intros [= <-]. apply existsb_exists in Hex as (t & Ht%list_elem_of_In & [Hp He]%sameState_exact). split; [by left|]. intros [?|[<- <-]]; [done|]. by exists t.
  - destruct (_ <=? _)%N; [done|]. intros [= <-]. apply has_snoc.
Qed.

Definition hasp (loop : Loop) (k : nat) (p : PamState) (e : Evidence) : Prop := ∃ l, l_pending loop !! k = Some l ∧ has l p e.
Definition hasc (loop : Loop) (p : PamState) (e : Evidence) : Prop := has (l_completed loop) p e.

(** The step added these states to the pending and to the completed ones. *)
Record adds (loop loop' : Loop) (P : nat → PamState → Evidence → Prop) (C : PamState → Evidence → Prop) : Prop := {
  adds_length : length (l_pending loop') = length (l_pending loop);
  adds_pending : ∀ k p e, hasp loop' k p e ↔ hasp loop k p e ∨ P k p e;
  adds_completed : ∀ p e, hasc loop' p e ↔ hasc loop p e ∨ C p e
}.

Lemma adds_nothing loop loop' (P : nat → PamState → Evidence → Prop) (C : PamState → Evidence → Prop) :
  l_pending loop' = l_pending loop → l_completed loop' = l_completed loop → (∀ k p e, ¬ P k p e) → (∀ p e, ¬ C p e) → adds loop loop' P C.
Proof. intros Hp Hc HP HC. split; [by rewrite Hp|intros k p e; unfold hasp; rewrite Hp; naive_solver|intros p e; unfold hasc; rewrite Hc; naive_solver]. Qed.

Lemma adds_mono loop loop' (P Q : nat → PamState → Evidence → Prop) (C D : PamState → Evidence → Prop) :
  adds loop loop' P C → (∀ k p e, P k p e ↔ Q k p e) → (∀ p e, C p e ↔ D p e) → adds loop loop' Q D.
Proof. intros [Hl HP HC] HQ HD. split; [done|intros k p e; by rewrite HP, HQ|intros p e; by rewrite HC, HD]. Qed.

Lemma add_pending_adds k s loop loop' : add_pending k s loop = Some loop' →
  adds loop loop' (λ k' p e, k' = k ∧ pam_of s = p ∧ x_evidence s = e) (λ _ _, False).
Proof.
  unfold add_pending. destruct (l_pending loop !! k) as [l|] eqn:Hk; [|done]. destruct (addUnique l s) as [l'|] eqn:Ha; [|done]. intros [= <-]. split; cbn [l_pending l_completed].
  - apply length_insert.
  - intros k' p e. unfold hasp. cbn [l_pending]. destruct (decide (k' = k)) as [->|Hne].
    + rewrite list_lookup_insert_eq by by eapply lookup_lt_Some. rewrite Hk. pose proof (addUnique_has l s l' p e Ha). naive_solver.
    + rewrite list_lookup_insert_ne by done. naive_solver.
  - intros p e. unfold hasc. naive_solver.
Qed.

Lemma add_completed_adds s loop loop' : add_completed s loop = Some loop' → adds loop loop' (λ _ _ _, False) (λ p e, pam_of s = p ∧ x_evidence s = e).
Proof.
  unfold add_completed. destruct (addUnique _ s) as [l'|] eqn:Ha; [|done]. intros [= <-]. split; [done|unfold hasp; naive_solver|]. intros p e. by apply addUnique_has.
Qed.

(** A fold adds what its steps add. *)
Lemma fold_adds {A} (f : A → Loop → option Loop) (P : A → nat → PamState → Evidence → Prop) (C : A → PamState → Evidence → Prop) n l loop loop' :
  (∀ a b b', a ∈ l → length (l_pending b) = n → f a b = Some b' → adds b b' (P a) (C a)) → length (l_pending loop) = n → fold_option f l loop = Some loop' →
  adds loop loop' (λ k p e, ∃ a, a ∈ l ∧ P a k p e) (λ p e, ∃ a, a ∈ l ∧ C a p e).
Proof.
  revert loop. induction l as [|a l IH]; intros loop Hf Hn; cbn [fold_option].
  - intros [= <-]. apply adds_nothing; [done|done|by intros ??? (a & ?%not_elem_of_nil & _)|by intros ?? (a & ?%not_elem_of_nil & _)].
  - destruct (f a loop) as [b|] eqn:Ha; [|done]. intros Hb. pose proof (Hf a loop b (list_elem_of_here _ _) Hn Ha) as [Hl1 HP1 HC1].
    destruct (IH b) as [Hl2 HP2 HC2]; [intros a' ? ? ?; apply Hf; by right|congruence|done|]. split; [congruence| |].
    + intros k p e. rewrite HP2, HP1. setoid_rewrite elem_of_cons. naive_solver.
    + intros p e. rewrite HC2, HC1. setoid_rewrite elem_of_cons. naive_solver.
Qed.

Lemma take_answer_adds initial rule control s result loop loop' : take_answer provider service platform initial rule control s result loop = Some loop' →
  adds loop loop'
    (λ k p e, ∃ ev, pam_answer (pam_of initial) (pred (length (l_pending loop))) rule (action_of control result) (pam_of s) result = Some (p, Onward k, ev) ∧ e = event_evidence (x_evidence s) ev)
    (λ p e, ∃ ev, pam_answer (pam_of initial) (pred (length (l_pending loop))) rule (action_of control result) (pam_of s) result = Some (p, Finished, ev) ∧ e = event_evidence (x_evidence s) ev).
Proof.
  unfold take_answer. destruct (_ <? _)%N; [done|]. cbn [l_pending]. set (b := mkLoop _ _ _).
  pose proof (answer_exact initial (pred (length (l_pending loop))) rule control s result) as Ha. assert (∀ b' P C, adds b b' P C → adds loop b' P C) as Hsame by (intros b' P C [? ? ?]; by split).
  destruct (answer _ _ _ _ _ _ _ _ _) as [[s' [skip|]]|].
  - destruct Ha as (ev & Ha & He). intros Hb%add_pending_adds. apply Hsame. eapply adds_mono; [exact Hb| |]; cbv beta; naive_solver.
  - destruct Ha as (ev & Ha & He). intros Hb%add_completed_adds. apply Hsame. eapply adds_mono; [exact Hb| |]; cbv beta; naive_solver.
  - intros [= <-]. apply adds_nothing; [done|done|naive_solver|naive_solver].
Qed.

(** What one entry adds for one path. *)
Definition entry_pending (initial : PamState) (ahead : nat) (entry : PamStackEntry) (s : ExecutionState) (k : nat) (p : PamState) (e : Evidence) : Prop :=
  let 'mkEntry rule substack := entry in
  (r_includeKind rule = KSubstack ∧ k = 0 ∧ ∃ events, walk (pam_of s) substack (pam_of s) events p ∧ e = path_evidence events (x_evidence s)) ∨
  (r_includeKind rule ≠ KSubstack ∧ ∃ action result ev, result ∈ moduleOutcomes rule service platform ∧ reads rule result action ∧
     pam_answer initial ahead rule action (pam_of s) result = Some (p, Onward k, ev) ∧ e = event_evidence (x_evidence s) ev).
Definition entry_completed (initial : PamState) (ahead : nat) (entry : PamStackEntry) (s : ExecutionState) (p : PamState) (e : Evidence) : Prop :=
  let 'mkEntry rule _ := entry in
  r_includeKind rule ≠ KSubstack ∧ ∃ action result ev, result ∈ moduleOutcomes rule service platform ∧ reads rule result action ∧
    pam_answer initial ahead rule action (pam_of s) result = Some (p, Finished, ev) ∧ e = event_evidence (x_evidence s) ev.

Lemma path_evidence_app events events' e : path_evidence (events ++ events') e = path_evidence events' (path_evidence events e).
Proof. apply foldl_app. Qed.

(** Going on after an entry is a path from it. *)
Lemma walk_after initial entry rest s k p e events out : entry_pending initial (length rest) entry s k p e → walk initial (List.skipn k rest) p events out →
  ∃ events', walk initial (entry :: rest) (pam_of s) events' out ∧ path_evidence events e = path_evidence events' (x_evidence s).
Proof.
  destruct entry as [rule substack]. intros [(Hk & -> & events1 & Hw & ->)|(Hk & action & result & ev & Hr & Hc & Ha & ->)] Hrest.
  - exists (events1 ++ events)%list. split; [by econstructor|]. by rewrite path_evidence_app.
  - exists (ev :: events). split; [by eapply walk_onward|done].
Qed.

Lemma walk_from initial entry rest s events out : walk initial (entry :: rest) (pam_of s) events out →
  entry_completed initial (length rest) entry s out (path_evidence events (x_evidence s)) ∨
  ∃ k p e events', entry_pending initial (length rest) entry s k p e ∧ walk initial (List.skipn k rest) p events' out ∧ path_evidence events (x_evidence s) = path_evidence events' e.
Proof.
  inversion 1 as [|rule substack rest' action p result p' skip ev events1 out' Hk Hr Hc Ha Hw|rule substack rest' action p result p' ev Hk Hr Hc Ha|
    rule substack rest' p events1 mid events2 out' Hk Hw Hw']; subst.
  - right. exists skip, p', (event_evidence (x_evidence s) ev), events1. split; [right; split; [done|]; by exists action, result, ev|]. by split.
  - left. split; [done|]. by exists action, result, ev.
  - right. exists 0, mid, (path_evidence events1 (x_evidence s)), events2. split; [left; by eauto|]. split; [done|]. apply path_evidence_app.
Qed.

Definition starts (here : list ExecutionState) (loop : Loop) (i : nat) : PamState → Evidence → Prop := match i with 0 => has here | S k => hasp loop k end.

Lemma run_entries_exact (entry : PamStackEntry → ExecutionState → Loop → option Loop) (initial : PamState) entries :
  (∀ x s loop loop', x ∈ entries → 0 < length (l_pending loop) → entry x s loop = Some loop' →
     adds loop loop' (entry_pending initial (pred (length (l_pending loop))) x s) (entry_completed initial (pred (length (l_pending loop))) x s)) →
  ∀ here loop loop', length (l_pending loop) = length entries → run_entries entry entries here loop = Some loop' →
  ∀ p' e', hasc loop' p' e' ↔ hasc loop p' e' ∨ ∃ i p e events, starts here loop i p e ∧ walk initial (List.skipn i entries) p events p' ∧ e' = path_evidence events e.
Proof.
  induction entries as [|x rest IH]; intros Hentry here loop loop' Hlen; cbn [run_entries].
  - intros Hfold p' e'. eapply (fold_adds _ (λ _ _ _ _, False) (λ s p e, pam_of s = p ∧ x_evidence s = e)) in Hfold as [_ _ ->]; [|by intros s b b' _ _ ?%add_completed_adds|done].
    split; (intros [?|Hx]; [by left|right]).
    + destruct Hx as (s & Hs & <- & <-). exists 0, (pam_of s), (x_evidence s), []. split; [by exists s|]. split; [constructor|done].
    + destruct Hx as ([|k] & p & e & events & Hst & Hw & ->).
      * cbn in Hw. inversion Hw; subst. destruct Hst as (s & Hs & <- & <-). by exists s.
      * destruct Hst as (l & Hl & _). apply lookup_lt_Some in Hl. cbn in *. lia.
  - destruct (fold_option (entry x) here loop) as [[pending completed tr]|] eqn:Hfold; [|done]. destruct pending as [|next pending]; [done|]. intros Hrun p' e'.
    apply (fold_adds _ (entry_pending initial (length rest) x) (entry_completed initial (length rest) x) (S (length rest))) in Hfold as [Hl HP HC]; [| |done].
    2: { intros s b b' _ Hb Hs. apply Hentry in Hs; [|by left|lia]. by rewrite Hb in Hs. }
    assert (length pending = length rest) as Hlp by (cbn in *; lia). rewrite (IH ltac:(intros; eapply Hentry; [by right|done|done]) next (mkLoop pending completed tr) _ Hlp Hrun p' e').
    change (hasc (mkLoop pending completed tr) p' e') with (hasc (mkLoop (next :: pending) completed tr) p' e'). rewrite HC.
    assert (∀ i p e, starts next (mkLoop pending completed tr) i p e ↔ hasp (mkLoop (next :: pending) completed tr) i p e) as Hstarts.
    { intros [|k] p e; [|done]. unfold hasp. cbn. naive_solver. }
    setoid_rewrite Hstarts. setoid_rewrite HP. split.
    + intros [[?|(s & Hs & Hc)]|(i & p & e & events & [Hi|(s & Hs & Hp)] & Hw & ->)]; [by left| | |]; right.
      * destruct x as [rule substack], Hc as (Hk & action & result & ev & Hr & Hpc & Ha & ->). exists 0, (pam_of s), (x_evidence s), [ev]. split; [by exists s|]. split; [by eapply walk_finished|done].
      * exists (S i), p, e, events. done.
      * destruct (walk_after _ _ _ _ _ _ _ _ _ Hp Hw) as (events' & Hw' & He). exists 0, (pam_of s), (x_evidence s), events'. split; [by exists s|done].
    + intros [?|([|i] & p & e & events & Hst & Hw & ->)]; [by left; left| |right; by exists i, p, e, events; split; [left|]].
      destruct Hst as (s & Hs & <- & <-). apply walk_from in Hw as [Hc|(k & p & e & events' & Hp & Hw & ->)].
      * left. right. by exists s.
      * right. exists k, p, e, events'. split; [|done]. right. by exists s.
Qed.

Lemma start_only P initial entries s loop p' e' : l_pending loop = replicate (length entries) [] → l_completed loop = [] →
  (P p' e' ↔ hasc loop p' e' ∨ ∃ i p e events, starts [s] loop i p e ∧ walk initial (List.skipn i entries) p events p' ∧ e' = path_evidence events e) →
  P p' e' ↔ ∃ events, walk initial entries (pam_of s) events p' ∧ e' = path_evidence events (x_evidence s).
Proof.
  intros Hp Hc ->. unfold hasc. rewrite Hc. split.
  - intros [[]%has_nil|([|i] & p & e & events & Hst & Hw & ->)].
    + destruct Hst as (t & ->%list_elem_of_singleton & <- & <-). by exists events.
    + destruct Hst as (l & Hl & Hh). rewrite Hp in Hl. apply lookup_replicate in Hl as [-> _]. by apply has_nil in Hh.
  - intros (events & Hw & ->). right. exists 0, (pam_of s), (x_evidence s), events. split; [|done]. exists s. by rewrite list_elem_of_singleton.
Qed.

(** * Exactness *)

(** What one entry of the stack does, whatever its substacks hold. *)
Lemma execute_entry_adds x : ∀ depth initial s loop loop', 0 < length (l_pending loop) →
  execute_entry provider service platform depth initial x s loop = Some loop' →
  adds loop loop' (entry_pending (pam_of initial) (pred (length (l_pending loop))) x s) (entry_completed (pam_of initial) (pred (length (l_pending loop))) x s).
Proof.
  induction x as [rule substack IH] using stack_entry_ind. intros depth initial s loop loop' Hpos. cbn [execute_entry]. destruct (bool_decide_reflect (r_includeKind rule = KSubstack)) as [Hk|Hk].
  - destruct (_ <? _); [done|]. set (nested := push_step _ _). destruct (run_entries _ _ _ _) as [inner|] eqn:Hrun; [|done]. intros Hfold.
    destruct (push_step_pam (boundary rule) s) as [Hp He]. fold nested in Hp, He.
    assert (∀ p e, hasc inner p e ↔ ∃ events, walk (pam_of s) substack (pam_of s) events p ∧ e = path_evidence events (x_evidence s)) as Hinner.
    { intros p e. rewrite <- Hp, <- He. eapply (start_only (hasc inner) _ _ _ (mkLoop (replicate (length substack) []) [] (l_transitions loop))); [reflexivity|reflexivity|].
      refine (run_entries_exact (execute_entry provider service platform (S depth) nested) (pam_of nested) substack _ [nested] _ inner _ Hrun p e); [intros; by eapply IH|apply length_replicate]. }
    apply (fold_adds _ (λ t k p e, k = 0 ∧ pam_of t = p ∧ x_evidence t = e) (λ _ _ _, False) (length (l_pending loop))) in Hfold; [|by intros t b b' _ _ ?%add_pending_adds|done].
    destruct Hfold as [Hl HP HC]. cbn [l_pending] in Hl. split; [done| |].
    + intros k p e. rewrite HP. apply or_iff_compat_l. pose proof (Hinner p e) as Hi. unfold entry_pending. unfold hasc, has in Hi. naive_solver.
    + intros p e. rewrite HC. apply or_iff_compat_l. unfold entry_completed. naive_solver.
  - destruct (parseControl rule) as [control|] eqn:Hc; [|done]. intros Hfold.
    eapply (fold_adds _ _ _ (length (l_pending loop))) in Hfold; [|intros result b b' _ Hb Ht; apply take_answer_adds in Ht; rewrite Hb in Ht; exact Ht|done].
    pose proof (λ result action, reads_exact rule control result action Hc) as Hread.
    eapply adds_mono; [exact Hfold| |]; unfold entry_pending, entry_completed; setoid_rewrite Hread; naive_solver.
Qed.

(** The completed states are the ends of the paths. *)
Lemma executeStack_exact entries initial completed : executeStack provider service platform entries initial = Some completed →
  ∀ p e, has completed p e ↔ ∃ events, walk (pam_of initial) entries (pam_of initial) events p ∧ e = path_evidence events (x_evidence initial).
Proof.
  unfold executeStack. destruct (run_entries _ _ _ _) as [loop|] eqn:Hrun; [|done]. intros [= <-] p e.
  eapply (start_only (hasc loop) _ _ _ (mkLoop (replicate (length entries) []) [] 0)); [reflexivity|reflexivity|].
  refine (run_entries_exact (execute_entry provider service platform 0 initial) (pam_of initial) entries _ [initial] _ loop _ Hrun p e); [|apply length_replicate].
  intros; by eapply execute_entry_adds.
Qed.
End paths.

(** ** Two readings *)

(** The rules of a stack, those of its substacks included. *)
Inductive rule_in (rule : PamRule) : list PamStackEntry → Prop :=
| rule_here substack rest : rule_in rule (mkEntry rule substack :: rest)
| rule_inside r substack rest : rule_in rule substack → rule_in rule (mkEntry r substack :: rest)
| rule_later entry rest : rule_in rule rest → rule_in rule (entry :: rest).

Lemma rule_in_skipn rule k entries : rule_in rule (List.skipn k entries) → rule_in rule entries.
Proof. revert k. induction entries as [|x rest IH]; intros [|k]; try done. intros Hr. apply rule_later. by apply (IH k). Qed.

(** Readings that agree on the answers of the rules of a stack give its paths. *)
Lemma walk_reads service platform (reads reads' : PamRule → string → ControlAction → Prop) initial entries p events out :
  (∀ rule result action, rule_in rule entries → result ∈ moduleOutcomes rule service platform → reads rule result action → reads' rule result action) →
  walk service platform reads initial entries p events out → walk service platform reads' initial entries p events out.
Proof.
  intros Hsame. induction 1 as [|initial rule substack rest action p result p' skip ev events out Hk Hr Hc Ha Hw IH|initial rule substack rest action p result p' ev Hk Hr Hc Ha|
    initial rule substack rest p events mid events' out Hk Hw IH Hw' IH'].
  - constructor.
  - eapply walk_onward; [done|exact Hr|apply Hsame; [constructor|done|exact Hc]|exact Ha|]. apply IH. intros r q a Hin. apply Hsame, rule_later. by eapply rule_in_skipn.
  - eapply walk_finished; [done|exact Hr|apply Hsame; [constructor|done|exact Hc]|exact Ha].
  - eapply walk_substack; [done|apply IH; intros r q a Hin; by apply Hsame, rule_inside|apply IH'; intros r q a Hin; by apply Hsame, rule_later].
Qed.

(** No rule that is required or requisite has a module that may answer ignore. *)
Definition ignore_is_elsewhere (service : string) (platform : PamPlatformConfig) (entries : list PamStackEntry) : Prop :=
  ∀ rule, rule_in rule entries → "ignore" ∈ moduleOutcomes rule service platform →
    lowerCopy (r_control rule) ≠ "required" ∧ lowerCopy (r_control rule) ≠ "requisite".

Lemma reading_manual manual manual' control result action :
  result ≠ "ignore" ∨ (control ≠ "required" ∧ control ≠ "requisite") → reading manual control result action → reading manual' control result action.
Proof.
  intros Hcase [s f Hin|inside pairs -> Hf Hne Hnd]; [|by eapply reading_list].
  assert ((if String.eqb result "success" || String.eqb result "new_authtok_reqd" then s else if manual && String.eqb result "ignore" then AIgnore else f) =
          (if String.eqb result "success" || String.eqb result "new_authtok_reqd" then s else if manual' && String.eqb result "ignore" then AIgnore else f)) as ->.
  { destruct (_ || _); [done|]. destruct (String.eqb_spec result "ignore") as [->|]; [|by rewrite !andb_false_r].
    destruct Hcase as [|[H1 H2]]; [done|]. unfold simple_controls in Hin.
    repeat (apply elem_of_cons in Hin as [Hin|Hin]; [simplify_eq; try (by destruct manual, manual')|]). by apply not_elem_of_nil in Hin. }
  by constructor.
Qed.

(** The state in which an application starts a stack. *)
Definition pam_start : PamState := mkPam IUndefined "perm_denied" SubUnknown.

(** The ways of a stack under pam.conf(5). *)
Definition manual_runs (service : string) (platform : PamPlatformConfig) (entries : list PamStackEntry) (events : list Event) (p : PamState) : Prop :=
  walk service platform (rule_reading true) pam_start entries pam_start events p.

Lemma manual_walk service platform initial entries p events out : ignore_is_elsewhere service platform entries →
  walk service platform (rule_reading true) initial entries p events out ↔ walk service platform (rule_reading false) initial entries p events out.
Proof.
  intros Hno. split; apply walk_reads; intros rule result action Hin Hr; apply reading_manual;
    (destruct (decide (result = "ignore")) as [->|]; [right; by apply Hno|by left]).
Qed.

Create HintDb pam.
#[export] Hint Constructors walk : pam.

(** From the beginning of a stack. *)
Definition runs (service : string) (platform : PamPlatformConfig) (entries : list PamStackEntry) (events : list Event) (p : PamState) : Prop :=
  walk service platform (rule_reading false) pam_start entries pam_start events p.

(** The states of an analysis are judged by their decision and evidence only. *)
Lemma states_are_paths provider service platform entries states (J : PamState → Evidence → Prop) :
  executeStack provider service platform entries initial_state = Some states →
  (∀ s, s ∈ states → J (pam_of s) (x_evidence s)) ↔ ∀ events p, runs service platform entries events p → J p (path_evidence service platform provider events no_evidence).
Proof.
  intros Hx. pose proof (executeStack_exact _ _ _ _ parseControl_exact _ _ _ Hx) as He. change (x_evidence initial_state) with no_evidence in He. split.
  - intros HJ events p Hw. destruct (proj2 (He p (path_evidence service platform provider events no_evidence))) as (s & Hs & <- & <-); [by exists events|]. by apply HJ.
  - intros HJ s Hs. destruct (proj1 (He (pam_of s) (x_evidence s))) as (events & Hw & ->); [by exists s|]. by apply HJ.
Qed.

Lemma some_state_is_path provider service platform entries states (J : PamState → Evidence → Prop) :
  executeStack provider service platform entries initial_state = Some states →
  (∃ s, s ∈ states ∧ J (pam_of s) (x_evidence s)) ↔ ∃ events p, runs service platform entries events p ∧ J p (path_evidence service platform provider events no_evidence).
Proof.
  intros Hx. pose proof (executeStack_exact _ _ _ _ parseControl_exact _ _ _ Hx) as He. change (x_evidence initial_state) with no_evidence in He. split.
  - intros (s & Hs & HJ). destruct (proj1 (He (pam_of s) (x_evidence s))) as (events & Hw & Hev); [by exists s|]. exists events, (pam_of s). split; [done|]. by rewrite Hev in HJ.
  - intros (events & p & Hw & HJ). destruct (proj2 (He p (path_evidence service platform provider events no_evidence))) as (s & Hs & Hp & Hev); [by exists events|]. exists s. by rewrite Hp, Hev.
Qed.
