(* ===== verification/PamEvidence.v ===== *)
(** What the evidence of a path says: every flag of the analyzer is a statement
    about the answers on the path. *)

From S2P Require Import Prelude PolicyValue ConfigFile OwnershipGrammar MutationValid TextLines PamStack PamFlow PamPaths.
Open Scope string_scope.
Open Scope nat_scope.

(** * Answers *)

Definition of_module (module : string) (ev : Event) : bool := String.eqb (moduleBaseName (ev_rule ev)) module.
Definition in_group (group : PamManagementGroup) (ev : Event) : bool := bool_decide (r_group (ev_rule ev) = group).
Definition answered (result : string) (ev : Event) : bool := String.eqb (ev_result ev) result.
Definition argued (argument : string) (ev : Event) : bool := hasArgument (ev_rule ev) argument.
Definition failing (ev : Event) : bool := bool_decide (a_kind (ev_action ev) = ABad ∨ a_kind (ev_action ev) = ADie).

(** The password group. *)
Definition quality_passed (ev : Event) : bool := in_group GPassword ev && of_module "pam_pwquality.so" ev && answered "success" ev.
Definition history_asked (ev : Event) : bool := in_group GPassword ev && of_module "pam_pwhistory.so" ev && argued "use_authtok" ev.
Definition history_passed (ev : Event) : bool := history_asked ev && answered "success" ev.
Definition provider_passed (provider : PamProviderKind) (ev : Event) : bool := of_module (pamProviderModuleName provider) ev && answered "success" ev.

(** pam_faillock; an account rule that succeeds plays no other part. *)
Definition lock_asked (ev : Event) : bool := of_module "pam_faillock.so" ev.
Definition lock_accounted (ev : Event) : bool := lock_asked ev && (in_group GAccount ev && answered "success" ev).
Definition lock_role (ev : Event) : bool := lock_asked ev && negb (in_group GAccount ev && answered "success" ev).
Definition preauth_passed (ev : Event) : bool := lock_role ev && argued "preauth" ev && answered "success" ev.
Definition preauth_refused (ev : Event) : bool := lock_role ev && argued "preauth" ev && answered "auth_err" ev.
Definition preauth_closed (ev : Event) : bool :=
  lock_asked ev && argued "preauth" ev && negb (answered "success" ev || answered "new_authtok_reqd" ev || answered "auth_err" ev) && failing ev.
Definition authfail_asked (ev : Event) : bool := lock_role ev && negb (argued "preauth" ev) && argued "authfail" ev.
Definition authsucc_role (ev : Event) : bool := lock_role ev && negb (argued "preauth" ev) && negb (argued "authfail" ev) && argued "authsucc" ev.
Definition authsucc_passed (ev : Event) : bool := authsucc_role ev && answered "success" ev.
Definition authsucc_refused (ev : Event) : bool := authsucc_role ev && negb (answered "success" ev) && negb (answered "ignore" ev).

(** Modules that decide who the user is. *)
Definition authenticator (ev : Event) : bool :=
  in_group GAuth ev && negb (lock_asked ev) &&
  bool_decide (moduleRole (moduleBaseName (ev_rule ev)) = CredentialAuthenticator ∨ moduleRole (moduleBaseName (ev_rule ev)) = UnknownRole).
Definition trusted_authenticator (ev : Event) : bool :=
  in_group GAuth ev && bool_decide (moduleRole (moduleBaseName (ev_rule ev)) = TrustedAuthenticator).
Definition login_passed (ev : Event) : bool := (authenticator ev || trusted_authenticator ev) && answered "success" ev.
Definition login_failed (ev : Event) : bool := authenticator ev && authenticationFailureResult (ev_result ev).

Section trusted.
Context (service : string) (platform : PamPlatformConfig).

(** The stack ended in favour of a module the platform declares trusted. *)
Definition bypassed (ev : Event) : bool :=
  ev_granted ev && in_group GAuth ev && answered "success" ev && bool_decide (a_kind (ev_action ev) = ADone) &&
  bool_decide (is_Some (matchingTrustedAuthenticationBypass (ev_rule ev) service platform)).

(** The user the platform declares excluded, when a module said it is this one. *)
Definition excluded (ev : Event) : option string :=
  if in_group GAuth ev && answered "auth_err" ev && failing ev
  then match matchingTrustedAuthenticationExclusion (ev_rule ev) service platform with
       | Some rule => if is_empty (ex_excludedUser rule) then None else Some (ex_excludedUser rule)
       | None => None
       end
  else None.
Definition last_excluded (events : list Event) : option string :=
  foldl (λ o ev, match excluded ev with Some u => Some u | None => o end) None events.

(** * Flags *)

Ltac untouched_by g tac :=
  match goal with
  | |- context [?f (g ?e)] => let H := fresh in assert (f (g e) = f e) as H by (tac; repeat case_match; reflexivity); rewrite H; clear H
  end.
Ltac untouched :=
  repeat match goal with
  | |- context [?f (recordTrustedAuthenticationBypass ?r ?x ?a ?s ?p ?e)] => untouched_by (recordTrustedAuthenticationBypass r x a s p) ltac:(unfold recordTrustedAuthenticationBypass)
  | |- context [?f (recordTrustedAuthenticationExclusion ?r ?x ?a ?s ?p ?e)] => untouched_by (recordTrustedAuthenticationExclusion r x a s p) ltac:(unfold recordTrustedAuthenticationExclusion)
  | |- context [?f (recordProviderFailClosedEvidence ?k ?r ?x ?a ?e)] => untouched_by (recordProviderFailClosedEvidence k r x a) ltac:(unfold recordProviderFailClosedEvidence)
  | |- context [?f (record_authentication ?k ?r ?x ?e)] => untouched_by (record_authentication k r x) ltac:(unfold record_authentication)
  | |- context [?f (record_faillock ?r ?x ?e)] => untouched_by (record_faillock r x) ltac:(unfold record_faillock)
  | |- context [?f (record_history ?r ?x ?e)] => untouched_by (record_history r x) ltac:(unfold record_history)
  | |- context [?f (record_quality ?r ?x ?e)] => untouched_by (record_quality r x) ltac:(unfold record_quality)
  | |- context [?f (record_provider ?k ?r ?x ?e)] => untouched_by (record_provider k r x) ltac:(unfold record_provider)
  end.

(** The flag rises with the first such answer and stays. *)
Lemma path_flag (provider : PamProviderKind) (f : Evidence → bool) (t : Event → bool) events :
  (∀ e ev, f (event_evidence service platform provider e ev) = f e || t ev) → f no_evidence = false →
  f (path_evidence service platform provider events no_evidence) = existsb t events.
Proof.
  intros Hf H0. rewrite <- (orb_false_l (existsb t events)), <- H0. generalize no_evidence. induction events as [|ev events IH]; intros e; cbn; [by rewrite orb_false_r|].
  fold (path_evidence service platform provider events (event_evidence service platform provider e ev)). rewrite IH, Hf. by rewrite orb_assoc.
Qed.

Ltac booleans := repeat match goal with |- context [?b] => match type of b with bool => is_var b; destruct b end end.
(** Case analysis over the tests of one answer; the flags that are not concerned
    pass through. *)
Ltac flag_cases :=
  repeat match goal with
  | |- context [if ?b then _ else _] => destruct b eqn:?
  | |- context [match matchingTrustedAuthenticationBypass ?a ?b ?c with _ => _ end] => destruct (matchingTrustedAuthenticationBypass a b c) eqn:?
  end.
Ltac flag_done := cbn; untouched; rewrite ?orb_false_r, ?orb_true_r, ?andb_true_r, ?andb_false_r; try reflexivity.

Lemma quality_flag provider e ev : passwordQualitySucceeded (event_evidence service platform provider e ev) = passwordQualitySucceeded e || quality_passed ev.
Proof.
  unfold event_evidence, recordEvidence. flag_cases; untouched; unfold record_quality, quality_passed, in_group, of_module, answered; flag_cases; flag_done.
Qed.

Lemma reached_flag provider e ev : providerReached (event_evidence service platform provider e ev) = providerReached e || of_module (pamProviderModuleName provider) ev.
Proof. unfold event_evidence, recordEvidence. flag_cases; untouched; unfold record_provider, of_module; flag_cases; flag_done. Qed.

Lemma succeeded_flag provider e ev : providerSucceeded (event_evidence service platform provider e ev) = providerSucceeded e || provider_passed provider ev.
Proof. unfold event_evidence, recordEvidence. flag_cases; untouched; unfold record_provider, provider_passed, of_module, answered; flag_cases; flag_done. Qed.

Lemma history_reached_flag provider e ev : passwordHistoryReached (event_evidence service platform provider e ev) = passwordHistoryReached e || history_asked ev.
Proof. unfold event_evidence, recordEvidence. flag_cases; untouched; unfold record_history, history_asked, of_module, in_group, argued; flag_cases; flag_done. Qed.

Lemma history_passed_flag provider e ev : passwordHistorySucceeded (event_evidence service platform provider e ev) = passwordHistorySucceeded e || history_passed ev.
Proof. unfold event_evidence, recordEvidence. flag_cases; untouched; unfold record_history, history_passed, history_asked, of_module, in_group, argued, answered; flag_cases; flag_done. Qed.

Lemma produced_flag provider e ev : passwordTokenProduced (event_evidence service platform provider e ev) = passwordTokenProduced e || quality_passed ev.
Proof. unfold event_evidence, recordEvidence. flag_cases; untouched; unfold record_quality, quality_passed, of_module, in_group, answered; flag_cases; flag_done. Qed.

Lemma available_flag provider e ev : passwordHistoryTokenAvailable (event_evidence service platform provider e ev) =
  if history_asked ev then (if passwordHistoryReached e then passwordHistoryTokenAvailable e else passwordTokenProduced e) else passwordHistoryTokenAvailable e.
Proof.
  unfold event_evidence, recordEvidence. destruct (ev_granted ev), (bool_decide _ && _) eqn:?; untouched; unfold record_history, history_asked, of_module, in_group, argued;
    destruct (bool_decide (r_group _ = _)), (String.eqb _ "pam_pwhistory.so") eqn:Hm, (hasArgument _ _); flag_done;
    unfold record_quality; rewrite (proj1 (String.eqb_eq _ _) Hm); cbn [String.eqb Ascii.eqb Bool.eqb]; rewrite andb_false_r; untouched; done.
Qed.

(** * The password group *)

(** Every use of the new password by pam_pwhistory comes after pam_pwquality
    has accepted one. *)
Definition history_fed (events : list Event) : Prop :=
  ∀ before ev after, events = (before ++ ev :: after)%list → history_asked ev = true → existsb quality_passed before = true.

Lemma history_fed_snoc events ev : history_fed (events ++ [ev]) ↔ history_fed events ∧ (history_asked ev = true → existsb quality_passed events = true).
Proof.
  split.
  - intros H. split; [|by apply (H events ev [])]. intros before x after -> Hx. by apply (H before x (after ++ [ev])%list); [rewrite <- app_assoc|].
  - intros [H Hev] before x after Heq Hx. destruct after as [|y after _] using rev_ind.
    + apply app_inj_tail in Heq as [<- ->]. by apply Hev.
    + rewrite app_comm_cons, app_assoc in Heq. apply app_inj_tail in Heq as [-> ->]. by eapply H.
Qed.

Lemma fed_asked events : history_fed events → existsb history_asked events = true → existsb quality_passed events = true.
Proof.
  intros H (ev & (before & after & ->)%list_elem_of_In%list_elem_of_split & Hev)%existsb_exists. rewrite existsb_app, (H before ev after eq_refl Hev). done.
Qed.

Lemma unasked_is_fed events : existsb history_asked events = false → history_fed events.
Proof. intros Ha before x after -> Hx. rewrite existsb_app in Ha. cbn in Ha. by rewrite Hx, orb_true_r in Ha. Qed.

Lemma path_snoc provider events ev e : path_evidence service platform provider (events ++ [ev]) e = event_evidence service platform provider (path_evidence service platform provider events e) ev.
Proof. by rewrite path_evidence_app. Qed.

Section flags.
Context (provider : PamProviderKind) (events : list Event).
Notation E := (path_evidence service platform provider events no_evidence).

Lemma path_quality : passwordQualitySucceeded E = existsb quality_passed events.
Proof. by apply (path_flag provider); [apply quality_flag|]. Qed.
Lemma path_history_reached : passwordHistoryReached E = existsb history_asked events.
Proof. by apply (path_flag provider); [apply history_reached_flag|]. Qed.
Lemma path_history_passed : passwordHistorySucceeded E = existsb history_passed events.
Proof. by apply (path_flag provider); [apply history_passed_flag|]. Qed.
Lemma path_produced : passwordTokenProduced E = existsb quality_passed events.
Proof. by apply (path_flag provider); [apply produced_flag|]. Qed.
Lemma path_reached : providerReached E = existsb (of_module (pamProviderModuleName provider)) events.
Proof. by apply (path_flag provider); [apply reached_flag|]. Qed.
Lemma path_succeeded : providerSucceeded E = existsb (provider_passed provider) events.
Proof. by apply (path_flag provider); [apply succeeded_flag|]. Qed.
End flags.

Lemma path_available provider events : existsb history_asked events = true →
  passwordHistoryTokenAvailable (path_evidence service platform provider events no_evidence) = true ↔ history_fed events.
Proof.
  induction events as [|ev events IH] using rev_ind; [done|]. rewrite existsb_app, path_snoc, available_flag, history_fed_snoc, path_history_reached, path_produced. cbn. rewrite orb_false_r.
  destruct (existsb history_asked events) eqn:Ha.
  - intros _. specialize (IH eq_refl). pose proof (fed_asked events). destruct (history_asked ev); naive_solver.
  - cbn. intros ->. assert (history_fed events) by by apply unasked_is_fed. naive_solver.
Qed.


(** * The lockout *)

(** A flag that only pam_faillock's own answers raise. *)
Ltac lock_flag f :=
  unfold event_evidence, recordEvidence, lock_accounted, preauth_passed, preauth_refused, authfail_asked, authsucc_passed, authsucc_refused, authsucc_role, lock_role, lock_asked,
    of_module, in_group, answered, argued;
  rewrite bool_decide_eq_true_2 by reflexivity; cbn [andb pamProviderModuleName];
  destruct (ev_granted _), (String.eqb _ "pam_faillock.so"); untouched; try (by rewrite orb_false_r);
  unfold record_faillock; destruct (bool_decide (r_group _ = GAccount)), (String.eqb _ "success"); cbn;
  repeat match goal with |- context [hasArgument ?r ?a] => destruct (hasArgument r a); cbn end; untouched; rewrite ?orb_false_r, ?orb_true_r; try reflexivity.

Notation step := (event_evidence service platform PamFaillock).

Lemma accounted_flag e ev : accountSucceeded (step e ev) = accountSucceeded e || lock_accounted ev.
Proof. lock_flag tt. Qed.
Lemma preauth_passed_flag e ev : preauthSucceeded (step e ev) = preauthSucceeded e || preauth_passed ev.
Proof. lock_flag tt. Qed.
Lemma preauth_refused_flag e ev : preauthDenied (step e ev) = preauthDenied e || preauth_refused ev.
Proof. lock_flag tt. Qed.
Lemma authfail_flag e ev : authfailReached (step e ev) = authfailReached e || authfail_asked ev.
Proof. lock_flag tt. Qed.
Lemma authsucc_passed_flag e ev : authsuccSucceeded (step e ev) = authsuccSucceeded e || authsucc_passed ev.
Proof. lock_flag tt. Qed.
Lemma authsucc_refused_flag e ev : authsuccDenied (step e ev) = authsuccDenied e || authsucc_refused ev.
Proof. lock_flag tt. Qed.

Lemma preauth_closed_flag e ev : preauthFailedClosed (step e ev) = preauthFailedClosed e || preauth_closed ev.
Proof.
  unfold event_evidence, recordEvidence. destruct (ev_granted ev), (bool_decide _ && _); untouched; unfold recordProviderFailClosedEvidence, preauth_closed, lock_asked, of_module, argued, answered, failing;
    rewrite bool_decide_eq_true_2 by reflexivity; cbn [negb orb]; destruct (String.eqb _ "pam_faillock.so"), (hasArgument _ _), (String.eqb _ "success"), (String.eqb _ "new_authtok_reqd"), (String.eqb _ "auth_err");
    flag_done.
Qed.

Lemma lock_is_no_authenticator ev : lock_asked ev = true → authenticator ev = false ∧ trusted_authenticator ev = false.
Proof.
  unfold authenticator, trusted_authenticator. intros H. rewrite H, andb_false_r. split; [done|]. apply String.eqb_eq in H. rewrite H. apply andb_false_r.
Qed.

Lemma login_flags e ev : authenticationSuccessObserved (step e ev) = authenticationSuccessObserved e || login_passed ev ∧
  authenticationFailureObserved (step e ev) = authenticationFailureObserved e || login_failed ev.
Proof.
  unfold event_evidence, recordEvidence, login_passed, login_failed. rewrite bool_decide_eq_true_2 by reflexivity. cbn [andb pamProviderModuleName].
  change (String.eqb (moduleBaseName (ev_rule ev)) "pam_faillock.so") with (lock_asked ev). destruct (lock_asked ev) eqn:Hl.
  - destruct (lock_is_no_authenticator ev Hl) as [-> ->]. destruct (ev_granted ev); untouched; cbn; by rewrite !orb_false_r.
  - unfold authenticator, trusted_authenticator, in_group, answered. rewrite Hl.
    destruct (ev_granted ev); untouched; unfold record_authentication; cbn [pamProviderModuleName]; change (String.eqb (moduleBaseName (ev_rule ev)) "pam_faillock.so") with (lock_asked ev); rewrite Hl;
      destruct (bool_decide (r_group _ = _)), (bool_decide (_ ∨ _)), (bool_decide (moduleRole _ = TrustedAuthenticator)); cbn; untouched; by rewrite ?orb_false_r.
Qed.

Definition accepted (e : Evidence) : bool := match trustedAuthenticationBypass e with Some _ => true | None => false end.

Lemma bypassed_flag e ev : accepted (step e ev) = accepted e || bypassed ev.
Proof.
  unfold accepted. assert (∀ k r x e, trustedAuthenticationBypass (recordEvidence k r x e) = trustedAuthenticationBypass e) as He.
  { intros. unfold recordEvidence. destruct (_ && _); untouched; done. }
  unfold event_evidence, bypassed. destruct (ev_granted ev); cbn [andb]; [|untouched; rewrite He; by rewrite orb_false_r].
  unfold recordTrustedAuthenticationBypass, in_group, answered. destruct (bool_decide (r_group _ = _)), (String.eqb _ "success"), (bool_decide (a_kind _ = _)); cbn [negb orb andb];
    try (untouched; rewrite He; by rewrite orb_false_r).
  destruct (matchingTrustedAuthenticationBypass _ _ _) eqn:Hm; cbn; [by rewrite orb_true_r|]. untouched. rewrite He. by rewrite orb_false_r.
Qed.

Lemma excluded_step e ev : te_excludedUser <$> trustedAuthenticationExclusion (step e ev) =
  match excluded ev with Some u => Some u | None => te_excludedUser <$> trustedAuthenticationExclusion e end.
Proof.
  assert (∀ k r x e, trustedAuthenticationExclusion (recordEvidence k r x e) = trustedAuthenticationExclusion e) as He.
  { intros. unfold recordEvidence. destruct (_ && _); untouched; done. }
  unfold event_evidence, excluded. assert (∀ b : bool, ∀ f g : Evidence, trustedAuthenticationExclusion (if b then f else g) = if b then trustedAuthenticationExclusion f else trustedAuthenticationExclusion g) as Hif by by intros [].
  rewrite Hif. untouched. assert (∀ (b : bool) A (x : A), (if b then x else x) = x) as Hsame by by intros []. rewrite Hsame.
  unfold recordTrustedAuthenticationExclusion, in_group, answered, failing. destruct (bool_decide (r_group _ = _)), (String.eqb _ "auth_err"), (bool_decide (_ ∨ _)); cbn [negb orb andb];
    try (untouched; by rewrite He).
  destruct (matchingTrustedAuthenticationExclusion _ _ _) as [rule|]; [destruct (is_empty _)|]; cbn; untouched; by rewrite ?He.
Qed.

Section lock_flags.
Context (events : list Event).
Notation E := (path_evidence service platform PamFaillock events no_evidence).

Lemma path_accounted : accountSucceeded E = existsb lock_accounted events.
Proof. by apply path_flag; [apply accounted_flag|]. Qed.
Lemma path_preauth_passed : preauthSucceeded E = existsb preauth_passed events.
Proof. by apply path_flag; [apply preauth_passed_flag|]. Qed.
Lemma path_preauth_refused : preauthDenied E = existsb preauth_refused events.
Proof. by apply path_flag; [apply preauth_refused_flag|]. Qed.
Lemma path_preauth_closed : preauthFailedClosed E = existsb preauth_closed events.
Proof. by apply path_flag; [apply preauth_closed_flag|]. Qed.
Lemma path_authfail : authfailReached E = existsb authfail_asked events.
Proof. by apply path_flag; [apply authfail_flag|]. Qed.
Lemma path_authsucc_passed : authsuccSucceeded E = existsb authsucc_passed events.
Proof. by apply path_flag; [apply authsucc_passed_flag|]. Qed.
Lemma path_authsucc_refused : authsuccDenied E = existsb authsucc_refused events.
Proof. by apply path_flag; [apply authsucc_refused_flag|]. Qed.
Lemma path_login_passed : authenticationSuccessObserved E = existsb login_passed events.
Proof. apply path_flag; [|done]. intros e ev. apply login_flags. Qed.
Lemma path_login_failed : authenticationFailureObserved E = existsb login_failed events.
Proof. apply path_flag; [|done]. intros e ev. apply login_flags. Qed.
Lemma path_lock_asked : providerReached E = existsb lock_asked events.
Proof. apply (path_reached PamFaillock). Qed.
Lemma path_bypassed : accepted E = existsb bypassed events.
Proof. by apply path_flag; [apply bypassed_flag|]. Qed.
Lemma path_excluded : te_excludedUser <$> trustedAuthenticationExclusion E = last_excluded events.
Proof.
  unfold last_excluded. change (@None string) with (te_excludedUser <$> trustedAuthenticationExclusion no_evidence) at 1. generalize no_evidence.
  induction events as [|ev l IH]; intros e; [done|]. cbn. rewrite <- excluded_step. apply IH.
Qed.
End lock_flags.
End trusted.

#[export] Hint Rewrite path_accounted path_preauth_passed path_preauth_refused path_preauth_closed path_authfail path_authsucc_passed path_authsucc_refused path_login_passed
  path_login_failed path_lock_asked path_bypassed : pam_flags.
