(* ===== verification/PamJudgement.v ===== *)
(** The conclusions of the PAM analyzer, in terms of the paths of a stack; and what
    an effective account lockout says of the paths of the authentication and
    account stacks. *)

From S2P Require Import Prelude PolicyValue ConfigFile OwnershipGrammar MutationValid TextLines PamStack PamFlow PamPaths PamEvidence.
Open Scope string_scope.
Open Scope nat_scope.

(** The stack answers success. *)
Definition granted (p : PamState) : bool := bool_decide (pam_impression p = IPositive) && String.eqb (pam_status p) "success".

(** The capability covers the user of this path. *)
Definition concerned (platform : PamPlatformConfig) (capability : PamCapability) (p : PamState) : bool :=
  match List.find (λ c, bool_decide (cap_capability c = capability)) (capabilities platform) with
  | None => true
  | Some configured => negb (bool_decide (cap_subjectScope configured = LocalUsersOnly)) || negb (bool_decide (pam_subject p = SubNonLocal))
  end.

Lemma existsb_elem {A} (f : A → bool) l : existsb f l = true ↔ ∃ x, x ∈ l ∧ f x = true.
Proof. rewrite existsb_exists. by setoid_rewrite list_elem_of_In. Qed.

(** * Password changes *)

(** The answers of the paths on which the password is changed. *)
Definition changes (stack : PamEffectiveStack) (platform : PamPlatformConfig) (events : list Event) : Prop :=
  ∃ p, runs (s_service stack) platform (s_entries stack) events p ∧ granted p = true.
(** The password can be changed, and then always like this. *)
Definition always (stack : PamEffectiveStack) (platform : PamPlatformConfig) (Q : list Event → Prop) : Prop :=
  (∃ events, changes stack platform events) ∧ ∀ events, changes stack platform events → Q events.

Definition state_quality (s : ExecutionState) : bool := passwordQualitySucceeded (x_evidence s).
Definition state_history (s : ExecutionState) : bool := passwordHistoryReached (x_evidence s) && passwordHistorySucceeded (x_evidence s).
Definition state_fed (s : ExecutionState) : bool := negb (passwordHistoryReached (x_evidence s)) || passwordHistoryTokenAvailable (x_evidence s).
Definition state_required (r : PamPasswordFlowRequirements) (s : ExecutionState) : bool :=
  (negb (requireQuality r) || state_quality s) && (negb (requireHistory r) || state_history s && state_fed s).
(** Every successful state. *)
Definition every (f : ExecutionState → bool) (states : list ExecutionState) : Prop := ∀ s, s ∈ states → stackSucceeded s = true → f s = true.

Lemma every_cons f s states : every f (s :: states) ↔ (stackSucceeded s = true → f s = true) ∧ every f states.
Proof. unfold every. setoid_rewrite elem_of_cons. naive_solver. Qed.

Lemma password_state_step stack r a s : let b := password_state stack r a s in
  (qualityNonBypassable b = true ↔ qualityNonBypassable a = true ∧ (stackSucceeded s = true → state_quality s = true)) ∧
  (historyNonBypassable b = true ↔ historyNonBypassable a = true ∧ (stackSucceeded s = true → state_history s = true)) ∧
  (historyAlwaysHasTokenProducer b = true ↔ historyAlwaysHasTokenProducer a = true ∧ (stackSucceeded s = true → state_fed s = true)) ∧
  (pf_violations b = [] ↔ pf_violations a = [] ∧ (stackSucceeded s = true → state_required r s = true)).
Proof.
  destruct a as [q h t v]. unfold password_state, state_required, state_quality, state_history, state_fed. cbn zeta. destruct (stackSucceeded s); cbn [negb]; [|naive_solver].
  cbn [qualityNonBypassable historyNonBypassable historyAlwaysHasTokenProducer pf_violations]. rewrite !andb_true_iff.
  destruct (passwordQualitySucceeded _), (passwordHistoryReached _), (passwordHistorySucceeded _), (passwordHistoryTokenAvailable _), (requireQuality r), (requireHistory r), v as [|v0 v]; cbn; naive_solver.
Qed.

Lemma password_states stack r states a : let b := foldl (password_state stack r) a states in
  (qualityNonBypassable b = true ↔ qualityNonBypassable a = true ∧ every state_quality states) ∧
  (historyNonBypassable b = true ↔ historyNonBypassable a = true ∧ every state_history states) ∧
  (historyAlwaysHasTokenProducer b = true ↔ historyAlwaysHasTokenProducer a = true ∧ every state_fed states) ∧
  (pf_violations b = [] ↔ pf_violations a = [] ∧ every (state_required r) states).
Proof.
  revert a. induction states as [|s states IH]; intros a; cbn [foldl].
  - assert (∀ f, every f []) as Hnil by by intros f s ?%not_elem_of_nil. naive_solver.
  - setoid_rewrite every_cons. destruct (IH (password_state stack r a s)) as (-> & -> & -> & ->). destruct (password_state_step stack r a s) as (-> & -> & -> & ->). naive_solver.
Qed.

Section password.
Context (stack : PamEffectiveStack) (platform : PamPlatformConfig) (states : list ExecutionState).
Context (Hrun : executeStack PamPwquality (s_service stack) platform (s_entries stack) initial_state = Some states).

Lemma some_success : existsb stackSucceeded states = true ↔ ∃ events, changes stack platform events.
Proof.
  rewrite existsb_elem. rewrite (some_state_is_path _ _ _ _ _ (λ p _, granted p = true) Hrun). unfold changes. naive_solver.
Qed.

Lemma every_path (f : ExecutionState → bool) (Q : list Event → Prop) :
  (∀ s events, x_evidence s = path_evidence (s_service stack) platform PamPwquality events no_evidence → f s = true ↔ Q events) →
  every f states ↔ ∀ events, changes stack platform events → Q events.
Proof.
  intros Hf. pose proof (executeStack_exact _ _ _ _ parseControl_exact _ _ _ Hrun) as He. split.
  - intros Hall events (p & Hw & Hg). destruct (proj2 (He p (path_evidence (s_service stack) platform PamPwquality events no_evidence))) as (s & Hs & <- & Hev); [by exists events|].
    apply (Hf s events Hev), Hall; done.
  - intros Hall s Hs Hg. destruct (proj1 (He (pam_of s) (x_evidence s))) as (events & Hw & Hev); [by exists s|]. apply (Hf s events Hev), Hall. by exists (pam_of s).
Qed.

Lemma quality_judged s events : x_evidence s = path_evidence (s_service stack) platform PamPwquality events no_evidence → state_quality s = true ↔ existsb quality_passed events = true.
Proof. unfold state_quality. intros ->. by rewrite path_quality. Qed.

Lemma history_judged s events : x_evidence s = path_evidence (s_service stack) platform PamPwquality events no_evidence → state_history s = true ↔ existsb history_passed events = true.
Proof.
  unfold state_history. intros ->. rewrite path_history_reached, path_history_passed, andb_true_iff. split; [by intros [_ ?]|]. intros H. split; [|done].
  apply existsb_elem in H as (ev & Hev & H). apply existsb_elem. exists ev. split; [done|]. by apply andb_true_iff in H as [? _].
Qed.

Lemma fed_judged s events : x_evidence s = path_evidence (s_service stack) platform PamPwquality events no_evidence → state_fed s = true ↔ history_fed events.
Proof.
  unfold state_fed. intros ->. rewrite path_history_reached. destruct (existsb history_asked events) eqn:Ha; cbn; [by apply path_available|]. pose proof (unasked_is_fed events Ha). naive_solver.
Qed.

(** What the requirements ask of a path. *)
Definition required (r : PamPasswordFlowRequirements) (events : list Event) : Prop :=
  (requireQuality r = true → existsb quality_passed events = true) ∧ (requireHistory r = true → existsb history_passed events = true ∧ history_fed events).

Lemma required_judged r s events : x_evidence s = path_evidence (s_service stack) platform PamPwquality events no_evidence → state_required r s = true ↔ required r events.
Proof.
  intros He. unfold state_required, required. rewrite <- (quality_judged s events He), <- (history_judged s events He), <- (fed_judged s events He), andb_true_iff, !orb_true_iff, andb_true_iff, !negb_true_iff.
  destruct (requireQuality r), (requireHistory r); naive_solver.
Qed.
End password.

(** * Violations *)

Lemma violated_stays v a : violations (addFirstViolation v a) ≠ [].
Proof. unfold addFirstViolation. destruct (existsb _ (violations a)) eqn:H; cbn; [|by destruct (violations a)]. by destruct (violations a). Qed.

Lemma accepting_bypass_keeps s a : violations (addAcceptedTrustedAuthenticationBypass s a) = violations a.
Proof. unfold addAcceptedTrustedAuthenticationBypass. by repeat case_match. Qed.
Lemma accepting_exclusion_keeps s a : violations (addAcceptedTrustedAuthenticationExclusion s a) = violations a.
Proof. unfold addAcceptedTrustedAuthenticationExclusion. by repeat case_match. Qed.

(** A pass over the states reports nothing exactly when there is nothing to
    report. *)
Lemma reports_nothing (bad : ExecutionState → bool) (report : ExecutionState → PamFlowViolation) states a :
  violations (foldl (λ a s, if bad s then addFirstViolation (report s) a else a) a states) = [] ↔ violations a = [] ∧ ∀ s, s ∈ states → bad s = false.
Proof.
  revert a. induction states as [|s states IH]; intros a; cbn [foldl]; [split; [intros ->; split; [done|by intros s ?%not_elem_of_nil]|by intros [? _]]|].
  rewrite IH. setoid_rewrite elem_of_cons. destruct (bad s) eqn:Hb.
  - pose proof (violated_stays (report s) a). split; [naive_solver|]. intros [_ H']. specialize (H' s (or_introl eq_refl)). congruence.
  - naive_solver.
Qed.

(** A pass that demands something of every success in the scope, and a success. *)
Lemma demands_fine platform capability (flag : Evidence → bool) v report states a :
  violations (if negb (existsb (λ s, subjectIsRelevant s platform capability && stackSucceeded s) states) then addFirstViolation v a
              else foldl (λ a s, if subjectIsRelevant s platform capability && stackSucceeded s && negb (flag (x_evidence s)) then addFirstViolation (report s) a else a) a states) = [] ↔
  violations a = [] ∧ (∃ s, s ∈ states ∧ concerned platform capability (pam_of s) = true ∧ granted (pam_of s) = true) ∧
  ∀ s, s ∈ states → concerned platform capability (pam_of s) = true → granted (pam_of s) = true → flag (x_evidence s) = true.
Proof.
  change (λ s, subjectIsRelevant s platform capability && stackSucceeded s) with (λ s, concerned platform capability (pam_of s) && granted (pam_of s)).
  destruct (existsb _ states) eqn:Hex; cbn [negb].
  - rewrite (reports_nothing (λ s, concerned platform capability (pam_of s) && granted (pam_of s) && negb (flag (x_evidence s)))).
    apply existsb_elem in Hex as (s0 & Hs0 & [Hc Hg]%andb_true_iff). apply and_iff_compat_l. split.
    + intros Hall. split; [by exists s0|]. intros s Hs Hc' Hg'. specialize (Hall s Hs). rewrite Hc', Hg' in Hall. by destruct (flag _).
    + intros [_ Hall] s Hs. specialize (Hall s Hs). cbv beta. destruct (concerned _ _ (pam_of s)), (granted (pam_of s)); try done. cbn. by rewrite (Hall eq_refl eq_refl).
  - split; [by intros ?%violated_stays|]. intros (_ & (s & Hs & Hc & Hg) & _). apply not_true_iff_false in Hex. destruct Hex. apply existsb_elem. exists s. by rewrite Hc, Hg.
Qed.

(** * Logins *)

(** What the answers of an authentication stack say. *)
Record LoginFacts := mkFacts {
  lf_bypassed : bool;
  lf_lockAsked : bool;
  lf_loginPassed : bool;
  lf_loginFailed : bool;
  lf_preauthPassed : bool;
  lf_preauthRefused : bool;
  lf_preauthClosed : bool;
  lf_authfailAsked : bool;
  lf_authsuccPassed : bool;
  lf_authsuccRefused : bool;
  lf_excluded : option string
}.

Definition login_facts (service : string) (platform : PamPlatformConfig) (events : list Event) : LoginFacts :=
  mkFacts (existsb (bypassed service platform) events) (existsb lock_asked events) (existsb login_passed events) (existsb login_failed events)
    (existsb preauth_passed events) (existsb preauth_refused events) (existsb preauth_closed events) (existsb authfail_asked events)
    (existsb authsucc_passed events) (existsb authsucc_refused events) (last_excluded service platform events).

Definition evidence_facts (e : Evidence) : LoginFacts :=
  mkFacts (accepted e) (providerReached e) (authenticationSuccessObserved e) (authenticationFailureObserved e) (preauthSucceeded e) (preauthDenied e)
    (preauthFailedClosed e) (authfailReached e) (authsuccSucceeded e) (authsuccDenied e) (te_excludedUser <$> trustedAuthenticationExclusion e).

Lemma path_facts service platform events : evidence_facts (path_evidence service platform PamFaillock events no_evidence) = login_facts service platform events.
Proof. unfold evidence_facts, login_facts. autorewrite with pam_flags. by rewrite path_excluded. Qed.

(** An acceptable end of an authentication. [topology]: success is accounted in
    the authentication stack itself, by an authsucc rule.
    - A login that is granted, other than by a trusted module, has asked the
      lockout; no failed authenticator is passed over; with an authsucc rule, it
      was taken, it refused nothing, and no failure was counted on the way; without
      one, a preauth rule has answered.
    - A login that is refused after success was accounted is the one of root, whom
      the lockout leaves out.
    - A login that is refused because an authenticator failed is counted, or the
      lockout itself refused it. *)
Record login_judgement (topology : bool) (root_lockout : option bool) (p : PamState) (f : LoginFacts) : Prop := {
  lj_granted : granting p = true → lf_bypassed f = false →
    lf_lockAsked f = true ∧ (lf_loginFailed f = true → lf_loginPassed f = true) ∧
    if topology then lf_authsuccPassed f = true ∧ lf_authsuccRefused f = false ∧ (lf_loginFailed f = true → lf_authfailAsked f = false)
    else lf_preauthPassed f = true ∨ lf_preauthRefused f = true;
  lj_premature : granting p = false → topology = true → lf_authsuccPassed f = true → pam_impression p = INegative →
    lf_excluded f = Some "root" ∧ root_lockout = Some false;
  lj_refused : granting p = false → ¬ (topology = true ∧ lf_authsuccPassed f = true ∧ pam_impression p = INegative) → lf_loginFailed f = true →
    lf_loginPassed f = true ∨ lf_authfailAsked f = true ∨ lf_preauthRefused f = true ∨ lf_preauthClosed f = true
}.

Section lockout.
Context (platform : PamPlatformConfig) (root_lockout : option bool).

(** The state is decided and nothing is reported. *)
Definition fine (r : bool * PamControlFlowAnalysis) : Prop := r.1 = true ∧ violations r.2 = [].

Section one_state.
Context (topology : bool) (s : ExecutionState).
Notation e := (x_evidence s).
Notation judged := (login_judgement topology root_lockout (pam_of s) (evidence_facts e)).

Lemma granted_judgement : granting (pam_of s) = true → trustedAuthenticationBypass e = None → judged ↔
  providerReached e = true ∧ (authenticationFailureObserved e = true → authenticationSuccessObserved e = true) ∧
  if topology then authsuccSucceeded e = true ∧ authsuccDenied e = false ∧ (authenticationFailureObserved e = true → authfailReached e = false)
  else preauthSucceeded e = true ∨ preauthDenied e = true.
Proof.
  intros Hg Hb. split; [intros [H _ _]; apply H; [done|unfold evidence_facts, accepted; cbn; by rewrite Hb]|]. intros H. split; rewrite ?Hg; done.
Qed.

Lemma premature_judgement : granting (pam_of s) = false → topology = true → authsuccSucceeded e = true → x_impression s = INegative →
  judged ↔ te_excludedUser <$> trustedAuthenticationExclusion e = Some "root" ∧ root_lockout = Some false.
Proof.
  intros Hg Ht Hs Hn. split; [intros [_ H _]; by apply H|]. intros H. split; rewrite ?Hg; [done|done|]. intros _ []. by rewrite Ht.
Qed.

Lemma refused_judgement : granting (pam_of s) = false → topology && authsuccSucceeded e && bool_decide (x_impression s = INegative) = false →
  judged ↔ (authenticationFailureObserved e = true → authenticationSuccessObserved e = true ∨ authfailReached e = true ∨ preauthDenied e = true ∨ preauthFailedClosed e = true).
Proof.
  intros Hg Hp. assert (¬ (topology = true ∧ authsuccSucceeded e = true ∧ x_impression s = INegative)) as Hn.
  { intros (-> & Hs & Hi). rewrite Hs, (bool_decide_eq_true_2 _ Hi) in Hp. done. }
  split; [intros [_ _ H]; by apply H|]. intros H. split; rewrite ?Hg; [done|naive_solver|done].
Qed.
End one_state.

Lemma auth_state_fine stack topology a s : fine (auth_state platform root_lockout stack topology a s) ↔
  violations a = [] ∧ (concerned platform AuthenticationLockout (pam_of s) = true → login_judgement topology root_lockout (pam_of s) (evidence_facts (x_evidence s))).
Proof.
  unfold auth_state, fine. change (subjectIsRelevant s platform AuthenticationLockout) with (concerned platform AuthenticationLockout (pam_of s)).
  destruct (concerned platform AuthenticationLockout (pam_of s)); cbn [negb]; [|cbn; naive_solver].
  change (terminatedPositively s) with (granting (pam_of s)). pose proof (λ k, violated_stays (violationForState k stack s) a) as Hv.
  destruct (granting (pam_of s)) eqn:Hg.
  - destruct (trustedAuthenticationBypass (x_evidence s)) eqn:Hb.
    + cbn. rewrite accepting_bypass_keeps. split; [|naive_solver]. intros [_ Ha]. split; [done|]. intros _. split; rewrite ?Hg; unfold evidence_facts, accepted; cbn; rewrite ?Hb; done.
    + rewrite granted_judgement by done. pose proof (Hv RecoverableFailureAccounting). pose proof (Hv AuthenticationBypass). pose proof (Hv SuccessAccountingBypass).
      destruct topology, (authenticationFailureObserved _), (authfailReached _), (authsuccDenied _), (authenticationSuccessObserved _), (providerReached _); cbn;
        try (destruct (authsuccSucceeded _)); try (destruct (preauthSucceeded _), (preauthDenied _)); cbn; clear Hv; intuition congruence.
  - destruct (topology && authsuccSucceeded (x_evidence s) && bool_decide (x_impression s = INegative)) eqn:Hp.
    + apply andb_true_iff in Hp as [[-> Hs]%andb_true_iff Hn%bool_decide_eq_true]. rewrite premature_judgement by done. pose proof (Hv PrematureSuccessAccounting).
      destruct (trustedAuthenticationExclusion _) as [x|]; [|cbn; naive_solver]. destruct (String.eqb_spec (te_excludedUser x) "root") as [Hr|Hr]; [|cbn; naive_solver].
      destruct root_lockout as [[]|]; cbn; rewrite ?accepting_exclusion_keeps, ?Hr; naive_solver.
    + rewrite refused_judgement by done. pose proof (Hv FailureAccountingBypass).
      destruct (authenticationFailureObserved _), (authenticationSuccessObserved _), (authfailReached _), (preauthDenied _), (preauthFailedClosed _); cbn; naive_solver.
Qed.

(** * All states *)

Lemma auth_states_fine stack topology states a : fine (auth_states platform root_lockout stack topology states a) ↔
  violations a = [] ∧ ∀ s, s ∈ states → concerned platform AuthenticationLockout (pam_of s) = true → login_judgement topology root_lockout (pam_of s) (evidence_facts (x_evidence s)).
Proof.
  revert a. induction states as [|s states IH]; intros a; cbn [auth_states].
  - unfold fine. cbn. split; [intros [_ ?]; split; [done|by intros s ?%not_elem_of_nil]|naive_solver].
  - pose proof (auth_state_fine stack topology a s) as Hs. setoid_rewrite elem_of_cons. destruct (auth_state _ _ _ _ _ _) as [[] b]; unfold fine in Hs; cbn [fst snd] in Hs.
    + rewrite IH. naive_solver.
    + unfold fine. cbn. split; [naive_solver|]. intros [Ha Hall]. exfalso. assert (false = true ∧ violations b = []) as [? _]; [|done]. apply Hs. naive_solver.
Qed.

Lemma account_states_fine stack states a : violations (account_states platform stack states a) = [] ↔
  violations a = [] ∧ (∃ s, s ∈ states ∧ concerned platform AuthenticationLockout (pam_of s) = true ∧ granted (pam_of s) = true) ∧
  ∀ s, s ∈ states → concerned platform AuthenticationLockout (pam_of s) = true → granted (pam_of s) = true → accountSucceeded (x_evidence s) = true.
Proof. apply demands_fine. Qed.
End lockout.
