(* ===== verification/PamExpansion.v ===== *)
(** The effective stack of a service is the expansion of its includes. *)

From S2P Require Import Prelude ConfigFile OwnershipGrammar MutationValid TextLines PamStack.
Open Scope string_scope.
Open Scope nat_scope.

(** * Expansion *)

Section expansion.
Context (read_service : string → option (string * string)) (group : PamManagementGroup).

(** What one rule stands for; [inc] says what another service expands to and
    from which files. *)
Inductive rule_expand (inc : string → list PamStackEntry → gset string → Prop) (rule : PamRule) : list PamStackEntry → gset string → Prop :=
| expand_other : r_includeKind rule ≠ KIncludeAll → r_group rule ≠ group → rule_expand inc rule [] ∅
| expand_plain : r_includeKind rule = KNone → r_group rule = group → rule_expand inc rule [mkEntry rule []] ∅
| expand_include l files : r_includeKind rule = KIncludeAll ∨ r_includeKind rule = KInclude ∧ r_group rule = group → inc (r_includeTarget rule) l files → rule_expand inc rule l files
| expand_substack l files : r_includeKind rule = KSubstack → r_group rule = group → inc (r_includeTarget rule) l files → rule_expand inc rule [mkEntry rule l] files.

(** The rules of one file, in their order. *)
Inductive rules_expand (inc : string → list PamStackEntry → gset string → Prop) : list PamRule → list PamStackEntry → gset string → Prop :=
| expand_nothing : rules_expand inc [] [] ∅
| expand_rule rule rules l files l' files' : rule_expand inc rule l files → rules_expand inc rules l' files' → rules_expand inc (rule :: rules) (l ++ l') (files ∪ files').

(** [service] expands to these entries through includes of at most this depth
    and never through itself. *)
Fixpoint expansion (depth : nat) (seen : gset string) (service : string) (l : list PamStackEntry) (files : gset string) : Prop :=
  match depth with
  | 0 => False
  | S depth =>
      service ∉ seen ∧ ∃ path rules files', parseService read_service service = Some (path, rules) ∧
        rules_expand (expansion depth ({[service]} ∪ seen)) rules l files' ∧ files = {[path]} ∪ files'
  end.

Fixpoint entry_size (e : PamStackEntry) : N := let 'mkEntry _ substack := e in (1 + foldr (λ e n, entry_size e + n) 0 substack)%N.
Definition stack_size (l : list PamStackEntry) : N := foldr (λ e n, entry_size e + n)%N 0%N l.

Lemma stack_size_cons rule substack l : stack_size (mkEntry rule substack :: l) = (1 + stack_size substack + stack_size l)%N.
Proof. reflexivity. Qed.
Lemma stack_size_app l l' : stack_size (l ++ l') = (stack_size l + stack_size l')%N.
Proof. induction l as [|e l IH]; cbn; [done|]. fold (stack_size (l ++ l')) (stack_size l). rewrite IH. lia. Qed.

(** A result: entries that fit, after those there were. *)
Definition extends (P : list PamStackEntry → gset string → Prop) (entries : list PamStackEntry) (count : N) (files : gset string) (built : Built) : Prop :=
  ∃ l files', P l files' ∧ (count + stack_size l ≤ kMaximumCollectedRules)%N ∧ built = ((entries ++ l)%list, (count + stack_size l, files ∪ files')%N).

(** A call adds exactly the expansion it stands for, if it fits. *)
Definition adds_expansion (inc : string → list PamStackEntry → gset string → Prop) (f : string → list PamStackEntry → N * gset string → option Built) : Prop :=
  ∀ service entries count files built, (count ≤ kMaximumCollectedRules)%N → f service entries (count, files) = Some built ↔ extends (inc service) entries count files built.

Lemma extends_nothing P entries count files built : (count ≤ kMaximumCollectedRules)%N → (∀ l files', P l files' ↔ l = [] ∧ files' = ∅) →
  Some (entries, (count, files)) = Some built ↔ extends P entries count files built.
Proof.
  intros Hc HP. unfold extends. setoid_rewrite HP. split.
  - intros [= <-]. exists [], ∅. cbn. by rewrite app_nil_r, N.add_0_r, union_empty_r_L.
  - intros (l & files' & [-> ->] & _ & ->). cbn. by rewrite app_nil_r, N.add_0_r, union_empty_r_L.
Qed.

Lemma build_substack inc f rule entries count files built : adds_expansion inc f → (count ≤ kMaximumCollectedRules)%N →
  (if (kMaximumCollectedRules <? count + 1)%N then None
   else match f (r_includeTarget rule) [] (count + 1, files)%N with None => None | Some (substack, counts) => Some ((entries ++ [mkEntry rule substack])%list, counts) end) = Some built ↔
  extends (λ l files', ∃ l', l = [mkEntry rule l'] ∧ inc (r_includeTarget rule) l' files') entries count files built.
Proof.
  intros Hf Hc. unfold extends. destruct (N.ltb_spec kMaximumCollectedRules (count + 1)) as [Hlt|Hle].
  - split; [done|]. intros (l & files' & (l' & -> & _) & Hs & _). rewrite stack_size_cons in Hs. lia.
  - specialize (Hf (r_includeTarget rule) [] (count + 1)%N files). split.
    + destruct (f _ _ _) as [[substack counts]|]; [|done]. intros [= <-]. destruct (proj1 (Hf _ Hle) eq_refl) as (l & files' & Hi & Hs & [= -> ->]).
      exists [mkEntry rule l], files'. rewrite stack_size_cons. cbn. split; [by exists l|]. split; [lia|]. do 2 f_equal. lia.
    + intros (l & files' & (l' & -> & Hi) & Hs & ->). rewrite stack_size_cons in Hs. cbn in Hs. rewrite (proj2 (Hf (l', (count + 1 + stack_size l', files ∪ files')%N) Hle)).
      * rewrite stack_size_cons. cbn. do 3 f_equal. lia.
      * exists l', files'. split; [done|]. split; [lia|done].
Qed.

Lemma expand_kind inc rule l files : rule_expand inc rule l files ↔
  match r_includeKind rule, bool_decide (r_group rule = group) with
  | KIncludeAll, _ | KInclude, true => inc (r_includeTarget rule) l files
  | KNone, true => l = [mkEntry rule []] ∧ files = ∅
  | KSubstack, true => ∃ l', l = [mkEntry rule l'] ∧ inc (r_includeTarget rule) l' files
  | _, false => l = [] ∧ files = ∅
  end.
Proof.
  split.
  - destruct 1 as [Hk Hg|Hk Hg|l files [Hk|[Hk Hg]] Hi|l files Hk Hg Hi]; try rewrite (bool_decide_eq_false_2 _ Hg); try rewrite (bool_decide_eq_true_2 _ Hg); try rewrite Hk; eauto.
    by destruct (r_includeKind rule).
  - destruct (r_includeKind rule) eqn:Hk; destruct (bool_decide_reflect (r_group rule = group)) as [Hg|Hg].
    all: first [intros [-> ->]; by apply expand_other; [rewrite Hk|] | intros [-> ->]; by apply expand_plain | intros (l' & -> & Hi); by apply expand_substack | apply expand_include; by auto].
Qed.

Lemma build_rule_exact inc f rule entries count files built : adds_expansion inc f → (count ≤ kMaximumCollectedRules)%N →
  build_rule f group rule (entries, (count, files)) = Some built ↔ extends (rule_expand inc rule) entries count files built.
Proof.
  intros Hf Hc. assert (∀ P : list PamStackEntry → gset string → Prop, (∀ l files', rule_expand inc rule l files' ↔ P l files') → ∀ x : option Built,
    (x = Some built ↔ extends P entries count files built) → (x = Some built ↔ extends (rule_expand inc rule) entries count files built)) as Hsame.
  { intros P HP x ->. unfold extends. by setoid_rewrite HP. }
  eapply Hsame; [intros; apply expand_kind|]. clear Hsame. unfold build_rule. destruct (r_includeKind rule), (bool_decide (r_group rule = group)); cbn [negb]; try (by apply extends_nothing); try (by apply Hf); [|by apply build_substack].
  unfold extends. destruct (N.ltb_spec kMaximumCollectedRules (count + 1)) as [Hlt|Hle].
  - split; [done|]. intros (l & files' & [-> _] & Hs & _). rewrite stack_size_cons in Hs. lia.
  - split; [intros [= <-]; exists [mkEntry rule []], ∅; split; [done|]; rewrite stack_size_cons; cbn; rewrite union_empty_r_L; split; [lia|done]|].
    intros (l & files' & [-> ->] & _ & ->). rewrite stack_size_cons. cbn. by rewrite union_empty_r_L.
Qed.

Lemma build_rules_exact inc f : adds_expansion inc f → ∀ rules entries count files built, (count ≤ kMaximumCollectedRules)%N →
  build_rules f group rules (entries, (count, files)) = Some built ↔ extends (rules_expand inc rules) entries count files built.
Proof.
  intros Hf. induction rules as [|rule rules IH]; intros entries count files built Hc; cbn [build_rules].
  - apply extends_nothing; [done|]. intros l files'. split; [by inversion 1|]. intros [-> ->]. constructor.
  - pose proof (build_rule_exact inc f rule entries count files) as Hr. split.
    + destruct (build_rule _ _ _ _) as [b|]; [|done]. destruct (proj1 (Hr b Hf Hc) eq_refl) as (l & files1 & He & Hs & ->). intros (l' & files2 & He' & Hs' & ->)%IH; [|done].
      exists (l ++ l')%list, (files1 ∪ files2). split; [by constructor|]. rewrite stack_size_app. split; [lia|]. by rewrite app_assoc, N.add_assoc, union_assoc_L.
    + intros (l & files' & He & Hs & ->). inversion He as [|? ? l1 files1 l2 files2 H1 H2]; subst. rewrite stack_size_app in *.
      rewrite (proj2 (Hr ((entries ++ l1)%list, (count + stack_size l1, files ∪ files1)%N) Hf Hc)); [|exists l1, files1; split; [done|]; split; [lia|done]].
      apply IH; [lia|]. exists l2, files2. split; [done|]. split; [lia|]. by rewrite app_assoc, N.add_assoc, union_assoc_L.
Qed.

(** * The whole stack *)

Lemma append_inj_l (s s' suffix : string) : s +:+ suffix = s' +:+ suffix → s = s'.
Proof.
  intros H. apply (string_app_inj _ _ suffix suffix); [|exact H]. apply (f_equal String.length) in H. rewrite !string_length_app in H. lia.
Qed.

Lemma build_exact depth : ∀ recursion seen, (∀ s, (s +:+ ":" +:+ pamManagementGroupName group) ∈ recursion ↔ s ∈ seen) →
  adds_expansion (expansion depth seen) (buildEffectiveStackRecursive read_service depth group recursion).
Proof.
  induction depth as [|depth IH]; intros recursion seen Hseen service entries count files built Hc; cbn [buildEffectiveStackRecursive expansion].
  - unfold extends. naive_solver.
  - case_decide as Hk; [apply Hseen in Hk; unfold extends; naive_solver|]. destruct (parseService read_service service) as [[path rules]|] eqn:Hp; [|unfold extends; naive_solver].
    cbn [fst snd]. rewrite (build_rules_exact (expansion depth ({[service]} ∪ seen))); [|apply IH; intros s; rewrite !elem_of_union, !elem_of_singleton, Hseen; split; [intros [?%append_inj_l|?]; auto|intros [-> |?]; auto]|done].
    unfold extends. split.
    + intros (l & files' & He & Hs & ->). exists l, ({[path]} ∪ files'). split; [split; [by rewrite <- Hseen|]; by exists path, rules, files'|]. split; [done|]. f_equal. f_equal. set_solver.
    + intros (l & files' & (_ & path' & rules' & files1 & [= <- <-] & He & ->) & Hs & ->). exists l, files1. split; [done|]. split; [done|]. f_equal. f_equal. set_solver.
Qed.

Lemma buildEffectiveStack_exact service stack : buildEffectiveStack read_service service group = Some stack ↔
  ∃ l files, expansion (S kMaximumIncludeDepth) ∅ service l files ∧ (stack_size l ≤ kMaximumCollectedRules)%N ∧ stack = mkStack service group l files.
Proof.
  unfold buildEffectiveStack. assert (∀ built, buildEffectiveStackRecursive read_service (S kMaximumIncludeDepth) group ∅ service [] (0%N, ∅) = Some built ↔ extends (expansion (S kMaximumIncludeDepth) ∅ service) [] 0 ∅ built) as Hb
    by (intros built; apply (build_exact (S kMaximumIncludeDepth) ∅ ∅); [set_solver|done]). split.
  - destruct (buildEffectiveStackRecursive _ _ _ _ _ _ _) as [[l [n files]]|]; [|done]. intros [= <-]. destruct (proj1 (Hb _) eq_refl) as (l' & files' & He & Hs & [= -> -> ->]).
    exists l', files'. split; [done|]. split; [done|]. by rewrite union_empty_l_L.
  - intros (l & files & He & Hs & ->). rewrite (proj2 (Hb (l, (stack_size l, files)))); [done|]. exists l, files. by rewrite union_empty_l_L.
Qed.
End expansion.
