(* ===== verification/PamTheorems.v ===== *)
(** What the PAM analysis proves about a stack. *)

From S2P Require Import Prelude PolicyValue ConfigFile OwnershipGrammar MutationValid TextLines PamStack PamFlow PamPaths PamEvidence PamJudgement PamExpansion.
Open Scope string_scope.
Open Scope nat_scope.

(** C31. The effective stack of a service is the expansion of its files: the rules
    of the group in their order, an include replaced by the rules of its target, a
    substack kept as one entry with its own expansion, rules of other groups left
    out. A stack is built if and only if there is such an expansion, through
    includes at most 33 services deep and never through a service within itself,
    and it has no more than 4096 entries in all; the files it names are the ones
    that were expanded. *)
Theorem effective_stack_is_expansion (read_service : string → option (string * string)) (group : PamManagementGroup) (service : string) (stack : PamEffectiveStack) :
  buildEffectiveStack read_service service group = Some stack ↔
  ∃ l files, expansion read_service group (S kMaximumIncludeDepth) ∅ service l files ∧ (stack_size l ≤ kMaximumCollectedRules)%N ∧ stack = mkStack service group l files.
Proof. apply buildEffectiveStack_exact. Qed.

(** C11. When the symbolic execution of a stack comes to an end within its limits,
    its states are exactly the ends of the paths of the stack: every sequence of
    answers the modules may give, taken through the actions of their controls,
    jumps, substacks and early ends included, is represented by a state with its
    decision, its subject and the evidence of its answers, and every state stands
    for such a sequence. Merging states with equal decisions and evidence loses
    no path. What the controls mean is stated apart from the analyzer's parser:
    as pam.conf(5) has it, save that the answer ignore of a required or requisite
    module counts as a failure, where pam.conf(5) passes over it. When no required
    or requisite rule of the stack has a module that may answer ignore, the states
    are exactly the ends of the paths under pam.conf(5). *)
Theorem symbolic_execution_exact (provider : PamProviderKind) (service : string) (platform : PamPlatformConfig) (entries : list PamStackEntry) (states : list ExecutionState) :
  executeStack provider service platform entries initial_state = Some states →
  (∀ p e, (∃ s, s ∈ states ∧ pam_of s = p ∧ x_evidence s = e) ↔
          ∃ events, runs service platform entries events p ∧ e = path_evidence service platform provider events no_evidence) ∧
  (ignore_is_elsewhere service platform entries →
   ∀ p e, (∃ s, s ∈ states ∧ pam_of s = p ∧ x_evidence s = e) ↔
          ∃ events, manual_runs service platform entries events p ∧ e = path_evidence service platform provider events no_evidence).
Proof.
  intros Hx. pose proof (executeStack_exact _ _ _ _ parseControl_exact _ _ _ Hx) as He. split; [exact He|].
  intros Hno p e. rewrite (He p e). unfold manual_runs. by setoid_rewrite (manual_walk _ _ _ _ _ _ _ Hno).
Qed.

(** C12. The verdict on the password stack is exact. Quality counts as not
    bypassable if and only if the password can be changed and every way of
    changing it has passed pam_pwquality; likewise history and pam_pwhistory with
    use_authtok; history counts as having a token producer if and only if, on
    every such way, each use of pam_pwhistory comes after pam_pwquality accepted
    a password; and no violation is reported if and only if every such way meets
    the requirements. The ways are those of [runs], with its reading of the answer
    ignore. *)
Theorem password_flow_exact (stack : PamEffectiveStack) (platform : PamPlatformConfig) (r : PamPasswordFlowRequirements) (a : PamPasswordFlowAnalysis) :
  analyzePasswordFlow stack platform r = Some a →
  (qualityNonBypassable a = true ↔ always stack platform (λ events, existsb quality_passed events = true)) ∧
  (historyNonBypassable a = true ↔ always stack platform (λ events, existsb history_passed events = true)) ∧
  (historyAlwaysHasTokenProducer a = true ↔ always stack platform history_fed) ∧
  (pf_violations a = [] ↔ always stack platform (required r)).
Proof.
  unfold analyzePasswordFlow, always. destruct (executeStack _ _ _ _ _) as [states|] eqn:Hx; [|done]. rewrite <- (some_success stack platform states Hx). destruct (existsb stackSucceeded states) eqn:Hs; cbn [negb].
  - intros [= <-]. destruct (password_states stack r states (mkPasswordFlow true true true [])) as (-> & -> & -> & ->). cbn [qualityNonBypassable historyNonBypassable historyAlwaysHasTokenProducer pf_violations].
    rewrite (every_path stack platform states Hx _ _ (quality_judged stack platform)), (every_path stack platform states Hx _ _ (history_judged stack platform)),
      (every_path stack platform states Hx _ _ (fed_judged stack platform)), (every_path stack platform states Hx _ _ (required_judged stack platform r)). naive_solver.
  - intros [= <-]. cbn. naive_solver.
Qed.

(** The lockout is enforced by the service's stacks. *)
Definition lockout_enforced (platform : PamPlatformConfig) (root_lockout : option bool) (build : PamManagementGroup → option PamEffectiveStack) (service : string) : Prop :=
  ∃ auth, build GAuth = Some auth ∧
    let topology := stackHasFaillockRole (s_entries auth) "authsucc" GAuth in
    is_Some (executeStack PamFaillock service platform (s_entries auth) initial_state) ∧ lateProvider (s_entries auth) = None ∧
    (∃ events p, runs service platform (s_entries auth) events p ∧ concerned platform AuthenticationLockout p = true ∧ granting p = true) ∧
    (∀ events p, runs service platform (s_entries auth) events p → concerned platform AuthenticationLockout p = true →
       login_judgement topology root_lockout p (login_facts service platform events)) ∧
    (topology = true ∨
     ∃ account, build GAccount = Some account ∧ is_Some (executeStack PamFaillock service platform (s_entries account) initial_state) ∧
       (∃ events p, runs service platform (s_entries account) events p ∧ concerned platform AuthenticationLockout p = true ∧ granted p = true) ∧
       (∀ events p, runs service platform (s_entries account) events p → concerned platform AuthenticationLockout p = true → granted p = true →
          existsb lock_accounted events = true)).

Lemma ex_some {A} (x : A) (P : A → Prop) : (∃ y, Some x = Some y ∧ P y) ↔ P x.
Proof. naive_solver. Qed.
Lemma ex_none {A} (P : A → Prop) : (∃ y, None = Some y ∧ P y) ↔ False.
Proof. naive_solver. Qed.
Lemma is_some_some {A} (x : A) : is_Some (Some x) ↔ True.
Proof. naive_solver. Qed.
Lemma is_some_none {A} : is_Some (@None A) ↔ False.
Proof. split; [by intros [? ?]|done]. Qed.

(** The part of the analysis before the states are looked at. *)
Lemma prologue_fine platform (auth : PamEffectiveStack) states v v' a : violations a = [] →
  violations (let a := match lateProvider (s_entries auth) with None => a | Some late => addFirstViolation (v late) a end in
              if existsb (λ s, subjectIsRelevant s platform AuthenticationLockout && terminatedPositively s) states then a else addFirstViolation v' a) = [] ↔
  lateProvider (s_entries auth) = None ∧ ∃ s, s ∈ states ∧ concerned platform AuthenticationLockout (pam_of s) = true ∧ granting (pam_of s) = true.
Proof.
  intros Ha. cbn zeta. change (λ s, subjectIsRelevant s platform AuthenticationLockout && terminatedPositively s) with (λ s, concerned platform AuthenticationLockout (pam_of s) && granting (pam_of s)).
  destruct (existsb _ states) eqn:Hex.
  - apply existsb_elem in Hex as (s & Hs & [Hc Hg]%andb_true_iff). destruct (lateProvider _) as [late|]; [pose proof (violated_stays (v late) a)|]; naive_solver.
  - pose proof (λ b, violated_stays v' b) as Hv. split; [by intros ?%Hv|]. intros (_ & s & Hs & Hc & Hg). apply not_true_iff_false in Hex. destruct Hex. apply existsb_elem. exists s. by rewrite Hc, Hg.
Qed.

Section lockout_analysis.
Context (platform : PamPlatformConfig) (root_lockout : option bool) (service : string).

(** The account stack, where it accounts for success. *)
Lemma account_fine account states a : violations a = [] → executeStack PamFaillock service platform (s_entries account) initial_state = Some states →
  violations (account_states platform account states a) = [] ↔
  (∃ events p, runs service platform (s_entries account) events p ∧ concerned platform AuthenticationLockout p = true ∧ granted p = true) ∧
  (∀ events p, runs service platform (s_entries account) events p → concerned platform AuthenticationLockout p = true → granted p = true → existsb lock_accounted events = true).
Proof.
  intros Ha Hx. rewrite account_states_fine. rewrite (some_state_is_path _ _ _ _ _ (λ p _, concerned platform AuthenticationLockout p = true ∧ granted p = true) Hx).
  rewrite (states_are_paths _ _ _ _ _ (λ p e, concerned platform AuthenticationLockout p = true → granted p = true → accountSucceeded e = true) Hx).
  setoid_rewrite path_accounted. naive_solver.
Qed.

Lemma account_keeps account states a : violations (account_states platform account states a) = [] → violations a = [].
Proof. by intros [? _]%account_states_fine. Qed.

Lemma auth_fine auth topology states a : executeStack PamFaillock service platform (s_entries auth) initial_state = Some states →
  fine (auth_states platform root_lockout auth topology states a) ↔ violations a = [] ∧
  ∀ events p, runs service platform (s_entries auth) events p → concerned platform AuthenticationLockout p = true → login_judgement topology root_lockout p (login_facts service platform events).
Proof.
  intros Hx. rewrite auth_states_fine. apply and_iff_compat_l. rewrite (states_are_paths _ _ _ _ _ (λ p e, concerned platform AuthenticationLockout p = true → login_judgement topology root_lockout p (evidence_facts e)) Hx).
  by setoid_rewrite path_facts.
Qed.

Lemma analyzeFaillockStack_fine build a : violations a = [] → fine (analyzeFaillockStack platform root_lockout build service a) ↔ lockout_enforced platform root_lockout build service.
Proof.
  intros Ha. unfold analyzeFaillockStack, lockout_enforced. destruct (build GAuth) as [auth|]; [|rewrite ex_none; unfold fine; cbn; naive_solver].
  rewrite ex_some. cbn zeta. destruct (executeStack _ _ _ (s_entries auth) _) as [states|] eqn:Hx; [|rewrite is_some_none; unfold fine; cbn; naive_solver]. rewrite is_some_some.
  generalize (stackHasFaillockRole (s_entries auth) "authsucc" GAuth). intros topology.
  match goal with |- context [auth_states _ _ _ _ _ ?b] => set (b0 := b) end.
  assert (violations b0 = [] ↔ lateProvider (s_entries auth) = None ∧ ∃ s, s ∈ states ∧ concerned platform AuthenticationLockout (pam_of s) = true ∧ granting (pam_of s) = true) as Hb
    by exact (prologue_fine platform auth states (λ late, mkViolation ProviderUnreachable service GAuth
      [mkStep (r_source (e_rule late)) (r_line (e_rule late)) (r_module (e_rule late)) "unreachable" (r_control (e_rule late)) "unreachable"] false) _ a Ha). clearbody b0.
  rewrite (some_state_is_path _ _ _ _ _ (λ p _, concerned platform AuthenticationLockout p = true ∧ granting p = true) Hx) in Hb.
  pose proof (auth_fine auth topology states b0 Hx) as Hf. rewrite Hb in Hf. clear Hb.
  destruct (auth_states _ _ _ _ _ _) as [[] b].
  2: { split; [by intros [? _]|]. intros H. exfalso. assert (fine (false, b)) as [? _]; [|done]. apply Hf. naive_solver. }
  assert (violations b = [] ↔ (lateProvider (s_entries auth) = None ∧ ∃ events p, runs service platform (s_entries auth) events p ∧ concerned platform AuthenticationLockout p = true ∧ granting p = true) ∧
    ∀ events p, runs service platform (s_entries auth) events p → concerned platform AuthenticationLockout p = true → login_judgement topology root_lockout p (login_facts service platform events)) as Hfb
    by (rewrite <- Hf; unfold fine; cbn; naive_solver). clear Hf.
  destruct topology; [unfold fine; cbn; naive_solver|].
  destruct (build GAccount) as [account|]; [|rewrite ex_none; unfold fine; cbn; naive_solver]. rewrite ex_some.
  destruct (executeStack _ _ _ (s_entries account) _) as [states'|] eqn:Hx'; [|rewrite is_some_none; unfold fine; cbn; naive_solver]. rewrite is_some_some.
  pose proof (account_fine account states' b) as Hacc. pose proof (account_keeps account states' b) as Hk. unfold fine. cbn [fst snd]. naive_solver.
Qed.
End lockout_analysis.

(** C13. The account lockout counts as effective if and only if it is enforced on
    every path: the stacks could be executed, no authenticator comes after the
    authfail rule, a login is possible, every end of an authentication that the
    platform's scope covers is acceptable (a granted login, unless a trusted module
    granted it, has asked pam_faillock, accounts for success in the stack or has
    passed a preauth rule, and passes over no failure; a refused one is counted,
    or was refused by the lockout), and, where the authentication stack does not
    account for success, so does every success of the account stack. The paths
    are those of [runs], with its reading of the answer ignore. *)
Theorem lockout_effective_exact (platform : PamPlatformConfig) (root_lockout : option bool) (build : PamManagementGroup → option PamEffectiveStack) (service : string)
    (provider : PamProviderKind) (a : PamControlFlowAnalysis) :
  analyze platform root_lockout build service AuthenticationLockout provider = Some a →
  effective a = true ↔ lockout_enforced platform root_lockout build service.
Proof.
  unfold analyze. rewrite bool_decide_eq_true_2 by done. intros [= <-]. rewrite <- (analyzeFaillockStack_fine platform root_lockout service build no_analysis) by done.
  destruct (analyzeFaillockStack _ _ _ _ _) as [[] b]; unfold fine; cbn; [rewrite bool_decide_eq_true|]; naive_solver.
Qed.

(** The provider's module is on every way of changing the password. *)
Definition provider_enforced (platform : PamPlatformConfig) (capability : PamCapability) (provider : PamProviderKind) (build : PamManagementGroup → option PamEffectiveStack) : Prop :=
  ∃ stack, build GPassword = Some stack ∧ is_Some (executeStack provider (s_service stack) platform (s_entries stack) initial_state) ∧
    (∃ events p, runs (s_service stack) platform (s_entries stack) events p ∧ concerned platform capability p = true ∧ granted p = true) ∧
    (∀ events p, runs (s_service stack) platform (s_entries stack) events p → concerned platform capability p = true → granted p = true →
       existsb (provider_passed provider) events = true).

Lemma analyzePasswordStack_fine stack capability provider platform a b : analyzePasswordStack stack capability provider platform a = Some b → violations a = [] →
  violations b = [] ↔
  (∃ events p, runs (s_service stack) platform (s_entries stack) events p ∧ concerned platform capability p = true ∧ granted p = true) ∧
  (∀ events p, runs (s_service stack) platform (s_entries stack) events p → concerned platform capability p = true → granted p = true → existsb (provider_passed provider) events = true).
Proof.
  unfold analyzePasswordStack. destruct (executeStack _ _ _ _ _) as [states|] eqn:Hx; [|done]. intros Hb Ha.
  rewrite <- (some_state_is_path _ _ _ _ _ (λ p _, concerned platform capability p = true ∧ granted p = true) Hx).
  pose proof (states_are_paths _ _ _ _ _ (λ p e, concerned platform capability p = true → granted p = true → providerSucceeded e = true) Hx) as Hall. cbv beta in Hall. setoid_rewrite path_succeeded in Hall.
  rewrite <- Hall. clear Hall. pose proof (demands_fine platform capability providerSucceeded (violationForState UnsupportedControlFlow stack (default initial_state (head states)))
    (violationForState PasswordEnforcementBypass stack) states a) as Hd. destruct (negb _); injection Hb as <-; rewrite Hd; naive_solver.
Qed.

(** A password capability counts as effective if and only if the stack could be
    executed, the password can be changed, and every way of changing it that the
    capability's scope covers has passed the provider's module. *)
Theorem password_provider_exact (platform : PamPlatformConfig) (root_lockout : option bool) (build : PamManagementGroup → option PamEffectiveStack) (service : string)
    (capability : PamCapability) (provider : PamProviderKind) (a : PamControlFlowAnalysis) :
  capability ≠ AuthenticationLockout → analyze platform root_lockout build service capability provider = Some a →
  effective a = true ↔ provider_enforced platform capability provider build.
Proof.
  intros Hcap. unfold analyze, provider_enforced. rewrite bool_decide_eq_false_2 by done. destruct (build GPassword) as [stack|]; [|done]. rewrite ex_some. intros [= <-].
  destruct (analyzePasswordStack _ _ _ _ _) as [b|] eqn:Hb.
  - pose proof (analyzePasswordStack_fine _ _ _ _ _ _ Hb eq_refl) as Hf. assert (is_Some (executeStack provider (s_service stack) platform (s_entries stack) initial_state)) as Hx.
    { unfold analyzePasswordStack in Hb. by destruct (executeStack _ _ _ _ _). }
    cbn. rewrite bool_decide_eq_true. naive_solver.
  - assert (executeStack provider (s_service stack) platform (s_entries stack) initial_state = None) as ->; [|rewrite is_some_none; cbn; naive_solver].
    unfold analyzePasswordStack in Hb. destruct (executeStack _ _ _ _ _); [|done]. by destruct (negb _).
Qed.
