(* ===== verification/PamExamples.v ===== *)
(** Concrete stacks: the theorems at work, and where the reading of a control
    differs from pam.conf(5). *)

From S2P Require Import Prelude PolicyValue ConfigFile OwnershipGrammar MutationValid TextLines PamStack PamFlow PamPaths PamEvidence PamJudgement PamExpansion PamTheorems.
Open Scope string_scope.
Open Scope nat_scope.

(** * Password stacks *)

(** Every change of a password on the usual stack passes both modules. *)
Lemma password_flow_exact_witness :
  always debian_password bare_platform (λ events, existsb quality_passed events = true) ∧ always debian_password bare_platform history_fed ∧
  always debian_password bare_platform (required (mkRequirements true true)).
Proof.
  destruct (password_flow_exact debian_password bare_platform (mkRequirements true true) (mkPasswordFlow true true true []) ltac:(vm_compute; reflexivity)) as (Hq & _ & Ht & Hv).
  split; [apply Hq; reflexivity|]. split; [apply Ht; reflexivity|apply Hv; reflexivity].
Defined.

Definition build_debian (group : PamManagementGroup) : option PamEffectiveStack :=
  match group with GPassword => Some debian_password | _ => None end.

Lemma password_provider_exact_witness : provider_enforced bare_platform PasswordQuality PamPwquality build_debian.
Proof.
  refine (proj1 (password_provider_exact bare_platform None build_debian "passwd" PasswordQuality PamPwquality (mkAnalysis true [] [] []) _ _) eq_refl); [discriminate|vm_compute; reflexivity].
Defined.

(** A stack with a substack that decides. *)
Definition gate_stack : list PamStackEntry :=
  [mkEntry (mkRule "/etc/pam.d/x" 1 GAuth "substack" "" [] KSubstack "y") [plain_rule 1 GAuth "requisite" "pam_rootok.so" []; plain_rule 2 GAuth "sufficient" "pam_permit.so" []];
   plain_rule 2 GAuth "required" "pam_deny.so" []].

Lemma gate_ignores_elsewhere : ignore_is_elsewhere "x" bare_platform gate_stack.
Proof.
  intros rule Hin. unfold gate_stack in Hin.
  repeat match goal with H : rule_in _ _ |- _ => inversion H; clear H; subst end; intros Hout; vm_compute in Hout;
    repeat (apply elem_of_cons in Hout as [?|Hout]; [done|]); by apply not_elem_of_nil in Hout.
Qed.

(** A login that goes through the substack, under pam.conf(5). *)
Lemma symbolic_execution_exact_witness : ∃ events, manual_runs "x" bare_platform gate_stack events (mkPam INegative "auth_err" SubUnknown).
Proof.
  destruct (executeStack PamFaillock "x" bare_platform gate_stack initial_state) as [states|] eqn:Hx; [|vm_compute in Hx; discriminate].
  pose proof (proj2 (symbolic_execution_exact PamFaillock "x" bare_platform gate_stack states Hx) gate_ignores_elsewhere) as He. vm_compute in Hx. injection Hx as Hx. subst states.
  destruct (proj1 (He (mkPam INegative "auth_err" SubUnknown) _) (ex_intro _ _ (conj (list_elem_of_here _ _) (conj eq_refl eq_refl)))) as (events & Hw & _). exists events. exact Hw.
Defined.

(** * Lockout stacks *)

Definition fedora_auth : PamEffectiveStack := mkStack "login" GAuth
  [plain_rule 1 GAuth "required" "pam_env.so" [];
   plain_rule 2 GAuth "required" "pam_faillock.so" ["preauth"; "silent"];
   plain_rule 3 GAuth "sufficient" "pam_unix.so" [];
   plain_rule 4 GAuth "[default=die]" "pam_faillock.so" ["authfail"];
   plain_rule 5 GAuth "required" "pam_deny.so" []] ∅.
Definition fedora_account : PamEffectiveStack := mkStack "login" GAccount
  [plain_rule 1 GAccount "required" "pam_faillock.so" []; plain_rule 2 GAccount "required" "pam_unix.so" []] ∅.
Definition build_fedora (group : PamManagementGroup) : option PamEffectiveStack :=
  match group with GAuth => Some fedora_auth | GAccount => Some fedora_account | _ => None end.

(** The usual lockout stack is enforced: no login gets past it, no failure goes
    uncounted. *)
Lemma lockout_effective_exact_witness : lockout_enforced bare_platform None build_fedora "login".
Proof.
  refine (proj1 (lockout_effective_exact bare_platform None build_fedora "login" PamFaillock (mkAnalysis true [] [] []) _) eq_refl). vm_compute. reflexivity.
Defined.

(** With the lockout's answer optional, a locked account gets in. *)
Definition build_optional (group : PamManagementGroup) : option PamEffectiveStack :=
  match group with
  | GAuth => Some (mkStack "login" GAuth [plain_rule 1 GAuth "sufficient" "pam_unix.so" []; plain_rule 2 GAuth "[default=die]" "pam_faillock.so" ["authfail"]; plain_rule 3 GAuth "required" "pam_deny.so" []] ∅)
  | GAccount => Some fedora_account
  | _ => None
  end.
Example login_without_preauth_is_reported :
  match analyze bare_platform None build_optional "login" AuthenticationLockout PamFaillock with
  | Some a => effective a = false ∧ v_kind <$> violations a = [AuthenticationBypass]
  | None => False
  end.
Proof. vm_compute. split; reflexivity. Qed.

(** * The actions of a required module *)

Definition with_history (control : string) : PamEffectiveStack := mkStack "passwd" GPassword
  [plain_rule 1 GPassword "requisite" "pam_pwquality.so" []; plain_rule 2 GPassword control "pam_pwhistory.so" ["use_authtok"];
   plain_rule 3 GPassword "required" "pam_unix.so" ["use_authtok"]] ∅.

(** pam.conf(5) gives required the meaning
    [success=ok new_authtok_reqd=ok ignore=ignore default=bad]; the analyzer reads
    it without ignore=ignore. pam_pwhistory may answer ignore, so the history check
    of this stack can be skipped, which is seen in the long form of the control and
    not in the short one. *)
Example required_is_read_without_ignore :
  match analyzePasswordFlow (with_history "required") bare_platform (mkRequirements true true),
        analyzePasswordFlow (with_history "[success=ok new_authtok_reqd=ok ignore=ignore default=bad]") bare_platform (mkRequirements true true) with
  | Some short, Some long => historyNonBypassable short = true ∧ pf_violations short = [] ∧ historyNonBypassable long = false ∧ v_kind <$> pf_violations long = [PasswordEnforcementBypass]
  | _, _ => False
  end.
Proof. vm_compute. repeat split; reflexivity. Qed.

(** * From the files *)

(** The stack of the files is the expansion, and it is enforced. *)
Definition etc_enforced (service : string) : option (string * string) :=
  if String.eqb service "passwd" then Some ("/etc/pam.d/passwd", "@include common-password" +:+ eol)
  else if String.eqb service "common-password" then Some ("/etc/pam.d/common-password", joined ((λ s, s +:+ eol)
    <$> ["# checks first"; "password requisite pam_pwquality.so retry=3"; "password requisite pam_pwhistory.so use_authtok # remembers";
         "password [success=1 \"; "default=ignore] pam_unix.so use_authtok"; "password requisite pam_deny.so"; "password required pam_permit.so"]))
  else None.
Example files_are_enforced :
  match buildEffectiveStack etc_enforced "passwd" GPassword with
  | Some stack => analyzePasswordFlow stack bare_platform (mkRequirements true true) = Some (mkPasswordFlow true true true [])
  | None => False
  end.
Proof. vm_compute. reflexivity. Qed.
