(* ===== verification/PamSlots.v ===== *)
(** The managed password slots
    (fic/src/modules/identity_access/pam/PamManagedPasswordSlots): small PAM files
    that FIC owns and that the distribution's profiles include. A slot is neutral,
    or active with the id of the mutation that activated it; everything else is
    not FIC's. Error texts are left out. *)

From S2P Require Import Prelude PolicyValue ConfigFile OwnershipGrammar MutationValid TextLines PamStack PamFlow.
Open Scope string_scope.
Open Scope nat_scope.

(** * Data *)

Inductive ManagedPasswordSlotRole := RQuality | RHistoryNormal | RHistoryInitial.
Inductive ManagedPasswordCapability := CapQuality | CapHistory.
Inductive ManagedPasswordSlotState := SNeutral | SActive | SBroken | SUnavailable.

#[export] Instance ManagedPasswordSlotRole_eq_dec : EqDecision ManagedPasswordSlotRole.
Proof. solve_decision. Defined.
#[export] Instance ManagedPasswordCapability_eq_dec : EqDecision ManagedPasswordCapability.
Proof. solve_decision. Defined.
#[export] Instance ManagedPasswordSlotState_eq_dec : EqDecision ManagedPasswordSlotState.
Proof. solve_decision. Defined.

Record ManagedPwhistorySlotOptions := mkSlotOptions { remember : option Z; enforceForRoot : bool }.
Definition no_options : ManagedPwhistorySlotOptions := mkSlotOptions None false.
#[export] Instance ManagedPwhistorySlotOptions_eq_dec : EqDecision ManagedPwhistorySlotOptions.
Proof. solve_decision. Defined.

Record ManagedPasswordSlotSpec := mkSlotSpec { spec_role : ManagedPasswordSlotRole; spec_fileName : string; spec_capability : ManagedPasswordCapability }.

Definition qualitySlot : ManagedPasswordSlotSpec := mkSlotSpec RQuality "fic-password-quality" CapQuality.
Definition historyNormalSlot : ManagedPasswordSlotSpec := mkSlotSpec RHistoryNormal "fic-password-history" CapHistory.
Definition historyInitialSlot : ManagedPasswordSlotSpec := mkSlotSpec RHistoryInitial "fic-password-history-initial" CapHistory.
Definition slots : list ManagedPasswordSlotSpec := [qualitySlot; historyNormalSlot; historyInitialSlot].

Record ManagedPasswordSlotInspection := mkInspection {
  si_state : ManagedPasswordSlotState;
  si_role : ManagedPasswordSlotRole;
  si_observedRole : ManagedPasswordSlotRole;
  si_capability : ManagedPasswordCapability;
  si_mutationId : Z;
  si_options : option ManagedPwhistorySlotOptions
}.

(** * Texts *)

Definition kNeutralBody : string := "# FIC managed password slot: state=neutral" +:+ eol.
Definition kQualityBodyLine : string := "password requisite pam_pwquality.so retry=3".

Definition capabilityToken (capability : ManagedPasswordCapability) : string :=
  match capability with CapQuality => "enable_password_quality" | CapHistory => "enable_password_history" end.

Definition slotName (role : ManagedPasswordSlotRole) : string :=
  match role with RQuality => "quality" | RHistoryNormal => "history" | RHistoryInitial => "history-initial" end.

Definition markerBodyLine (role : ManagedPasswordSlotRole) (options : ManagedPwhistorySlotOptions) : string :=
  let with_options line :=
    let line := match remember options with Some n => line +:+ " remember=" +:+ to_string n | None => line end in
    if enforceForRoot options then line +:+ " enforce_for_root" else line in
  match role with
  | RQuality => kQualityBodyLine
  | RHistoryNormal => with_options "password requisite pam_pwhistory.so use_authtok"
  | RHistoryInitial => with_options "password requisite pam_pwhistory.so"
  end.

Definition begin_line (spec : ManagedPasswordSlotSpec) (id : string) : string :=
  "#@FIC_PAM_SLOT_BEGIN version=1 capability=" +:+ capabilityToken (spec_capability spec) +:+ " mutation=" +:+ id +:+ " slot=" +:+ spec_fileName spec.
Definition end_line (spec : ManagedPasswordSlotSpec) (id : string) : string :=
  "#@FIC_PAM_SLOT_END capability=" +:+ capabilityToken (spec_capability spec) +:+ " mutation=" +:+ id +:+ " slot=" +:+ spec_fileName spec.

(** The file of an active slot; nothing for the id 0. *)
Definition renderActive (spec : ManagedPasswordSlotSpec) (mutationId : Z) (options : ManagedPwhistorySlotOptions) : option string :=
  if (mutationId =? 0)%Z then None
  else
    let id := to_string mutationId in
    Some (begin_line spec id +:+ eol +:+ markerBodyLine (spec_role spec) options +:+ eol +:+ end_line spec id +:+ eol).
Definition renderNeutral (spec : ManagedPasswordSlotSpec) : string := kNeutralBody.

(** * Reading *)

Fixpoint pieces (sep : Ascii.ascii) (s : string) : list string :=
  match s with
  | EmptyString => [""]
  | String c s' =>
      if Ascii.eqb c sep then "" :: pieces sep s'
      else match pieces sep s' with [] => [String c ""] | p :: l => String c p :: l end
  end.

Definition UINT_MAX : Z := 4294967295.

Definition parseUnsignedFull (text : string) : option Z :=
  match from_chars_uintmax text with NumOk z "" => Some z | _ => None end.
(** The same into an [unsigned]. *)
Definition parseUnsignedArgument (text : string) : option Z :=
  match ranged 0 UINT_MAX false (read_digits 0 0 text) with NumOk z "" => Some z | _ => None end.

Definition parseCanonicalMutationId (text : string) : option Z :=
  match parseUnsignedFull text with
  | Some z => if negb (z =? 0)%Z && String.eqb (to_string z) text then Some z else None
  | None => None
  end.

Definition splitOnSingleSpaces (line : string) : option (list string) :=
  let tokens := pieces " " line in if forallb (λ t, negb (is_empty t)) tokens then Some tokens else None.

Definition marker_id (token : string) : option Z :=
  if String.prefix "mutation=" token then parseCanonicalMutationId (drop_front 9 token) else None.

Definition parseBeginMarker (line : string) (spec : ManagedPasswordSlotSpec) : option Z :=
  match splitOnSingleSpaces line with
  | Some [t0; t1; t2; t3; t4] =>
      if String.eqb t0 "#@FIC_PAM_SLOT_BEGIN" && String.eqb t1 "version=1" && String.eqb t2 ("capability=" +:+ capabilityToken (spec_capability spec)) &&
         String.eqb t4 ("slot=" +:+ spec_fileName spec)
      then marker_id t3 else None
  | _ => None
  end.

Definition parseEndMarker (line : string) (spec : ManagedPasswordSlotSpec) (begin_id : Z) : bool :=
  match splitOnSingleSpaces line with
  | Some [t0; t1; t2; t3] =>
      String.eqb t0 "#@FIC_PAM_SLOT_END" && String.eqb t1 ("capability=" +:+ capabilityToken (spec_capability spec)) && String.eqb t3 ("slot=" +:+ spec_fileName spec) &&
      bool_decide (marker_id t2 = Some begin_id)
  | _ => false
  end.

(** [remember=N] at the front of the arguments. *)
Definition take_remember (arguments : list string) : option (option Z * list string) :=
  match arguments with
  | a :: rest =>
      if String.prefix "remember=" a then match parseUnsignedArgument (drop_front 9 a) with Some n => Some (Some n, rest) | None => None end
      else Some (None, arguments)
  | [] => Some (None, [])
  end.
Definition take_word (word : string) (arguments : list string) : bool * list string :=
  match arguments with a :: rest => if String.eqb a word then (true, rest) else (false, arguments) | [] => (false, []) end.

Definition parsePwhistoryArguments (role : ManagedPasswordSlotRole) (arguments : list string) : option ManagedPwhistorySlotOptions :=
  let useAuthtokAllowed := bool_decide (role = RHistoryNormal) in
  let rest := if useAuthtokAllowed then (take_word "use_authtok" arguments).2 else arguments in
  match take_remember rest with
  | None => None
  | Some (n, rest) =>
      let '(enforce, rest) := take_word "enforce_for_root" rest in
      if negb (bool_decide (rest = [])) then None
      else if useAuthtokAllowed then if (take_word "use_authtok" arguments).1 then Some (mkSlotOptions n enforce) else None
      else if bool_decide (role = RHistoryInitial) && bool_decide ("use_authtok" ∈ arguments) then None
      else Some (mkSlotOptions n enforce)
  end.

Definition parseRuleTokens (line : string) : option (list string) :=
  let tokens := words line in
  if bool_decide (tokens = []) || existsb (contains "#") tokens then None else Some tokens.

Definition parseBodyLine (spec : ManagedPasswordSlotSpec) (line : string) : option ManagedPwhistorySlotOptions :=
  match parseRuleTokens line with
  | Some (facility :: control :: module :: arguments) =>
      if negb (String.eqb facility "password") || negb (String.eqb control "requisite") then None
      else
        let options :=
          match spec_role spec with
          | RQuality => if String.eqb module "pam_pwquality.so" && bool_decide (arguments = ["retry=3"]) then Some no_options else None
          | role => if String.eqb module "pam_pwhistory.so" then parsePwhistoryArguments role arguments else None
          end in
        match options with
        | Some o => if String.eqb line (markerBodyLine (spec_role spec) o) then Some o else None
        | None => None
        end
  | _ => None
  end.

(** The mutation id and the options of an active slot. *)
Definition parseActiveContent (spec : ManagedPasswordSlotSpec) (content : string) : option (Z * ManagedPwhistorySlotOptions) :=
  match pieces lf content with
  | [l0; l1; l2; ""] =>
      match parseBeginMarker l0 spec with
      | None => None
      | Some id =>
          match parseBodyLine spec l1 with
          | None => None
          | Some options => if parseEndMarker l2 spec id then Some (id, options) else None
          end
      end
  | _ => None
  end.

(** What the file is, and whether it is canonical. *)
Definition inspectContent (spec : ManagedPasswordSlotSpec) (content : option string) : bool * ManagedPasswordSlotInspection :=
  let inspection state id options := mkInspection state (spec_role spec) (spec_role spec) (spec_capability spec) id options in
  match content with
  | None => (false, inspection SUnavailable 0%Z None)
  | Some text =>
      if String.eqb text kNeutralBody then (true, inspection SNeutral 0%Z None)
      else match parseActiveContent spec text with
           | Some (id, options) => (true, inspection SActive id (if bool_decide (spec_role spec = RQuality) then None else Some options))
           | None => (false, inspection SBroken 0%Z None)
           end
  end.

(** * The pair of history slots *)

Inductive ManagedHistoryPairState := PairNeutral | PairActive | PairBroken.
Record ManagedHistoryPairInspection := mkPair { hp_state : ManagedHistoryPairState; hp_mutationId : Z; hp_options : option ManagedPwhistorySlotOptions }.

Definition inspectHistoryPair (normal initial : ManagedPasswordSlotInspection) : bool * ManagedHistoryPairInspection :=
  let identityMatches slot expected := bool_decide (si_role slot = expected) && bool_decide (si_observedRole slot = expected) && bool_decide (si_capability slot = CapHistory) in
  let broken := (false, mkPair PairBroken 0%Z None) in
  if negb (identityMatches normal RHistoryNormal) || negb (identityMatches initial RHistoryInitial) then broken
  else match si_state normal, si_state initial with
       | SNeutral, SNeutral => (true, mkPair PairNeutral 0%Z None)
       | SActive, SActive =>
           if (si_mutationId normal =? 0)%Z || (si_mutationId initial =? 0)%Z || negb (si_mutationId normal =? si_mutationId initial)%Z then broken
           else match si_options normal, si_options initial with
                | Some o, Some o' => if bool_decide (o = o') then (true, mkPair PairActive (si_mutationId normal) (Some o)) else broken
                | _, _ => broken
                end
       | _, _ => broken
       end.
