(* ===== verification/PamSlotFacts.v ===== *)
(** The grammar of a managed slot is exactly what the renderer writes. *)

From S2P Require Import Prelude PolicyValue ConfigFile OwnershipGrammar MutationValid TextLines LoginDefsEffective PamStack PamFlow PamSlots.
Open Scope string_scope.
Open Scope nat_scope.

(** * Pieces and words *)

Fixpoint join (sep : Ascii.ascii) (l : list string) : string :=
  match l with [] => "" | [x] => x | x :: l => x +:+ String sep (join sep l) end.

Lemma pieces_cons sep s : ∃ p l, pieces sep s = p :: l.
Proof. destruct s as [|c s]; cbn; [by eexists _, _|]. destruct (Ascii.eqb c sep); [by eexists _, _|]. destruct (pieces sep s); by eexists _, _. Qed.

Lemma join_pieces sep s : join sep (pieces sep s) = s.
Proof.
  induction s as [|c s IH]; [done|]. cbn [pieces]. destruct (pieces_cons sep s) as (p & l & Hp). rewrite Hp in *. destruct (Ascii.eqb c sep) eqn:Hc.
  - apply Ascii.eqb_eq in Hc as ->. cbn. by rewrite <- IH.
  - rewrite <- IH. by destruct l.
Qed.

Lemma pieces_app sep a b : contains sep a = false → pieces sep (a +:+ String sep b) = a :: pieces sep b.
Proof.
  induction a as [|c a IH]; cbn [pieces contains]; [intros _; change ("" +:+ String sep b) with (String sep b); cbn [pieces]; by rewrite Ascii.eqb_refl|]. rewrite string_cons_app. cbn [pieces].
  destruct (Ascii.eqb c sep) eqn:Hc; [done|]. intros Ha. by rewrite IH.
Qed.

Lemma pieces_one sep a : contains sep a = false → pieces sep a = [a].
Proof. induction a as [|c a IH]; cbn; [done|]. destruct (Ascii.eqb c sep) eqn:Hc; [done|]. intros Ha. by rewrite IH. Qed.

Lemma pieces_join sep l : l ≠ [] → forallb (λ t, negb (contains sep t)) l = true → pieces sep (join sep l) = l.
Proof.
  induction l as [|x l IH]; [done|]. intros _ [Hx%negb_true_iff Hl]%andb_true_iff. destruct l as [|y l]; [by apply pieces_one|]. cbn [join] in *. rewrite pieces_app by done. f_equal. by apply IH.
Qed.

Definition unspaced (s : string) : bool := all_chars (λ c, negb (isspace c)) s.

Lemma words_from_app current a s : unspaced a = true → words_from current (a +:+ s) = words_from (current +:+ a) s.
Proof.
  unfold unspaced. revert current. induction a as [|c a IH]; intros current Ha; [by rewrite string_app_nil_r|]. cbn [all_chars] in Ha. apply andb_true_iff in Ha as [Hc%negb_true_iff Ha]. rewrite string_cons_app. cbn [words_from]. rewrite Hc.
  rewrite IH by done. by rewrite string_app_assoc.
Qed.

Lemma words_app a s : unspaced a = true → a ≠ "" → words (a +:+ String " " s) = a :: words s.
Proof.
  intros Ha Hne. unfold words. rewrite words_from_app by done. change ("" +:+ a) with a. assert (is_empty a = false) as He by by destruct a.
  cbn [words_from]. change (isspace " ") with true. by rewrite He.
Qed.

Lemma words_one a : unspaced a = true → a ≠ "" → words a = [a].
Proof.
  intros Ha Hne. rewrite <- (string_app_nil_r a) at 1. unfold words. rewrite words_from_app by done. change ("" +:+ a) with a. assert (is_empty a = false) as He by by destruct a.
  cbn [words_from]. by rewrite He.
Qed.

(** Decimal numbers hold neither blanks nor marks. *)
Lemma all_chars_contains P c s : all_chars P s = true → P c = false → contains c s = false.
Proof.
  intros Hs Hc. induction s as [|x s IH]; [done|]. cbn in *. apply andb_true_iff in Hs as [Hx Hs]. destruct (Ascii.eqb x c) eqn:He; [|by apply IH]. apply Ascii.eqb_eq in He as ->. congruence.
Qed.

Lemma to_string_isdigit z : (0 ≤ z)%Z → all_chars isdigit (to_string z) = true.
Proof. intros Hz. unfold to_string. replace (z <? 0)%Z with false by (symmetry; apply Z.ltb_ge; lia). by apply print_digits_numeral. Qed.

Lemma digit_unspaced c : isdigit c = true → negb (isspace c) = true.
Proof. destruct c as [[] [] [] [] [] [] [] []]; vm_compute; congruence. Qed.

Lemma to_string_unspaced z : (0 ≤ z)%Z → unspaced (to_string z) = true.
Proof. intros Hz. eapply all_chars_impl; [exact digit_unspaced|by apply to_string_isdigit]. Qed.

Lemma to_string_without z c : (0 ≤ z)%Z → isdigit c = false → contains c (to_string z) = false.
Proof. intros Hz Hc. eapply all_chars_contains; [by apply to_string_isdigit|done]. Qed.

(** * Numbers *)

Definition valid_id (id : Z) : Prop := (0 < id ≤ UINTMAX_MAX)%Z.
Definition valid_options (options : ManagedPwhistorySlotOptions) : Prop := match remember options with Some n => (0 ≤ n ≤ UINT_MAX)%Z | None => True end.

Lemma ranged_inv lo hi r z : ranged lo hi false r = NumOk z "" → (lo ≤ z ≤ hi)%Z.
Proof. destruct r as [[v [|n]] rest]; cbn; [done|]. destruct (Z.leb_spec lo v), (Z.leb_spec v hi); cbn; try done. intros [= <- _]. lia. Qed.

Lemma canonical_id_exact text id : parseCanonicalMutationId text = Some id ↔ valid_id id ∧ text = to_string id.
Proof.
  unfold parseCanonicalMutationId, parseUnsignedFull, valid_id. split.
  - destruct (from_chars_uintmax text) as [z [|? ?]| |] eqn:Hf; try done. apply ranged_inv in Hf. destruct (Z.eqb_spec z 0); [done|]. cbn.
    destruct (String.eqb_spec (to_string z) text) as [<-|]; [|done]. intros [= <-]. split; [lia|done].
  - intros [Hid ->]. rewrite from_chars_uintmax_to_string by lia. destruct (Z.eqb_spec id 0); [lia|]. cbn. by rewrite String.eqb_refl.
Qed.

Lemma unsigned_argument_print n : (0 ≤ n ≤ UINT_MAX)%Z → parseUnsignedArgument (to_string n) = Some n.
Proof.
  unfold UINT_MAX. intros Hn. unfold parseUnsignedArgument, to_string. replace (n <? 0)%Z with false by (symmetry; apply Z.ltb_ge; lia).
  by rewrite (ranged_print 0 UINT_MAX false n "") by (unfold UINT_MAX; done || lia).
Qed.

Lemma unsigned_argument_range text n : parseUnsignedArgument text = Some n → (0 ≤ n ≤ UINT_MAX)%Z.
Proof. unfold parseUnsignedArgument. destruct (ranged _ _ _ _) as [z [|? ?]| |] eqn:Hr; try done. intros [= <-]. by apply ranged_inv in Hr. Qed.

Lemma marker_id_exact token id : marker_id token = Some id ↔ valid_id id ∧ token = "mutation=" +:+ to_string id.
Proof.
  unfold marker_id. destruct (String.prefix "mutation=" token) eqn:Hp.
  - apply prefix_split in Hp as (r & ->). rewrite (drop_front_app "mutation="). rewrite canonical_id_exact. split; [by intros [? ->]|]. intros [? H%string_app_cancel]. done.
  - split; [done|]. intros [_ ->]. by rewrite prefix_app in Hp.
Qed.

(** * The rule of a slot *)

Lemma remember_word n : (0 ≤ n)%Z → unspaced ("remember=" +:+ to_string n) = true ∧ contains "#" ("remember=" +:+ to_string n) = false.
Proof.
  intros Hn. split.
  - unfold unspaced. rewrite all_chars_app. fold (unspaced (to_string n)). by rewrite to_string_unspaced.
  - rewrite contains_app, to_string_without by done. done.
Qed.

(** The words of a history rule. *)
Definition rule_words (role : ManagedPasswordSlotRole) (o : ManagedPwhistorySlotOptions) : list string :=
  ["password"; "requisite"; "pam_pwhistory.so"] ++ (if bool_decide (role = RHistoryNormal) then ["use_authtok"] else []) ++
  (match remember o with Some n => ["remember=" +:+ to_string n] | None => [] end) ++ (if enforceForRoot o then ["enforce_for_root"] else []).

Lemma body_words role o : role ≠ RQuality → valid_options o → words (markerBodyLine role o) = rule_words role o.
Proof.
  intros Hr Hv. destruct o as [[n|] e]; cbn in Hv; [|by destruct role, e; vm_compute]. destruct (remember_word n) as [Hw _]; [lia|].
  assert ("remember=" +:+ to_string n ≠ "") as Hne by done. set (r := "remember=" +:+ to_string n) in *.
  assert (∀ prefix tail : string, words (prefix +:+ " remember=" +:+ to_string n +:+ tail) = words (prefix +:+ String " " (r +:+ tail))) as Hshape.
  { intros prefix tail. unfold r. by rewrite string_app_assoc. }
  destruct role; [done| |]; destruct e; cbn [markerBodyLine remember enforceForRoot]; rewrite ?string_app_assoc.
  - rewrite Hshape. change (words ("password" +:+ String " " ("requisite" +:+ String " " ("pam_pwhistory.so" +:+ String " " ("use_authtok" +:+ String " " (r +:+ String " " "enforce_for_root"))))) = rule_words RHistoryNormal (mkSlotOptions (Some n) true)).
    rewrite !words_app, words_one by done. done.
  - rewrite <- (string_app_nil_r (to_string n)), Hshape, string_app_nil_r. change (words ("password" +:+ String " " ("requisite" +:+ String " " ("pam_pwhistory.so" +:+ String " " ("use_authtok" +:+ String " " r)))) = rule_words RHistoryNormal (mkSlotOptions (Some n) false)).
    rewrite !words_app, words_one by done. done.
  - rewrite Hshape. change (words ("password" +:+ String " " ("requisite" +:+ String " " ("pam_pwhistory.so" +:+ String " " (r +:+ String " " "enforce_for_root")))) = rule_words RHistoryInitial (mkSlotOptions (Some n) true)).
    rewrite !words_app, words_one by done. done.
  - rewrite <- (string_app_nil_r (to_string n)), Hshape, string_app_nil_r. change (words ("password" +:+ String " " ("requisite" +:+ String " " ("pam_pwhistory.so" +:+ String " " r))) = rule_words RHistoryInitial (mkSlotOptions (Some n) false)).
    rewrite !words_app, words_one by done. done.
Qed.

Lemma take_word_hit w l : take_word w (w :: l) = (true, l).
Proof. cbn. by rewrite String.eqb_refl. Qed.

Lemma arguments_read role o : role ≠ RQuality → valid_options o → parsePwhistoryArguments role (List.skipn 3 (rule_words role o)) = Some o.
Proof.
  intros Hr Hv. destruct o as [[n|] e]; cbn in Hv; [|by destruct role, e; vm_compute].
  assert (∀ rest, take_remember (("remember=" +:+ to_string n) :: rest) = Some (Some n, rest)) as Ht.
  { intros rest. unfold take_remember. rewrite prefix_app, (drop_front_app "remember="). by rewrite unsigned_argument_print. }
  assert ("use_authtok" ≠ "remember=" +:+ to_string n) as Hne by done.
  unfold rule_words, parsePwhistoryArguments. cbn [remember enforceForRoot app List.skipn]. generalize dependent ("remember=" +:+ to_string n). intros r Ht Hne.
  destruct role; [done| |].
  - rewrite bool_decide_eq_true_2 by done. cbn [app List.skipn]. rewrite take_word_hit. cbn [fst snd]. rewrite Ht. by destruct e; rewrite ?take_word_hit.
  - rewrite !(bool_decide_eq_false_2 (RHistoryInitial = RHistoryNormal)) by done. cbn [app List.skipn]. rewrite Ht.
    rewrite (bool_decide_eq_false_2 ("use_authtok" ∈ _)); [|destruct e; rewrite !elem_of_cons, elem_of_nil; naive_solver]. by destruct e; rewrite ?take_word_hit.
Qed.

Lemma arguments_valid role arguments o : parsePwhistoryArguments role arguments = Some o → valid_options o.
Proof.
  unfold parsePwhistoryArguments. assert (∀ l n rest, take_remember l = Some (n, rest) → match n with Some n => (0 ≤ n ≤ UINT_MAX)%Z | None => True end) as Ht.
  { intros [|a l] n rest; cbn; [by intros [= <- <-]|]. destruct (String.prefix _ a); [|by intros [= <- <-]]. destruct (parseUnsignedArgument _) as [z|] eqn:Hz; [|done]. intros [= <- <-]. by eapply unsigned_argument_range. }
  destruct (take_remember _) as [[n rest]|] eqn:Hn; [|done]. apply Ht in Hn. destruct (take_word _ _) as [e rest']. repeat case_match; try done; by intros [= <-].
Qed.

(** The rule that is read back is the rule that is written. *)
Lemma body_exact spec line o : parseBodyLine spec line = Some o ↔ line = markerBodyLine (spec_role spec) o ∧ valid_options o ∧ (spec_role spec = RQuality → o = no_options).
Proof.
  split.
  - unfold parseBodyLine. destruct (parseRuleTokens line) as [[|f [|c [|m arguments]]]|]; try done. destruct (_ || _); [done|].
    destruct (spec_role spec) eqn:Hr; case_match eqn:Hm; try done.
    + destruct (_ && _); [|done]. injection Hm as <-. case_match eqn:Hl; [|done]. intros [= <-]. apply String.eqb_eq in Hl. done.
    + destruct (String.eqb m _); [|done]. apply arguments_valid in Hm. case_match eqn:Hl; [|done]. intros [= <-]. apply String.eqb_eq in Hl. done.
    + destruct (String.eqb m _); [|done]. apply arguments_valid in Hm. case_match eqn:Hl; [|done]. intros [= <-]. apply String.eqb_eq in Hl. done.
  - intros (-> & Hv & Hq). unfold parseBodyLine, parseRuleTokens. destruct (decide (spec_role spec = RQuality)) as [Hr|Hr].
    + rewrite Hq, Hr by done. by vm_compute.
    + rewrite body_words by done. assert (existsb (contains "#") (rule_words (spec_role spec) o) = false) as ->.
      { apply not_true_iff_false. intros (w & Hw%list_elem_of_In & Hc)%existsb_exists. unfold rule_words in Hw. destruct o as [[n|] e]; cbn in Hv; cbn [remember enforceForRoot app] in Hw.
        - destruct (remember_word n) as [_ Hn]; [lia|]. destruct (bool_decide _), e; cbn [app] in Hw; rewrite !elem_of_cons, elem_of_nil in Hw; destruct_or! Hw; subst; try done; congruence.
        - destruct (bool_decide _), e; cbn [app] in Hw; rewrite !elem_of_cons, elem_of_nil in Hw; destruct_or! Hw; subst; done. }
      rewrite bool_decide_eq_false_2 by done. cbn [orb]. pose proof (arguments_read (spec_role spec) o Hr Hv) as Ha. unfold rule_words in *. cbn [app List.skipn] in *. rewrite drop_0 in Ha.
      rewrite !String.eqb_refl. cbn [negb orb]. destruct (spec_role spec); [done| |]; rewrite Ha, String.eqb_refl; done.
Qed.

(** * Markers *)

Lemma spec_cases spec (P : ManagedPasswordSlotSpec → Prop) : P qualitySlot → P historyNormalSlot → P historyInitialSlot → spec ∈ slots → P spec.
Proof. unfold slots. rewrite !elem_of_cons, elem_of_nil. intros ? ? ? [->|[->|[->|[]]]]; done. Qed.

Ltac by_spec Hs := match type of Hs with ?s ∈ _ => pattern s; apply (spec_cases s); [| | |exact Hs]; clear Hs end.

Lemma id_word id : valid_id id → contains " " ("mutation=" +:+ to_string id) = false ∧ is_empty ("mutation=" +:+ to_string id) = false.
Proof. intros Hid. rewrite contains_app, to_string_without; [done|unfold valid_id in Hid; lia|done]. Qed.

(** A line of tokens is read as these tokens. *)
Definition plain_token (t : string) : bool := negb (contains " " t) && negb (is_empty t).

Lemma split_join l : l ≠ [] → forallb plain_token l = true → splitOnSingleSpaces (join " " l) = Some l.
Proof.
  intros Hne Hl. unfold splitOnSingleSpaces. rewrite pieces_join.
  - assert (forallb (λ t, negb (is_empty t)) l = true) as ->; [|done]. apply forallb_forall. intros t Ht. eapply forallb_forall in Hl as [_ ?]%andb_true_iff; done.
  - done.
  - apply forallb_forall. intros t Ht. eapply forallb_forall in Hl as [? _]%andb_true_iff; done.
Qed.

Lemma split_inv line l : splitOnSingleSpaces line = Some l → line = join " " l.
Proof. unfold splitOnSingleSpaces. destruct (forallb _ _); [|done]. intros [= <-]. by rewrite join_pieces. Qed.

Definition begin_tokens (spec : ManagedPasswordSlotSpec) (id : string) : list string :=
  ["#@FIC_PAM_SLOT_BEGIN"; "version=1"; "capability=" +:+ capabilityToken (spec_capability spec); "mutation=" +:+ id; "slot=" +:+ spec_fileName spec].
Definition end_tokens (spec : ManagedPasswordSlotSpec) (id : string) : list string :=
  ["#@FIC_PAM_SLOT_END"; "capability=" +:+ capabilityToken (spec_capability spec); "mutation=" +:+ id; "slot=" +:+ spec_fileName spec].

Lemma marker_lines spec id : spec ∈ slots → begin_line spec id = join " " (begin_tokens spec id) ∧ end_line spec id = join " " (end_tokens spec id).
Proof. intros Hs. by_spec Hs; split; reflexivity. Qed.

Lemma marker_tokens spec id : spec ∈ slots → valid_id id → forallb plain_token (begin_tokens spec (to_string id)) = true ∧ forallb plain_token (end_tokens spec (to_string id)) = true.
Proof.
  intros Hs Hid. destruct (id_word id Hid) as [Hc He]. unfold begin_tokens, end_tokens, plain_token. cbn [forallb]. rewrite Hc, He. by_spec Hs; split; reflexivity.
Qed.

Lemma begin_exact spec line id : spec ∈ slots → parseBeginMarker line spec = Some id ↔ valid_id id ∧ line = begin_line spec (to_string id).
Proof.
  intros Hs. unfold parseBeginMarker. split.
  - destruct (splitOnSingleSpaces line) as [[|t0 [|t1 [|t2 [|t3 [|t4 [|? ?]]]]]]|] eqn:Hl; try done. apply split_inv in Hl.
    destruct (_ && _) eqn:He; [|done]. rewrite !andb_true_iff, !String.eqb_eq in He. destruct He as [[[-> ->] ->] ->]. intros [Hid ->]%marker_id_exact. split; [done|].
    rewrite Hl. symmetry. by apply marker_lines.
  - intros [Hid ->]. rewrite (proj1 (marker_lines spec (to_string id) Hs)), split_join by (done || by apply marker_tokens). unfold begin_tokens. rewrite !String.eqb_refl. cbn [andb].
    by apply marker_id_exact.
Qed.

Lemma end_exact spec line id : spec ∈ slots → valid_id id → parseEndMarker line spec id = true ↔ line = end_line spec (to_string id).
Proof.
  intros Hs Hid. unfold parseEndMarker. split.
  - destruct (splitOnSingleSpaces line) as [[|t0 [|t1 [|t2 [|t3 [|? ?]]]]]|] eqn:Hl; try done. apply split_inv in Hl.
    rewrite !andb_true_iff, !String.eqb_eq, bool_decide_eq_true. intros [[[-> ->] ->] [_ ->]%marker_id_exact]. rewrite Hl. symmetry. by apply marker_lines.
  - intros ->. rewrite (proj2 (marker_lines spec (to_string id) Hs)), split_join by (done || by apply marker_tokens). unfold end_tokens. rewrite !String.eqb_refl. cbn [andb].
    rewrite bool_decide_eq_true. by apply marker_id_exact.
Qed.

(** * The file *)

Lemma unlined_line spec id options : spec ∈ slots → valid_id id → valid_options options →
  forallb (λ t, negb (contains lf t)) [begin_line spec (to_string id); markerBodyLine (spec_role spec) options; end_line spec (to_string id); ""] = true.
Proof.
  intros Hs Hid Ho. assert (contains lf (to_string id) = false) as Hi by (apply to_string_without; [unfold valid_id in Hid; lia|done]).
  assert (contains lf (markerBodyLine (spec_role spec) options) = false) as Hb.
  { destruct options as [[n|] e]; [|by destruct (spec_role spec), e]. assert (contains lf (to_string n) = false) as Hn by (apply to_string_without; [cbn in Ho; lia|done]).
    destruct (spec_role spec), e; cbn [markerBodyLine remember enforceForRoot]; rewrite ?contains_app, ?Hn; done. }
  cbn [forallb]. rewrite Hb. unfold begin_line, end_line. rewrite !contains_app, Hi. by_spec Hs; reflexivity.
Qed.

Lemma active_exact spec content id options : spec ∈ slots → parseActiveContent spec content = Some (id, options) ↔
  valid_id id ∧ valid_options options ∧ (spec_role spec = RQuality → options = no_options) ∧ renderActive spec id options = Some content.
Proof.
  intros Hs. assert (∀ a b c : string, a +:+ eol +:+ b +:+ eol +:+ c +:+ eol = join lf [a; b; c; ""]) as Hj by done.
  unfold renderActive, parseActiveContent. split.
  - pose proof (join_pieces lf content) as Hc. destruct (pieces lf content) as [|l0 [|l1 [|l2 [|[|? ?] [|? ?]]]]]; try done.
    destruct (parseBeginMarker l0 spec) as [z|] eqn:Hb; [|done]. apply begin_exact in Hb as [Hid ->]; [|done]. destruct (parseBodyLine spec l1) as [o|] eqn:Ho; [|done].
    apply body_exact in Ho as (-> & Hv & Hq). destruct (parseEndMarker l2 spec z) eqn:He; [|done]. apply end_exact in He as ->; [|done|done]. intros [= -> ->].
    split; [done|]. split; [done|]. split; [done|]. destruct (Z.eqb_spec id 0); [unfold valid_id in Hid; lia|]. by rewrite Hj, Hc.
  - intros (Hid & Hv & Hq & Hr). destruct (Z.eqb_spec id 0); [done|]. injection Hr as <-. rewrite Hj, pieces_join by (done || by apply unlined_line).
    rewrite (proj2 (begin_exact spec _ id Hs)), (proj2 (body_exact spec _ options)), (proj2 (end_exact spec _ id Hs Hid)) by done. done.
Qed.

Lemma neutral_is_not_active spec : spec ∈ slots → parseActiveContent spec kNeutralBody = None.
Proof. intros Hs. by_spec Hs; reflexivity. Qed.
