(* ===== verification/PamTopology.v ===== *)
(** The password topology of pam-auth-update: what is selected, which of it FIC
    owns, whether it is safe, and the plan that leads to a requested one
    (fic/src/modules/identity_access/pam/PamPasswordTopologyModel,
    PamPasswordTopologyPlanner and PamPasswordTopologyState).

    The files that are inspected are given by their contents. Texts that only
    explain a verdict are left out, so a coherence error is a flag. *)

From S2P Require Import Prelude PolicyValue PolicyModel ConfigFile OwnershipGrammar MutationRecord MutationValid TextLines Journal PamStack PamFlow PamSlots.
Open Scope string_scope.
Open Scope nat_scope.

(** * Model *)

Definition kFicPasswordQualityHookProfileId : string := "fic-password-quality-hook".
Definition kFicPasswordHistoryHookProfileId : string := "fic-password-history-hook".
Definition kFicPasswordHistoryInitialHookProfileId : string := "fic-password-history-initial-hook".
Definition kStockPwqualityProfileId : string := "pwquality".

Inductive PamPasswordProducerKind := ProducerNone | ProducerFicQuality | ProducerFicHistoryInitial | ProducerForeignQuality.
Inductive PamPasswordHistoryKind := HistoryNone | HistoryFicConsumer.
Inductive PamPasswordTopologyClass :=
| TNone | TFicQuality | TFicHistoryInitial | TFicQualityPlusFicHistory | TForeignQuality | TForeignQualityPlusFicHistory | TForeignQualityPlusFicQuality | TAmbiguous.

#[export] Instance PamPasswordProducerKind_eq_dec : EqDecision PamPasswordProducerKind.
Proof. solve_decision. Defined.
#[export] Instance PamPasswordHistoryKind_eq_dec : EqDecision PamPasswordHistoryKind.
Proof. solve_decision. Defined.
#[export] Instance PamPasswordTopologyClass_eq_dec : EqDecision PamPasswordTopologyClass.
Proof. solve_decision. Defined.

Record PamPasswordSelections := mkSelections { ficQualitySelected : bool; ficHistorySelected : bool; ficHistoryInitialSelected : bool }.
Record PamPasswordOwnership := mkOwnership {
  ficQualityOwned : bool; ficHistoryOwned : bool; ficHistoryInitialOwned : bool;
  ficQualityPrepared : bool; ficHistoryPrepared : bool; ficHistoryInitialPrepared : bool
}.
Record PamPasswordTopology := mkTopology {
  t_producer : PamPasswordProducerKind; t_history : PamPasswordHistoryKind; t_selections : PamPasswordSelections; t_foreignQualityProducer : bool
}.
Record PamPasswordC2SlotStates := mkSlotStates { st_quality : ManagedPasswordSlotState; st_history : ManagedPasswordSlotState; st_historyInitial : ManagedPasswordSlotState }.

#[export] Instance PamPasswordSelections_eq_dec : EqDecision PamPasswordSelections.
Proof. solve_decision. Defined.
#[export] Instance PamPasswordOwnership_eq_dec : EqDecision PamPasswordOwnership.
Proof. solve_decision. Defined.
#[export] Instance PamPasswordC2SlotStates_eq_dec : EqDecision PamPasswordC2SlotStates.
Proof. solve_decision. Defined.

(** The class and whether it is valid. *)
Definition classifyPamPasswordTopology (topology : PamPasswordTopology) : PamPasswordTopologyClass * bool :=
  let s := t_selections topology in
  let producer := t_producer topology in
  let foreign := t_foreignQualityProducer topology in
  let consumer := bool_decide (t_history topology = HistoryFicConsumer) in
  let produces k := bool_decide (producer = k) in
  let producerPresent := negb (produces ProducerNone) || foreign in
  if ficHistorySelected s && ficHistoryInitialSelected s then (TAmbiguous, false)
  else if foreign && ficHistoryInitialSelected s then (TAmbiguous, false)
  else if produces ProducerFicQuality && negb (ficQualitySelected s) then (TAmbiguous, false)
  else if produces ProducerFicHistoryInitial && negb (ficHistoryInitialSelected s) then (TAmbiguous, false)
  else if consumer && negb (ficHistorySelected s) then (TAmbiguous, false)
  else if ficQualitySelected s && negb (produces ProducerFicQuality) then (TAmbiguous, false)
  else if ficHistoryInitialSelected s && negb (produces ProducerFicHistoryInitial) then (TAmbiguous, false)
  else if ficHistorySelected s && negb consumer then (TAmbiguous, false)
  else if produces ProducerNone && (ficQualitySelected s || ficHistoryInitialSelected s || foreign) then (TAmbiguous, false)
  else if consumer && (negb producerPresent || produces ProducerFicHistoryInitial) then (TAmbiguous, false)
  else if produces ProducerFicHistoryInitial then (TFicHistoryInitial, true)
  else if produces ProducerFicQuality then
    if foreign then (TForeignQualityPlusFicQuality, false)
    else (if consumer then TFicQualityPlusFicHistory else TFicQuality, true)
  else if foreign then (if consumer then TForeignQualityPlusFicHistory else TForeignQuality, true)
  else (TNone, true).

(** One identity: its selection agrees with its slot. *)
Definition slot_agrees (selected : bool) (slot : ManagedPasswordSlotState) : bool :=
  if bool_decide (slot = SUnavailable) then false
  else if bool_decide (slot = SBroken) then false
  else if selected && negb (bool_decide (slot = SActive)) then false
  else if negb selected && negb (bool_decide (slot = SNeutral)) then false else true.

Definition evaluatePamPasswordC2SelectionSafety (s : PamPasswordSelections) (slots : PamPasswordC2SlotStates) (foreignQualityProducer : bool) : bool :=
  if ficHistorySelected s && ficHistoryInitialSelected s then false
  else if negb (slot_agrees (ficQualitySelected s) (st_quality slots)) then false
  else if negb (slot_agrees (ficHistorySelected s) (st_history slots)) then false
  else if negb (slot_agrees (ficHistoryInitialSelected s) (st_historyInitial slots)) then false
  else if ficHistorySelected s && negb (ficQualitySelected s && bool_decide (st_quality slots = SActive)) && negb foreignQualityProducer then false
  else true.

(** * Plans *)

Inductive PamPasswordPlanActionKind :=
| AttachFicQuality | AttachFicHistoryInitial | AttachFicHistoryConsumer | DetachFicQuality | DetachFicHistoryInitial | DetachFicHistoryConsumer.
#[export] Instance PamPasswordPlanActionKind_eq_dec : EqDecision PamPasswordPlanActionKind.
Proof. solve_decision. Defined.

Definition planActionProfileId (kind : PamPasswordPlanActionKind) : string :=
  match kind with
  | AttachFicQuality | DetachFicQuality => kFicPasswordQualityHookProfileId
  | AttachFicHistoryInitial | DetachFicHistoryInitial => kFicPasswordHistoryInitialHookProfileId
  | AttachFicHistoryConsumer | DetachFicHistoryConsumer => kFicPasswordHistoryHookProfileId
  end.

Record PamPasswordTopologyPlan := mkPlan {
  wantFicQuality : bool; wantFicHistoryInitial : bool; wantFicHistoryConsumer : bool;
  plan_actions : list PamPasswordPlanActionKind;
  plan_success : bool;
  unownedSelectionsPreserved : list string
}.

Record IdentityPlanInput := mkIdentity {
  id_profileId : string; id_selected : bool; id_owned : bool; id_desired : bool;
  id_attach : PamPasswordPlanActionKind; id_detach : PamPasswordPlanActionKind
}.

(** The identities one after another: whether the state allows a plan, and the
    unproven selections that stay. *)
Fixpoint check_identities (l : list IdentityPlanInput) (preserved : list string) : bool * list string :=
  match l with
  | [] => (true, preserved)
  | i :: l =>
      if id_selected i && negb (id_owned i) && negb (id_desired i) then (false, preserved)
      else if negb (id_selected i) && id_owned i then (false, preserved)
      else check_identities l (if id_selected i && negb (id_owned i) then (preserved ++ [id_profileId i])%list else preserved)
  end.

Definition detach_actions (identities : list IdentityPlanInput) : list PamPasswordPlanActionKind :=
  concat ((λ kind, (λ _, kind) <$> List.filter (λ i, bool_decide (id_detach i = kind) && id_selected i && id_owned i && negb (id_desired i)) identities)
    <$> [DetachFicHistoryConsumer; DetachFicHistoryInitial; DetachFicQuality]).
Definition attach_actions (identities : list IdentityPlanInput) : list PamPasswordPlanActionKind :=
  concat ((λ kind, (λ _, kind) <$> List.filter (λ i, bool_decide (id_attach i = kind) && negb (id_selected i) && id_desired i) identities)
    <$> [AttachFicQuality; AttachFicHistoryInitial; AttachFicHistoryConsumer]).

Definition planPamPasswordTopology (current : PamPasswordTopology) (qualityRequested historyRequested : bool) (ownership : PamPasswordOwnership) : PamPasswordTopologyPlan :=
  let s := t_selections current in
  if ficHistorySelected s && ficHistoryInitialSelected s then mkPlan false false false [] false []
  else
    let foreign := t_foreignQualityProducer current in
    let wantQuality := qualityRequested && negb foreign in
    let producer := foreign || wantQuality in
    let wantConsumer := historyRequested && producer in
    let wantInitial := historyRequested && negb producer in
    let identities :=
      [mkIdentity kFicPasswordQualityHookProfileId (ficQualitySelected s) (ficQualityOwned ownership) wantQuality AttachFicQuality DetachFicQuality;
       mkIdentity kFicPasswordHistoryHookProfileId (ficHistorySelected s) (ficHistoryOwned ownership) wantConsumer AttachFicHistoryConsumer DetachFicHistoryConsumer;
       mkIdentity kFicPasswordHistoryInitialHookProfileId (ficHistoryInitialSelected s) (ficHistoryInitialOwned ownership) wantInitial AttachFicHistoryInitial DetachFicHistoryInitial] in
    match check_identities identities [] with
    | (false, preserved) => mkPlan wantQuality wantInitial wantConsumer [] false preserved
    | (true, preserved) => mkPlan wantQuality wantInitial wantConsumer (detach_actions identities ++ attach_actions identities) true preserved
    end.

(** * Snapshots *)

Record PamPasswordGeneratedStackEvidence := mkGenerated {
  qualityInclude : option nat;
  historyInclude : option nat;
  historyInitialInclude : option nat;
  pamUnixPosition : option nat;
  foreignPwquality : option nat
}.
Definition no_stack : PamPasswordGeneratedStackEvidence := mkGenerated None None None None None.

Record PamPasswordTopologySnapshot := mkSnapshot {
  sn_selections : PamPasswordSelections;
  sn_slots : PamPasswordC2SlotStates;
  sn_qualityMutationId : Z;
  sn_historyMutationId : Z;
  sn_historyInitialMutationId : Z;
  sn_generated : PamPasswordGeneratedStackEvidence;
  sn_foreignProfileSelected : bool;
  sn_foreignQualityProducer : bool;
  sn_ownership : PamPasswordOwnership
}.

(** The rest of the source's snapshot is computed from these fields when it is
    taken, and not changed: the semantic model, its class, the safety verdict and
    whether the state is coherent. *)

Definition topology_of (s : PamPasswordSelections) (foreign : bool) : PamPasswordTopology :=
  mkTopology (if ficQualitySelected s then ProducerFicQuality else if ficHistoryInitialSelected s then ProducerFicHistoryInitial
              else if foreign then ProducerForeignQuality else ProducerNone)
    (if ficHistorySelected s then HistoryFicConsumer else HistoryNone) s foreign.

(** Selections and generated includes agree, the foreign profile and its rule
    too. *)
Definition coherent_stack (s : PamPasswordSelections) (foreignProfile : bool) (g : PamPasswordGeneratedStackEvidence) : bool :=
  Bool.eqb foreignProfile (is_some (foreignPwquality g)) && Bool.eqb (is_some (qualityInclude g)) (ficQualitySelected s) &&
  Bool.eqb (is_some (historyInclude g)) (ficHistorySelected s) && Bool.eqb (is_some (historyInitialInclude g)) (ficHistoryInitialSelected s).

Definition sn_topology (sn : PamPasswordTopologySnapshot) : PamPasswordTopology := topology_of (sn_selections sn) (sn_foreignQualityProducer sn).
Definition sn_class (sn : PamPasswordTopologySnapshot) : PamPasswordTopologyClass * bool := classifyPamPasswordTopology (sn_topology sn).
Definition sn_safe (sn : PamPasswordTopologySnapshot) : bool := evaluatePamPasswordC2SelectionSafety (sn_selections sn) (sn_slots sn) (sn_foreignQualityProducer sn).
Definition sn_coherent (sn : PamPasswordTopologySnapshot) : bool := coherent_stack (sn_selections sn) (sn_foreignProfileSelected sn) (sn_generated sn).

(** * Inspection *)

Definition trimTrailingWhitespace (s : string) : string :=
  (fix trim (s : string) : string :=
     match s with
     | EmptyString => ""
     | String c s' => match trim s' with EmptyString => if one_of [chr 32; chr 9; cr] c then "" else String c "" | r => String c r end
     end) s.

(** The selections and whether the distribution's own profile is selected. *)
Definition state_line (acc : PamPasswordSelections * bool) (line : string) : PamPasswordSelections * bool :=
  let '(s, foreign) := acc in
  let trimmed := trimTrailingWhitespace line in
  if negb (String.prefix "Module: " trimmed) then acc
  else
    let identifier := drop_front 8 trimmed in
    if String.eqb identifier kFicPasswordQualityHookProfileId then (mkSelections true (ficHistorySelected s) (ficHistoryInitialSelected s), foreign)
    else if String.eqb identifier kFicPasswordHistoryHookProfileId then (mkSelections (ficQualitySelected s) true (ficHistoryInitialSelected s), foreign)
    else if String.eqb identifier kFicPasswordHistoryInitialHookProfileId then (mkSelections (ficQualitySelected s) (ficHistorySelected s) true, foreign)
    else if String.eqb identifier kStockPwqualityProfileId then (s, true)
    else acc.
Definition read_state (content : option string) : PamPasswordSelections * bool :=
  match content with
  | None => (mkSelections false false false, false)
  | Some text => foldl state_line (mkSelections false false false, false) (getlines text)
  end.

(** A line of the generated stack: an include or a module with its target. *)
Inductive GeneratedKind := GInclude (target : string) | GModule (module : string).

(** The word after the first [include] that has one. *)
Fixpoint include_target (tokens : list string) : option string :=
  match tokens with
  | t :: ((u :: _) as rest) => if String.eqb t "include" then Some u else include_target rest
  | _ => None
  end.
Definition ends_in_so (token : string) : bool :=
  (3 <? String.length token) && String.eqb (drop_front (String.length token - 3) token) ".so".

Definition generated_line (line : string) : option GeneratedKind :=
  match words (trimTrailingWhitespace line) with
  | first :: ((_ :: _ :: _) as rest) =>
      if negb (String.eqb first "password") then None
      else match include_target rest with
           | Some target => Some (GInclude target)
           | None => GModule <$> List.find ends_in_so rest
           end
  | _ => None
  end.

Definition stack_line (position : nat) (line : string) (g : PamPasswordGeneratedStackEvidence) : PamPasswordGeneratedStackEvidence :=
  match generated_line line with
  | Some (GInclude target) =>
      match List.find (λ spec, String.eqb target (spec_fileName spec)) slots with
      | None => g
      | Some spec =>
          match spec_role spec with
          | RQuality => mkGenerated (Some position) (historyInclude g) (historyInitialInclude g) (pamUnixPosition g) (foreignPwquality g)
          | RHistoryNormal => mkGenerated (qualityInclude g) (Some position) (historyInitialInclude g) (pamUnixPosition g) (foreignPwquality g)
          | RHistoryInitial => mkGenerated (qualityInclude g) (historyInclude g) (Some position) (pamUnixPosition g) (foreignPwquality g)
          end
      end
  | Some (GModule module) =>
      if String.eqb module "pam_unix.so" && bool_decide (pamUnixPosition g = None)
      then mkGenerated (qualityInclude g) (historyInclude g) (historyInitialInclude g) (Some position) (foreignPwquality g)
      else if String.eqb module "pam_pwquality.so"
      then mkGenerated (qualityInclude g) (historyInclude g) (historyInitialInclude g) (pamUnixPosition g) (Some position)
      else g
  | None => g
  end.
Fixpoint read_stack (position : nat) (lines : list string) (g : PamPasswordGeneratedStackEvidence) : PamPasswordGeneratedStackEvidence :=
  match lines with [] => g | line :: lines => read_stack (S position) lines (stack_line position line g) end.

(** * Ownership *)

Definition passwordDomainPolicyName (role : ManagedPasswordSlotRole) : string :=
  match role with RQuality => "enable_password_quality" | _ => "enable_password_history" end.
Definition slotProfileIdentifier (role : ManagedPasswordSlotRole) : string :=
  match role with
  | RQuality => kFicPasswordQualityHookProfileId
  | RHistoryNormal => kFicPasswordHistoryHookProfileId
  | RHistoryInitial => kFicPasswordHistoryInitialHookProfileId
  end.

Inductive IdentityBinding := BindingNone | BindingPrepared | BindingOwned.
#[export] Instance IdentityBinding_eq_dec : EqDecision IdentityBinding.
Proof. solve_decision. Defined.

(** The record of a slot: its policy, resource and payload. *)
Definition slot_record (role : ManagedPasswordSlotRole) (r : MutationRecord) : option UndoDisablePamCapability :=
  let name := passwordDomainPolicyName role in
  match payload (undo r) with
  | PCapability p =>
      if ref_is "IDENTITY_ACCESS" "PAM" name (policy r) && bool_decide (backend (undo r) = Pam) && String.eqb (resource r) ("capability/" +:+ name) &&
         bool_decide (pc_topology p = PamAuthUpdate) && String.eqb (pc_capability p) name
      then Some p else None
  | _ => None
  end.

Definition binding (l : list MutationRecord) (role : ManagedPasswordSlotRole) (state : ManagedPasswordSlotState) (markerId : Z) : IdentityBinding :=
  if negb (bool_decide (state = SActive)) || (markerId =? 0)%Z then BindingNone
  else match find_record markerId l with
       | None => BindingNone
       | Some r =>
           match slot_record role r with
           | None => BindingNone
           | Some p =>
               if negb (bool_decide (pc_activationIdentifiers p = [slotProfileIdentifier role])) then BindingNone
               else match status r with Applied => BindingOwned | Prepared => BindingPrepared | _ => BindingNone end
           end
       end.

(** * The snapshot of a machine *)

(** What reading the files gives: nothing on an error, else the content if the
    file exists. [pf_journal]: the records the gate of the journal lets through,
    none where there is no journal yet; nothing when the gate refuses. *)
Record PamFiles := mkPamFiles {
  pf_state : option (option string);
  pf_slot : ManagedPasswordSlotRole → option (option string);
  pf_stack : option (option string);
  pf_journal : option (list MutationRecord)
}.

Definition inspect_slot (files : PamFiles) (spec : ManagedPasswordSlotSpec) : option ManagedPasswordSlotInspection :=
  content ← pf_slot files (spec_role spec);
  let '(ok, inspection) := inspectContent spec content in if ok then Some inspection else None.

Definition ownership_of (l : list MutationRecord) (quality history historyInitial : ManagedPasswordSlotInspection) : PamPasswordOwnership :=
  let bound role i := binding l role (si_state i) (si_mutationId i) in
  mkOwnership (bool_decide (bound RQuality quality = BindingOwned)) (bool_decide (bound RHistoryNormal history = BindingOwned))
    (bool_decide (bound RHistoryInitial historyInitial = BindingOwned)) (bool_decide (bound RQuality quality = BindingPrepared))
    (bool_decide (bound RHistoryNormal history = BindingPrepared)) (bool_decide (bound RHistoryInitial historyInitial = BindingPrepared)).

Definition inspectPamPasswordTopology (files : PamFiles) : option PamPasswordTopologySnapshot :=
  state ← pf_state files;
  let '(s, foreignProfile) := read_state state in
  quality ← inspect_slot files qualitySlot;
  history ← inspect_slot files historyNormalSlot;
  historyInitial ← inspect_slot files historyInitialSlot;
  stack ← pf_stack files;
  content ← stack;
  let g := read_stack 0 (getlines content) no_stack in
  let foreign := foreignProfile && is_some (foreignPwquality g) in
  l ← pf_journal files;
  let slot_states := mkSlotStates (si_state quality) (si_state history) (si_state historyInitial) in
  Some (mkSnapshot s slot_states (si_mutationId quality) (si_mutationId history) (si_mutationId historyInitial) g foreignProfile foreign
          (ownership_of l quality history historyInitial)).

(** * The order in the generated stack *)

Definition before (a b : option nat) : bool := match a, b with Some x, Some y => x <? y | _, _ => false end.

Definition provePamPasswordTopologySemantics (sn : PamPasswordTopologySnapshot) : bool :=
  let g := sn_generated sn in
  let s := sn_selections sn in
  is_some (pamUnixPosition g) &&
  (if ficQualitySelected s then before (qualityInclude g) (pamUnixPosition g) else true) &&
  (if ficHistoryInitialSelected s then
     negb (ficHistorySelected s) && is_some (historyInitialInclude g) && negb (is_some (historyInclude g)) && before (historyInitialInclude g) (pamUnixPosition g) &&
     negb (sn_foreignQualityProducer sn)
   else true) &&
  (if ficHistorySelected s then
     is_some (historyInclude g) && negb (is_some (historyInitialInclude g)) && before (historyInclude g) (pamUnixPosition g) &&
     (if ficQualitySelected s then before (qualityInclude g) (historyInclude g)
      else if sn_foreignQualityProducer sn then before (foreignPwquality g) (historyInclude g) else false)
   else true) &&
  negb (negb (ficQualitySelected s) && is_some (qualityInclude g)) && negb (negb (ficHistorySelected s) && is_some (historyInclude g)) &&
  negb (negb (ficHistoryInitialSelected s) && is_some (historyInitialInclude g)).
