(* ===== verification/PamTransition.v ===== *)
(** The transition of the password topology
    (fic/src/modules/identity_access/pam/PamPasswordTopologyTransitionExecutor):
    from the inspected topology to the requested one, action by action, with a
    proof after each and the inverse actions when one fails.

    What the executor talks to are calls ([TCall]): the inspection, the
    pam-auth-update tool with one profile, and the writers of the managed slots.
    The hooks for tests are never set. Error texts are left out. *)

From S2P Require Import Prelude PolicyModel MutationRecord MutationValid Effects PamSlots PamTopology.
Open Scope string_scope.
Open Scope list_scope.
Open Scope prog_scope.

(** * Calls *)

(** What activating a slot reports beside its answer: the id is that of the
    resulting state, or of a mutation that is outstanding after a failure. *)
Record SlotActivation := mkActivation { ac_success : bool; ac_changed : bool; ac_ownershipProven : bool; ac_mutationId : Z }.

Inductive TCall :=
| Inspect
| Native (enable : bool) (role : ManagedPasswordSlotRole)
| ActivateSlot (role : ManagedPasswordSlotRole) (options : ManagedPwhistorySlotOptions)
| DeactivateSlot (role : ManagedPasswordSlotRole)
| CompensateSlot (role : ManagedPasswordSlotRole) (mutationId : Z)
| ProveOwned (role : ManagedPasswordSlotRole)
| CompletePrepared (role : ManagedPasswordSlotRole)
| UpdateOptions (role : ManagedPasswordSlotRole) (options : ManagedPwhistorySlotOptions)
| ActiveRecords (p : PolicyRef).

Definition tresp (c : TCall) : Type :=
  match c with
  | Inspect => option PamPasswordTopologySnapshot
  | Native _ _ | ProveOwned _ | DeactivateSlot _ => bool
  | ActivateSlot _ _ | CompletePrepared _ | UpdateOptions _ _ => bool * SlotActivation
  | CompensateSlot _ _ => bool * bool
  | ActiveRecords _ => list MutationRecord
  end.

Record PamPasswordTransitionResult := mkTransitionResult {
  tr_success : bool;
  tr_changedSystemState : bool;
  tr_before : PamPasswordTopologyClass;
  tr_after : PamPasswordTopologyClass;
  tr_executed : list string;
  tr_compensated : bool;
  tr_compensatedStateProven : bool
}.
Definition fresh_result : PamPasswordTransitionResult := mkTransitionResult false false TAmbiguous TAmbiguous [] false false.

Definition set_changed (b : bool) (r : PamPasswordTransitionResult) : PamPasswordTransitionResult :=
  mkTransitionResult (tr_success r) (tr_changedSystemState r || b) (tr_before r) (tr_after r) (tr_executed r) (tr_compensated r) (tr_compensatedStateProven r).
Definition set_before (c : PamPasswordTopologyClass) (r : PamPasswordTransitionResult) : PamPasswordTransitionResult :=
  mkTransitionResult (tr_success r) (tr_changedSystemState r) c (tr_after r) (tr_executed r) (tr_compensated r) (tr_compensatedStateProven r).
Definition set_succeeded (c : PamPasswordTopologyClass) (r : PamPasswordTransitionResult) : PamPasswordTransitionResult :=
  mkTransitionResult true (tr_changedSystemState r) (tr_before r) c (tr_executed r) (tr_compensated r) (tr_compensatedStateProven r).
Definition set_executed (kind : PamPasswordPlanActionKind) (r : PamPasswordTransitionResult) : PamPasswordTransitionResult :=
  mkTransitionResult (tr_success r) (tr_changedSystemState r) (tr_before r) (tr_after r) (tr_executed r ++ [planActionProfileId kind]) (tr_compensated r) (tr_compensatedStateProven r).
Definition set_compensated (r : PamPasswordTransitionResult) : PamPasswordTransitionResult :=
  mkTransitionResult (tr_success r) (tr_changedSystemState r) (tr_before r) (tr_after r) (tr_executed r) true (tr_compensatedStateProven r).
Definition set_restored (c : PamPasswordTopologyClass) (r : PamPasswordTransitionResult) : PamPasswordTransitionResult :=
  mkTransitionResult (tr_success r) (tr_changedSystemState r) (tr_before r) c (tr_executed r) (tr_compensated r) true.

(** A program with the result it fills in as its state. *)
Definition TP (A : Type) : Type := sprog tresp (S := PamPasswordTransitionResult) A.

(** * Actions *)

Definition isAttach (kind : PamPasswordPlanActionKind) : bool :=
  match kind with AttachFicQuality | AttachFicHistoryInitial | AttachFicHistoryConsumer => true | _ => false end.
Definition action_role (kind : PamPasswordPlanActionKind) : ManagedPasswordSlotRole :=
  match kind with
  | AttachFicQuality | DetachFicQuality => RQuality
  | AttachFicHistoryInitial | DetachFicHistoryInitial => RHistoryInitial
  | AttachFicHistoryConsumer | DetachFicHistoryConsumer => RHistoryNormal
  end.

Definition selected (role : ManagedPasswordSlotRole) (s : PamPasswordSelections) : bool :=
  match role with RQuality => ficQualitySelected s | RHistoryNormal => ficHistorySelected s | RHistoryInitial => ficHistoryInitialSelected s end.
Definition selectionFlagFor (s : PamPasswordSelections) (kind : PamPasswordPlanActionKind) : bool := selected (action_role kind) s.
Definition included (role : ManagedPasswordSlotRole) (g : PamPasswordGeneratedStackEvidence) : bool :=
  match role with RQuality => is_some (qualityInclude g) | RHistoryNormal => is_some (historyInclude g) | RHistoryInitial => is_some (historyInitialInclude g) end.
Definition slot_state (role : ManagedPasswordSlotRole) (st : PamPasswordC2SlotStates) : ManagedPasswordSlotState :=
  match role with RQuality => st_quality st | RHistoryNormal => st_history st | RHistoryInitial => st_historyInitial st end.

Definition set_selected (role : ManagedPasswordSlotRole) (b : bool) (s : PamPasswordSelections) : PamPasswordSelections :=
  match role with
  | RQuality => mkSelections b (ficHistorySelected s) (ficHistoryInitialSelected s)
  | RHistoryNormal => mkSelections (ficQualitySelected s) b (ficHistoryInitialSelected s)
  | RHistoryInitial => mkSelections (ficQualitySelected s) (ficHistorySelected s) b
  end.
Definition set_slot (role : ManagedPasswordSlotRole) (x : ManagedPasswordSlotState) (st : PamPasswordC2SlotStates) : PamPasswordC2SlotStates :=
  match role with
  | RQuality => mkSlotStates x (st_history st) (st_historyInitial st)
  | RHistoryNormal => mkSlotStates (st_quality st) x (st_historyInitial st)
  | RHistoryInitial => mkSlotStates (st_quality st) (st_history st) x
  end.

(** The state an action leads to: the selection and its slot. *)
Definition expect_selections (kind : PamPasswordPlanActionKind) (s : PamPasswordSelections) : PamPasswordSelections := set_selected (action_role kind) (isAttach kind) s.
Definition expect_slots (kind : PamPasswordPlanActionKind) (st : PamPasswordC2SlotStates) : PamPasswordC2SlotStates :=
  set_slot (action_role kind) (if isAttach kind then SActive else SNeutral) st.

(** What is compared of a state: selections, slots, foreign producer. *)
Record Expected := mkExpected { xp_selections : PamPasswordSelections; xp_slots : PamPasswordC2SlotStates; xp_foreign : bool }.
#[export] Instance Expected_eq_dec : EqDecision Expected.
Proof. solve_decision. Defined.
Definition expected_of (sn : PamPasswordTopologySnapshot) : Expected := mkExpected (sn_selections sn) (sn_slots sn) (sn_foreignQualityProducer sn).
Definition expect (kind : PamPasswordPlanActionKind) (x : Expected) : Expected :=
  mkExpected (expect_selections kind (xp_selections x)) (expect_slots kind (xp_slots x)) (xp_foreign x).

(** * Gates *)

Definition usable_class (c : PamPasswordTopologyClass * bool) : bool := c.2 || bool_decide (c.1 = TForeignQualityPlusFicQuality).
Definition requireUsableCurrentState (sn : PamPasswordTopologySnapshot) : bool :=
  sn_coherent sn && usable_class (sn_class sn) && sn_safe sn && provePamPasswordTopologySemantics sn.

Definition desiredTopologyClass (plan : PamPasswordTopologyPlan) (foreignProducer : bool) : PamPasswordTopologyClass :=
  if wantFicHistoryInitial plan then TFicHistoryInitial
  else if wantFicHistoryConsumer plan then (if foreignProducer then TForeignQualityPlusFicHistory else TFicQualityPlusFicHistory)
  else if wantFicQuality plan then TFicQuality
  else if foreignProducer then TForeignQuality else TNone.

Definition driftGate (x : Expected) : TP bool :=
  fresh ← call Inspect;
  ret (match fresh with None => false | Some sn => bool_decide (expected_of sn = x) && requireUsableCurrentState sn end).

(** * One action *)

Record ActionAttempt := mkAttempt { at_kind : PamPasswordPlanActionKind; at_slotMutationId : Z; at_nativeAttempted : bool; at_selectionRemovedProven : bool }.

Definition executeAction (kind : PamPasswordPlanActionKind) (options : ManagedPwhistorySlotOptions) : TP (bool * ActionAttempt) :=
  let role := action_role kind in
  if isAttach kind then
    activation ← call (ActivateSlot role options);
    if negb activation.1 then ret (false, mkAttempt kind (ac_mutationId activation.2) false false)
    else
      _ ← call (Native true role);
      ret (true, mkAttempt kind (ac_mutationId activation.2) true false)
  else
    _ ← call (Native false role);
    fresh ← call Inspect;
    match fresh with
    | None => ret (false, mkAttempt kind 0 true false)
    | Some sn =>
        if selected role (sn_selections sn) || included role (sn_generated sn) then ret (false, mkAttempt kind 0 true false)
        else
          deactivated ← call (DeactivateSlot role);
          ret (deactivated, mkAttempt kind 0 true true)
    end.

(** The inverse of an attach: the profile is not selected any more, then the slot
    is neutralized. *)
Definition compensate_attach (attempt : ActionAttempt) : TP bool :=
  let role := action_role (at_kind attempt) in
  let neutralize : TP bool :=
    if (at_slotMutationId attempt =? 0)%Z then ret true
    else r ← call (CompensateSlot role (at_slotMutationId attempt)); ret r.1 in
  if negb (at_nativeAttempted attempt) then neutralize
  else
    fresh ← call Inspect;
    match fresh with
    | None => ret false
    | Some sn =>
        if negb (selected role (sn_selections sn)) then neutralize
        else
          disabled ← call (Native false role);
          if negb disabled then ret false
          else
            after ← call Inspect;
            match after with
            | None => ret false
            | Some sn' => if selected role (sn_selections sn') then ret false else neutralize
            end
    end.

(** The inverse of a detach: the slot is active again, then the profile is
    selected. *)
Definition compensate_detach (attempt : ActionAttempt) (options : ManagedPwhistorySlotOptions) : TP bool :=
  let role := action_role (at_kind attempt) in
  let reselect : TP bool :=
    enabled ← call (Native true role);
    if negb enabled then ret false
    else
      after ← call Inspect;
      ret (match after with None => false | Some sn => selected role (sn_selections sn) end) in
  if negb (at_selectionRemovedProven attempt) then ret true
  else
    owned ← call (ProveOwned role);
    if owned : bool then reselect
    else
      activation ← call (ActivateSlot role options);
      if activation.1 : bool then reselect
      else if (ac_mutationId activation.2 =? 0)%Z then ret false
      else
        _ ← call (CompensateSlot role (ac_mutationId activation.2));
        ret false.

Definition compensateAttempt (attempt : ActionAttempt) (options : ManagedPwhistorySlotOptions) : TP bool :=
  if isAttach (at_kind attempt) then compensate_attach attempt else compensate_detach attempt options.

(** * Recovery of an interrupted option update *)

Definition owned (role : ManagedPasswordSlotRole) (o : PamPasswordOwnership) : bool :=
  match role with RQuality => ficQualityOwned o | RHistoryNormal => ficHistoryOwned o | RHistoryInitial => ficHistoryInitialOwned o end.
Definition prepared (role : ManagedPasswordSlotRole) (o : PamPasswordOwnership) : bool :=
  match role with RQuality => ficQualityPrepared o | RHistoryNormal => ficHistoryPrepared o | RHistoryInitial => ficHistoryInitialPrepared o end.

(** The slot is selected and active with a prepared record, its sibling is
    untouched. *)
Definition exactState (sn : PamPasswordTopologySnapshot) (role sibling : ManagedPasswordSlotRole) : bool :=
  bool_decide (slot_state role (sn_slots sn) = SActive) && prepared role (sn_ownership sn) && negb (owned role (sn_ownership sn)) && selected role (sn_selections sn) &&
  bool_decide (slot_state sibling (sn_slots sn) = SNeutral) && negb (selected sibling (sn_selections sn)) && negb (prepared sibling (sn_ownership sn)) &&
  negb (owned sibling (sn_ownership sn)).

Definition classifyExactPreparedSelectedHistory (sn : PamPasswordTopologySnapshot) : option ManagedPasswordSlotRole :=
  if ficQualityPrepared (sn_ownership sn) then None
  else if exactState sn RHistoryNormal RHistoryInitial then Some RHistoryNormal
  else if exactState sn RHistoryInitial RHistoryNormal then Some RHistoryInitial
  else None.

(** The snapshot to go on with; nothing when the transition must stop. *)
Definition recoverExactPreparedSelectedHistoryIfNeeded (sn : PamPasswordTopologySnapshot) : TP (option PamPasswordTopologySnapshot) :=
  match classifyExactPreparedSelectedHistory sn with
  | None => ret (Some sn)
  | Some role =>
      if negb (requireUsableCurrentState sn) then ret None
      else
        completion ← call (CompletePrepared role);
        _ ← modify (set_changed (ac_changed completion.2));
        if negb completion.1 then ret None
        else
          fresh ← call Inspect;
          ret (match fresh with
               | None => None
               | Some sn' => if requireUsableCurrentState sn' && owned role (sn_ownership sn') then Some sn' else None
               end)
  end.

Definition reconcileHistoryOptions (plan : PamPasswordTopologyPlan) (options : ManagedPwhistorySlotOptions) : TP bool :=
  if negb (wantFicHistoryInitial plan) && negb (wantFicHistoryConsumer plan) then ret true
  else
    update ← call (UpdateOptions (if wantFicHistoryInitial plan then RHistoryInitial else RHistoryNormal) options);
    _ ← modify (set_changed (ac_changed update.2));
    ret update.1.

(** * Compensation *)

Fixpoint compensate_all (attempts : list ActionAttempt) (options : ManagedPwhistorySlotOptions) : TP bool :=
  match attempts with
  | [] => ret true
  | a :: attempts =>
      ok ← compensateAttempt a options;
      if ok : bool then compensate_all attempts options else ret false
  end.

(** The state before the transition is there again. *)
Definition restored_as (pre restored : PamPasswordTopologySnapshot) : bool :=
  bool_decide (sn_selections restored = sn_selections pre) && bool_decide (sn_slots restored = sn_slots pre) &&
  negb (sn_foreignQualityProducer pre && negb (sn_foreignQualityProducer restored)) && bool_decide (sn_ownership restored = sn_ownership pre).

(** [attempts]: the attempt that failed, if any, then the proven ones from the
    last to the first. *)
Definition failWithCompensation (pre : PamPasswordTopologySnapshot) (attempts : list ActionAttempt) (options : ManagedPwhistorySlotOptions) : TP bool :=
  _ ← modify set_compensated;
  ok ← compensate_all attempts options;
  if negb ok then _ ← modify (set_changed true); ret false
  else
    restored ← call Inspect;
    match restored with
    | None => _ ← modify (set_changed true); ret false
    | Some sn =>
        if restored_as pre sn && requireUsableCurrentState sn
        then _ ← modify (set_restored (sn_class sn).1); ret false
        else _ ← modify (set_changed true); ret false
    end.

(** * The transition *)

(** [proven]: the attempts proven so far, last first. *)
Fixpoint run_actions (pre : PamPasswordTopologySnapshot) (plan : PamPasswordTopologyPlan) (options : ManagedPwhistorySlotOptions)
    (actions : list PamPasswordPlanActionKind) (x : Expected) (proven : list ActionAttempt) : TP bool :=
  match actions with
  | [] =>
      reconciled ← reconcileHistoryOptions plan options;
      if negb reconciled then ret false
      else
        final ← call Inspect;
        match final with
        | None => failWithCompensation pre proven options
        | Some sn =>
            if requireUsableCurrentState sn && bool_decide ((sn_class sn).1 = desiredTopologyClass plan (sn_foreignQualityProducer sn))
            then _ ← modify (set_succeeded (sn_class sn).1); ret true
            else failWithCompensation pre proven options
        end
  | kind :: actions =>
      gate ← driftGate x;
      if negb gate then failWithCompensation pre proven options
      else
        executed ← executeAction kind options;
        if negb executed.1 then failWithCompensation pre (executed.2 :: proven) options
        else
          _ ← modify (set_changed true);
          gate ← driftGate (expect kind x);
          if negb gate then failWithCompensation pre (executed.2 :: proven) options
          else
            _ ← modify (set_executed kind);
            run_actions pre plan options actions (expect kind x) (executed.2 :: proven)
  end.

Definition transition (qualityRequested historyRequested : bool) (options : ManagedPwhistorySlotOptions) : TP bool :=
  inspected ← call Inspect;
  match inspected with
  | None => ret false
  | Some sn =>
      recovered ← recoverExactPreparedSelectedHistoryIfNeeded sn;
      match recovered with
      | None => ret false
      | Some pre =>
          if negb (requireUsableCurrentState pre) then ret false
          else
            _ ← modify (set_before (sn_class pre).1);
            let plan := planPamPasswordTopology (sn_topology pre) qualityRequested historyRequested (sn_ownership pre) in
            if negb (plan_success plan) || negb (bool_decide (unownedSelectionsPreserved plan = [])) then ret false
            else match plan_actions plan with
                 | [] =>
                     fresh ← call Inspect;
                     match fresh with
                     | None => ret false
                     | Some sn =>
                         if requireUsableCurrentState sn && bool_decide ((sn_class sn).1 = desiredTopologyClass plan (sn_foreignQualityProducer sn)) then
                           reconciled ← reconcileHistoryOptions plan options;
                           if negb reconciled then ret false
                           else _ ← modify (set_succeeded (sn_class sn).1); ret true
                         else ret false
                     end
                 | actions => run_actions pre plan options actions (expected_of pre) []
                 end
      end
  end.

(** * After an ordinary application *)

Definition bound (sn : PamPasswordTopologySnapshot) (capability : ManagedPasswordCapability) (r : MutationRecord) : bool :=
  bool_decide (status r = Applied) &&
  match capability with
  | CapQuality => ficQualitySelected (sn_selections sn) && ficQualityOwned (sn_ownership sn) && bool_decide (sn_qualityMutationId sn = mid r)
  | CapHistory =>
      ficHistorySelected (sn_selections sn) && ficHistoryOwned (sn_ownership sn) && bool_decide (sn_historyMutationId sn = mid r) ||
      ficHistoryInitialSelected (sn_selections sn) && ficHistoryInitialOwned (sn_ownership sn) && bool_decide (sn_historyInitialMutationId sn = mid r)
  end.

Definition confirm_capability (sn : PamPasswordTopologySnapshot) (capability : ManagedPasswordCapability) : TP bool :=
  active ← call (ActiveRecords (mkRef "IDENTITY_ACCESS" "PAM" (capabilityToken capability)));
  ret (match active with [] => true | [r] => bound sn capability r | _ => false end).

Definition confirmApplyOwnership : TP bool :=
  inspected ← call Inspect;
  match inspected with
  | None => ret false
  | Some sn =>
      if negb (requireUsableCurrentState sn) then ret false
      else
        quality ← confirm_capability sn CapQuality;
        if negb quality then ret false else confirm_capability sn CapHistory
  end.
