(* ===== verification/PamTransitionFacts.v ===== *)
(** Plans lead safely to the requested topology, and the executor never leaves
    the order that keeps a selected profile on an active slot. *)

From S2P Require Import Prelude PolicyModel MutationRecord MutationValid Effects PamSlots PamTopology PamTransition.
Open Scope string_scope.
Open Scope list_scope.
Open Scope prog_scope.

(** * Plans *)

(** The states an expected plan goes through, the first one included. *)
Fixpoint states (actions : list PamPasswordPlanActionKind) (x : Expected) : list Expected :=
  x :: match actions with [] => [] | a :: actions => states actions (expect a x) end.

Definition safe_state (x : Expected) : bool :=
  evaluatePamPasswordC2SelectionSafety (xp_selections x) (xp_slots x) (xp_foreign x) && usable_class (classifyPamPasswordTopology (topology_of (xp_selections x) (xp_foreign x))).

Definition wanted (plan : PamPasswordTopologyPlan) : PamPasswordSelections := mkSelections (wantFicQuality plan) (wantFicHistoryConsumer plan) (wantFicHistoryInitial plan).

(** An attach selects what is not selected, a detach removes what is selected and
    owned. *)
Definition legitimate (s : PamPasswordSelections) (o : PamPasswordOwnership) (kind : PamPasswordPlanActionKind) : bool :=
  if isAttach kind then negb (selected (action_role kind) s) else selected (action_role kind) s && owned (action_role kind) o.

Definition plan_checks (x : Expected) (q h : bool) (o : PamPasswordOwnership) : bool :=
  let plan := planPamPasswordTopology (topology_of (xp_selections x) (xp_foreign x)) q h o in
  let final := List.last (states (plan_actions plan) x) x in
  forallb safe_state (states (plan_actions plan) x) && bool_decide (xp_selections final = wanted plan) &&
  bool_decide ((classifyPamPasswordTopology (topology_of (wanted plan) (xp_foreign x))).1 = desiredTopologyClass plan (xp_foreign x)) &&
  forallb (legitimate (xp_selections x) o) (plan_actions plan).

Lemma slot_agrees_exact b st : slot_agrees b st = true ↔ st = if b then SActive else SNeutral.
Proof. destruct b, st; vm_compute; split; congruence. Qed.

(** Where selections and slots agree, the slots follow from the selections. *)
Definition slots_of (s : PamPasswordSelections) : PamPasswordC2SlotStates :=
  let st b := if b : bool then SActive else SNeutral in mkSlotStates (st (ficQualitySelected s)) (st (ficHistorySelected s)) (st (ficHistoryInitialSelected s)).

Lemma safe_slots s st f : evaluatePamPasswordC2SelectionSafety s st f = true → st = slots_of s.
Proof.
  unfold evaluatePamPasswordC2SelectionSafety, slots_of. destruct (_ && _); [done|]. destruct st as [a b c]. cbn [st_quality st_history st_historyInitial].
  destruct (slot_agrees _ a) eqn:Ha; [|done]. destruct (slot_agrees _ b) eqn:Hb; [|done]. destruct (slot_agrees _ c) eqn:Hc; [|done]. intros _.
  apply slot_agrees_exact in Ha, Hb, Hc. by rewrite Ha, Hb, Hc.
Qed.

Lemma plan_checked x q h o : safe_state x = true →
  let plan := planPamPasswordTopology (topology_of (xp_selections x) (xp_foreign x)) q h o in
  plan_success plan = true → unownedSelectionsPreserved plan = [] → plan_checks x q h o = true.
Proof.
  intros Hs. destruct x as [s st f]. pose proof Hs as [Hsafe _]%andb_true_iff. cbn [xp_selections xp_slots xp_foreign] in Hsafe. apply safe_slots in Hsafe as ->.
  revert Hs. destruct s as [a b c], o as [oa ob oc p1 p2 p3]. cbn zeta.
  destruct a, b, c, f; try (vm_compute; discriminate); intros _; destruct oa, ob, oc, q, h; vm_compute; congruence.
Qed.

Lemma selected_other role role' b s : role' ≠ role → selected role' (set_selected role b s) = selected role' s.
Proof. by destruct role, role'. Qed.

(** * The order of the calls *)

Notation tevent := (event tresp).

Definition nativeOf (role : ManagedPasswordSlotRole) (c : TCall) : bool := match c with Native _ r => bool_decide (r = role) | _ => false end.

(** An inspection showed the profile unselected, and the tool was not asked about
    it since. *)
Definition known_unselected (role : ManagedPasswordSlotRole) (h : list tevent) : Prop :=
  ∃ later sn earlier, h = later ++ Ev (resp := tresp) Inspect (Some sn) :: earlier ∧ selected role (sn_selections sn) = false ∧ ∀ e, e ∈ later → nativeOf role (ev_call e) = false.

(** The writer has just proven the slot active. *)
Definition proves_active (role : ManagedPasswordSlotRole) (e : tevent) : Prop :=
  let 'Ev c x := e in
  (match c as c0 return tresp c0 → Prop with
   | ActivateSlot r _ => λ x, r = role ∧ x.1 = true
   | ProveOwned r => λ x, r = role ∧ x = true
   | _ => λ _, False
   end) x.
Definition known_active (role : ManagedPasswordSlotRole) (h : list tevent) : Prop := match h with e :: _ => proves_active role e | [] => False end.

Ltac prog_cases := repeat match goal with
  | |- _ ∧ _ => split
  | |- ∀ _, _ => intro
  | |- True => exact I
  | |- context [if ?b then _ else _] => destruct b eqn:?; cbn
  | |- context [match ?o with Some _ => _ | None => _ end] => destruct o eqn:?; cbn
  end.

Section order.
(** The options that were asked for. *)
Context (wished : ManagedPwhistorySlotOptions).

(** A profile is selected only on a slot just proven active; a slot is written
    only under a profile known to be unselected, or with new options, which are
    the ones that were asked for. *)
Definition order (h : list tevent) (c : TCall) : Prop :=
  match c with
  | Native true role => known_active role h
  | ActivateSlot role _ | DeactivateSlot role | CompensateSlot role _ => known_unselected role h
  | UpdateOptions _ options => options = wished
  | _ => True
  end.

Lemma unselected_here role h sn : selected role (sn_selections sn) = false → known_unselected role (Ev (resp := tresp) Inspect (Some sn) :: h).
Proof. intros Hs. exists [], sn, h. split; [done|]. split; [done|]. by intros e ?%not_elem_of_nil. Qed.

Lemma unselected_later role new h : known_unselected role h → (∀ e, e ∈ new → nativeOf role (ev_call e) = false) → known_unselected role (new ++ h).
Proof.
  intros (later & sn & earlier & -> & Hs & Hl) Hn. exists (new ++ later), sn, earlier. split; [by rewrite app_assoc|]. split; [done|]. intros e [?|?]%elem_of_app; auto.
Qed.

Lemma unselected_cons role e h : known_unselected role h → nativeOf role (ev_call e) = false → known_unselected role (e :: h).
Proof. intros Hk He. apply (unselected_later role [e]); [done|]. by intros e' ->%list_elem_of_singleton. Qed.

(** What compensating an attempt relies on. *)
Definition compensable (h : list tevent) (a : ActionAttempt) : Prop :=
  (if isAttach (at_kind a) then at_nativeAttempted a = false else at_selectionRemovedProven a = true) → known_unselected (action_role (at_kind a)) h.

(** Only this profile is touched. *)
Definition only_native (role : ManagedPasswordSlotRole) (_ : list tevent) (c : TCall) : Prop := ∀ role', role' ≠ role → nativeOf role' c = false.

Lemma compensate_order h r a options : compensable h a → hoare tresp order h r (compensateAttempt a options) (λ _ _ _, True).
Proof.
  intros Ha. unfold compensable in Ha. unfold compensateAttempt. destruct (isAttach (at_kind a)) eqn:Hk.
  - unfold hoare, compensate_attach. destruct (at_slotMutationId a =? 0)%Z.
    + destruct (at_nativeAttempted a); cbn; prog_cases; done.
    + destruct (at_nativeAttempted a); cbn; [|split; [by apply Ha|done]].
      split; [done|]. intros [sn|]; cbn; [|done]. destruct (selected _ (sn_selections sn)) eqn:Hs; cbn; [|split; [by apply unselected_here|done]].
      split; [done|]. intros []; cbn; [|done]. split; [done|]. intros [sn'|]; cbn; [|done]. destruct (selected _ (sn_selections sn')) eqn:Hs'; cbn; [done|]. split; [by apply unselected_here|done].
  - unfold hoare, compensate_detach. destruct (at_selectionRemovedProven a); cbn; [|done]. specialize (Ha eq_refl). split; [done|]. intros []; cbn.
    + split; [done|]. intros []; cbn; [|done]. split; [done|]. by intros [sn|].
    + split; [by apply unselected_cons|]. intros [[] act]; cbn.
      * split; [done|]. intros []; cbn; [|done]. split; [done|]. by intros [sn|].
      * destruct (_ =? _)%Z; cbn; [done|]. split; [|done]. by apply unselected_cons; [apply unselected_cons|].
Qed.

Lemma compensate_quiet h r a options : hoare tresp (only_native (action_role (at_kind a))) h r (compensateAttempt a options) (λ _ _ _, True).
Proof.
  assert (∀ b h, only_native (action_role (at_kind a)) h (Native b (action_role (at_kind a)))) as Hn.
  { intros b h' role' Hne. cbn. by apply bool_decide_eq_false_2. }
  unfold hoare, compensateAttempt, compensate_attach, compensate_detach. destruct (isAttach (at_kind a)), (at_slotMutationId a =? 0)%Z, (at_nativeAttempted a), (at_selectionRemovedProven a); cbn;
    prog_cases; try done; try apply Hn.
Qed.

Definition attempt_role (a : ActionAttempt) : ManagedPasswordSlotRole := action_role (at_kind a).

(** The other profiles stay as they were known. *)
Lemma compensate_frame h r a options : compensable h a →
  hoare tresp order h r (compensateAttempt a options) (λ h' _ _, ∀ role, role ≠ attempt_role a → known_unselected role h → known_unselected role h').
Proof.
  intros Ha. pose proof (compensate_order h r a options Ha) as H1. pose proof (compensate_quiet h r a options) as H2. unfold hoare in *.
  assert (ensures tresp (λ _ c, ∀ role', role' ≠ attempt_role a → nativeOf role' c = false) (λ _ _, True) h (compensateAttempt a options r)) as H3 by exact H2.
  apply ensures_new in H3. pose proof (ensures_and _ _ _ _ _ _ _ H1 H3) as H4. eapply ensures_mono; [eapply ensures_protocol; [exact H4|]|]; cbv beta.
  - by intros h' c [? _].
  - intros h' x [_ [_ (new & -> & Hnew)]] role Hne Hk. apply unselected_later; [done|]. intros e He. by apply Hnew.
Qed.

Lemma compensate_all_order attempts options : ∀ h r, NoDup (attempt_role <$> attempts) → Forall (compensable h) attempts →
  hoare tresp order h r (compensate_all attempts options) (λ _ _ _, True).
Proof.
  induction attempts as [|a attempts IH]; intros h r Hd Hall; [done|]. cbn [compensate_all fmap list_fmap] in *. apply NoDup_cons in Hd as [Hni Hd]. apply Forall_cons in Hall as [Ha Hall].
  apply hoare_bind. eapply hoare_mono; [by apply compensate_frame|]. intros h' r' [] Hf; [|done]. apply IH; [done|]. apply Forall_forall. intros b Hb Hc. apply Hf.
  - intros He. apply Hni. unfold attempt_role in He. change (action_role (at_kind b)) with (attempt_role b) in He. unfold attempt_role in *. rewrite <- He. by apply (list_elem_of_fmap_2 attempt_role).
  - eapply Forall_forall in Hall; [|exact Hb]. by apply Hall.
Qed.

Lemma fail_order pre attempts options h r : NoDup (attempt_role <$> attempts) → Forall (compensable h) attempts →
  hoare tresp order h r (failWithCompensation pre attempts options) (λ _ _ _, True).
Proof.
  intros Hd Hall. unfold failWithCompensation. apply hoare_bind, hoare_modify, hoare_bind. eapply hoare_mono; [by apply compensate_all_order|].
  intros h' r' [] _; cbn; [|done]. unfold hoare; cbn. split; [done|]. intros [sn|]; cbn; [|done]. by destruct (_ && _).
Qed.

Definition keeps_others (role : ManagedPasswordSlotRole) (h h' : list tevent) : Prop := ∀ role', role' ≠ role → known_unselected role' h → known_unselected role' h'.

(** The attempts stay compensable while another profile is worked on. *)
Lemma compensable_kept role h h' (attempts : list ActionAttempt) : keeps_others role h h' → role ∉ attempt_role <$> attempts → Forall (compensable h) attempts → Forall (compensable h') attempts.
Proof.
  intros Hk Hni. rewrite !Forall_forall. intros Hall a Ha Hc. apply Hk; [|by apply Hall]. intros He. apply Hni. rewrite <- He. by apply (list_elem_of_fmap_2 attempt_role).
Qed.

Lemma compensable_seen h o (attempts : list ActionAttempt) : Forall (compensable h) attempts → Forall (compensable (Ev (resp := tresp) Inspect o :: h)) attempts.
Proof. rewrite !Forall_forall. intros Hall a Ha Hc. apply unselected_cons; [by apply Hall|done]. Qed.

Lemma execute_order kind options h r : (isAttach kind = true → known_unselected (action_role kind) h) →
  hoare tresp order h r (executeAction kind options) (λ h' _ res, compensable h' res.2 ∧ at_kind res.2 = kind ∧ keeps_others (action_role kind) h h').
Proof.
  intros Hk. unfold executeAction, hoare. destruct (isAttach kind) eqn:Ha; cbn.
  - specialize (Hk eq_refl). split; [done|]. intros [[] act]; cbn.
    + split; [done|]. intros b. cbn. split; [unfold compensable; cbn; by rewrite Ha|]. split; [done|]. intros role Hne Hr. apply unselected_cons; [by apply unselected_cons|cbn; by apply bool_decide_eq_false_2].
    + split; [intros _; cbn; by apply unselected_cons|]. split; [done|]. intros role Hne Hr. by apply unselected_cons.
  - split; [done|]. intros b. cbn. split; [done|].
    assert (∀ (o : option PamPasswordTopologySnapshot) role, role ≠ action_role kind → known_unselected role h → known_unselected role (Ev (resp := tresp) Inspect o :: Ev (Native false (action_role kind)) b :: h)) as Hkeep.
    { intros o role Hne Hr. apply unselected_cons; [|done]. apply unselected_cons; [done|cbn; by apply bool_decide_eq_false_2]. }
    intros [sn|]; cbn; [|split; [unfold compensable; cbn; by rewrite Ha|]; split; [done|]; intros role; by apply Hkeep].
    destruct (selected _ _) eqn:Hs; cbn; [split; [unfold compensable; cbn; by rewrite Ha|]; split; [done|]; intros role; by apply Hkeep|].
    destruct (included _ _); cbn; [split; [unfold compensable; cbn; by rewrite Ha|]; split; [done|]; intros role; by apply Hkeep|].
    split; [by apply unselected_here|]. intros d. cbn. split; [intros _; cbn; apply unselected_cons; [by apply unselected_here|done]|]. split; [done|]. intros role Hne Hr. apply unselected_cons; [by apply Hkeep|done].
Qed.

(** The drift gate looks, and what it accepts is the expected state. *)
Lemma gate_order x h r : hoare tresp order h r (driftGate x) (λ h' _ ok, ∃ o, h' = Ev (resp := tresp) Inspect o :: h ∧ (ok = true → ∃ sn, o = Some sn ∧ expected_of sn = x ∧ requireUsableCurrentState sn = true)).
Proof.
  unfold driftGate, hoare. cbn. split; [done|]. intros o. exists o. split; [done|]. destruct o as [sn|]; [|done]. intros [?%bool_decide_eq_true ?]%andb_true_iff. by exists sn.
Qed.

Lemma reconcile_order plan h r : hoare tresp order h r (reconcileHistoryOptions plan wished) (λ h' _ _, ∀ role, known_unselected role h → known_unselected role h').
Proof. unfold reconcileHistoryOptions, hoare. destruct (_ && _); cbn; [auto|]. split; [done|]. intros x role Hr. by apply unselected_cons. Qed.

Lemma actions_order pre plan actions : ∀ x proven h r,
  NoDup ((attempt_role <$> proven) ++ (action_role <$> actions)) → Forall (compensable h) proven →
  (∀ kind, kind ∈ actions → isAttach kind = true → selected (action_role kind) (xp_selections x) = false) →
  hoare tresp order h r (run_actions pre plan wished actions x proven) (λ _ _ _, True).
Proof.
  induction actions as [|kind actions IH]; intros x proven h r Hd Hall Hx; cbn [run_actions].
  - rewrite app_nil_r in Hd. apply hoare_bind. eapply hoare_mono; [apply reconcile_order|]. intros h' r' [] Hk; cbn; [|done].
    assert (Forall (compensable h') proven) as Hall'. { eapply Forall_impl; [exact Hall|]. intros a Ha Hc. apply Hk. by apply Ha. }
    unfold sbind at 1. unfold hoare; cbn. split; [done|]. intros [sn|]; cbn; [destruct (_ && _); [done|]|]; apply fail_order; try done; by apply compensable_seen.
  - assert (action_role kind ∉ attempt_role <$> proven ∧ NoDup (attempt_role <$> proven) ∧ NoDup (action_role kind :: (attempt_role <$> proven) ++ (action_role <$> actions))) as (Hni & Hdp & Hd').
    { cbn in Hd. apply NoDup_app in Hd as (H1 & H2 & H3). apply NoDup_cons in H3 as [H3 H4]. split; [intros Hin; apply (H2 _ Hin); by left|]. split; [done|].
      apply NoDup_cons. split; [rewrite elem_of_app; intros [Hin|Hin]; [apply (H2 _ Hin); by left|done]|]. apply NoDup_app. split; [done|]. split; [|done]. intros role Hin Hin'. apply (H2 _ Hin). by right. }
    apply hoare_bind. eapply hoare_mono; [apply gate_order|]. intros h1 r1 ok (o & -> & Ho). destruct ok; cbn [negb]; [|apply fail_order; [done|by apply compensable_seen]].
    destruct (Ho eq_refl) as (sn & -> & Hxs & _). assert (isAttach kind = true → known_unselected (action_role kind) (Ev (resp := tresp) Inspect (Some sn) :: h)) as Hk.
    { intros Ha. apply unselected_here. change (sn_selections sn) with (xp_selections (expected_of sn)). rewrite Hxs. apply Hx; [by left|done]. }
    apply hoare_bind. eapply hoare_mono; [by apply execute_order|]. intros h2 r2 [ok a] (Hca & Hka & Hkeep). cbn [fst snd] in *.
    assert (Forall (compensable h2) (a :: proven)) as Hall2. { apply Forall_cons. split; [done|]. eapply compensable_kept; [exact Hkeep|done|by apply compensable_seen]. }
    assert (attempt_role a = action_role kind) as Har by (unfold attempt_role; by rewrite Hka).
    assert (NoDup (attempt_role <$> a :: proven)) as Hda by (cbn; rewrite Har; by apply NoDup_cons).
    destruct ok; cbn [negb]; [|by apply fail_order]. apply hoare_bind, hoare_modify, hoare_bind. eapply hoare_mono; [apply gate_order|]. intros h3 r3 ok (o & -> & _).
    destruct ok; cbn [negb]; [|apply fail_order; [done|by apply compensable_seen]]. apply hoare_bind, hoare_modify. apply IH; [cbn; by rewrite Har|by apply compensable_seen|].
    intros k Hin Ha. cbn [expect xp_selections]. unfold expect_selections. rewrite selected_other; [apply Hx; [by right|done]|].
    intros He. apply NoDup_cons in Hd' as [Hd' _]. apply Hd'. rewrite elem_of_app. right. rewrite <- He. by apply list_elem_of_fmap_2.
Qed.

(** A plan has one action per profile, and attaches what is not selected. *)
Lemma plan_actions_ok t q h o : let plan := planPamPasswordTopology t q h o in
  NoDup (action_role <$> plan_actions plan) ∧ ∀ kind, kind ∈ plan_actions plan → isAttach kind = true → selected (action_role kind) (t_selections t) = false.
Proof.
  destruct t as [pr hi [a b c] f], o as [oa ob oc p1 p2 p3]. cbn zeta.
  assert (forallb (λ kind, negb (isAttach kind) || negb (selected (action_role kind) (mkSelections a b c)))
    (plan_actions (planPamPasswordTopology (mkTopology pr hi (mkSelections a b c) f) q h (mkOwnership oa ob oc p1 p2 p3))) = true ∧
    bool_decide (NoDup (action_role <$> plan_actions (planPamPasswordTopology (mkTopology pr hi (mkSelections a b c) f) q h (mkOwnership oa ob oc p1 p2 p3)))) = true) as [H1 H2]
    by (destruct a, b, c, f, q, h, oa, ob, oc; vm_compute; by split).
  split; [by apply bool_decide_eq_true in H2|]. intros kind Hk%list_elem_of_In Ha. eapply forallb_forall in H1; [|exact Hk]. rewrite Ha in H1. by apply negb_true_iff in H1.
Qed.

Lemma recover_order sn h r : hoare tresp order h r (recoverExactPreparedSelectedHistoryIfNeeded sn) (λ _ _ _, True).
Proof.
  unfold recoverExactPreparedSelectedHistoryIfNeeded, hoare. destruct (classifyExactPreparedSelectedHistory sn); [|done]. destruct (negb _); [done|]. cbn. split; [done|].
  intros [[] act]; cbn; [|done]. split; [done|]. by intros [sn'|].
Qed.

(** The transition keeps the order, whatever the answers are. *)
Lemma transition_order q h h0 r : hoare tresp order h0 r (transition q h wished) (λ _ _ _, True).
Proof.
  unfold transition. apply hoare_bind, hoare_call; [done|]. intros [sn|]; [|done]. apply hoare_bind. eapply hoare_mono; [apply recover_order|]. intros h1 r1 [pre|] _; [|done].
  destruct (negb _); [done|]. apply hoare_bind, hoare_modify. cbn zeta. destruct (negb _ || _); [done|].
  destruct (plan_actions_ok (sn_topology pre) q h (sn_ownership pre)) as [Hd Hx]. destruct (plan_actions _) as [|kind actions] eqn:Hp.
  - apply hoare_bind, hoare_call; [done|]. intros [sn'|]; [|done]. destruct (_ && _); [|done]. apply hoare_bind. eapply hoare_mono; [apply reconcile_order|]. by intros h2 r2 [] _.
  - apply actions_order; [done|by constructor|]. intros k Hk Ha. by apply (Hx k).
Qed.
End order.
