(* ===== verification/PamTruth.v ===== *)
(** What the result of a transition says is backed by its inspections. *)

From S2P Require Import Prelude PolicyModel MutationRecord MutationValid Effects PamSlots PamTopology PamTransition PamTransitionFacts.
Open Scope string_scope.
Open Scope list_scope.
Open Scope prog_scope.

(** * Histories *)

Definition seen (e : tevent) : option (option PamPasswordTopologySnapshot) :=
  let 'Ev c x := e in (match c as c0 return tresp c0 → option (option PamPasswordTopologySnapshot) with Inspect => λ x, Some x | _ => λ _, None end) x.

(** The last inspection of a history. *)
Fixpoint last_seen (h : list tevent) : option PamPasswordTopologySnapshot :=
  match h with [] => None | e :: h => match seen e with Some o => o | None => last_seen h end end.

(** The first one that gave a snapshot. *)
Fixpoint first_seen (h : list tevent) : option PamPasswordTopologySnapshot :=
  match h with [] => None | e :: h => match first_seen h with Some sn => Some sn | None => default None (seen e) end end.

(** The state a transition starts from: the first snapshot of the history, or,
    where an interrupted update was completed, the first one after that. *)
Definition completes (c : TCall) : bool := match c with CompletePrepared _ => true | _ => false end.
Fixpoint baseline (h : list tevent) : option PamPasswordTopologySnapshot :=
  match h with
  | [] => None
  | e :: h => if completes (ev_call e) then None else match baseline h with Some sn => Some sn | None => default None (seen e) end
  end.

(** The call left the machine alone, or says so. *)
Definition leaves_alone (e : tevent) : Prop :=
  let 'Ev c x := e in
  (match c as c0 return tresp c0 → Prop with
   | Native _ _ | ActivateSlot _ _ | DeactivateSlot _ | CompensateSlot _ _ => λ _, False
   | CompletePrepared _ | UpdateOptions _ _ => λ x, ac_changed x.2 = false
   | _ => λ _, True
   end) x.
Definition untouched (h : list tevent) : Prop := Forall leaves_alone h.

Lemma untouched_look o h : untouched h → untouched (Ev (resp := tresp) Inspect o :: h).
Proof. intros Hu. by apply Forall_cons. Qed.

Lemma first_seen_app sn new h : first_seen h = Some sn → first_seen (new ++ h) = Some sn.
Proof. intros Hh. induction new as [|e new IH]; [done|]. cbn. by rewrite IH. Qed.
Lemma baseline_app sn new h : (∀ e, e ∈ new → completes (ev_call e) = false) → baseline h = Some sn → baseline (new ++ h) = Some sn.
Proof. intros Hn Hh. induction new as [|e new IH]; [done|]. cbn. rewrite (Hn e) by by left. rewrite IH; [done|]. intros e' He. apply Hn. by right. Qed.

(** * Requests *)

Definition provides_quality (c : PamPasswordTopologyClass) : bool :=
  bool_decide (c ∈ [TFicQuality; TFicQualityPlusFicHistory; TForeignQuality; TForeignQualityPlusFicHistory]).
Definition provides_history (c : PamPasswordTopologyClass) : bool := bool_decide (c ∈ [TFicHistoryInitial; TFicQualityPlusFicHistory; TForeignQualityPlusFicHistory]).

Lemma desired_provides t q h o : let plan := planPamPasswordTopology t q h o in plan_success plan = true →
  let c := desiredTopologyClass plan (t_foreignQualityProducer t) in (q = true → provides_quality c = true) ∧ (h = true → provides_history c = true).
Proof.
  destruct t as [pr hi [a b c] f], o as [oa ob oc p1 p2 p3]. cbn zeta. destruct a, b, c, f, q, h, oa, ob, oc; vm_compute; intros; split; congruence.
Qed.

(** * The result *)

Section truth.
Context (q hr : bool).

Definition plan_of (pre : PamPasswordTopologySnapshot) : PamPasswordTopologyPlan := planPamPasswordTopology (sn_topology pre) q hr (sn_ownership pre).

(** The last inspection proves the topology that was asked for. *)
Definition reached (h : list tevent) (after : PamPasswordTopologyClass) : Prop :=
  ∃ pre sn, baseline h = Some pre ∧ last_seen h = Some sn ∧ requireUsableCurrentState sn = true ∧ after = (sn_class sn).1 ∧
    after = desiredTopologyClass (plan_of pre) (sn_foreignQualityProducer sn) ∧
    (sn_foreignQualityProducer sn = sn_foreignQualityProducer pre → (q = true → provides_quality after = true) ∧ (hr = true → provides_history after = true)).

(** The last inspection proves that the state the transition started from is
    there again. *)
Definition back (h : list tevent) : Prop := ∃ pre sn, baseline h = Some pre ∧ last_seen h = Some sn ∧ restored_as pre sn = true ∧ requireUsableCurrentState sn = true.

Record truthful (h : list tevent) (r : PamPasswordTransitionResult) (ok : bool) : Prop := {
  tt_success : tr_success r = ok;
  tt_reached : ok = true → reached h (tr_after r);
  tt_restored : tr_compensatedStateProven r = true → ok = false ∧ back h;
  tt_changed : tr_changedSystemState r = false → tr_compensatedStateProven r = true ∨ untouched h
}.

(** So far nothing is claimed that is not so. *)
Record pending (pre : PamPasswordTopologySnapshot) (h : list tevent) (r : PamPasswordTransitionResult) : Prop := {
  pd_success : tr_success r = false;
  pd_restored : tr_compensatedStateProven r = false;
  pd_baseline : baseline h = Some pre
}.

Definition any (_ : list tevent) (_ : TCall) : Prop := True.

(** From the start on no interrupted update is completed any more. *)
Definition steady (_ : list tevent) (c : TCall) : Prop := completes c = false.
Lemma hoare_steady {A} h r (p : TP A) (Q : list tevent → PamPasswordTransitionResult → A → Prop) : hoare tresp steady h r p Q →
  hoare tresp steady h r p (λ h' r' a, Q h' r' a ∧ ∃ new, h' = new ++ h ∧ ∀ e, e ∈ new → completes (ev_call e) = false).
Proof. apply (ensures_new tresp (λ c, completes c = false)). Qed.
Lemma steady_any {A} h r (p : TP A) (Q : list tevent → PamPasswordTransitionResult → A → Prop) : hoare tresp steady h r p Q → hoare tresp any h r p Q.
Proof. intros Hp. by eapply (ensures_protocol _ _ steady). Qed.

Lemma compensate_result a options h r : hoare tresp steady h r (compensateAttempt a options) (λ _ r' _, r' = r).
Proof.
  unfold hoare, compensateAttempt, compensate_attach, compensate_detach. destruct (isAttach (at_kind a)), (at_slotMutationId a =? 0)%Z, (at_nativeAttempted a), (at_selectionRemovedProven a); cbn;
    prog_cases; done.
Qed.

Lemma compensate_all_result attempts options : ∀ h r, hoare tresp steady h r (compensate_all attempts options) (λ _ r' _, r' = r).
Proof.
  induction attempts as [|a attempts IH]; intros h r; [done|]. cbn [compensate_all]. apply hoare_bind. eapply hoare_mono; [apply compensate_result|]. intros h' r' [] ->; [apply IH|done].
Qed.

Lemma fail_truthful pre attempts options h r : pending pre h r → hoare tresp steady h r (failWithCompensation pre attempts options) truthful.
Proof.
  intros [Hs Hr Hi]. unfold failWithCompensation. apply hoare_bind, hoare_modify, hoare_bind. eapply hoare_mono; [apply hoare_steady, compensate_all_result|]. intros h' r' ok [-> (new & -> & Hnew)]. cbn beta.
  destruct ok; cbn [negb].
  - unfold hoare; cbn. split; [done|]. intros [sn|]; cbn; [destruct (restored_as pre sn && requireUsableCurrentState sn) eqn:Hok; cbn|].
    + apply andb_true_iff in Hok as [Hok Hu]. split; cbn; [done|done| |by left]. intros _. split; [done|]. exists pre, sn. split; [cbn; by rewrite (baseline_app pre)|done].
    + split; cbn; rewrite ?orb_true_r; try done. by rewrite Hr.
    + split; cbn; rewrite ?orb_true_r; try done. by rewrite Hr.
  - unfold hoare; cbn. split; cbn; rewrite ?orb_true_r; try done. by rewrite Hr.
Qed.

Lemma execute_result kind options h r : hoare tresp steady h r (executeAction kind options) (λ _ r' _, r' = r).
Proof. unfold hoare, executeAction. destruct (isAttach kind); cbn; prog_cases; done. Qed.
Lemma gate_result x h r : hoare tresp steady h r (driftGate x) (λ h' r' _, r' = r ∧ ∃ o, h' = Ev (resp := tresp) Inspect o :: h).
Proof. unfold hoare, driftGate. cbn. split; [done|]. intros o. split; [done|]. by exists o. Qed.

Lemma pending_app pre new h r : (∀ e, e ∈ new → completes (ev_call e) = false) → pending pre h r → pending pre (new ++ h) r.
Proof. intros Hn [? ? ?]. split; [done|done|by apply baseline_app]. Qed.
Lemma pending_look pre o h r : pending pre h r → pending pre (Ev (resp := tresp) Inspect o :: h) r.
Proof. apply (pending_app pre [_]). by intros e ->%list_elem_of_singleton. Qed.

(** The end of a reconciliation. *)
Lemma reconcile_result plan options h r : hoare tresp steady h r (reconcileHistoryOptions plan options) (λ h' r' _,
  tr_success r' = tr_success r ∧ tr_compensatedStateProven r' = tr_compensatedStateProven r ∧ last_seen h' = last_seen h ∧ (∃ new, h' = new ++ h ∧ ∀ e, e ∈ new → completes (ev_call e) = false) ∧
  (tr_changedSystemState r' = false → tr_changedSystemState r = false ∧ (untouched h → untouched h'))).
Proof.
  unfold hoare, reconcileHistoryOptions. destruct (_ && _); cbn; [split_and!; try done; exists []; by split; [|intros e He; inversion He]|]. split; [done|]. intros [ok act]. cbn. split_and!; try done; [exists [Ev (resp := tresp) (UpdateOptions (if wantFicHistoryInitial plan then RHistoryInitial else RHistoryNormal) options) (ok, act)]; by split; [|intros e ->%list_elem_of_singleton]|].
  intros [Hc Ha]%orb_false_iff. split; [done|]. intros Hu. by apply Forall_cons.
Qed.

Lemma success_truthful pre sn h' r : pending pre h' r → plan_success (plan_of pre) = true → last_seen h' = Some sn → requireUsableCurrentState sn = true →
  (sn_class sn).1 = desiredTopologyClass (plan_of pre) (sn_foreignQualityProducer sn) → (tr_changedSystemState r = false → untouched h') →
  hoare tresp steady h' r (_ ← modify (set_succeeded (sn_class sn).1); ret true) truthful.
Proof.
  intros [Hs Hr Hi] Hp Hl Hu Hc Ht. unfold hoare; cbn. split; cbn.
  - done.
  - intros _. exists pre, sn. split_and!; try done. intros Hf. rewrite Hc, Hf. by apply (desired_provides (sn_topology pre) q hr (sn_ownership pre)).
  - by rewrite Hr.
  - intros Hch. right. by apply Ht.
Qed.

Lemma actions_truthful pre options actions : plan_success (plan_of pre) = true → ∀ x proven h r, pending pre h r → (tr_changedSystemState r = false → untouched h) →
  hoare tresp steady h r (run_actions pre (plan_of pre) options actions x proven) truthful.
Proof.
  intros Hp. induction actions as [|kind actions IH]; intros x proven h r Hpd Hun; cbn [run_actions].
  - apply hoare_bind. eapply hoare_mono; [apply reconcile_result|]. intros h1 r1 ok (Hs & Hr & _ & (new & -> & Hnew) & Hc). pose proof Hpd as [Hps Hpr Hpi]. destruct ok; cbn [negb].
    + apply hoare_bind, hoare_call; [done|]. assert (pending pre (new ++ h) r1) as Hpd1 by (split; [congruence|congruence|by apply baseline_app]).
      intros [sn|]; [|by apply fail_truthful, pending_look]. destruct (requireUsableCurrentState sn) eqn:Hu; cbn [andb]; [|by apply fail_truthful, pending_look].
      case_bool_decide as Hd; [|by apply fail_truthful, pending_look]. apply (success_truthful pre); try done; [by apply pending_look|]. intros Hch. destruct (Hc Hch) as [Hch0 Hut]. by apply untouched_look, Hut, Hun.
    + unfold hoare; cbn. split; [congruence|done|congruence|]. intros Hch. right. destruct (Hc Hch) as [Hch0 Hut]. by apply Hut, Hun.
  - apply hoare_bind. eapply hoare_mono; [apply gate_result|]. intros h1 r1 ok [-> [o ->]]. destruct ok; cbn [negb]; [|by apply fail_truthful, pending_look].
    apply hoare_bind. eapply hoare_mono; [apply hoare_steady, execute_result|]. intros h2 r2 [ok a] [-> (new & -> & Hnew)]. cbn [fst snd].
    destruct ok; cbn [negb]; [|by apply fail_truthful, pending_app, pending_look; [done|]]. apply hoare_bind, hoare_modify, hoare_bind. eapply hoare_mono; [apply gate_result|].
    intros h3 r3 ok [-> [o' ->]]. assert (pending pre (Ev (resp := tresp) Inspect o' :: new ++ Ev Inspect o :: h) (set_changed true r)) as Hpd3.
    { apply pending_look, pending_app, pending_look; [done|]. by destruct Hpd. }
    destruct ok; cbn [negb]; [|by apply fail_truthful]. apply hoare_bind, hoare_modify. apply IH; [by destruct Hpd3|]. cbn. by rewrite orb_true_r.
Qed.

Lemma recover_result sn h r : tr_success r = false → tr_compensatedStateProven r = false → untouched h → baseline h = Some sn → tr_changedSystemState r = false →
  hoare tresp any h r (recoverExactPreparedSelectedHistoryIfNeeded sn) (λ h' r' o, tr_success r' = false ∧ tr_compensatedStateProven r' = false ∧
    (tr_changedSystemState r' = false → untouched h') ∧ match o with Some pre => baseline h' = Some pre | None => True end).
Proof.
  intros Hs Hr Hu Hi Hc. unfold hoare, recoverExactPreparedSelectedHistoryIfNeeded. destruct (classifyExactPreparedSelectedHistory sn) as [role|]; [|done]. destruct (negb _); [done|]. cbn. split; [done|].
  intros [ok act]. assert (∀ b, (tr_changedSystemState r || b) = false → b = false) as Hb by (intros b; by rewrite Hc).
  assert (tr_changedSystemState r || ac_changed act = false → untouched (Ev (resp := tresp) (CompletePrepared role) (ok, act) :: h)) as Hun.
  { intros Ha%Hb. by apply Forall_cons. }
  destruct ok; cbn; [|done]. split; [done|]. intros o. split; [done|]. split; [done|]. split; [intros Hch; by apply untouched_look, Hun|].
  destruct o as [sn'|]; [|done]. by destruct (_ && _).
Qed.

Lemma transition_truthful options : hoare tresp any [] fresh_result (transition q hr options) truthful.
Proof.
  unfold transition. apply hoare_bind, hoare_call; [done|]. intros [sn|]; [|unfold hoare; cbn; split; try done; intros _; right; by apply Forall_singleton].
  apply hoare_bind. eapply hoare_mono; [apply recover_result; try done; [by apply Forall_singleton]|]. intros h1 r1 [pre|] (Hs & Hr & Hu & Hi).
  2: { unfold hoare; cbn. split; try done; [congruence|]. intros Hc. right. by apply Hu. }
  apply steady_any. assert (∀ r2, tr_success r2 = tr_success r1 → tr_compensatedStateProven r2 = tr_compensatedStateProven r1 → tr_changedSystemState r2 = tr_changedSystemState r1 → hoare tresp steady h1 r2 (ret false) truthful) as Hstop.
  { intros r2 Hs2 Hr2 Hc2. unfold hoare; cbn. split; [congruence|done|congruence|]. rewrite Hc2. intros Hc. right. by apply Hu. }
  destruct (negb _); [by apply Hstop|]. apply hoare_bind, hoare_modify. cbn zeta. destruct (negb _ || _) eqn:Hp; [by apply Hstop|]. apply orb_false_iff in Hp as [Hp%negb_false_iff _].
  fold (plan_of pre) in Hp |- *. destruct (plan_actions (plan_of pre)) as [|kind actions].
  - apply hoare_bind, hoare_call; [done|]. assert (∀ o r2, tr_success r2 = tr_success r1 → tr_compensatedStateProven r2 = tr_compensatedStateProven r1 → tr_changedSystemState r2 = tr_changedSystemState r1 → hoare tresp steady (Ev (resp := tresp) Inspect o :: h1) r2 (ret false) truthful) as Hstop'.
    { intros o r2 Hs2 Hr2 Hc2. unfold hoare; cbn. split; [congruence|done|congruence|]. rewrite Hc2. intros Hc. right. by apply untouched_look, Hu. }
    intros [sn'|]; [|by apply Hstop']. destruct (requireUsableCurrentState sn') eqn:Hus; cbn [andb]; [|by apply Hstop']. case_bool_decide as Hd; [|by apply Hstop'].
    apply hoare_bind. eapply hoare_mono; [apply reconcile_result|]. intros h2 r2 ok (Hs2 & Hr2 & Hl2 & (new & -> & Hnew) & Hc2). cbn in Hs2, Hr2, Hc2.
    assert (tr_changedSystemState r2 = false → untouched (new ++ Ev (resp := tresp) Inspect (Some sn') :: h1)) as Hun.
    { intros Hc. destruct (Hc2 Hc) as [Hc1 Hut]. by apply Hut, untouched_look, Hu. }
    destruct ok; cbn [negb].
    + apply (success_truthful pre); try done. split; [congruence|congruence|]. apply baseline_app; [done|]. cbn. by rewrite Hi.
    + unfold hoare; cbn. split; [congruence|done|congruence|]. intros Hc. right. by apply Hun.
  - apply actions_truthful; [done| |]; [split; cbn; done|done].
Qed.
End truth.
