(* ===== verification/PamWriter.v ===== *)
(** The writer of the managed password slots
    (fic/src/modules/identity_access/pam/PamManagedPasswordSlotWriter, the
    per-identity lifecycle) on top of the conditional file transaction
    (PamConfigFileTransaction): a mutation is recorded as prepared, the file is
    replaced, read again and proven, and the record is completed; what fails is
    taken back.

    System calls, the atomic file writer and the journal are calls ([WCall]) with
    any answer. A file is named by its slot. The hooks for tests are never set.
    Error texts are left out. *)

From S2P Require Import Prelude PolicyModel MutationRecord MutationValid FileModel AtomicWriter Journal Effects PamSlots PamTopology PamTransition.
Open Scope string_scope.
Open Scope list_scope.
Open Scope prog_scope.

(** * Calls *)

Inductive Look := LookGone | LookFailed | LookLink | LookFile | LookOther.
#[export] Instance Look_eq_dec : EqDecision Look.
Proof. solve_decision. Defined.

Inductive WCall :=
| Lstat (role : ManagedPasswordSlotRole)
| ReadRegular (role : ManagedPasswordSlotRole)
| AtomicWrite (role : ManagedPasswordSlotRole) (text : string) (options : AtomicWriteOptions)
| Unlink (role : ManagedPasswordSlotRole)
| FsyncParent (role : ManagedPasswordSlotRole)
| JournalOperational
| JournalReadable
| JournalRecords
| JournalPrepare (r : MutationRecord)
| JournalDiscard (id : Z)
| JournalSetStatus (id : Z) (s : MutationStatus).

(** A file is read with the bits of its mode that are permissions. A write
    answers whether it succeeded and whether the file was replaced. *)
Definition wresp (c : WCall) : Type :=
  match c with
  | Lstat _ => Look
  | ReadRegular _ => option AtomicTargetState
  | AtomicWrite _ _ _ => bool * bool
  | JournalRecords => list MutationRecord
  | JournalPrepare _ => option Z
  | _ => bool
  end.

(** A program with the result it fills in as its state. *)
Definition WP (A : Type) : Type := sprog wresp (S := SlotActivation) A.

(** * The file transaction *)

(** [fs_captured]: the file, if it existed. [fs_mutated]: what is there after a
    committed mutation. *)
Record PamConfigFileSnapshot := mkFileSnapshot {
  fs_role : ManagedPasswordSlotRole;
  fs_captured : option AtomicTargetState;
  fs_mutated : option AtomicTargetState
}.

Definition capture (role : ManagedPasswordSlotRole) : WP (option PamConfigFileSnapshot) :=
  look ← call (Lstat role);
  match look with
  | LookGone => ret (Some (mkFileSnapshot role None None))
  | LookFailed => ret None
  | _ =>
      file ← call (ReadRegular role);
      ret (match file with None => None | Some f => Some (mkFileSnapshot role (Some f) None) end)
  end.

Section transaction.
(** The effective user and group of the daemon. *)
Context (euid egid : Z).

Definition conditional (snapshot : PamConfigFileSnapshot) (requested : AtomicWriteOptions) : AtomicWriteOptions :=
  match fs_captured snapshot with
  | Some f => mkOptions false true false (metadataPolicy requested) (fileMode requested) (fileOwner requested) (fileGroup requested)
                (Some (identity f)) (Some f) (beforePublish requested)
  | None => mkOptions true true true (metadataPolicy requested) (fileMode requested) (fileOwner requested) (fileGroup requested) None None (beforePublish requested)
  end.

(** Mode, owner and group that the new file must have. *)
Definition expected_metadata (snapshot : PamConfigFileSnapshot) (options : AtomicWriteOptions) : Z * Z * Z :=
  let '(m, u, g) := match fs_captured snapshot with Some f => (mode f, owner f, group f) | None => (384, euid, egid)%Z end in
  if bool_decide (metadataPolicy options = EnforceProvided) || negb (is_some (fs_captured snapshot))
  then (default m (fileMode options), default u (fileOwner options), default g (fileGroup options)) else (m, u, g).

Definition owned_output (snapshot : PamConfigFileSnapshot) (text : string) (options : AtomicWriteOptions) (observed : option AtomicTargetState) : bool :=
  match observed with
  | None => false
  | Some f => String.eqb (content f) text && bool_decide ((mode f, owner f, group f) = expected_metadata snapshot options)
  end.

(** A mutation that calls its writer once, with the path of the snapshot. *)
Definition mutate (snapshot : PamConfigFileSnapshot) (text : string) (requested : AtomicWriteOptions) : WP (bool * PamConfigFileSnapshot) :=
  if is_some (fs_mutated snapshot) then ret (false, snapshot)
  else
    let options := conditional snapshot requested in
    result ← call (AtomicWrite (fs_role snapshot) text options);
    observed ← call (ReadRegular (fs_role snapshot));
    let owned := owned_output snapshot text options observed in
    ret (result.1 && owned, if result.2 && owned then mkFileSnapshot (fs_role snapshot) (fs_captured snapshot) observed else snapshot).

Definition restoring (old mutated : AtomicTargetState) : AtomicWriteOptions :=
  mkOptions false true false EnforceProvided (Some (mode old)) (Some (owner old)) (Some (group old)) (Some (identity mutated)) (Some mutated) None.

Definition rollback (snapshot : PamConfigFileSnapshot) : WP bool :=
  let role := fs_role snapshot in
  match fs_mutated snapshot with
  | None => ret true
  | Some mutated =>
      look ← call (Lstat role);
      match look with
      | LookGone => ret (negb (is_some (fs_captured snapshot)))
      | LookFailed | LookLink | LookOther => ret false
      | LookFile =>
          observed ← call (ReadRegular role);
          if negb (bool_decide (observed = Some mutated)) then ret false
          else match fs_captured snapshot with
               | None =>
                   unlinked ← call (Unlink role);
                   if negb unlinked then ret false
                   else
                     synced ← call (FsyncParent role);
                     if negb synced then ret false
                     else look ← call (Lstat role); ret (bool_decide (look = LookGone))
               | Some old =>
                   written ← call (AtomicWrite role (content old) (restoring old mutated));
                   if negb written.1 then ret false
                   else
                     restored ← call (ReadRegular role);
                     ret (match restored with
                          | None => false
                          | Some f => String.eqb (content f) (content old) && bool_decide ((mode f, owner f, group f) = (mode old, owner old, group old))
                          end)
               end
      end
  end.

(** * The slots of a writer *)

Inductive PamManagedPasswordDomain := DomainQuality | DomainHistory.
#[export] Instance PamManagedPasswordDomain_eq_dec : EqDecision PamManagedPasswordDomain.
Proof. solve_decision. Defined.

Definition canonicalPolicyRef (domain : PamManagedPasswordDomain) : PolicyRef :=
  mkRef "IDENTITY_ACCESS" "PAM" (match domain with DomainQuality => "enable_password_quality" | DomainHistory => "enable_password_history" end).

Definition c2RoleUsesDomain (role : ManagedPasswordSlotRole) (domain : PamManagedPasswordDomain) : bool :=
  match role with RQuality => bool_decide (domain = DomainQuality) | _ => bool_decide (domain = DomainHistory) end.
Definition c2RoleSlot (role : ManagedPasswordSlotRole) : ManagedPasswordSlotSpec :=
  match role with RQuality => qualitySlot | RHistoryNormal => historyNormalSlot | RHistoryInitial => historyInitialSlot end.
Definition c2RoleActivationIdentifier (role : ManagedPasswordSlotRole) : string :=
  match role with RQuality => "fic-password-quality-hook" | RHistoryNormal => "fic-password-history-hook" | RHistoryInitial => "fic-password-history-initial-hook" end.

Definition expectedUndoWithIdentifier (domain : PamManagedPasswordDomain) (identifier : string) : UndoDisablePamCapability :=
  mkCapability (policyName (canonicalPolicyRef domain)) PamAuthUpdate [identifier] false None None "".

Definition journalMetadataMatchesRole (domain : PamManagedPasswordDomain) (r : MutationRecord) (role : ManagedPasswordSlotRole) : bool :=
  let ref := canonicalPolicyRef domain in
  let expected := expectedUndoWithIdentifier domain (c2RoleActivationIdentifier role) in
  bool_decide (policy r = ref) && bool_decide (backend (undo r) = Pam) && String.eqb (resource r) ("capability/" +:+ policyName ref) &&
  match payload (undo r) with
  | PCapability p =>
      String.eqb (pc_capability p) (pc_capability expected) && bool_decide (pc_topology p = pc_topology expected) &&
      bool_decide (pc_activationIdentifiers p = pc_activationIdentifiers expected)
  | _ => false
  end.

(** Nothing when the journal refuses or gives out the id 0. *)
Definition prepareRecordWithIdentifier (domain : PamManagedPasswordDomain) (identifier : string) : WP (option Z) :=
  let ref := canonicalPolicyRef domain in
  id ← call (JournalPrepare (mkRecord 0%Z ref ("capability/" +:+ policyName ref) (mkUndo Pam (PCapability (expectedUndoWithIdentifier domain identifier))) Prepared 0%Z 0%Z ""));
  ret (match id with Some i => if (i =? 0)%Z then None else Some i | None => None end).

Definition completePrepared (id : Z) : WP bool := call (JournalSetStatus id Applied).

(** The inspection of what was captured; nothing when it is not canonical. *)
Definition inspectSnapshot (snapshot : PamConfigFileSnapshot) : option ManagedPasswordSlotInspection :=
  let '(ok, i) := inspectContent (c2RoleSlot (fs_role snapshot)) (content <$> fs_captured snapshot) in if ok : bool then Some i else None.
Definition freshInspection (role : ManagedPasswordSlotRole) : WP (option ManagedPasswordSlotInspection) :=
  snapshot ← capture role;
  ret (match snapshot with None => None | Some s => inspectSnapshot s end).

Definition slot_write_options : AtomicWriteOptions := mkOptions false true false PreserveExisting None None None None None None.
Definition writeSlot (snapshot : PamConfigFileSnapshot) (text : string) : WP (bool * PamConfigFileSnapshot) := mutate snapshot text slot_write_options.

Fixpoint rollback_all (l : list PamConfigFileSnapshot) : WP bool :=
  match l with
  | [] => ret true
  | s :: l => ok ← rollback s; rest ← rollback_all l; ret (ok && rest)
  end.
Definition compensateSnapshots (snapshots : list PamConfigFileSnapshot) (attemptedCount : nat) : WP bool := rollback_all (reverse (take attemptedCount snapshots)).

Definition set_outstanding (id : Z) (r : SlotActivation) : SlotActivation := mkActivation (ac_success r) true (ac_ownershipProven r) id.
Definition set_owned (changed : bool) (id : Z) (r : SlotActivation) : SlotActivation := mkActivation true (ac_changed r || changed) true id.
Definition no_activation : SlotActivation := mkActivation false false false 0.

Definition compensateFreshFailure (snapshots : list PamConfigFileSnapshot) (attemptedCount : nat) (id : Z) : WP unit :=
  restored ← compensateSnapshots snapshots attemptedCount;
  if negb restored then modify (set_outstanding id)
  else _ ← call (JournalDiscard id); ret tt.

(** The record of a prepared update existed before: it goes back to applied. *)
Definition compensateUpdateSnapshots (snapshots : list PamConfigFileSnapshot) (attemptedCount : nat) (id : Z) : WP unit :=
  restored ← compensateSnapshots snapshots attemptedCount;
  if negb restored then modify (set_outstanding id)
  else
    applied ← call (JournalSetStatus id Applied);
    if negb applied then modify (set_outstanding id) else ret tt.

(** * The lifecycle of one slot *)

Section domain.
Context (domain : PamManagedPasswordDomain).

(** The observed options of an active slot are the given ones. *)
Definition carries (options : ManagedPwhistorySlotOptions) (i : ManagedPasswordSlotInspection) : bool := bool_decide (si_options i = Some options).

Definition proveOwnedC2Slot (role : ManagedPasswordSlotRole) : WP bool :=
  if negb (c2RoleUsesDomain role domain) then ret false
  else
    readable ← call JournalReadable;
    if negb readable then ret false
    else
      inspection ← freshInspection role;
      match inspection with
      | None => ret false
      | Some i =>
          if negb (bool_decide (si_state i = SActive)) then ret false
          else
            l ← call JournalRecords;
            ret (match find_record (si_mutationId i) l with
                 | None => false
                 | Some r => journalMetadataMatchesRole domain r role && bool_decide (status r = Applied)
                 end)
      end.

(** A neutral slot becomes active. *)
Definition activate_neutral (role : ManagedPasswordSlotRole) (options : ManagedPwhistorySlotOptions) (snapshot : PamConfigFileSnapshot) : WP bool :=
  prepared ← prepareRecordWithIdentifier domain (c2RoleActivationIdentifier role);
  match prepared with
  | None => ret false
  | Some id =>
      match renderActive (c2RoleSlot role) id (match role with RQuality => no_options | _ => options end) with
      | None => _ ← compensateFreshFailure [] 0 id; ret false
      | Some desired =>
          written ← writeSlot snapshot desired;
          if negb written.1 then _ ← compensateFreshFailure [written.2] 1 id; ret false
          else
            after ← freshInspection role;
            if negb (match after with Some i => bool_decide (si_state i = SActive) && bool_decide (si_mutationId i = id) | None => false end)
            then _ ← compensateFreshFailure [written.2] 1 id; ret false
            else
              completed ← completePrepared id;
              if negb completed then _ ← modify (set_outstanding id); ret false
              else _ ← modify (set_owned true id); ret true
      end
  end.

(** An active slot is what is wanted, or is left alone. *)
Definition adopt_active (role : ManagedPasswordSlotRole) (options : ManagedPwhistorySlotOptions) (i : ManagedPasswordSlotInspection) : WP bool :=
  l ← call JournalRecords;
  match find_record (si_mutationId i) l with
  | None => ret false
  | Some r =>
      if negb (journalMetadataMatchesRole domain r role) then ret false
      else match status r with
           | Applied =>
               if negb (bool_decide (role = RQuality)) && negb (carries options i) then ret false
               else _ ← modify (set_owned false (mid r)); ret true
           | Prepared =>
               completed ← completePrepared (mid r);
               if negb completed then ret false
               else _ ← modify (set_owned false (mid r)); ret true
           | _ => ret false
           end
  end.

Definition activateC2Slot (role : ManagedPasswordSlotRole) (options : ManagedPwhistorySlotOptions) : WP bool :=
  if negb (c2RoleUsesDomain role domain) then ret false
  else
    operational ← call JournalOperational;
    if negb operational then ret false
    else
      snapshot ← capture role;
      match snapshot with
      | None => ret false
      | Some s =>
          match inspectSnapshot s with
          | None => ret false
          | Some i =>
              match si_state i with
              | SUnavailable | SBroken => ret false
              | SActive => adopt_active role options i
              | SNeutral => activate_neutral role options s
              end
          end
      end.

(** New options for a slot that is owned and active. *)
Definition updateOwnedC2HistorySlotOptions (role : ManagedPasswordSlotRole) (options : ManagedPwhistorySlotOptions) (owned : ManagedPasswordSlotInspection) : WP bool :=
  snapshot ← capture role;
  match snapshot with
  | None => ret false
  | Some s =>
      match inspectSnapshot s with
      | None => ret false
      | Some current =>
          if negb (bool_decide (si_state current = SActive) && bool_decide (si_mutationId current = si_mutationId owned) &&
                   is_some (si_options current) && bool_decide (si_options current = si_options owned))
          then ret false
          else
            prepared ← prepareRecordWithIdentifier domain (c2RoleActivationIdentifier role);
            match prepared with
            | None => ret false
            | Some id =>
                match (if bool_decide (role = RQuality) then None else renderActive (c2RoleSlot role) id options) with
                | None => _ ← compensateUpdateSnapshots [] 0 id; ret false
                | Some desired =>
                    written ← writeSlot s desired;
                    if negb written.1 then _ ← compensateUpdateSnapshots [written.2] 1 id; ret false
                    else
                      after ← freshInspection role;
                      if negb (match after with Some i => bool_decide (si_state i = SActive) && bool_decide (si_mutationId i = id) && carries options i | None => false end)
                      then _ ← compensateUpdateSnapshots [written.2] 1 id; ret false
                      else
                        completed ← completePrepared id;
                        if negb completed then _ ← modify (set_outstanding id); ret false
                        else _ ← modify (set_owned true id); ret true
                end
            end
      end
  end.

Definition updateC2HistoryOptions (role : ManagedPasswordSlotRole) (options : ManagedPwhistorySlotOptions) : WP bool :=
  if bool_decide (role = RQuality) then ret false
  else if negb (c2RoleUsesDomain role domain) then ret false
  else
    operational ← call JournalOperational;
    if negb operational then ret false
    else
      snapshot ← capture role;
      match snapshot with
      | None => ret false
      | Some s =>
          match inspectSnapshot s with
          | None => ret false
          | Some i =>
              if bool_decide (si_state i = SUnavailable) || bool_decide (si_state i = SNeutral) then ret false
              else
                l ← call JournalRecords;
                match find_record (si_mutationId i) l with
                | None => ret false
                | Some r =>
                    let update : WP bool :=
                      if carries options i then _ ← modify (set_owned false (mid r)); ret true
                      else updateOwnedC2HistorySlotOptions role options i in
                    if negb (journalMetadataMatchesRole domain r role) then ret false
                    else match status r with
                         | Applied => update
                         | Prepared =>
                             completed ← completePrepared (mid r);
                             if negb completed then ret false else update
                         | _ => ret false
                         end
                end
          end
      end.

(** Another active record of the history domain. *)
Definition competing (id : Z) (other : MutationRecord) : bool :=
  negb (mid other =? id)%Z && (bool_decide (status other = Prepared) || bool_decide (status other = Applied)) &&
  (journalMetadataMatchesRole domain other RHistoryNormal || journalMetadataMatchesRole domain other RHistoryInitial).

Definition completeExactPreparedC2Slot (role : ManagedPasswordSlotRole) : WP bool :=
  if bool_decide (role = RQuality) then ret false
  else
    operational ← call JournalOperational;
    if negb operational then ret false
    else
      snapshot ← capture role;
      match snapshot with
      | None => ret false
      | Some s =>
          match inspectSnapshot s with
          | None => ret false
          | Some i =>
              if negb (bool_decide (si_state i = SActive)) then ret false
              else
                l ← call JournalRecords;
                match find_record (si_mutationId i) l with
                | None => ret false
                | Some r =>
                    if negb (journalMetadataMatchesRole domain r role) then ret false
                    else match status r with
                         | Applied => _ ← modify (set_owned false (mid r)); ret true
                         | Prepared =>
                             others ← call JournalRecords;
                             if existsb (competing (mid r)) others then ret false
                             else
                               completed ← completePrepared (mid r);
                               if negb completed then ret false
                               else _ ← modify (set_owned false (mid r)); ret true
                         | _ => ret false
                         end
                end
          end
      end.

Definition report_change (r : SlotActivation) : SlotActivation := mkActivation (ac_success r) true (ac_ownershipProven r) (ac_mutationId r).

(** The record of a neutralized slot is closed. *)
Definition resolve_record (id : Z) : WP bool :=
  l ← call JournalRecords;
  match find_record id l with
  | None => ret false
  | Some r =>
      match status r with
      | Applied => call (resp := wresp) (JournalSetStatus id RolledBack)
      | Prepared => call (resp := wresp) (JournalDiscard id)
      | _ => ret false
      end
  end.

(** The change that is reported is in the state. *)
Definition compensateC2ActiveSlot (role : ManagedPasswordSlotRole) (id : Z) : WP bool :=
  if negb (c2RoleUsesDomain role domain) then ret false
  else if (id =? 0)%Z then ret false
  else
    operational ← call JournalOperational;
    if negb operational then ret false
    else
      snapshot ← capture role;
      match snapshot with
      | None => ret false
      | Some s =>
          match inspectSnapshot s with
          | None => ret false
          | Some i =>
              if negb (bool_decide (si_state i = SActive)) || negb (si_mutationId i =? id)%Z then ret false
              else
                written ← writeSlot s kNeutralBody;
                if negb written.1 then
                  if negb (is_some (fs_mutated written.2)) then ret false
                  else
                    undone ← rollback written.2;
                    if negb undone then _ ← modify report_change; ret false
                    else
                      restored ← freshInspection role;
                      if match restored with Some r => bool_decide (si_state r = SActive) && bool_decide (si_mutationId r = id) | None => false end
                      then ret false
                      else _ ← modify report_change; ret false
                else
                  _ ← modify report_change;
                  after ← freshInspection role;
                  if negb (match after with Some a => bool_decide (si_state a = SNeutral) | None => false end) then ret false
                  else resolve_record id
          end
      end.

Definition deactivateC2Slot (role : ManagedPasswordSlotRole) : WP bool :=
  if negb (c2RoleUsesDomain role domain) then ret false
  else
    operational ← call JournalOperational;
    if negb operational then ret false
    else
      inspection ← freshInspection role;
      match inspection with
      | None => ret false
      | Some i =>
          if negb (bool_decide (si_state i = SActive)) then ret false
          else
            l ← call JournalRecords;
            match find_record (si_mutationId i) l with
            | None => ret false
            | Some r =>
                if negb (journalMetadataMatchesRole domain r role) then ret false
                else if negb (bool_decide (status r = Applied)) then ret false
                else
                  compensated ← compensateC2ActiveSlot role (si_mutationId i);
                  if negb compensated then ret false
                  else _ ← modify (λ r, mkActivation true true (ac_ownershipProven r) 0); ret true
            end
      end.
End domain.
End transaction.
