(* ===== verification/PamMachine.v ===== *)
(** The machine the password topology is read from, what the calls of a
    transition do to it, and that no selected profile loses its active slot. *)

From S2P Require Import Prelude PolicyModel MutationRecord MutationValid Effects PamSlots PamSlotFacts PamTopology PamTransition PamTransitionFacts PamTruth.
Open Scope string_scope.
Open Scope list_scope.

(** * The machine *)

(** The files the topology is made of, and the journal's records. *)
Record PamMachine := mkPamMachine {
  pm_state : option string;
  pm_slot : ManagedPasswordSlotRole → option string;
  pm_stack : option string;
  pm_journal : list MutationRecord
}.
Definition files_of (m : PamMachine) : PamFiles := mkPamFiles (Some (pm_state m)) (λ role, Some (pm_slot m role)) (Some (pm_stack m)) (Some (pm_journal m)).

Definition spec_of (role : ManagedPasswordSlotRole) : ManagedPasswordSlotSpec :=
  match role with RQuality => qualitySlot | RHistoryNormal => historyNormalSlot | RHistoryInitial => historyInitialSlot end.
Definition profile_selected (role : ManagedPasswordSlotRole) (m : PamMachine) : bool := selected role (read_state (pm_state m)).1.
Definition slot_active (role : ManagedPasswordSlotRole) (m : PamMachine) : Prop := si_state (inspectContent (spec_of role) (pm_slot m role)).2 = SActive.

(** A profile that is selected includes an active slot. *)
Definition backed (m : PamMachine) : Prop := ∀ role, profile_selected role m = true → slot_active role m.

Definition same_slots (but : option ManagedPasswordSlotRole) (m m' : PamMachine) : Prop := ∀ role, but ≠ Some role → pm_slot m' role = pm_slot m role.

(** What a call does to the machine. An inspection fails, or shows it. The tool
    changes no slot and no other profile, and selects only when it is asked to;
    its answer says nothing. A writer changes its own slot and no selection; it
    reports success only with the slot active where it had to be; new options
    keep an active slot active. *)
Definition effect (c : TCall) : tresp c → PamMachine → PamMachine → Prop :=
  match c with
  | Inspect => λ x m m', m' = m ∧ (x = None ∨ x = inspectPamPasswordTopology (files_of m))
  | Native enable role => λ _ m m', same_slots None m m' ∧ (∀ role', role' ≠ role → profile_selected role' m' = profile_selected role' m) ∧
      (profile_selected role m' = true → enable = true ∨ profile_selected role m = true)
  | ActivateSlot role _ => λ x m m', pm_state m' = pm_state m ∧ same_slots (Some role) m m' ∧ (x.1 = true → slot_active role m')
  | DeactivateSlot role | CompensateSlot role _ => λ _ m m', pm_state m' = pm_state m ∧ same_slots (Some role) m m'
  | ProveOwned role => λ x m m', pm_state m' = pm_state m ∧ same_slots None m m' ∧ (x = true → slot_active role m')
  | CompletePrepared _ => λ _ m m', pm_state m' = pm_state m ∧ same_slots None m m'
  | UpdateOptions role _ => λ _ m m', pm_state m' = pm_state m ∧ same_slots (Some role) m m' ∧ (slot_active role m → slot_active role m')
  | ActiveRecords _ => λ _ m m', m' = m
  end.

(** Only valid options are asked for. *)
Definition sound_call (c : TCall) : Prop := match c with UpdateOptions _ o => valid_options o | _ => True end.

(** A world that answers the calls and has such a machine in it. *)
Class Faithful {E} (handle : ∀ c, E → tresp c * E) (view : E → PamMachine) := { faithful : ∀ c e, sound_call c → effect c (handle c e).1 (view e) (view (handle c e).2) }.

Lemma inspect_selections m sn : inspectPamPasswordTopology (files_of m) = Some sn → sn_selections sn = (read_state (pm_state m)).1.
Proof.
  unfold inspectPamPasswordTopology, mbind, option_bind. cbn [files_of pf_state pf_stack pf_journal]. destruct (read_state (pm_state m)) as [s f].
  destruct (inspect_slot (files_of m) qualitySlot); [|done]. destruct (inspect_slot (files_of m) historyNormalSlot); [|done].
  destruct (inspect_slot (files_of m) historyInitialSlot); [|done]. destruct (pm_stack m); [|done]. by intros [= <-].
Qed.

Lemma unselected_inv role c (x : tresp c) h : known_unselected role (Ev (resp := tresp) c x :: h) →
  (∃ sn, seen (Ev (resp := tresp) c x) = Some (Some sn) ∧ selected role (sn_selections sn) = false) ∨ (known_unselected role h ∧ nativeOf role c = false).
Proof.
  intros (later & sn & earlier & Hh & Hs & Hl). destruct later as [|e later]; cbn in Hh.
  - left. exists sn. split; [|done]. exact (f_equal (λ l, default None (seen <$> head l)) Hh).
  - apply (f_equal tail) in Hh as Hh'; cbn in Hh'; apply (f_equal head) in Hh as He; cbn in He; injection He as <-; clear Hh; rename Hh' into Hh. right. split; [|apply (Hl (Ev (resp := tresp) c x)); by left]. exists later, sn, earlier. split; [done|]. split; [done|]. intros e' He'. apply Hl. by right.
Qed.

Section backed.
Context {E : Type} (handle : ∀ c, E → tresp c * E) (view : E → PamMachine) `{!Faithful handle view}.
Context (wished : ManagedPwhistorySlotOptions) (Hwished : valid_options wished).

(** What the history says of the machine is so. *)
Record informed (h : list (event tresp)) (e : E) : Prop := {
  in_backed : backed (view e);
  in_unselected : ∀ role, known_unselected role h → profile_selected role (view e) = false;
  in_active : ∀ role, known_active role h → slot_active role (view e)
}.

Lemma same_active but role m m' : same_slots but m m' → but ≠ Some role → slot_active role m → slot_active role m'.
Proof. unfold slot_active. intros Hs Hb. by rewrite Hs. Qed.

(** A call keeps every selection it is not about. *)
Lemma selection_kept c (x : tresp c) m m' role : effect c x m m' → nativeOf role c = false → profile_selected role m' = profile_selected role m.
Proof.
  unfold profile_selected. destruct c; cbn [effect nativeOf].
  2: { intros (_ & Hn & _) Hr%bool_decide_eq_false. apply (Hn role). congruence. }
  all: intros Hm _; first [by rewrite Hm|destruct Hm as [Hm _]; by rewrite Hm].
Qed.

Lemma step_active c (x : tresp c) m m' role : effect c x m m' → proves_active role (Ev (resp := tresp) c x) → slot_active role m'.
Proof. destruct c; cbn; try done; [intros (_ & _ & Hx) [-> Hok]; by apply Hx|intros (_ & _ & Hx) [-> ->]; by apply Hx]. Qed.

Lemma order_sound h c : order wished h c → sound_call c.
Proof. destruct c; try done. by intros ->. Qed.

(** A selection has an active slot after an allowed call. *)
Lemma step_backed h e c : informed h e → order wished h c → backed (view (handle c e).2).
Proof.
  intros [Hb Hu Ha] Ho role Hsel. pose proof (faithful (handle := handle) c e (order_sound h c Ho)) as Hf. destruct (handle c e) as [x e']. cbn [fst snd] in *.
  destruct (nativeOf role c) eqn:Hn.
  - destruct c; try done. cbn in Hn, Hf, Ho. apply bool_decide_eq_true in Hn as ->. destruct Hf as (Hs & _ & Hen). eapply (same_active None); [exact Hs|done|].
    destruct enable; [by apply Ha|]. destruct (Hen Hsel) as [|Hold]; [done|]. by apply Hb.
  - assert (profile_selected role (view e) = true) as Hsel0 by (rewrite <- Hsel; symmetry; by eapply selection_kept).
    assert (known_unselected role h → False) as Hk by (intros Hk%Hu; congruence). specialize (Hb role Hsel0).
    destruct c as [|enable r|r o|r|r i|r|r|r o|p]; cbn [effect order] in Hf, Ho.
    + destruct Hf as [-> _]. exact Hb.
    + destruct Hf as (Hs & _). by eapply (same_active None).
    + destruct Hf as (_ & Hs & _). eapply (same_active (Some r)); [exact Hs| |exact Hb]. intros [= ->]. by apply Hk.
    + destruct Hf as (_ & Hs). eapply (same_active (Some r)); [exact Hs| |exact Hb]. intros [= ->]. by apply Hk.
    + destruct Hf as (_ & Hs). eapply (same_active (Some r)); [exact Hs| |exact Hb]. intros [= ->]. by apply Hk.
    + destruct Hf as (_ & Hs & _). by eapply (same_active None).
    + destruct Hf as (_ & Hs). by eapply (same_active None).
    + destruct Hf as (_ & Hs & Hup). destruct (decide (r = role)) as [->|Hne]; [by apply Hup|]. eapply (same_active (Some r)); [exact Hs|congruence|exact Hb].
    + rewrite Hf. exact Hb.
Qed.

Lemma informed_step h e c : informed h e → order wished h c → informed (Ev c (handle c e).1 :: h) (handle c e).2.
Proof.
  intros Hi Ho. split; [by eapply step_backed| |].
  - intros role [(sn & He & Hs)|[Hk Hn]]%unselected_inv.
    + pose proof (faithful (handle := handle) c e (order_sound h c Ho)) as Hf. destruct (handle c e) as [x e']. cbn [fst snd] in *. destruct c; try discriminate He. cbn in He, Hf.
      injection He as ->. destruct Hf as [-> [?|Hx]]; [done|]. unfold profile_selected. by rewrite <- (inspect_selections _ sn).
    + rewrite (selection_kept c (handle c e).1 (view e)); [by apply (in_unselected h e)|by apply faithful, (order_sound h)|done].
  - intros role Hk. cbn in Hk. eapply step_active; [by apply faithful, (order_sound h)|exact Hk].
Qed.
End backed.
