(* ===== verification/PamWriterFacts.v ===== *)
(** What the slot writer does to the slots: it writes its own slot only, and only
    what the operation is about; it reports success only on what it has read. *)

From S2P Require Import Prelude PolicyValue PolicyModel MutationRecord MutationValid AtomicWriter Journal JournalFacts Effects PamSlots PamSlotFacts PamTopology PamTransition PamTransitionFacts PamWriter PamMachine.
Open Scope string_scope.
Open Scope list_scope.
Open Scope prog_scope.

Notation wevent := (event wresp).

(** * Histories *)

(** The file of a slot was replaced or removed. *)
Definition touches (role : ManagedPasswordSlotRole) (c : WCall) : bool :=
  match c with AtomicWrite r _ _ | Unlink r => bool_decide (r = role) | _ => false end.

Definition read_of (role : ManagedPasswordSlotRole) (e : wevent) : option string :=
  let 'Ev c x := e in
  (match c as c0 return wresp c0 → option string with
   | ReadRegular r => λ x, if bool_decide (r = role) then content <$> x else None
   | _ => λ _, None
   end) x.

(** The slot was read with this text, and not touched since. *)
Definition shows (role : ManagedPasswordSlotRole) (t : string) (h : list wevent) : Prop :=
  ∃ later e earlier, h = later ++ e :: earlier ∧ read_of role e = Some t ∧ ∀ e', e' ∈ later → touches role (ev_call e') = false.

Definition active_text (role : ManagedPasswordSlotRole) (t : string) : Prop := si_state (inspectContent (spec_of role) (Some t)).2 = SActive.

(** The ids the journal has given out fit their type. *)
Definition id_fits (e : wevent) : Prop :=
  let 'Ev c x := e in
  (match c as c0 return wresp c0 → Prop with JournalPrepare _ => λ x, ∀ i, x = Some i → (0 ≤ i ≤ UINTMAX_MAX)%Z | _ => λ _, True end) x.
Definition ids_fit (h : list wevent) : Prop := Forall id_fits h.

Lemma shows_here role f h : shows role (content f) (Ev (resp := wresp) (ReadRegular role) (Some f) :: h).
Proof. exists [], (Ev (resp := wresp) (ReadRegular role) (Some f)), h. split; [done|]. split; [cbn; by rewrite bool_decide_eq_true_2|]. by intros e ?%not_elem_of_nil. Qed.

Lemma shows_cons role t e h : shows role t h → touches role (ev_call e) = false → shows role t (e :: h).
Proof.
  intros (later & e0 & earlier & -> & Hr & Hl) He. exists (e :: later), e0, earlier. split; [done|]. split; [done|]. intros e' [->|?]%elem_of_cons; auto.
Qed.

(** * Protocols *)

(** Which texts may be written to which slot, which file may be removed, and which
    status a record may get. *)
Record Permit := mkPermit {
  may_write : list wevent → ManagedPasswordSlotRole → string → Prop;
  may_remove : ManagedPasswordSlotRole → Prop;
  may_set : list wevent → Z → MutationStatus → Prop
}.

Definition permits (P : Permit) (h : list wevent) (c : WCall) : Prop :=
  match c with AtomicWrite r t _ => may_write P h r t | Unlink r => may_remove P r | JournalSetStatus id st => may_set P h id st | _ => True end.

Definition read_only : Permit := mkPermit (λ _ _ _, False) (λ _, False) (λ _ _ _, True).
Definition own_slot (role : ManagedPasswordSlotRole) : Permit := mkPermit (λ _ r _, r = role) (λ r, r = role) (λ _ _ _, True).
Definition keep_active (role : ManagedPasswordSlotRole) : Permit := mkPermit (λ h r t, r = role ∧ (ids_fit h → active_text role t)) (λ _, False) (λ _ _ _, True).

Section permit.
Context (P : Permit) (euid egid : Z).
Notation hw := (hoare wresp (permits P)).

Lemma capture_spec role h r : hw h r (capture role) (λ h' r' o, r' = r ∧
  match o with Some s => fs_role s = role ∧ fs_mutated s = None ∧ ∀ f, fs_captured s = Some f → shows role (content f) h' | None => True end).
Proof.
  unfold capture, hoare. cbn. split; [done|]. intros []; cbn; try done; split; try done; intros [f|]; cbn; try done; split; try done; split; try done; split; try done; intros f' [= <-]; apply shows_here.
Qed.

Lemma inspect_text s i : inspectSnapshot s = Some i → ∃ f, fs_captured s = Some f ∧ (inspectContent (spec_of (fs_role s)) (Some (content f))).2 = i.
Proof.
  unfold inspectSnapshot. change (c2RoleSlot (fs_role s)) with (spec_of (fs_role s)). destruct (fs_captured s) as [f|]; [|done]. cbn [fmap option_fmap option_map].
  intros Hi. exists f. split; [done|]. destruct (inspectContent _ _) as [[] i']; [by injection Hi|done].
Qed.

Lemma fresh_spec role h r : hw h r (freshInspection role) (λ h' r' o, r' = r ∧ ∀ i, o = Some i → ∃ t, shows role t h' ∧ (inspectContent (spec_of role) (Some t)).2 = i).
Proof.
  unfold freshInspection. apply hoare_bind. eapply hoare_mono; [apply capture_spec|]. intros h' r' o [-> Ho]. unfold hoare; cbn. split; [done|]. intros i Hi. destruct o as [s|]; [|done].
  destruct Ho as (<- & _ & Hs). apply inspect_text in Hi as (f & Hf & Hi). exists (content f). split; [by apply Hs|done].
Qed.

Lemma write_spec s t h r : (∀ o, permits P h (AtomicWrite (fs_role s) t o)) → hw h r (writeSlot euid egid s t) (λ _ r' res, r' = r ∧ fs_role res.2 = fs_role s ∧ fs_captured res.2 = fs_captured s).
Proof.
  intros Hp. unfold writeSlot, mutate. destruct (is_some (fs_mutated s)); [done|]. unfold hoare; cbn. split; [apply (Hp slot_write_options)|]. intros [w i]. split; [done|]. intros o. cbn. split; [done|].
  by destruct (i && _).
Qed.

(** A rollback may be made: it writes the old text, or removes the file. *)
Definition undoable (s : PamConfigFileSnapshot) : Prop :=
  match fs_captured s with Some f => ∀ h o, permits P h (AtomicWrite (fs_role s) (content f) o) | None => may_remove P (fs_role s) end.

Lemma rollback_spec s h r : undoable s → hw h r (rollback s) (λ _ r' _, r' = r).
Proof.
  unfold undoable, rollback, hoare. intros Hu. destruct (fs_mutated s) as [m|]; [|done]. cbn. split; [done|]. intros []; cbn; try done. split; [done|]. intros o.
  destruct (negb _); [done|]. destruct (fs_captured s) as [f|]; cbn.
  - split; [apply (Hu _ slot_write_options)|]. intros [[] i]; cbn; [|done]. split; [done|]. by intros [].
  - split; [done|]. intros []; cbn; [|done]. split; [done|]. intros []; cbn; [|done]. split; [done|]. by intros [].
Qed.

Lemma rollback_all_spec l h r : Forall undoable l → hw h r (rollback_all l) (λ _ r' _, r' = r).
Proof.
  revert h r. induction l as [|s l IH]; intros h r Hl; [done|]. apply Forall_cons in Hl as [Hs Hl]. cbn [rollback_all]. apply hoare_bind. eapply hoare_mono; [by apply rollback_spec|].
  intros h1 r1 ok ->. apply hoare_bind. eapply hoare_mono; [by apply IH|]. by intros h2 r2 rest ->.
Qed.

Lemma compensate_fresh_spec l n id h r : Forall undoable l → hw h r (compensateFreshFailure l n id) (λ _ _ _, True).
Proof.
  intros Hl. unfold compensateFreshFailure, compensateSnapshots. apply hoare_bind. eapply hoare_mono; [by apply rollback_all_spec, Forall_reverse, Forall_take|].
  intros h1 r1 [] _; [|done]. unfold hoare; cbn. by split.
Qed.
Lemma compensate_update_spec l n id h r : (∀ h, may_set P h id Applied) → Forall undoable l → hw h r (compensateUpdateSnapshots l n id) (λ _ _ _, True).
Proof.
  intros Hset Hl. unfold compensateUpdateSnapshots, compensateSnapshots. apply hoare_bind. eapply hoare_mono; [by apply rollback_all_spec, Forall_reverse, Forall_take|].
  intros h1 r1 [] _; [|done]. unfold hoare; cbn. split; [by apply Hset|]. by intros [].
Qed.
End permit.

(** * Operations *)

(** The slot was read active, and not touched since. *)
Definition proved_active (role : ManagedPasswordSlotRole) (h : list wevent) : Prop := ∃ t, shows role t h ∧ active_text role t.

Lemma proved_cons role e h : proved_active role h → touches role (ev_call e) = false → proved_active role (e :: h).
Proof. intros (t & Hs & Ha) He. exists t. split; [by apply shows_cons|done]. Qed.

Lemma proved_snapshot s i h : inspectSnapshot s = Some i → si_state i = SActive → (∀ f, fs_captured s = Some f → shows (fs_role s) (content f) h) →
  proved_active (fs_role s) h ∧ ∃ f, fs_captured s = Some f ∧ active_text (fs_role s) (content f).
Proof.
  intros (f & Hf & Hi)%inspect_text Hs Hshow. assert (active_text (fs_role s) (content f)) as Ha by (unfold active_text; by rewrite Hi).
  split; [exists (content f); split; [by apply Hshow|done]|by exists f].
Qed.

Section operations.
Context (euid egid : Z) (domain : PamManagedPasswordDomain) (role : ManagedPasswordSlotRole).

Lemma prove_owned_spec h r : hoare wresp (permits read_only) h r (proveOwnedC2Slot domain role) (λ h' _ ok, ok = true → proved_active role h').
Proof.
  unfold proveOwnedC2Slot. destruct (negb _); [done|]. apply hoare_bind, hoare_call; [done|]. intros []; cbn [negb]; [|done]. apply hoare_bind. eapply hoare_mono; [apply fresh_spec|].
  intros h1 r1 [i|] [-> Hi]; [|done]. case_bool_decide as Hs; cbn [negb]; [|done]. destruct (Hi i eq_refl) as (t & Ht & Hin). unfold hoare; cbn. split; [done|]. intros l _. apply proved_cons; [|done].
  exists t. split; [done|]. unfold active_text. by rewrite Hin.
Qed.

Lemma complete_exact_spec h r : hoare wresp (permits read_only) h r (completeExactPreparedC2Slot domain role) (λ _ _ _, True).
Proof.
  unfold completeExactPreparedC2Slot. case_bool_decide; [done|]. apply hoare_bind, hoare_call; [done|]. intros []; cbn [negb]; [|done]. apply hoare_bind. eapply hoare_mono; [apply capture_spec|].
  intros h1 r1 [s|] _; [|done]. destruct (inspectSnapshot s) as [i|]; [|done]. destruct (negb _); [done|]. unfold hoare; cbn. split; [done|]. intros l. destruct (find_record _ _) as [rec|]; [|done].
  destruct (negb _); [done|]. destruct (status rec); cbn; try done. split; [done|]. intros l'. destruct (existsb _ _); [done|]. cbn. split; [done|]. by intros [].
Qed.

(** Anything may happen to the slot itself. *)
Lemma own_undoable s : fs_role s = role → undoable (own_slot role) s.
Proof. intros Hr. unfold undoable. destruct (fs_captured s); cbn; by intros. Qed.

(** The slot was read as this inspection says, and not touched since. *)
Definition inspected_as (i : ManagedPasswordSlotInspection) (h : list wevent) : Prop := ∃ t, shows role t h ∧ (inspectContent (spec_of role) (Some t)).2 = i.

Lemma inspected_as_cons i e h : inspected_as i h → touches role (ev_call e) = false → inspected_as i (e :: h).
Proof. intros (t & Hs & Hi) He. exists t. split; [by apply shows_cons|done]. Qed.
Lemma inspected_as_active i h : inspected_as i h → si_state i = SActive → proved_active role h.
Proof. intros (t & Hs & Hi) Ha. exists t. split; [done|]. unfold active_text. by rewrite Hi. Qed.

(** Activation keeps every permit that lets it write a recorded text and take it
    back, and complete a record whose slot was read active. *)
Section activation.
Context (P : Permit).
Hypothesis write_recorded : ∀ h rec id o t, Ev (resp := wresp) (JournalPrepare rec) (Some id) ∈ h → id ≠ 0%Z → renderActive (spec_of role) id o = Some t → may_write P h role t.
Hypothesis write_neutral : ∀ h, may_write P h role kNeutralBody.
Hypothesis complete_proven : ∀ h i, inspected_as i h → si_state i = SActive → may_set P h (si_mutationId i) Applied.

Lemma adopt_spec options i h r : inspected_as i h → si_state i = SActive → hoare wresp (permits P) h r (adopt_active domain role options i) (λ h' _ ok, ok = true → proved_active role h').
Proof.
  intros Hp Ha. unfold adopt_active. apply hoare_bind, hoare_call; [done|]. intros l. assert (inspected_as i (Ev (resp := wresp) JournalRecords l :: h)) as Hp1 by by apply inspected_as_cons.
  destruct (find_record _ _) as [rec|] eqn:Hf; [|done]. destruct (negb _); [done|]. apply find_in in Hf as [_ Hid].
  destruct (status rec); try done; cbn.
  - unfold hoare; cbn. split; [rewrite Hid; by apply complete_proven|]. intros []; cbn; [|done]. intros _. apply (inspected_as_active i); [by apply inspected_as_cons|done].
  - destruct (_ && _); [done|]. unfold hoare; cbn. intros _. by apply (inspected_as_active i).
Qed.

Lemma activate_neutral_spec options s i h r : fs_role s = role → inspectSnapshot s = Some i → si_state i = SNeutral →
  hoare wresp (permits P) h r (activate_neutral euid egid domain role options s) (λ h' _ ok, ok = true → proved_active role h').
Proof.
  intros Hs (f & Hf & Hi)%inspect_text Hst. assert (content f = kNeutralBody) as Hn.
  { rewrite <- Hi in Hst. unfold inspectContent in Hst. destruct (String.eqb_spec (content f) kNeutralBody) as [|_]; [done|]. by destruct (parseActiveContent _ _) as [[? ?]|]. }
  assert (∀ l n id h r, Forall (λ s', fs_role s' = role ∧ fs_captured s' = Some f) l → hoare wresp (permits P) h r (_ ← compensateFreshFailure l n id; ret false) (λ h' _ ok, ok = true → proved_active role h')) as Hfail.
  { intros l n id h' r' Hl. apply hoare_bind. eapply hoare_mono; [apply compensate_fresh_spec; eapply Forall_impl; [exact Hl|]|by intros h2 r2 []].
    intros s' [Hr' Hf']. unfold undoable. rewrite Hf', Hr', Hn. intros. apply write_neutral. }
  unfold activate_neutral, prepareRecordWithIdentifier. apply hoare_bind, hoare_bind, hoare_call; [done|]. intros [id|]; apply hoare_ret; [|done]. destruct (Z.eqb_spec id 0) as [|Hid]; [done|].
  change (c2RoleSlot role) with (spec_of role). destruct (renderActive _ _ _) as [t|] eqn:Ht; [|by apply Hfail]. apply hoare_bind. eapply hoare_mono; [apply write_spec|].
  { intros o. cbn. rewrite Hs. eapply write_recorded; [by left|done|exact Ht]. }
  intros h1 r1 [ok s1] (-> & Hr1 & Hf1). cbn [fst snd] in *. assert (Forall (λ s', fs_role s' = role ∧ fs_captured s' = Some f) [s1]) as Hl by (apply Forall_singleton; split; congruence).
  destruct ok; cbn [negb]; [|by apply Hfail]. apply hoare_bind. eapply hoare_mono; [apply fresh_spec|]. intros h2 r2 [a|] [-> Ha]; [|by apply Hfail].
  destruct (_ && _) eqn:Hok; cbn [negb]; [|by apply Hfail]. apply andb_true_iff in Hok as [Hact%bool_decide_eq_true Hia%bool_decide_eq_true]. assert (inspected_as a h2) as Hin by by apply Ha.
  unfold completePrepared. unfold hoare; cbn. split; [rewrite <- Hia; by apply complete_proven|]. intros []; cbn; [|done]. intros _. apply (inspected_as_active a); [by apply inspected_as_cons|done].
Qed.

Lemma activate_spec options h r : hoare wresp (permits P) h r (activateC2Slot euid egid domain role options) (λ h' _ ok, ok = true → proved_active role h').
Proof.
  unfold activateC2Slot. destruct (negb _); [done|]. apply hoare_bind, hoare_call; [done|]. intros []; cbn [negb]; [|done]. apply hoare_bind. eapply hoare_mono; [apply capture_spec|].
  intros h1 r1 [s|] [-> Hs]; [|done]. destruct Hs as (Hr & _ & Hshow). destruct (inspectSnapshot s) as [i|] eqn:Hi; [|done]. destruct (si_state i) eqn:Hst; try done; [by eapply activate_neutral_spec|].
  apply adopt_spec; [|done]. destruct (inspect_text s i Hi) as (f & Hf & Hin). exists (content f). split; [by apply Hshow|]. by rewrite <- Hr.
Qed.
End activation.

Lemma activate_own_spec options h r : hoare wresp (permits (own_slot role)) h r (activateC2Slot euid egid domain role options) (λ h' _ ok, ok = true → proved_active role h').
Proof. by apply activate_spec. Qed.

(** Write-ahead: the slot is written with an id the journal has given out before,
    or neutral again, and a record is completed only on a slot that was read
    active with its id. *)
Definition ahead : Permit := mkPermit
  (λ h r t, r = role ∧ (t = kNeutralBody ∨ ∃ rec id o, Ev (resp := wresp) (JournalPrepare rec) (Some id) ∈ h ∧ renderActive (spec_of role) id o = Some t))
  (λ _, False)
  (λ h id st, st = Applied ∧ ∃ i, inspected_as i h ∧ si_state i = SActive ∧ si_mutationId i = id).

Lemma activate_ahead_spec options h r : hoare wresp (permits ahead) h r (activateC2Slot euid egid domain role options) (λ h' _ ok, ok = true → proved_active role h').
Proof.
  apply activate_spec; cbn.
  - intros h' rec id o t Hin _ Ht. split; [done|]. right. by exists rec, id, o.
  - intros h'. split; [done|by left].
  - intros h' i Hi Ha. split; [done|]. by exists i.
Qed.

Lemma resolve_spec id h r : hoare wresp (permits (own_slot role)) h r (resolve_record id) (λ _ _ _, True).
Proof. unfold resolve_record, hoare. cbn. split; [done|]. intros l. destruct (find_record _ _) as [rec|]; [|done]. destruct (status rec); cbn; by try split. Qed.

Lemma compensate_slot_spec id h r : hoare wresp (permits (own_slot role)) h r (compensateC2ActiveSlot euid egid domain role id) (λ _ _ _, True).
Proof.
  unfold compensateC2ActiveSlot. destruct (negb _); [done|]. destruct (_ =? _)%Z; [done|]. apply hoare_bind, hoare_call; [done|]. intros []; cbn [negb]; [|done].
  apply hoare_bind. eapply hoare_mono; [apply capture_spec|]. intros h1 r1 [s|] [-> Hs]; [|done]. destruct Hs as (Hr & _ & _). destruct (inspectSnapshot s) as [i|]; [|done]. destruct (_ || _); [done|].
  apply hoare_bind. eapply hoare_mono; [apply write_spec; cbn; auto|]. intros h2 r2 [[] s2] (-> & Hr2 & _); cbn [fst snd negb] in *.
  - apply hoare_bind, hoare_modify, hoare_bind. eapply hoare_mono; [apply fresh_spec|]. intros h3 r3 [a|] _; [|done]. case_bool_decide; cbn [negb]; [apply resolve_spec|done].
  - destruct (negb _); [done|]. apply hoare_bind. eapply hoare_mono; [apply rollback_spec, own_undoable; congruence|]. intros h3 r3 [] ->; cbn [negb]; [|done].
    apply hoare_bind. eapply hoare_mono; [apply fresh_spec|]. intros h4 r4 [a|] _; [by destruct (_ && _)|done].
Qed.

Lemma deactivate_spec h r : hoare wresp (permits (own_slot role)) h r (deactivateC2Slot euid egid domain role) (λ _ _ _, True).
Proof.
  unfold deactivateC2Slot. destruct (negb _); [done|]. apply hoare_bind, hoare_call; [done|]. intros []; cbn [negb]; [|done]. apply hoare_bind. eapply hoare_mono; [apply fresh_spec|].
  intros h1 r1 [i|] _; [|done]. destruct (negb _); [done|]. apply hoare_bind, hoare_call; [done|]. intros l. destruct (find_record _ _) as [rec|]; [|done]. destruct (negb _); [done|]. destruct (negb _); [done|].
  apply hoare_bind. eapply hoare_mono; [apply compensate_slot_spec|]. intros h2 r2 [] _; done.
Qed.

Lemma rendered_active id options t : valid_id id → valid_options options → role ≠ RQuality → renderActive (spec_of role) id options = Some t → active_text role t.
Proof.
  intros Hid Ho Hr Ht. assert (spec_of role ∈ slots) as Hin by (destruct role; cbn; set_solver).
  assert (parseActiveContent (spec_of role) t = Some (id, options)) as Hp by (apply active_exact; [done|]; split_and!; try done; by destruct role).
  unfold active_text, inspectContent. destruct (String.eqb_spec t kNeutralBody) as [->|_]; [by rewrite neutral_is_not_active in Hp|]. by rewrite Hp.
Qed.

Lemma update_owned_spec options owned h r : valid_options options →
  hoare wresp (permits (keep_active role)) h r (updateOwnedC2HistorySlotOptions euid egid domain role options owned) (λ _ _ _, True).
Proof.
  intros Ho. unfold updateOwnedC2HistorySlotOptions. apply hoare_bind. eapply hoare_mono; [apply capture_spec|]. intros h1 r1 [s|] [-> Hs]; [|done]. destruct Hs as (Hr & _ & Hshow).
  destruct (inspectSnapshot s) as [i|] eqn:Hi; [|done]. case_bool_decide as Hst; cbn [andb negb]; [|done]. destruct (negb _); [done|].
  assert (∀ f, fs_captured s = Some f → shows (fs_role s) (content f) h1) as Hshow' by (by rewrite Hr). destruct (proved_snapshot s i h1 Hi Hst Hshow') as (_ & f & Hf & Ha). rewrite Hr in Ha.
  assert (∀ s', fs_role s' = role → fs_captured s' = Some f → undoable (keep_active role) s') as Hundo. { intros s' Hr' Hf'. unfold undoable. rewrite Hf', Hr'. cbn. auto. }
  assert (∀ l n id h r, Forall (undoable (keep_active role)) l → hoare wresp (permits (keep_active role)) h r (_ ← compensateUpdateSnapshots l n id; ret false) (λ _ _ _, True)) as Hfail.
  { intros l n id h' r' Hl. apply hoare_bind. eapply hoare_mono; [by apply compensate_update_spec|]. done. }
  unfold prepareRecordWithIdentifier. apply hoare_bind, hoare_bind, hoare_call; [done|]. intros [id|]; apply hoare_ret; [|done]. destruct (Z.eqb_spec id 0) as [|Hid]; [done|].
  case_bool_decide as Hq; [by apply Hfail|]. change (c2RoleSlot role) with (spec_of role). destruct (renderActive _ _ _) as [t|] eqn:Ht; [|by apply Hfail].
  apply hoare_bind. eapply hoare_mono; [apply write_spec|].
  { intros o. cbn. split; [done|]. intros [Hfit _]%Forall_cons. cbn in Hfit. eapply (rendered_active id options); try done. specialize (Hfit id eq_refl). unfold valid_id. lia. }
  intros h2 r2 [ok s2] (-> & Hr2 & Hf2). cbn [fst snd] in *. assert (Forall (undoable (keep_active role)) [s2]) as Hl by (apply Forall_singleton, Hundo; congruence).
  destruct ok; cbn [negb]; [|by apply Hfail]. apply hoare_bind. eapply hoare_mono; [apply fresh_spec|]. intros h3 r3 o _. destruct (negb _); [by apply Hfail|].
  unfold completePrepared, hoare; cbn. split; [done|]. by intros [].
Qed.

Lemma update_spec options h r : valid_options options → hoare wresp (permits (keep_active role)) h r (updateC2HistoryOptions euid egid domain role options) (λ _ _ _, True).
Proof.
  intros Ho. unfold updateC2HistoryOptions. case_bool_decide; [done|]. destruct (negb _); [done|]. apply hoare_bind, hoare_call; [done|]. intros []; cbn [negb]; [|done].
  apply hoare_bind. eapply hoare_mono; [apply capture_spec|]. intros h1 r1 [s|] _; [|done]. destruct (inspectSnapshot s) as [i|]; [|done]. destruct (_ || _); [done|].
  apply hoare_bind, hoare_call; [done|]. intros l. destruct (find_record _ _) as [rec|]; [|done]. cbn zeta. destruct (negb _); [done|].
  destruct (status rec); try done; [apply hoare_bind, hoare_call; [done|]; intros []; cbn [negb]; [|done]|]; (destruct (carries options i); [done|by apply update_owned_spec]).
Qed.
End operations.

(** * The calls of a transition *)

(** The programs behind the calls that the writers serve, with a fresh result;
    the others are the machine's own. *)
Definition domain_of (role : ManagedPasswordSlotRole) : PamManagedPasswordDomain := match role with RQuality => DomainQuality | _ => DomainHistory end.

Section serve.
Context (euid egid : Z).

Definition finish {A B} (f : A → SlotActivation → B) (p : WP A) : prog wresp B := pbind wresp (p no_activation) (λ x, Ret (f x.1 x.2)).

Definition serve (c : TCall) : option (prog wresp (tresp c)) :=
  match c with
  | ActivateSlot role options => Some (finish (λ ok r, (ok, r)) (activateC2Slot euid egid (domain_of role) role options))
  | DeactivateSlot role => Some (finish (λ ok _, ok) (deactivateC2Slot euid egid (domain_of role) role))
  | CompensateSlot role id => Some (finish (λ ok r, (ok, ac_changed r)) (compensateC2ActiveSlot euid egid (domain_of role) role id))
  | ProveOwned role => Some (finish (λ ok _, ok) (proveOwnedC2Slot (domain_of role) role))
  | CompletePrepared role => Some (finish (λ ok r, (ok, r)) (completeExactPreparedC2Slot (domain_of role) role))
  | UpdateOptions role options => Some (finish (λ ok r, (ok, r)) (updateC2HistoryOptions euid egid (domain_of role) role options))
  | _ => None
  end.
End serve.
