(* ===== verification/PamWriterWorld.v ===== *)
(** The slot writers on a disk: they serve the calls of a transition the way the
    transition relies on, and no moment of their work takes an active slot from a
    selected profile. *)

From S2P Require Import Prelude PolicyValue PolicyModel MutationRecord MutationValid AtomicWriter Journal Effects PamSlots PamSlotFacts PamTopology PamTransition PamTransitionFacts PamWriter PamMachine PamWriterFacts.
Open Scope string_scope.
Open Scope list_scope.

(** * The disk *)

(** What a call of a writer does to the machine. A file is read as it is, or not
    at all; an atomic write replaces the whole text of its slot or leaves it; the
    journal is not a slot. *)
Definition disk_effect (c : WCall) : wresp c → PamMachine → PamMachine → Prop :=
  match c with
  | Lstat _ | FsyncParent _ => λ _ m m', m' = m
  | ReadRegular role => λ x m m', m' = m ∧ ∀ f, x = Some f → pm_slot m role = Some (content f)
  | AtomicWrite role t _ => λ _ m m', pm_state m' = pm_state m ∧ same_slots (Some role) m m' ∧ (pm_slot m' role = pm_slot m role ∨ pm_slot m' role = Some t)
  | Unlink role => λ _ m m', pm_state m' = pm_state m ∧ same_slots (Some role) m m'
  | JournalPrepare _ => λ x m m', pm_state m' = pm_state m ∧ same_slots None m m' ∧ ∀ i, x = Some i → (0 ≤ i ≤ UINTMAX_MAX)%Z
  | _ => λ _ m m', pm_state m' = pm_state m ∧ same_slots None m m'
  end.

Class SlotDisk {E} (low : ∀ c, E → wresp c * E) (view : E → PamMachine) := { disk : ∀ c e, disk_effect c (low c e).1 (view e) (view (low c e).2) }.

Section work.
Context {E : Type} (low : ∀ c, E → wresp c * E) (view : E → PamMachine) `{!SlotDisk low view}.
(** The slot that is worked on, and what its text must be like. *)
Context (role : ManagedPasswordSlotRole) (P : Permit) (K : option string → Prop) (m0 : PamMachine).
Hypothesis write_ok : ∀ h r t, may_write P h r t → r = role ∧ (ids_fit h → K (Some t)).
Hypothesis remove_ok : ∀ r, may_remove P r → r = role ∧ ∀ t, K t.

Record working (h : list wevent) (e : E) : Prop := {
  wk_state : pm_state (view e) = pm_state m0;
  wk_slots : same_slots (Some role) m0 (view e);
  wk_ids : ids_fit h;
  wk_shows : ∀ t, shows role t h → pm_slot (view e) role = Some t;
  wk_text : K (pm_slot (view e) role)
}.

Lemma same_trans but m1 m2 m3 : same_slots but m1 m2 → same_slots but m2 m3 → same_slots but m1 m3.
Proof. intros H1 H2 r Hr. by rewrite (H2 r Hr), (H1 r Hr). Qed.
Lemma same_weaken but m1 m2 : same_slots None m1 m2 → same_slots but m1 m2.
Proof. intros H1 r _. by apply H1. Qed.

Lemma shows_inv t (e : wevent) h : shows role t (e :: h) → read_of role e = Some t ∨ (shows role t h ∧ touches role (ev_call e) = false).
Proof.
  intros (later & e0 & earlier & Hh & Hr & Hl). destruct later as [|e1 later]; injection Hh as -> ->; [by left|]. right. split; [|apply Hl; by left].
  exists later, e0, earlier. split; [done|]. split; [done|]. intros e' He. apply Hl. by right.
Qed.

(** A call that reads, or is about something else. *)
Lemma working_same c (x : wresp c) h e e' : working h e → pm_state (view e') = pm_state (view e) → same_slots None (view e) (view e') →
  id_fits (Ev (resp := wresp) c x) → (∀ t, read_of role (Ev (resp := wresp) c x) = Some t → pm_slot (view e) role = Some t) → working (Ev (resp := wresp) c x :: h) e'.
Proof.
  intros [H1 H2 H3 H4 H5] Hst Hsl Hid Hrd. split; [congruence|eapply same_trans; [exact H2|by apply same_weaken]|by apply Forall_cons| |by rewrite Hsl].
  rewrite Hsl by done. intros t [Hr|[Hs _]]%shows_inv; [by apply Hrd|by apply H4].
Qed.

(** A call that may have changed the slot. *)
Lemma working_touched c (x : wresp c) h e e' : working h e → pm_state (view e') = pm_state (view e) → same_slots (Some role) (view e) (view e') →
  id_fits (Ev (resp := wresp) c x) → touches role c = true → read_of role (Ev (resp := wresp) c x) = None → K (pm_slot (view e') role) → working (Ev (resp := wresp) c x :: h) e'.
Proof.
  intros [H1 H2 H3 H4 H5] Hst Hsl Hid Ht Hrd HK. split; [congruence|by eapply same_trans|by apply Forall_cons| |done]. intros t [Hr|[_ Hs]]%shows_inv; [congruence|]. cbn in Hs. congruence.
Qed.

Lemma working_step h e c : working h e → permits P h c → working (Ev c (low c e).1 :: h) (low c e).2.
Proof.
  intros Hw Hp. pose proof (disk (low := low) c e) as Hd. destruct (low c e) as [x e']. cbn [fst snd] in *. destruct c as [r|r|r t o|r|r| | | |rec|id|id st]; cbn [disk_effect permits] in Hd, Hp.
  - apply (working_same (Lstat r) x h e); rewrite ?Hd; try done.
  - destruct Hd as [Hd Hx]. apply (working_same (ReadRegular r) x h e); rewrite ?Hd; try done. intros t. cbn. case_bool_decide as Hr; [|done]. subst r. destruct x as [f|]; [|done]. intros [= <-]. by apply Hx.
  - destruct (write_ok h r t Hp) as [-> HK]. destruct Hd as (Hst & Hsl & Ht). apply (working_touched (AtomicWrite role t o) x h e); try done; [cbn; by apply bool_decide_eq_true_2|].
    destruct Ht as [->| ->]; [by destruct Hw|]. by apply HK, (wk_ids h e).
  - destruct (remove_ok r Hp) as [-> HK]. destruct Hd as (Hst & Hsl). apply (working_touched (Unlink role) x h e); try done. cbn. by apply bool_decide_eq_true_2.
  - apply (working_same (FsyncParent r) x h e); rewrite ?Hd; try done.
  - destruct Hd as (Hst & Hsl). by apply (working_same JournalOperational x h e).
  - destruct Hd as (Hst & Hsl). by apply (working_same JournalReadable x h e).
  - destruct Hd as (Hst & Hsl). by apply (working_same JournalRecords x h e).
  - destruct Hd as (Hst & Hsl & Hx). by apply (working_same (JournalPrepare rec) x h e).
  - destruct Hd as (Hst & Hsl). by apply (working_same (JournalDiscard id) x h e).
  - destruct Hd as (Hst & Hsl). by apply (working_same (JournalSetStatus id st) x h e).
Qed.

(** A program that keeps the permit, from the machine [m0]. *)
Lemma worked {A B} (f : A → SlotActivation → B) (p : WP A) (Q : list wevent → SlotActivation → A → Prop) e :
  view e = m0 → K (pm_slot m0 role) → hoare wresp (permits P) [] no_activation p Q →
  Forall (λ e', ∃ h, working h e') (visited wresp low (finish f p) e) ∧
  let '(x, h, e') := run wresp low (finish f p) [] e in working h e' ∧ ∃ a r, x = f a r ∧ Q h r a.
Proof.
  intros He HK Hp. assert (working [] e) as Hw. { split; try (by rewrite He); [by constructor|]. intros t (later & e0 & earlier & Hh & _). by destruct later. }
  assert (ensures wresp (permits P) (λ h x, ∃ a r, x = f a r ∧ Q h r a) [] (finish f p)) as Hf.
  { unfold finish. apply ensures_bind. eapply ensures_mono; [exact Hp|]. intros h [a r] HQ. cbn. by exists a, r. }
  split; [by eapply (visited_ensures wresp low working (permits P)); [exact working_step| |]|].
  pose proof (run_ensures wresp low working (permits P) _ (finish f p) [] e working_step Hw Hf) as Hr. destruct (run _ _ _ _ _) as [[x h] e']. by destruct Hr.
Qed.
End work.

(** * Serving a transition *)

Definition role_of (c : TCall) : ManagedPasswordSlotRole :=
  match c with
  | Native _ r | ActivateSlot r _ | DeactivateSlot r | CompensateSlot r _ | ProveOwned r | CompletePrepared r | UpdateOptions r _ => r
  | Inspect | ActiveRecords _ => RQuality
  end.

(** What the program of a call may do, and what it keeps true of its slot. *)
Definition permit_of (c : TCall) : Permit :=
  match c with
  | ActivateSlot r _ | DeactivateSlot r | CompensateSlot r _ => own_slot r
  | UpdateOptions r _ => keep_active r
  | _ => read_only
  end.
Definition text_kept (c : TCall) (before : option string) (t : option string) : Prop :=
  match c with
  | ActivateSlot _ _ | DeactivateSlot _ | CompensateSlot _ _ => True
  | UpdateOptions r _ => si_state (inspectContent (spec_of r) before).2 = SActive → si_state (inspectContent (spec_of r) t).2 = SActive
  | _ => t = before
  end.

Lemma permit_writes c before h r t : may_write (permit_of c) h r t → r = role_of c ∧ (ids_fit h → text_kept c before (Some t)).
Proof. destruct c; cbn; try done; intros; [by split..|]. destruct H as [-> Ha]. split; [done|]. intros Hf _. by apply Ha. Qed.
Lemma permit_removes c before r : may_remove (permit_of c) r → r = role_of c ∧ ∀ t, text_kept c before t.
Proof. destruct c; cbn; try done; intros; by split. Qed.
Lemma text_start c t : text_kept c t t.
Proof. by destruct c; cbn. Qed.

Section serving.
Context {E : Type} (top : ∀ c, E → tresp c * E) (low : ∀ c, E → wresp c * E) (view : E → PamMachine) (euid egid : Z) `{!SlotDisk low view}.
(** The calls that the writers do not serve. *)
Hypothesis top_faithful : ∀ c e, serve euid egid c = None → effect c (top c e).1 (view e) (view (top c e).2).

Definition served (c : TCall) (e : E) : tresp c * E :=
  match serve euid egid c with Some p => let '(x, _, e') := run wresp low p [] e in (x, e') | None => top c e end.

(** The worlds in the course of a call: those between the calls of its program. *)
Definition moments (c : TCall) (e : E) : list E := match serve euid egid c with Some p => visited wresp low p e | None => [e] end.
Fixpoint course {A} (p : prog tresp A) (e : E) : list E :=
  match p with Ret _ => [e] | Do c k => moments c e ++ let '(x, e') := served c e in course (k x) e' end.

Notation at_work c e := (working view (role_of c) (text_kept c (pm_slot (view e) (role_of c))) (view e)).

Lemma served_work c e p : serve euid egid c = Some p → sound_call c → Forall (λ e', ∃ h, at_work c e h e') (visited wresp low p e) ∧
  let '(x, h, e') := run wresp low p [] e in at_work c e h e' ∧
    (match c as c0 return tresp c0 → Prop with
     | ActivateSlot r _ => λ x, x.1 = true → proved_active r h
     | ProveOwned r => λ x, x = true → proved_active r h
     | _ => λ _, True
     end) x.
Proof.
  intros Hp Hs. pose proof (permit_writes c (pm_slot (view e) (role_of c))) as Hw. pose proof (permit_removes c (pm_slot (view e) (role_of c))) as Hr.
  assert (∀ A (f : A → SlotActivation → tresp c) q (Q : list wevent → SlotActivation → A → Prop), p = finish f q → hoare wresp (permits (permit_of c)) [] no_activation q Q →
    Forall (λ e', ∃ h, at_work c e h e') (visited wresp low p e) ∧ let '(x, h, e') := run wresp low p [] e in at_work c e h e' ∧ ∃ a r, x = f a r ∧ Q h r a) as Hgo.
  { intros A f q Q -> Hq. by apply (worked low view (role_of c) (permit_of c) (text_kept c (pm_slot (view e) (role_of c))) (view e) Hw Hr f q Q); [|apply text_start|]. }
  clear Hw Hr. destruct c; try discriminate Hp; injection Hp as <-; cbn [sound_call] in Hs.
  - destruct (Hgo _ _ _ _ eq_refl (activate_own_spec euid egid (domain_of role) role options [] no_activation)) as [Hv Hx]. split; [exact Hv|].
    destruct (run _ _ _ _ _) as [[x h] e']. destruct Hx as [Hx (a & r & -> & HQ)]. split; [exact Hx|exact HQ].
  - destruct (Hgo _ _ _ _ eq_refl (deactivate_spec euid egid (domain_of role) role [] no_activation)) as [Hv Hx]. split; [exact Hv|]. destruct (run _ _ _ _ _) as [[x h] e']. by destruct Hx.
  - destruct (Hgo _ _ _ _ eq_refl (compensate_slot_spec euid egid (domain_of role) role mutationId [] no_activation)) as [Hv Hx]. split; [exact Hv|]. destruct (run _ _ _ _ _) as [[x h] e']. by destruct Hx.
  - destruct (Hgo _ _ _ _ eq_refl (prove_owned_spec (domain_of role) role [] no_activation)) as [Hv Hx]. split; [exact Hv|].
    destruct (run _ _ _ _ _) as [[x h] e']. destruct Hx as [Hx (a & r & -> & HQ)]. split; [exact Hx|exact HQ].
  - destruct (Hgo _ _ _ _ eq_refl (complete_exact_spec (domain_of role) role [] no_activation)) as [Hv Hx]. split; [exact Hv|]. destruct (run _ _ _ _ _) as [[x h] e']. by destruct Hx.
  - destruct (Hgo _ _ _ _ eq_refl (update_spec euid egid (domain_of role) role options [] no_activation Hs)) as [Hv Hx]. split; [exact Hv|]. destruct (run _ _ _ _ _) as [[x h] e']. by destruct Hx.
Qed.

(** The writers serve the calls as a transition relies on. *)
Lemma served_faithful : Faithful served view.
Proof.
  split. intros c e Hs. unfold served. destruct (serve euid egid c) as [p|] eqn:Hp; [|by apply top_faithful]. destruct (served_work c e p Hp Hs) as [_ Hx].
  destruct (run wresp low p [] e) as [[x h] e']. destruct Hx as [[H1 H2 H3 H4 H5] Hx]. cbn [fst snd].
  assert (∀ r, role_of c = r → proved_active r h → slot_active r (view e')) as Ha. { intros r <- (t & Ht & Hact). unfold slot_active. by rewrite (H4 t Ht). }
  assert (text_kept c (pm_slot (view e) (role_of c)) (pm_slot (view e') (role_of c)) → (∀ b a, text_kept c b a → a = b) → same_slots None (view e) (view e')) as Hall.
  { intros Ht Hk r _. destruct (decide (r = role_of c)) as [->|Hne]; [by apply Hk|]. apply H2. congruence. }
  destruct c; try discriminate Hp; cbn [effect] in *; cbn [role_of] in *.
  - split_and!; [done|done|]. intros Hok. by apply Ha, Hx.
  - done.
  - done.
  - split; [done|]. split; [by apply Hall|]. intros Hok. by apply Ha, Hx.
  - split; [done|]. by apply Hall.
  - done.
Qed.

(** At every moment of an allowed call a selected profile has an active slot. *)
Lemma moments_backed wished h e c : valid_options wished → informed view h e → order wished h c → Forall (λ e', backed (view e')) (moments c e).
Proof.
  intros Hv Hi Ho. unfold moments. destruct (serve euid egid c) as [p|] eqn:Hp; [|apply Forall_singleton; by apply (in_backed view h)].
  destruct (served_work c e p Hp (order_sound wished Hv h c Ho)) as [Hall _]. eapply Forall_impl; [exact Hall|]. intros e' [h' [H1 H2 H3 H4 H5]] r Hsel.
  assert (profile_selected r (view e) = true) as Hsel0 by (unfold profile_selected in *; by rewrite <- H1). pose proof (in_backed view h e Hi r Hsel0) as Hact.
  destruct (decide (r = role_of c)) as [->|Hne]; [|unfold slot_active; rewrite (H2 r); [done|congruence]].
  assert (known_unselected (role_of c) h → False) as Hk. { intros Hu%(in_unselected view h e Hi). congruence. }
  unfold slot_active in *. destruct c; try discriminate Hp; cbn [role_of text_kept order] in *; first [by destruct (Hk Ho)|by rewrite H5|by apply H5].
Qed.

Lemma course_backed {A} wished (Q : list (event tresp) → A → Prop) p h e : valid_options wished → informed view h e → ensures tresp (order wished) Q h p → Forall (λ e', backed (view e')) (course p e).
Proof.
  intros Hv. revert h e. induction p as [a|c k IH]; intros h e Hi Hp; cbn [course ensures] in *; [apply Forall_singleton; by apply (in_backed view h)|].
  destruct Hp as [Ho Hk]. apply Forall_app. split; [by eapply moments_backed|]. pose proof (informed_step served view (Faithful0 := served_faithful) wished Hv h e c Hi Ho) as Hi'.
  destruct (served c e) as [x e']. by apply (IH x (Ev c x :: h) e').
Qed.
End serving.
