(* ===== verification/PamRelease.v ===== *)
(** Who asks for transitions: the coordinator that applies the configuration
    (fic/src/modules/identity_access/pam/PamPasswordTopologyCoordinator) and the
    release before the package is removed (PamPasswordPackageRelease).

    The preflight of an application and the lock of a release are parameters. The
    hooks for tests are never set. Error texts are left out. *)

From S2P Require Import Prelude PolicyValue PolicyModel ConfigFile OwnershipGrammar MutationRecord MutationValid Effects PamSlots PamTopology PamTransition.
Open Scope string_scope.
Open Scope list_scope.
Open Scope prog_scope.

(** * The configuration *)

Record PamPasswordRequestedState := mkRequested { qualityRequested : bool; historyRequested : bool; historyOptions : ManagedPwhistorySlotOptions }.

Inductive PamCapabilityConfigurationMode := ProviderConfigFile | ModuleArguments.
Record PamModuleArgumentSupport := mkSupport { pwhistoryRemember : bool; pwhistoryEnforceForRoot : bool }.

Definition kPasswordHistoryDepthMin : Z := 1.
Definition kPasswordHistoryDepthMax : Z := 50.
Definition kPasswordHistoryDepthDefault : Z := 5.

(** [config]: the module configuration, if it could be loaded. *)
Definition readJointPasswordConfigIntent (config : option Config) : option PamPasswordRequestedState :=
  match config with
  | None => None
  | Some c => Some (mkRequested (String.eqb (ModuleConfig.getPolicyStatus c "enable_password_quality") "ENABLE") (String.eqb (ModuleConfig.getPolicyStatus c "enable_password_history") "ENABLE") no_options)
  end.

Definition read_depth (c : Config) : option Z :=
  if ModuleConfig.hasConfiguredValue c "password_history_depth" then
    match parseUnsignedArgument (ModuleConfig.getPolicyValue c "password_history_depth") with
    | Some depth => if (depth <? kPasswordHistoryDepthMin)%Z || (kPasswordHistoryDepthMax <? depth)%Z then None else Some depth
    | None => None
    end
  else Some kPasswordHistoryDepthDefault.

Definition read_enforce (c : Config) (supported : bool) : option bool :=
  if ModuleConfig.hasConfiguredValue c "password_history_enforce_for_root" then
    let raw := ModuleConfig.getPolicyValue c "password_history_enforce_for_root" in
    if String.eqb raw "yes" then if supported then Some true else None
    else if String.eqb raw "no" then Some false else None
  else Some false.

(** [history]: how the platform configures the history capability, if it has it. *)
Definition readJointPasswordDesiredState (config : option Config) (history : option (PamCapabilityConfigurationMode * PamModuleArgumentSupport)) : option PamPasswordRequestedState :=
  match readJointPasswordConfigIntent config, config with
  | Some requested, Some c =>
      match history with
      | Some (ModuleArguments, support) =>
          if negb (pwhistoryRemember support) then None
          else match read_depth c with
               | None => None
               | Some depth =>
                   match read_enforce c (pwhistoryEnforceForRoot support) with
                   | None => None
                   | Some enforce => Some (mkRequested (qualityRequested requested) (historyRequested requested) (mkSlotOptions (Some depth) enforce))
                   end
               end
      | _ => Some requested
      end
  | _, _ => None
  end.

(** * The coordinator *)

Definition coordinated (requested : PamPasswordRequestedState) : TP bool :=
  _ ← modify (λ _, fresh_result);
  PamTransition.transition (qualityRequested requested) (historyRequested requested) (historyOptions requested).

Definition set_failed (r : PamPasswordTransitionResult) : PamPasswordTransitionResult :=
  mkTransitionResult false (tr_changedSystemState r) (tr_before r) (tr_after r) (tr_executed r) (tr_compensated r) (tr_compensatedStateProven r).

(** [desired]: what was read of the configuration. *)
Definition applyJointRequestedState (desired : option PamPasswordRequestedState) (preflight : PamPasswordRequestedState → bool) : TP bool :=
  match desired with
  | None => ret false
  | Some requested =>
      if negb (preflight requested) then _ ← modify (λ _, fresh_result); ret false
      else
        moved ← coordinated requested;
        if negb moved then ret false
        else
          confirmed ← confirmApplyOwnership;
          if negb confirmed then _ ← modify set_failed; ret false else ret true
  end.

(** * The release *)

Inductive ReleaseMode := Preflight | Release | ProveReleased.
#[export] Instance ReleaseMode_eq_dec : EqDecision ReleaseMode.
Proof. solve_decision. Defined.

Record Report := mkReport {
  rp_before : PamPasswordTopologyClass;
  rp_after : PamPasswordTopologyClass;
  rp_recovered : list string;
  rp_detached : list string;
  rp_changed : bool;
  rp_compensated : bool;
  rp_compensatedProven : bool;
  rp_foreign : bool
}.
Definition fresh_report : Report := mkReport TAmbiguous TAmbiguous [] [] false false false false.

Definition RP (A : Type) : Type := sprog tresp (S := Report) A.

Record IdentityView := mkView {
  v_profileId : string;
  v_selected : bool;
  v_owned : bool;
  v_prepared : bool;
  v_slotState : ManagedPasswordSlotState;
  v_slotMutationId : Z;
  v_role : ManagedPasswordSlotRole
}.

Definition slot_mutation (role : ManagedPasswordSlotRole) (sn : PamPasswordTopologySnapshot) : Z :=
  match role with RQuality => sn_qualityMutationId sn | RHistoryNormal => sn_historyMutationId sn | RHistoryInitial => sn_historyInitialMutationId sn end.
Definition identity_view (sn : PamPasswordTopologySnapshot) (role : ManagedPasswordSlotRole) : IdentityView :=
  mkView (slotProfileIdentifier role) (selected role (sn_selections sn)) (PamTransition.owned role (sn_ownership sn)) (PamTransition.prepared role (sn_ownership sn))
    (slot_state role (sn_slots sn)) (slot_mutation role sn) role.
Definition identityViews (sn : PamPasswordTopologySnapshot) : list IdentityView := identity_view sn <$> [RQuality; RHistoryNormal; RHistoryInitial].

Definition is_leftover (v : IdentityView) : bool := negb (v_selected v) && v_prepared v && bool_decide (v_slotState v = SActive).

(** The snapshot and the leftovers of crashes in it; nothing when the release must
    not go on. *)
Definition check_structure (sn : PamPasswordTopologySnapshot) : option (list IdentityView) :=
  if negb (sn_coherent sn) then None
  else if ficHistorySelected (sn_selections sn) && ficHistoryInitialSelected (sn_selections sn) then None
  else if existsb (λ v, v_selected v && negb (v_owned v) || negb (v_selected v) && v_owned v) (identityViews sn) then None
  else Some (List.filter is_leftover (identityViews sn)).

Definition inspectAndCheckStructure : RP (option (PamPasswordTopologySnapshot * list IdentityView)) :=
  sn ← call Inspect;
  ret (match sn with
       | None => None
       | Some sn => match check_structure sn with None => None | Some leftovers => Some (sn, leftovers) end
       end).

(** The state that neutralizing a leftover will lead to. *)
Definition clear_prepared (role : ManagedPasswordSlotRole) (o : PamPasswordOwnership) : PamPasswordOwnership :=
  mkOwnership (ficQualityOwned o) (ficHistoryOwned o) (ficHistoryInitialOwned o)
    (if bool_decide (role = RQuality) then false else ficQualityPrepared o)
    (if bool_decide (role = RHistoryNormal) then false else ficHistoryPrepared o)
    (if bool_decide (role = RHistoryInitial) then false else ficHistoryInitialPrepared o).
Definition virtually_recovered (sn : PamPasswordTopologySnapshot) (v : IdentityView) : PamPasswordTopologySnapshot :=
  let role := v_role v in
  mkSnapshot (sn_selections sn) (set_slot role SNeutral (sn_slots sn))
    (if bool_decide (role = RQuality) then 0%Z else sn_qualityMutationId sn)
    (if bool_decide (role = RHistoryNormal) then 0%Z else sn_historyMutationId sn)
    (if bool_decide (role = RHistoryInitial) then 0%Z else sn_historyInitialMutationId sn)
    (sn_generated sn) (sn_foreignProfileSelected sn) (sn_foreignQualityProducer sn) (clear_prepared role (sn_ownership sn)).

Definition checkSafetyAndSemantics (sn : PamPasswordTopologySnapshot) (leftovers : list IdentityView) : bool :=
  let virtual := foldl virtually_recovered sn leftovers in
  usable_class (sn_class virtual) && sn_safe virtual && provePamPasswordTopologySemantics virtual.

Definition add_recovered (id : string) (r : Report) : Report :=
  mkReport (rp_before r) (rp_after r) (rp_recovered r ++ [id]) (rp_detached r) (rp_changed r) (rp_compensated r) (rp_compensatedProven r) (rp_foreign r).

Fixpoint neutralize_leftovers (leftovers : list IdentityView) : RP bool :=
  match leftovers with
  | [] => ret true
  | v :: leftovers =>
      compensated ← call (CompensateSlot (v_role v) (v_slotMutationId v));
      if negb compensated.1 then ret false
      else
        _ ← modify (add_recovered (v_profileId v));
        neutralize_leftovers leftovers
  end.

(** The slot of a recovered leftover is neutral and bound to nothing. *)
Definition recovered_as (sn : PamPasswordTopologySnapshot) (leftover : IdentityView) : bool :=
  let v := identity_view sn (v_role leftover) in
  negb (v_selected v) && negb (v_owned v) && negb (v_prepared v) && bool_decide (v_slotState v = SNeutral) && (v_slotMutationId v =? 0)%Z.

Definition recoverCrashLeftovers (leftovers : list IdentityView) : RP bool :=
  neutralized ← neutralize_leftovers leftovers;
  if negb neutralized then ret false
  else if bool_decide (length leftovers = 0%nat) then ret true
  else
    fresh ← inspectAndCheckStructure;
    ret (match fresh with
         | None => false
         | Some (sn, remaining) => forallb (recovered_as sn) leftovers && checkSafetyAndSemantics sn remaining
         end).

Definition set_proven (sn : PamPasswordTopologySnapshot) (r : Report) : Report :=
  mkReport (rp_before r) (sn_class sn).1 (rp_recovered r) (rp_detached r) (rp_changed r) (rp_compensated r) (rp_compensatedProven r) (sn_foreignQualityProducer sn).

(** Nothing of FIC is left in the topology. *)
Definition released (foreignBefore : bool) (sn : PamPasswordTopologySnapshot) : bool :=
  forallb (λ v, negb (v_selected v) && bool_decide (v_slotState v = SNeutral)) (identityViews sn) &&
  negb (is_some (qualityInclude (sn_generated sn)) || is_some (historyInclude (sn_generated sn)) || is_some (historyInitialInclude (sn_generated sn))) &&
  negb (foreignBefore && negb (sn_foreignQualityProducer sn)) &&
  bool_decide ((sn_class sn).1 ∈ [TNone; TForeignQuality]) && checkSafetyAndSemantics sn [].

Definition proveFinalState (pre : PamPasswordTopologySnapshot) : RP bool :=
  final ← inspectAndCheckStructure;
  match final with
  | Some (sn, []) =>
      if released (sn_foreignQualityProducer pre) sn then _ ← modify (set_proven sn); ret true else ret false
  | _ => ret false
  end.

Definition set_entry (sn : PamPasswordTopologySnapshot) (r : Report) : Report :=
  mkReport (sn_class sn).1 (rp_after r) (rp_recovered r) (rp_detached r) (rp_changed r) (rp_compensated r) (rp_compensatedProven r) (sn_foreignQualityProducer sn).
Definition set_preflight (r : Report) : Report :=
  mkReport (rp_before r) TNone (rp_recovered r) (rp_detached r) (rp_changed r) (rp_compensated r) (rp_compensatedProven r) (rp_foreign r).
Definition set_transition (ok : bool) (t : PamPasswordTransitionResult) (r : Report) : Report :=
  if ok then mkReport (rp_before r) (rp_after r) (rp_recovered r) (tr_executed t) (tr_changedSystemState t) (rp_compensated r) (rp_compensatedProven r) (rp_foreign r)
  else mkReport (rp_before r) (rp_after r) (rp_recovered r) (rp_detached r) (tr_changedSystemState t) (tr_compensated t) (tr_compensatedStateProven t) (rp_foreign r).

(** A transition with a result of its own. *)
Definition own_transition (q h : bool) (options : ManagedPwhistorySlotOptions) : RP (bool * PamPasswordTransitionResult) :=
  λ r, pbind tresp (PamTransition.transition q h options fresh_result) (λ x, Ret (x, r)).

(** [locked]: the exclusive lock of the release could be taken. *)
Definition release (mode : ReleaseMode) (locked : bool) : RP bool :=
  entry ← inspectAndCheckStructure;
  match entry with
  | None => ret false
  | Some (sn, leftovers) =>
      if negb (checkSafetyAndSemantics sn leftovers) then ret false
      else
        _ ← modify (set_entry sn);
        match mode with
        | ProveReleased => proveFinalState sn
        | Preflight => _ ← modify set_preflight; ret true
        | Release =>
            if negb locked then ret false
            else
              recovered ← recoverCrashLeftovers leftovers;
              if negb recovered then ret false
              else
                moved ← own_transition false false no_options;
                _ ← modify (set_transition moved.1 moved.2);
                if negb moved.1 then ret false else proveFinalState sn
        end
  end.
