(* ===== verification/PamReleaseFacts.v ===== *)
(** Applications and releases keep the order of the calls, and what they report
    is what they saw last. *)

From S2P Require Import Prelude PolicyValue PolicyModel ConfigFile OwnershipGrammar MutationRecord MutationValid Effects PamSlots PamSlotFacts PamTopology PamTransition PamTransitionFacts PamTruth PamRelease.
Open Scope string_scope.
Open Scope list_scope.
Open Scope prog_scope.

(** * The configuration *)

(** Only options that can be rendered are asked for. *)
Lemma desired_options_valid config history requested : readJointPasswordDesiredState config history = Some requested → valid_options (historyOptions requested).
Proof.
  unfold readJointPasswordDesiredState, readJointPasswordConfigIntent. destruct config as [c|]; [|done]. destruct history as [[[] support]|]; [by intros [= <-]| |by intros [= <-]].
  destruct (negb _); [done|]. destruct (read_depth c) as [depth|] eqn:Hd; [|done]. destruct (read_enforce _ _); [|done]. intros [= <-]. cbn. unfold valid_options; cbn. unfold read_depth in Hd.
  destruct (ModuleConfig.hasConfiguredValue _ _); [|injection Hd as <-; vm_compute; split; congruence]. destruct (parseUnsignedArgument _) as [n|]; [|done]. destruct (_ || _) eqn:Hb; [done|]. injection Hd as ->.
  apply orb_false_iff in Hb as [?%Z.ltb_ge ?%Z.ltb_ge]. unfold kPasswordHistoryDepthMin, kPasswordHistoryDepthMax, UINT_MAX in *. lia.
Qed.

(** * Order *)

Lemma confirm_order wished h r : hoare tresp (order wished) h r confirmApplyOwnership (λ _ _ _, True).
Proof.
  unfold confirmApplyOwnership, confirm_capability, hoare. cbn. split; [done|]. intros [sn|]; cbn; [|done]. destruct (negb _); cbn; [done|]. split; [done|]. intros l. cbn. destruct (negb _); [done|]. cbn. by split.
Qed.

Lemma apply_order requested preflight r : hoare tresp (order (historyOptions requested)) [] r (applyJointRequestedState (Some requested) preflight) (λ _ _ _, True).
Proof.
  unfold applyJointRequestedState. destruct (negb _); [done|]. apply hoare_bind. unfold coordinated. apply hoare_bind, hoare_modify. eapply hoare_mono; [apply transition_order|].
  intros h1 r1 [] _; cbn [negb]; [|done]. apply hoare_bind. eapply hoare_mono; [apply confirm_order|]. intros h2 r2 [] _; done.
Qed.


(** The leftovers are unselected in the snapshot. *)
Lemma leftovers_unselected sn leftovers : check_structure sn = Some leftovers → Forall (λ v, selected (v_role v) (sn_selections sn) = false) leftovers.
Proof.
  unfold check_structure. destruct (negb _); [done|]. destruct (_ && _); [done|]. destruct (existsb _ _); [done|]. intros Hl%(inj Some). subst leftovers. apply Forall_forall. intros v Hv%list_elem_of_In.
  apply List.filter_In in Hv as [Hin Hl]. unfold is_leftover in Hl. rewrite !andb_true_iff in Hl. destruct Hl as [[Hs%negb_true_iff _] _].
  apply list_elem_of_In in Hin. unfold identityViews in Hin. apply list_elem_of_fmap in Hin as (role & -> & _). exact Hs.
Qed.

Section release.
Notation G := (order no_options).

Lemma structure_spec (P : list tevent → TCall → Prop) h r : (∀ h, P h Inspect) → hoare tresp P h r inspectAndCheckStructure (λ h' r' o, r' = r ∧
  match o with Some (sn, leftovers) => h' = Ev (resp := tresp) Inspect (Some sn) :: h ∧ check_structure sn = Some leftovers | None => ∃ x, h' = Ev (resp := tresp) Inspect x :: h end).
Proof.
  intros HP. unfold inspectAndCheckStructure, hoare. cbn. split; [apply HP|]. intros [sn|]; cbn; [|split; [done|by eexists]]. destruct (check_structure sn) eqn:Hc; (split; [done|]); [done|by eexists].
Qed.

Lemma neutralize_order leftovers h r : Forall (λ v, known_unselected (v_role v) h) leftovers → hoare tresp G h r (neutralize_leftovers leftovers) (λ _ _ _, True).
Proof.
  revert h r. induction leftovers as [|v leftovers IH]; intros h r Hl; [done|]. apply Forall_cons in Hl as [Hv Hl]. cbn [neutralize_leftovers]. apply hoare_bind, hoare_call; [exact Hv|].
  intros [[] changed]; cbn [negb fst]; [|done]. apply hoare_bind, hoare_modify, IH. eapply Forall_impl; [exact Hl|]. intros w Hw. by apply unselected_cons.
Qed.

Lemma recover_leftovers_order leftovers h r : Forall (λ v, known_unselected (v_role v) h) leftovers → hoare tresp G h r (recoverCrashLeftovers leftovers) (λ _ _ _, True).
Proof.
  intros Hl. unfold recoverCrashLeftovers. apply hoare_bind. eapply hoare_mono; [by apply neutralize_order|]. intros h1 r1 [] _; cbn [negb]; [|done]. case_bool_decide; [done|].
  apply hoare_bind. eapply hoare_mono; [by apply structure_spec|]. done.
Qed.

Lemma prove_final_order pre h r : hoare tresp G h r (proveFinalState pre) (λ _ _ _, True).
Proof. unfold proveFinalState. apply hoare_bind. eapply hoare_mono; [by apply structure_spec|]. intros h1 r1 [[sn [|v l]]|] _; try done. by destruct (released _ _). Qed.

Lemma own_transition_spec {Q : list tevent → bool * PamPasswordTransitionResult → Prop} (P : list tevent → TCall → Prop) q h options h0 r :
  hoare tresp P h0 fresh_result (PamTransition.transition q h options) (λ h' t ok, Q h' (ok, t)) → hoare tresp P h0 r (own_transition q h options) (λ h' r' x, r' = r ∧ Q h' x).
Proof. intros Ht. unfold hoare, own_transition. apply ensures_bind. eapply ensures_mono; [exact Ht|]. by intros h' [ok t] HQ. Qed.

Lemma release_order mode locked r : hoare tresp G [] r (release mode locked) (λ _ _ _, True).
Proof.
  unfold release. apply hoare_bind. eapply hoare_mono; [by apply structure_spec|]. intros h1 r1 [[sn leftovers]|] [-> Ho]; [|done]. destruct Ho as [-> Hc]. destruct (negb _); [done|]. apply hoare_bind, hoare_modify.
  destruct mode; [done| |apply prove_final_order]. destruct (negb _); [done|]. apply hoare_bind. eapply hoare_mono; [apply recover_leftovers_order|].
  - eapply Forall_impl; [by apply leftovers_unselected|]. intros v Hv. by apply unselected_here.
  - intros h2 r2 [] _; cbn [negb]; [|done]. apply hoare_bind. eapply hoare_mono; [apply (own_transition_spec (Q := λ _ _, True)), transition_order|]. intros h3 r3 [ok t] [-> _]. apply hoare_bind, hoare_modify.
    destruct ok; cbn [fst negb]; [apply prove_final_order|done].
Qed.

(** What is left at the end. *)
Record nothing_left (pre sn : PamPasswordTopologySnapshot) : Prop := {
  nl_selections : sn_selections sn = mkSelections false false false;
  nl_slots : sn_slots sn = mkSlotStates SNeutral SNeutral SNeutral;
  nl_includes : ∀ role, included role (sn_generated sn) = false;
  nl_foreign : sn_foreignQualityProducer pre = true → sn_foreignQualityProducer sn = true;
  nl_class : (sn_class sn).1 = if sn_foreignQualityProducer sn then TForeignQuality else TNone;
  nl_usable : requireUsableCurrentState sn = true
}.

Lemma released_nothing_left pre sn : sn_coherent sn = true → released (sn_foreignQualityProducer pre) sn = true → nothing_left pre sn.
Proof.
  unfold released, checkSafetyAndSemantics, requireUsableCurrentState. cbn [foldl identityViews]. intros Hco Hr. rewrite !andb_true_iff in Hr. destruct Hr as [[[[Hv Hi] Hf] Hc] [[Hu Hs] Hp]].
  cbn in Hv. rewrite !andb_true_iff, !negb_true_iff, !bool_decide_eq_true in Hv. destruct Hv as ([Hq Hqs] & [Hh Hhs] & [Hn Hns] & _). apply negb_true_iff in Hi. rewrite !orb_false_iff in Hi. destruct Hi as [[Iq Ih] In].
  assert (sn_selections sn = mkSelections false false false) as Hsel. { destruct (sn_selections sn) as [a b c]. cbn in *. congruence. }
  split; [done| | | | |].
  - destruct (sn_slots sn). cbn in *. congruence.
  - by intros [].
  - intros Hpre. rewrite Hpre in Hf. cbn in Hf. by destruct (sn_foreignQualityProducer sn).
  - unfold sn_class, sn_topology. rewrite Hsel. by destruct (sn_foreignQualityProducer sn).
  - unfold requireUsableCurrentState. by rewrite Hco, Hu, Hs, Hp.
Qed.

Lemma prove_final_spec pre h r : first_seen h = Some pre → hoare tresp any h r (proveFinalState pre) (λ h' r' ok, ok = true → ∃ sn, last_seen h' = Some sn ∧ first_seen h' = Some pre ∧ nothing_left pre sn ∧ rp_after r' = (sn_class sn).1).
Proof.
  intros Hi. unfold proveFinalState. apply hoare_bind. eapply hoare_mono; [by apply structure_spec|]. intros h1 r1 [[sn [|v l]]|] [-> Ho]; try done. destruct Ho as [-> Hc].
  destruct (released _ _) eqn:Hr; [|done]. unfold hoare; cbn. intros _. exists sn. split; [done|]. split; [by rewrite Hi|]. split; [|done]. apply released_nothing_left; [|done].
  unfold check_structure in Hc. by destruct (sn_coherent sn).
Qed.

Lemma any_spec {A} (p : RP A) : ∀ h r, hoare tresp any h r p (λ h' _ _, ∃ new, h' = new ++ h).
Proof.
  assert (∀ B (q : prog tresp B) h, ensures tresp any (λ _ _, True) h q) as Hq by (intros B q; induction q; intros h; cbn; [done|split; [done|auto]]).
  intros h r. unfold hoare. eapply ensures_mono; [apply ensures_extends, Hq|]. by intros h' x [_ ?].
Qed.

Lemma release_final mode locked r : hoare tresp any [] r (release mode locked) (λ h' r' ok, ok = true → mode ≠ Preflight → ∃ pre sn, first_seen h' = Some pre ∧ last_seen h' = Some sn ∧ nothing_left pre sn ∧ rp_after r' = (sn_class sn).1).
Proof.
  unfold release. apply hoare_bind. eapply hoare_mono; [by apply structure_spec|]. intros h1 r1 [[pre leftovers]|] [-> Ho]; [|done]. destruct Ho as [-> Hc]. destruct (negb _); [done|]. apply hoare_bind, hoare_modify.
  assert (∀ h r, first_seen h = Some pre → hoare tresp any h r (proveFinalState pre) (λ h' r' ok, ok = true → mode ≠ Preflight → ∃ pre sn, first_seen h' = Some pre ∧ last_seen h' = Some sn ∧ nothing_left pre sn ∧ rp_after r' = (sn_class sn).1)) as Hfin.
  { intros h' r' Hi. eapply hoare_mono; [by apply prove_final_spec|]. intros h2 r2 ok Hok Ht _. destruct (Hok Ht) as (sn & ? & ? & ? & ?). by exists pre, sn. }
  destruct mode; [unfold hoare; cbn; by intros _ []| |by apply Hfin]. destruct (negb _); [done|]. apply hoare_bind. eapply hoare_mono; [apply any_spec|]. intros h2 r2 [] [new ->]; cbn [negb]; [|done].
  apply hoare_bind. eapply hoare_mono; [apply any_spec|]. intros h3 r3 [[] t] [new' ->]; apply hoare_bind, hoare_modify; cbn [fst negb]; [|done]. apply Hfin. by apply first_seen_app, first_seen_app.
Qed.

(** The modes that only look. *)
Lemma release_read_only mode locked r : mode ≠ Release → hoare tresp (λ _ c, c = Inspect) [] r (release mode locked) (λ _ _ _, True).
Proof.
  intros Hm. unfold release. apply hoare_bind. eapply hoare_mono; [by apply structure_spec|]. intros h1 r1 [[pre leftovers]|] _; [|done]. destruct (negb _); [done|]. apply hoare_bind, hoare_modify.
  destruct mode; [done|done|]. unfold proveFinalState. apply hoare_bind. eapply hoare_mono; [by apply structure_spec|]. intros h2 r2 [[sn [|v l]]|] _; try done. by destruct (released _ _).
Qed.

Lemma release_quiet mode locked r : hoare tresp (λ _ c, mode ≠ Release → c = Inspect) [] r (release mode locked) (λ _ _ _, True).
Proof.
  destruct (decide (mode = Release)) as [->|Hne].
  - eapply hoare_mono; [|done]. eapply (ensures_protocol _ _ any); [apply any_spec|done].
  - eapply (ensures_protocol _ _ (λ _ c, c = Inspect)); [by apply release_read_only|]. by intros h c ->.
Qed.
End release.

(** * Applications *)

(** The end of an application: the journal owns no more than what is selected and
    active. *)
Definition confirmed (h : list tevent) : Prop :=
  ∃ sn, last_seen h = Some sn ∧ requireUsableCurrentState sn = true ∧
    ∀ capability, ∃ l, Ev (resp := tresp) (ActiveRecords (mkRef "IDENTITY_ACCESS" "PAM" (capabilityToken capability))) l ∈ h ∧ (l = [] ∨ ∃ r, l = [r] ∧ bound sn capability r = true).

Lemma confirm_spec h r : hoare tresp any h r confirmApplyOwnership (λ h' r' ok, r' = r ∧ (untouched h → untouched h') ∧ ∃ later, h' = later ++ h ∧ (ok = true → confirmed later)).
Proof.
  assert (∀ sn capability l, match l with [] => true | [r] => bound sn capability r | _ => false end = true → l = [] ∨ ∃ r, l = [r] ∧ bound sn capability r = true) as Hone.
  { intros sn capability [|x [|y l]] Hl; [by left|right; by exists x|done]. }
  assert (∀ (h : list tevent) e, leaves_alone e → untouched h → untouched (e :: h)) as Hun by (intros h0 e He Hu; by apply Forall_cons).
  unfold confirmApplyOwnership, confirm_capability, hoare. cbn. split; [done|]. intros [sn|]; cbn; [|split_and!; [done|intros; by apply Hun|by eexists [_]]].
  destruct (requireUsableCurrentState sn) eqn:Hu; cbn [negb]; [|cbn; split_and!; [done|intros; by apply Hun|by eexists [_]]]. cbn. split; [done|]. intros lq. cbn.
  destruct (match lq with [] => true | [r] => bound sn CapQuality r | _ => false end) eqn:Hq; cbn [negb]; [|cbn; split_and!; [done|intros; by repeat apply Hun|by eexists [_; _]]].
  cbn. split; [done|]. intros lh. cbn. split_and!; [done|intros; by repeat apply Hun|]. eexists [_; _; _]. split; [done|]. intros Hh. exists sn. split; [done|]. split; [done|].
  intros []; [exists lq; split; [right; left|by apply Hone]|exists lh; split; [left|by apply Hone]].
Qed.

Record applied_truthfully (q h : bool) (history : list tevent) (r : PamPasswordTransitionResult) (ok : bool) : Prop := {
  ap_success : tr_success r = ok;
  ap_reached : ok = true → ∃ later earlier, history = later ++ earlier ∧ reached q h earlier (tr_after r) ∧ confirmed later;
  ap_restored : tr_compensatedStateProven r = true → ok = false ∧ back history;
  ap_changed : tr_changedSystemState r = false → tr_compensatedStateProven r = true ∨ untouched history
}.

Lemma apply_truthful requested preflight : hoare tresp any [] fresh_result (applyJointRequestedState (Some requested) preflight) (applied_truthfully (qualityRequested requested) (historyRequested requested)).
Proof.
  unfold applyJointRequestedState. destruct (negb _); [unfold hoare; cbn; split; try done; intros _; right; constructor|]. apply hoare_bind. unfold coordinated. apply hoare_bind, hoare_modify.
  eapply hoare_mono; [apply transition_truthful|]. intros h1 r1 [] [H1 H2 H3 H4]; cbn [negb]; [|unfold hoare; cbn; by split]. apply hoare_bind. eapply hoare_mono; [apply confirm_spec|].
  assert (tr_compensatedStateProven r1 = true → False) as Hnc by (intros Hc; by destruct (H3 Hc)).
  intros h2 r2 ok (-> & Hun & later & -> & Hc). destruct ok; unfold hoare; cbn; split; cbn; try done; try (intros Hx; by destruct (Hnc Hx)).
  - intros _. exists later, h1. split_and!; [done|by apply H2|by apply Hc].
  - intros Hch. destruct (H4 Hch) as [?|?]; [by left|right; by apply Hun].
  - intros Hch. destruct (H4 Hch) as [?|?]; [by left|right; by apply Hun].
Qed.
