(* ===== verification/PamTopologyTheorems.v ===== *)
(** What the password topology promises: the grammar of the slots, the plans, the
    order of the changes on the machine, and the truth of the results. *)

From S2P Require Import Prelude PolicyModel MutationRecord MutationValid Effects PamSlots PamSlotFacts PamTopology PamTransition PamTransitionFacts PamTruth PamWriter PamMachine PamWriterFacts PamWriterWorld ConfigFile PamRelease PamReleaseFacts.
Open Scope string_scope.
Open Scope list_scope.

(** * Slots *)

Definition slot_options (i : ManagedPasswordSlotInspection) : ManagedPwhistorySlotOptions := default no_options (si_options i).
#[local] Arguments slot_options _ : simpl never.

(** C19. A managed slot file is read as neutral or as active exactly when it is the
    canonical text of that state: an active file is byte for byte what FIC writes
    for the mutation id and the options that are read from it, and everything else
    is broken, or unavailable when there is no file. *)
Theorem slot_grammar_exact spec content : spec ∈ slots →
  let '(ok, i) := inspectContent spec content in
  (si_state i = SNeutral ↔ content = Some (renderNeutral spec)) ∧
  (∀ id options, si_state i = SActive ∧ si_mutationId i = id ∧ slot_options i = options ↔
     valid_id id ∧ valid_options options ∧ (spec_role spec = RQuality → options = no_options) ∧ is_Some content ∧ content = renderActive spec id options) ∧
  (si_state i = SUnavailable ↔ content = None) ∧ (ok = true ↔ si_state i = SNeutral ∨ si_state i = SActive).
Proof.
  intros Hs. unfold inspectContent, renderNeutral. destruct content as [text|]; cbn.
  2: { split_and!; try done; [|split; [done|intros [?|?]; done]]. intros id options. split; [intros [? _]; done|intros (_ & _ & _ & [? ?] & _); done]. }
  destruct (String.eqb_spec text kNeutralBody) as [->|Hn]; cbn.
  { split_and!; try done; [|split; [by left|done]]. intros id options. split; [intros [? _]; done|]. intros (Hid & Ho & Hq & _ & Hr).
    assert (parseActiveContent spec kNeutralBody = Some (id, options)) as Hp by (apply active_exact; done). by rewrite neutral_is_not_active in Hp. }
  destruct (parseActiveContent spec text) as [[id options]|] eqn:Hp; cbn.
  - pose proof Hp as Hp'. apply active_exact in Hp' as (Hid & Ho & Hq & Hr); [|done]. split_and!; try (split; congruence); [|split; [by right|done]].
    assert (slot_options (mkInspection SActive (spec_role spec) (spec_role spec) (spec_capability spec) id (if bool_decide (spec_role spec = RQuality) then None else Some options)) = options) as Hso.
    { unfold slot_options. cbn. case_bool_decide; [symmetry; auto|done]. }
    intros id' options'. rewrite Hso. split; [intros (_ & <- & <-); split_and!; done|]. intros (Hid' & Ho' & Hq' & _ & Hr').
    assert (parseActiveContent spec text = Some (id', options')) as Hp2 by (apply active_exact; done). rewrite Hp in Hp2. by injection Hp2 as -> ->.
  - split_and!; try (split; congruence); [|split; [done|intros [?|?]; done]]. intros id options. split; [intros [? _]; done|]. intros (Hid & Ho & Hq & _ & Hr).
    assert (parseActiveContent spec text = Some (id, options)) as Hp2 by (apply active_exact; done). by rewrite Hp in Hp2.
Qed.

(** * The slot writer *)

(** C15. Activating a slot is write-ahead, whatever the disk and the journal answer:
    only its own slot is written, with the canonical text of an id that the journal
    has given out before, or neutral again; the record is completed only after the
    slot was read active with that id and not touched since; no file is removed;
    and success is reported only on a slot that was read active. *)
Theorem activation_is_write_ahead {E} (handle : ∀ c, E → wresp c * E) (euid egid : Z) domain role options e :
  let '((ok, _), history, _) := run wresp handle (activateC2Slot euid egid domain role options no_activation) [] e in
  (ok = true → proved_active role history) ∧
  ∀ later ev earlier, history = later ++ ev :: earlier →
    match ev_call ev with
    | AtomicWrite r t _ =>
        r = role ∧ (t = renderNeutral (spec_of role) ∨ ∃ record id o, Ev (JournalPrepare record) (Some id) ∈ earlier ∧ renderActive (spec_of role) id o = Some t)
    | JournalSetStatus id st => st = Applied ∧ ∃ i, inspected_as role i earlier ∧ si_state i = SActive ∧ si_mutationId i = id
    | Unlink _ => False
    | _ => True
    end.
Proof.
  pose proof (activate_ahead_spec euid egid domain role options [] no_activation) as Ha. unfold hoare in Ha.
  pose proof (run_protocol wresp handle _ _ _ e Ha) as Hprot. pose proof (run_ensures wresp handle (λ _ _, True) _ _ _ [] e (λ _ _ _ _ _, I) I Ha) as Hrun.
  destruct (run _ _ _ _ _) as [[[ok r] history] e']. cbn in Hprot. destruct Hrun as [Hok _]. split; [exact Hok|]. intros later ev earlier Hh. specialize (Hprot later ev earlier Hh).
  by destruct (ev_call ev).
Qed.

(** * Plans *)

(** C18. From a safe and usable state a plan that is made leads through safe and
    usable states only, one action per profile, to exactly the selections that it
    wants and to the topology class it names; it attaches only what is not
    selected, and detaches only what is selected and owned. *)
Theorem plan_is_safe x q h o : safe_state x = true →
  let plan := planPamPasswordTopology (topology_of (xp_selections x) (xp_foreign x)) q h o in
  plan_success plan = true → unownedSelectionsPreserved plan = [] →
  (∀ y, y ∈ states (plan_actions plan) x → safe_state y = true) ∧
  xp_selections (List.last (states (plan_actions plan) x) x) = wanted plan ∧
  (classifyPamPasswordTopology (topology_of (wanted plan) (xp_foreign x))).1 = desiredTopologyClass plan (xp_foreign x) ∧
  (∀ kind, kind ∈ plan_actions plan → legitimate (xp_selections x) o kind = true) ∧ NoDup (action_role <$> plan_actions plan) ∧
  (q = true → provides_quality (desiredTopologyClass plan (xp_foreign x)) = true) ∧ (h = true → provides_history (desiredTopologyClass plan (xp_foreign x)) = true).
Proof.
  intros Hx plan Hp Hu. pose proof (plan_checked x q h o Hx Hp Hu) as Hc. unfold plan_checks in Hc. fold plan in Hc.
  rewrite !andb_true_iff, !bool_decide_eq_true, !forallb_forall in Hc. destruct Hc as [[[Hs Hw] Hd] Hl].
  destruct (desired_provides _ q h o Hp) as [Hq Hh]. cbn [topology_of t_foreignQualityProducer] in Hq, Hh.
  split_and!; auto; [intros y Hy; by apply Hs, list_elem_of_In|intros kind Hk; by apply Hl, list_elem_of_In|]. by apply plan_actions_ok.
Qed.

(** * Transitions *)

(** C14. Neither applying a configuration nor releasing the package ever leaves a
    selected profile on a slot that is not active: on a disk where an atomic write
    replaces a whole slot or leaves it, with any call of the tool, of the disk or
    of the journal failing, this holds at every moment between two calls of the
    slot writers, of the actions and of their compensation, if it held before. *)
Theorem selected_slot_stays_active {E} (top : ∀ c, E → tresp c * E) (low : ∀ c, E → wresp c * E) (view : E → PamMachine) (euid egid : Z) `{!SlotDisk low view}
    config history preflight mode locked e :
  (∀ c e, serve euid egid c = None → effect c (top c e).1 (view e) (view (top c e).2)) → backed (view e) →
  Forall (λ e', backed (view e')) (course top low euid egid (applyJointRequestedState (readJointPasswordDesiredState config history) preflight fresh_result) e) ∧
  Forall (λ e', backed (view e')) (course top low euid egid (release mode locked fresh_report) e).
Proof.
  intros Htop Hb. assert (informed view [] e) as Hi by (split; [done| |done]; intros role (later & sn & earlier & Hh & _); by destruct later). split.
  - destruct (readJointPasswordDesiredState config history) as [requested|] eqn:Hr; [|by apply Forall_singleton].
    eapply (course_backed top low view euid egid Htop (historyOptions requested) _ _ [] e); [by eapply desired_options_valid|done|apply apply_order].
  - eapply (course_backed top low view euid egid Htop no_options _ _ [] e); [done|done|apply release_order].
Qed.

(** C16. Whatever the environment answers, the result of an application is backed
    by its own inspections. The state it starts from is the first one inspected,
    or, where an interrupted update was completed first, the first one after that.
    Success means that the last inspection of the transition proves a usable
    topology of the class that the plan for the starting state names, which
    provides what was requested unless the distribution's own producer came or
    went meanwhile, and that every active record of the journal is bound to a
    selected and owned slot. A restored state means failure, and that the last
    inspection shows the selections, slots and owners of the starting state, and
    its foreign producer if it had one. A result without changes means that no
    call that changes the system was made, or that the starting state was
    restored. *)
Theorem application_is_truthful {E} (handle : ∀ c, E → tresp c * E) requested preflight e :
  let '((ok, r), history, _) := run tresp handle (applyJointRequestedState (Some requested) preflight fresh_result) [] e in
  applied_truthfully (qualityRequested requested) (historyRequested requested) history r ok.
Proof.
  pose proof (run_ensures tresp handle (λ _ _, True) any (λ h' r, applied_truthfully (qualityRequested requested) (historyRequested requested) h' r.2 r.1)
    (applyJointRequestedState (Some requested) preflight fresh_result) [] e) as Hr.
  destruct (run _ _ _ _ _) as [[[ok r] history] e']. apply Hr; [done|done|]. apply apply_truthful.
Qed.

(** C17. Whatever the environment answers, a release (or the later proof of one)
    succeeds only when its last inspection shows nothing of FIC in the password
    topology: no profile selected, every slot neutral, no include, a usable state,
    and the distribution's producer still there if the first inspection of the
    release found it; and the modes that only judge make no call but
    inspections. *)
Theorem release_leaves_nothing {E} (handle : ∀ c, E → tresp c * E) mode locked e :
  let '((ok, report), history, _) := run tresp handle (release mode locked fresh_report) [] e in
  (ok = true → mode ≠ Preflight → ∃ pre sn, first_seen history = Some pre ∧ last_seen history = Some sn ∧ nothing_left pre sn ∧ rp_after report = (sn_class sn).1) ∧
  (mode ≠ Release → ∀ ev, ev ∈ history → ev_call ev = Inspect).
Proof.
  pose proof (run_ensures tresp handle (λ _ _, True) _ _ _ [] e (λ _ _ _ _ _, I) I (release_final mode locked fresh_report)) as Hf.
  pose proof (run_protocol tresp handle _ _ _ e (release_quiet mode locked fresh_report)) as Hp.
  destruct (run _ _ _ _ _) as [[[ok report] history] e']. destruct Hf as [Hf _]. split; [exact Hf|]. intros Hm ev (earlier & later & ->)%list_elem_of_split.
  by apply (Hp earlier ev later).
Qed.
