(* ===== verification/PamTopologyExamples.v ===== *)
(** A machine with profiles, slots, a generated stack and a journal, on which
    transitions and the slot writers run: success on every request, instances of
    the theorems, a producer that vanishes in between, and a slot that is left
    active without a record. *)

From S2P Require Import Prelude PolicyValue PolicyModel PamStack PamFlow TextLines MutationRecord MutationValid AtomicWriter Journal Effects PamSlots PamSlotFacts PamTopology PamTransition PamTransitionFacts PamTruth PamWriter PamMachine PamWriterFacts PamWriterWorld ConfigFile PamRelease PamReleaseFacts PamTopologyTheorems.
Open Scope string_scope.
Open Scope list_scope.

(** * The machine *)

Record Demo := mkDemo { d_selections : PamPasswordSelections; d_text : ManagedPasswordSlotRole → string; d_foreign : bool; d_journal : list MutationRecord; d_next : Z }.

Definition when (b : bool) (s : string) : string := if b then s +:+ eol else "".

Definition demo_view (d : Demo) : PamMachine :=
  let s := d_selections d in
  mkPamMachine
    (Some (when true "Module: unix" +:+ when (ficQualitySelected s) "Module: fic-password-quality-hook" +:+ when (ficHistorySelected s) "Module: fic-password-history-hook" +:+
           when (ficHistoryInitialSelected s) "Module: fic-password-history-initial-hook" +:+ when (d_foreign d) "Module: pwquality"))
    (λ role, Some (d_text d role))
    (Some (when true "# generated" +:+ when (ficQualitySelected s) "password include fic-password-quality" +:+ when (d_foreign d) "password requisite pam_pwquality.so retry=3" +:+
           when (ficHistoryInitialSelected s) "password include fic-password-history-initial" +:+ when (ficHistorySelected s) "password include fic-password-history" +:+
           when true "password [success=1 default=ignore] pam_unix.so obscure use_authtok"))
    (d_journal d).

Definition with_selections (s : PamPasswordSelections) (d : Demo) : Demo := mkDemo s (d_text d) (d_foreign d) (d_journal d) (d_next d).
Definition with_text (role : ManagedPasswordSlotRole) (t : string) (d : Demo) : Demo :=
  mkDemo (d_selections d) (λ r, if bool_decide (r = role) then t else d_text d r) (d_foreign d) (d_journal d) (d_next d).
Definition with_ledger (l : list MutationRecord) (next : Z) (d : Demo) : Demo := mkDemo (d_selections d) (d_text d) (d_foreign d) l next.

(** The tool does as it is told. *)
Definition tool (c : TCall) : Demo → tresp c * Demo :=
  match c with
  | Inspect => λ d, (inspectPamPasswordTopology (files_of (demo_view d)), d)
  | Native enable role => λ d, (true, with_selections (set_selected role enable (d_selections d)) d)
  | ActiveRecords p => λ d, (List.filter (λ r, bool_decide (policy r = p) && isActive r) (d_journal d), d)
  | DeactivateSlot _ | ProveOwned _ => λ d, (false, d)
  | ActivateSlot _ _ | CompletePrepared _ | UpdateOptions _ _ => λ d, ((false, no_activation), d)
  | CompensateSlot _ _ => λ d, ((false, false), d)
  end.

Definition demo_file (d : Demo) (role : ManagedPasswordSlotRole) : AtomicTargetState :=
  mkTarget (AtomicWriter.mkIdentity 1 (match role with RQuality => 1 | RHistoryNormal => 2 | RHistoryInitial => 3 end)) (d_text d role) 420 0 0.

Definition fits (id : Z) : bool := (0 <=? id)%Z && (id <=? UINTMAX_MAX)%Z.

(** A disk and a journal on which nothing fails. *)
Definition works (c : WCall) : Demo → wresp c * Demo :=
  match c with
  | Lstat _ => λ d, (LookFile, d)
  | ReadRegular role => λ d, (Some (demo_file d role), d)
  | AtomicWrite role t options => λ d,
      if bool_decide (expectedTargetState options = Some (demo_file d role)) then ((true, true), with_text role t d) else ((false, false), d)
  | Unlink _ => λ d, (false, d)
  | FsyncParent _ | JournalOperational | JournalReadable => λ d, (true, d)
  | JournalRecords => λ d, (d_journal d, d)
  | JournalPrepare r => λ d,
      match List.find (λ old, isActive old && bool_decide (policy old = policy r) && fits (mid old)) (d_journal d) with
      | Some old => (Some (mid old), with_ledger ((λ x, if bool_decide (mid x = mid old) then with_status Prepared (with_undo (undo r) x) else x) <$> d_journal d) (d_next d) d)
      | None =>
          if fits (d_next d) then (Some (d_next d), with_ledger (d_journal d ++ [mkRecord (d_next d) (policy r) (resource r) (undo r) Prepared 0%Z 0%Z ""]) (d_next d + 1) d)
          else (None, d)
      end
  | JournalDiscard id => λ d, (true, with_ledger (List.filter (λ x, negb (bool_decide (mid x = id))) (d_journal d)) (d_next d) d)
  | JournalSetStatus id st => λ d, (true, with_ledger ((λ x, if bool_decide (mid x = id) then with_status st x else x) <$> d_journal d) (d_next d) d)
  end.

(** Some slots active and recorded, some profiles selected. *)
Definition demo_id (role : ManagedPasswordSlotRole) : Z := match role with RQuality => 7 | RHistoryNormal => 8 | RHistoryInitial => 9 end.
Definition demo_options : ManagedPwhistorySlotOptions := mkSlotOptions (Some 5%Z) true.
Definition demo_record (role : ManagedPasswordSlotRole) : MutationRecord :=
  let name := passwordDomainPolicyName role in
  mkRecord (demo_id role) (mkRef "IDENTITY_ACCESS" "PAM" name) ("capability/" +:+ name)
    (mkUndo Pam (PCapability (mkCapability name PamAuthUpdate [slotProfileIdentifier role] false None None ""))) Applied 0%Z 0%Z "".
Definition installed_demo (selections active : PamPasswordSelections) (foreign : bool) : Demo :=
  mkDemo selections
    (λ role, if selected role active then default "" (renderActive (spec_of role) (demo_id role) (match role with RQuality => no_options | _ => demo_options end)) else kNeutralBody)
    foreign (demo_record <$> List.filter (λ role, selected role active) [RQuality; RHistoryNormal; RHistoryInitial]) 10.

Definition machine : ∀ c, Demo → tresp c * Demo := served tool works 0 0.

(** * The machine is one *)

Lemma demo_read d : (read_state (pm_state (demo_view d))).1 = d_selections d.
Proof. destruct d as [[[] [] []] t [] j n]; vm_compute; reflexivity. Qed.

Lemma tool_faithful c d : serve 0 0 c = None → effect c (tool c d).1 (demo_view d) (demo_view (tool c d).2).
Proof.
  destruct c; try discriminate; intros _; cbn [tool effect fst snd]; unfold profile_selected; rewrite ?demo_read; [split; [done|by right]| |done].
  split; [done|]. cbn [with_selections d_selections]. split; [intros role' Hne|]; destruct role; [..|destruct enable; by auto|destruct enable; by auto|destruct enable; by auto]; by destruct role'.
Qed.

Lemma fits_range id : fits id = true → (0 ≤ id ≤ UINTMAX_MAX)%Z.
Proof. intros [?%Z.leb_le ?%Z.leb_le]%andb_true_iff. done. Qed.

Lemma works_disk c d : disk_effect c (works c d).1 (demo_view d) (demo_view (works c d).2).
Proof.
  destruct c as [r|r|r t o|r|r| | | |rec|id|id st]; cbn [works disk_effect fst snd]; try done.
  - split; [done|]. by intros f [= <-].
  - case_bool_decide; cbn [fst snd]; [|split; [done|split; [done|by left]]]. split; [done|]. split; [|right; cbn; by rewrite bool_decide_eq_true_2].
    intros r' Hne. cbn. rewrite bool_decide_eq_false_2; [done|congruence].
  - destruct (List.find _ _) as [old|] eqn:Hf; [|destruct (fits (d_next d)) eqn:Hn]; cbn [fst snd]; (split; [done|]; split; [done|]); intros i [= <-]; [|by apply fits_range].
    apply List.find_some in Hf as [_ [_ Hfit]%andb_true_iff]. by apply fits_range.
Qed.
#[export] Instance works_SlotDisk : SlotDisk works demo_view := {| disk := works_disk |}.

(** * Every request succeeds *)

Definition usable_demo (d : Demo) : bool := match inspectPamPasswordTopology (files_of (demo_view d)) with Some sn => requireUsableCurrentState sn | None => false end.
Definition demo_run (d : Demo) (q h : bool) : bool * PamPasswordTransitionResult * Demo :=
  let '((ok, r), _, d') := run tresp machine (transition q h no_options fresh_result) [] d in (ok, r, d').

Definition settles_demo (d : Demo) (q h : bool) : bool :=
  let '(ok, r, d') := demo_run d q h in
  negb (usable_demo d) ||
  ok && usable_demo d' && implb q (provides_quality (tr_after r)) && implb h (provides_history (tr_after r)) &&
  implb (negb q) (negb (ficQualitySelected (d_selections d'))) &&
  implb (negb h) (negb (ficHistorySelected (d_selections d')) && negb (ficHistoryInitialSelected (d_selections d'))).
Definition all_bools (P : bool → bool) : bool := P true && P false.

Lemma all_bools_spec P : all_bools P = true → ∀ b, P b = true.
Proof. intros [? ?]%andb_true_iff []; done. Qed.

Lemma demo_settles s a f q h : settles_demo (installed_demo s a f) q h = true.
Proof.
  assert (all_bools (λ a, all_bools (λ b, all_bools (λ c, all_bools (λ a', all_bools (λ b', all_bools (λ c', all_bools (λ f, all_bools (λ q, all_bools (λ h,
    settles_demo (installed_demo (mkSelections a b c) (mkSelections a' b' c') f) q h))))))))) = true) as Hall by (vm_compute; reflexivity).
  destruct s as [x y z], a as [x' y' z']. apply (all_bools_spec _ (all_bools_spec _ (all_bools_spec _ (all_bools_spec _ (all_bools_spec _ (all_bools_spec _ (all_bools_spec _
    (all_bools_spec _ (all_bools_spec _ Hall x) y) z) x') y') z') f) q) h).
Qed.

(** From any usable state of such a machine a transition succeeds: it ends in a
    usable state that provides what was requested and has no FIC profile for what
    was not. *)
Theorem transition_succeeds s a f q h : usable_demo (installed_demo s a f) = true →
  let '(ok, r, d') := demo_run (installed_demo s a f) q h in
  ok = true ∧ usable_demo d' = true ∧ (q = true → provides_quality (tr_after r) = true) ∧ (h = true → provides_history (tr_after r) = true) ∧
  (q = false → ficQualitySelected (d_selections d') = false) ∧
  (h = false → ficHistorySelected (d_selections d') = false ∧ ficHistoryInitialSelected (d_selections d') = false).
Proof.
  intros Hu. pose proof (demo_settles s a f q h) as Hs. unfold settles_demo in Hs. rewrite Hu in Hs. destruct (demo_run _ q h) as [[ok r] d'].
  cbn [negb orb] in Hs. rewrite !andb_true_iff in Hs. destruct Hs as [[[[[-> Hu'] Hq] Hh] Hnq] Hnh].
  split_and!; [done|done|intros ->; exact Hq|intros ->; exact Hh|intros ->; by apply negb_true_iff|intros ->]. by apply andb_true_iff in Hnh as [?%negb_true_iff ?%negb_true_iff].
Qed.

(** * Instances *)

Definition none : PamPasswordSelections := mkSelections false false false.
Definition initial : PamPasswordSelections := mkSelections false false true.

(** Switching from the initial history to quality and history takes three steps. *)
Example switch_steps : let '(ok, r, _) := demo_run (installed_demo initial initial false) true true in
  (ok, tr_before r, tr_after r, tr_executed r) =
    (true, TFicHistoryInitial, TFicQualityPlusFicHistory, planActionProfileId <$> [DetachFicHistoryInitial; AttachFicQuality; AttachFicHistoryConsumer]).
Proof. vm_compute. reflexivity. Qed.

Lemma slot_grammar_exact_witness : let '(ok, i) := inspectContent historyNormalSlot (renderActive historyNormalSlot 8 demo_options) in
  si_state i = SActive ∧ si_mutationId i = 8%Z ∧ slot_options i = demo_options.
Proof.
  pose proof (slot_grammar_exact historyNormalSlot (renderActive historyNormalSlot 8 demo_options)) as Hg.
  destruct (inspectContent historyNormalSlot (renderActive historyNormalSlot 8 demo_options)) as [ok i]. apply Hg; [right; left|].
  split; [vm_compute; split; congruence|]. split; [vm_compute; split; congruence|]. split; [discriminate|]. split; [|reflexivity]. vm_compute. by eexists.
Defined.

Lemma plan_is_safe_witness : let x := mkExpected initial (slots_of initial) false in
  let plan := planPamPasswordTopology (topology_of (xp_selections x) (xp_foreign x)) true true (mkOwnership false false true false false false) in
  xp_selections (List.last (states (plan_actions plan) x) x) = mkSelections true true false ∧ ∀ y, y ∈ states (plan_actions plan) x → safe_state y = true.
Proof.
  destruct (plan_is_safe (mkExpected initial (slots_of initial) false) true true (mkOwnership false false true false false false)) as (Hs & Hw & _);
    [vm_compute; reflexivity..|]. split; [exact Hw|exact Hs].
Defined.

(** A configuration that asks for both, with a depth of its own. *)
Definition demo_config : Config :=
  ModuleConfig.load ("enable_password_quality.status=ENABLE" +:+ eol +:+ "enable_password_history.status=ENABLE" +:+ eol +:+ "password_history_depth.value=12" +:+ eol).
Definition demo_platform : option (PamCapabilityConfigurationMode * PamModuleArgumentSupport) := Some (ModuleArguments, mkSupport true true).

Example desired_of_config : readJointPasswordDesiredState (Some demo_config) demo_platform = Some (mkRequested true true (mkSlotOptions (Some 12%Z) false)).
Proof. vm_compute. reflexivity. Qed.

Lemma selected_slot_stays_active_witness :
  Forall (λ d, backed (demo_view d)) (course tool works 0 0 (applyJointRequestedState (readJointPasswordDesiredState (Some demo_config) demo_platform) (λ _, true) fresh_result) (installed_demo initial initial false)) ∧
  Forall (λ d, backed (demo_view d)) (course tool works 0 0 (release Release true fresh_report) (installed_demo initial initial false)).
Proof. apply (selected_slot_stays_active tool works demo_view 0 0); [exact tool_faithful|]. intros []; vm_compute; congruence. Defined.

(** The application succeeds, the slot has the new depth; the release then leaves
    nothing, in the reverse order. *)
Definition applied_demo : bool * Demo :=
  let '((ok, _), _, d) := run tresp machine (applyJointRequestedState (readJointPasswordDesiredState (Some demo_config) demo_platform) (λ _, true) fresh_result) [] (installed_demo initial initial false) in (ok, d).
Example application_runs : let '(ok, d) := applied_demo in
  ok = true ∧ d_selections d = mkSelections true true false ∧ Some (d_text d RHistoryNormal) = renderActive historyNormalSlot 11 (mkSlotOptions (Some 12%Z) false).
Proof. vm_compute. repeat split; reflexivity. Qed.
Example release_runs : let '((ok, r), _, d) := run tresp machine (release Release true fresh_report) [] applied_demo.2 in
  ok = true ∧ rp_detached r = planActionProfileId <$> [DetachFicHistoryConsumer; DetachFicQuality] ∧ d_selections d = none ∧ d_text d RQuality = kNeutralBody ∧ d_text d RHistoryNormal = kNeutralBody.
Proof. vm_compute. repeat split; reflexivity. Qed.

(** The tool does not select the consumer: everything is taken back. *)
Definition stubborn (c : TCall) : Demo → tresp c * Demo :=
  match c with Native true RHistoryNormal => λ d, (false, d) | c => tool c end.
Example taken_back : let '((ok, r), _, d) := run tresp (served stubborn works 0 0) (transition true true no_options fresh_result) [] (installed_demo none none false) in
  (ok, tr_compensated r, tr_compensatedStateProven r, tr_after r) = (false, true, true, TNone) ∧ d_selections d = none ∧ d_text d RQuality = kNeutralBody.
Proof. vm_compute. repeat split; reflexivity. Qed.

(** * A producer that vanishes *)

(** The distribution's producer is there at the first look only. *)
Definition vanishing (c : TCall) : bool → tresp c * bool :=
  match c with
  | Inspect => λ first, (inspectPamPasswordTopology (files_of (demo_view (installed_demo none none first))), false)
  | c => λ b, ((tool c (installed_demo none none false)).1, b)
  end.

(** Quality is requested and not there at the end, and the transition reports
    success. *)
Example success_without_quality : let '((ok, r), _, _) := run tresp vanishing (transition true false no_options fresh_result) [] true in
  (ok, tr_success r, tr_after r) = (true, true, TNone) ∧ provides_quality (tr_after r) = false.
Proof. vm_compute. split; reflexivity. Qed.

(** * A slot without a record *)

(** The read that follows a write fails. *)
Definition unread (c : WCall) : Demo * bool → wresp c * (Demo * bool) :=
  match c with
  | ReadRegular role => λ e, if e.2 then (None, (e.1, false)) else let '(x, d) := works (ReadRegular role) e.1 in (x, (d, false))
  | AtomicWrite role t o => λ e, let '(x, d) := works (AtomicWrite role t o) e.1 in (x, (d, true))
  | c => λ e, let '(x, d) := works c e.1 in (x, (d, e.2))
  end.

(** The write was made, but it counts as not committed, so nothing is taken back
    and the record is discarded: the slot stays active with an id that the journal
    does not know, and the report says that nothing changed. *)
Example active_slot_without_record :
  let '((ok, r), _, (d, _)) := run wresp unread (activateC2Slot 0 0 DomainQuality RQuality no_options no_activation) [] (installed_demo none none false, false) in
  (ok, r) = (false, no_activation) ∧ Some (d_text d RQuality) = renderActive qualitySlot 10 no_options ∧ d_journal d = [].
Proof. vm_compute. repeat split; reflexivity. Qed.

(** * A recovery that is not counted *)

(** The slot of an interrupted activation: active with a prepared record, and not
    selected. *)
Definition interrupted : Demo :=
  mkDemo none (λ role, if bool_decide (role = RQuality) then default "" (renderActive qualitySlot 7 no_options) else kNeutralBody) false [with_status Prepared (demo_record RQuality)] 10.

(** The release neutralizes it, and reports that nothing changed. *)
Example recovery_is_not_reported : let '((ok, r), _, d) := run tresp machine (release Release true fresh_report) [] interrupted in
  (ok, rp_recovered r, rp_changed r) = (true, [kFicPasswordQualityHookProfileId], false) ∧ d_text d RQuality = kNeutralBody ∧ d_text interrupted RQuality ≠ kNeutralBody.
Proof. vm_compute. repeat split; [reflexivity..|discriminate]. Qed.
